(* ===== verification/_CoqProject ===== *)
-Q . S2P
Prelude.v
LzCodec.v
Schema.v
SendScope.v
Outbox.v
Attempts.v
CancelReconcile.v
Jobs.v
StoreInv.v
StoreSteps.v
Store.v
StoreOps.v
GoErr.v
Classify.v
Voting.v
Quorum.v
Sha256.v
StateReads.v
QuorumLogs.v
Proc.v
BigUtil.v
TxMgr.v
TxMgrSample.v
TxMgrProofs.v
TxMgrOutcome.v
TxMgrSigning.v
Registry.v
Worker.v
WorkerProofs.v
Executor.v
ExecutorProofs.v
PacketLogs.v
PacketLogsProofs.v
Dvn.v
DvnProofs.v
Indexer.v
IndexerProofs.v
WorkerSample.v
PriceMath.v
PriceSelect.v
PriceUpdates.v
PriceSources.v
Pricing.v
BotLogic.v
PricingProofs.v
PricingSample.v
StringOrder.v
Stats.v
StatsProofs.v
Readiness.v
ReadinessProofs.v
FeeAccounting.v
FeeAccountingProofs.v
Config.v
ConfigProofs.v
App.v
AppProofs.v
AppSample.v
ConfigCheck.v
ConfigCheckProofs.v
Der.v
Signers.v
Balance.v
MarketData.v
StrictYaml.v
ConfigDiff.v
ConfigDiffProofs.v
DbSetup.v
DbSetupProofs.v
