(* ===== verification/Prelude.v ===== *)
(** * The oh-my-lazier LayerZero worker: a verification library

    ** The program

    oh-my-lazier is an off-chain LayerZero worker written in Go (src/go). It
    indexes packets on source chains, verifies them as a DVN, commits and
    delivers them as an executor, and publishes prices. All work of all workers
    meets in one PostgreSQL database:

    - the workers (indexer, dvn, executor, pricing) read chains through the RPC
      quorum client (go/internal/rpcquorum), which trusts a provider only where a
      majority of the configured providers agrees, and write packets, jobs and
      transaction requests to the store (go/internal/db);
    - the transaction manager (go/internal/txmgr) turns each request (a row of
      tx_outbox) into signed attempts (tx_attempts), broadcasts them, follows
      their receipts, replaces, cancels, retries and reconciles nonces;
    - the store's methods are single database transactions; several instances of
      every worker may run at once, any call may fail before or after its commit,
      and any process may stop anywhere.

    ** The model

    Prelude: Go results, record update, ordered selection, lists and integers.
    LzCodec: go/internal/lz, the packet and executor-option decoders.

    The store (go/internal/db, go/migrations):
    Schema (tables as records of finite maps, [run_tx] for transactions),
    SendScope (send_scope.go, pause.go), Outbox (outbox.go), Attempts
    (tx_attempts.go, tx_receipts.go), CancelReconcile (tx_cancel_reconcile.go),
    Jobs (packets.go, executor_jobs.go, dvn_jobs.go, pricing_pending.go,
    indexer_cursors.go, source_packet_skips.go). One definition per Store method, with the method's
    name, taking the statement time [now] and returning the tables and a result.
    Store: [store_op] lists every writing method, [exec] runs one, [step] is any
    operation at any time, [reachable] any sequence of steps from freshly
    migrated tables: concurrent workers are interleavings of transactions.

    The quorum client (go/internal/rpcquorum): Voting (quorum arithmetic),
    Quorum (heads, headers, nonces, canonical hashes), StateReads (calls, code
    and gas estimates by vote), QuorumLogs (log windows and receipts by vote),
    Sha256 (the digest answers are compared by, executable), GoErr and Classify
    (Go error trees and the classifiers over them). A round is a function of what
    the providers answered, in the order the answers arrived.

    The transaction manager: Proc (worker routines as trees of store calls and
    questions to the outside; [behaves] is every execution of a routine: any
    answers, other workers' steps in between, failed calls, a stop anywhere;
    [safe] is a program logic proved sound for [behaves]; [simulate] runs a
    routine on concrete answers), BigUtil (bigutil.go), TxMgr (sender.go and
    txmgr.go, one routine per method up to the loop), TxMgrSample (a concrete
    transaction type, target and chain for the witnesses).

    The chain workers (routines over Proc): Registry (chain/registry.go), Worker
    (the questions to a chain's quorum client, anchored view calls, the loop and
    the worker errors), Executor (executor.go, readiness.go, txbuilder.go),
    PacketLogs (the event decoders of go/internal/lzabi and the decoding of source
    transactions in go/internal/indexer), Dvn (dvn.go), Indexer (indexer.go,
    destination_events.go), WorkerSample (a codec, two chains and a source
    transaction on which every worker runs, for the witnesses).

    The price bot (go/internal/pricing): PriceMath (conversions, deviations,
    snapshots, fee models and settings of pricing.go, over rationals), PriceSelect
    (the primary and sanity policy of ChainNativePrice; the concurrent answers as a
    list in order of arrival), PriceUpdates (updates, batches, calldata),
    PriceSources (the Chainlink and Uniswap clients, their error kinds and the
    start-up check), MarketData (the CoinMarketCap and CoinGecko clients of
    marketdata.go), Pricing (the bot: a routine over Proc that threads the Bot
    fields and the cycle memo; errors do not roll them back), BotLogic (the program
    logic [safe] for such routines), PricingSample (an ABI codec and a world for the
    witnesses). FeeAccounting (feeaccounting/reconciler.go) prices the gas of past
    transactions with the same selection.

    Starting up: StrictYaml (config/strict_yaml.go, on the node tree of the
    document), Config (config/config.go: records, defaults, every check of
    Validate), App (app/app.go: price sources, settings, transaction targets with
    their fee policies, supervision of a loop), AppSample (a configuration, for the
    witnesses), Der and Signers (signer/kms, signer/keystore, with the DER forms KMS
    answers with), DbSetup (db/db.go: migrations and the sync of the chains and
    pathways tables; StringOrder is the order of sort.Strings).

    Operating: Stats (db/stats.go, fee_accounting.go, drain.go: every query as a
    function of the tables), Readiness (readiness/readiness.go), Balance
    (txmgr/balance.go), ConfigCheck (configcheck/check.go, over the answers of the
    chains), ConfigDiff (configdiff/diff.go).

    ** The theorems

    Store, StoreOps: [inv] is inductive over all operations (StoreInv,
    StoreSteps); from it, for every interleaving: nonces of a signer lane are
    unique and below the cursor, request columns, nonces, attempts and pinned
    outcomes never change, an unsigned row was never sent, a failed row has at
    most one retry child, retries are charged once per failing transaction; and
    the contracts of single operations (signing and broadcast claims, receipt
    resolution, reconciliation, bootstrap, the pricing gate, backoff).
    SendScope: the lock-free selector predicate equals the locking gate; a pause
    blocks every purpose. LzCodec: the decoders accept exactly the encodings of
    reference encoders, and invert them.
    Quorum, StateReads, QuorumLogs: what is returned has a quorum behind it, an
    honest majority gets an answer, providers outside the majority are demoted.
    Classify: an error text decides an outcome only when it proves it.
    TxMgrProofs, TxMgrOutcome, TxMgrSigning, over every execution: what is sent
    was persisted and counted first; what is persisted is what the row asked
    for, whatever the signer returned; a receipt settles a row only when
    confirmed and canonical; a nonce is written off only when the chain shows it, at
    the confirmed block; fees respect their caps.
    WorkerProofs carries what a routine was told into the conditions its writes
    must meet. With it, over every execution: ExecutorProofs, a commit or delivery
    is enqueued, and a terminal state marked, only on the views read at one anchor
    (at the confirmation depth for a terminal state); DvnProofs, a job passes the
    confirmation gate only with a source head deep enough, is ready only on a
    receipt that proves the packet, and a ready job is enqueued only when it is not
    yet verified and its configuration still approved; IndexerProofs, windows and
    chunks tile the confirmed blocks, every stored row is backed by fetched logs,
    and a cursor moves only past blocks whose every event was handled, each on the
    packet it names. PacketLogsProofs: assignment logs and records are in one-to-one
    correspondence, and a packet record is the log's. Registry: lookups by route.
    PriceMath, PriceSelect, PriceUpdates, PriceSources: a snapshot never
    undercharges, the primary price is never replaced by another source, updates are
    grouped by feed, a price is read at one block and no tick divides by zero.
    PricingProofs, over every execution: each entry the bot writes follows from
    prices, gas, clock and stored snapshot it was told before, and its transactions
    decode strictly; a gas-spike check re-evaluates exactly the feeds it must.
    MarketData: a price is the positive quote of the configured asset in a complete
    response, and a request with the key is redirected only within its origin.
    FeeAccountingProofs: a cost is marked only from the receipt's gas and the price
    of the packet's destination.
    ConfigProofs: [Validate_iff] is what Validate accepts, without its loops and
    maps; StrictYaml: the document check is exact. AppProofs, for a validated
    configuration: its registry answers every route, its price bot is built once the
    market-data clients it names are, and every transaction a worker enqueues has a
    target with a fee policy; the order of Go's maps does not matter; a supervised loop ends with an error only when it
    failed fatally. DbSetupProofs: if its eids fit an INTEGER column, which Validate
    does not ask, its sync succeeds, enables exactly what is configured, keeps
    pauses and the constraints SendScope relies on. DbSetup:
    migrations are idempotent and refuse a changed file. Signers: KMS signatures
    are canonical and recover the configured address; DER round trips.
    StatsProofs: a fee statistic reports the fees of the jobs of its role and chains
    and the priced gas of their transactions, and the drain check is ready exactly
    when nothing is left, which a retried transaction prevents for ever.
    ReadinessProofs: ready exactly when the columns of the tables need no operator.
    ConfigCheckProofs: a check passes exactly when the chains hold what is
    configured, the limits compared in their low 64 bits. ConfigDiffProofs: a diff
    is empty exactly when every setting is the same, does not depend on the order of
    maps and shows no secret. Balance: each complete target is recorded once per poll.

    ** Bounds

    Integers are [Z]; uint64 and int64 conversions that the code performs are
    written out (int64_of_uint64, u64). Loops over stored rows, providers,
    attempts or bytes are structural recursions on the lists they traverse; the
    endless loops of the workers take a number of passes, and their theorems hold
    for every number. Backoff loops recurse on their counter. The chunk loop of the
    indexer has the window's size as fuel, which [window_chunks_tile] proves enough.

    ** Parameters

    Code outside src/go is a parameter: keccak256 (LzCodec), the checksummed
    address text (QuorumLogs), go-ethereum's transactions (class TxLib: no law
    is assumed of it), the contract ABIs (classes LzAbi, EventAbi and SourceAbi,
    also without laws; PriceAbi with the law that an encoding decodes to what was
    encoded), the curve and the transaction signer (EthCrypto, EthTransactions,
    without laws), the key file decryption, the AWS client, the providers' answers,
    the signer's answers, the clocks, the environment and the files. Of the
    standard library, URL and rational parsing, HTTP, JSON and the range order of
    maps are interfaces (ConfigRuntime, URLText, MarketRuntime); their only laws are
    that a range visits every entry once and that URL.String prints no raw fragment
    without a fragment.

    ** Not modelled

    Log lines and the Prometheus text of go/internal/metrics (strings rendered from
    the statistics that are modelled); error texts beyond what a decision reads;
    deadlines and cancellation (they appear as failing answers); writes between the
    separate queries of Stats and CheckDrainStatus, which are modelled on one state
    of the tables; the parallel
    probes of a reconciliation pass are taken in order and its lease heartbeat is a
    step of another worker; connection management; decoding the YAML tree into the
    records, the text form of addresses (go-ethereum's) and app.Run, which opens
    connections and starts goroutines; the columns of chains and pathways that no
    operation reads (names, chain ids, libraries); the command-line tools under
    go/cmd, which parse flags, call the operations above and print, and the
    end-to-end test probes among them. An absent and an empty list are one value in
    the configuration's records. *)

From stdpp Require Import base decidable countable gmap strings list numbers fin_maps.
From Stdlib Require Import Strings.Byte.
From Stdlib Require Import ZArith Lia.

#[global] Open Scope Z_scope.

(** ** Go results: a value or an error, never both. *)

Inductive result (E A : Type) : Type :=
| Ok (a : A)
| Err (e : E).
Arguments Ok {E A} _.
Arguments Err {E A} _.

#[export] Instance result_ret E : MRet (result E) := fun _ a => Ok a.
#[export] Instance result_bind E : MBind (result E) := fun _ _ k r =>
  match r with Ok a => k a | Err e => Err e end.
#[export] Instance result_fmap E : FMap (result E) := fun _ _ f r =>
  match r with Ok a => Ok (f a) | Err e => Err e end.

#[export] Instance result_eq_dec {E A} `{EqDecision E, EqDecision A} :
  EqDecision (result E A).
Proof. solve_decision. Defined.

Definition is_ok {E A} (r : result E A) : bool :=
  match r with Ok _ => true | Err _ => false end.

(** [check P or e ;; k] is Go's [if !P { return e }; k]. *)
Declare Scope worker_scope.
Delimit Scope worker_scope with worker.
Notation "'check' P 'or' e ;; k" := (if decide P then k else Err e)
  (at level 100, P at level 99, e at level 99, k at level 200, right associativity,
   format "'[v' 'check'  P  'or'  e ;; '/' k ']'") : worker_scope.
#[global] Open Scope worker_scope.

(** ** Functional record update.

    [r <| f := v |>] replaces field [f]; an [Eta] instance lists the fields of
    a record once and the update is found by abstracting the projection in
    that list. *)

Class Eta (R : Type) := eta : R -> R.
Class Update {R F : Type} (proj : R -> F) := update : (F -> F) -> R -> R.
Arguments update {R F} proj {_} _ _.

Ltac build_update proj :=
  lazymatch type of proj with
  | ?R -> ?F =>
    let e := constr:(ltac:(typeclasses eauto) : Eta R) in
    let body := eval red in e in
    lazymatch eval pattern proj in body with
    | ?abs _ =>
      let t := constr:(fun (g : F -> F) => abs (fun r : R => g (proj r))) in
      let t := eval cbv beta in t in
      exact t
    end
  end.

#[export] Hint Extern 0 (Update ?proj) => build_update proj : typeclass_instances.
Notation "r <| proj := v |>" := (update proj (fun _ => v) r)
  (at level 1, left associativity, proj at level 9,
   format "r  <| proj  :=  v |>") : worker_scope.

(** ** Big-endian byte strings (encoding/binary.BigEndian, big.Int.SetBytes). *)

Abbreviation bytes := (list byte).

#[export] Instance byte_eq_decision : EqDecision byte := Byte.byte_eq_dec.
#[export] Instance byte_countable : Countable byte :=
  inj_countable Byte.to_N Byte.of_N Byte.of_to_N.

Definition byte_val (b : byte) : Z := Z.of_N (Byte.to_N b).

Definition byte_of_Z (z : Z) : byte :=
  match Byte.of_N (Z.to_N (z mod 256)) with Some b => b | None => x00 end.

(** [be_combine] folds from the most significant byte. *)
Definition be_combine (l : bytes) : Z :=
  fold_left (fun acc b => acc * 256 + byte_val b) l 0.

Fixpoint be_split (n : nat) (z : Z) : bytes :=
  match n with
  | O => []
  | S n => be_split n (z / 256) ++ [byte_of_Z z]
  end.

Lemma byte_val_range b : 0 <= byte_val b < 256.
Proof. unfold byte_val. pose proof (Byte.to_N_bounded b). lia. Qed.

Lemma byte_val_of_Z z : byte_val (byte_of_Z z) = z mod 256.
Proof.
  unfold byte_val, byte_of_Z.
  assert (0 <= z mod 256 < 256) as Hr by (apply Z.mod_pos_bound; lia).
  destruct (Byte.of_N (Z.to_N (z mod 256))) as [b|] eqn:E.
  - apply Byte.to_of_N in E. rewrite E. lia.
  - apply Byte.of_N_None_iff in E. lia.
Qed.

Lemma byte_val_inj b1 b2 : byte_val b1 = byte_val b2 -> b1 = b2.
Proof.
  unfold byte_val. intros H%N2Z.inj.
  assert (Some b1 = Some b2) as [=]; [|done].
  by rewrite <- (Byte.of_to_N b1), <- (Byte.of_to_N b2), H.
Qed.

Lemma be_combine_snoc l b : be_combine (l ++ [b]) = be_combine l * 256 + byte_val b.
Proof. unfold be_combine. by rewrite fold_left_app. Qed.

Lemma be_combine_range l : 0 <= be_combine l < 256 ^ Z.of_nat (length l).
Proof.
  induction l as [|b l IH] using rev_ind; [done|].
  rewrite be_combine_snoc, length_app. cbn [length].
  pose proof (byte_val_range b). rewrite Nat.add_1_r, Nat2Z.inj_succ, Z.pow_succ_r; lia.
Qed.

Lemma length_be_split n z : length (be_split n z) = n.
Proof. revert z. induction n as [|n IH]; intros z; [done|]. simpl. rewrite length_app, IH. simpl. lia. Qed.

Lemma be_combine_split n z : be_combine (be_split n z) = z mod 256 ^ Z.of_nat n.
Proof.
  revert z. induction n as [|n IH]; intros z.
  - simpl. by rewrite Z.mod_1_r.
  - cbn [be_split]. rewrite be_combine_snoc, IH, byte_val_of_Z.
    rewrite Nat2Z.inj_succ, Z.pow_succ_r by lia.
    rewrite (Z.rem_mul_r z 256) by lia. lia.
Qed.

Lemma be_split_combine l : be_split (length l) (be_combine l) = l.
Proof.
  induction l as [|b l IH] using rev_ind; [done|].
  rewrite be_combine_snoc, length_app, Nat.add_1_r. cbn [length be_split].
  pose proof (byte_val_range b).
  rewrite Z.div_add_l by lia. rewrite Z.div_small, Z.add_0_r, IH by lia.
  f_equal. f_equal. apply byte_val_inj. rewrite byte_val_of_Z.
  by rewrite Z.add_comm, Z.mod_add, Z.mod_small by lia.
Qed.

Lemma be_combine_split_small n z : 0 <= z < 256 ^ Z.of_nat n -> be_combine (be_split n z) = z.
Proof. intros. by rewrite be_combine_split, Z.mod_small. Qed.

Lemma be_split_inj n z1 z2 :
  0 <= z1 < 256 ^ Z.of_nat n -> 0 <= z2 < 256 ^ Z.of_nat n ->
  be_split n z1 = be_split n z2 -> z1 = z2.
Proof. intros ?? H%(f_equal be_combine). by rewrite !be_combine_split_small in H. Qed.

Lemma be_combine_zero_iff l : be_combine l = 0 <-> Forall (fun b => b = x00) l.
Proof.
  induction l as [|b l IH] using rev_ind; [done|].
  rewrite be_combine_snoc, Forall_app, Forall_singleton, <- IH.
  pose proof (byte_val_range b). pose proof (be_combine_range l).
  split; [intros; split; [lia|apply byte_val_inj; change (byte_val x00) with 0; lia]|].
  intros [-> ->]. done.
Qed.

(** ** go-ethereum's fixed-width values, kept as numbers. *)

Definition HashLength : nat := 32.
Definition AddressLength : nat := 20.
Definition Hash := Z.
Definition Address := Z.

(** [common.BytesToHash] / [common.BytesToAddress] keep the low-order bytes. *)
Definition BytesToHash (b : bytes) : Hash := be_combine b mod 2 ^ 256.
Definition BytesToAddress (b : bytes) : Address := be_combine b mod 2 ^ 160.
Definition HashBytes (h : Hash) : bytes := be_split HashLength h.

Definition wf_hash (h : Hash) : Prop := 0 <= h < 2 ^ 256.
Definition wf_address (a : Address) : Prop := 0 <= a < 2 ^ 160.

Lemma BytesToHash_Bytes h : wf_hash h -> BytesToHash (HashBytes h) = h.
Proof.
  unfold wf_hash, BytesToHash, HashBytes, HashLength. intros.
  rewrite be_combine_split. change (256 ^ Z.of_nat 32) with (2 ^ 256).
  by rewrite Z.mod_mod, Z.mod_small.
Qed.

Lemma HashBytes_BytesToHash b : length b = HashLength -> HashBytes (BytesToHash b) = b.
Proof.
  intros Hl. unfold BytesToHash, HashBytes. rewrite <- Hl.
  pose proof (be_combine_range b) as Hr. rewrite Hl in Hr.
  change (256 ^ Z.of_nat HashLength) with (2 ^ 256) in Hr.
  rewrite Z.mod_small by done. apply be_split_combine.
Qed.

Lemma length_HashBytes h : length (HashBytes h) = HashLength.
Proof. apply length_be_split. Qed.

(** ** Selecting one row: [ORDER BY k LIMIT 1]. *)

Section min_by.
Context {A : Type} (ltb : A -> A -> bool).

Fixpoint min_by (l : list A) : option A :=
  match l with
  | [] => None
  | x :: l =>
    match min_by l with
    | Some y => if ltb y x then Some y else Some x
    | None => Some x
    end
  end.

Lemma min_by_elem l x : min_by l = Some x -> x ∈ l.
Proof.
  revert x. induction l as [|a l IH]; intros x H; simpl in H; [done|].
  destruct (min_by l) as [y|]; [destruct (ltb y a)|]; simplify_eq; set_solver.
Qed.

Lemma min_by_None l : min_by l = None <-> l = [].
Proof. destruct l; simpl; [done|]. by repeat case_match. Qed.

Lemma min_by_least l x
  (Hirr : forall a, ltb a a = false)
  (Htr : forall a b c, ltb a b = false -> ltb b c = false -> ltb a c = false)
  (Has : forall a b, ltb a b = true -> ltb b a = false) :
  min_by l = Some x -> forall y, y ∈ l -> ltb y x = false.
Proof.
  revert x. induction l as [|a l IH]; intros x H y Hy; simpl in H; [set_solver|].
  apply elem_of_cons in Hy as [->|Hy].
  - destruct (min_by l) as [z|] eqn:E; [|by simplify_eq].
    destruct (ltb z a) eqn:Ez; simplify_eq; auto.
  - destruct (min_by l) as [z|] eqn:E; [|by apply min_by_None in E; set_solver].
    specialize (IH z eq_refl y Hy).
    destruct (ltb z a) eqn:Ez; simplify_eq; eauto.
Qed.
End min_by.

(** ** ORDER BY over several integer keys *)

Fixpoint lex_ltb (a b : list Z) : bool :=
  match a, b with
  | x :: a, y :: b => (x <? y) || ((x =? y) && lex_ltb a b)
  | [], _ :: _ => true
  | _, [] => false
  end.

Definition order_by {A} (key : A -> list Z) (l : list A) : option A :=
  min_by (fun x y => lex_ltb (key x) (key y)) l.

Lemma lex_ltb_irrefl a : lex_ltb a a = false.
Proof. induction a as [|x a IH]; simpl; [done|]. rewrite IH. lia. Qed.

Lemma lex_ltb_trans_false a b c : lex_ltb a b = false -> lex_ltb b c = false -> lex_ltb a c = false.
Proof.
  revert b c. induction a as [|x a IH]; intros [|y b] [|z c] H1 H2; simpl in *; try done.
  apply orb_false_iff in H1 as [H1 H1'], H2 as [H2 H2'].
  apply orb_false_iff. split; [lia|].
  destruct (Z.eqb_spec x z) as [->|]; [|done]. simpl.
  destruct (Z.eqb_spec z y) as [->|]; [|lia]. rewrite Z.eqb_refl in H2'. eauto.
Qed.

Lemma lex_ltb_asym a b : lex_ltb a b = true -> lex_ltb b a = false.
Proof.
  revert b. induction a as [|x a IH]; intros [|y b] H; simpl in *; try done.
  apply orb_true_iff in H as [H|H]; [lia|].
  apply andb_true_iff in H as [H1 H2]. rewrite (IH _ H2). lia.
Qed.

Lemma order_by_elem {A} (key : A -> list Z) l x : order_by key l = Some x -> x ∈ l.
Proof. apply min_by_elem. Qed.

Lemma order_by_None {A} (key : A -> list Z) l : order_by key l = None <-> l = [].
Proof. apply min_by_None. Qed.

Lemma order_by_least {A} (key : A -> list Z) l x y :
  order_by key l = Some x -> y ∈ l -> lex_ltb (key y) (key x) = false.
Proof.
  intros H Hy. refine (min_by_least _ l x _ _ _ H y Hy).
  - intros. apply lex_ltb_irrefl.
  - intros. by eapply lex_ltb_trans_false.
  - intros. by apply lex_ltb_asym.
Qed.

(** [ORDER BY c ASC NULLS LAST] / [NULLS FIRST] as two keys. *)
Definition nulls_last (o : option Z) : list Z := match o with Some x => [0; x] | None => [1; 0] end.
Definition nulls_first (o : option Z) : list Z := match o with Some x => [1; x] | None => [0; 0] end.

(** ** SQL comparisons on nullable columns: NULL satisfies no comparison. *)

Definition opt_le (o : option Z) (t : Z) : Prop :=
  match o with Some x => x <= t | None => False end.
Definition opt_gt (o : option Z) (t : Z) : Prop :=
  match o with Some x => t < x | None => False end.
(** [c IS NULL OR c <= t] *)
Definition null_or_le (o : option Z) (t : Z) : Prop :=
  match o with Some x => x <= t | None => True end.

#[export] Instance opt_le_dec o t : Decision (opt_le o t).
Proof. destruct o; simpl; apply _. Defined.
#[export] Instance opt_gt_dec o t : Decision (opt_gt o t).
Proof. destruct o; simpl; apply _. Defined.
#[export] Instance null_or_le_dec o t : Decision (null_or_le o t).
Proof. destruct o; simpl; apply _. Defined.

Lemma null_or_le_not_gt o t : null_or_le o t -> opt_gt o t -> False.
Proof. destruct o; simpl; lia. Qed.

(** [COALESCE(a, b)] *)
Definition coalesce {A} (a b : option A) : option A :=
  match a with Some _ => a | None => b end.

(** ** Automation *)

Create HintDb worker.
#[export] Hint Resolve byte_val_range be_combine_range min_by_elem : worker.
Create Rewrite HintDb worker_len.
#[export] Hint Rewrite @length_app @length_take @length_drop @length_replicate
  @length_fmap length_be_split length_HashBytes : worker_len.

Ltac len := autorewrite with worker_len; simpl; try lia.

(** Walk every branch of an operation: split the tests in the hypotheses and in
    the goal, discard the impossible ones. *)
Ltac branch_hyp :=
  match goal with
  | H : context [decide ?P] |- _ => destruct (decide P)
  | H : context [match ?x with _ => _ end] |- _ =>
    lazymatch x with
    | context [match _ with _ => _ end] => fail
    | _ => let E := fresh "E" in destruct x eqn:E
    end
  end.
Ltac branches := repeat (branch_hyp; simplify_eq/=).
