(* ===== verification/LzCodec.v ===== *)
(** * LayerZero packet and executor-option codecs (go/internal/lz)

    [DecodePacketV1Header], [DecodePacketV1] and [DecodeExecutorOptions] are
    translated byte for byte; the reference encoders [encode_header] and
    [lz_receive_option] say what the accepted byte strings are. *)

From S2P Require Import Prelude.
From stdpp Require Import list numbers strings.
From Stdlib Require Import ZArith Lia Strings.Byte.
#[local] Open Scope Z_scope.

(** Go slice expression [l[a:b]] on an in-range slice. *)
Definition slice (l : bytes) (a b : nat) : bytes := take (b - a) (drop a l).

Lemma length_slice l a b : (a <= b <= length l)%nat -> length (slice l a b) = (b - a)%nat.
Proof. intros. unfold slice. rewrite length_take, length_drop. lia. Qed.

Lemma slice_split l a b c :
  (a <= b <= c)%nat -> slice l a c = slice l a b ++ slice l b c.
Proof.
  intros H. unfold slice.
  replace (c - a)%nat with ((b - a) + (c - b))%nat by lia.
  replace (drop b l) with (drop (b - a) (drop a l)) by (rewrite drop_drop; f_equal; lia).
  symmetry. apply take_take_drop.
Qed.

Lemma slice_all l : slice l 0 (length l) = l.
Proof. unfold slice. rewrite drop_0, Nat.sub_0_r. by apply firstn_all. Qed.

Lemma slice_drop l a n : (length l <= n)%nat -> slice l a n = drop a l.
Proof. intros. unfold slice. apply take_ge. rewrite length_drop. lia. Qed.

Module Packet.

Definition packetV1Version : Z := 1.
Definition packetV1HeaderLength : nat := 81.
Definition packetV1PayloadOffset : nat := packetV1HeaderLength.
Definition packetV1GUIDOffset : nat := packetV1HeaderLength.
Definition packetV1MessageOffset : nat := 113.

Record PacketV1Header := mkHeader {
  Version : Z; Nonce : Z; SrcEID : Z; Sender : Address;
  DstEID : Z; Receiver : Address; Header : bytes }.

Record PacketV1 := mkPacket {
  p_Version : Z; p_Nonce : Z; p_SrcEID : Z; p_Sender : Address; p_DstEID : Z;
  p_Receiver : Address; p_GUID : Hash; p_Message : bytes; p_Header : bytes;
  p_PayloadHash : Hash }.

Inductive packet_err :=
| BadHeaderLength (n : nat) | PacketTooShort (n : nat)
| UnsupportedVersion (v : Z) | ZeroNonce | EIDsRequired | EIDsMustDiffer
| EndpointsRequired | GUIDRequired.

Definition validatePacketV1Header (h : PacketV1Header) : result packet_err unit :=
  check Version h = packetV1Version or UnsupportedVersion (Version h) ;;
  check Nonce h <> 0 or ZeroNonce ;;
  check ~ (SrcEID h = 0 \/ DstEID h = 0) or EIDsRequired ;;
  check SrcEID h <> DstEID h or EIDsMustDiffer ;;
  check ~ (Sender h = 0 \/ Receiver h = 0) or EndpointsRequired ;;
  Ok tt.

Definition DecodePacketV1Header (header : bytes) : result packet_err PacketV1Header :=
  check length header = packetV1HeaderLength or BadHeaderLength (length header) ;;
  let decoded := {|
    Version := byte_val (nth 0 header x00);
    Nonce := be_combine (slice header 1 9);
    SrcEID := be_combine (slice header 9 13);
    Sender := BytesToAddress (slice header 13 45);
    DstEID := be_combine (slice header 45 49);
    Receiver := BytesToAddress (slice header 49 81);
    Header := header |} in
  match validatePacketV1Header decoded with
  | Err e => Err e
  | Ok _ => Ok decoded
  end.

Section decode.
(** [crypto.Keccak256Hash] is go-ethereum's; any function will do here. *)
Variable Keccak256Hash : bytes -> Hash.

Definition DecodePacketV1 (encoded : bytes) : result packet_err PacketV1 :=
  check (packetV1MessageOffset <= length encoded)%nat or PacketTooShort (length encoded) ;;
  match DecodePacketV1Header (slice encoded 0 packetV1HeaderLength) with
  | Err e => Err e
  | Ok header =>
    let packet := {|
      p_Version := Version header; p_Nonce := Nonce header; p_SrcEID := SrcEID header;
      p_Sender := Sender header; p_DstEID := DstEID header; p_Receiver := Receiver header;
      p_GUID := BytesToHash (slice encoded packetV1GUIDOffset packetV1MessageOffset);
      p_Message := slice encoded packetV1MessageOffset (length encoded);
      p_Header := Header header;
      p_PayloadHash := Keccak256Hash (slice encoded packetV1PayloadOffset (length encoded)) |} in
    check p_GUID packet <> 0 or GUIDRequired ;;
    Ok packet
  end.
End decode.

(** ** Reference encoder: version, nonce, src eid, sender word, dst eid, receiver word. *)
Definition encode_header (nonce src sender dst receiver : Z) : bytes :=
  [x01] ++ be_split 8 nonce ++ be_split 4 src ++ be_split 32 sender
    ++ be_split 4 dst ++ be_split 32 receiver.

Record routable (nonce src sender dst receiver : Z) : Prop := {
  r_nonce : 0 < nonce < 2 ^ 64; r_src : 0 < src < 2 ^ 32; r_dst : 0 < dst < 2 ^ 32;
  r_diff : src <> dst; r_sender : 0 < sender < 2 ^ 160; r_receiver : 0 < receiver < 2 ^ 160 }.

Lemma length_encode_header n s a d r : length (encode_header n s a d r) = 81%nat.
Proof. unfold encode_header. rewrite !length_app, !length_be_split. done. Qed.

(** The fixed fields of any 81-byte string, as [slice]s that reassemble it. *)
Lemma header_slices b : length b = 81%nat ->
  b = slice b 0 1 ++ slice b 1 9 ++ slice b 9 13 ++ slice b 13 45 ++ slice b 45 49 ++ slice b 49 81.
Proof.
  intros Hl. rewrite <- !slice_split by lia. rewrite <- Hl. symmetry. apply slice_all.
Qed.

Lemma slice_app_skip (pre l : bytes) a b :
  (length pre <= a)%nat -> slice (pre ++ l) a b = slice l (a - length pre) (b - length pre).
Proof.
  intros. unfold slice. rewrite drop_app_ge by done. f_equal. lia.
Qed.

Lemma slice_app_take (l post : bytes) b :
  length l = b -> slice (l ++ post) 0 b = l.
Proof. intros <-. unfold slice. rewrite drop_0, Nat.sub_0_r. apply take_app_length. Qed.

Ltac slices := repeat first
  [ rewrite slice_app_skip by (rewrite ?length_be_split; simpl; lia)
  | rewrite length_be_split | rewrite slice_app_take by (rewrite ?length_be_split; done)
  | progress cbn [length Nat.sub] ].

Lemma decode_fields n s a d r post :
  let b := encode_header n s a d r ++ post in
  nth 0 b x00 = x01 /\ slice b 1 9 = be_split 8 n /\ slice b 9 13 = be_split 4 s /\
  slice b 13 45 = be_split 32 a /\ slice b 45 49 = be_split 4 d /\ slice b 49 81 = be_split 32 r.
Proof.
  intros b. unfold b, encode_header. rewrite <- !app_assoc.
  split_and!; [done|..]; by slices.
Qed.

Lemma decode_header_word n s aw d rw :
  0 <= aw < 2 ^ 256 -> 0 <= rw < 2 ^ 256 ->
  routable n s (aw mod 2 ^ 160) d (rw mod 2 ^ 160) ->
  DecodePacketV1Header (encode_header n s aw d rw) =
    Ok (mkHeader 1 n s (aw mod 2 ^ 160) d (rw mod 2 ^ 160) (encode_header n s aw d rw)).
Proof.
  intros Ha Hw Hr. destruct Hr.
  assert (forall w, 0 <= w < 2 ^ 256 -> BytesToAddress (be_split 32 w) = w mod 2 ^ 160) as HB.
  { intros w Hw'. unfold BytesToAddress. rewrite be_combine_split_small; done. }
  pose proof (decode_fields n s aw d rw []) as H. rewrite app_nil_r in H. cbv zeta in H.
  destruct H as (H0 & H1 & H2 & H3 & H4 & H5).
  unfold DecodePacketV1Header. rewrite decide_True by apply length_encode_header.
  rewrite H0, H1, H2, H3, H4, H5.
  rewrite !be_combine_split_small, !HB by lia.
  unfold validatePacketV1Header; cbn [Version Nonce SrcEID DstEID Sender Receiver].
  change (byte_val x01) with 1.
  by rewrite !decide_True by (unfold packetV1Version; lia).
Qed.

Lemma decode_header_encode n s a d r : routable n s a d r ->
  DecodePacketV1Header (encode_header n s a d r) =
    Ok (mkHeader 1 n s a d r (encode_header n s a d r)).
Proof.
  intros Hr. pose proof (decode_header_word n s a d r) as H. destruct Hr.
  rewrite (Z.mod_small a), (Z.mod_small r) in H by lia. apply H; [lia..|done].
Qed.

(** C28: DecodePacketV1 inverts the packet encoding: for every routable identity, every
    non-zero guid and every message, decoding header ++ guid ++ message returns exactly those
    fields, the 81-byte header and the hash of guid ++ message as payload hash. *)
Theorem DecodePacketV1_encode (keccak : bytes -> Hash) n s a d r guid msg :
  routable n s a d r -> 0 < guid < 2 ^ 256 ->
  DecodePacketV1 keccak (encode_header n s a d r ++ be_split 32 guid ++ msg) =
    Ok (mkPacket 1 n s a d r guid msg (encode_header n s a d r)
          (keccak (be_split 32 guid ++ msg))).
Proof.
  intros Hr Hg. unfold DecodePacketV1.
  pose proof (length_encode_header n s a d r) as Hl.
  rewrite decide_True by (rewrite !length_app, length_be_split, Hl; unfold packetV1MessageOffset; lia).
  rewrite slice_app_take by done. rewrite decode_header_encode by done.
  cbn [Version Nonce SrcEID DstEID Sender Receiver Header].
  unfold packetV1GUIDOffset, packetV1PayloadOffset, packetV1MessageOffset, packetV1HeaderLength.
  rewrite !(slice_app_skip (encode_header n s a d r)) by lia. rewrite Hl. cbn [Nat.sub].
  rewrite slice_app_take by apply length_be_split.
  assert (BytesToHash (be_split 32 guid) = guid) as -> by (apply BytesToHash_Bytes; unfold wf_hash; lia).
  rewrite decide_True by (cbn; lia). f_equal. f_equal.
  - rewrite slice_app_skip by (rewrite length_be_split; lia).
    rewrite slice_drop by (rewrite !length_app, !length_be_split; lia).
    by rewrite length_be_split, Nat.sub_diag, drop_0.
  - f_equal. rewrite slice_drop by (rewrite !length_app, !length_be_split; lia). by rewrite drop_0.
Qed.

Lemma DecodePacketV1_encode_witness :
  routable 7 30101 11 30102 12 /\
  DecodePacketV1 (fun _ => 5) (encode_header 7 30101 11 30102 12 ++ be_split 32 9 ++ [x01]) =
    Ok (mkPacket 1 7 30101 11 30102 12 9 [x01] (encode_header 7 30101 11 30102 12) 5).
Proof.
  assert (routable 7 30101 11 30102 12) as Hr by (constructor; lia).
  split; [exact Hr|]. apply (DecodePacketV1_encode (fun _ => 5)); [exact Hr|lia].
Defined.

Lemma be_split_slice b i j n :
  (i <= j <= length b)%nat -> n = (j - i)%nat -> be_split n (be_combine (slice b i j)) = slice b i j.
Proof. intros ? ->. rewrite <- (length_slice b i j) by done. apply be_split_combine. Qed.

(** Every 81-byte string is the encoding of the numbers its slices spell. *)
Lemma header_reassemble b : length b = 81%nat -> byte_val (nth 0 b x00) = 1 ->
  b = encode_header (be_combine (slice b 1 9)) (be_combine (slice b 9 13))
        (be_combine (slice b 13 45)) (be_combine (slice b 45 49)) (be_combine (slice b 49 81)).
Proof.
  intros Hl Hv. unfold encode_header.
  assert (slice b 0 1 = [x01]) as H0.
  { destruct b as [|c b]; [done|]. unfold slice. simpl in *. f_equal.
    apply byte_val_inj. by rewrite Hv. }
  rewrite (header_slices b Hl) at 1. rewrite H0.
  by rewrite (be_split_slice b 1 9 8), (be_split_slice b 9 13 4), (be_split_slice b 13 45 32),
    (be_split_slice b 45 49 4), (be_split_slice b 49 81 32) by lia.
Qed.

Lemma slice_range b i j : (i <= j <= length b)%nat ->
  0 <= be_combine (slice b i j) < 256 ^ Z.of_nat (j - i).
Proof. intros. pose proof (be_combine_range (slice b i j)) as H1. by rewrite length_slice in H1. Qed.

Lemma address_word_range w : 0 <= w mod 2 ^ 160 < 2 ^ 160.
Proof. apply Z.mod_pos_bound. lia. Qed.

(** the header decoder accepts exactly the encodings of a routable identity,
    reading only the low 160 bits of the sender and receiver words. *)
Theorem DecodePacketV1Header_exact b h :
  DecodePacketV1Header b = Ok h <->
  exists aw rw, 0 <= aw < 2 ^ 256 /\ 0 <= rw < 2 ^ 256 /\
    routable (Nonce h) (SrcEID h) (aw mod 2 ^ 160) (DstEID h) (rw mod 2 ^ 160) /\
    b = encode_header (Nonce h) (SrcEID h) aw (DstEID h) rw /\
    h = mkHeader 1 (Nonce h) (SrcEID h) (aw mod 2 ^ 160) (DstEID h) (rw mod 2 ^ 160) b.
Proof.
  split.
  - unfold DecodePacketV1Header. intros H. case_decide as Hl; [|done].
    unfold validatePacketV1Header in H. cbn [Version Nonce SrcEID DstEID Sender Receiver] in H.
    unfold packetV1HeaderLength in Hl.
    branches. cbn [Nonce SrcEID DstEID]. unfold packetV1Version in *.
    exists (be_combine (slice b 13 45)), (be_combine (slice b 49 81)).
    pose proof (slice_range b 1 9) as R1. pose proof (slice_range b 9 13) as R2.
    pose proof (slice_range b 13 45) as R3. pose proof (slice_range b 45 49) as R4.
    pose proof (slice_range b 49 81) as R5. simpl in R1, R2, R3, R4, R5.
    specialize (R1 ltac:(lia)). specialize (R2 ltac:(lia)). specialize (R3 ltac:(lia)).
    specialize (R4 ltac:(lia)). specialize (R5 ltac:(lia)).
    unfold BytesToAddress in *.
    pose proof (address_word_range (be_combine (slice b 13 45))).
    pose proof (address_word_range (be_combine (slice b 49 81))).
    split_and!; [lia..| |by apply header_reassemble|by f_equal].
    constructor; lia.
  - intros (aw & rw & Ha & Hw & Hr & -> & ->). cbn [Nonce SrcEID DstEID].
    by apply decode_header_word.
Qed.

End Packet.

Module Options.

Definition optionType3 : Z := 3.
Definition executorWorkerID : Z := 1.
Definition optionTypeLzReceive : Z := 1.
Definition optionTypeNativeDrop : Z := 2.
Definition optionTypeLzCompose : Z := 3.
Definition optionTypeOrdered : Z := 4.
Definition optionTypeLzRead : Z := 5.
Definition lzReceiveGasBytes : nat := 16.
Definition lzReceiveValueBytes : nat := 16.
Definition lzReceiveOptionBytes : nat := lzReceiveGasBytes + lzReceiveValueBytes.

Record ExecutorOptions := mkOptions { LzReceiveGas : option Z }.

Inductive options_err :=
| TruncatedHeader | InvalidSize | UnsupportedWorker (id : Z)
| UnsupportedNativeDrop | UnsupportedLzCompose | UnsupportedOrdered | UnsupportedLzRead
| UnsupportedOptionType (t : Z)
| DuplicateLzReceive | InvalidPayloadLength (n : nat) | NonZeroValue | GasRequired
| MissingLzReceive
| OutOfFuel.

Definition unsupportedExecutorOptionError (optionType : Z) : options_err :=
  if decide (optionType = optionTypeNativeDrop) then UnsupportedNativeDrop
  else if decide (optionType = optionTypeLzCompose) then UnsupportedLzCompose
  else if decide (optionType = optionTypeOrdered) then UnsupportedOrdered
  else if decide (optionType = optionTypeLzRead) then UnsupportedLzRead
  else UnsupportedOptionType optionType.

(** One turn of the [for cursor < len(options)] loop: the new cursor and gas. *)
Definition option_step (options : bytes) (cursor : nat) (hasLzReceive : bool)
    : result options_err (nat * Z) :=
  check (cursor + 4 <= length options)%nat or TruncatedHeader ;;
  let workerID := byte_val (nth cursor options x00) in
  let size := Z.to_nat (be_combine (slice options (cursor + 1) (cursor + 3))) in
  check ~ (size = 0 \/ length options < cursor + 3 + size)%nat or InvalidSize ;;
  let optionType := byte_val (nth (cursor + 3) options x00) in
  let payload := slice options (cursor + 4) (cursor + 3 + size) in
  let cursor := (cursor + (3 + size))%nat in
  check workerID = executorWorkerID or UnsupportedWorker workerID ;;
  check optionType = optionTypeLzReceive or unsupportedExecutorOptionError optionType ;;
  check hasLzReceive = false or DuplicateLzReceive ;;
  check length payload = lzReceiveGasBytes \/ length payload = lzReceiveOptionBytes
    or InvalidPayloadLength (length payload) ;;
  check ~ (length payload = lzReceiveOptionBytes /\
           be_combine (slice payload lzReceiveGasBytes (length payload)) <> 0) or NonZeroValue ;;
  let gas := be_combine (slice payload 0 lzReceiveGasBytes) in
  check gas <> 0 or GasRequired ;;
  Ok (cursor, gas).

Fixpoint options_loop (fuel : nat) (options : bytes) (cursor : nat)
    (decoded : ExecutorOptions) (hasLzReceive : bool)
    : result options_err (ExecutorOptions * bool) :=
  if decide (cursor < length options)%nat then
    match fuel with
    | O => Err OutOfFuel
    | S fuel =>
      match option_step options cursor hasLzReceive with
      | Err e => Err e
      | Ok (cursor, gas) => options_loop fuel options cursor (mkOptions (Some gas)) true
      end
    end
  else Ok (decoded, hasLzReceive).

Definition start_cursor (options : bytes) : nat :=
  if decide ((2 <= length options)%nat /\ be_combine (slice options 0 2) = optionType3)
  then 2%nat else 0%nat.

(** Each turn consumes at least four bytes, so the length of the input is fuel enough. *)
Definition DecodeExecutorOptions (options : bytes) : result options_err ExecutorOptions :=
  match options_loop (length options) options (start_cursor options) (mkOptions None) false with
  | Err e => Err e
  | Ok (decoded, hasLzReceive) =>
    check hasLzReceive = true or MissingLzReceive ;;
    Ok decoded
  end.

(** ** The accepted language *)

(** One zero-value executor lzReceive option: worker 1, size, type 1, gas[, value 0]. *)
Definition lz_receive_option (gas : Z) (with_value : bool) : bytes :=
  if with_value then [x01; x00; x21; x01] ++ be_split 16 gas ++ be_split 16 0
  else [x01; x00; x11; x01] ++ be_split 16 gas.

Definition type3_prefix (type3 : bool) : bytes := if type3 then [x00; x03] else [].

Lemma option_step_progress o c h c' g :
  option_step o c h = Ok (c', g) -> (c < c' <= length o)%nat /\ h = false.
Proof. unfold option_step. intros. branches. lia. Qed.

Lemma options_loop_fuel fuel o c d h :
  (length o - c <= fuel)%nat -> options_loop fuel o c d h <> Err OutOfFuel.
Proof.
  revert c d h. induction fuel as [|fuel IH]; intros c d h Hf; simpl; case_decide; try done; [lia|].
  destruct (option_step o c h) as [[c' g]|e] eqn:E.
  - apply option_step_progress in E as [? ?]. apply IH. lia.
  - intros [= ->]. unfold option_step in E. branches.
    unfold unsupportedExecutorOptionError in *. branches.
Qed.

(** After the first option nothing further may follow. *)
Lemma options_loop_true fuel o c d r :
  options_loop fuel o c d true = Ok r -> (length o <= c)%nat /\ r = (d, true).
Proof.
  destruct fuel; simpl; case_decide; intros H0; simplify_eq; try (split; [lia|done]).
  destruct (option_step o c true) as [[c' g]|e] eqn:E; [|done].
  by apply option_step_progress in E as [? ?].
Qed.

Lemma nth_slice (l : bytes) c : (c < length l)%nat -> slice l c (c + 1) = [nth c l x00].
Proof.
  intros H. unfold slice. replace (c + 1 - c)%nat with 1%nat by lia.
  revert c H. induction l as [|x l IH]; intros [|c] H; simpl in *; try lia; [done|].
  apply IH. lia.
Qed.

Lemma be_split_16_zero b : length b = 16%nat -> be_combine b = 0 -> b = be_split 16 0.
Proof. intros Hl H. rewrite <- H, <- (be_split_combine b) at 1. by rewrite Hl. Qed.

(** The bytes an accepted turn consumes are exactly one option. *)
Lemma option_step_shape o c h c' g :
  option_step o c h = Ok (c', g) ->
  exists v, slice o c c' = lz_receive_option g v /\ 0 < g < 2 ^ 128.
Proof.
  unfold option_step. intros H. branches.
  set (size := Z.to_nat (be_combine (slice o (c + 1) (c + 3)))) in *.
  assert (0 <= be_combine (slice o (c + 1) (c + 3))) as Hs0 by apply be_combine_range.
  match goal with |- context [slice o c ?e] => change e with (c + (3 + size))%nat end.
  assert (slice o c (c + (3 + size)) =
    [nth c o x00] ++ slice o (c + 1) (c + 3) ++ [nth (c + 3) o x00] ++ slice o (c + 4) (c + 3 + size))
    as ->.
  { rewrite <- !nth_slice by lia. rewrite (slice_split o c (c + 1)) by lia.
    rewrite (slice_split o (c + 1) (c + 3)) by lia.
    rewrite (slice_split o (c + 3) (c + 4) (c + (3 + size))) by lia.
    replace (c + 3 + 1)%nat with (c + 4)%nat by lia.
    by replace (c + (3 + size))%nat with (c + 3 + size)%nat by lia. }
  set (payload := slice o (c + 4) (c + 3 + size)) in *.
  assert (length payload = size - 1)%nat as Hlen by (unfold payload; rewrite length_slice; lia).
  assert (nth c o x00 = x01) as -> by (apply byte_val_inj; assumption).
  assert (nth (c + 3) o x00 = x01) as -> by (apply byte_val_inj; assumption).
  set (g := be_combine (slice payload 0 lzReceiveGasBytes)) in *.
  unfold lzReceiveOptionBytes, lzReceiveGasBytes, lzReceiveValueBytes in *. simpl in *.
  assert (be_split 16 g = slice payload 0 16) as Hg.
  { unfold g. rewrite <- (length_slice payload 0 16) at 1 by lia. apply be_split_combine. }
  assert (0 < g < 2 ^ 128) as Hgr.
  { pose proof (be_combine_range (slice payload 0 16)) as Hr.
    rewrite length_slice in Hr by lia. simpl in Hr. fold g in Hr. lia. }
  assert (slice o (c + 1) (c + 3) = be_split 2 (Z.of_nat size)) as ->.
  { unfold size. rewrite Z2Nat.id by done. rewrite <- be_split_combine at 1.
    by rewrite length_slice by lia; replace (c + 3 - (c + 1))%nat with 2%nat by lia. }
  destruct o0 as [H16|H32].
  - exists false. split; [|done]. replace size with 17%nat by lia. unfold lz_receive_option.
    assert (slice payload 0 16 = payload) as Hall by (rewrite <- H16; apply slice_all).
    rewrite Hg, Hall. done.
  - exists true. split; [|done]. replace size with 33%nat by lia. unfold lz_receive_option.
    assert (slice payload 16 (length payload) = be_split 16 0) as Hz.
    { apply be_split_16_zero; [rewrite length_slice; lia|].
      destruct (decide (be_combine (slice payload 16 (length payload)) = 0)); [done|].
      by destruct n0. }
    rewrite Hg, <- Hz, <- (slice_split payload 0 16) by lia. by rewrite slice_all.
Qed.

Lemma option_step_accepts pre g v :
  0 < g < 2 ^ 128 ->
  option_step (pre ++ lz_receive_option g v) (length pre) false =
    Ok (length (pre ++ lz_receive_option g v), g).
Proof.
  intros Hg. unfold option_step.
  assert (forall k, nth (length pre + k) (pre ++ lz_receive_option g v) x00 =
                    nth k (lz_receive_option g v) x00) as Hn.
  { intros k. rewrite app_nth2 by lia. f_equal. lia. }
  pose proof (Hn 0%nat) as H0. rewrite Nat.add_0_r in H0. rewrite H0, Hn.
  assert (forall a b, slice (pre ++ lz_receive_option g v) (length pre + a) b =
    slice (lz_receive_option g v) a (b - length pre)) as Hs.
  { intros a b. rewrite Packet.slice_app_skip by lia. f_equal. lia. }
  rewrite !Hs. replace (length pre + 3 - length pre)%nat with 3%nat by lia.
  set (size := Z.to_nat (be_combine (slice (lz_receive_option g v) 1 3))).
  assert (size = if v then 33 else 17)%nat as Hsz by (unfold size; by destruct v).
  assert (length (lz_receive_option g v) = size + 3)%nat as Hl.
  { rewrite Hsz. destruct v; unfold lz_receive_option; rewrite !length_app, !length_be_split; done. }
  rewrite length_app, Hl.
  set (payload := slice (lz_receive_option g v) 4 (length pre + 3 + size - length pre)).
  assert (payload = if v then be_split 16 g ++ be_split 16 0 else be_split 16 g) as Hp.
  { unfold payload. rewrite slice_drop by lia. by destruct v. }
  assert (length payload = size - 1)%nat as Hpl.
  { rewrite Hp, Hsz. destruct v; rewrite ?length_app, !length_be_split; done. }
  assert (slice payload 0 lzReceiveGasBytes = be_split 16 g) as Hgas.
  { rewrite Hp. destruct v; [apply Packet.slice_app_take, length_be_split|].
    rewrite <- (length_be_split 16 g) at 2. apply slice_all. }
  rewrite Hgas, be_combine_split_small by lia. clearbody payload.
  rewrite !decide_True.
  - f_equal. f_equal. lia.
  - lia.
  - rewrite Hpl, Hsz. unfold lzReceiveOptionBytes, lzReceiveGasBytes, lzReceiveValueBytes.
    intros [Hv Hne]. destruct v; [|lia]. apply Hne. rewrite Hp.
    rewrite slice_drop by (rewrite length_app, !length_be_split; lia).
    rewrite drop_app_length' by (by rewrite length_be_split). done.
  - rewrite Hpl, Hsz. unfold lzReceiveOptionBytes, lzReceiveGasBytes, lzReceiveValueBytes.
    destruct v; lia.
  - done.
  - by destruct v.
  - by destruct v.
  - rewrite Hsz. destruct v; lia.
  - rewrite Hsz. destruct v; lia.
Qed.

Lemma start_cursor_type3 t3 g v :
  start_cursor (type3_prefix t3 ++ lz_receive_option g v) = length (type3_prefix t3).
Proof.
  unfold start_cursor. case_decide as H; destruct t3; try done.
  - destruct H as [_ H]. destruct v; vm_compute in H; done.
  - destruct H. split; [rewrite length_app; simpl; lia|done].
Qed.

Lemma start_cursor_prefix o :
  exists t3, start_cursor o = length (type3_prefix t3) /\
             o = type3_prefix t3 ++ drop (start_cursor o) o.
Proof.
  unfold start_cursor. case_decide as H; [|by exists false].
  destruct H as [Hl H]. exists true. split; [done|].
  rewrite <- (take_drop 2 o) at 1. f_equal.
  assert (slice o 0 2 = take 2 o) as Hs by (unfold slice; by rewrite drop_0).
  rewrite <- Hs, <- (be_split_combine (slice o 0 2)), H, length_slice by lia. done.
Qed.

(** C27: DecodeExecutorOptions accepts exactly one zero-value lzReceive executor option
    with a positive 128-bit gas, optionally behind the type-3 marker, and returns that gas;
    every other byte string (another worker, another option type, a second option, a
    non-zero value, trailing bytes) is rejected. *)
Theorem DecodeExecutorOptions_exact o opts :
  DecodeExecutorOptions o = Ok opts <->
  exists t3 v g, o = type3_prefix t3 ++ lz_receive_option g v /\ 0 < g < 2 ^ 128 /\
                 opts = mkOptions (Some g).
Proof.
  unfold DecodeExecutorOptions. split.
  - destruct (options_loop _ _ _ _ _) as [[d h]|] eqn:E; [|done].
    case_decide as Hh; [|done]. intros [= ->]. subst h.
    destruct (length o) as [|n] eqn:Hlen; cbn [options_loop] in E;
      case_decide as Hc; simplify_eq.
    destruct (option_step o (start_cursor o) false) as [[c g]|] eqn:Es; [|done].
    apply options_loop_true in E as [Hend [= ->]].
    destruct (option_step_shape _ _ _ _ _ Es) as (v & Hv & Hg).
    apply option_step_progress in Es as [Hp _].
    destruct (start_cursor_prefix o) as (t3 & Hs & Ho).
    exists t3, v, g. split; [|done]. rewrite Ho at 1. f_equal. rewrite <- Hv.
    symmetry. by apply slice_drop.
  - intros (t3 & v & g & -> & Hg & ->). rewrite start_cursor_type3.
    destruct (length (type3_prefix t3 ++ lz_receive_option g v)) as [|n] eqn:Hlen.
    { rewrite length_app in Hlen. destruct v; simpl in Hlen; lia. }
    cbn [options_loop]. rewrite decide_True.
    2:{ rewrite length_app. destruct v; simpl; lia. }
    rewrite option_step_accepts by done.
    destruct n; cbn [options_loop]; rewrite decide_False by lia; done.
Qed.

(** the cursor loop terminates: the decoder never runs out of fuel. *)
Theorem DecodeExecutorOptions_total o : DecodeExecutorOptions o <> Err OutOfFuel.
Proof.
  unfold DecodeExecutorOptions.
  pose proof (options_loop_fuel (length o) o (start_cursor o) (mkOptions None) false ltac:(lia)) as Hf.
  destruct (options_loop _ _ _ _ _) as [[d h]|e]; [by case_decide|]. congruence.
Qed.

End Options.
