(* ===== verification/Schema.v ===== *)
(** * The worker's PostgreSQL state (go/migrations/*.sql) and its transactions

    One record per table, keyed the way the primary key keys it; nullable
    columns are options, timestamps are microseconds, uuids opaque numbers.
    Rows carry the alias their queries use: [o_status] is [o.status] of
    tx_outbox, [a_state] is [a.state] of tx_attempts.

    A store operation is a function of the database and the statement time
    [now]; [run_tx] is [pool.Begin ... Commit]: an error returned before the
    commit rolls every write back, an error returned after it keeps them. *)

From S2P Require Import Prelude.
From stdpp Require Import base gmap list strings numbers countable fin_maps sorting.
From Stdlib Require Import ZArith Lia.
#[local] Open Scope Z_scope.

(** ** Closed enumerations *)

Inductive TxStatus :=
| TxStatusQueued | TxStatusNonceAssigned | TxStatusSigned | TxStatusBroadcast
| TxStatusConfirmed | TxStatusFailed | TxStatusHeld.

Inductive TxAttemptKind := TxAttemptOriginal | TxAttemptReplacement | TxAttemptCancel.

Inductive TxAttemptState :=
| TxAttemptSigned | TxAttemptSubmitted | TxAttemptAmbiguous | TxAttemptRejected | TxAttemptMined.

Inductive SendErrorClass :=
| SendErrorAccepted | SendErrorAmbiguous | SendErrorNonceTooLow | SendErrorNonceTooHigh
| SendErrorUnderpriced | SendErrorRetryableEnv | SendErrorDefinitive.

Inductive HeldReason :=
| HeldNonceReconcileRequired | HeldRepriceRequired | HeldManual
| HeldBroadcastExhausted | HeldNonceConsumedExternally.

Inductive ReceiptOutcome :=
| ReceiptOutcomeConfirmed | ReceiptOutcomeFailed | ReceiptOutcomeCanceled.

#[export] Instance TxStatus_eq_dec : EqDecision TxStatus.
Proof. solve_decision. Defined.
#[export] Instance TxAttemptKind_eq_dec : EqDecision TxAttemptKind.
Proof. solve_decision. Defined.
#[export] Instance TxAttemptState_eq_dec : EqDecision TxAttemptState.
Proof. solve_decision. Defined.
#[export] Instance SendErrorClass_eq_dec : EqDecision SendErrorClass.
Proof. solve_decision. Defined.
#[export] Instance HeldReason_eq_dec : EqDecision HeldReason.
Proof. solve_decision. Defined.
#[export] Instance ReceiptOutcome_eq_dec : EqDecision ReceiptOutcome.
Proof. solve_decision. Defined.

(** Text constants shared by the tables. *)

Definition TxFailureEstimateGasRevert : string := "estimate_gas_revert".
Definition TxFailureReceiptFailed : string := "receipt_failed".
Definition TxFailureCanceled : string := "canceled".
Definition TxFailureNonceConsumedExternally : string := "nonce_consumed_externally".

Definition TxPurposePricingSetPriceSnapshot : string := "pricing_set_price_snapshot".
Definition txPurposeExecutorCommitVerification : string := "executor_commit_verification".
Definition txPurposeExecutorLzReceive : string := "executor_lz_receive".
Definition txPurposeDVNVerify : string := "dvn_verify".

Definition ExecutorNew : string := "NEW".
Definition ExecutorAssigned : string := "ASSIGNED".
Definition ExecutorWaitingDVNVerification : string := "WAITING_DVN_VERIFICATION".
Definition ExecutorVerifiable : string := "VERIFIABLE".
Definition ExecutorCommitTxEnqueued : string := "COMMIT_TX_ENQUEUED".
Definition ExecutorCommitted : string := "COMMITTED".
Definition ExecutorExecutable : string := "EXECUTABLE".
Definition ExecutorLzReceiveTxEnqueued : string := "LZ_RECEIVE_TX_ENQUEUED".
Definition ExecutorDelivered : string := "DELIVERED".
Definition ExecutorLzReceiveFailed : string := "LZ_RECEIVE_FAILED".
Definition ExecutorManualReview : string := "MANUAL_REVIEW".

Definition DVNNew : string := "NEW".
Definition DVNAssigned : string := "ASSIGNED".
Definition DVNWaitingConfirmations : string := "WAITING_CONFIRMATIONS".
Definition DVNQuorumChecking : string := "QUORUM_CHECKING".
Definition DVNReadyToVerify : string := "READY_TO_VERIFY".
Definition DVNWouldVerify : string := "WOULD_VERIFY".
Definition DVNVerifyTxEnqueued : string := "VERIFY_TX_ENQUEUED".
Definition DVNVerified : string := "VERIFIED".
Definition DVNQuorumConflict : string := "QUORUM_CONFLICT".
Definition DVNReorgDetected : string := "REORG_DETECTED".
Definition DVNManualReview : string := "MANUAL_REVIEW".

(** ** Tables *)

Abbreviation uuid := Z (only parsing).
Abbreviation timestamp := Z (only parsing).

Record ChainRow := mkChain { c_enabled : bool; c_paused : bool }.

Record PathwayRow := mkPathway {
  pw_src_eid : Z; pw_dst_eid : Z; pw_src_oapp : bytes; pw_dst_oapp : bytes;
  pw_enabled : bool; pw_paused : bool }.

Record PacketRow := mkPacketRow {
  p_src_eid : Z; p_dst_eid : Z; p_nonce : Z; p_sender : bytes; p_receiver : bytes;
  p_send_lib : bytes; p_src_tx_hash : bytes; p_src_block_number : Z; p_src_log_index : Z;
  p_encoded_packet : bytes; p_packet_header : bytes; p_message : bytes;
  p_payload_hash : bytes; p_options : bytes; p_status : string; p_updated_at : timestamp }.

(** A skip tombstone, keyed by role, source and destination eids, sender, receiver, nonce. *)
Record SkipRow := mkSkipRow {
  sk_guid : bytes; sk_src_tx_hash : bytes; sk_src_block_number : Z; sk_src_log_index : Z;
  sk_reason : string; sk_worker : option bytes; sk_updated_at : timestamp }.
Definition skip_key : Type := string * Z * Z * bytes * bytes * Z.

Record ExecutorJobRow := mkExecutorJob {
  e_assigned : bool; e_assigned_fee : option Z; e_status : string;
  e_commit_tx_hash : option bytes; e_receive_tx_hash : option bytes;
  e_last_error : option string; e_retry_count : Z; e_next_retry_at : option timestamp;
  e_updated_at : timestamp }.

Record DVNJobRow := mkDVNJob {
  d_assigned : bool; d_assigned_fee : option Z; d_confirmations_required : Z;
  d_status : string; d_verify_tx_hash : option bytes; d_quorum_result : option string;
  d_last_error : option string; d_next_retry_at : option timestamp; d_updated_at : timestamp }.

Record OutboxRow := mkOutbox {
  o_chain_eid : Z; o_purpose : string; o_guid : option bytes; o_to_address : bytes;
  o_calldata : bytes; o_value : Z; o_nonce : option Z; o_signer_id : string;
  o_status : TxStatus;
  o_receipt_tx_hash : option bytes; o_receipt_status : option Z;
  o_receipt_block_number : option Z; o_receipt_gas_used : option Z;
  o_receipt_effective_gas_price : option Z; o_receipt_gas_cost_dst_wei : option Z;
  o_receipt_gas_cost_src_wei : option Z; o_receipt_observed_at : option timestamp;
  o_receipt_cost_priced_at : option timestamp;
  o_attempts : Z; o_failure_kind : option string; o_next_retry_at : option timestamp;
  o_retry_of_id : option Z; o_last_error : option string; o_updated_at : timestamp;
  o_active_attempt_id : option Z; o_lease_token : option uuid;
  o_lease_until : option timestamp; o_held_reason : option HeldReason;
  o_cancel_requested_at : option timestamp; o_receipt_outcome : option ReceiptOutcome;
  o_receipt_attempt_id : option Z; o_pre_sign_failure_count : Z;
  o_next_sign_at : option timestamp; o_last_receipt_poll_at : option timestamp;
  o_replace_requested_at : option timestamp; o_cancel_defer_until : option timestamp }.

#[export] Instance OutboxRow_eta : Eta OutboxRow := fun o => mkOutbox
  (o_chain_eid o) (o_purpose o) (o_guid o) (o_to_address o) (o_calldata o) (o_value o)
  (o_nonce o) (o_signer_id o) (o_status o) (o_receipt_tx_hash o) (o_receipt_status o)
  (o_receipt_block_number o) (o_receipt_gas_used o) (o_receipt_effective_gas_price o)
  (o_receipt_gas_cost_dst_wei o) (o_receipt_gas_cost_src_wei o) (o_receipt_observed_at o)
  (o_receipt_cost_priced_at o) (o_attempts o) (o_failure_kind o) (o_next_retry_at o)
  (o_retry_of_id o) (o_last_error o) (o_updated_at o) (o_active_attempt_id o)
  (o_lease_token o) (o_lease_until o) (o_held_reason o) (o_cancel_requested_at o)
  (o_receipt_outcome o) (o_receipt_attempt_id o) (o_pre_sign_failure_count o)
  (o_next_sign_at o) (o_last_receipt_poll_at o) (o_replace_requested_at o)
  (o_cancel_defer_until o).

Record AttemptRow := mkAttempt {
  a_outbox_id : Z; a_kind : TxAttemptKind; a_nonce : Z; a_tx_type : Z; a_tx_hash : bytes;
  a_raw_tx : bytes; a_gas_limit : Z; a_max_fee_per_gas : Z;
  a_max_priority_fee_per_gas : option Z; a_state : TxAttemptState;
  a_send_error_class : option SendErrorClass; a_send_error : option string;
  a_signing_token : uuid; a_broadcast_count : Z; a_broadcast_lease_token : option uuid;
  a_broadcast_lease_until : option timestamp; a_next_broadcast_at : option timestamp;
  a_last_broadcast_at : option timestamp; a_updated_at : timestamp }.

#[export] Instance AttemptRow_eta : Eta AttemptRow := fun a => mkAttempt
  (a_outbox_id a) (a_kind a) (a_nonce a) (a_tx_type a) (a_tx_hash a) (a_raw_tx a)
  (a_gas_limit a) (a_max_fee_per_gas a) (a_max_priority_fee_per_gas a) (a_state a)
  (a_send_error_class a) (a_send_error a) (a_signing_token a) (a_broadcast_count a)
  (a_broadcast_lease_token a) (a_broadcast_lease_until a) (a_next_broadcast_at a)
  (a_last_broadcast_at a) (a_updated_at a).

Record NonceCursorRow := mkNonceCursor {
  n_next_nonce : Z; n_reconcile_lease_token : option uuid;
  n_reconcile_lease_until : option timestamp; n_next_reconcile_at : option timestamp;
  n_updated_at : timestamp }.

#[export] Instance ChainRow_eta : Eta ChainRow := fun c => mkChain (c_enabled c) (c_paused c).
#[export] Instance PathwayRow_eta : Eta PathwayRow := fun p => mkPathway
  (pw_src_eid p) (pw_dst_eid p) (pw_src_oapp p) (pw_dst_oapp p) (pw_enabled p) (pw_paused p).
#[export] Instance PacketRow_eta : Eta PacketRow := fun p => mkPacketRow
  (p_src_eid p) (p_dst_eid p) (p_nonce p) (p_sender p) (p_receiver p) (p_send_lib p)
  (p_src_tx_hash p) (p_src_block_number p) (p_src_log_index p) (p_encoded_packet p)
  (p_packet_header p) (p_message p) (p_payload_hash p) (p_options p) (p_status p)
  (p_updated_at p).
#[export] Instance ExecutorJobRow_eta : Eta ExecutorJobRow := fun e => mkExecutorJob
  (e_assigned e) (e_assigned_fee e) (e_status e) (e_commit_tx_hash e) (e_receive_tx_hash e)
  (e_last_error e) (e_retry_count e) (e_next_retry_at e) (e_updated_at e).
#[export] Instance DVNJobRow_eta : Eta DVNJobRow := fun d => mkDVNJob
  (d_assigned d) (d_assigned_fee d) (d_confirmations_required d) (d_status d)
  (d_verify_tx_hash d) (d_quorum_result d) (d_last_error d) (d_next_retry_at d)
  (d_updated_at d).
#[export] Instance NonceCursorRow_eta : Eta NonceCursorRow := fun n => mkNonceCursor
  (n_next_nonce n) (n_reconcile_lease_token n) (n_reconcile_lease_until n)
  (n_next_reconcile_at n) (n_updated_at n).

(** BIGSERIAL columns are drawn from [next_outbox_id] and [next_attempt_id]. *)
Record DB := mkDB {
  chains : gmap Z ChainRow;
  pathways : gmap Z PathwayRow;
  packets : gmap bytes PacketRow;
  executor_jobs : gmap bytes ExecutorJobRow;
  executor_receive_failures : gset (bytes * bytes);
  dvn_jobs : gmap bytes DVNJobRow;
  tx_outbox : gmap Z OutboxRow;
  tx_attempts : gmap Z AttemptRow;
  tx_nonce_cursors : gmap (Z * string) NonceCursorRow;
  indexer_cursors : gmap (Z * string) Z;
  source_packet_skips : gmap skip_key SkipRow;
  next_outbox_id : Z;
  next_attempt_id : Z }.

#[export] Instance DB_eta : Eta DB := fun d => mkDB (chains d) (pathways d) (packets d)
  (executor_jobs d) (executor_receive_failures d) (dvn_jobs d) (tx_outbox d) (tx_attempts d)
  (tx_nonce_cursors d) (indexer_cursors d) (source_packet_skips d) (next_outbox_id d) (next_attempt_id d).

(** ** Errors: the sentinels callers test with errors.Is, and everything else. *)

Inductive dberr :=
| ErrNoRows
| ErrNonceCursorMissing | ErrNoFailedTxRetry | ErrNoStaleBroadcastReplacement
| ErrTxSendScopeInactive
| ErrSignerLaneBlocked | ErrOutboxLeaseLost | ErrNoBroadcastCandidate
| ErrBroadcastLaneHeld | ErrActiveAttemptChanged | ErrReceiptResolutionPinned
| ErrNoCancelWork | ErrNoNonceReconcileWork
| ErrPricingPendingExists
| ErrConstraint (name : string)
| Errorf (msg : string).

#[export] Instance dberr_eq_dec : EqDecision dberr.
Proof. solve_decision. Defined.

(** ** Transactions *)

(** [Ok (db', r)] commits [db'] and returns [r]; [Err e] rolls back (argument
    checks that return before [Begin] are written in the body as well: nothing has
    been written yet). *)
Abbreviation txbody A := (result dberr (DB * result dberr A)) (only parsing).

Definition run_tx {A} (db : DB) (body : txbody A) : DB * result dberr A :=
  match body with
  | Ok (db', r) => (db', r)
  | Err e => (db, Err e)
  end.

Definition commit {A} (db : DB) (a : A) : txbody A := Ok (db, Ok a).
Definition commit_err {A} (db : DB) (e : dberr) : txbody A := Ok (db, Err e).

(** ** Single-table statements *)

Definition pgInterval (duration_ns : Z) : Z := Z.quot duration_ns 1000.
Definition Second : Z := 1000000000.
Definition Minute : Z := 60 * Second.

(** [UPDATE tx_outbox SET f WHERE id = $1 AND P]: the new state, the row count. *)
Definition update_outbox (db : DB) (id : Z) (P : OutboxRow -> Prop) `{forall o, Decision (P o)}
    (f : OutboxRow -> OutboxRow) : DB * Z :=
  match tx_outbox db !! id with
  | Some o => if decide (P o) then (db <| tx_outbox := <[id := f o]> (tx_outbox db) |>, 1)
              else (db, 0)
  | None => (db, 0)
  end.

Definition set_outbox (db : DB) (id : Z) (o : OutboxRow) : DB :=
  db <| tx_outbox := <[id := o]> (tx_outbox db) |>.
Definition set_attempt (db : DB) (id : Z) (a : AttemptRow) : DB :=
  db <| tx_attempts := <[id := a]> (tx_attempts db) |>.
Definition set_cursor (db : DB) (k : Z * string) (n : NonceCursorRow) : DB :=
  db <| tx_nonce_cursors := <[k := n]> (tx_nonce_cursors db) |>.
Definition set_executor_job (db : DB) (guid : bytes) (e : ExecutorJobRow) : DB :=
  db <| executor_jobs := <[guid := e]> (executor_jobs db) |>.
Definition set_dvn_job (db : DB) (guid : bytes) (d : DVNJobRow) : DB :=
  db <| dvn_jobs := <[guid := d]> (dvn_jobs db) |>.

(** The column list of every INSERT INTO tx_outbox; the rest are defaults. *)
Definition new_outbox_row (chain : Z) (purpose : string) (guid : option bytes)
    (to_address calldata : bytes) (value : Z) (signer : string) (attempts : Z)
    (retry_of : option Z) (now : timestamp) : OutboxRow :=
  mkOutbox chain purpose guid to_address calldata value None signer TxStatusQueued
    None None None None None None None None None
    attempts None None retry_of None now
    None None None None None None None 0 None None None None.

Definition insert_outbox (db : DB) (o : OutboxRow) : DB * Z :=
  let id := next_outbox_id db in
  (db <| tx_outbox := <[id := o]> (tx_outbox db) |> <| next_outbox_id := id + 1 |>, id).

(** [UPDATE packets SET status = $to WHERE guid = $1 AND status = $from]. *)
Definition update_packet_status (db : DB) (guid : bytes) (to from : string) (now : timestamp)
    : DB * Z :=
  match packets db !! guid with
  | Some p =>
    if decide (p_status p = from)
    then (db <| packets := <[guid := p <| p_status := to |> <| p_updated_at := now |>]>
                (packets db) |>, 1)
    else (db, 0)
  | None => (db, 0)
  end.

(** [SELECT .. FROM tx_outbox o WHERE P]: the matching rows with their ids. *)
Definition select_outbox (db : DB) (P : Z * OutboxRow -> Prop) `{forall x, Decision (P x)}
    : list (Z * OutboxRow) :=
  filter P (map_to_list (tx_outbox db)).

Lemma elem_of_select_outbox db P `{forall x, Decision (P x)} id o :
  (id, o) ∈ select_outbox db P <-> tx_outbox db !! id = Some o /\ P (id, o).
Proof. unfold select_outbox. rewrite list_elem_of_filter, elem_of_map_to_list. tauto. Qed.

Definition id_le {A} (x y : Z * A) : Prop := x.1 <= y.1.
#[export] Instance id_le_dec {A} : RelDecision (@id_le A).
Proof. intros x y. unfold id_le. apply _. Defined.

(** [SELECT .. FROM tx_attempts a WHERE P ORDER BY a.id] *)
Definition select_attempts (db : DB) (P : Z * AttemptRow -> Prop) `{forall x, Decision (P x)}
    : list (Z * AttemptRow) :=
  merge_sort id_le (filter P (map_to_list (tx_attempts db))).

Lemma elem_of_select_attempts db P `{forall x, Decision (P x)} id a :
  (id, a) ∈ select_attempts db P <-> tx_attempts db !! id = Some a /\ P (id, a).
Proof.
  unfold select_attempts. rewrite merge_sort_Permutation.
  rewrite list_elem_of_filter, elem_of_map_to_list. tauto.
Qed.

(** [LEFT JOIN tx_attempts a ON a.outbox_id = o.id AND a.id = o.active_attempt_id] *)
Definition active_attempt (db : DB) (id : Z) (o : OutboxRow) : option (Z * AttemptRow) :=
  aid ← o_active_attempt_id o;
  a ← tx_attempts db !! aid;
  if decide (a_outbox_id a = id) then Some (aid, a) else None.

(** [SELECT EXISTS (SELECT 1 FROM tx_outbox WHERE P)] *)
Definition exists_outbox (db : DB) (P : OutboxRow -> Prop) : Prop :=
  exists id o, tx_outbox db !! id = Some o /\ P o.

#[export] Instance exists_outbox_dec db P `{forall o, Decision (P o)} :
  Decision (exists_outbox db P).
Proof.
  destruct (decide (map_Exists (fun _ o => P o) (tx_outbox db))) as [H'|H'].
  - left. destruct H' as (i & o & ? & ?). by exists i, o.
  - right. intros (i & o & ? & ?). apply H'. by exists i, o.
Defined.
