(* ===== verification/SendScope.v ===== *)
(** * Send scopes: pause and disable gates (go/internal/db/send_scope.go, pause.go)

    [lockTxSendScope] is the gate the enqueue, signing and retry paths run under
    row locks; [txSendScopeActive] is the lock-free SQL predicate the selectors
    use. [txSendScopeActive_lock] proves the two agree on a database that meets
    the schema's foreign keys and unique keys. *)

From S2P Require Import Prelude Schema.
From stdpp Require Import base gmap list strings numbers fin_maps.
From Stdlib Require Import ZArith Lia.
#[local] Open Scope Z_scope.

Definition txRetryScopeDeferDelay : Z := Minute.

Inductive txSendScope := txSendScopeNone | txSendScopeChain | txSendScopePacket.

Definition txSendScopeKind (purpose : string) : txSendScope :=
  if decide (purpose = TxPurposePricingSetPriceSnapshot) then txSendScopeChain
  else if decide (purpose = txPurposeExecutorCommitVerification \/
                  purpose = txPurposeExecutorLzReceive \/
                  purpose = txPurposeDVNVerify) then txSendScopePacket
  else txSendScopeNone.

Definition chain_active (c : ChainRow) : bool := c_enabled c && negb (c_paused c).

Definition lockChainSendScope (db : DB) (chainEID : Z) : result dberr unit :=
  match chains db !! chainEID with
  | None => Err ErrTxSendScopeInactive
  | Some c =>
    check chain_active c = true or ErrTxSendScopeInactive ;;
    Ok tt
  end.

(** [pw.src_eid = .. AND pw.dst_eid = .. AND pw.src_oapp = .. AND pw.dst_oapp = ..] *)
Definition pathway_matches (p : PacketRow) (pw : PathwayRow) : Prop :=
  pw_src_eid pw = p_src_eid p /\ pw_dst_eid pw = p_dst_eid p /\
  pw_src_oapp pw = p_sender p /\ pw_dst_oapp pw = p_receiver p.

#[export] Instance pathway_matches_dec p pw : Decision (pathway_matches p pw) := _.

Definition find_pathway (db : DB) (p : PacketRow) : option PathwayRow :=
  snd <$> head (map_to_list (filter (fun kv => pathway_matches p kv.2) (pathways db))).

(** [SELECT enabled, paused FROM chains WHERE eid = ANY($1) ORDER BY eid] *)
Definition select_chains (db : DB) (eids : list Z) : list ChainRow :=
  omap (fun e => chains db !! e) eids.

Definition lockPacketSendScope (db : DB) (chainEID : Z) (guid : bytes) : result dberr unit :=
  check length guid = HashLength or Errorf "packet-scoped tx requires a 32-byte guid" ;;
  match packets db !! guid with
  | None => Err (Errorf "packet not found for send scope")
  | Some p =>
    check chainEID = p_dst_eid p or Errorf "outbox chain does not match packet destination" ;;
    let lo := Z.min (p_src_eid p) (p_dst_eid p) in
    let hi := Z.max (p_src_eid p) (p_dst_eid p) in
    let eids := if decide (lo = hi) then [lo] else [lo; hi] in
    let want := length eids in
    let rows := select_chains db eids in
    check length rows = want /\ forallb chain_active rows = true or ErrTxSendScopeInactive ;;
    match find_pathway db p with
    | None => Err ErrTxSendScopeInactive
    | Some pw =>
      check ~ (pw_enabled pw = false \/ pw_paused pw = true) or ErrTxSendScopeInactive ;;
      Ok tt
    end
  end.

Definition lockTxSendScope (db : DB) (chainEID : Z) (purpose : string) (guid : bytes)
    : result dberr unit :=
  match txSendScopeKind purpose with
  | txSendScopeChain =>
    check length guid = 0%nat or Errorf "purpose must not carry a packet guid" ;;
    lockChainSendScope db chainEID
  | txSendScopePacket => lockPacketSendScope db chainEID guid
  | txSendScopeNone => Err (Errorf "purpose has no send scope; refusing to sign")
  end.

(** ** The SQL twin *)

Definition chain_row_active (db : DB) (eid : Z) : Prop :=
  match chains db !! eid with Some c => chain_active c = true | None => False end.
Definition chain_row_inactive (db : DB) (eid : Z) : Prop :=
  match chains db !! eid with Some c => chain_active c = false | None => False end.

#[export] Instance chain_row_active_dec db eid : Decision (chain_row_active db eid).
Proof. unfold chain_row_active. destruct (chains db !! eid); apply _. Defined.
#[export] Instance chain_row_inactive_dec db eid : Decision (chain_row_inactive db eid).
Proof. unfold chain_row_inactive. destruct (chains db !! eid); apply _. Defined.

Definition packet_scope_active (db : DB) (chain : Z) (p : PacketRow) : Prop :=
  p_dst_eid p = chain /\
  map_Exists (fun _ pw => pathway_matches p pw /\ pw_enabled pw = true /\ pw_paused pw = false)
    (pathways db) /\
  ~ chain_row_inactive db (p_src_eid p) /\ ~ chain_row_inactive db (p_dst_eid p).

Definition txSendScopeActive (db : DB) (o : OutboxRow) : Prop :=
  o_nonce o <> None \/
  (o_purpose o = TxPurposePricingSetPriceSnapshot /\ o_guid o = None /\
   chain_row_active db (o_chain_eid o)) \/
  ((o_purpose o = txPurposeExecutorCommitVerification \/
    o_purpose o = txPurposeExecutorLzReceive \/ o_purpose o = txPurposeDVNVerify) /\
   match (g ← o_guid o; packets db !! g) with
   | Some p => packet_scope_active db (o_chain_eid o) p
   | None => False
   end).

#[export] Instance packet_scope_active_dec db c p : Decision (packet_scope_active db c p) := _.
#[export] Instance txSendScopeActive_dec db o : Decision (txSendScopeActive db o).
Proof.
  unfold txSendScopeActive.
  destruct (g ← o_guid o; packets db !! g) as [p|]; apply _.
Defined.

(** ** Pausing (pause.go) *)

Definition PauseChain (eid : Z) (db : DB) : DB * result dberr unit :=
  if decide (eid = 0) then (db, Err (Errorf "chain eid is required")) else
  match chains db !! eid with
  | None => (db, Err (Errorf "chain was not found"))
  | Some c => (db <| chains := <[eid := c <| c_paused := true |>]> (chains db) |>, Ok tt)
  end.

Definition PausePathwayForPacket (guid : Hash) (db : DB) : DB * result dberr unit :=
  if decide (guid = 0) then (db, Err (Errorf "packet guid is required")) else
  match packets db !! HashBytes guid with
  | None => (db, Err (Errorf "pathway for packet was not found"))
  | Some p =>
    let hit := filter (fun kv => pathway_matches p kv.2) (pathways db) in
    (db <| pathways := ((fun pw => pw <| pw_paused := true |>) <$> hit) ∪ pathways db |>,
     if decide (size hit = 1%nat) then Ok tt
     else Err (Errorf "pathway for packet was not found"))
  end.

(** ** The schema facts the two gates rely on *)

(** packets.src_eid / dst_eid REFERENCES chains, packets.guid is a 32-byte hash,
    UNIQUE(src_eid, dst_eid, src_oapp, dst_oapp) on pathways. *)
Record scope_wf (db : DB) : Prop := {
  wf_packet_chains : forall g p, packets db !! g = Some p ->
    is_Some (chains db !! p_src_eid p) /\ is_Some (chains db !! p_dst_eid p);
  wf_packet_guid : forall g p, packets db !! g = Some p -> length g = HashLength;
  wf_pathway_unique : forall p i j pi pj,
    pathways db !! i = Some pi -> pathways db !! j = Some pj ->
    pathway_matches p pi -> pathway_matches p pj -> i = j }.

Lemma find_pathway_spec db p i pw :
  scope_wf db -> pathways db !! i = Some pw -> pathway_matches p pw ->
  find_pathway db p = Some pw.
Proof.
  intros Hwf Hi Hm. unfold find_pathway.
  set (m := filter (fun kv => pathway_matches p kv.2) (pathways db)).
  assert (m = {[ i := pw ]}) as ->.
  { apply map_eq. intros j. destruct (decide (i = j)) as [<-|Hne].
    - rewrite lookup_singleton_eq. apply map_lookup_filter_Some. done.
    - rewrite lookup_singleton_ne by done. apply map_lookup_filter_None. right.
      intros pj Hj Hmj. apply Hne. by eapply (wf_pathway_unique db Hwf p). }
  by rewrite map_to_list_singleton.
Qed.

Lemma find_pathway_None db p :
  find_pathway db p = None -> forall i pw, pathways db !! i = Some pw -> ~ pathway_matches p pw.
Proof.
  unfold find_pathway. intros H i pw Hi Hm.
  destruct (map_to_list _) as [|[j q] l] eqn:E; [|done].
  apply map_to_list_empty_iff in E.
  assert (filter (fun kv => pathway_matches p kv.2) (pathways db) !! i = Some pw) as Hf
    by (by apply map_lookup_filter_Some).
  by rewrite E in Hf.
Qed.

(** The chain part of the lock gate, in the SQL twin's words. *)
Lemma select_chains_active db p :
  is_Some (chains db !! p_src_eid p) -> is_Some (chains db !! p_dst_eid p) ->
  let lo := Z.min (p_src_eid p) (p_dst_eid p) in
  let hi := Z.max (p_src_eid p) (p_dst_eid p) in
  let eids := if decide (lo = hi) then [lo] else [lo; hi] in
  (length (select_chains db eids) = length eids /\
   forallb chain_active (select_chains db eids) = true) <->
  ~ chain_row_inactive db (p_src_eid p) /\ ~ chain_row_inactive db (p_dst_eid p).
Proof.
  intros [cs Hs] [cd Hd]. cbv zeta. unfold chain_row_inactive. rewrite Hs, Hd.
  rewrite !not_false_iff_true. unfold select_chains.
  destruct (Z.le_ge_cases (p_src_eid p) (p_dst_eid p)) as [Hle|Hle].
  - rewrite Z.min_l, Z.max_r by lia. case_decide as He; simpl.
    + rewrite Hs. simpl. rewrite He, Hd in Hs. simplify_eq.
      rewrite andb_true_r. tauto.
    + rewrite Hs, Hd. simpl. rewrite andb_true_r, andb_true_iff. tauto.
  - rewrite Z.min_r, Z.max_l by lia. case_decide as He; simpl.
    + rewrite Hd. simpl. rewrite He, Hs in Hd. simplify_eq.
      rewrite andb_true_r. tauto.
    + rewrite Hs, Hd. simpl. rewrite andb_true_r, andb_true_iff. tauto.
Qed.

Lemma lockPacketSendScope_active db g p chain :
  scope_wf db -> packets db !! g = Some p ->
  lockPacketSendScope db chain g = Ok tt <-> packet_scope_active db chain p.
Proof.
  intros Hwf Hp. unfold lockPacketSendScope.
  rewrite decide_True by (by eapply wf_packet_guid). rewrite Hp.
  destruct (wf_packet_chains db Hwf g p Hp) as [Hs Hd].
  pose proof (select_chains_active db p Hs Hd) as Hsel. cbv zeta in Hsel |- *.
  unfold packet_scope_active.
  set (eids := if decide (_ = _) then _ else _) in *. clearbody eids.
  case_decide as Hch; [|split; [done|]; intros [Hc _]; by symmetry in Hc].
  case_decide as Hact.
  2:{ split; [done|]. intros (_ & _ & Hn). destruct Hact. by apply Hsel. }
  apply Hsel in Hact. destruct (find_pathway db p) as [pw|] eqn:Hf.
  - assert (exists i, pathways db !! i = Some pw /\ pathway_matches p pw) as (i & Hi & Hm).
    { unfold find_pathway in Hf. destruct (head _) as [[j q]|] eqn:Hh; [|done].
      simplify_eq/=. exists j.
      apply head_Some_elem_of, elem_of_map_to_list, map_lookup_filter_Some in Hh. done. }
    case_decide as Hpw.
    + split; [intros _|done]. split_and!; try tauto; [done|]. exists i, pw.
      destruct (pw_enabled pw), (pw_paused pw); try tauto; destruct Hpw; auto.
    + split; [done|]. intros (_ & (j & q & Hj & Hmq & He & Hpa) & _). exfalso.
      assert (find_pathway db p = Some q) as Hq by (by eapply find_pathway_spec).
      assert (pw = q) as -> by congruence. destruct Hpw; congruence.
  - split; [done|]. intros (_ & (j & q & Hj & Hmq & _) & _).
    by apply (find_pathway_None db p Hf j q) in Hj.
Qed.

Lemma lockPacketSendScope_no_packet db g chain :
  packets db !! g = None -> lockPacketSendScope db chain g <> Ok tt.
Proof. intros Hg. unfold lockPacketSendScope. case_decide; [|done]. by rewrite Hg. Qed.

(** The two gates, by purpose. *)
Lemma scope_gates_agree db o :
  scope_wf db -> o_nonce o = None -> o_guid o <> Some [] ->
  txSendScopeActive db o <->
  lockTxSendScope db (o_chain_eid o) (o_purpose o) (default [] (o_guid o)) = Ok tt.
Proof.
  intros Hwf Hn Hg. unfold txSendScopeActive, lockTxSendScope, txSendScopeKind. rewrite Hn.
  case_decide as Hpr.
  - rewrite Hpr.
    unfold lockChainSendScope, chain_row_active.
    destruct (o_guid o) as [[|b g]|]; [done| |]; cbn [default length].
    + rewrite decide_False by done. split; [|done]. intros [?|[(_ & ? & _)|[[?|[?|?]] _]]]; done.
    + rewrite decide_True by done. destruct (chains db !! o_chain_eid o) as [c|].
      * case_decide; split; try done; [intros _; right; left; done|].
        intros [?|[(_ & _ & ?)|[[?|[?|?]] _]]]; done.
      * split; [|done]. intros [?|[(_ & _ & ?)|[[?|[?|?]] _]]]; done.
  - case_decide as Hpk; cycle 1.
    { split; [|done]. intros [?|[(? & _)|(? & _)]]; [done|by destruct Hpr|by destruct Hpk]. }
    destruct (o_guid o) as [g|] eqn:Eg; cbn [default mbind option_bind].
    + destruct (packets db !! g) as [p|] eqn:Ep.
      * rewrite (lockPacketSendScope_active db g p) by done. split.
        -- intros [?|[(? & _)|(_ & ?)]]; [done|by destruct Hpr|done].
        -- intros ?. right. right. done.
      * split; [|by intros ?%lockPacketSendScope_no_packet].
        intros [?|[(? & _)|(_ & ?)]]; [done|by destruct Hpr|done].
    + split; [|done]. intros [?|[(? & _)|(_ & ?)]]; [done|by destruct Hpr|done].
Qed.

(** the lock-free SQL predicate the selectors filter with agrees with the gate the
    signing and enqueue paths run under locks: on a database that meets the schema's keys,
    a row without a nonce passes the predicate exactly when lockTxSendScope accepts it. *)
Theorem txSendScopeActive_lock db o :
  scope_wf db -> o_nonce o = None -> o_guid o <> Some [] ->
  txSendScopeActive db o <->
  lockTxSendScope db (o_chain_eid o) (o_purpose o) (default [] (o_guid o)) = Ok tt.
Proof. apply scope_gates_agree. Qed.

(** One active pathway from chain 8 to chain 7 and one packet on it. *)
Definition scope_sample : DB :=
  mkDB {[ 7 := mkChain true false; 8 := mkChain true false ]}
    {[ 1 := mkPathway 8 7 [Byte.x01] [Byte.x02] true false ]}
    {[ HashBytes 5 := mkPacketRow 8 7 1 [Byte.x01] [Byte.x02] [] [] 0 0 [] [] [] [] [] "" 0 ]}
    ∅ ∅ ∅ ∅ ∅ ∅ ∅ ∅ 1 1.

Lemma scope_sample_wf : scope_wf scope_sample.
Proof.
  split; cbn [scope_sample packets pathways].
  - intros g p [<- <-]%lookup_singleton_Some. split; vm_compute; eauto.
  - intros g p [<- <-]%lookup_singleton_Some. vm_compute. reflexivity.
  - intros p i j pi pj [<- _]%lookup_singleton_Some [<- _]%lookup_singleton_Some. done.
Qed.


(** a paused chain is closed to new nonces: after PauseChain succeeds the send gate refuses
    every purpose and every packet on that chain. *)
Theorem PauseChain_blocks eid db db' purpose g :
  PauseChain eid db = (db', Ok tt) ->
  lockTxSendScope db' eid purpose g <> Ok tt.
Proof.
  unfold PauseChain. case_decide; [done|].
  destruct (chains db !! eid) as [c|] eqn:Ec; [|done]. intros [= <-].
  assert (forall k, chains (db <| chains := <[eid := c <| c_paused := true |>]> (chains db) |>) !! k
    = <[eid := c <| c_paused := true |>]> (chains db) !! k) as Hl by done.
  unfold lockTxSendScope. destruct (txSendScopeKind purpose); [done| |].
  - case_decide; [|done]. unfold lockChainSendScope. rewrite Hl, lookup_insert_eq.
    rewrite decide_False; [done|]. unfold chain_active. cbn. by rewrite andb_false_r.
  - unfold lockPacketSendScope. case_decide; [|done]. destruct (packets _ !! g) as [p|]; [|done].
    case_decide as Hd; [|done]. destruct (decide (_ /\ _)) as [Ha|]; [|done]. exfalso.
    destruct Ha as [Hlen Hact]. rewrite forallb_forall in Hact.
    assert (c <| c_paused := true |> ∈ select_chains
      (db <| chains := <[eid := c <| c_paused := true |>]> (chains db) |>)
      (if decide (Z.min (p_src_eid p) (p_dst_eid p) = Z.max (p_src_eid p) (p_dst_eid p))
       then [Z.min (p_src_eid p) (p_dst_eid p)]
       else [Z.min (p_src_eid p) (p_dst_eid p); Z.max (p_src_eid p) (p_dst_eid p)])) as Hin.
    { unfold select_chains. apply list_elem_of_omap. exists eid. split.
      - case_decide; rewrite ?elem_of_cons, ?elem_of_nil; lia.
      - by rewrite Hl, lookup_insert_eq. }
    apply list_elem_of_In in Hin. specialize (Hact _ Hin).
    unfold chain_active in Hact. cbn in Hact. by rewrite andb_false_r in Hact.
Qed.

Lemma PauseChain_blocks_witness :
  PauseChain 7 scope_sample =
    (scope_sample <| chains := <[7 := mkChain true true]> (chains scope_sample) |>, Ok tt) /\
  lockTxSendScope (scope_sample <| chains := <[7 := mkChain true true]> (chains scope_sample) |>)
    7 txPurposeDVNVerify (HashBytes 5) <> Ok tt.
Proof.
  split; [reflexivity|]. apply (PauseChain_blocks 7 scope_sample). reflexivity.
Defined.
