(* ===== verification/Outbox.v ===== *)
(** * The transaction outbox (go/internal/db/outbox.go)

    Enqueueing, selecting, failing and retrying outbox rows, and the signer
    nonce cursor. Each [Store] method is the definition of the same name. *)

From S2P Require Import Prelude Schema SendScope.
From stdpp Require Import base gmap list strings numbers fin_maps pretty.
From Stdlib Require Import ZArith Lia.
#[local] Open Scope Z_scope.

Definition maxDBNonce : Z := 2 ^ 63 - 1.
Definition TxAutoRetryMaxAttempts : Z := 5.
Definition txAutoRetryBaseDelay : Z := Minute.
Definition txAutoRetryMaxDelay : Z := 30 * Minute.
Definition MaxLzReceiveDeliveryAttempts : Z := 5.

(** ** Requests and projections *)

Record TxRequest := mkTxRequest {
  ChainEID : Z; Purpose : string; GUID : bytes; To : Address; Calldata : bytes;
  Value : option Z; SignerID : string }.

Definition addressBytes (a : Address) : bytes := be_split AddressLength a.

Definition optionalBytes (value : bytes) : option bytes :=
  if decide (length value = 0%nat) then None else Some value.
Definition optionalString (value : string) : option string :=
  if decide (value = ""%string) then None else Some value.

Record QueuedOutboxTx := mkQueuedOutboxTx {
  q_ID : Z; q_ChainEID : Z; q_Purpose : string; q_GUID : bytes; q_To : Address;
  q_Calldata : bytes; q_Value : Z; q_GasLimit : Z; q_MaxFeePerGas : option Z;
  q_MaxPriorityFeePerGas : option Z; q_Nonce : option Z; q_TxHash : Hash;
  q_SignerID : string; q_Status : TxStatus; q_Attempts : Z; q_FailureKind : string;
  q_NextRetryAt : option Z; q_RetryOfID : option Z }.

Record OutboxTx := mkOutboxTx {
  t_queued : QueuedOutboxTx; t_Nonce : Z; t_ReceiptTxHash : Hash;
  t_ReceiptStatus : option Z; t_ReceiptBlockNumber : option Z; t_ReceiptGasUsed : option Z;
  t_ReceiptEffectiveGasPrice : option Z; t_ReceiptGasCostDstWei : option Z;
  t_ReceiptGasCostSrcWei : option Z; t_ReceiptObservedAt : option Z;
  t_ReceiptCostPricedAt : option Z; t_CancelRequestedAt : option Z;
  t_ReceiptOutcome : option ReceiptOutcome; t_ReceiptAttemptID : Z }.

(** strconv.ParseUint of a NUMERIC column's text. *)
Definition parseUint64 (v : option Z) : result dberr Z :=
  match v with
  | None => Ok 0
  | Some n => check 0 <= n < 2 ^ 64 or Errorf "not a valid uint64" ;; Ok n
  end.
Definition parseOptionalUint64 (v : option Z) : result dberr (option Z) :=
  match v with
  | None => Ok None
  | Some n => check 0 <= n < 2 ^ 64 or Errorf "not a valid uint64" ;; Ok (Some n)
  end.
Definition parseOptionalHash (v : option bytes) : result dberr Hash :=
  match v with
  | None => Ok 0
  | Some b => check length b = HashLength or Errorf "hash has a wrong length" ;; Ok (BytesToHash b)
  end.

Definition toQueuedOutboxTx (id : Z) (o : OutboxRow) (a : option AttemptRow)
    : result dberr QueuedOutboxTx :=
  gasLimit ← parseUint64 (a_gas_limit <$> a);
  nonce ← match o_nonce o with
          | Some n => check 0 <= n or Errorf "outbox tx nonce is negative" ;; Ok (Some n)
          | None => Ok None
          end;
  check length (o_to_address o) = AddressLength or Errorf "outbox tx to_address length" ;;
  txHash ← parseOptionalHash (a_tx_hash <$> a);
  Ok (mkQueuedOutboxTx id (o_chain_eid o) (o_purpose o) (default [] (o_guid o))
        (BytesToAddress (o_to_address o)) (o_calldata o) (o_value o) gasLimit
        (a_max_fee_per_gas <$> a) (a ≫= a_max_priority_fee_per_gas) nonce txHash
        (o_signer_id o) (o_status o) (o_attempts o) (default ""%string (o_failure_kind o))
        (o_next_retry_at o) (o_retry_of_id o)).

Definition toOutboxTx (id : Z) (o : OutboxRow) (a : option AttemptRow) : result dberr OutboxTx :=
  queued ← toQueuedOutboxTx id o a;
  let nonce := default 0 (q_Nonce queued) in
  receiptTxHash ← parseOptionalHash (o_receipt_tx_hash o);
  receiptStatus ← parseOptionalUint64 (o_receipt_status o);
  receiptBlockNumber ← parseOptionalUint64 (o_receipt_block_number o);
  receiptGasUsed ← parseOptionalUint64 (o_receipt_gas_used o);
  Ok (mkOutboxTx queued nonce receiptTxHash receiptStatus receiptBlockNumber receiptGasUsed
        (o_receipt_effective_gas_price o) (o_receipt_gas_cost_dst_wei o)
        (o_receipt_gas_cost_src_wei o) (o_receipt_observed_at o) (o_receipt_cost_priced_at o)
        (o_cancel_requested_at o) (o_receipt_outcome o) (default 0 (o_receipt_attempt_id o))).

Definition GetOutboxTx (id : Z) (db : DB) : result dberr OutboxTx :=
  match tx_outbox db !! id with
  | None => Err ErrNoRows
  | Some o => toOutboxTx id o (snd <$> active_attempt db id o)
  end.

(** ** Enqueue *)

Definition EnqueueTx (request : TxRequest) (now : timestamp) (db : DB) : DB * result dberr Z :=
  run_tx db (
    check ChainEID request <> 0 or Errorf "chain eid is required" ;;
    check Purpose request <> ""%string or Errorf "purpose is required" ;;
    check To request <> 0 or Errorf "to address is required" ;;
    check SignerID request <> ""%string or Errorf "signer id is required" ;;
    let value := default 0 (Value request) in
    _ ← lockTxSendScope db (ChainEID request) (Purpose request) (GUID request);
    let '(db, id) := insert_outbox db
      (new_outbox_row (ChainEID request) (Purpose request) (optionalBytes (GUID request))
         (addressBytes (To request)) (Calldata request) value (SignerID request) 0 None now) in
    commit db id).

(** ** Selecting the next row to sign *)

Definition sendable (db : DB) (chainEID : Z) (signerID : string) (statuses : list TxStatus)
    (now : timestamp) (x : Z * OutboxRow) : Prop :=
  o_chain_eid x.2 = chainEID /\ o_signer_id x.2 = signerID /\ o_status x.2 ∈ statuses /\
  null_or_le (o_next_sign_at x.2) now /\ null_or_le (o_lease_until x.2) now /\
  o_cancel_requested_at x.2 = None /\ o_receipt_outcome x.2 = None /\
  txSendScopeActive db x.2.
#[export] Instance sendable_dec db c s st now x : Decision (sendable db c s st now x) := _.

(** ORDER BY CASE WHEN status = 'nonce_assigned' THEN 0 ELSE 1 END, nonce NULLS LAST, id *)
Definition sendable_key (x : Z * OutboxRow) : list Z :=
  (if decide (o_status x.2 = TxStatusNonceAssigned) then 0 else 1)
    :: nulls_last (o_nonce x.2) ++ [x.1].

Definition peekSendableTx (chainEID : Z) (signerID : string) (statuses : list TxStatus)
    (now : timestamp) (db : DB) : result dberr QueuedOutboxTx :=
  check chainEID <> 0 or Errorf "chain eid is required" ;;
  check signerID <> ""%string or Errorf "signer id is required" ;;
  check length statuses <> 0%nat or Errorf "tx statuses are required" ;;
  match order_by sendable_key (select_outbox db (sendable db chainEID signerID statuses now)) with
  | None => Err ErrNoRows
  | Some (id, o) => toQueuedOutboxTx id o (snd <$> active_attempt db id o)
  end.

Definition PeekSendableTx (chainEID : Z) (signerID : string) (now : timestamp) (db : DB)
    : result dberr QueuedOutboxTx :=
  peekSendableTx chainEID signerID [TxStatusQueued; TxStatusNonceAssigned] now db.

(** ** The signer nonce cursor *)

Definition lane (chainEID : Z) (signerID : string) (o : OutboxRow) : Prop :=
  o_chain_eid o = chainEID /\ o_signer_id o = signerID.
#[export] Instance lane_dec c s o : Decision (lane c s o) := _.

(** The nonces recorded on a signer's lane. *)
Definition lane_nonces (db : DB) (chainEID : Z) (signerID : string) : list Z :=
  omap (fun x => o_nonce x.2) (select_outbox db (fun x => lane chainEID signerID x.2)).

(** SELECT max(nonce): NULL on no rows. *)
Definition max_nonce (l : list Z) : option Z :=
  match l with [] => None | n :: l => Some (foldr Z.max n l) end.

Definition localNextNonce (db : DB) (chainEID : Z) (signerID : string) : result dberr Z :=
  match max_nonce (lane_nonces db chainEID signerID) with
  | None => Ok 0
  | Some dbMax =>
    check 0 <= dbMax or Errorf "negative nonce" ;;
    check dbMax < maxDBNonce or Errorf "nonce overflow" ;;
    Ok (dbMax + 1)
  end.

Definition BootstrapTxNonceCursor (chainEID : Z) (signerID : string) (rpcPendingNonce : Z)
    (now : timestamp) (db : DB) : DB * result dberr bool :=
  run_tx db (
    check chainEID <> 0 or Errorf "chain eid is required" ;;
    check signerID <> ""%string or Errorf "signer id is required" ;;
    check rpcPendingNonce <= maxDBNonce or Errorf "rpc pending nonce exceeds database nonce limit" ;;
    localNext ← localNextNonce db chainEID signerID;
    let nextNonce := Z.max localNext rpcPendingNonce in
    match tx_nonce_cursors db !! (chainEID, signerID) with
    | Some _ => commit db false
    | None =>
      check is_Some (chains db !! chainEID) or ErrConstraint "tx_nonce_cursors_chain_fkey" ;;
      commit (set_cursor db (chainEID, signerID)
                        (mkNonceCursor nextNonce None None None now)) true
    end).

Definition claimCursorNonce (db : DB) (chainEID : Z) (signerID : string) (now : timestamp)
    : result dberr (DB * Z) :=
  match tx_nonce_cursors db !! (chainEID, signerID) with
  | None => Err ErrNonceCursorMissing
  | Some n =>
    check 0 <= n_next_nonce n or Errorf "negative nonce cursor" ;;
    check n_next_nonce n < maxDBNonce or Errorf "nonce cursor overflow" ;;
    let nextNonce := n_next_nonce n in
    Ok (set_cursor db (chainEID, signerID)
          (n <| n_next_nonce := nextNonce + 1 |> <| n_updated_at := now |>), nextNonce)
  end.

(** ** Backoff *)

Fixpoint autoRetryDelay_loop (attempts : nat) (delay : Z) : Z :=
  match attempts with
  | O => if decide (delay > txAutoRetryMaxDelay) then txAutoRetryMaxDelay else delay
  | S attempts =>
    if decide (delay >= Z.quot txAutoRetryMaxDelay 2) then txAutoRetryMaxDelay
    else autoRetryDelay_loop attempts (delay * 2)
  end.
Definition autoRetryDelay (attempts : Z) : Z :=
  autoRetryDelay_loop (Z.to_nat attempts) txAutoRetryBaseDelay.

(** ** Failing a pristine queued row *)

Definition MarkQueuedTxEstimateRevertFailed (id : Z) (failure : option string)
    (goNow : timestamp) (now : timestamp) (db : DB) : DB * result dberr bool :=
  run_tx db (
    check 0 < id or Errorf "outbox tx id is required" ;;
    let message := default ""%string failure in
    match tx_outbox db !! id with
    | None => Ok (db, Ok false)
    | Some o =>
      if decide (o_status o = TxStatusQueued /\ o_nonce o = None /\
                 o_active_attempt_id o = None /\ null_or_le (o_lease_until o) now) then
        let retryAt :=
          if decide (o_attempts o < TxAutoRetryMaxAttempts /\
                     o_purpose o <> TxPurposePricingSetPriceSnapshot)
          then Some (goNow + pgInterval (autoRetryDelay (o_attempts o))) else None in
        commit (set_outbox db id
          (o <| o_status := TxStatusFailed |>
             <| o_failure_kind := Some TxFailureEstimateGasRevert |>
             <| o_next_retry_at := retryAt |>
             <| o_last_error := optionalString message |>
             <| o_updated_at := now |>)) true
      else Ok (db, Ok false)
    end).

Definition RefreshBroadcastReceiptObservedAt (id : Z) (now : timestamp) (db : DB)
    : DB * result dberr unit :=
  let '(db, _) := update_outbox db id
    (fun o => o_status o ∈ [TxStatusSigned; TxStatusBroadcast])
    (fun o => o <| o_updated_at := now |>) in
  (db, Ok tt).

(** ** Retrying *)

Definition deferFailedTxRetry (db : DB) (id : Z) (now : timestamp) : DB :=
  (update_outbox db id (fun o => o_status o = TxStatusFailed)
     (fun o => o <| o_next_retry_at := Some (now + pgInterval txRetryScopeDeferDelay) |>
                 <| o_updated_at := now |>)).1.

Definition requeueFailedTx (db : DB) (id : Z) (now : timestamp) : result dberr DB :=
  let '(db, n) := update_outbox db id
    (fun o => o_status o = TxStatusFailed /\ o_receipt_outcome o = None)
    (fun o => o <| o_status := TxStatusQueued |> <| o_attempts := o_attempts o + 1 |>
                <| o_failure_kind := None |> <| o_next_retry_at := None |>
                <| o_last_error := None |> <| o_updated_at := now |>) in
  check n = 1 or Errorf "outbox tx is not failed without a pinned receipt resolution" ;;
  Ok db.

Definition has_retry_child (db : DB) (id : Z) : Prop :=
  exists_outbox db (fun child => o_retry_of_id child = Some id).
#[export] Instance has_retry_child_dec db id : Decision (has_retry_child db id) := _.

(** INSERT .. SELECT chain_eid, .., attempts + 1, id FROM tx_outbox: the fresh retry row. *)
Definition retry_row (id : Z) (o : OutboxRow) (now : timestamp) : OutboxRow :=
  new_outbox_row (o_chain_eid o) (o_purpose o) (o_guid o) (o_to_address o) (o_calldata o)
    (o_value o) (o_signer_id o) (o_attempts o + 1) (Some id) now.

Definition cloneFailedTxRetry (db : DB) (id : Z) (now : timestamp) : result dberr (DB * Z) :=
  match tx_outbox db !! id with
  | None => Err (Errorf "outbox tx is not a cloneable failed row")
  | Some o =>
    check o_status o = TxStatusFailed /\ o_nonce o <> None /\ ~ has_retry_child db id
      or Errorf "outbox tx is not a cloneable failed row" ;;
    let '(db, retryID) := insert_outbox db (retry_row id o now) in
    let '(db, _) := update_outbox db id (fun _ => True)
      (fun o => o <| o_next_retry_at := None |> <| o_updated_at := now |>) in
    Ok (db, retryID)
  end.

(** UPDATE tx_outbox SET failure_kind = NULL, next_retry_at = NULL WHERE id AND failed *)
Definition finalizeFailedRow (db : DB) (id : Z) (now : timestamp) : DB :=
  (update_outbox db id (fun o => o_status o = TxStatusFailed)
     (fun o => o <| o_failure_kind := None |> <| o_next_retry_at := None |>
                 <| o_updated_at := now |>)).1.

Definition update_executor_status (db : DB) (guid : bytes) (to from : string)
    (lastError : option string) (now : timestamp) : DB * Z :=
  match executor_jobs db !! guid with
  | Some e =>
    if decide (e_status e = from)
    then (set_executor_job db guid (e <| e_status := to |> <| e_last_error := lastError |>
                                      <| e_updated_at := now |>), 1)
    else (db, 0)
  | None => (db, 0)
  end.

Definition retry_budget_message (retryCount : Z) : string :=
  ("lzReceive reverted " +:+ pretty retryCount +:+ " times, exceeding the "
     +:+ pretty MaxLzReceiveDeliveryAttempts +:+ "-attempt retry budget")%string.

Definition prepareReceiptRetryWorkflow (db : DB) (failedTxID chainEID : Z) (purpose : string)
    (guidBytes : option bytes) (now : timestamp) : result dberr (DB * bool) :=
  match guidBytes with
  | None => Ok (db, true)
  | Some guid =>
    if decide (purpose <> txPurposeExecutorLzReceive) then Ok (db, true) else
    check length guid = HashLength or Errorf "executor lzReceive retry guid length" ;;
    match executor_jobs db !! guid with
    | None => Err (Errorf "executor job not found for lzReceive retry")
    | Some job =>
      if decide (e_status job ∈ [ExecutorLzReceiveTxEnqueued; ExecutorDelivered;
                                 ExecutorManualReview])
      then Ok (finalizeFailedRow db failedTxID now, false) else
      check e_status job = ExecutorLzReceiveFailed or Errorf "executor job is in another status" ;;
      if decide (MaxLzReceiveDeliveryAttempts <= e_retry_count job) then
        let '(db, _) := update_executor_status db guid ExecutorManualReview
          ExecutorLzReceiveFailed (Some (retry_budget_message (e_retry_count job))) now in
        let '(db, _) := update_packet_status db guid ExecutorManualReview
          ExecutorLzReceiveFailed now in
        Ok (finalizeFailedRow db failedTxID now, false)
      else
      match lockTxSendScope db chainEID txPurposeExecutorLzReceive guid with
      | Err ErrTxSendScopeInactive => Ok (finalizeFailedRow db failedTxID now, false)
      | Err e => Err e
      | Ok _ =>
        let '(db, n) := update_executor_status db guid ExecutorLzReceiveTxEnqueued
          ExecutorLzReceiveFailed None now in
        check n = 1 or Errorf "executor job is not in the failed status" ;;
        let '(db, _) := update_packet_status db guid ExecutorLzReceiveTxEnqueued
          ExecutorLzReceiveFailed now in
        Ok (db, true)
      end
    end
  end.

Definition txPricingPendingStatuses : list TxStatus :=
  [TxStatusQueued; TxStatusNonceAssigned; TxStatusSigned; TxStatusBroadcast; TxStatusHeld].

(** The scope gate of the retry paths: an inactive scope only defers the retry,
    commits that, and returns [inactive]. *)
Definition gate_retry {A} (db : DB) (id : Z) (o : OutboxRow) (inactive : dberr) (now : timestamp)
    (k : txbody A) : txbody A :=
  match lockTxSendScope db (o_chain_eid o) (o_purpose o) (default [] (o_guid o)) with
  | Ok _ => k
  | Err ErrTxSendScopeInactive => commit_err (deferFailedTxRetry db id now) inactive
  | Err e => Err e
  end.

(** Prepare the owning workflow, then clone the receipt-failed row. *)
Definition prepare_and_clone (db : DB) (id : Z) (o : OutboxRow) (now : timestamp) : txbody Z :=
  '(db, retryPrepared) ← prepareReceiptRetryWorkflow db id (o_chain_eid o) (o_purpose o)
                           (o_guid o) now;
  if negb retryPrepared then commit_err db ErrNoFailedTxRetry else
  '(db, retryID) ← cloneFailedTxRetry db id now;
  commit db retryID.

Definition requeue_in_place (db : DB) (id : Z) (now : timestamp) : txbody Z :=
  db ← requeueFailedTx db id now;
  commit db id.

(** Another snapshot of the same feed that can land before this row's nonce. *)
Definition pricing_blocking (db : DB) (o : OutboxRow) (nonce : Z) : Prop :=
  exists_outbox db (fun b =>
    o_chain_eid b = o_chain_eid o /\ o_purpose b = o_purpose o /\
    o_to_address b = o_to_address o /\ o_status b ∈ txPricingPendingStatuses /\
    ~ (o_signer_id b = o_signer_id o /\ opt_gt (o_nonce b) nonce)).
#[export] Instance pricing_blocking_dec db o n : Decision (pricing_blocking db o n) := _.

Definition RetryFailedTx (id : Z) (now : timestamp) (db : DB) : DB * result dberr Z :=
  run_tx db (
    match tx_outbox db !! id with
    | None => Err (Errorf "outbox tx is not failed")
    | Some o =>
      check o_status o = TxStatusFailed or Errorf "outbox tx is not failed" ;;
      let kind := default ""%string (o_failure_kind o) in
      check ~ (kind = TxFailureCanceled \/ kind = TxFailureNonceConsumedExternally)
        or Errorf "outbox tx failure kind is not retryable" ;;
      check ~ (o_receipt_outcome o <> None /\ kind <> TxFailureReceiptFailed)
        or Errorf "outbox tx has a pinned receipt resolution" ;;
      check ~ (o_purpose o = TxPurposePricingSetPriceSnapshot /\
               (o_nonce o = None \/ kind = TxFailureReceiptFailed))
        or Errorf "outbox tx carries a pricing observation and is not retryable" ;;
      check ~ (o_purpose o = TxPurposePricingSetPriceSnapshot /\
               pricing_blocking db o (default 0 (o_nonce o)))
        or Errorf "another snapshot for its feed is in flight" ;;
      if decide (o_nonce o = None \/ kind <> TxFailureReceiptFailed) then
        gate_retry db id o ErrTxSendScopeInactive now (requeue_in_place db id now)
      else
        check 0 <= default 0 (o_nonce o) or Errorf "negative nonce" ;;
        if decide (o_purpose o <> txPurposeExecutorLzReceive) then
          gate_retry db id o ErrTxSendScopeInactive now (prepare_and_clone db id o now)
        else prepare_and_clone db id o now
    end).

Definition retry_due (db : DB) (chainEID : Z) (signerID : string) (now : timestamp)
    (x : Z * OutboxRow) : Prop :=
  lane chainEID signerID x.2 /\ o_status x.2 = TxStatusFailed /\
  o_attempts x.2 < TxAutoRetryMaxAttempts /\ opt_le (o_next_retry_at x.2) now /\
  (o_failure_kind x.2 = Some TxFailureEstimateGasRevert \/
   o_failure_kind x.2 = Some TxFailureReceiptFailed) /\
  o_purpose x.2 <> TxPurposePricingSetPriceSnapshot /\
  ~ has_retry_child db x.1.
#[export] Instance retry_due_dec db c s now x : Decision (retry_due db c s now x) := _.

Definition PrepareNextFailedTxRetry (chainEID : Z) (signerID : string) (now : timestamp) (db : DB)
    : DB * result dberr Z :=
  run_tx db (
    check chainEID <> 0 or Errorf "chain eid is required" ;;
    check signerID <> ""%string or Errorf "signer id is required" ;;
    match order_by (fun x => [default 0 (o_next_retry_at x.2); x.1])
            (select_outbox db (retry_due db chainEID signerID now)) with
    | None => Err ErrNoFailedTxRetry
    | Some (id, o) =>
      if decide (o_nonce o = None \/ o_failure_kind o = Some TxFailureEstimateGasRevert) then
        gate_retry db id o ErrNoFailedTxRetry now (requeue_in_place db id now)
      else if decide (o_failure_kind o = Some TxFailureReceiptFailed) then
        if decide (o_purpose o <> txPurposeExecutorLzReceive) then
          gate_retry db id o ErrNoFailedTxRetry now (prepare_and_clone db id o now)
        else prepare_and_clone db id o now
      else Err ErrNoFailedTxRetry
    end).
