(* ===== verification/Attempts.v ===== *)
(** * Durable attempts (go/internal/db/tx_attempts.go, tx_receipts.go)

    The outbox row owns the task and the nonce; every physical signed
    transaction is a tx_attempts row. Signing claims, attempt inserts, broadcast
    claims and results, receipt resolution and finalization, replacements. *)

From S2P Require Import Prelude Schema SendScope Outbox.
From stdpp Require Import base gmap list strings numbers fin_maps pretty sorting.
From Stdlib Require Import ZArith Lia.
#[local] Open Scope Z_scope.

Definition TxMaxBroadcasts : Z := 5.
Definition TxMaxPreSignFailures : Z := 5.
Definition TxMaxReplacements : Z := 5.
Definition txBroadcastReplayBaseDelay : Z := 3 * Second.
Definition txBroadcastReplayMaxDelay : Z := Minute.
Definition txReplacementDeferDelay : Z := Minute.

Record TxAttempt := mkTxAttempt {
  x_ID : Z; x_OutboxID : Z; x_Kind : TxAttemptKind; x_Nonce : Z; x_TxType : Z;
  x_TxHash : Hash; x_RawTx : bytes; x_GasLimit : Z; x_MaxFeePerGas : option Z;
  x_MaxPriorityFeePerGas : option Z; x_State : TxAttemptState; x_SigningToken : uuid }.

Record SignedAttempt := mkSignedAttempt {
  s_Kind : TxAttemptKind; s_Nonce : Z; s_TxType : Z; s_TxHash : Hash; s_RawTx : bytes;
  s_GasLimit : Z; s_MaxFeePerGas : option Z; s_MaxPriorityFeePerGas : option Z;
  s_SigningToken : uuid }.

(** int64(x) of a uint64. *)
Definition int64_of_uint64 (x : Z) : Z := if decide (x < 2 ^ 63) then x else x - 2 ^ 64.

(** ** Lane barriers *)

(** status IN ('nonce_assigned', 'signed', 'held') *)
Definition pre_broadcast (o : OutboxRow) : Prop :=
  o_status o ∈ [TxStatusNonceAssigned; TxStatusSigned; TxStatusHeld].
#[export] Instance pre_broadcast_dec o : Decision (pre_broadcast o) := _.

Definition lane_has_lower (db : DB) (chainEID : Z) (signerID : string) (nonce : Z) : Prop :=
  exists_outbox db (fun o => lane chainEID signerID o /\
    match o_nonce o with Some n => n < nonce | None => False end /\ pre_broadcast o).
Definition lane_has_pending (db : DB) (chainEID : Z) (signerID : string) : Prop :=
  exists_outbox db (fun o => lane chainEID signerID o /\ pre_broadcast o).

#[export] Instance opt_lt_dec (o : option Z) nonce :
  Decision (match o with Some n => n < nonce | None => False end).
Proof. destruct o; apply _. Defined.
#[export] Instance lane_has_lower_dec db c s n : Decision (lane_has_lower db c s n) := _.
#[export] Instance lane_has_pending_dec db c s : Decision (lane_has_pending db c s) := _.

Definition signerLaneBlockedByLowerNonce (db : DB) (chainEID : Z) (signerID : string) (nonce : Z)
    : result dberr bool :=
  check nonce <= maxDBNonce or Errorf "nonce exceeds database limit" ;;
  Ok (bool_decide (lane_has_lower db chainEID signerID nonce)).

(** ** Signing claims *)

Definition lease_row (o : OutboxRow) (token : uuid) (ttl : Z) (now : timestamp) : OutboxRow :=
  o <| o_lease_token := Some token |> <| o_lease_until := Some (now + pgInterval ttl) |>
    <| o_updated_at := now |>.

(** The nonce step of the claim: the state and the row after it. *)
Definition claim_nonce (db : DB) (id : Z) (o : OutboxRow) (chainEID : Z) (signerID : string)
    (now : timestamp) : result dberr (DB * OutboxRow) :=
  match o_status o, o_nonce o with
  | TxStatusQueued, None =>
    _ ← lockTxSendScope db chainEID (o_purpose o) (default [] (o_guid o));
    check ~ lane_has_pending db chainEID signerID or ErrSignerLaneBlocked ;;
    '(db, next) ← claimCursorNonce db chainEID signerID now;
    let o := o <| o_nonce := Some next |> <| o_status := TxStatusNonceAssigned |>
               <| o_updated_at := now |> in
    Ok (set_outbox db id o, o)
  | TxStatusQueued, Some n =>
    check 0 <= n or Errorf "outbox tx has a negative nonce" ;;
    blocked ← signerLaneBlockedByLowerNonce db chainEID signerID n;
    check blocked = false or ErrSignerLaneBlocked ;;
    let o := o <| o_status := TxStatusNonceAssigned |> <| o_updated_at := now |> in
    Ok (set_outbox db id o, o)
  | TxStatusNonceAssigned, Some n =>
    check 0 <= n or Errorf "outbox tx nonce_assigned without a nonce" ;;
    blocked ← signerLaneBlockedByLowerNonce db chainEID signerID n;
    check blocked = false or ErrSignerLaneBlocked ;;
    Ok (db, o)
  | TxStatusNonceAssigned, None => Err (Errorf "outbox tx nonce_assigned without a nonce")
  | _, _ => Err (Errorf "outbox tx is not signable in its status")
  end.

Definition ClaimOutboxForSigning (id chainEID : Z) (signerID : string) (leaseToken : uuid)
    (leaseTTL : Z) (now : timestamp) (db : DB) : DB * result dberr OutboxTx :=
  run_tx db (
    check ~ (id <= 0 \/ chainEID = 0 \/ signerID = ""%string \/ leaseTTL <= 0)
      or Errorf "claim outbox for signing requires id, chain, signer, and positive ttl" ;;
    match tx_outbox db !! id with
    | None => Err ErrOutboxLeaseLost
    | Some o =>
      check lane chainEID signerID o /\ null_or_le (o_lease_until o) now /\
            o_cancel_requested_at o = None /\ o_receipt_outcome o = None
        or ErrOutboxLeaseLost ;;
      '(db, o) ← claim_nonce db id o chainEID signerID now;
      let db := set_outbox db id (lease_row o leaseToken leaseTTL now) in
      Ok (db, GetOutboxTx id db)
    end).

(** ** Persisting attempts *)

Definition find_attempt_by_hash (db : DB) (hash : Hash) : option (Z * AttemptRow) :=
  head (select_attempts db (fun x => a_tx_hash x.2 = HashBytes hash)).

Definition scanAttemptByHash (db : DB) (hash : Hash) : option TxAttempt :=
  '(id, a) ← find_attempt_by_hash db hash;
  Some (mkTxAttempt id (a_outbox_id a) (a_kind a) (a_nonce a) (a_tx_type a)
          (BytesToHash (a_tx_hash a)) (a_raw_tx a) (a_gas_limit a) None None (a_state a) 0).

(** The row an INSERT INTO tx_attempts writes. *)
Definition attempt_row (outboxID : Z) (a : SignedAttempt) (maxFee : Z) (now : timestamp)
    : AttemptRow :=
  mkAttempt outboxID (s_Kind a) (int64_of_uint64 (s_Nonce a)) (s_TxType a)
    (HashBytes (s_TxHash a)) (s_RawTx a) (int64_of_uint64 (s_GasLimit a)) maxFee
    (s_MaxPriorityFeePerGas a) TxAttemptSigned None None (s_SigningToken a) 0 None None None
    None now.

(** The table's CHECK and UNIQUE constraints; a CHECK that evaluates to NULL passes,
    so a type-2 row may leave its priority fee NULL. *)
Definition attempt_checks (a : AttemptRow) : Prop :=
  0 <= a_nonce a /\ (a_tx_type a = 0 \/ a_tx_type a = 2) /\
  length (a_tx_hash a) = HashLength /\ a_raw_tx a <> [] /\
  0 < a_gas_limit a /\ 0 < a_max_fee_per_gas a /\
  (a_tx_type a = 0 -> a_max_priority_fee_per_gas a = None) /\
  match a_max_priority_fee_per_gas a with Some p => 0 < p | None => True end /\
  0 <= a_broadcast_count a.
#[export] Instance attempt_checks_dec a : Decision (attempt_checks a).
Proof. unfold attempt_checks. destruct (a_max_priority_fee_per_gas a); apply _. Defined.

Definition attempt_conflict (a b : AttemptRow) : Prop :=
  a_tx_hash a = a_tx_hash b \/
  (a_outbox_id a = a_outbox_id b /\ a_signing_token a = a_signing_token b).
#[export] Instance attempt_conflict_dec a b : Decision (attempt_conflict a b) := _.

Definition insert_attempt (db : DB) (a : AttemptRow) : result dberr (DB * Z) :=
  check attempt_checks a or ErrConstraint "tx_attempts_check" ;;
  check map_Forall (fun _ b => ~ attempt_conflict a b) (tx_attempts db)
    or ErrConstraint "tx_attempts_unique" ;;
  let id := next_attempt_id db in
  Ok (db <| tx_attempts := <[id := a]> (tx_attempts db) |> <| next_attempt_id := id + 1 |>, id).

Definition signed_result (id outboxID : Z) (a : SignedAttempt) : TxAttempt :=
  mkTxAttempt id outboxID (s_Kind a) (s_Nonce a) (s_TxType a) (s_TxHash a) (s_RawTx a)
    (s_GasLimit a) (s_MaxFeePerGas a) (s_MaxPriorityFeePerGas a) TxAttemptSigned
    (s_SigningToken a).

(** The three inserts share their argument checks and the crash-recovery lookup: a
    committed insert whose result the client never saw is returned again. *)
Definition with_new_attempt (db : DB) (outboxID : Z) (a : SignedAttempt)
    (k : Z -> txbody TxAttempt) : txbody TxAttempt :=
  check s_RawTx a <> [] or Errorf "attempt requires a 32-byte hash and non-empty raw tx" ;;
  match s_MaxFeePerGas a with
  | None => Err (Errorf "attempt requires a positive max fee per gas")
  | Some maxFee =>
    check 0 < maxFee or Errorf "attempt requires a positive max fee per gas" ;;
    match scanAttemptByHash db (s_TxHash a) with
    | Some existing =>
      check ~ (x_OutboxID existing <> outboxID \/ x_Nonce existing <> s_Nonce a \/
               x_Kind existing <> s_Kind a)
        or Errorf "attempt hash already exists with different immutable fields" ;;
      Ok (db, Ok existing)
    | None => k maxFee
    end
  end.

(** SELECT .. FROM tx_outbox WHERE id = $1 AND lease_until > now(), then the token. *)
Definition leased_row (db : DB) (id : Z) (token : uuid) (now : timestamp)
    : result dberr OutboxRow :=
  match tx_outbox db !! id with
  | None => Err ErrOutboxLeaseLost
  | Some o =>
    check opt_gt (o_lease_until o) now or ErrOutboxLeaseLost ;;
    check o_lease_token o = Some token or ErrOutboxLeaseLost ;;
    Ok o
  end.

Definition nonce_matches (o : OutboxRow) (a : SignedAttempt) : Prop :=
  match o_nonce o with Some n => 0 <= n /\ n = s_Nonce a | None => False end.
#[export] Instance nonce_matches_dec o a : Decision (nonce_matches o a).
Proof. unfold nonce_matches. destruct (o_nonce o); apply _. Defined.

(** The columns every attempt insert writes on the outbox row. *)
Definition activate_row (o : OutboxRow) (attemptID : Z) (status : TxStatus) (now : timestamp)
    : OutboxRow :=
  o <| o_active_attempt_id := Some attemptID |> <| o_status := status |>
    <| o_lease_token := None |> <| o_lease_until := None |>
    <| o_pre_sign_failure_count := 0 |> <| o_next_sign_at := None |> <| o_updated_at := now |>.

Definition InsertSignedAttempt (outboxID : Z) (leaseToken : uuid) (a : SignedAttempt)
    (now : timestamp) (db : DB) : DB * result dberr TxAttempt :=
  run_tx db (
    check 0 < outboxID or Errorf "outbox id is required" ;;
    with_new_attempt db outboxID a (fun maxFee =>
      o ← leased_row db outboxID leaseToken now;
      check o_status o = TxStatusNonceAssigned or ErrOutboxLeaseLost ;;
      check nonce_matches o a or Errorf "attempt nonce does not match outbox tx nonce" ;;
      '(db, attemptID) ← insert_attempt db (attempt_row outboxID a maxFee now);
      let db := set_outbox db outboxID (activate_row o attemptID TxStatusSigned now) in
      commit db (signed_result attemptID outboxID a))).

(** ** Broadcasting *)

Fixpoint broadcastReplayDelay_loop (turns : nat) (delay : Z) : Z :=
  match turns with
  | O => delay
  | S turns =>
    let delay := delay * 2 in
    if decide (delay >= txBroadcastReplayMaxDelay) then txBroadcastReplayMaxDelay
    else broadcastReplayDelay_loop turns delay
  end.
Definition broadcastReplayDelay (count : Z) : Z :=
  broadcastReplayDelay_loop (Z.to_nat (count - 1)) txBroadcastReplayBaseDelay.

Definition mapSendClassToOutbox (class : SendErrorClass) : TxStatus * option HeldReason :=
  match class with
  | SendErrorAccepted | SendErrorAmbiguous => (TxStatusBroadcast, None)
  | SendErrorNonceTooHigh | SendErrorRetryableEnv => (TxStatusSigned, None)
  | SendErrorUnderpriced => (TxStatusHeld, Some HeldRepriceRequired)
  | SendErrorNonceTooLow => (TxStatusHeld, Some HeldNonceReconcileRequired)
  | SendErrorDefinitive => (TxStatusHeld, Some HeldManual)
  end.

Record BroadcastClaim := mkBroadcastClaim {
  b_AttemptID : Z; b_OutboxID : Z; b_Purpose : string; b_Nonce : Z; b_TxHash : Hash;
  b_RawTx : bytes; b_Kind : TxAttemptKind }.

(** A never-accepted lane whose active attempt spent its broadcast budget. *)
Definition exhausted (db : DB) (chainEID : Z) (signerID : string) (now : timestamp)
    (x : Z * OutboxRow) : Prop :=
  lane chainEID signerID x.2 /\ o_status x.2 = TxStatusSigned /\ o_held_reason x.2 = None /\
  match active_attempt db x.1 x.2 with
  | Some (_, a) => a_state a = TxAttemptAmbiguous /\ TxMaxBroadcasts <= a_broadcast_count a /\
                   null_or_le (a_broadcast_lease_until a) now
  | None => False
  end.
#[export] Instance exhausted_dec db c s now x : Decision (exhausted db c s now x).
Proof. unfold exhausted. destruct (active_attempt db x.1 x.2) as [[? ?]|]; apply _. Defined.

Definition park_row (o : OutboxRow) (now : timestamp) : OutboxRow :=
  o <| o_status := TxStatusHeld |> <| o_held_reason := Some HeldBroadcastExhausted |>
    <| o_updated_at := now |>.

(** The parking UPDATE .. FROM, and its row count. *)
Definition park_exhausted (db : DB) (chainEID : Z) (signerID : string) (now : timestamp)
    : DB * nat :=
  (db <| tx_outbox := map_imap (fun id o =>
           Some (if decide (exhausted db chainEID signerID now (id, o)) then park_row o now else o))
         (tx_outbox db) |>,
   length (select_outbox db (exhausted db chainEID signerID now))).

Definition broadcastable (db : DB) (chainEID : Z) (signerID : string) (now : timestamp)
    (x : Z * OutboxRow) : Prop :=
  lane chainEID signerID x.2 /\
  o_status x.2 ∈ [TxStatusSigned; TxStatusBroadcast] /\ o_held_reason x.2 = None /\
  o_receipt_outcome x.2 = None /\
  ~ match o_nonce x.2 with
    | Some n => lane_has_lower db (o_chain_eid x.2) (o_signer_id x.2) n
    | None => False
    end /\
  match active_attempt db x.1 x.2 with
  | Some (_, a) =>
    a_state a ∈ [TxAttemptSigned; TxAttemptAmbiguous] /\
    a_broadcast_count a < TxMaxBroadcasts /\
    null_or_le (a_next_broadcast_at a) now /\ null_or_le (a_broadcast_lease_until a) now /\
    (o_cancel_requested_at x.2 = None \/ a_kind a = TxAttemptCancel)
  | None => False
  end.
#[export] Instance broadcastable_dec db c s now x : Decision (broadcastable db c s now x).
Proof.
  unfold broadcastable.
  destruct (active_attempt db x.1 x.2) as [[? ?]|], (o_nonce x.2); apply _.
Defined.

Definition claim_attempt (a : AttemptRow) (token : uuid) (leaseTTL : Z) (now : timestamp)
    : AttemptRow :=
  let newCount := a_broadcast_count a + 1 in
  a <| a_state := if decide (a_state a = TxAttemptSigned) then TxAttemptAmbiguous else a_state a |>
    <| a_broadcast_count := newCount |> <| a_last_broadcast_at := Some now |>
    <| a_next_broadcast_at := Some (now + pgInterval (broadcastReplayDelay newCount)) |>
    <| a_broadcast_lease_token := Some token |>
    <| a_broadcast_lease_until := Some (now + pgInterval leaseTTL) |>
    <| a_updated_at := now |>.

Definition ClaimAttemptForBroadcast (chainEID : Z) (signerID : string) (broadcastToken : uuid)
    (leaseTTL : Z) (now : timestamp) (db : DB) : DB * result dberr BroadcastClaim :=
  run_tx db (
    check ~ (chainEID = 0 \/ signerID = ""%string \/ leaseTTL <= 0)
      or Errorf "claim for broadcast requires chain, signer, and positive ttl" ;;
    let '(db, parked) := park_exhausted db chainEID signerID now in
    match order_by (fun x => nulls_last (o_nonce x.2))
            (select_outbox db (broadcastable db chainEID signerID now)) with
    | None =>
      commit_err db (if decide (0 < parked)%nat then ErrBroadcastLaneHeld
                     else ErrNoBroadcastCandidate)
    | Some (outboxID, o) =>
      match active_attempt db outboxID o with
      | None => Err ErrNoRows
      | Some (attemptID, a) =>
        let db := set_attempt db attemptID (claim_attempt a broadcastToken leaseTTL now) in
        commit db (mkBroadcastClaim attemptID outboxID (o_purpose o) (a_nonce a)
                     (BytesToHash (a_tx_hash a)) (a_raw_tx a) (a_kind a))
      end
    end).

(** status NOT IN ('confirmed', 'failed') *)
Definition not_terminal (o : OutboxRow) : Prop :=
  o_status o <> TxStatusConfirmed /\ o_status o <> TxStatusFailed.
#[export] Instance not_terminal_dec o : Decision (not_terminal o) := _.

Definition MarkAttemptSendResult (attemptID : Z) (broadcastToken : uuid) (class : SendErrorClass)
    (sendErr : string) (now : timestamp) (db : DB) : DB * result dberr unit :=
  run_tx db (
    check 0 < attemptID or Errorf "mark attempt send result requires attempt id and class" ;;
    let sendErr := String.substring 0 500 sendErr in
    match tx_attempts db !! attemptID with
    | None => Err ErrOutboxLeaseLost
    | Some a =>
      check a_broadcast_lease_token a = Some broadcastToken /\
            opt_gt (a_broadcast_lease_until a) now or ErrOutboxLeaseLost ;;
      let newState := if decide (class = SendErrorAccepted /\ a_state a <> TxAttemptMined)
                      then TxAttemptSubmitted else a_state a in
      let db := set_attempt db attemptID
        (a <| a_state := newState |> <| a_send_error_class := Some class |>
           <| a_send_error := optionalString sendErr |>
           <| a_broadcast_lease_token := None |> <| a_broadcast_lease_until := None |>
           <| a_updated_at := now |>) in
      let '(status, heldReason) := mapSendClassToOutbox class in
      let '(db, _) := update_outbox db (a_outbox_id a)
        (fun o => o_active_attempt_id o = Some attemptID /\ not_terminal o)
        (fun o => o <| o_status := status |> <| o_held_reason := heldReason |>
                    <| o_updated_at := now |>) in
      commit db tt
    end).

(** ** Receipt polling *)

(** a.state IN ('submitted', 'ambiguous'): the raw bytes may have reached a node. *)
Definition sent (a : AttemptRow) : Prop := a_state a ∈ [TxAttemptSubmitted; TxAttemptAmbiguous].
#[export] Instance sent_dec a : Decision (sent a) := _.

Definition sent_attempts (db : DB) (outboxID : Z) : list (Z * AttemptRow) :=
  select_attempts db (fun x => a_outbox_id x.2 = outboxID /\ sent x.2).

Definition attemptPollHashes (db : DB) (outboxID : Z) : list Hash :=
  (fun x => BytesToHash (a_tx_hash x.2)) <$> sent_attempts db outboxID.

Definition pollable (db : DB) (chainEID : Z) (signerID : string) (x : Z * OutboxRow) : Prop :=
  lane chainEID signerID x.2 /\
  o_status x.2 ∈ [TxStatusSigned; TxStatusBroadcast; TxStatusHeld] /\
  active_attempt db x.1 x.2 <> None /\ sent_attempts db x.1 <> [].
#[export] Instance pollable_dec db c s x : Decision (pollable db c s x).
Proof.
  unfold pollable. destruct (active_attempt db x.1 x.2), (sent_attempts db x.1); apply _.
Defined.

(** ORDER BY o.last_receipt_poll_at ASC NULLS FIRST, o.id ASC *)
Definition poll_le (x y : Z * OutboxRow) : Prop :=
  lex_ltb (nulls_first (o_last_receipt_poll_at y.2) ++ [y.1])
          (nulls_first (o_last_receipt_poll_at x.2) ++ [x.1]) = false.
#[export] Instance poll_le_dec : RelDecision poll_le.
Proof. intros x y. unfold poll_le. apply _. Defined.

Record ReceiptPollTask := mkReceiptPollTask {
  r_Outbox : OutboxTx; r_Attempts : list (Z * AttemptRow) }.

Fixpoint mapM_result {A B} (f : A -> result dberr B) (l : list A) : result dberr (list B) :=
  match l with
  | [] => Ok []
  | x :: l => y ← f x; ys ← mapM_result f l; Ok (y :: ys)
  end.

Definition ListReceiptPollTasks (chainEID : Z) (signerID : string) (limit : Z) (db : DB)
    : result dberr (list ReceiptPollTask) :=
  check ~ (chainEID = 0 \/ signerID = ""%string) or Errorf "chain and signer are required" ;;
  check 0 < limit or Errorf "limit must be positive" ;;
  let rows := take (Z.to_nat limit)
    (merge_sort poll_le (select_outbox db (pollable db chainEID signerID))) in
  mapM_result (fun x =>
    outboxTx ← toOutboxTx x.1 x.2 (snd <$> active_attempt db x.1 x.2);
    Ok (mkReceiptPollTask outboxTx (sent_attempts db x.1))) rows.

Definition TouchReceiptPoll (id : Z) (now : timestamp) (db : DB) : DB * result dberr unit :=
  if decide (id <= 0) then (db, Err (Errorf "outbox tx id is required")) else
  let '(db, _) := update_outbox db id (fun _ => True)
    (fun o => o <| o_last_receipt_poll_at := Some now |>) in
  (db, Ok tt).

(** ** Receipt resolution *)

Record TxReceiptFacts := mkTxReceiptFacts {
  f_TxHash : Hash; f_Status : Z; f_BlockNumber : Z; f_GasUsed : Z;
  f_EffectiveGasPrice : option Z; f_GasCostDstWei : option Z }.

Definition validateTxReceiptFacts (facts : TxReceiptFacts) : result dberr (Z * Z) :=
  check f_TxHash facts <> 0 or Errorf "receipt tx hash is required" ;;
  check f_Status facts <= maxDBNonce or Errorf "receipt status exceeds database integer limit" ;;
  check f_BlockNumber facts <= maxDBNonce
    or Errorf "receipt block number exceeds database integer limit" ;;
  match f_EffectiveGasPrice facts, f_GasCostDstWei facts with
  | Some price, Some cost =>
    check 0 <= price or Errorf "receipt effective gas price must be non-negative" ;;
    check 0 <= cost or Errorf "receipt destination gas cost must be non-negative" ;;
    check f_GasUsed facts * price = cost
      or Errorf "receipt destination gas cost does not match gas_used * effective_gas_price" ;;
    Ok (price, cost)
  | None, _ => Err (Errorf "receipt effective gas price must be non-negative")
  | Some price, None =>
    check 0 <= price or Errorf "receipt effective gas price must be non-negative" ;;
    Err (Errorf "receipt destination gas cost must be non-negative")
  end.

(** The attempt a receipt is for, its hash checked against the facts. *)
Definition receipt_attempt (db : DB) (attemptID : Z) (facts : TxReceiptFacts)
    : result dberr AttemptRow :=
  match tx_attempts db !! attemptID with
  | None => Err (Errorf "tx attempt not found")
  | Some a =>
    check BytesToHash (a_tx_hash a) = f_TxHash facts
      or Errorf "receipt tx hash does not match attempt hash" ;;
    Ok a
  end.

(** attempt kind x receipt status x persistent cancel intent *)
Definition receipt_outcome (kind : TxAttemptKind) (cancelRequested success : bool)
    : ReceiptOutcome :=
  if decide (kind = TxAttemptCancel \/ (cancelRequested = true /\ success = false))
  then ReceiptOutcomeCanceled
  else if success then ReceiptOutcomeConfirmed else ReceiptOutcomeFailed.

Definition PrepareReceiptResolution (attemptID : Z) (facts : TxReceiptFacts) (now : timestamp)
    (db : DB) : DB * result dberr ReceiptOutcome :=
  run_tx db (
    check 0 < attemptID or Errorf "attempt id is required" ;;
    _ ← validateTxReceiptFacts facts;
    a ← receipt_attempt db attemptID facts;
    match tx_outbox db !! a_outbox_id a with
    | None => Err (Errorf "outbox tx not found")
    | Some o =>
      match o_receipt_outcome o with
      | Some existing =>
        check o_receipt_attempt_id o = Some attemptID or ErrReceiptResolutionPinned ;;
        Ok (db, Ok existing)
      | None =>
        check not_terminal o or Errorf "outbox tx is already terminal" ;;
        let outcome := receipt_outcome (a_kind a) (bool_decide (o_cancel_requested_at o <> None))
                         (bool_decide (f_Status facts = 1)) in
        commit (set_outbox db (a_outbox_id a)
          (o <| o_receipt_outcome := Some outcome |> <| o_receipt_attempt_id := Some attemptID |>
             <| o_updated_at := now |>)) outcome
      end
    end).

Definition kind_text (k : TxAttemptKind) : string :=
  match k with
  | TxAttemptOriginal => "original" | TxAttemptReplacement => "replacement"
  | TxAttemptCancel => "cancel"
  end.

(** The status, failure kind, retry time and error text a pinned outcome ends in. *)
Definition terminal_columns (outcome : ReceiptOutcome) (kind : TxAttemptKind) (o : OutboxRow)
    (facts : TxReceiptFacts) (goNow : timestamp)
    : TxStatus * option string * option timestamp * option string :=
  match outcome with
  | ReceiptOutcomeConfirmed => (TxStatusConfirmed, None, None, None)
  | ReceiptOutcomeCanceled =>
    (TxStatusFailed, Some TxFailureCanceled, None,
     Some ("canceled by operator (winning attempt kind " +:+ kind_text kind
             +:+ ", receipt status " +:+ pretty (f_Status facts) +:+ ")")%string)
  | ReceiptOutcomeFailed =>
    (TxStatusFailed, Some TxFailureReceiptFailed,
     if decide (o_attempts o < TxAutoRetryMaxAttempts /\
                o_purpose o <> TxPurposePricingSetPriceSnapshot)
     then Some (goNow + pgInterval (autoRetryDelay (o_attempts o))) else None,
     Some ("transaction receipt status " +:+ pretty (f_Status facts))%string)
  end.

Definition finalize_row (o : OutboxRow) (attemptID : Z) (facts : TxReceiptFacts) (price cost : Z)
    (cols : TxStatus * option string * option timestamp * option string) (now : timestamp)
    : OutboxRow :=
  let '(status, failureKind, retryAt, lastError) := cols in
  o <| o_active_attempt_id := Some attemptID |>
    <| o_receipt_tx_hash := Some (HashBytes (f_TxHash facts)) |>
    <| o_receipt_status := Some (f_Status facts) |>
    <| o_receipt_block_number := Some (f_BlockNumber facts) |>
    <| o_receipt_gas_used := Some (f_GasUsed facts) |>
    <| o_receipt_effective_gas_price := Some price |>
    <| o_receipt_gas_cost_dst_wei := Some cost |>
    <| o_receipt_observed_at := Some now |>
    <| o_status := status |> <| o_held_reason := None |>
    <| o_failure_kind := failureKind |> <| o_next_retry_at := retryAt |>
    <| o_last_error := lastError |>
    <| o_lease_token := None |> <| o_lease_until := None |>
    <| o_replace_requested_at := None |> <| o_cancel_requested_at := None |>
    <| o_cancel_defer_until := None |> <| o_next_sign_at := None |> <| o_updated_at := now |>.

(** receipt_status is an INTEGER column. *)
Definition FinalizeAttemptReceipt (attemptID : Z) (facts : TxReceiptFacts) (goNow now : timestamp)
    (db : DB) : DB * result dberr ReceiptOutcome :=
  run_tx db (
    check 0 < attemptID or Errorf "attempt id is required" ;;
    '(price, cost) ← validateTxReceiptFacts facts;
    a ← receipt_attempt db attemptID facts;
    let db := set_attempt db attemptID
      (a <| a_state := TxAttemptMined |> <| a_updated_at := now |>) in
    match tx_outbox db !! a_outbox_id a with
    | None => Err (Errorf "outbox tx not found")
    | Some o =>
      match o_receipt_outcome o with
      | None => Err ErrReceiptResolutionPinned
      | Some outcome =>
        check o_receipt_attempt_id o = Some attemptID or ErrReceiptResolutionPinned ;;
        check f_Status facts < 2 ^ 31 or ErrConstraint "receipt_status" ;;
        let cols := terminal_columns outcome (a_kind a) o facts goNow in
        commit (set_outbox db (a_outbox_id a)
                  (finalize_row o attemptID facts price cost cols now)) outcome
      end
    end).

Definition MarkTxReceiptCostPriced (id : Z) (gasCostSrcWei : option Z) (now : timestamp) (db : DB)
    : DB * result dberr unit :=
  run_tx db (
    check 0 < id or Errorf "outbox tx id is required" ;;
    match gasCostSrcWei with
    | None => Err (Errorf "receipt source gas cost must be non-negative")
    | Some cost =>
      check 0 <= cost or Errorf "receipt source gas cost must be non-negative" ;;
      let '(db, n) := update_outbox db id (fun o => o_receipt_gas_cost_dst_wei o <> None)
        (fun o => o <| o_receipt_gas_cost_src_wei := Some cost |>
                    <| o_receipt_cost_priced_at := Some now |> <| o_updated_at := now |>) in
      check n = 1 or Errorf "outbox tx has no receipt gas cost to price" ;;
      commit db tt
    end).

(** ** Pre-sign failures *)

Definition release_lease (o : OutboxRow) (count : Z) (now : timestamp) : OutboxRow :=
  o <| o_pre_sign_failure_count := count |> <| o_lease_token := None |>
    <| o_lease_until := None |> <| o_updated_at := now |>.

Definition RecordPreSignFailure (id : Z) (leaseToken : uuid) (now : timestamp) (db : DB)
    : DB * result dberr bool :=
  run_tx db (
    check 0 < id or Errorf "outbox tx id is required" ;;
    match tx_outbox db !! id with
    | None => Err ErrOutboxLeaseLost
    | Some o =>
      check o_lease_token o = Some leaseToken /\ opt_gt (o_lease_until o) now
        or ErrOutboxLeaseLost ;;
      let newCount := o_pre_sign_failure_count o + 1 in
      let delay := pgInterval (autoRetryDelay (o_pre_sign_failure_count o)) in
      match o_status o with
      | TxStatusNonceAssigned =>
        if decide (TxMaxPreSignFailures <= newCount) then
          commit (set_outbox db id
            ((release_lease o newCount now) <| o_status := TxStatusHeld |>
               <| o_held_reason := Some HeldManual |> <| o_next_sign_at := None |>)) true
        else
          commit (set_outbox db id
            ((release_lease o newCount now) <| o_next_sign_at := Some (now + delay) |>)) false
      | TxStatusBroadcast | TxStatusHeld | TxStatusSigned | TxStatusQueued =>
        if decide (TxMaxPreSignFailures <= newCount) then
          commit (set_outbox db id
            ((release_lease o newCount now) <| o_status := TxStatusHeld |>
               <| o_held_reason := Some HeldManual |> <| o_replace_requested_at := None |>)) true
        else
          commit (set_outbox db id
            ((release_lease o newCount now)
               <| o_replace_requested_at :=
                    (fun _ => now + delay) <$> o_replace_requested_at o |>
               <| o_cancel_defer_until :=
                    match o_cancel_requested_at o with
                    | Some _ => Some (now + delay)
                    | None => o_cancel_defer_until o
                    end |>)) false
      | TxStatusConfirmed | TxStatusFailed =>
        Err (Errorf "outbox tx cannot record a pre-sign failure in its status")
      end
    end).

(** ** Replacements *)

Definition RequestTxReplacement (id : Z) (now : timestamp) (db : DB) : DB * result dberr unit :=
  run_tx db (
    check 0 < id or Errorf "outbox tx id is required" ;;
    let '(db, n) := update_outbox db id
      (fun o => o_active_attempt_id o <> None /\ o_cancel_requested_at o = None /\
        (o_status o = TxStatusBroadcast \/
         (o_status o = TxStatusHeld /\
          (o_held_reason o = Some HeldRepriceRequired \/
           o_held_reason o = Some HeldBroadcastExhausted))))
      (fun o => o <| o_replace_requested_at := Some now |> <| o_pre_sign_failure_count := 0 |>
                  <| o_updated_at := now |>) in
    check n = 1 or Errorf "outbox tx is not replaceable" ;;
    commit db tt).

Definition DeferReplacement (id : Z) (now : timestamp) (db : DB) : DB * result dberr unit :=
  run_tx db (
    check 0 < id or Errorf "outbox tx id is required" ;;
    let '(db, _) := update_outbox db id not_terminal
      (fun o => o <| o_updated_at := now |>
                  <| o_replace_requested_at :=
                       (fun _ => now + pgInterval txReplacementDeferDelay)
                         <$> o_replace_requested_at o |>) in
    commit db tt).

Definition count_kind (db : DB) (outboxID : Z) (kind : TxAttemptKind) : Z :=
  Z.of_nat (length (select_attempts db (fun x => a_outbox_id x.2 = outboxID /\ a_kind x.2 = kind))).

(** Below the automatic cap for the kind of replacement the active attempt takes. *)
Definition below_replacement_cap (db : DB) (id : Z) (active : AttemptRow) : Prop :=
  count_kind db id (if decide (a_kind active = TxAttemptCancel) then TxAttemptCancel
                    else TxAttemptReplacement) < TxMaxReplacements.

Definition replacement_due (db : DB) (id : Z) (o : OutboxRow) (a : AttemptRow) (staleAfter : Z)
    (now : timestamp) : Prop :=
  (opt_le (o_replace_requested_at o) now /\
   (o_status o = TxStatusBroadcast \/
    (o_status o = TxStatusHeld /\ o_held_reason o = Some HeldRepriceRequired) \/
    (o_status o = TxStatusHeld /\ o_held_reason o = Some HeldBroadcastExhausted) \/
    (o_status o = TxStatusHeld /\ o_held_reason o = Some HeldManual /\
     a_kind a = TxAttemptCancel))) \/
  (o_status o = TxStatusBroadcast /\ o_updated_at o <= now - pgInterval staleAfter /\
   below_replacement_cap db id a) \/
  (o_status o = TxStatusHeld /\ o_held_reason o = Some HeldRepriceRequired /\
   o_updated_at o <= now - pgInterval txReplacementDeferDelay /\ below_replacement_cap db id a).

Definition replaceable (db : DB) (chainEID : Z) (signerID : string) (staleAfter : Z)
    (now : timestamp) (x : Z * OutboxRow) : Prop :=
  lane chainEID signerID x.2 /\ null_or_le (o_lease_until x.2) now /\
  o_receipt_outcome x.2 = None /\ o_pre_sign_failure_count x.2 < TxMaxPreSignFailures /\
  match active_attempt db x.1 x.2 with
  | Some (_, a) =>
    sent a /\ (o_cancel_requested_at x.2 = None \/ a_kind a = TxAttemptCancel) /\
    replacement_due db x.1 x.2 a staleAfter now
  | None => False
  end.
#[export] Instance below_replacement_cap_dec db id a : Decision (below_replacement_cap db id a).
Proof. unfold below_replacement_cap. apply _. Defined.
#[export] Instance replacement_due_dec db id o a st now :
  Decision (replacement_due db id o a st now) := _.
#[export] Instance replaceable_dec db c s st now x : Decision (replaceable db c s st now x).
Proof. unfold replaceable. destruct (active_attempt db x.1 x.2) as [[? ?]|]; apply _. Defined.

Record ReplacementCandidate := mkReplacementCandidate {
  rc_Outbox : OutboxTx; rc_ActiveAttemptID : Z; rc_ActiveKind : TxAttemptKind;
  rc_AttemptHashes : list Hash }.

Definition NextReplacementCandidate (chainEID : Z) (signerID : string) (staleAfter : Z)
    (now : timestamp) (db : DB) : result dberr ReplacementCandidate :=
  check ~ (chainEID = 0 \/ signerID = ""%string) or Errorf "chain and signer are required" ;;
  check 0 < staleAfter or Errorf "stale broadcast duration must be positive" ;;
  match order_by (fun x => [o_updated_at x.2; x.1])
          (select_outbox db (replaceable db chainEID signerID staleAfter now)) with
  | None => Err ErrNoStaleBroadcastReplacement
  | Some (id, o) =>
    match active_attempt db id o with
    | None => Err ErrNoStaleBroadcastReplacement
    | Some (aid, a) =>
      outboxTx ← toOutboxTx id o (Some a);
      Ok (mkReplacementCandidate outboxTx aid (a_kind a) (attemptPollHashes db id))
    end
  end.

Definition replacementClaimable (status : TxStatus) (heldReason : option HeldReason)
    (kind : TxAttemptKind) : bool :=
  match status, heldReason with
  | TxStatusBroadcast, _ => true
  | TxStatusHeld, Some HeldRepriceRequired => true
  | TxStatusHeld, Some HeldBroadcastExhausted => true
  | TxStatusHeld, Some HeldManual => bool_decide (kind = TxAttemptCancel)
  | _, _ => false
  end.

Definition ClaimOutboxForReplacementSigning (id expectedActiveAttemptID : Z) (leaseToken : uuid)
    (leaseTTL : Z) (now : timestamp) (db : DB) : DB * result dberr OutboxTx :=
  run_tx db (
    check ~ (id <= 0 \/ expectedActiveAttemptID <= 0 \/ leaseTTL <= 0)
      or Errorf "replacement signing claim requires ids and a positive ttl" ;;
    match tx_outbox db !! id with
    | None => Err ErrOutboxLeaseLost
    | Some o =>
      check null_or_le (o_lease_until o) now or ErrOutboxLeaseLost ;;
      check o_receipt_outcome o = None or ErrActiveAttemptChanged ;;
      check o_active_attempt_id o = Some expectedActiveAttemptID or ErrActiveAttemptChanged ;;
      match tx_attempts db !! expectedActiveAttemptID with
      | None => Err ErrNoRows
      | Some a =>
        check replacementClaimable (o_status o) (o_held_reason o) (a_kind a) = true
          or Errorf "outbox tx is not replaceable in its status" ;;
        let db := set_outbox db id (lease_row o leaseToken leaseTTL now) in
        Ok (db, GetOutboxTx id db)
      end
    end).

Definition InsertReplacementAttempt (outboxID expectedActiveAttemptID : Z) (leaseToken : uuid)
    (a : SignedAttempt) (now : timestamp) (db : DB) : DB * result dberr TxAttempt :=
  run_tx db (
    check ~ (outboxID <= 0 \/ expectedActiveAttemptID <= 0)
      or Errorf "outbox and expected active attempt ids are required" ;;
    check s_Kind a = TxAttemptReplacement \/ s_Kind a = TxAttemptCancel
      or Errorf "replacement attempt kind must be replacement or cancel" ;;
    with_new_attempt db outboxID a (fun maxFee =>
      o ← leased_row db outboxID leaseToken now;
      check o_receipt_outcome o = None or ErrActiveAttemptChanged ;;
      check o_active_attempt_id o = Some expectedActiveAttemptID or ErrActiveAttemptChanged ;;
      check replacementClaimable (o_status o) (o_held_reason o) (s_Kind a) = true
        or ErrActiveAttemptChanged ;;
      check ~ (o_cancel_requested_at o <> None /\ s_Kind a <> TxAttemptCancel)
        or ErrActiveAttemptChanged ;;
      check nonce_matches o a or Errorf "attempt nonce does not match outbox tx nonce" ;;
      '(db, attemptID) ← insert_attempt db (attempt_row outboxID a maxFee now);
      let status := if decide (o_status o = TxStatusHeld) then TxStatusSigned else o_status o in
      let db := set_outbox db outboxID
        ((activate_row o attemptID status now) <| o_held_reason := None |>
           <| o_replace_requested_at := None |>) in
      commit db (signed_result attemptID outboxID a))).
