(* ===== verification/CancelReconcile.v ===== *)
(** * Operator cancel and nonce reconciliation (go/internal/db/tx_cancel_reconcile.go)

    Cancel requests and cancel attempts, the reconciliation lease of a signer
    lane, the atomic publication of a reconciliation pass, and the two operator
    resolutions of an externally consumed nonce. *)

From S2P Require Import Prelude Schema SendScope Outbox Attempts.
From stdpp Require Import base gmap list strings numbers fin_maps pretty sorting.
From Stdlib Require Import ZArith Lia.
#[local] Open Scope Z_scope.

Definition txCancelableStatuses : list TxStatus :=
  [TxStatusQueued; TxStatusNonceAssigned; TxStatusSigned; TxStatusBroadcast; TxStatusHeld].

(** status = ANY(cancelable) AND (held_reason IS NULL OR held_reason <> external) *)
Definition cancelable (o : OutboxRow) : Prop :=
  o_status o ∈ txCancelableStatuses /\ o_held_reason o <> Some HeldNonceConsumedExternally.
#[export] Instance cancelable_dec o : Decision (cancelable o) := _.

Definition active_is_cancel (db : DB) (id : Z) (o : OutboxRow) : bool :=
  match active_attempt db id o with
  | Some (_, a) => bool_decide (a_kind a = TxAttemptCancel)
  | None => false
  end.

Definition RequestTxCancel (id : Z) (now : timestamp) (db : DB) : DB * result dberr unit :=
  run_tx db (
    check 0 < id or Errorf "outbox tx id is required" ;;
    let '(db', n) := update_outbox db id
      (fun o => o_nonce o <> None /\ cancelable o /\ o_receipt_outcome o = None)
      (fun o => o <| o_cancel_requested_at := Some now |> <| o_cancel_defer_until := None |>
                  <| o_pre_sign_failure_count := 0 |> <| o_next_sign_at := None |>
                  <| o_replace_requested_at := if active_is_cancel db id o then Some now else None |>
                  <| o_lease_token := None |> <| o_lease_until := None |>
                  <| o_updated_at := now |>) in
    check n = 1 or Errorf "outbox tx is not cancelable" ;;
    commit db' tt).

Record CancelCandidate := mkCancelCandidate {
  cc_Outbox : OutboxTx; cc_ActiveAttemptID : Z; cc_AttemptHashes : list Hash }.

Definition cancel_due (db : DB) (chainEID : Z) (signerID : string) (now : timestamp)
    (x : Z * OutboxRow) : Prop :=
  lane chainEID signerID x.2 /\ opt_le (o_cancel_requested_at x.2) now /\
  null_or_le (o_cancel_defer_until x.2) now /\ o_nonce x.2 <> None /\ cancelable x.2 /\
  null_or_le (o_lease_until x.2) now /\ active_is_cancel db x.1 x.2 = false /\
  o_pre_sign_failure_count x.2 < TxMaxPreSignFailures /\
  null_or_le (o_next_sign_at x.2) now /\ o_receipt_outcome x.2 = None.
#[export] Instance cancel_due_dec db c s now x : Decision (cancel_due db c s now x) := _.

Definition NextCancelCandidate (chainEID : Z) (signerID : string) (now : timestamp) (db : DB)
    : result dberr CancelCandidate :=
  check ~ (chainEID = 0 \/ signerID = ""%string) or Errorf "chain and signer are required" ;;
  match order_by (fun x => [default 0 (o_cancel_requested_at x.2); x.1])
          (select_outbox db (cancel_due db chainEID signerID now)) with
  | None => Err ErrNoCancelWork
  | Some (id, o) =>
    let active := active_attempt db id o in
    outboxTx ← toOutboxTx id o (snd <$> active);
    Ok (mkCancelCandidate outboxTx (default 0 (fst <$> active)) (attemptPollHashes db id))
  end.

Definition DeferCancel (id : Z) (now : timestamp) (db : DB) : DB * result dberr unit :=
  run_tx db (
    check 0 < id or Errorf "outbox tx id is required" ;;
    let '(db, _) := update_outbox db id
      (fun o => o_cancel_requested_at o <> None /\ not_terminal o)
      (fun o => o <| o_cancel_defer_until := Some (now + pgInterval txReplacementDeferDelay) |>
                  <| o_updated_at := now |>) in
    commit db tt).

Definition ClaimOutboxForCancelSigning (id expectedActiveAttemptID : Z) (leaseToken : uuid)
    (leaseTTL : Z) (now : timestamp) (db : DB) : DB * result dberr OutboxTx :=
  run_tx db (
    check ~ (id <= 0 \/ leaseTTL <= 0)
      or Errorf "cancel signing claim requires an id and a positive ttl" ;;
    match tx_outbox db !! id with
    | None => Err ErrOutboxLeaseLost
    | Some o =>
      check o_nonce o <> None /\ null_or_le (o_lease_until o) now or ErrOutboxLeaseLost ;;
      check ~ (o_cancel_requested_at o = None \/ o_receipt_outcome o <> None)
        or ErrOutboxLeaseLost ;;
      check default 0 (o_active_attempt_id o) = expectedActiveAttemptID
        or ErrActiveAttemptChanged ;;
      check cancelable o or Errorf "outbox tx is not cancelable in its status" ;;
      let db := set_outbox db id (lease_row o leaseToken leaseTTL now) in
      Ok (db, GetOutboxTx id db)
    end).

Definition InsertCancelAttempt (outboxID expectedActiveAttemptID : Z) (leaseToken : uuid)
    (a : SignedAttempt) (now : timestamp) (db : DB) : DB * result dberr TxAttempt :=
  run_tx db (
    check 0 < outboxID or Errorf "outbox id is required" ;;
    check s_Kind a = TxAttemptCancel or Errorf "cancel attempt kind must be cancel" ;;
    with_new_attempt db outboxID a (fun maxFee =>
      o ← leased_row db outboxID leaseToken now;
      check ~ (o_cancel_requested_at o = None \/ o_receipt_outcome o <> None)
        or ErrOutboxLeaseLost ;;
      check default 0 (o_active_attempt_id o) = expectedActiveAttemptID
        or ErrActiveAttemptChanged ;;
      check cancelable o or ErrActiveAttemptChanged ;;
      check nonce_matches o a or Errorf "attempt nonce does not match outbox tx nonce" ;;
      '(db, attemptID) ← insert_attempt db (attempt_row outboxID a maxFee now);
      let status :=
        if decide (o_status o ∈ [TxStatusQueued; TxStatusNonceAssigned; TxStatusHeld])
        then TxStatusSigned else o_status o in
      let db := set_outbox db outboxID
        ((activate_row o attemptID status now) <| o_held_reason := None |>) in
      commit db (signed_result attemptID outboxID a))).

(** ** The reconciliation lease of a signer lane *)

Record NonceReconcileHold := mkHold {
  h_ID : Z; h_Nonce : Z; h_CancelRequested : bool; h_ActiveKind : option TxAttemptKind }.

Definition reconcile_held (chainEID : Z) (signerID : string) (x : Z * OutboxRow) : Prop :=
  lane chainEID signerID x.2 /\ o_status x.2 = TxStatusHeld /\
  o_held_reason x.2 = Some HeldNonceReconcileRequired /\ o_receipt_outcome x.2 = None.
#[export] Instance reconcile_held_dec c s x : Decision (reconcile_held c s x) := _.

(** ORDER BY o.nonce ASC, o.id ASC *)
Definition nonce_le (x y : Z * OutboxRow) : Prop :=
  lex_ltb (nulls_last (o_nonce y.2) ++ [y.1]) (nulls_last (o_nonce x.2) ++ [x.1]) = false.
#[export] Instance nonce_le_dec : RelDecision nonce_le.
Proof. intros x y. unfold nonce_le. apply _. Defined.

(** Scanning a row: a NULL or negative nonce is an error. *)
Definition scan_hold (db : DB) (x : Z * OutboxRow) : result dberr NonceReconcileHold :=
  match o_nonce x.2 with
  | None => Err (Errorf "cannot scan NULL into nonce")
  | Some n =>
    check 0 <= n or Errorf "outbox tx has a negative held nonce" ;;
    Ok (mkHold x.1 n (bool_decide (o_cancel_requested_at x.2 <> None))
          ((fun ia => a_kind ia.2) <$> active_attempt db x.1 x.2))
  end.

Definition select_holds (db : DB) (chainEID : Z) (signerID : string)
    : result dberr (list NonceReconcileHold) :=
  mapM_result (scan_hold db)
    (merge_sort nonce_le (select_outbox db (reconcile_held chainEID signerID))).

(** The holds are read by a statement of their own before the lease UPDATE: [snapshot]
    is the state that query saw. *)
Definition ClaimNonceReconciliation (chainEID : Z) (signerID : string) (token : uuid)
    (leaseTTL : Z) (snapshot : DB) (now : timestamp) (db : DB)
    : DB * result dberr (list NonceReconcileHold) :=
  run_tx db (
    check ~ (chainEID = 0 \/ signerID = ""%string \/ leaseTTL <= 0)
      or Errorf "nonce reconciliation claim requires chain, signer, and positive ttl" ;;
    holds ← select_holds snapshot chainEID signerID;
    check holds <> [] or ErrNoNonceReconcileWork ;;
    match tx_nonce_cursors db !! (chainEID, signerID) with
    | None => Err ErrNoNonceReconcileWork
    | Some n =>
      check null_or_le (n_reconcile_lease_until n) now /\ null_or_le (n_next_reconcile_at n) now
        or ErrNoNonceReconcileWork ;;
      commit (set_cursor db (chainEID, signerID)
        (n <| n_reconcile_lease_token := Some token |>
           <| n_reconcile_lease_until := Some (now + pgInterval leaseTTL) |>
           <| n_updated_at := now |>)) holds
    end).

Definition holds_reconcile_lease (n : NonceCursorRow) (token : uuid) (now : timestamp) : Prop :=
  n_reconcile_lease_token n = Some token /\ opt_gt (n_reconcile_lease_until n) now.
#[export] Instance holds_reconcile_lease_dec n t now : Decision (holds_reconcile_lease n t now) := _.

Definition ExtendNonceReconciliation (chainEID : Z) (signerID : string) (token : uuid)
    (leaseTTL : Z) (now : timestamp) (db : DB) : DB * result dberr unit :=
  run_tx db (
    check ~ (chainEID = 0 \/ signerID = ""%string \/ leaseTTL <= 0)
      or Errorf "nonce reconciliation extension requires chain, signer, and a positive ttl" ;;
    match tx_nonce_cursors db !! (chainEID, signerID) with
    | None => Err ErrOutboxLeaseLost
    | Some n =>
      check holds_reconcile_lease n token now or ErrOutboxLeaseLost ;;
      commit (set_cursor db (chainEID, signerID)
        (n <| n_reconcile_lease_until := Some (now + pgInterval leaseTTL) |>
           <| n_updated_at := now |>)) tt
    end).

Definition release_reconcile (n : NonceCursorRow) (backoff : Z) (now : timestamp)
    : NonceCursorRow :=
  n <| n_reconcile_lease_token := None |> <| n_reconcile_lease_until := None |>
    <| n_next_reconcile_at := Some (now + pgInterval backoff) |> <| n_updated_at := now |>.

Definition FinishNonceReconciliation (chainEID : Z) (signerID : string) (token : uuid)
    (backoff : Z) (now : timestamp) (db : DB) : DB * result dberr unit :=
  match tx_nonce_cursors db !! (chainEID, signerID) with
  | Some n =>
    if decide (n_reconcile_lease_token n = Some token)
    then (set_cursor db (chainEID, signerID) (release_reconcile n backoff now), Ok tt)
    else (db, Ok tt)
  | None => (db, Ok tt)
  end.

(** SELECT outbox_id, tx_hash .. WHERE outbox_id = ANY(ids), grouped by outbox id. *)
Definition LoadNonceReconcileAttemptHashes (db : DB) (holdIDs : list Z) : gmap Z (list Hash) :=
  filter (fun kv => kv.2 <> []) (list_to_map ((fun id => (id, attemptPollHashes db id)) <$> holdIDs)).

(** ** Publishing a reconciliation pass *)

Inductive NonceReconcileAction := NonceReconcileRelease | NonceReconcileMarkExternal.

Record NonceReconcileDecision := mkDecision { d_ID : Z; d_Action : NonceReconcileAction }.

Record NonceReconcileResult := mkReconcileResult {
  rr_Changed : Z; rr_PreviousCursor : Z; rr_CursorForwarded : bool }.

(** The active attempt can no longer be replayed. *)
Definition replay_exhausted (a : AttemptRow) : Prop :=
  a_state a ∈ [TxAttemptSigned; TxAttemptAmbiguous] /\ TxMaxBroadcasts <= a_broadcast_count a.
#[export] Instance replay_exhausted_dec a : Decision (replay_exhausted a) := _.

Definition release_hold (o : OutboxRow) (a : AttemptRow) (now : timestamp) : OutboxRow :=
  o <| o_status := if decide (replay_exhausted a) then o_status o else TxStatusBroadcast |>
    <| o_held_reason := if decide (replay_exhausted a) then Some HeldBroadcastExhausted else None |>
    <| o_updated_at := now |>.

Definition held_for_reconcile (o : OutboxRow) : Prop :=
  o_status o = TxStatusHeld /\ o_held_reason o = Some HeldNonceReconcileRequired /\
  o_receipt_outcome o = None.
#[export] Instance held_for_reconcile_dec o : Decision (held_for_reconcile o) := _.

(** "nonce consumed externally: confirmed nonce .. at block .. observed .."; [observed]
    is the RFC 3339 rendering of the Go clock. *)
Definition external_evidence (confirmedNonce confirmedBlock : Z) (observed : string) : string :=
  ("nonce consumed externally: confirmed nonce " +:+ pretty confirmedNonce +:+ " at block "
     +:+ pretty confirmedBlock +:+ " observed " +:+ observed)%string.

Definition apply_decision (db : DB) (d : NonceReconcileDecision) (evidence : string)
    (now : timestamp) : DB * Z :=
  match d_Action d with
  | NonceReconcileRelease =>
    match (o ← tx_outbox db !! d_ID d; aid ← o_active_attempt_id o; tx_attempts db !! aid) with
    | Some a => update_outbox db (d_ID d) held_for_reconcile (fun o => release_hold o a now)
    | None => (db, 0)
    end
  | NonceReconcileMarkExternal =>
    update_outbox db (d_ID d) held_for_reconcile
      (fun o => o <| o_held_reason := Some HeldNonceConsumedExternally |>
                  <| o_last_error := Some evidence |> <| o_updated_at := now |>)
  end.

Fixpoint apply_decisions (db : DB) (ds : list NonceReconcileDecision) (evidence : string)
    (now : timestamp) (changed : Z) : DB * Z :=
  match ds with
  | [] => (db, changed)
  | d :: ds =>
    let '(db, n) := apply_decision db d evidence now in
    apply_decisions db ds evidence now (changed + n)
  end.

Definition ApplyNonceReconciliation (chainEID : Z) (signerID : string) (token : uuid)
    (confirmedNonce confirmedBlock backoff : Z) (decisions : list NonceReconcileDecision)
    (observed : string) (now : timestamp) (db : DB) : DB * result dberr NonceReconcileResult :=
  run_tx db (
    check ~ (chainEID = 0 \/ signerID = ""%string \/ backoff <= 0)
      or Errorf "apply nonce reconciliation requires chain, signer, and positive backoff" ;;
    check confirmedNonce <= maxDBNonce or Errorf "confirmed nonce exceeds database limit" ;;
    match tx_nonce_cursors db !! (chainEID, signerID) with
    | None => Err ErrOutboxLeaseLost
    | Some n =>
      check holds_reconcile_lease n token now or ErrOutboxLeaseLost ;;
      check 0 <= n_next_nonce n or Errorf "negative nonce cursor" ;;
      let previous := n_next_nonce n in
      let forwarded := bool_decide (previous < confirmedNonce) in
      let next := if forwarded then confirmedNonce else previous in
      let db := set_cursor db (chainEID, signerID)
                  ((release_reconcile n backoff now) <| n_next_nonce := next |>) in
      let '(db, changed) := apply_decisions db decisions
            (external_evidence confirmedNonce confirmedBlock observed) now 0 in
      commit db (mkReconcileResult changed previous forwarded)
    end).

(** ** Operator resolutions of an externally consumed nonce *)

Definition terminalizeExternallyConsumed (db : DB) (id : Z) (now : timestamp)
    : result dberr DB :=
  let '(db, n) := update_outbox db id
    (fun o => o_status o = TxStatusHeld /\
              o_held_reason o = Some HeldNonceConsumedExternally /\ o_receipt_outcome o = None)
    (fun o => o <| o_status := TxStatusFailed |> <| o_held_reason := None |>
                <| o_failure_kind := Some TxFailureNonceConsumedExternally |>
                <| o_next_retry_at := None |> <| o_cancel_requested_at := None |>
                <| o_cancel_defer_until := None |> <| o_lease_token := None |>
                <| o_lease_until := None |> <| o_updated_at := now |>) in
  check n = 1 or Errorf "outbox tx is not held as externally consumed" ;;
  Ok db.

Definition update_dvn_status (db : DB) (guid : bytes) (to from : string)
    (lastError : option string) (now : timestamp) : DB * Z :=
  match dvn_jobs db !! guid with
  | Some j =>
    if decide (d_status j = from)
    then (set_dvn_job db guid (j <| d_status := to |> <| d_last_error := lastError |>
                                 <| d_updated_at := now |>), 1)
    else (db, 0)
  | None => (db, 0)
  end.

Definition requireWorkflowEnqueuedInTx (db : DB) (purpose : string) (guid : bytes)
    : result dberr unit :=
  let require (status : option string) (expected : string) : result dberr unit :=
    match status with
    | None => Err (Errorf "workflow job not found")
    | Some s => check s = expected or Errorf "workflow job advanced" ;; Ok tt
    end in
  if decide (purpose = txPurposeExecutorCommitVerification)
  then require (e_status <$> executor_jobs db !! guid) ExecutorCommitTxEnqueued
  else if decide (purpose = txPurposeExecutorLzReceive)
  then require (e_status <$> executor_jobs db !! guid) ExecutorLzReceiveTxEnqueued
  else if decide (purpose = txPurposeDVNVerify)
  then require (d_status <$> dvn_jobs db !! guid) DVNVerifyTxEnqueued
  else Ok tt.

Definition parkExecutorManualReviewInTx (db : DB) (guid : bytes) (expectedStatus reason : string)
    (now : timestamp) : result dberr DB :=
  let '(db, n) := update_executor_status db guid ExecutorManualReview expectedStatus
                    (Some reason) now in
  if decide (n = 1) then
    let '(db, m) := update_packet_status db guid ExecutorManualReview expectedStatus now in
    check m = 1 or Errorf "packet is not in the status its executor job was" ;;
    Ok db
  else Ok db.

Definition parkWorkflowManualReviewInTx (db : DB) (purpose : string) (guid : bytes)
    (reason : string) (now : timestamp) : result dberr DB :=
  if decide (purpose = txPurposeExecutorCommitVerification)
  then parkExecutorManualReviewInTx db guid ExecutorCommitTxEnqueued reason now
  else if decide (purpose = txPurposeExecutorLzReceive)
  then parkExecutorManualReviewInTx db guid ExecutorLzReceiveTxEnqueued reason now
  else if decide (purpose = txPurposeDVNVerify)
  then Ok (update_dvn_status db guid DVNManualReview DVNVerifyTxEnqueued (Some reason) now).1
  else Ok db.

Definition hash_guid (guid : option bytes) : option bytes :=
  g ← guid; if decide (length g = HashLength) then Some g else None.

Definition ResolveExternalNonceRetry (id : Z) (now : timestamp) (db : DB) : DB * result dberr Z :=
  run_tx db (
    check 0 < id or Errorf "outbox tx id is required" ;;
    match tx_outbox db !! id with
    | None => Err (Errorf "outbox tx not found")
    | Some o =>
      check o_purpose o <> TxPurposePricingSetPriceSnapshot
        or Errorf "outbox tx carries a pricing observation" ;;
      _ ← lockTxSendScope db (o_chain_eid o) (o_purpose o) (default [] (o_guid o));
      _ ← match hash_guid (o_guid o) with
          | Some g => requireWorkflowEnqueuedInTx db (o_purpose o) g
          | None => Ok tt
          end;
      db ← terminalizeExternallyConsumed db id now;
      let '(db, cloneID) := insert_outbox db (retry_row id o now) in
      commit db cloneID
    end).

Definition abandon_reason : string :=
  "transaction nonce consumed externally; task abandoned by operator".

Definition ResolveExternalNonceAbandon (id : Z) (now : timestamp) (db : DB)
    : DB * result dberr unit :=
  run_tx db (
    check 0 < id or Errorf "outbox tx id is required" ;;
    match tx_outbox db !! id with
    | None => Err (Errorf "outbox tx not found")
    | Some o =>
      db ← terminalizeExternallyConsumed db id now;
      db ← match hash_guid (o_guid o) with
           | Some g => parkWorkflowManualReviewInTx db (o_purpose o) g abandon_reason now
           | None => Ok db
           end;
      commit db tt
    end).
