(* ===== verification/Jobs.v ===== *)
(** * Packets and worker jobs (go/internal/db/packets.go, executor_jobs.go, dvn_jobs.go,
      pricing_pending.go, indexer_cursors.go, source_packet_skips.go)

    The durable workflow state of a packet: the packet row, the executor job with
    its counted receive failures, the DVN job, and the pricing feed gate. *)

From S2P Require Import Prelude Schema SendScope Outbox Attempts.
From stdpp Require Import base gmap list strings numbers fin_maps sorting.
From Stdlib Require Import ZArith Lia.
#[local] Open Scope Z_scope.

Definition MaxInt64 : Z := 2 ^ 63 - 1.

(** ** Packets *)

Record PacketRecord := mkPacketRecord {
  k_GUID : Hash; k_SrcEID : Z; k_DstEID : Z; k_Nonce : option Z; k_Sender : Address;
  k_Receiver : Address; k_SendLib : Address; k_SrcTxHash : Hash; k_SrcBlockNumber : Z;
  k_SrcLogIndex : Z; k_EncodedPacket : bytes; k_PacketHeader : bytes; k_Message : bytes;
  k_PayloadHash : Hash; k_Options : bytes; k_Status : string }.

(** The Go loop over the three addresses visits a map in any order; the three errors
    are one here. *)
Definition Validate (p : PacketRecord) : result dberr Z :=
  check k_GUID p <> 0 or Errorf "packet guid is required" ;;
  check ~ (k_SrcEID p = 0 \/ k_DstEID p = 0)
    or Errorf "packet source and destination eids are required" ;;
  check k_SrcEID p <> k_DstEID p or Errorf "packet source and destination eids must differ" ;;
  match k_Nonce p with
  | None => Err (Errorf "packet nonce must be non-negative")
  | Some nonce =>
    check 0 <= nonce or Errorf "packet nonce must be non-negative" ;;
    check ~ (k_Sender p = 0 \/ k_Receiver p = 0 \/ k_SendLib p = 0)
      or Errorf "packet address is required" ;;
    check k_SrcTxHash p <> 0 or Errorf "packet source tx hash is required" ;;
    check k_PayloadHash p <> 0 or Errorf "packet payload hash is required" ;;
    check k_EncodedPacket p <> [] or Errorf "packet encoded bytes are required" ;;
    check k_PacketHeader p <> [] or Errorf "packet header is required" ;;
    check k_Status p <> ""%string or Errorf "packet status is required" ;;
    Ok nonce
  end.

Definition packet_row (p : PacketRecord) (nonce : Z) (status : string) (now : timestamp)
    : PacketRow :=
  mkPacketRow (k_SrcEID p) (k_DstEID p) nonce (addressBytes (k_Sender p))
    (addressBytes (k_Receiver p)) (addressBytes (k_SendLib p)) (HashBytes (k_SrcTxHash p))
    (k_SrcBlockNumber p) (k_SrcLogIndex p) (k_EncodedPacket p) (k_PacketHeader p) (k_Message p)
    (HashBytes (k_PayloadHash p)) (k_Options p) status now.

(** UNIQUE(src_eid, dst_eid, sender, receiver, nonce) *)
Definition same_identity (p q : PacketRow) : Prop :=
  p_src_eid p = p_src_eid q /\ p_dst_eid p = p_dst_eid q /\ p_sender p = p_sender q /\
  p_receiver p = p_receiver q /\ p_nonce p = p_nonce q.
#[export] Instance same_identity_dec p q : Decision (same_identity p q) := _.

(** INSERT .. ON CONFLICT (guid) DO UPDATE leaves the status of a known packet alone. *)
Definition UpsertPacket (packet : PacketRecord) (now : timestamp) (db : DB)
    : DB * result dberr unit :=
  run_tx db (
    nonce ← Validate packet;
    let guid := HashBytes (k_GUID packet) in
    let status := default (k_Status packet) (p_status <$> packets db !! guid) in
    let row := packet_row packet nonce status now in
    check is_Some (chains db !! p_src_eid row) /\ is_Some (chains db !! p_dst_eid row)
      or ErrConstraint "packets_eid_fkey" ;;
    check p_src_block_number row <= MaxInt64 /\ p_src_log_index row < 2 ^ 31
      or ErrConstraint "packets_range" ;;
    check map_Forall (fun g q => g = guid \/ ~ same_identity row q) (packets db)
      or ErrConstraint "packets_identity_key" ;;
    commit (db <| packets := <[guid := row]> (packets db) |>) tt).

Definition toPacketRecord (guid : bytes) (p : PacketRow) : result dberr PacketRecord :=
  check length guid = HashLength or Errorf "packet guid length" ;;
  check length (p_sender p) = AddressLength or Errorf "packet sender length" ;;
  check length (p_receiver p) = AddressLength or Errorf "packet receiver length" ;;
  check length (p_send_lib p) = AddressLength or Errorf "packet send_lib length" ;;
  check length (p_src_tx_hash p) = HashLength or Errorf "packet src_tx_hash length" ;;
  check length (p_payload_hash p) = HashLength or Errorf "packet payload_hash length" ;;
  Ok (mkPacketRecord (BytesToHash guid) (p_src_eid p) (p_dst_eid p) (Some (p_nonce p))
        (BytesToAddress (p_sender p)) (BytesToAddress (p_receiver p))
        (BytesToAddress (p_send_lib p)) (BytesToHash (p_src_tx_hash p)) (p_src_block_number p)
        (p_src_log_index p) (p_encoded_packet p) (p_packet_header p) (p_message p)
        (BytesToHash (p_payload_hash p)) (p_options p) (p_status p)).

Definition GetPacket (guid : Hash) (db : DB) : result dberr PacketRecord :=
  check guid <> 0 or Errorf "packet guid is required" ;;
  match packets db !! HashBytes guid with
  | None => Err ErrNoRows
  | Some p => toPacketRecord (HashBytes guid) p
  end.

Definition scanPacket (db : DB) (P : PacketRow -> Prop) `{forall p, Decision (P p)}
    : result dberr PacketRecord :=
  match map_to_list (filter (fun kv => P kv.2) (packets db)) with
  | [] => Err ErrNoRows
  | (g, p) :: _ => toPacketRecord g p
  end.

Definition GetPacketByDestination (dstEID srcEID : Z) (sender receiver : Address) (nonce : Z)
    (db : DB) : result dberr PacketRecord :=
  check ~ (dstEID = 0 \/ srcEID = 0)
    or Errorf "packet source and destination eids are required" ;;
  check ~ (sender = 0 \/ receiver = 0) or Errorf "packet sender and receiver are required" ;;
  check nonce <> 0 or Errorf "packet nonce is required" ;;
  scanPacket db (fun p => p_dst_eid p = dstEID /\ p_src_eid p = srcEID /\
    p_sender p = addressBytes sender /\ p_receiver p = addressBytes receiver /\ p_nonce p = nonce).

Definition GetPacketByVerification (dstEID : Z) (packetHeader : bytes) (payloadHash : Hash)
    (db : DB) : result dberr PacketRecord :=
  check dstEID <> 0 or Errorf "packet destination eid is required" ;;
  check packetHeader <> [] or Errorf "packet header is required" ;;
  check payloadHash <> 0 or Errorf "packet payload hash is required" ;;
  scanPacket db (fun p => p_dst_eid p = dstEID /\ p_packet_header p = packetHeader /\
    p_payload_hash p = HashBytes payloadHash).

(** ** Executor jobs *)

Record ExecutorJobRecord := mkExecutorJobRecord {
  ej_GUID : Hash; ej_AssignedFee : option Z; ej_Status : string; ej_LastError : string;
  ej_RetryCount : Z; ej_ReceiveTxHash : Hash }.

Definition UpsertExecutorJob (job : ExecutorJobRecord) (now : timestamp) (db : DB)
    : DB * result dberr unit :=
  run_tx db (
    check ej_GUID job <> 0 or Errorf "executor job guid is required" ;;
    check 0 <= default 0 (ej_AssignedFee job) or Errorf "executor assigned fee must be non-negative" ;;
    check ej_Status job <> ""%string or Errorf "executor job status is required" ;;
    let guid := HashBytes (ej_GUID job) in
    match executor_jobs db !! guid with
    | Some e => commit (set_executor_job db guid
        (e <| e_assigned := true |> <| e_assigned_fee := ej_AssignedFee job |>
           <| e_updated_at := now |>)) tt
    | None =>
      check is_Some (packets db !! guid) or ErrConstraint "executor_jobs_guid_fkey" ;;
      commit (set_executor_job db guid
        (mkExecutorJob true (ej_AssignedFee job) (ej_Status job) None None
           (optionalString (ej_LastError job)) 0 None now)) tt
    end).

Definition GetExecutorJob (guid : Hash) (db : DB) : result dberr ExecutorJobRecord :=
  check guid <> 0 or Errorf "executor job guid is required" ;;
  match executor_jobs db !! HashBytes guid with
  | None => Err ErrNoRows
  | Some e =>
    let receive := match e_receive_tx_hash e with
                   | Some h => if decide (length h = HashLength) then BytesToHash h else 0
                   | None => 0
                   end in
    Ok (mkExecutorJobRecord guid (e_assigned_fee e) (e_status e)
          (default ""%string (e_last_error e)) (e_retry_count e) receive)
  end.

(** Work rows: the packet's pathway is active and no chain of it is paused or disabled;
    ORDER BY updated_at, guid (guids are 32 bytes, so bytewise order is numeric order). *)
Definition work_active (db : DB) (p : PacketRow) : Prop := packet_scope_active db (p_dst_eid p) p.
#[export] Instance work_active_dec db p : Decision (work_active db p) := _.

Definition work_le (x y : list Z * (bytes * PacketRow)) : Prop := lex_ltb y.1 x.1 = false.
#[export] Instance work_le_dec : RelDecision work_le.
Proof. intros x y. unfold work_le. apply _. Defined.

Definition ListExecutorWork (status : string) (limit : Z) (now : timestamp) (db : DB)
    : result dberr (list (PacketRecord * (option Z * string * Z))) :=
  check status <> ""%string or Errorf "executor status is required" ;;
  check 0 < limit or Errorf "executor work limit must be positive" ;;
  let due := filter (fun kv => e_status kv.2 = status /\ null_or_le (e_next_retry_at kv.2) now)
               (map_to_list (executor_jobs db)) in
  let joined := omap (fun kv =>
    p ← packets db !! kv.1;
    if decide (work_active db p)
    then Some ([e_updated_at kv.2; be_combine kv.1], (kv.1, p)) else None) due in
  mapM_result (fun x =>
    match executor_jobs db !! x.2.1 with
    | None => Err ErrNoRows
    | Some e =>
      packet ← toPacketRecord x.2.1 x.2.2;
      Ok (packet, (e_assigned_fee e, e_status e, e_retry_count e))
    end) (take (Z.to_nat limit) (merge_sort work_le joined)).

Definition DeferExecutorJob (guid : Hash) (expectedStatus : string) (delay : Z) (now : timestamp)
    (db : DB) : DB * result dberr unit :=
  run_tx db (
    check guid <> 0 or Errorf "executor job guid is required" ;;
    check expectedStatus <> ""%string or Errorf "executor status is required" ;;
    check 0 < delay or Errorf "executor defer delay must be positive" ;;
    match executor_jobs db !! HashBytes guid with
    | None => Err (Errorf "executor job is not in the expected status")
    | Some e =>
      check e_status e = expectedStatus or Errorf "executor job is not in the expected status" ;;
      commit (set_executor_job db (HashBytes guid)
        (e <| e_next_retry_at := Some (now + pgInterval delay) |> <| e_updated_at := now |>)) tt
    end).

(** UPDATE packets SET status = $1 WHERE guid = $2 *)
Definition set_packet_status (db : DB) (guid : bytes) (status : string) (now : timestamp) : DB :=
  match packets db !! guid with
  | Some p => db <| packets := <[guid := p <| p_status := status |> <| p_updated_at := now |>]>
                                 (packets db) |>
  | None => db
  end.

(** The request checks the enqueue operations share; the default guid is the job's. *)
Definition request_guid (guid : Hash) (request : TxRequest) : result dberr bytes :=
  let g := if decide (length (GUID request) = 0%nat) then HashBytes guid else GUID request in
  check length g = HashLength /\ BytesToHash g = guid
    or Errorf "tx request guid does not match the job" ;;
  Ok g.

Definition request_value (request : TxRequest) : result dberr Z :=
  check ChainEID request <> 0 or Errorf "chain eid is required" ;;
  check Purpose request <> ""%string or Errorf "purpose is required" ;;
  check To request <> 0 or Errorf "to address is required" ;;
  check SignerID request <> ""%string or Errorf "signer id is required" ;;
  Ok (default 0 (Value request)).

Definition request_row (request : TxRequest) (guid : bytes) (value : Z) (now : timestamp)
    : OutboxRow :=
  new_outbox_row (ChainEID request) (Purpose request) (optionalBytes guid)
    (addressBytes (To request)) (Calldata request) value (SignerID request) 0 None now.

Definition EnqueueExecutorTx (guid : Hash) (expectedStatus nextStatus : string)
    (request : TxRequest) (now : timestamp) (db : DB) : DB * result dberr Z :=
  run_tx db (
    check guid <> 0 or Errorf "executor job guid is required" ;;
    check ~ (expectedStatus = ""%string \/ nextStatus = ""%string)
      or Errorf "executor transition statuses are required" ;;
    g ← request_guid guid request;
    value ← request_value request;
    match executor_jobs db !! HashBytes guid with
    | None => Err (Errorf "executor job not found")
    | Some e =>
      check e_status e = expectedStatus or Errorf "executor job status mismatch" ;;
      _ ← lockTxSendScope db (ChainEID request) (Purpose request) g;
      let '(db, id) := insert_outbox db (request_row request g value now) in
      let db := set_executor_job db (HashBytes guid)
                  (e <| e_status := nextStatus |> <| e_updated_at := now |>) in
      commit (set_packet_status db (HashBytes guid) nextStatus now) id
    end).

Record executorStatusUpdate := mkExecutorUpdate {
  u_GUID : Hash; u_ExpectedStatus : string; u_NextStatus : string;
  u_CommitTxHash : option Hash; u_ReceiveTxHash : option Hash; u_LastError : string;
  u_IncrementRetryCount : bool }.

(** The CASed status transition, after the retry accounting. *)
Definition transition_executor (db : DB) (update : executorStatusUpdate) (now : timestamp)
    : txbody unit :=
  let guid := HashBytes (u_GUID update) in
  match executor_jobs db !! guid with
  | None => Err (Errorf "executor job is not in the expected status")
  | Some e =>
    check e_status e = u_ExpectedStatus update
      or Errorf "executor job is not in the expected status" ;;
    let db := set_executor_job db guid
      (e <| e_status := u_NextStatus update |>
         <| e_commit_tx_hash := coalesce (HashBytes <$> u_CommitTxHash update) (e_commit_tx_hash e) |>
         <| e_receive_tx_hash := coalesce (HashBytes <$> u_ReceiveTxHash update) (e_receive_tx_hash e) |>
         <| e_last_error := optionalString (u_LastError update) |>
         <| e_retry_count := if u_IncrementRetryCount update then e_retry_count e + 1
                             else e_retry_count e |>
         <| e_updated_at := now |>) in
    commit (set_packet_status db guid (u_NextStatus update) now) tt
  end.

(** INSERT INTO executor_receive_failures .. ON CONFLICT DO NOTHING is the counting
    condition: a hash already counted returns before any status change. *)
Definition updateExecutorStatus (update : executorStatusUpdate) (now : timestamp) (db : DB)
    : DB * result dberr unit :=
  run_tx db (
    check u_GUID update <> 0 or Errorf "executor job guid is required" ;;
    check ~ (u_ExpectedStatus update = ""%string \/ u_NextStatus update = ""%string)
      or Errorf "executor transition statuses are required" ;;
    let guid := HashBytes (u_GUID update) in
    if u_IncrementRetryCount update then
      match u_ReceiveTxHash update with
      | None => Err (Errorf "executor retry accounting requires the failing receive tx hash")
      | Some h =>
        if decide ((guid, HashBytes h) ∈ executor_receive_failures db) then Ok (db, Ok tt) else
        check is_Some (executor_jobs db !! guid)
          or ErrConstraint "executor_receive_failures_guid_fkey" ;;
        transition_executor
          (db <| executor_receive_failures :=
                   {[ (guid, HashBytes h) ]} ∪ executor_receive_failures db |>) update now
      end
    else transition_executor db update now).

(** ** The named executor transitions *)

Definition with_hash (h : Hash) (msg : string) (k : DB -> DB * result dberr unit) (db : DB)
    : DB * result dberr unit :=
  if decide (h = 0) then (db, Err (Errorf msg)) else k db.

Definition MarkExecutorWaitingDVNVerification (guid : Hash) (expectedStatus : string) :=
  updateExecutorStatus (mkExecutorUpdate guid expectedStatus ExecutorWaitingDVNVerification
    None None "" false).
Definition MarkExecutorVerifiable (guid : Hash) (expectedStatus : string) :=
  updateExecutorStatus (mkExecutorUpdate guid expectedStatus ExecutorVerifiable None None "" false).
Definition MarkExecutorCommitted (guid txHash : Hash) (now : timestamp) :=
  with_hash txHash "executor commit tx hash is required"
    (updateExecutorStatus (mkExecutorUpdate guid ExecutorCommitTxEnqueued ExecutorCommitted
       (Some txHash) None "" false) now).
Definition MarkExecutorCommittedFromChain (guid : Hash) (expectedStatus : string) :=
  updateExecutorStatus (mkExecutorUpdate guid expectedStatus ExecutorCommitted None None "" false).
Definition MarkExecutorCommittedObserved (guid txHash : Hash) (expectedStatus : string)
    (now : timestamp) :=
  with_hash txHash "executor commit tx hash is required"
    (updateExecutorStatus (mkExecutorUpdate guid expectedStatus ExecutorCommitted
       (Some txHash) None "" false) now).
Definition MarkExecutorExecutable (guid : Hash) :=
  updateExecutorStatus (mkExecutorUpdate guid ExecutorCommitted ExecutorExecutable
    None None "" false).
Definition MarkExecutorManualReview (guid : Hash) (expectedStatus reason : string)
    (now : timestamp) (db : DB) : DB * result dberr unit :=
  if decide (reason = ""%string)
  then (db, Err (Errorf "executor manual review reason is required"))
  else updateExecutorStatus (mkExecutorUpdate guid expectedStatus ExecutorManualReview
         None None reason false) now db.
Definition MarkExecutorDelivered (guid txHash : Hash) (now : timestamp) :=
  with_hash txHash "executor receive tx hash is required"
    (updateExecutorStatus (mkExecutorUpdate guid ExecutorLzReceiveTxEnqueued ExecutorDelivered
       None (Some txHash) "" false) now).
Definition MarkExecutorDeliveredFromChain (guid : Hash) (expectedStatus : string) :=
  updateExecutorStatus (mkExecutorUpdate guid expectedStatus ExecutorDelivered None None "" false).
Definition MarkExecutorDeliveredObserved (guid txHash : Hash) (expectedStatus : string)
    (now : timestamp) :=
  with_hash txHash "executor receive tx hash is required"
    (updateExecutorStatus (mkExecutorUpdate guid expectedStatus ExecutorDelivered
       None (Some txHash) "" false) now).
Definition MarkExecutorReceiveFailed (guid txHash : Hash) (reason : string) (now : timestamp) :=
  with_hash txHash "executor receive tx hash is required"
    (updateExecutorStatus (mkExecutorUpdate guid ExecutorLzReceiveTxEnqueued
       ExecutorLzReceiveFailed None (Some txHash) reason true) now).
Definition MarkExecutorReceiveFailedObserved (guid txHash : Hash) (expectedStatus reason : string)
    (now : timestamp) :=
  with_hash txHash "executor receive tx hash is required"
    (updateExecutorStatus (mkExecutorUpdate guid expectedStatus ExecutorLzReceiveFailed
       None (Some txHash) reason true) now).

(** ** DVN jobs *)

Record DVNJobRecord := mkDVNJobRecord {
  dj_GUID : Hash; dj_AssignedFee : option Z; dj_ConfirmationsRequired : Z; dj_Status : string;
  dj_QuorumResult : string }.

Definition UpsertDVNJob (job : DVNJobRecord) (now : timestamp) (db : DB)
    : DB * result dberr unit :=
  run_tx db (
    check dj_GUID job <> 0 or Errorf "dvn job guid is required" ;;
    check dj_ConfirmationsRequired job <> 0 or Errorf "dvn confirmations required is required" ;;
    check 0 <= default 0 (dj_AssignedFee job) or Errorf "dvn assigned fee must be non-negative" ;;
    check dj_Status job <> ""%string or Errorf "dvn job status is required" ;;
    check dj_ConfirmationsRequired job <= MaxInt64 or ErrConstraint "dvn_jobs_range" ;;
    let guid := HashBytes (dj_GUID job) in
    match dvn_jobs db !! guid with
    | Some d => commit (set_dvn_job db guid
        (d <| d_assigned := true |> <| d_assigned_fee := dj_AssignedFee job |>
           <| d_confirmations_required := dj_ConfirmationsRequired job |>
           <| d_updated_at := now |>)) tt
    | None =>
      check is_Some (packets db !! guid) or ErrConstraint "dvn_jobs_guid_fkey" ;;
      commit (set_dvn_job db guid
        (mkDVNJob true (dj_AssignedFee job) (dj_ConfirmationsRequired job) (dj_Status job)
           None None None None now)) tt
    end).

Definition GetDVNJob (guid : Hash) (db : DB) : result dberr DVNJobRecord :=
  check guid <> 0 or Errorf "dvn job guid is required" ;;
  match dvn_jobs db !! HashBytes guid with
  | None => Err ErrNoRows
  | Some d => Ok (mkDVNJobRecord (BytesToHash (HashBytes guid)) (d_assigned_fee d)
                    (d_confirmations_required d) (d_status d) "")
  end.

Definition ListDVNWork (status : string) (limit : Z) (now : timestamp) (db : DB)
    : result dberr (list (PacketRecord * DVNJobRecord)) :=
  check status <> ""%string or Errorf "dvn status is required" ;;
  check 0 < limit or Errorf "dvn work limit must be positive" ;;
  let due := filter (fun kv => d_status kv.2 = status /\ null_or_le (d_next_retry_at kv.2) now)
               (map_to_list (dvn_jobs db)) in
  let joined := omap (fun kv =>
    p ← packets db !! kv.1;
    if decide (work_active db p)
    then Some ([d_updated_at kv.2; be_combine kv.1], (kv.1, p)) else None) due in
  mapM_result (fun x =>
    match dvn_jobs db !! x.2.1 with
    | None => Err ErrNoRows
    | Some d =>
      packet ← toPacketRecord x.2.1 x.2.2;
      check d_confirmations_required d <> 0 or Errorf "dvn work confirmations required is zero" ;;
      Ok (packet, mkDVNJobRecord (k_GUID packet) (d_assigned_fee d) (d_confirmations_required d)
                    (d_status d) (default ""%string (d_quorum_result d)))
    end) (take (Z.to_nat limit) (merge_sort work_le joined)).

Definition DeferDVNJob (guid : Hash) (expectedStatus : string) (delay : Z) (now : timestamp)
    (db : DB) : DB * result dberr unit :=
  run_tx db (
    check guid <> 0 or Errorf "dvn job guid is required" ;;
    check expectedStatus <> ""%string or Errorf "dvn status is required" ;;
    check 0 < delay or Errorf "dvn defer delay must be positive" ;;
    match dvn_jobs db !! HashBytes guid with
    | None => Err (Errorf "dvn job is not in the expected status")
    | Some d =>
      check d_status d = expectedStatus or Errorf "dvn job is not in the expected status" ;;
      commit (set_dvn_job db (HashBytes guid)
        (d <| d_next_retry_at := Some (now + pgInterval delay) |> <| d_updated_at := now |>)) tt
    end).

Record dvnStatusUpdate := mkDVNUpdate {
  v_GUID : Hash; v_ExpectedStatus : string; v_NextStatus : string; v_LastError : string;
  v_QuorumResult : string; v_VerifyTxHash : option Hash }.

(** UPDATE dvn_jobs SET status, last_error, quorum_result, verify_tx_hash WHERE guid AND status *)
Definition transition_dvn (db : DB) (update : dvnStatusUpdate) (now : timestamp)
    : result dberr DB :=
  let guid := HashBytes (v_GUID update) in
  match dvn_jobs db !! guid with
  | None => Err (Errorf "dvn job is not in the expected status")
  | Some d =>
    check d_status d = v_ExpectedStatus update or Errorf "dvn job is not in the expected status" ;;
    Ok (set_dvn_job db guid
      (d <| d_status := v_NextStatus update |>
         <| d_last_error := optionalString (v_LastError update) |>
         <| d_quorum_result := coalesce (optionalString (v_QuorumResult update)) (d_quorum_result d) |>
         <| d_verify_tx_hash := coalesce (HashBytes <$> v_VerifyTxHash update) (d_verify_tx_hash d) |>
         <| d_updated_at := now |>))
  end.

Definition updateDVNStatus (update : dvnStatusUpdate) (now : timestamp) (db : DB)
    : DB * result dberr unit :=
  run_tx db (
    check v_GUID update <> 0 or Errorf "dvn job guid is required" ;;
    check ~ (v_ExpectedStatus update = ""%string \/ v_NextStatus update = ""%string)
      or Errorf "dvn transition statuses are required" ;;
    db ← transition_dvn db update now;
    commit db tt).

Definition with_text (t msg : string) (k : DB -> DB * result dberr unit) (db : DB)
    : DB * result dberr unit :=
  if decide (t = ""%string) then (db, Err (Errorf msg)) else k db.

Definition MarkDVNWaitingConfirmations (guid : Hash) (expectedStatus : string) :=
  updateDVNStatus (mkDVNUpdate guid expectedStatus DVNWaitingConfirmations "" "" None).
Definition MarkDVNQuorumChecking (guid : Hash) (expectedStatus : string) :=
  updateDVNStatus (mkDVNUpdate guid expectedStatus DVNQuorumChecking "" "" None).
Definition MarkDVNReadyToVerify (guid : Hash) (expectedStatus quorumResult : string)
    (now : timestamp) :=
  with_text quorumResult "dvn quorum result is required"
    (updateDVNStatus (mkDVNUpdate guid expectedStatus DVNReadyToVerify "" quorumResult None) now).
Definition MarkDVNWouldVerify (guid : Hash) (expectedStatus quorumResult : string)
    (now : timestamp) :=
  with_text quorumResult "dvn quorum result is required"
    (updateDVNStatus (mkDVNUpdate guid expectedStatus DVNWouldVerify "" quorumResult None) now).
Definition MarkDVNVerified (guid txHash : Hash) (now : timestamp) :=
  with_hash txHash "dvn verify tx hash is required"
    (updateDVNStatus (mkDVNUpdate guid DVNVerifyTxEnqueued DVNVerified "" "" (Some txHash)) now).
Definition MarkDVNVerifiedFromChain (guid : Hash) (expectedStatus quorumResult : string)
    (now : timestamp) :=
  with_text quorumResult "dvn quorum result is required"
    (updateDVNStatus (mkDVNUpdate guid expectedStatus DVNVerified "" quorumResult None) now).
Definition MarkDVNVerifiedObserved (guid txHash : Hash) (expectedStatus : string)
    (now : timestamp) :=
  with_hash txHash "dvn verify tx hash is required"
    (updateDVNStatus (mkDVNUpdate guid expectedStatus DVNVerified "" "" (Some txHash)) now).
Definition MarkDVNQuorumConflict (guid : Hash) (expectedStatus reason quorumResult : string)
    (now : timestamp) :=
  with_text reason "dvn quorum conflict reason is required"
    (updateDVNStatus (mkDVNUpdate guid expectedStatus DVNQuorumConflict reason quorumResult None)
       now).
Definition MarkDVNReorgDetected (guid : Hash) (expectedStatus reason quorumResult : string)
    (now : timestamp) :=
  with_text reason "dvn reorg reason is required"
    (updateDVNStatus (mkDVNUpdate guid expectedStatus DVNReorgDetected reason quorumResult None)
       now).
Definition MarkDVNManualReview (guid : Hash) (expectedStatus reason : string) (now : timestamp) :=
  with_text reason "dvn manual review reason is required"
    (updateDVNStatus (mkDVNUpdate guid expectedStatus DVNManualReview reason "" None) now).

Definition EnqueueDVNVerifyTx (guid : Hash) (expectedStatus nextStatus : string)
    (request : TxRequest) (quorumResult : string) (now : timestamp) (db : DB)
    : DB * result dberr Z :=
  run_tx db (
    check guid <> 0 or Errorf "dvn job guid is required" ;;
    check ~ (expectedStatus = ""%string \/ nextStatus = ""%string)
      or Errorf "dvn transition statuses are required" ;;
    g ← request_guid guid request;
    check quorumResult <> ""%string or Errorf "dvn quorum result is required" ;;
    value ← request_value request;
    match dvn_jobs db !! HashBytes guid with
    | None => Err (Errorf "dvn job not found")
    | Some d =>
      check d_status d = expectedStatus or Errorf "dvn job status mismatch" ;;
      _ ← lockTxSendScope db (ChainEID request) (Purpose request) g;
      let '(db, id) := insert_outbox db (request_row request g value now) in
      commit (set_dvn_job db (HashBytes guid)
        (d <| d_status := nextStatus |> <| d_quorum_result := Some quorumResult |>
           <| d_updated_at := now |>)) id
    end).

Definition MarkDVNManualReviewAndPausePathway (guid : Hash) (expectedStatus reason : string)
    (quorumResult : string) (now : timestamp) (db : DB) : DB * result dberr unit :=
  run_tx db (
    check guid <> 0 or Errorf "dvn job guid is required" ;;
    check expectedStatus <> ""%string or Errorf "dvn expected status is required" ;;
    check reason <> ""%string or Errorf "dvn manual review reason is required" ;;
    match dvn_jobs db !! HashBytes guid with
    | None => Err (Errorf "dvn job is not in the expected status")
    | Some d =>
      check d_status d = expectedStatus or Errorf "dvn job is not in the expected status" ;;
      let db := set_dvn_job db (HashBytes guid)
        (d <| d_status := DVNManualReview |> <| d_last_error := Some reason |>
           <| d_quorum_result := coalesce (optionalString quorumResult) (d_quorum_result d) |>
           <| d_next_retry_at := None |> <| d_updated_at := now |>) in
      match PausePathwayForPacket guid db with
      | (db, Ok _) => commit db tt
      | (_, Err e) => Err e
      end
    end).

Definition MarkDVNReorgDetectedWithCoordinates (guid : Hash) (expectedStatus reason : string)
    (quorumResult : string) (srcBlockNumber srcLogIndex expectedSrcBlockNumber
    expectedSrcLogIndex : Z) (now : timestamp) (db : DB) : DB * result dberr unit :=
  run_tx db (
    check guid <> 0 or Errorf "dvn job guid is required" ;;
    check expectedStatus <> ""%string or Errorf "dvn expected status is required" ;;
    db ← transition_dvn db
      (mkDVNUpdate guid expectedStatus DVNReorgDetected reason quorumResult None) now;
    match packets db !! HashBytes guid with
    | Some p =>
      if decide (p_src_block_number p = int64_of_uint64 expectedSrcBlockNumber /\
                 p_src_log_index p = int64_of_uint64 expectedSrcLogIndex)
      then commit (db <| packets := <[HashBytes guid :=
             p <| p_src_block_number := int64_of_uint64 srcBlockNumber |>
               <| p_src_log_index := int64_of_uint64 srcLogIndex |> <| p_updated_at := now |>]>
             (packets db) |>) tt
      else commit db tt
    | None => commit db tt
    end).

(** ** The pricing feed gate *)

(** A failed pricing row that still owns an unconsumed nonce. *)
Definition txRetryableLegacyPricing (o : OutboxRow) : Prop :=
  o_status o = TxStatusFailed /\ o_nonce o <> None /\ o_receipt_outcome o = None /\
  default ""%string (o_failure_kind o) ∉
    [TxFailureCanceled; TxFailureNonceConsumedExternally; TxFailureReceiptFailed].
#[export] Instance txRetryableLegacyPricing_dec o : Decision (txRetryableLegacyPricing o) := _.

Definition pricing_pending (chainEID : Z) (o : OutboxRow) : Prop :=
  o_chain_eid o = chainEID /\ o_purpose o = TxPurposePricingSetPriceSnapshot /\
  (o_status o ∈ txPricingPendingStatuses \/ txRetryableLegacyPricing o).
#[export] Instance pricing_pending_dec c o : Decision (pricing_pending c o) := _.

Definition ListPendingPricingTxs (chainEID : Z) (db : DB) : result dberr (list (Z * OutboxRow)) :=
  check chainEID <> 0 or Errorf "chain eid is required" ;;
  Ok (merge_sort id_le (select_outbox db (fun x => pricing_pending chainEID x.2))).

Definition ListPendingPricingSigners (chainEID : Z) (db : DB) : result dberr (gset string) :=
  check chainEID <> 0 or Errorf "chain eid is required" ;;
  Ok (list_to_set ((fun x => o_signer_id x.2)
        <$> select_outbox db (fun x => pricing_pending chainEID x.2))).

Definition EnqueuePricingSnapshotTx (request : TxRequest) (now : timestamp) (db : DB)
    : DB * result dberr Z :=
  run_tx db (
    check ChainEID request <> 0 or Errorf "chain eid is required" ;;
    check Purpose request = TxPurposePricingSetPriceSnapshot
      or Errorf "purpose must be the pricing snapshot purpose" ;;
    check To request <> 0 or Errorf "to address is required" ;;
    check SignerID request <> ""%string or Errorf "signer id is required" ;;
    _ ← lockTxSendScope db (ChainEID request) (Purpose request) (GUID request);
    check ~ exists_outbox db (fun o => pricing_pending (ChainEID request) o /\
              o_to_address o = addressBytes (To request)) or ErrPricingPendingExists ;;
    let '(db, id) := insert_outbox db
      (request_row request (GUID request) (default 0 (Value request)) now) in
    commit db id).

(** ** Indexer cursors *)

Definition GetIndexerCursor (chainEID : Z) (stream : string) (db : DB) : result dberr Z :=
  check chainEID <> 0 or Errorf "indexer cursor chain eid is required" ;;
  check stream <> ""%string or Errorf "indexer cursor stream is required" ;;
  match indexer_cursors db !! (chainEID, stream) with
  | None => Err ErrNoRows
  | Some lastBlock =>
    check 0 <= lastBlock or Errorf "indexer cursor last block is negative" ;;
    Ok lastBlock
  end.

Definition UpdateIndexerCursor (chainEID : Z) (stream : string) (lastBlock : Z) (db : DB)
    : DB * result dberr unit :=
  run_tx db (
    check chainEID <> 0 or Errorf "indexer cursor chain eid is required" ;;
    check stream <> ""%string or Errorf "indexer cursor stream is required" ;;
    check lastBlock <= MaxInt64 or Errorf "indexer cursor last block exceeds limit" ;;
    match indexer_cursors db !! (chainEID, stream) with
    | Some current =>
      commit (db <| indexer_cursors :=
        <[(chainEID, stream) := Z.max current lastBlock]> (indexer_cursors db) |>) tt
    | None =>
      check is_Some (chains db !! chainEID) or ErrConstraint "indexer_cursors_chain_fkey" ;;
      commit (db <| indexer_cursors :=
        <[(chainEID, stream) := lastBlock]> (indexer_cursors db) |>) tt
    end).

(** ** Skipped source packets *)

Record SourcePacketSkip := mkSkip {
  ks_Role : string; ks_SrcEID : Z; ks_DstEID : Z; ks_Nonce : Z; ks_Sender : Address;
  ks_Receiver : Address; ks_GUID : Hash; ks_SrcTxHash : Hash; ks_SrcBlockNumber : Z;
  ks_SrcLogIndex : Z; ks_Reason : string; ks_Worker : Address }.

Definition validateSourcePacketSkip (skip : SourcePacketSkip) : result dberr unit :=
  check ks_Role skip <> ""%string or Errorf "source packet skip role is required" ;;
  check ~ (ks_SrcEID skip = 0 \/ ks_DstEID skip = 0) or Errorf "source packet skip eids are required" ;;
  check ks_Nonce skip <> 0 or Errorf "source packet skip nonce is required" ;;
  check ~ (ks_Sender skip = 0 \/ ks_Receiver skip = 0)
    or Errorf "source packet skip sender and receiver are required" ;;
  check ks_GUID skip <> 0 or Errorf "source packet skip guid is required" ;;
  check ks_SrcTxHash skip <> 0 or Errorf "source packet skip tx hash is required" ;;
  check ks_Reason skip <> ""%string or Errorf "source packet skip reason is required" ;;
  Ok tt.

Definition skip_key_of (role : string) (srcEID dstEID : Z) (sender receiver : Address) (nonce : Z)
    : skip_key := (role, srcEID, dstEID, addressBytes sender, addressBytes receiver, nonce).

(** INSERT .. ON CONFLICT (role, src_eid, dst_eid, sender, receiver, nonce) DO UPDATE *)
Definition RecordSourcePacketSkip (skip : SourcePacketSkip) (now : timestamp) (db : DB)
    : DB * result dberr unit :=
  run_tx db (
    _ ← validateSourcePacketSkip skip;
    check is_Some (chains db !! ks_SrcEID skip) /\ is_Some (chains db !! ks_DstEID skip)
      or ErrConstraint "source_packet_skips_eid_fkey" ;;
    check ks_SrcBlockNumber skip <= MaxInt64 /\ ks_SrcLogIndex skip < 2 ^ 31
      or ErrConstraint "source_packet_skips_range" ;;
    let worker := if decide (ks_Worker skip = 0) then None else Some (addressBytes (ks_Worker skip)) in
    commit (db <| source_packet_skips :=
      <[skip_key_of (ks_Role skip) (ks_SrcEID skip) (ks_DstEID skip) (ks_Sender skip)
          (ks_Receiver skip) (ks_Nonce skip) :=
        mkSkipRow (HashBytes (ks_GUID skip)) (HashBytes (ks_SrcTxHash skip)) (ks_SrcBlockNumber skip)
          (ks_SrcLogIndex skip) (ks_Reason skip) worker now]> (source_packet_skips db) |>) tt).

Definition GetSourcePacketSkip (role : string) (srcEID dstEID : Z) (sender receiver : Address)
    (nonce : Z) (db : DB) : result dberr SourcePacketSkip :=
  check role <> ""%string or Errorf "source packet skip role is required" ;;
  check ~ (srcEID = 0 \/ dstEID = 0) or Errorf "source packet skip eids are required" ;;
  check ~ (sender = 0 \/ receiver = 0)
    or Errorf "source packet skip sender and receiver are required" ;;
  check nonce <> 0 or Errorf "source packet skip nonce is required" ;;
  match source_packet_skips db !! skip_key_of role srcEID dstEID sender receiver nonce with
  | None => Err ErrNoRows
  | Some row =>
    check 0 <= nonce < 2 ^ 64 or Errorf "source packet skip nonce is invalid" ;;
    Ok (mkSkip role srcEID dstEID nonce (BytesToAddress (addressBytes sender))
          (BytesToAddress (addressBytes receiver)) (BytesToHash (sk_guid row))
          (BytesToHash (sk_src_tx_hash row)) (sk_src_block_number row) (sk_src_log_index row)
          (sk_reason row)
          (match sk_worker row with
           | Some w => if decide (w = []) then 0 else BytesToAddress w
           | None => 0
           end))
  end.
