(* ===== verification/StoreInv.v ===== *)
(** * The store's invariant

    [evolves] is what every step keeps of the rows it found, [inv] the inductive
    invariant of the tables, [step_ok] that a change keeps both; with the lemmas
    for the writes the operations are made of: one row, all rows, a cursor, an
    attempt, a new row, a new active attempt. *)

From S2P Require Import Prelude Schema SendScope Outbox Attempts CancelReconcile Jobs.
From stdpp Require Import base gmap list strings numbers fin_maps relations.
From Stdlib Require Import ZArith Lia.
#[local] Open Scope Z_scope.

(** ** What a step keeps *)

(** The request columns, an assigned nonce, a pinned resolution and a confirmation
    are never rewritten. *)
Record row_evolves (o o' : OutboxRow) : Prop := {
  re_chain : o_chain_eid o' = o_chain_eid o;
  re_signer : o_signer_id o' = o_signer_id o;
  re_purpose : o_purpose o' = o_purpose o;
  re_guid : o_guid o' = o_guid o;
  re_to : o_to_address o' = o_to_address o;
  re_calldata : o_calldata o' = o_calldata o;
  re_value : o_value o' = o_value o;
  re_retry : o_retry_of_id o' = o_retry_of_id o;
  re_nonce : forall n, o_nonce o = Some n -> o_nonce o' = Some n;
  re_outcome : forall r, o_receipt_outcome o = Some r ->
    o_receipt_outcome o' = Some r /\ o_receipt_attempt_id o' = o_receipt_attempt_id o;
  re_confirmed : o_status o = TxStatusConfirmed -> o_status o' = TxStatusConfirmed }.

Definition state_rank (s : TxAttemptState) : Z :=
  match s with
  | TxAttemptSigned => 0 | TxAttemptAmbiguous => 1 | TxAttemptRejected => 1
  | TxAttemptSubmitted => 2 | TxAttemptMined => 3
  end.

Record att_evolves (a a' : AttemptRow) : Prop := {
  ae_outbox : a_outbox_id a' = a_outbox_id a;
  ae_kind : a_kind a' = a_kind a;
  ae_nonce : a_nonce a' = a_nonce a;
  ae_type : a_tx_type a' = a_tx_type a;
  ae_hash : a_tx_hash a' = a_tx_hash a;
  ae_raw : a_raw_tx a' = a_raw_tx a;
  ae_gas : a_gas_limit a' = a_gas_limit a;
  ae_fee : a_max_fee_per_gas a' = a_max_fee_per_gas a;
  ae_prio : a_max_priority_fee_per_gas a' = a_max_priority_fee_per_gas a;
  ae_token : a_signing_token a' = a_signing_token a;
  ae_state : a_state a' = a_state a \/ state_rank (a_state a) < state_rank (a_state a');
  ae_count : a_broadcast_count a <= a_broadcast_count a' }.

Record evolves (db db' : DB) : Prop := {
  ev_rows : forall id o, tx_outbox db !! id = Some o ->
    exists o', tx_outbox db' !! id = Some o' /\ row_evolves o o';
  ev_atts : forall aid a, tx_attempts db !! aid = Some a ->
    exists a', tx_attempts db' !! aid = Some a' /\ att_evolves a a';
  ev_cursors : forall k n, tx_nonce_cursors db !! k = Some n ->
    exists n', tx_nonce_cursors db' !! k = Some n' /\ n_next_nonce n <= n_next_nonce n' }.

Lemma row_evolves_refl o : row_evolves o o.
Proof. by constructor. Qed.
Lemma att_evolves_refl a : att_evolves a a.
Proof. constructor; auto; lia. Qed.

Lemma row_evolves_trans a b c : row_evolves a b -> row_evolves b c -> row_evolves a c.
Proof.
  intros [] []. constructor; try congruence; eauto.
  intros r Hr. apply re_outcome0 in Hr as [Hr ?]. apply re_outcome1 in Hr as [? ?]. split; congruence.
Qed.
Lemma att_evolves_trans a b c : att_evolves a b -> att_evolves b c -> att_evolves a c.
Proof.
  intros [] []. constructor; try congruence; [|lia].
  destruct ae_state0 as [?|?], ae_state1 as [?|?]; [left; congruence|right..]; try congruence; lia.
Qed.

#[export] Instance evolves_preorder : PreOrder evolves.
Proof.
  split.
  - intros db. split; eauto using row_evolves_refl, att_evolves_refl with lia.
  - intros a b c [r1 t1 k1] [r2 t2 k2]. split.
    + intros id o (o' & H & ?)%r1. apply r2 in H as (o'' & ? & ?). eauto using row_evolves_trans.
    + intros id o (o' & H & ?)%t1. apply t2 in H as (o'' & ? & ?). eauto using att_evolves_trans.
    + intros k n (n' & H & ?)%k1. apply k2 in H as (n'' & ? & ?). exists n''. split; [done|lia].
Qed.

(** ** The invariant *)

Section row_ok.
Context (atts : gmap Z AttemptRow) (curs : gmap (Z * string) NonceCursorRow).

Definition owns (id aid : Z) : Prop := exists a, atts !! aid = Some a /\ a_outbox_id a = id.
Definition no_attempts (id : Z) : Prop := forall aid, ~ owns id aid.

Record row_ok (id : Z) (o : OutboxRow) : Prop := {
  (** CHECK ((status = 'held') = (held_reason IS NOT NULL)) *)
  row_held : o_status o = TxStatusHeld <-> o_held_reason o <> None;
  (** CHECK ((lease_token IS NULL) = (lease_until IS NULL)) *)
  row_lease : o_lease_token o = None <-> o_lease_until o = None;
  (** CHECK ((receipt_outcome IS NULL) = (receipt_attempt_id IS NULL)) *)
  row_receipt : o_receipt_outcome o = None <-> o_receipt_attempt_id o = None;
  (** FOREIGN KEY (id, active_attempt_id) REFERENCES tx_attempts (outbox_id, id) *)
  row_active_fk : forall aid, o_active_attempt_id o = Some aid -> owns id aid;
  row_receipt_fk : forall aid, o_receipt_attempt_id o = Some aid -> owns id aid;
  row_confirmed : o_status o = TxStatusConfirmed -> forall r, o_receipt_outcome o = Some r ->
    r = ReceiptOutcomeConfirmed;
  row_failed_outcome : o_status o = TxStatusFailed ->
    o_receipt_outcome o <> Some ReceiptOutcomeConfirmed;
  (** a signed or broadcast row has an attempt to broadcast *)
  row_active : o_status o = TxStatusSigned \/ o_status o = TxStatusBroadcast ->
    o_active_attempt_id o <> None;
  (** every status past queued, and every signing lease, holds a nonce *)
  row_assigned : o_status o = TxStatusNonceAssigned \/ o_status o = TxStatusSigned \/
    o_status o = TxStatusBroadcast \/ o_status o = TxStatusHeld \/ o_lease_token o <> None ->
    o_nonce o <> None;
  (** nothing was ever signed for a row still waiting for its first signature *)
  row_unsigned : o_status o = TxStatusQueued \/ o_status o = TxStatusNonceAssigned ->
    no_attempts id;
  (** a failed row that may be requeued in place never used its nonce *)
  row_failed : o_status o = TxStatusFailed -> o_receipt_outcome o = None ->
    o_failure_kind o <> Some TxFailureNonceConsumedExternally -> no_attempts id;
  row_receipt_failed : o_failure_kind o = Some TxFailureReceiptFailed ->
    o_receipt_outcome o <> None;
  (** the cursor is past every nonce of the lane *)
  row_cursor : forall n, o_nonce o = Some n -> 0 <= n /\
    exists c, curs !! (o_chain_eid o, o_signer_id o) = Some c /\ n < n_next_nonce c }.
End row_ok.

(** A row whose nonce was consumed: the only rows a retry child may hang off. *)
Definition spent (o : OutboxRow) : Prop :=
  o_status o = TxStatusFailed /\
  (o_receipt_outcome o <> None \/ o_failure_kind o = Some TxFailureNonceConsumedExternally).

Record att_ok (rows : gmap Z OutboxRow) (a : AttemptRow) : Prop := {
  att_row : exists o, rows !! a_outbox_id a = Some o /\ o_nonce o = Some (a_nonce a);
  att_count : 0 <= a_broadcast_count a <= TxMaxBroadcasts;
  att_lease : a_broadcast_lease_token a = None <-> a_broadcast_lease_until a = None;
  att_checks : attempt_checks a }.

(** executor_receive_failures REFERENCES executor_jobs, and a job's retry_count is the
    number of distinct failing transactions charged to it. *)
Definition charged (failures : gset (bytes * bytes)) (guid : bytes) : gset (bytes * bytes) :=
  filter (fun p => p.1 = guid) failures.

Record accounting_of (jobs : gmap bytes ExecutorJobRow) (failures : gset (bytes * bytes)) : Prop := {
  acc_fk : forall p, p ∈ failures -> is_Some (jobs !! p.1);
  acc_count : forall guid e, jobs !! guid = Some e ->
    e_retry_count e = Z.of_nat (size (charged failures guid)) }.
Definition accounting (db : DB) : Prop :=
  accounting_of (executor_jobs db) (executor_receive_failures db).

Record inv (db : DB) : Prop := {
  inv_accounting : accounting db;
  inv_rows : forall id o, tx_outbox db !! id = Some o ->
    row_ok (tx_attempts db) (tx_nonce_cursors db) id o;
  inv_atts : forall aid a, tx_attempts db !! aid = Some a -> att_ok (tx_outbox db) a;
  inv_nonce_unique : forall i j oi oj n,
    tx_outbox db !! i = Some oi -> tx_outbox db !! j = Some oj ->
    o_chain_eid oi = o_chain_eid oj -> o_signer_id oi = o_signer_id oj ->
    o_nonce oi = Some n -> o_nonce oj = Some n -> i = j;
  inv_att_unique : forall i j ai aj,
    tx_attempts db !! i = Some ai -> tx_attempts db !! j = Some aj ->
    attempt_conflict ai aj -> i = j;
  inv_row_ids : forall id o, tx_outbox db !! id = Some o -> id < next_outbox_id db;
  inv_att_ids : forall id a, tx_attempts db !! id = Some a -> id < next_attempt_id db;
  inv_cursors : forall k n, tx_nonce_cursors db !! k = Some n -> 0 <= n_next_nonce n <= maxDBNonce /\
    (n_reconcile_lease_token n = None <-> n_reconcile_lease_until n = None);
  inv_child : forall i o p, tx_outbox db !! i = Some o -> o_retry_of_id o = Some p ->
    exists po, tx_outbox db !! p = Some po /\ spent po;
  inv_child_unique : forall i j oi oj p,
    tx_outbox db !! i = Some oi -> tx_outbox db !! j = Some oj ->
    o_retry_of_id oi = Some p -> o_retry_of_id oj = Some p -> i = j }.

(** ** Writing one row *)

(** What an UPDATE of one outbox row must establish. *)
Record row_step (db : DB) (id : Z) (o o' : OutboxRow) : Prop := {
  rs_evolves : row_evolves o o';
  rs_ok : row_ok (tx_attempts db) (tx_nonce_cursors db) id o';
  rs_nonce : o_nonce o' = o_nonce o \/
    exists n, o_nonce o' = Some n /\ forall j oj, tx_outbox db !! j = Some oj ->
      o_chain_eid oj = o_chain_eid o -> o_signer_id oj = o_signer_id o -> o_nonce oj <> Some n;
  rs_spent : spent o -> spent o' }.

Lemma inv_update_row db id o o' :
  inv db -> tx_outbox db !! id = Some o -> row_step db id o o' ->
  inv (set_outbox db id o') /\ evolves db (set_outbox db id o').
Proof.
  intros Hi Ho [Hev Hok Hn Hsp].
  assert (forall j oj, <[id:=o']> (tx_outbox db) !! j = Some oj ->
    exists oj0, tx_outbox db !! j = Some oj0 /\ row_evolves oj0 oj /\
      (j = id /\ oj0 = o /\ oj = o' \/ j <> id /\ oj0 = oj)) as Hlk.
  { intros j oj [[<- <-]|[? ?]]%lookup_insert_Some; [exists o; split_and!; auto|].
    exists oj. split_and!; auto using row_evolves_refl. }
  assert (forall j oj n, tx_outbox db !! j = Some oj -> j <> id ->
    o_chain_eid oj = o_chain_eid o -> o_signer_id oj = o_signer_id o ->
    o_nonce oj = Some n -> o_nonce o' = Some n -> False) as Hfresh.
  { intros j oj n Hj Hne Hc Hs Hnj Hn'. destruct Hn as [Hn|(m & Hm & Hfr)].
    - apply Hne. eapply (inv_nonce_unique db Hi); eauto; congruence.
    - assert (m = n) as -> by congruence. by eapply Hfr. }
  split; [split; [exact (inv_accounting db Hi)|..]|split]; cbn.
  - intros j oj (oj0 & Hj & _ & [(-> & _ & ->)|[_ <-]])%Hlk; [done|by eapply inv_rows].
  - intros aid a Ha. destruct (inv_atts db Hi _ _ Ha) as [(r & Hr & Hrn) ???]. split; try done.
    destruct (decide (a_outbox_id a = id)) as [<-|Hne].
    + rewrite lookup_insert_eq. exists o'. split; [done|]. apply Hev. congruence.
    + rewrite lookup_insert_ne by done. eauto.
  - intros i j oi oj n (oi0 & Hi0 & Ei & Ci)%Hlk (oj0 & Hj0 & Ej & Cj)%Hlk Hc Hs Hni Hnj.
    destruct Ci as [(-> & -> & ->)|[Hine ->]], Cj as [(-> & -> & ->)|[Hjne ->]].
    + done.
    + exfalso. rewrite (re_chain _ _ Ei) in Hc. rewrite (re_signer _ _ Ei) in Hs.
      apply (Hfresh j oj n); congruence.
    + exfalso. rewrite (re_chain _ _ Ej) in Hc. rewrite (re_signer _ _ Ej) in Hs.
      apply (Hfresh i oi n); congruence.
    + by eapply (inv_nonce_unique db Hi).
  - apply Hi.
  - intros j oj (oj0 & Hj & _)%Hlk. by eapply (inv_row_ids db Hi).
  - apply Hi.
  - apply Hi.
  - intros i oi p (oi0 & Hi0 & Ei & _)%Hlk Hp. rewrite (re_retry _ _ Ei) in Hp.
    destruct (inv_child db Hi _ _ _ Hi0 Hp) as (po & Hpo & Hspo).
    destruct (decide (p = id)) as [->|Hne].
    + rewrite lookup_insert_eq. exists o'. split; [done|]. apply Hsp. congruence.
    + rewrite lookup_insert_ne by done. eauto.
  - intros i j oi oj p (oi0 & Hi0 & Ei & _)%Hlk (oj0 & Hj0 & Ej & _)%Hlk Hp Hq.
    rewrite (re_retry _ _ Ei) in Hp. rewrite (re_retry _ _ Ej) in Hq.
    by eapply (inv_child_unique db Hi).
  - intros j oj Hj. destruct (decide (j = id)) as [->|Hne].
    + rewrite lookup_insert_eq. assert (oj = o) as -> by congruence. eauto.
    + rewrite lookup_insert_ne by done. eauto using row_evolves_refl.
  - eauto using att_evolves_refl.
  - intros k n Hk. exists n. split; [done|lia].
Qed.

(** An UPDATE of many rows at once that assigns no nonce. *)
Lemma inv_update_all db (g : Z -> OutboxRow -> OutboxRow) :
  inv db ->
  (forall id o, tx_outbox db !! id = Some o ->
     row_step db id o (g id o) /\ o_nonce (g id o) = o_nonce o) ->
  let db' := db <| tx_outbox := map_imap (fun id o => Some (g id o)) (tx_outbox db) |> in
  inv db' /\ evolves db db'.
Proof.
  intros Hi Hg db'.
  assert (forall j oj, tx_outbox db' !! j = Some oj ->
    exists o, tx_outbox db !! j = Some o /\ oj = g j o /\ row_step db j o oj /\
              o_nonce oj = o_nonce o) as Hlk.
  { intros j oj. cbn. rewrite map_lookup_imap. destruct (tx_outbox db !! j) as [o|] eqn:E; [|done].
    intros [= <-]. destruct (Hg _ _ E). eauto. }
  assert (forall j o, tx_outbox db !! j = Some o -> tx_outbox db' !! j = Some (g j o)) as Hfw.
  { intros j o E. cbn. by rewrite map_lookup_imap, E. }
  split; [split; [exact (inv_accounting db Hi)|..]|split]; try apply Hi.
  - intros j oj (o & Ho & -> & Hs & _)%Hlk. apply Hs.
  - intros aid a Ha. destruct (inv_atts db Hi _ _ Ha) as [(r & Hr & Hrn) ???]. split; try done.
    exists (g (a_outbox_id a) r). split; [by apply Hfw|]. by apply (Hg _ _ Hr).
  - intros i j oi oj n (oi0 & Hi0 & _ & [Ei _ _ _] & Ni)%Hlk (oj0 & Hj0 & _ & [Ej _ _ _] & Nj)%Hlk.
    rewrite (re_chain _ _ Ei), (re_chain _ _ Ej), (re_signer _ _ Ei), (re_signer _ _ Ej), Ni, Nj.
    intros. by eapply (inv_nonce_unique db Hi).
  - intros j oj (o & Ho & _)%Hlk. by eapply (inv_row_ids db Hi).
  - intros i oi p (oi0 & Hi0 & _ & [Ei _ _ _] & _)%Hlk. rewrite (re_retry _ _ Ei). intros Hp.
    destruct (inv_child db Hi _ _ _ Hi0 Hp) as (po & Hpo & Hsp).
    exists (g p po). split; [by apply Hfw|]. by apply (Hg _ _ Hpo).
  - intros i j oi oj p (oi0 & Hi0 & _ & [Ei _ _ _] & _)%Hlk (oj0 & Hj0 & _ & [Ej _ _ _] & _)%Hlk.
    rewrite (re_retry _ _ Ei), (re_retry _ _ Ej). intros. by eapply (inv_child_unique db Hi).
  - intros j o Ho. exists (g j o). split; [by apply Hfw|]. by apply (Hg _ _ Ho).
  - intros. eauto using att_evolves_refl.
  - intros k n Hk. exists n. split; [done|lia].
Qed.

(** ** The other writes *)

Definition step_ok (db db' : DB) : Prop := inv db -> inv db' /\ evolves db db'.

Lemma step_ok_refl db : step_ok db db.
Proof. intros ?. split; [done|reflexivity]. Qed.
Lemma step_ok_trans a b c : step_ok a b -> (inv b -> step_ok b c) -> step_ok a c.
Proof.
  intros H1 H2 Ha. destruct (H1 Ha) as [Hb E1]. destruct (H2 Hb Hb) as [Hc E2].
  split; [done|]. by transitivity b.
Qed.

(** Writes outside the transaction tables. *)
Definition same_tx_tables (db db' : DB) : Prop :=
  tx_outbox db' = tx_outbox db /\ tx_attempts db' = tx_attempts db /\
  tx_nonce_cursors db' = tx_nonce_cursors db /\ next_outbox_id db' = next_outbox_id db /\
  next_attempt_id db' = next_attempt_id db /\ (accounting db -> accounting db').

Lemma same_tx_tables_step db db' : same_tx_tables db db' -> step_ok db db'.
Proof.
  intros (E1 & E2 & E3 & E4 & E5 & Hacc) Hi. split.
  - destruct Hi. split; rewrite ?E1, ?E2, ?E3, ?E4, ?E5; auto.
  - split; rewrite ?E1, ?E2, ?E3; intros; eauto using row_evolves_refl, att_evolves_refl with lia.
Qed.

(** A job write that charges nothing. *)
Lemma accounting_set_job db guid e e' :
  executor_jobs db !! guid = Some e -> e_retry_count e' = e_retry_count e ->
  accounting db -> accounting (set_executor_job db guid e').
Proof.
  intros He Hr [Hfk Hcnt]. split; cbn.
  - intros p Hp. apply Hfk in Hp. destruct (decide (p.1 = guid)) as [->|].
    + rewrite lookup_insert_eq. eauto.
    + by rewrite lookup_insert_ne.
  - intros g e0 [[<- <-]|[_ ?]]%lookup_insert_Some; [|by apply Hcnt].
    rewrite Hr. by apply Hcnt.
Qed.

Lemma row_ok_mono atts atts' curs curs' id o :
  (forall aid, owns atts id aid -> owns atts' id aid) ->
  (no_attempts atts id -> no_attempts atts' id) ->
  (forall k c, curs !! k = Some c ->
     exists c', curs' !! k = Some c' /\ n_next_nonce c <= n_next_nonce c') ->
  row_ok atts curs id o -> row_ok atts' curs' id o.
Proof.
  intros Hown Hno Hcur []. split; auto.
  intros n Hn. destruct (row_cursor0 n Hn) as (? & c & Hc & ?).
  apply Hcur in Hc as (c' & ? & ?). split; [done|]. exists c'. split; [done|lia].
Qed.

Lemma set_cursor_step db k n' :
  0 <= n_next_nonce n' <= maxDBNonce ->
  (n_reconcile_lease_token n' = None <-> n_reconcile_lease_until n' = None) ->
  (forall n, tx_nonce_cursors db !! k = Some n -> n_next_nonce n <= n_next_nonce n') ->
  step_ok db (set_cursor db k n').
Proof.
  intros Hr Hp Hle Hi.
  assert (forall k0 c, tx_nonce_cursors db !! k0 = Some c ->
    exists c', <[k:=n']> (tx_nonce_cursors db) !! k0 = Some c' /\
               n_next_nonce c <= n_next_nonce c') as Hmono.
  { intros k0 c Hc. destruct (decide (k0 = k)) as [->|Hne].
    - rewrite lookup_insert_eq. eauto.
    - rewrite lookup_insert_ne by done. exists c. split; [done|lia]. }
  split; [destruct Hi; split|split]; cbn; eauto using row_evolves_refl, att_evolves_refl.
  - intros id o Ho. eapply row_ok_mono, inv_rows0; eauto.
  - intros k0 n [[<- <-]|[_ ?]]%lookup_insert_Some; eauto.
Qed.

Lemma set_attempt_step db aid a a' :
  tx_attempts db !! aid = Some a -> att_evolves a a' ->
  (inv db -> a_broadcast_count a' <= TxMaxBroadcasts /\
     (a_broadcast_lease_token a' = None <-> a_broadcast_lease_until a' = None)) ->
  step_ok db (set_attempt db aid a').
Proof.
  intros Ha Hev Hinv Hi. destruct (Hinv Hi) as [Hcnt Hl].
  assert (forall j b, <[aid:=a']> (tx_attempts db) !! j = Some b ->
    exists b0, tx_attempts db !! j = Some b0 /\ att_evolves b0 b) as Hlk.
  { intros j b [[<- <-]|[_ ?]]%lookup_insert_Some; eauto using att_evolves_refl. }
  assert (forall j b, tx_attempts db !! j = Some b ->
    exists b', <[aid:=a']> (tx_attempts db) !! j = Some b' /\ att_evolves b b') as Hfw.
  { intros j b Hj. destruct (decide (j = aid)) as [->|Hne].
    - rewrite lookup_insert_eq. assert (b = a) as -> by congruence. eauto.
    - rewrite lookup_insert_ne by done. eauto using att_evolves_refl. }
  split; [split; [exact (inv_accounting db Hi)|..]|split]; cbn;
    eauto using row_evolves_refl; try apply Hi.
  - intros id o Ho. eapply row_ok_mono, inv_rows; eauto with lia.
    + intros j (b & Hb & <-). apply Hfw in Hb as (b' & Hb' & Eb). exists b'. split; [done|apply Eb].
    + intros Hno j (b & Hb & <-). apply Hlk in Hb as (b0 & Hb0 & Eb).
      apply (Hno j). exists b0. split; [done|]. symmetry. apply Eb.
  - intros j b [[<- <-]|[_ Hj]]%lookup_insert_Some; [|by eapply (inv_atts db Hi)].
    destruct (inv_atts db Hi _ _ Ha) as [(o & Ho & Hn) ? ? Hck]. split; try done.
    + exists o. rewrite (ae_outbox _ _ Hev), (ae_nonce _ _ Hev). done.
    + pose proof (ae_count _ _ Hev). lia.
    + unfold attempt_checks in *. destruct Hev. rewrite ae_nonce0, ae_type0, ae_hash0, ae_raw0,
        ae_gas0, ae_fee0, ae_prio0. destruct (a_max_priority_fee_per_gas a); intuition lia.
  - intros i j bi bj (bi0 & Hi0 & Ei)%Hlk (bj0 & Hj0 & Ej)%Hlk Hc.
    eapply (inv_att_unique db Hi); eauto. unfold attempt_conflict in *. destruct Ei, Ej. congruence.
  - intros j b (b0 & Hb0 & _)%Hlk. by eapply (inv_att_ids db Hi).
  - intros k n Hk. exists n. split; [done|lia].
Qed.

(** A row as INSERT INTO tx_outbox writes it: queued, nothing else set. *)
Definition pristine (o : OutboxRow) : Prop :=
  o_status o = TxStatusQueued /\ o_nonce o = None /\ o_active_attempt_id o = None /\
  o_lease_token o = None /\ o_lease_until o = None /\ o_held_reason o = None /\
  o_receipt_outcome o = None /\ o_receipt_attempt_id o = None /\ o_failure_kind o = None.

Lemma new_outbox_row_pristine c p g t d v s n r now : pristine (new_outbox_row c p g t d v s n r now).
Proof. done. Qed.

Lemma fresh_row_lookup db : inv db -> tx_outbox db !! next_outbox_id db = None.
Proof.
  intros Hi. destruct (tx_outbox db !! next_outbox_id db) eqn:E; [|done].
  apply (inv_row_ids db Hi) in E. lia.
Qed.
Lemma fresh_attempt_lookup db : inv db -> tx_attempts db !! next_attempt_id db = None.
Proof.
  intros Hi. destruct (tx_attempts db !! next_attempt_id db) eqn:E; [|done].
  apply (inv_att_ids db Hi) in E. lia.
Qed.
Lemma fresh_row_no_attempts db : inv db -> no_attempts (tx_attempts db) (next_outbox_id db).
Proof.
  intros Hi aid (a & Ha & Hid). destruct (inv_atts db Hi _ _ Ha) as [(o & Ho & _) _ _ _].
  rewrite Hid, fresh_row_lookup in Ho; done.
Qed.

Lemma insert_outbox_step db o :
  pristine o ->
  (forall p, o_retry_of_id o = Some p ->
     (exists po, tx_outbox db !! p = Some po /\ spent po) /\ ~ has_retry_child db p) ->
  step_ok db (insert_outbox db o).1.
Proof.
  intros (Hst & Hno & Hac & Hlt & Hlu & Hhr & Hro & Hra & Hfk) Hpar Hi.
  pose proof (fresh_row_lookup db Hi) as Hfresh.
  assert (forall j oj, tx_outbox db !! j = Some oj -> j <> next_outbox_id db) as Hne by congruence.
  unfold insert_outbox. split; [split; [exact (inv_accounting db Hi)|..]|split]; cbn; try apply Hi.
  - intros j oj [[<- <-]|[_ Hj]]%lookup_insert_Some; [|by eapply inv_rows].
    split; rewrite ?Hst, ?Hno, ?Hac, ?Hlt, ?Hlu, ?Hhr, ?Hro, ?Hra, ?Hfk; try done.
    + intros [?|?]; done.
    + intros [?|[?|[?|[?|?]]]]; done.
    + intros _. by apply fresh_row_no_attempts.
  - intros aid a Ha. destruct (inv_atts db Hi _ _ Ha) as [(r & Hr & Hrn) ???]. split; try done.
    exists r. rewrite lookup_insert_ne; [done|]. intros E. by eapply Hne.
  - intros i j oi oj n [[<- <-]|[_ Hi0]]%lookup_insert_Some [[<- <-]|[_ Hj0]]%lookup_insert_Some;
      try congruence. intros. by eapply (inv_nonce_unique db Hi).
  - intros j oj [[<- <-]|[_ Hj]]%lookup_insert_Some; [lia|]. apply (inv_row_ids db Hi) in Hj. lia.
  - intros j oj p [[<- <-]|[_ Hj]]%lookup_insert_Some Hp.
    + destruct (Hpar p Hp) as [(po & Hpo & Hsp) _]. exists po.
      rewrite lookup_insert_ne; [done|]. intros E. by eapply Hne.
    + destruct (inv_child db Hi _ _ _ Hj Hp) as (po & Hpo & Hsp). exists po.
      rewrite lookup_insert_ne; [done|]. intros E. by eapply Hne.
  - intros i j oi oj p [[<- <-]|[_ Hi0]]%lookup_insert_Some [[<- <-]|[_ Hj0]]%lookup_insert_Some
      Hp Hq; [done|..|by eapply (inv_child_unique db Hi)].
    + destruct (Hpar p Hp) as [_ []]. by exists j, oj.
    + destruct (Hpar p Hq) as [_ []]. by exists i, oi.
  - intros j oj Hj. exists oj. rewrite lookup_insert_ne by (intros E; by eapply Hne).
    eauto using row_evolves_refl.
  - eauto using att_evolves_refl.
  - intros k n Hk. exists n. split; [done|lia].
Qed.

(** An attempt insert and the switch of the active pointer, in one transaction. *)
Lemma activate_step db id o a db1 aid o' :
  tx_outbox db !! id = Some o -> insert_attempt db a = Ok (db1, aid) ->
  a_outbox_id a = id -> o_nonce o = Some (a_nonce a) -> a_broadcast_count a = 0 ->
  a_broadcast_lease_token a = None -> a_broadcast_lease_until a = None ->
  o_status o <> TxStatusFailed -> o_nonce o' = o_nonce o -> row_evolves o o' ->
  (inv db -> owns (<[aid := a]> (tx_attempts db)) id aid ->
   (forall j, owns (tx_attempts db) id j -> owns (<[aid := a]> (tx_attempts db)) id j) ->
   row_ok (<[aid := a]> (tx_attempts db)) (tx_nonce_cursors db) id o') ->
  step_ok db (set_outbox db1 id o').
Proof.
  intros Ho Hins Hid Hnon Hcnt Hl1 Hl2 Hst Hn' Hev Hok Hi.
  unfold insert_attempt in Hins. branches.
  pose proof (fresh_attempt_lookup db Hi) as Hfresh. set (aid := next_attempt_id db) in *.
  assert (forall i j, owns (tx_attempts db) i j -> owns (<[aid := a]> (tx_attempts db)) i j) as Hown.
  { intros i j (b & Hb & Hbi). exists b. split; [|done].
    rewrite lookup_insert_ne; [done|]. congruence. }
  assert (owns (<[aid := a]> (tx_attempts db)) (a_outbox_id a) aid) as Hnew.
  { exists a. by rewrite lookup_insert_eq. }
  specialize (Hok Hi Hnew (Hown _)). clear Hnew.
  assert (forall i, i <> a_outbox_id a -> no_attempts (tx_attempts db) i ->
    no_attempts (<[aid := a]> (tx_attempts db)) i) as Hnone.
  { intros i Hi' Hno j (b & Hb & Hbi). apply lookup_insert_Some in Hb as [[_ <-]|[_ Hb]];
      [congruence|]. apply (Hno j). by exists b. }
  split; [split; [exact (inv_accounting db Hi)|..]|split]; cbn; try apply Hi.
  - intros j oj [[<- <-]|[Hne Hj]]%lookup_insert_Some; [done|].
    eapply row_ok_mono, (inv_rows db Hi); eauto with lia.
  - intros j b [[<- <-]|[_ Hj]]%lookup_insert_Some.
    + split; [exists o'; rewrite lookup_insert_eq; split; congruence| | |done].
      * unfold TxMaxBroadcasts. lia.
      * by rewrite Hl1, Hl2.
    + destruct (inv_atts db Hi _ _ Hj) as [(r & Hr & Hrn) ???]. split; try done.
      destruct (decide (a_outbox_id b = a_outbox_id a)) as [E|Hne].
      * rewrite E, lookup_insert_eq. exists o'. split; congruence.
      * rewrite lookup_insert_ne by done. eauto.
  - intros i j oi oj n [[<- <-]|[? Hi0]]%lookup_insert_Some [[<- <-]|[? Hj0]]%lookup_insert_Some
      Hc Hs; rewrite ?(re_chain _ _ Hev), ?(re_signer _ _ Hev), ?Hn' in *; intros;
      try done; by eapply (inv_nonce_unique db Hi).
  - assert (forall j b, tx_attempts db !! j = Some b -> ~ attempt_conflict a b) as Hcf by
      (intros j b Hb; by apply (m j b Hb)).
    intros i j bi bj [[<- <-]|[? Hi0]]%lookup_insert_Some [[<- <-]|[? Hj0]]%lookup_insert_Some Hc;
      [done|..|by eapply (inv_att_unique db Hi)].
    + by apply Hcf in Hj0.
    + exfalso. apply (Hcf _ _ Hi0). unfold attempt_conflict in *. intuition congruence.
  - intros j oj [[<- <-]|[? Hj]]%lookup_insert_Some; by eapply (inv_row_ids db Hi).
  - intros j b [[<- <-]|[_ Hj]]%lookup_insert_Some; [lia|]. apply (inv_att_ids db Hi) in Hj. lia.
  - intros i oi p Hoi Hp.
    assert (exists oi0, tx_outbox db !! i = Some oi0 /\ o_retry_of_id oi0 = Some p) as (oi0 & ? & ?).
    { apply lookup_insert_Some in Hoi as [[<- <-]|[_ ?]]; [|by exists oi].
      exists o. split; [done|]. by rewrite <- (re_retry _ _ Hev). }
    destruct (inv_child db Hi _ _ _ H H0) as (po & Hpo & Hsp). exists po.
    rewrite lookup_insert_ne; [done|]. intros <-. destruct Hsp. congruence.
  - intros i j oi oj p [[<- <-]|[? Hi0]]%lookup_insert_Some [[<- <-]|[? Hj0]]%lookup_insert_Some;
      rewrite ?(re_retry _ _ Hev); intros; try done; by eapply (inv_child_unique db Hi).
  - intros j oj Hj. destruct (decide (j = a_outbox_id a)) as [->|Hne].
    + rewrite lookup_insert_eq. assert (oj = o) as -> by congruence. eauto.
    + rewrite lookup_insert_ne by done. eauto using row_evolves_refl.
  - intros j b Hb. exists b. rewrite lookup_insert_ne by congruence. eauto using att_evolves_refl.
  - intros k n Hk. exists n. split; [done|lia].
Qed.
