(* ===== verification/StoreSteps.v ===== *)
(** * Every store operation keeps the invariant

    One lemma per operation: [step_ok db (op db).1], the invariant is kept and
    the rows evolve. The operations are those of Outbox, Attempts,
    CancelReconcile and Jobs. *)

From S2P Require Import Prelude Schema SendScope Outbox Attempts CancelReconcile Jobs StoreInv.
From stdpp Require Import base gmap list strings numbers fin_maps relations.
From Stdlib Require Import ZArith Lia.
#[local] Open Scope Z_scope.

Lemma update_outbox_step db id P `{forall o, Decision (P o)} f :
  (forall o, inv db -> tx_outbox db !! id = Some o -> P o -> row_step db id o (f o)) ->
  step_ok db (update_outbox db id P f).1.
Proof.
  intros Hf Hi. unfold update_outbox.
  destruct (tx_outbox db !! id) as [o|] eqn:Ho; [|by apply step_ok_refl].
  case_decide; [|by apply step_ok_refl]. eapply inv_update_row; eauto.
Qed.

Lemma set_outbox_step db id o o' :
  tx_outbox db !! id = Some o -> (inv db -> row_step db id o o') ->
  step_ok db (set_outbox db id o').
Proof. intros Ho Hs Hi. eapply inv_update_row; eauto. Qed.

Lemma failure_kinds_distinct :
  TxFailureEstimateGasRevert <> TxFailureReceiptFailed /\
  TxFailureCanceled <> TxFailureReceiptFailed /\
  TxFailureNonceConsumedExternally <> TxFailureReceiptFailed /\
  TxFailureEstimateGasRevert <> TxFailureNonceConsumedExternally /\
  TxFailureCanceled <> TxFailureNonceConsumedExternally.
Proof. done. Qed.

(** A row waiting for its first signature has no attempt to point at or to pin. *)
Lemma unsigned_unpinned atts curs id o :
  row_ok atts curs id o -> o_status o = TxStatusQueued \/ o_status o = TxStatusNonceAssigned ->
  o_receipt_outcome o = None /\ o_active_attempt_id o = None.
Proof.
  intros Hok Hst. pose proof (row_unsigned _ _ _ _ Hok Hst) as Hno. split.
  - apply (row_receipt _ _ _ _ Hok). destruct (o_receipt_attempt_id o) as [aid|] eqn:E; [|done].
    exfalso. by eapply Hno, row_receipt_fk.
  - destruct (o_active_attempt_id o) as [aid|] eqn:E; [|done].
    exfalso. by eapply Hno, row_active_fk.
Qed.

(** Discharge a [row_step] whose columns are equal, contradictory or guarded. *)
Ltac row_solve :=
  match goal with
  | Hi : inv ?db, Ho : tx_outbox ?db !! ?id = Some ?o |- row_step ?db ?id ?o _ =>
    pose proof (unsigned_unpinned _ _ _ _ (inv_rows db Hi id o Ho));
    destruct (inv_rows db Hi id o Ho);
    pose proof failure_kinds_distinct;
    split; [split|split|first [left; reflexivity|idtac]|]; cbn;
    try reflexivity; try assumption; unfold spent, not_terminal in *; cbn;
    try (intuition congruence); try (intros; intuition congruence)
  end.

Lemma TouchReceiptPoll_step id now db : step_ok db (TouchReceiptPoll id now db).1.
Proof.
  unfold TouchReceiptPoll. case_decide; [apply step_ok_refl|].
  destruct (update_outbox _ _ _ _) eqn:E. cbn.
  change d with (d, z).1. rewrite <- E. apply update_outbox_step. intros. row_solve.
Qed.

Lemma run_tx_step {A} db (body : txbody A) :
  (forall db' r, body = Ok (db', r) -> step_ok db db') -> step_ok db (run_tx db body).1.
Proof. intros H. destruct body as [[db' r]|e]; cbn; [eauto|apply step_ok_refl]. Qed.

Lemma update_outbox_step_eq db id P `{forall o, Decision (P o)} f db' n :
  update_outbox db id P f = (db', n) ->
  (forall o, inv db -> tx_outbox db !! id = Some o -> P o -> row_step db id o (f o)) ->
  step_ok db db'.
Proof. intros E Hf. change db' with (db', n).1. rewrite <- E. by apply update_outbox_step. Qed.

Ltac update_hyp :=
  match goal with
  | H : context [update_outbox ?d ?i ?P ?f] |- _ =>
    lazymatch type of H with
    | update_outbox _ _ _ _ = _ => fail
    | _ => let E := fresh "Eu" in destruct (update_outbox d i P f) eqn:E
    end
  end.

(** Open an operation: one goal per committed branch. *)
Ltac open_op :=
  apply run_tx_step; intros ? ? Hbody;
  unfold commit, commit_err in Hbody; unfold mbind, result_bind in Hbody;
  repeat (first [update_hyp | branch_hyp]; simplify_eq/=);
  try apply step_ok_refl.

Ltac by_update :=
  match goal with
  | E : update_outbox _ _ _ _ = _ |- _ =>
    eapply (update_outbox_step_eq _ _ _ _ _ _ E); intros; row_solve
  end.

Lemma RefreshBroadcastReceiptObservedAt_step id now db :
  step_ok db (RefreshBroadcastReceiptObservedAt id now db).1.
Proof.
  unfold RefreshBroadcastReceiptObservedAt. destruct (update_outbox _ _ _ _) eqn:E. by_update.
Qed.

Lemma MarkTxReceiptCostPriced_step id c now db : step_ok db (MarkTxReceiptCostPriced id c now db).1.
Proof. unfold MarkTxReceiptCostPriced. open_op. by_update. Qed.

Lemma RequestTxReplacement_step id now db : step_ok db (RequestTxReplacement id now db).1.
Proof. unfold RequestTxReplacement. open_op. by_update. Qed.

Lemma DeferReplacement_step id now db : step_ok db (DeferReplacement id now db).1.
Proof. unfold DeferReplacement. open_op. by_update. Qed.

Lemma RequestTxCancel_step id now db : step_ok db (RequestTxCancel id now db).1.
Proof. unfold RequestTxCancel. open_op. by_update. Qed.

Lemma DeferCancel_step id now db : step_ok db (DeferCancel id now db).1.
Proof. unfold DeferCancel. open_op. by_update. Qed.

Lemma MarkQueuedTxEstimateRevertFailed_step id f g now db :
  step_ok db (MarkQueuedTxEstimateRevertFailed id f g now db).1.
Proof.
  unfold MarkQueuedTxEstimateRevertFailed. open_op;
    (eapply set_outbox_step; [eassumption|]; intros; row_solve).
Qed.

Lemma RecordPreSignFailure_step id t now db : step_ok db (RecordPreSignFailure id t now db).1.
Proof.
  unfold RecordPreSignFailure. open_op;
    (eapply set_outbox_step; [eassumption|]; intros; row_solve).
Qed.

Lemma PrepareReceiptResolution_step aid f now db :
  step_ok db (PrepareReceiptResolution aid f now db).1.
Proof.
  unfold PrepareReceiptResolution, receipt_attempt. open_op;
    (eapply set_outbox_step; [eassumption|]; intros; row_solve).
  intros ? [= <-]. eexists. eauto.
Qed.


(** The attempt a row points at carries the row's nonce. *)
Lemma owned_attempt db id o aid :
  inv db -> tx_outbox db !! id = Some o -> owns (tx_attempts db) id aid ->
  exists a, tx_attempts db !! aid = Some a /\ a_outbox_id a = id /\ o_nonce o = Some (a_nonce a).
Proof.
  intros Hi Ho (a & Ha & Hid). exists a. split_and!; [done..|].
  destruct (inv_atts db Hi _ _ Ha) as [(r & Hr & Hn) _ _ _]. congruence.
Qed.

Lemma active_nonce db id o aid :
  inv db -> tx_outbox db !! id = Some o -> o_active_attempt_id o = Some aid -> o_nonce o <> None.
Proof.
  intros Hi Ho Ha. destruct (owned_attempt db id o aid Hi Ho) as (a & _ & _ & ->); [|done].
  by apply (inv_rows db Hi id o Ho).
Qed.

Lemma attempt_then db aid a a' db' :
  tx_attempts db !! aid = Some a -> att_evolves a a' ->
  (inv db -> a_broadcast_count a' <= TxMaxBroadcasts /\
     (a_broadcast_lease_token a' = None <-> a_broadcast_lease_until a' = None)) ->
  (inv (set_attempt db aid a') -> step_ok (set_attempt db aid a') db') ->
  step_ok db db'.
Proof. intros. eapply step_ok_trans; [by eapply set_attempt_step|done]. Qed.

Lemma FinalizeAttemptReceipt_step aid f g now db :
  step_ok db (FinalizeAttemptReceipt aid f g now db).1.
Proof.
  unfold FinalizeAttemptReceipt, receipt_attempt. open_op.
  set (a' := a <| a_state := TxAttemptMined |> <| a_updated_at := now |>).
  apply (attempt_then db aid a a'); [done| | |].
  - constructor; try done; cbn. destruct (a_state a); cbn; auto; right; lia.
  - intros Hi. destruct (inv_atts db Hi _ _ E0). cbn. split; [lia|done].
  - intros Hi. eapply set_outbox_step; [exact E1|]. intros _.
    assert (tx_outbox (set_attempt db aid a') !! a_outbox_id a = Some o) as E1' by done.
    destruct r0; row_solve;
      first [solve [intros ? [= <-]; auto] | intros Hc; by specialize (row_confirmed Hc _ E2)].
Qed.

Lemma MarkAttemptSendResult_step aid t c e now db :
  step_ok db (MarkAttemptSendResult aid t c e now db).1.
Proof.
  unfold MarkAttemptSendResult. apply run_tx_step. intros db' r Hbody.
  case_decide; [|done]. destruct (tx_attempts db !! aid) as [a|] eqn:Ha; [|done].
  case_decide; [|done]. set (st := if decide (_ /\ _) then _ else _) in Hbody.
  set (a' := a <| a_state := st |> <| a_send_error_class := Some c |>
    <| a_send_error := _ |> <| a_broadcast_lease_token := None |>
    <| a_broadcast_lease_until := None |> <| a_updated_at := now |>) in Hbody.
  destruct (mapSendClassToOutbox c) as [status reason] eqn:Ec.
  destruct (update_outbox _ _ _ _) as [db1 n] eqn:Eu. unfold commit in Hbody. simplify_eq.
  apply (attempt_then db aid a a'); [done| | |].
  - constructor; try done; cbn. unfold st. case_decide as Hc; [|by left].
    destruct Hc as [_ Hm]. destruct (a_state a); cbn; auto; try done; right; lia.
  - intros Hi. destruct (inv_atts db Hi _ _ Ha). cbn. split; [lia|done].
  - intros Hi. eapply (update_outbox_step_eq _ _ _ _ _ _ Eu). intros o _ Ho [Hact Hnt].
    pose proof (active_nonce _ _ _ _ Hi Ho Hact).
    destruct c; injection Ec as <- <-; row_solve.
Qed.

(** ** Broadcast claims *)

Lemma active_attempt_Some db id o aid a :
  active_attempt db id o = Some (aid, a) <->
  o_active_attempt_id o = Some aid /\ tx_attempts db !! aid = Some a /\ a_outbox_id a = id.
Proof.
  unfold active_attempt. destruct (o_active_attempt_id o) as [x|]; cbn.
  2:{ split; [done|]. by intros [? _]. }
  destruct (tx_attempts db !! x) as [b|] eqn:E; cbn.
  - case_decide; split; try done.
    + intros [= <- <-]. done.
    + intros ([= <-] & Hb & _). congruence.
    + intros ([= <-] & Hb & ?). congruence.
  - split; [done|]. intros ([= <-] & ? & _). congruence.
Qed.

Lemma park_exhausted_step db c s now : step_ok db (park_exhausted db c s now).1.
Proof.
  intros Hi. apply inv_update_all; [done|]. intros id o Ho.
  case_decide as Hex; [|split; [|done]; split; eauto using row_evolves_refl, inv_rows].
  destruct Hex as (_ & Hs & Hh & Hact). cbn in Hs, Hh, Hact.
  split; [|done]. unfold park_row. row_solve.
Qed.

Lemma ClaimAttemptForBroadcast_step c s t ttl now db :
  step_ok db (ClaimAttemptForBroadcast c s t ttl now db).1.
Proof.
  unfold ClaimAttemptForBroadcast. apply run_tx_step. intros db' r Hbody.
  case_decide; [|done]. destruct (park_exhausted db c s now) as [db1 parked] eqn:Ep.
  apply (step_ok_trans _ db1).
  { change db1 with (db1, parked).1. rewrite <- Ep. apply park_exhausted_step. }
  intros Hi1. destruct (order_by _ _) as [[id o]|] eqn:Eo.
  2:{ unfold commit_err in Hbody. simplify_eq. apply step_ok_refl. }
  apply order_by_elem, elem_of_select_outbox in Eo as [Ho Hb].
  destruct (active_attempt db1 id o) as [[aid a]|] eqn:Ea; [|done].
  unfold commit in Hbody. simplify_eq.
  unfold broadcastable in Hb. cbn in Hb. rewrite Ea in Hb.
  destruct Hb as (_ & _ & _ & _ & _ & Hst & Hcnt & _).
  apply active_attempt_Some in Ea as (_ & Ha & _).
  eapply set_attempt_step; [done| |].
  - constructor; try done; cbn; [|lia]. case_decide as Hs; [right; rewrite Hs; cbn; lia|by left].
  - intros _. cbn. split; [lia|done].
Qed.

(** ** Signing claims *)

Lemma claimCursorNonce_spec db c s now db1 n :
  claimCursorNonce db c s now = Ok (db1, n) ->
  exists k, tx_nonce_cursors db !! (c, s) = Some k /\ n_next_nonce k = n /\
    0 <= n < maxDBNonce /\
    db1 = set_cursor db (c, s) (k <| n_next_nonce := n + 1 |> <| n_updated_at := now |>).
Proof.
  unfold claimCursorNonce. intros H. branches. eexists. split_and!; try done; lia.
Qed.

Lemma claimCursorNonce_step db c s now db1 n :
  claimCursorNonce db c s now = Ok (db1, n) -> step_ok db db1.
Proof.
  intros (k & Hk & Hn & Hr & ->)%claimCursorNonce_spec Hi.
  apply set_cursor_step; cbn; [lia|by apply (inv_cursors db Hi _ _ Hk)| |done].
  intros k' Hk'. assert (k' = k) as -> by congruence. lia.
Qed.

(** The nonce a cursor hands out is above every nonce of the lane. *)
Lemma cursor_nonce_fresh db c s k j oj n :
  inv db -> tx_nonce_cursors db !! (c, s) = Some k -> n_next_nonce k <= n ->
  tx_outbox db !! j = Some oj -> o_chain_eid oj = c -> o_signer_id oj = s -> o_nonce oj <> Some n.
Proof.
  intros Hi Hk Hle Hj <- <- Hn.
  destruct (row_cursor _ _ _ _ (inv_rows db Hi _ _ Hj) _ Hn) as (_ & k' & Hk' & ?).
  assert (k' = k) as -> by congruence. lia.
Qed.

(** Handing the cursor's nonce to a queued row. *)
Lemma fresh_nonce_step db id o now db1 n :
  tx_outbox db !! id = Some o -> o_status o = TxStatusQueued -> o_nonce o = None ->
  claimCursorNonce db (o_chain_eid o) (o_signer_id o) now = Ok (db1, n) ->
  step_ok db (set_outbox db1 id (o <| o_nonce := Some n |> <| o_status := TxStatusNonceAssigned |>
                                   <| o_updated_at := now |>)).
Proof.
  intros Ho Hst Hn Ec Hi.
  destruct (claimCursorNonce_step _ _ _ _ _ _ Ec Hi) as [Hi1 Ev1].
  destruct (claimCursorNonce_spec _ _ _ _ _ _ Ec) as (k & Hk & Hkn & Hr & Edb).
  assert (tx_outbox db1 !! id = Some o) as Ho1 by (by subst db1).
  destruct (inv_update_row db1 id o (o <| o_nonce := Some n |>
    <| o_status := TxStatusNonceAssigned |> <| o_updated_at := now |>) Hi1 Ho1) as [Hi2 Ev2];
    [|split; [done|by transitivity db1]].
  row_solve.
  - intros m [= <-]. split; [lia|]. rewrite Edb. cbn. rewrite lookup_insert_eq.
    eexists. split; [done|]. cbn. lia.
  - right. exists n. split; [done|]. rewrite Edb. cbn. intros j oj Hj Hc Hs.
    apply (cursor_nonce_fresh db _ _ k j oj n Hi Hk); [lia|done..].
Qed.

Lemma claim_nonce_step db id o c s now db1 o1 :
  tx_outbox db !! id = Some o -> lane c s o -> o_receipt_outcome o = None ->
  claim_nonce db id o c s now = Ok (db1, o1) ->
  step_ok db db1 /\ tx_outbox db1 !! id = Some o1 /\ o_nonce o1 <> None /\
  o_status o1 = TxStatusNonceAssigned.
Proof.
  intros Ho [Hc Hs] Hro H. unfold claim_nonce, mbind, result_bind in H.
  destruct (o_status o) eqn:Hst; try done; destruct (o_nonce o) as [n|] eqn:Hn; try done.
  - branches. split_and!; [|by apply lookup_insert_eq|by rewrite Hn|done].
    eapply set_outbox_step; [done|]. intros Hi. row_solve.
  - destruct (lockTxSendScope _ _ _ _); [|done]. case_decide; [|done].
    destruct (claimCursorNonce db c s now) as [[db2 n]|] eqn:Ec; [|done]. simplify_eq.
    split_and!; [|by apply lookup_insert_eq|done|done]. by eapply fresh_nonce_step.
  - branches. split_and!; [apply step_ok_refl|done|congruence|done].
Qed.

Lemma lease_row_step db id o t ttl now :
  tx_outbox db !! id = Some o -> (inv db -> o_nonce o <> None) ->
  step_ok db (set_outbox db id (lease_row o t ttl now)).
Proof.
  intros Ho Hn. eapply set_outbox_step; [done|]. intros Hi. specialize (Hn Hi).
  unfold lease_row. row_solve.
Qed.

Lemma ClaimOutboxForSigning_step id c s t ttl now db :
  step_ok db (ClaimOutboxForSigning id c s t ttl now db).1.
Proof.
  unfold ClaimOutboxForSigning. apply run_tx_step. intros db' r Hbody.
  case_decide; [|done]. destruct (tx_outbox db !! id) as [o|] eqn:Ho; [|done].
  case_decide as Hg; [|done]. destruct Hg as (Hl & _ & _ & Hro).
  unfold mbind, result_bind in Hbody.
  destruct (claim_nonce db id o c s now) as [[db1 o1]|] eqn:Ec; [|done]. simplify_eq.
  destruct (claim_nonce_step _ _ _ _ _ _ _ _ Ho Hl Hro Ec) as (Hs & Ho1 & Hn & _).
  eapply step_ok_trans; [exact Hs|]. intros _. by apply lease_row_step.
Qed.

Lemma ClaimOutboxForReplacementSigning_step id e t ttl now db :
  step_ok db (ClaimOutboxForReplacementSigning id e t ttl now db).1.
Proof.
  unfold ClaimOutboxForReplacementSigning. open_op. apply lease_row_step; [done|].
  intros Hi. by eapply active_nonce.
Qed.

Lemma ClaimOutboxForCancelSigning_step id e t ttl now db :
  step_ok db (ClaimOutboxForCancelSigning id e t ttl now db).1.
Proof. unfold ClaimOutboxForCancelSigning. open_op. apply lease_row_step; tauto. Qed.

(** ** Attempt inserts *)

Lemma with_new_attempt_step db id a k :
  (forall maxFee db' r, k maxFee = Ok (db', r) -> step_ok db db') ->
  forall db' r, with_new_attempt db id a k = Ok (db', r) -> step_ok db db'.
Proof.
  intros Hk db' r. unfold with_new_attempt. case_decide; [|done].
  destruct (s_MaxFeePerGas a) as [m|]; [|done]. case_decide; [|done].
  destruct (scanAttemptByHash db (s_TxHash a)); [|apply Hk].
  case_decide; [|done]. intros. simplify_eq. apply step_ok_refl.
Qed.

Lemma leased_row_Ok db id t now o :
  leased_row db id t now = Ok o ->
  tx_outbox db !! id = Some o /\ o_lease_token o = Some t /\ opt_gt (o_lease_until o) now.
Proof. unfold leased_row. intros H. branches. done. Qed.

Lemma nonce_matches_attempt db id o a maxFee now :
  inv db -> tx_outbox db !! id = Some o -> nonce_matches o a ->
  o_nonce o = Some (a_nonce (attempt_row id a maxFee now)).
Proof.
  intros Hi Ho Hm. unfold nonce_matches in Hm. destruct (o_nonce o) as [n|] eqn:Hn; [|done].
  destruct Hm as [Hp Hs]. cbn. unfold int64_of_uint64.
  destruct (row_cursor _ _ _ _ (inv_rows db Hi _ _ Ho) _ Hn) as (_ & c & Hc & Hlt).
  destruct (inv_cursors db Hi _ _ Hc) as [[_ Hmax] _]. unfold maxDBNonce in Hmax.
  rewrite decide_True by lia. by subst.
Qed.

Lemma insert_activate_step db id o a maxFee now db1 aid o' :
  tx_outbox db !! id = Some o -> nonce_matches o a ->
  insert_attempt db (attempt_row id a maxFee now) = Ok (db1, aid) ->
  o_status o <> TxStatusFailed -> o_nonce o' = o_nonce o -> row_evolves o o' ->
  (inv db -> forall atts', owns atts' id aid ->
   (forall j, owns (tx_attempts db) id j -> owns atts' id j) ->
   row_ok atts' (tx_nonce_cursors db) id o') ->
  step_ok db (set_outbox db1 id o').
Proof.
  intros Ho Hm Hins Hst Hn Hev Hok Hi.
  pose proof (nonce_matches_attempt db id o a maxFee now Hi Ho Hm).
  eapply (activate_step db id o); eauto.
Qed.

Lemma nonce_matches_nonce o a : nonce_matches o a -> o_nonce o <> None.
Proof. unfold nonce_matches. by destruct (o_nonce o). Qed.

(** Discharge the [row_ok] of an activated row. *)
Ltac activate_solve :=
  match goal with
  | Ho : tx_outbox ?db !! ?id = Some ?o, Hm : nonce_matches ?o _ |- _ =>
    pose proof (nonce_matches_nonce _ _ Hm);
    eapply insert_activate_step; [exact Ho|eassumption|eassumption|..];
    [ | |split| intros Hi atts' Hnew Hmono; destruct (inv_rows db Hi id o Ho); split];
    cbn; try reflexivity; try assumption; try (intuition congruence);
    try (intros; intuition congruence); try (intros ? [= <-]; assumption);
    try (intros;
      match goal with H : forall j, owns _ _ j -> owns _ _ j |- _ => apply H end; eauto; fail)
  end.

Lemma InsertSignedAttempt_step id t a now db : step_ok db (InsertSignedAttempt id t a now db).1.
Proof.
  unfold InsertSignedAttempt. apply run_tx_step. intros db' r. case_decide; [|done].
  apply with_new_attempt_step. clear db' r. intros maxFee db' r Hb. unfold mbind, result_bind in Hb.
  destruct (leased_row db id t now) as [o|] eqn:El; [|done].
  apply leased_row_Ok in El as (Ho & _). case_decide as Hst; [|done]. case_decide; [|done].
  destruct (insert_attempt db _) as [[db1 aid]|] eqn:Ei; [|done]. unfold commit in Hb. simplify_eq.
  activate_solve.
Qed.

Lemma InsertReplacementAttempt_step id e t a now db :
  step_ok db (InsertReplacementAttempt id e t a now db).1.
Proof.
  unfold InsertReplacementAttempt. apply run_tx_step. intros db' r.
  case_decide; [|done]. case_decide; [|done].
  apply with_new_attempt_step. clear db' r. intros maxFee db' r Hb. unfold mbind, result_bind in Hb.
  destruct (leased_row db id t now) as [o|] eqn:El; [|done].
  apply leased_row_Ok in El as (Ho & _). case_decide as Hro; [|done].
  case_decide as Hact; [|done]. case_decide as Hcl; [|done]. do 2 (case_decide; [|done]).
  destruct (insert_attempt db _) as [[db1 aid]|] eqn:Ei; [|done]. unfold commit in Hb. simplify_eq.
  set (st := if decide (_ = _) then _ else _).
  assert (st = TxStatusSigned \/ st = TxStatusBroadcast) as Hst'
    by (unfold st; destruct (o_status o); try done; auto).
  assert (o_status o <> TxStatusFailed /\ o_status o <> TxStatusConfirmed) as [? ?]
    by (by destruct (o_status o)).
  clearbody st. activate_solve.
Qed.

Lemma cancelable_status o :
  cancelable o -> not_terminal o /\
  (o_status o ∉ [TxStatusQueued; TxStatusNonceAssigned; TxStatusHeld] ->
   o_status o = TxStatusSigned \/ o_status o = TxStatusBroadcast).
Proof.
  intros [Hc _]. unfold txCancelableStatuses, not_terminal in *.
  rewrite !elem_of_cons, elem_of_nil in *. intuition congruence.
Qed.

Lemma InsertCancelAttempt_step id e t a now db :
  step_ok db (InsertCancelAttempt id e t a now db).1.
Proof.
  unfold InsertCancelAttempt. apply run_tx_step. intros db' r.
  case_decide; [|done]. case_decide; [|done].
  apply with_new_attempt_step. clear db' r. intros maxFee db' r Hb. unfold mbind, result_bind in Hb.
  destruct (leased_row db id t now) as [o|] eqn:El; [|done].
  apply leased_row_Ok in El as (Ho & _). case_decide as Hro; [|done].
  case_decide as Hact; [|done]. case_decide as Hcl; [|done]. case_decide; [|done].
  destruct (insert_attempt db _) as [[db1 aid]|] eqn:Ei; [|done]. unfold commit in Hb. simplify_eq.
  destruct (cancelable_status o Hcl) as [Hnt Hsig].
  set (st := if decide (_ ∈ _) then _ else _).
  assert (st = TxStatusSigned \/ st = TxStatusBroadcast) as Hst'
    by (unfold st; case_decide; auto). destruct Hnt.
  clearbody st. activate_solve.
Qed.

(** ** Enqueueing *)

#[export] Instance same_tx_tables_trans : Transitive same_tx_tables.
Proof.
  unfold same_tx_tables. intros a b c (?&?&?&?&?&?) (?&?&?&?&?&?).
  split_and!; try congruence. auto.
Qed.

Lemma set_executor_job_same db guid e e' :
  executor_jobs db !! guid = Some e -> e_retry_count e' = e_retry_count e ->
  same_tx_tables db (set_executor_job db guid e').
Proof. intros He Hr. split_and!; try done. by apply accounting_set_job with e. Qed.

Lemma insert_new_step db o db' id :
  pristine o -> o_retry_of_id o = None -> insert_outbox db o = (db', id) -> step_ok db db'.
Proof.
  intros Hp Hr E. change db' with (db', id).1. rewrite <- E.
  apply insert_outbox_step; [done|]. intros p Hp'. congruence.
Qed.

Lemma EnqueueTx_step r now db : step_ok db (EnqueueTx r now db).1.
Proof.
  unfold EnqueueTx. open_op. eapply insert_new_step; [| |reflexivity]; [apply new_outbox_row_pristine|done].
Qed.

Lemma EnqueuePricingSnapshotTx_step r now db : step_ok db (EnqueuePricingSnapshotTx r now db).1.
Proof.
  unfold EnqueuePricingSnapshotTx. open_op.
  eapply insert_new_step; [| |reflexivity]; [apply new_outbox_row_pristine|done].
Qed.

Lemma enqueue_frame db o db' :
  pristine o -> o_retry_of_id o = None -> same_tx_tables (insert_outbox db o).1 db' -> step_ok db db'.
Proof.
  intros Hp Hr Hs. destruct (insert_outbox db o) as [db1 id] eqn:E.
  eapply step_ok_trans; [by eapply insert_new_step|]. intros _. by apply same_tx_tables_step.
Qed.

(** An enqueue: the inserted row, then writes to other tables. *)
Ltac by_enqueue :=
  match goal with
  | |- context [request_row ?r ?g ?v ?n] =>
    apply (enqueue_frame _ (request_row r g v n)); [apply new_outbox_row_pristine|done|]
  end.

Lemma set_packet_status_same db g s now : same_tx_tables db (set_packet_status db g s now).
Proof. unfold set_packet_status. by destruct (packets db !! g). Qed.

Lemma EnqueueExecutorTx_step g e n r now db : step_ok db (EnqueueExecutorTx g e n r now db).1.
Proof.
  unfold EnqueueExecutorTx, request_guid, request_value. open_op; by_enqueue;
    (etransitivity; [|apply set_packet_status_same]); (eapply set_executor_job_same; [eassumption|done]).
Qed.

Lemma EnqueueDVNVerifyTx_step g e n r q now db : step_ok db (EnqueueDVNVerifyTx g e n r q now db).1.
Proof. unfold EnqueueDVNVerifyTx, request_guid, request_value. open_op; by_enqueue; done. Qed.

(** ** Retries *)

Lemma deferFailedTxRetry_step db id now : step_ok db (deferFailedTxRetry db id now).
Proof. apply update_outbox_step. intros. row_solve. Qed.

Lemma gate_retry_step {A} db id o e now (k : txbody A) db' r :
  gate_retry db id o e now k = Ok (db', r) -> (k = Ok (db', r) -> step_ok db db') -> step_ok db db'.
Proof.
  unfold gate_retry. intros H Hk. destruct (lockTxSendScope _ _ _ _) as [|err]; [by apply Hk|].
  destruct err; try done. unfold commit_err in H. simplify_eq. apply deferFailedTxRetry_step.
Qed.

Lemma requeue_in_place_step db id o now db' r :
  tx_outbox db !! id = Some o -> o_failure_kind o <> Some TxFailureNonceConsumedExternally ->
  requeue_in_place db id now = Ok (db', r) -> step_ok db db'.
Proof.
  intros Ho Hk. unfold requeue_in_place, requeueFailedTx, mbind, result_bind.
  destruct (update_outbox _ _ _ _) as [db1 n] eqn:Eu. case_decide; [|done].
  unfold commit. intros. simplify_eq.
  eapply (update_outbox_step_eq _ _ _ _ _ _ Eu). intros o' Hi Ho' [Hst Hro].
  assert (o' = o) as -> by congruence. row_solve.
Qed.

Lemma finalizeFailedRow_step db id o now :
  tx_outbox db !! id = Some o -> o_failure_kind o = Some TxFailureReceiptFailed ->
  step_ok db (finalizeFailedRow db id now).
Proof.
  intros Ho Hk. apply update_outbox_step. intros o' Hi Ho' Hst.
  assert (o' = o) as -> by congruence. row_solve.
Qed.

Lemma update_executor_status_same db g t f e now :
  same_tx_tables db (update_executor_status db g t f e now).1.
Proof.
  unfold update_executor_status. destruct (executor_jobs db !! g) eqn:E; [|done].
  case_decide; [|done]. by eapply set_executor_job_same.
Qed.
Lemma update_packet_status_same db g t f now :
  same_tx_tables db (update_packet_status db g t f now).1.
Proof. unfold update_packet_status. destruct (packets db !! g); [|done]. by case_decide. Qed.
Lemma update_dvn_status_same db g t f e now :
  same_tx_tables db (update_dvn_status db g t f e now).1.
Proof. unfold update_dvn_status. destruct (dvn_jobs db !! g); [|done]. by case_decide. Qed.

Lemma job_packet_same db g t f e t' f' now :
  same_tx_tables db (update_packet_status (update_executor_status db g t f e now).1 g t' f' now).1.
Proof.
  etransitivity; [apply update_executor_status_same|apply update_packet_status_same].
Qed.

Lemma prepareReceiptRetryWorkflow_step db id o c p g now db' b :
  tx_outbox db !! id = Some o -> o_failure_kind o = Some TxFailureReceiptFailed ->
  prepareReceiptRetryWorkflow db id c p g now = Ok (db', b) ->
  step_ok db db' /\ (b = true -> tx_outbox db' = tx_outbox db).
Proof.
  intros Ho Hk. unfold prepareReceiptRetryWorkflow.
  destruct g as [g|]; [|intros; simplify_eq; auto using step_ok_refl].
  case_decide; [intros; simplify_eq; auto using step_ok_refl|]. case_decide; [|done].
  destruct (executor_jobs db !! g) as [j|]; [|done].
  case_decide; [intros; simplify_eq; split; [by eapply finalizeFailedRow_step|done]|].
  case_decide; [|done]. case_decide.
  - pose proof (job_packet_same db g ExecutorManualReview ExecutorLzReceiveFailed
      (Some (retry_budget_message (e_retry_count j))) ExecutorManualReview
      ExecutorLzReceiveFailed now) as Hsame.
    destruct (update_executor_status _ _ _ _ _ _) as [db1 n1]. cbn in Hsame.
    destruct (update_packet_status _ _ _ _ _) as [db2 n2]. cbn in Hsame. intros. simplify_eq. split; [|done].
    eapply step_ok_trans; [by apply same_tx_tables_step|]. intros _.
    eapply finalizeFailedRow_step; [|done]. destruct Hsame as [-> _]. done.
  - destruct (lockTxSendScope _ _ _ _) as [|e].
    + pose proof (job_packet_same db g ExecutorLzReceiveTxEnqueued ExecutorLzReceiveFailed
        None ExecutorLzReceiveTxEnqueued ExecutorLzReceiveFailed now) as Hsame.
      destruct (update_executor_status _ _ _ _ _ _) as [db1 n1]. cbn in Hsame.
      case_decide; [|done].
      destruct (update_packet_status _ _ _ _ _) as [db2 n2]. cbn in Hsame. intros. simplify_eq.
      split; [by apply same_tx_tables_step|]. intros _. apply Hsame.
    + destruct e; try done. intros. simplify_eq. split; [by eapply finalizeFailedRow_step|done].
Qed.

Lemma cloneFailedTxRetry_step db id o now db' r :
  tx_outbox db !! id = Some o -> (inv db -> spent o) ->
  cloneFailedTxRetry db id now = Ok (db', r) -> step_ok db db'.
Proof.
  intros Ho Hsp. unfold cloneFailedTxRetry. rewrite Ho. case_decide as Hc; [|done].
  destruct Hc as (_ & _ & Hno).
  destruct (insert_outbox db _) as [db1 rid] eqn:Ei.
  destruct (update_outbox db1 _ _ _) as [db2 n] eqn:Eu. intros. simplify_eq.
  intros Hi. revert Hi. intros Hi0. specialize (Hsp Hi0). revert Hi0.
  eapply (step_ok_trans _ db1).
  - change db1 with (db1, r).1. rewrite <- Ei. apply insert_outbox_step; [done|].
    intros p [= <-]. eauto.
  - intros _. by_update.
Qed.

Lemma prepare_and_clone_step db id o now db' r :
  tx_outbox db !! id = Some o -> o_status o = TxStatusFailed ->
  o_failure_kind o = Some TxFailureReceiptFailed ->
  prepare_and_clone db id o now = Ok (db', r) -> step_ok db db'.
Proof.
  intros Ho Hst Hk. unfold prepare_and_clone, mbind, result_bind.
  destruct (prepareReceiptRetryWorkflow _ _ _ _ _ _) as [[db1 b]|] eqn:Ep; [|done].
  destruct (prepareReceiptRetryWorkflow_step _ _ _ _ _ _ _ _ _ Ho Hk Ep) as [Hs Hsame].
  destruct b; cbn [negb].
  - destruct (cloneFailedTxRetry db1 id now) as [[db2 rid]|] eqn:Ec; [|done].
    unfold commit. intros. simplify_eq. eapply step_ok_trans; [exact Hs|]. intros Hi1.
    assert (tx_outbox db1 !! id = Some o) as Ho1 by (by rewrite Hsame).
    eapply cloneFailedTxRetry_step; [exact Ho1| |exact Ec]. intros Hi. split; [done|]. left.
    by apply (row_receipt_failed _ _ _ _ (inv_rows db1 Hi _ _ Ho1)).
  - unfold commit_err. intros. simplify_eq. done.
Qed.

Lemma default_kind o k : k <> ""%string -> default ""%string (o_failure_kind o) = k ->
  o_failure_kind o = Some k.
Proof. destruct (o_failure_kind o); cbn; congruence. Qed.

Lemma RetryFailedTx_step id now db : step_ok db (RetryFailedTx id now db).1.
Proof.
  unfold RetryFailedTx. apply run_tx_step. intros db' r Hb.
  destruct (tx_outbox db !! id) as [o|] eqn:Ho; [|done].
  destruct (decide (o_status o = TxStatusFailed)) as [Hst|]; [|done]. cbv zeta in Hb.
  destruct (decide (~ (_ \/ _))) as [Hk|]; [|done].
  do 3 (destruct (decide (~ (_ /\ _))); [|done]).
  destruct (decide (_ \/ _)) as [Hin|Hin].
  - eapply gate_retry_step; [exact Hb|]. apply requeue_in_place_step with o; [done|].
    intros Hx. apply Hk. right. by rewrite Hx.
  - destruct (decide (0 <= _)); [|done].
    assert (o_failure_kind o = Some TxFailureReceiptFailed) as Hrf.
    { apply default_kind; [done|]. destruct (decide (default ""%string (o_failure_kind o) =
        TxFailureReceiptFailed)); [done|]. exfalso. auto. }
    destruct (decide (_ <> _)).
    + eapply gate_retry_step; [exact Hb|]. by apply prepare_and_clone_step.
    + by eapply prepare_and_clone_step.
Qed.

Lemma PrepareNextFailedTxRetry_step c s now db : step_ok db (PrepareNextFailedTxRetry c s now db).1.
Proof.
  unfold PrepareNextFailedTxRetry. apply run_tx_step. intros db' r Hb.
  case_decide; [|done]. case_decide; [|done].
  destruct (order_by _ _) as [[id o]|] eqn:Eo; [|done].
  apply order_by_elem, elem_of_select_outbox in Eo as [Ho Hd].
  destruct Hd as (_ & Hst & _ & _ & Hk & _). cbn in Hst, Hk.
  case_decide.
  - eapply gate_retry_step; [exact Hb|]. apply requeue_in_place_step with o; [done|].
    destruct Hk as [-> | ->]; done.
  - case_decide; [|done]. case_decide.
    + eapply gate_retry_step; [exact Hb|]. by apply prepare_and_clone_step.
    + by eapply prepare_and_clone_step.
Qed.

(** ** Cursors and reconciliation *)

Lemma max_nonce_ge l m n : max_nonce l = Some m -> n ∈ l -> n <= m.
Proof.
  destruct l as [|x l]; [done|]. cbn. intros [= <-].
  rewrite elem_of_cons. induction l as [|y l IH]; cbn; rewrite ?elem_of_nil, ?elem_of_cons in *;
    intros; intuition lia.
Qed.

Lemma localNextNonce_above db c s m id o n :
  localNextNonce db c s = Ok m -> tx_outbox db !! id = Some o -> lane c s o ->
  o_nonce o = Some n -> n < m.
Proof.
  unfold localNextNonce. intros H Ho Hl Hn.
  assert (n ∈ lane_nonces db c s) as Hin.
  { apply list_elem_of_omap. exists (id, o). split; [by apply elem_of_select_outbox|done]. }
  destruct (max_nonce (lane_nonces db c s)) as [mx|] eqn:E.
  - pose proof (max_nonce_ge _ _ _ E Hin). branches. lia.
  - destruct (lane_nonces db c s); [by apply elem_of_nil in Hin|done].
Qed.

Lemma localNextNonce_range db c s m : localNextNonce db c s = Ok m -> 0 <= m <= maxDBNonce.
Proof.
  unfold localNextNonce. intros H. branches; [lia|]. unfold maxDBNonce. lia.
Qed.

Lemma BootstrapTxNonceCursor_step c s n now db :
  step_ok db (BootstrapTxNonceCursor c s n now db).1.
Proof.
  unfold BootstrapTxNonceCursor. open_op. pose proof (localNextNonce_range _ _ _ _ E).
  apply set_cursor_step; cbn; [lia|done|]. intros k Hk. congruence.
Qed.

Lemma ClaimNonceReconciliation_step c s t ttl snap now db :
  step_ok db (ClaimNonceReconciliation c s t ttl snap now db).1.
Proof.
  unfold ClaimNonceReconciliation. open_op. intros Hi.
  apply set_cursor_step; cbn; [by apply (inv_cursors db Hi _ _ E0)|done| |done].
  intros k Hk. rewrite E0 in Hk. injection Hk as <-. lia.
Qed.

Lemma ExtendNonceReconciliation_step c s t ttl now db :
  step_ok db (ExtendNonceReconciliation c s t ttl now db).1.
Proof.
  unfold ExtendNonceReconciliation. open_op. intros Hi.
  destruct (inv_cursors db Hi _ _ E) as [? ?].
  apply set_cursor_step; cbn; [done| | |done].
  - destruct h as [-> _]. done.
  - intros k Hk. rewrite E in Hk. injection Hk as <-. lia.
Qed.

Lemma FinishNonceReconciliation_step c s t b now db :
  step_ok db (FinishNonceReconciliation c s t b now db).1.
Proof.
  unfold FinishNonceReconciliation.
  destruct (tx_nonce_cursors db !! (c, s)) as [n|] eqn:E; [|apply step_ok_refl].
  case_decide; [|apply step_ok_refl]. intros Hi.
  apply set_cursor_step; cbn; [by apply (inv_cursors db Hi _ _ E)|done| |done].
  intros k Hk. assert (k = n) as -> by congruence. lia.
Qed.

Lemma apply_decision_step db d ev now : step_ok db (apply_decision db d ev now).1.
Proof.
  unfold apply_decision. destruct (d_Action d).
  - destruct (_ ≫= _) as [a|] eqn:E; [|apply step_ok_refl].
    destruct (tx_outbox db !! d_ID d) as [o|] eqn:Ho; [|done]. cbn in E.
    destruct (o_active_attempt_id o) as [aid|] eqn:Hact; [|done]. cbn in E.
    apply update_outbox_step. intros o' Hi Ho' (Hst & Hh & Hro).
    assert (o' = o) as -> by congruence. pose proof (active_nonce _ _ _ _ Hi Ho Hact).
    unfold release_hold. case_decide; row_solve.
  - apply update_outbox_step. intros o' Hi Ho' (Hst & Hh & Hro). row_solve.
Qed.

Lemma apply_decisions_step db ds ev now n : step_ok db (apply_decisions db ds ev now n).1.
Proof.
  revert db n. induction ds as [|d ds IH]; intros db n; cbn; [apply step_ok_refl|].
  pose proof (apply_decision_step db d ev now) as Hd.
  destruct (apply_decision db d ev now) as [db1 k]. eapply step_ok_trans; [exact Hd|]. intros _. apply IH.
Qed.

Lemma ApplyNonceReconciliation_step c s t cn cb b ds obs now db :
  step_ok db (ApplyNonceReconciliation c s t cn cb b ds obs now db).1.
Proof.
  unfold ApplyNonceReconciliation. apply run_tx_step. intros db' r Hb.
  do 2 (case_decide; [|done]). destruct (tx_nonce_cursors db !! (c, s)) as [n|] eqn:E; [|done].
  do 2 (case_decide; [|done]).
  set (next := if bool_decide _ then _ else _) in Hb.
  assert (n_next_nonce n <= next /\ next <= Z.max (n_next_nonce n) cn) as [Hge Hle].
  { unfold next. case_bool_decide; lia. }
  destruct (apply_decisions _ _ _ _ _) as [db1 k] eqn:Ea. unfold commit in Hb. simplify_eq.
  intros Hi. destruct (inv_cursors db Hi _ _ E) as [? _]. revert Hi.
  eapply step_ok_trans.
  - apply set_cursor_step with (k := (c, s))
      (n' := (release_reconcile n b now) <| n_next_nonce := next |>); cbn; [lia|done|].
    intros n' Hn'. assert (n' = n) as -> by congruence. done.
  - intros _. change db' with (db', k).1. rewrite <- Ea. apply apply_decisions_step.
Qed.

(** ** Operator resolutions *)

Lemma terminalizeExternallyConsumed_spec db id now db1 :
  terminalizeExternallyConsumed db id now = Ok db1 ->
  exists o o1, tx_outbox db !! id = Some o /\ o_status o = TxStatusHeld /\
    db1 = set_outbox db id o1 /\ o_retry_of_id o1 = o_retry_of_id o /\ spent o1 /\
    (inv db -> row_step db id o o1).
Proof.
  unfold terminalizeExternallyConsumed, update_outbox.
  destruct (tx_outbox db !! id) as [o|] eqn:Ho; [|done].
  case_decide as Hp; [|done]. rewrite decide_True by done. intros [= <-].
  destruct Hp as (Hst & Hh & Hro). eexists o, _. split_and!; [done..| |].
  - split; [done|by right].
  - intros Hi. row_solve.
Qed.

Lemma ResolveExternalNonceRetry_step id now db : step_ok db (ResolveExternalNonceRetry id now db).1.
Proof.
  unfold ResolveExternalNonceRetry. apply run_tx_step. intros db' r Hb.
  case_decide; [|done]. destruct (tx_outbox db !! id) as [o|] eqn:Ho; [|done].
  case_decide; [|done]. unfold mbind, result_bind in Hb.
  destruct (lockTxSendScope _ _ _ _); [|done].
  set (w := match hash_guid (o_guid o) with
            | Some g => requireWorkflowEnqueuedInTx db (o_purpose o) g | None => Ok tt end) in Hb.
  destruct w; [|done].
  destruct (terminalizeExternallyConsumed db id now) as [db1|] eqn:Et; [|done].
  destruct (insert_outbox db1 _) as [db2 cid] eqn:Ei. unfold commit in Hb. simplify_eq.
  apply terminalizeExternallyConsumed_spec in Et as (o0 & o1 & Ho0 & Hst & -> & Hret & Hsp & Hrow).
  assert (o0 = o) as -> by congruence. intros Hi.
  assert (~ has_retry_child (set_outbox db id o1) id) as Hno.
  { intros (j & oj & Hj & Hpj). cbn in Hj.
    assert (exists o', tx_outbox db !! j = Some o' /\ o_retry_of_id o' = Some id) as (o' & Ho' & Hp').
    { apply lookup_insert_Some in Hj as [[<- <-]|[_ Hj]]; [exists o|by exists oj].
      split; [done|]. congruence. }
    destruct (inv_child db Hi _ _ _ Ho' Hp') as (po & Hpo & [Hpf _]). congruence. }
  revert Hi. eapply step_ok_trans; [by eapply set_outbox_step|]. intros _.
  change db' with (db', cid).1. rewrite <- Ei. apply insert_outbox_step; [done|].
  intros p [= <-]. split; [|done]. exists o1. split; [apply lookup_insert_eq|done].
Qed.

Lemma parkExecutorManualReviewInTx_same db g s t now db' :
  parkExecutorManualReviewInTx db g s t now = Ok db' -> same_tx_tables db db'.
Proof.
  unfold parkExecutorManualReviewInTx.
  pose proof (update_executor_status_same db g ExecutorManualReview s (Some t) now) as H1.
  destruct (update_executor_status _ _ _ _ _ _) as [db1 n]. cbn in H1. case_decide.
  - pose proof (update_packet_status_same db1 g ExecutorManualReview s now) as H2.
    destruct (update_packet_status _ _ _ _ _) as [db2 m]. cbn in H2. case_decide; [|done].
    intros [= <-]. by etransitivity.
  - by intros [= <-].
Qed.

Lemma parkWorkflowManualReviewInTx_same db p g t now db' :
  parkWorkflowManualReviewInTx db p g t now = Ok db' -> same_tx_tables db db'.
Proof.
  unfold parkWorkflowManualReviewInTx.
  repeat (case_decide; [by (apply parkExecutorManualReviewInTx_same ||
    (intros [= <-]; apply update_dvn_status_same))|]).
  by intros [= <-].
Qed.

Lemma ResolveExternalNonceAbandon_step id now db :
  step_ok db (ResolveExternalNonceAbandon id now db).1.
Proof.
  unfold ResolveExternalNonceAbandon. apply run_tx_step. intros db' r Hb.
  case_decide; [|done]. destruct (tx_outbox db !! id) as [o|] eqn:Ho; [|done].
  unfold mbind, result_bind in Hb.
  destruct (terminalizeExternallyConsumed db id now) as [db1|] eqn:Et; [|done].
  apply terminalizeExternallyConsumed_spec in Et as (o0 & o1 & Ho0 & _ & -> & _ & _ & Hrow).
  eapply step_ok_trans; [by eapply set_outbox_step|]. intros _.
  destruct (hash_guid (o_guid o)) as [g|].
  - destruct (parkWorkflowManualReviewInTx _ _ _ _ _) as [db2|] eqn:Ep; [|done].
    unfold commit in Hb. simplify_eq. by eapply same_tx_tables_step, parkWorkflowManualReviewInTx_same.
  - unfold commit in Hb. simplify_eq. apply step_ok_refl.
Qed.

(** ** Operations on the other tables *)

Lemma run_tx_same {A} db (body : txbody A) :
  (forall db' r, body = Ok (db', r) -> same_tx_tables db db') -> step_ok db (run_tx db body).1.
Proof. intros H. apply run_tx_step. intros. apply same_tx_tables_step. eauto. Qed.

Ltac open_job :=
  apply run_tx_same; intros ? ? Hbody; unfold commit, mbind, result_bind in Hbody;
  branches; try done.

Lemma UpsertPacket_step p now db : step_ok db (UpsertPacket p now db).1.
Proof. unfold UpsertPacket. open_job. Qed.
(** A new job has no failure charged to it: the failures table references the jobs. *)
Lemma accounting_new_job db guid e :
  executor_jobs db !! guid = None -> e_retry_count e = 0 ->
  accounting db -> accounting (set_executor_job db guid e).
Proof.
  intros Hn Hr [Hfk Hcnt]. split; cbn.
  - intros p Hp. apply Hfk in Hp as [e' He']. rewrite lookup_insert_ne by congruence. eauto.
  - intros g e0 [[<- <-]|[_ ?]]%lookup_insert_Some; [|by apply Hcnt].
    rewrite Hr. unfold charged.
    assert (filter (fun p => p.1 = guid) (executor_receive_failures db) = ∅) as ->; [|done].
    apply elem_of_equiv_empty_L. intros p [Hp Hin]%elem_of_filter.
    apply Hfk in Hin as [? ?]. congruence.
Qed.

Lemma UpsertExecutorJob_step j now db : step_ok db (UpsertExecutorJob j now db).1.
Proof.
  unfold UpsertExecutorJob. open_job;
    first [by eapply set_executor_job_same|split_and!; try done; by apply accounting_new_job].
Qed.
Lemma UpsertDVNJob_step j now db : step_ok db (UpsertDVNJob j now db).1.
Proof. unfold UpsertDVNJob. open_job. Qed.
Lemma DeferExecutorJob_step g s d now db : step_ok db (DeferExecutorJob g s d now db).1.
Proof. unfold DeferExecutorJob. open_job. by eapply set_executor_job_same. Qed.
Lemma DeferDVNJob_step g s d now db : step_ok db (DeferDVNJob g s d now db).1.
Proof. unfold DeferDVNJob. open_job. Qed.
Lemma UpdateIndexerCursor_step c s b db : step_ok db (UpdateIndexerCursor c s b db).1.
Proof. unfold UpdateIndexerCursor. open_job. Qed.

Lemma RecordSourcePacketSkip_step skip now db : step_ok db (RecordSourcePacketSkip skip now db).1.
Proof. unfold RecordSourcePacketSkip. open_job. Qed.

Lemma transition_executor_same db u now db' r :
  u_IncrementRetryCount u = false ->
  transition_executor db u now = Ok (db', r) -> same_tx_tables db db'.
Proof.
  unfold transition_executor, commit. intros Hinc H. rewrite Hinc in H. branches.
  etransitivity; [|apply set_packet_status_same]. by eapply set_executor_job_same.
Qed.

(** Charging a new failing hash: the failure row and the count move together. *)
Lemma charge_accounting db guid h e e' :
  executor_jobs db !! guid = Some e -> (guid, h) ∉ executor_receive_failures db ->
  e_retry_count e' = e_retry_count e + 1 -> accounting db ->
  accounting_of (<[guid := e']> (executor_jobs db))
    ({[ (guid, h) ]} ∪ executor_receive_failures db).
Proof.
  intros He Hnew Hr [Hfk Hcnt]. split.
  - intros p [->%elem_of_singleton|Hp]%elem_of_union; [rewrite lookup_insert_eq; eauto|].
    apply Hfk in Hp. destruct (decide (p.1 = guid)) as [->|].
    + rewrite lookup_insert_eq. eauto.
    + by rewrite lookup_insert_ne.
  - intros g e0 [[<- <-]|[Hne Hg]]%lookup_insert_Some; unfold charged in *.
    + rewrite filter_union_L, filter_singleton_L, decide_True by (done || apply gset_leibniz).
      rewrite size_union, size_singleton, Hr, (Hcnt _ _ He); [lia|].
      intros x ->%elem_of_singleton [_ Hx]%elem_of_filter. done.
    + rewrite filter_union_L, filter_singleton_L, decide_False by (done || apply gset_leibniz).
      rewrite (left_id_L ∅ (∪)).
      by apply Hcnt.
Qed.

Lemma updateExecutorStatus_step u now db : step_ok db (updateExecutorStatus u now db).1.
Proof.
  unfold updateExecutorStatus. apply run_tx_same. intros db' r H.
  case_decide; [|done]. case_decide; [|done]. destruct (u_IncrementRetryCount u) eqn:Hinc.
  2:{ by apply transition_executor_same in H. }
  destruct (u_ReceiveTxHash u); [|done]. case_decide as Hin; [by simplify_eq|].
  case_decide; [|done]. unfold transition_executor, commit in H. rewrite Hinc in H. branches.
  etransitivity; [|apply set_packet_status_same]. split_and!; try done.
  intros Hacc. by refine (charge_accounting db _ _ e _ E Hin _ Hacc).
Qed.

Lemma updateDVNStatus_step u now db : step_ok db (updateDVNStatus u now db).1.
Proof. unfold updateDVNStatus, transition_dvn. open_job. Qed.

Lemma MarkDVNManualReviewAndPausePathway_step g e s q now db :
  step_ok db (MarkDVNManualReviewAndPausePathway g e s q now db).1.
Proof.
  unfold MarkDVNManualReviewAndPausePathway, PausePathwayForPacket. open_job.
Qed.

Lemma MarkDVNReorgDetectedWithCoordinates_step g e s q a b c d now db :
  step_ok db (MarkDVNReorgDetectedWithCoordinates g e s q a b c d now db).1.
Proof. unfold MarkDVNReorgDetectedWithCoordinates, transition_dvn. open_job. Qed.

Lemma PauseChain_step e db : step_ok db (PauseChain e db).1.
Proof.
  unfold PauseChain. case_decide; [apply step_ok_refl|].
  destruct (chains db !! e); [by apply same_tx_tables_step|apply step_ok_refl].
Qed.

Lemma PausePathwayForPacket_step g db : step_ok db (PausePathwayForPacket g db).1.
Proof.
  unfold PausePathwayForPacket. case_decide; [apply step_ok_refl|].
  destruct (packets db !! HashBytes g); [by apply same_tx_tables_step|apply step_ok_refl].
Qed.
