(* ===== verification/Store.v ===== *)
(** * The store as a state machine: safety of every interleaving

    [store_op] lists the store's writing operations, [exec] runs one in its own
    transaction, [step] is one operation of any worker at any time, [reachable]
    is any sequence of them from freshly migrated tables. The theorems are the
    promises the transaction manager builds on. *)

From S2P Require Import Prelude Schema SendScope Outbox Attempts CancelReconcile Jobs.
From S2P Require Import StoreInv StoreSteps.
From stdpp Require Import base gmap list strings numbers fin_maps relations.
From Stdlib Require Import ZArith Lia.
#[local] Open Scope Z_scope.

Inductive store_op :=
| OpConfig (cs : gmap Z ChainRow) (pws : gmap Z PathwayRow)
| OpPauseChain (eid : Z)
| OpPausePathway (guid : Hash)
| OpEnqueueTx (r : TxRequest)
| OpEnqueuePricing (r : TxRequest)
| OpEnqueueExecutor (guid : Hash) (expected next : string) (r : TxRequest)
| OpEnqueueDVN (guid : Hash) (expected next : string) (r : TxRequest) (q : string)
| OpBootstrap (c : Z) (s : string) (rpcNonce : Z)
| OpMarkEstimateRevert (id : Z) (failure : option string) (goNow : Z)
| OpRefresh (id : Z)
| OpRetryFailed (id : Z)
| OpPrepareNextRetry (c : Z) (s : string)
| OpClaimSigning (id c : Z) (s : string) (t : uuid) (ttl : Z)
| OpInsertSigned (id : Z) (t : uuid) (a : SignedAttempt)
| OpClaimBroadcast (c : Z) (s : string) (t : uuid) (ttl : Z)
| OpMarkSendResult (aid : Z) (t : uuid) (class : SendErrorClass) (err : string)
| OpTouchPoll (id : Z)
| OpPrepareReceipt (aid : Z) (f : TxReceiptFacts)
| OpFinalizeReceipt (aid : Z) (f : TxReceiptFacts) (goNow : Z)
| OpCostPriced (id : Z) (cost : option Z)
| OpPreSignFailure (id : Z) (t : uuid)
| OpRequestReplacement (id : Z)
| OpDeferReplacement (id : Z)
| OpClaimReplacement (id expected : Z) (t : uuid) (ttl : Z)
| OpInsertReplacement (id expected : Z) (t : uuid) (a : SignedAttempt)
| OpRequestCancel (id : Z)
| OpDeferCancel (id : Z)
| OpClaimCancel (id expected : Z) (t : uuid) (ttl : Z)
| OpInsertCancel (id expected : Z) (t : uuid) (a : SignedAttempt)
| OpClaimReconcile (c : Z) (s : string) (t : uuid) (ttl : Z) (snapshot : DB)
| OpExtendReconcile (c : Z) (s : string) (t : uuid) (ttl : Z)
| OpFinishReconcile (c : Z) (s : string) (t : uuid) (backoff : Z)
| OpApplyReconcile (c : Z) (s : string) (t : uuid) (nonce block backoff : Z)
    (ds : list NonceReconcileDecision) (observed : string)
| OpResolveRetry (id : Z)
| OpResolveAbandon (id : Z)
| OpUpsertPacket (p : PacketRecord)
| OpUpsertExecutor (j : ExecutorJobRecord)
| OpDeferExecutor (guid : Hash) (expected : string) (delay : Z)
| OpExecutorStatus (u : executorStatusUpdate)
| OpUpsertDVN (j : DVNJobRecord)
| OpDeferDVN (guid : Hash) (expected : string) (delay : Z)
| OpDVNStatus (u : dvnStatusUpdate)
| OpDVNManualReviewAndPause (guid : Hash) (expected reason q : string)
| OpDVNReorg (guid : Hash) (expected reason q : string) (b i eb ei : Z)
| OpIndexerCursor (c : Z) (stream : string) (b : Z)
| OpRecordSkip (skip : SourcePacketSkip).

Definition exec (op : store_op) (now : timestamp) (db : DB) : DB :=
  match op with
  | OpConfig cs pws => db <| chains := cs |> <| pathways := pws |>
  | OpPauseChain e => (PauseChain e db).1
  | OpPausePathway g => (PausePathwayForPacket g db).1
  | OpEnqueueTx r => (EnqueueTx r now db).1
  | OpEnqueuePricing r => (EnqueuePricingSnapshotTx r now db).1
  | OpEnqueueExecutor g e n r => (EnqueueExecutorTx g e n r now db).1
  | OpEnqueueDVN g e n r q => (EnqueueDVNVerifyTx g e n r q now db).1
  | OpBootstrap c s n => (BootstrapTxNonceCursor c s n now db).1
  | OpMarkEstimateRevert id f g => (MarkQueuedTxEstimateRevertFailed id f g now db).1
  | OpRefresh id => (RefreshBroadcastReceiptObservedAt id now db).1
  | OpRetryFailed id => (RetryFailedTx id now db).1
  | OpPrepareNextRetry c s => (PrepareNextFailedTxRetry c s now db).1
  | OpClaimSigning id c s t ttl => (ClaimOutboxForSigning id c s t ttl now db).1
  | OpInsertSigned id t a => (InsertSignedAttempt id t a now db).1
  | OpClaimBroadcast c s t ttl => (ClaimAttemptForBroadcast c s t ttl now db).1
  | OpMarkSendResult aid t cl e => (MarkAttemptSendResult aid t cl e now db).1
  | OpTouchPoll id => (TouchReceiptPoll id now db).1
  | OpPrepareReceipt aid f => (PrepareReceiptResolution aid f now db).1
  | OpFinalizeReceipt aid f g => (FinalizeAttemptReceipt aid f g now db).1
  | OpCostPriced id c => (MarkTxReceiptCostPriced id c now db).1
  | OpPreSignFailure id t => (RecordPreSignFailure id t now db).1
  | OpRequestReplacement id => (RequestTxReplacement id now db).1
  | OpDeferReplacement id => (DeferReplacement id now db).1
  | OpClaimReplacement id e t ttl => (ClaimOutboxForReplacementSigning id e t ttl now db).1
  | OpInsertReplacement id e t a => (InsertReplacementAttempt id e t a now db).1
  | OpRequestCancel id => (RequestTxCancel id now db).1
  | OpDeferCancel id => (DeferCancel id now db).1
  | OpClaimCancel id e t ttl => (ClaimOutboxForCancelSigning id e t ttl now db).1
  | OpInsertCancel id e t a => (InsertCancelAttempt id e t a now db).1
  | OpClaimReconcile c s t ttl snap => (ClaimNonceReconciliation c s t ttl snap now db).1
  | OpExtendReconcile c s t ttl => (ExtendNonceReconciliation c s t ttl now db).1
  | OpFinishReconcile c s t b => (FinishNonceReconciliation c s t b now db).1
  | OpApplyReconcile c s t n b bo ds obs =>
    (ApplyNonceReconciliation c s t n b bo ds obs now db).1
  | OpResolveRetry id => (ResolveExternalNonceRetry id now db).1
  | OpResolveAbandon id => (ResolveExternalNonceAbandon id now db).1
  | OpUpsertPacket p => (UpsertPacket p now db).1
  | OpUpsertExecutor j => (UpsertExecutorJob j now db).1
  | OpDeferExecutor g e d => (DeferExecutorJob g e d now db).1
  | OpExecutorStatus u => (updateExecutorStatus u now db).1
  | OpUpsertDVN j => (UpsertDVNJob j now db).1
  | OpDeferDVN g e d => (DeferDVNJob g e d now db).1
  | OpDVNStatus u => (updateDVNStatus u now db).1
  | OpDVNManualReviewAndPause g e r q => (MarkDVNManualReviewAndPausePathway g e r q now db).1
  | OpDVNReorg g e r q b i eb ei =>
    (MarkDVNReorgDetectedWithCoordinates g e r q b i eb ei now db).1
  | OpIndexerCursor c s b => (UpdateIndexerCursor c s b db).1
  | OpRecordSkip skip => (RecordSourcePacketSkip skip now db).1
  end.

(** One operation of some worker, at some time. *)
Inductive step (db : DB) : DB -> Prop :=
| step_exec op now : step db (exec op now db).

(** Freshly migrated transaction and job tables. *)
Definition initial (db : DB) : Prop :=
  tx_outbox db = ∅ /\ tx_attempts db = ∅ /\ tx_nonce_cursors db = ∅ /\
  executor_jobs db = ∅ /\ executor_receive_failures db = ∅.

Definition reachable (db : DB) : Prop := exists db0, initial db0 /\ rtc step db0 db.

Lemma exec_step_ok op now db : step_ok db (exec op now db).
Proof.
  destruct op; cbn [exec].
  - by apply same_tx_tables_step.
  - apply PauseChain_step.
  - apply PausePathwayForPacket_step.
  - apply EnqueueTx_step.
  - apply EnqueuePricingSnapshotTx_step.
  - apply EnqueueExecutorTx_step.
  - apply EnqueueDVNVerifyTx_step.
  - apply BootstrapTxNonceCursor_step.
  - apply MarkQueuedTxEstimateRevertFailed_step.
  - apply RefreshBroadcastReceiptObservedAt_step.
  - apply RetryFailedTx_step.
  - apply PrepareNextFailedTxRetry_step.
  - apply ClaimOutboxForSigning_step.
  - apply InsertSignedAttempt_step.
  - apply ClaimAttemptForBroadcast_step.
  - apply MarkAttemptSendResult_step.
  - apply TouchReceiptPoll_step.
  - apply PrepareReceiptResolution_step.
  - apply FinalizeAttemptReceipt_step.
  - apply MarkTxReceiptCostPriced_step.
  - apply RecordPreSignFailure_step.
  - apply RequestTxReplacement_step.
  - apply DeferReplacement_step.
  - apply ClaimOutboxForReplacementSigning_step.
  - apply InsertReplacementAttempt_step.
  - apply RequestTxCancel_step.
  - apply DeferCancel_step.
  - apply ClaimOutboxForCancelSigning_step.
  - apply InsertCancelAttempt_step.
  - apply ClaimNonceReconciliation_step.
  - apply ExtendNonceReconciliation_step.
  - apply FinishNonceReconciliation_step.
  - apply ApplyNonceReconciliation_step.
  - apply ResolveExternalNonceRetry_step.
  - apply ResolveExternalNonceAbandon_step.
  - apply UpsertPacket_step.
  - apply UpsertExecutorJob_step.
  - apply DeferExecutorJob_step.
  - apply updateExecutorStatus_step.
  - apply UpsertDVNJob_step.
  - apply DeferDVNJob_step.
  - apply updateDVNStatus_step.
  - apply MarkDVNManualReviewAndPausePathway_step.
  - apply MarkDVNReorgDetectedWithCoordinates_step.
  - apply UpdateIndexerCursor_step.
  - apply RecordSourcePacketSkip_step.
Qed.

Lemma initial_inv db : initial db -> inv db.
Proof.
  intros (E1 & E2 & E3 & E4 & E5).
  split; rewrite ?E1, ?E2, ?E3; try (intros; by simplify_map_eq).
  unfold accounting. rewrite E4, E5. split; [set_solver|]. intros. by simplify_map_eq.
Qed.

Lemma steps_inv db db' : inv db -> rtc step db db' -> inv db' /\ evolves db db'.
Proof.
  intros Hi Hs. induction Hs as [db|db db1 db' [op now] _ IH]; [split; [done|reflexivity]|].
  destruct (exec_step_ok op now db Hi) as [Hi1 E1]. destruct (IH Hi1) as [Hi' E'].
  split; [done|]. by transitivity (exec op now db).
Qed.

Lemma reachable_inv db : reachable db -> inv db.
Proof. intros (db0 & H0 & Hs). by apply (steps_inv db0 db (initial_inv _ H0)). Qed.
#[export] Hint Resolve reachable_inv : worker.

(** ** A concrete run, for the witnesses *)

Definition run (l : list (store_op * timestamp)) (db : DB) : DB :=
  fold_left (fun db x => exec x.1 x.2 db) l db.

Lemma run_app l1 l2 db : run (l1 ++ l2) db = run l2 (run l1 db).
Proof. apply fold_left_app. Qed.

Lemma run_steps l db : rtc step db (run l db).
Proof.
  revert db. induction l as [|[op now] l IH]; intros db; [reflexivity|].
  eapply rtc_l; [apply (step_exec db op now)|]. apply IH.
Qed.

Definition sample_db : DB :=
  mkDB {[ 7 := mkChain true false; 8 := mkChain true false ]}
    {[ 1 := mkPathway 8 7 (addressBytes 1) (addressBytes 2) true false ]} ∅ ∅ ∅ ∅ ∅ ∅ ∅ ∅ ∅ 1 1.

Lemma run_reachable l : reachable (run l sample_db).
Proof. exists sample_db. split; [done|apply run_steps]. Qed.

Definition sample_request : TxRequest :=
  mkTxRequest 7 TxPurposePricingSetPriceSnapshot [] 99 [] None "s".
Definition sample_attempt (nonce hash token : Z) : SignedAttempt :=
  mkSignedAttempt TxAttemptOriginal nonce 2 hash [Byte.x01] 21000 (Some 100) (Some 1) token.
Definition sample_facts : TxReceiptFacts := mkTxReceiptFacts 1234 0 50 10 (Some 3) (Some 30).

(** Two snapshots of one signer: the first is signed, broadcast and accepted. *)
Definition sample_ops : list (store_op * timestamp) :=
  [ (OpEnqueueTx sample_request, 10); (OpEnqueueTx sample_request, 11);
    (OpBootstrap 7 "s" 3, 12);
    (OpClaimSigning 1 7 "s" 500 Minute, 13);
    (OpInsertSigned 1 500 (sample_attempt 3 1234 900), 14);
    (OpClaimBroadcast 7 "s" 600 Minute, 15);
    (OpMarkSendResult 1 600 SendErrorAccepted "", 16) ].

(** ... then the second one too, and the first one's receipt is resolved as failed. *)
Definition sample_ops2 : list (store_op * timestamp) :=
  sample_ops ++
  [ (OpClaimSigning 2 7 "s" 501 Minute, 17);
    (OpInsertSigned 2 501 (sample_attempt 4 1235 901), 18);
    (OpPrepareReceipt 1 sample_facts, 19); (OpFinalizeReceipt 1 sample_facts 20, 20) ].

(** A packet whose lzReceive transaction mines and reverts, and its automatic retry. *)
Definition sample_packet : PacketRecord :=
  mkPacketRecord 5 8 7 (Some 1) 1 2 3 4 100 0 [Byte.x01] [Byte.x02] [] 6 [] ExecutorNew.
Definition sample_ops3 : list (store_op * timestamp) :=
  [ (OpUpsertPacket sample_packet, 1);
    (OpUpsertExecutor (mkExecutorJobRecord 5 (Some 9) ExecutorExecutable "" 0 0), 2);
    (OpEnqueueExecutor 5 ExecutorExecutable ExecutorLzReceiveTxEnqueued
       (mkTxRequest 7 txPurposeExecutorLzReceive [] 99 [] None "x"), 3);
    (OpBootstrap 7 "x" 0, 4);
    (OpClaimSigning 1 7 "x" 500 Minute, 5);
    (OpInsertSigned 1 500 (sample_attempt 0 1234 900), 6);
    (OpClaimBroadcast 7 "x" 600 Minute, 7);
    (OpMarkSendResult 1 600 SendErrorAccepted "", 8);
    (OpPrepareReceipt 1 sample_facts, 9);
    (OpExecutorStatus (mkExecutorUpdate 5 ExecutorLzReceiveTxEnqueued ExecutorLzReceiveFailed
       None (Some 1234) "reverted" true), 10);
    (OpFinalizeReceipt 1 sample_facts 11, 11);
    (OpPrepareNextRetry 7 "x", 200000000) ].

Example sample_statuses :
  (o_status <$> tx_outbox (run sample_ops2 sample_db) !! 1) = Some TxStatusFailed /\
  (o_status <$> tx_outbox (run sample_ops2 sample_db) !! 2) = Some TxStatusSigned /\
  (o_nonce <$> tx_outbox (run sample_ops2 sample_db) !! 2) = Some (Some 4).
Proof. vm_compute. done. Qed.

Definition row_of (db : DB) (id : Z) : OutboxRow :=
  default (new_outbox_row 0 "" None [] [] 0 "" 0 None 0) (tx_outbox db !! id).
Definition attempt_of (db : DB) (aid : Z) : AttemptRow :=
  default (attempt_row 0 (sample_attempt 0 0 0) 0 0) (tx_attempts db !! aid).

Definition db1 : DB := run sample_ops sample_db.
Definition db2 : DB := run sample_ops2 sample_db.

Definition db3 : DB := run sample_ops3 sample_db.
Lemma db3_reachable : reachable db3.
Proof. apply run_reachable. Qed.
Example db3_retry :
  (o_status <$> tx_outbox db3 !! 1) = Some TxStatusFailed /\
  (o_retry_of_id <$> tx_outbox db3 !! 2) = Some (Some 1) /\
  (e_status <$> executor_jobs db3 !! HashBytes 5) = Some ExecutorLzReceiveTxEnqueued.
Proof. vm_compute. done. Qed.

Lemma db1_reachable : reachable db1.
Proof. apply run_reachable. Qed.
Lemma db2_reachable : reachable db2.
Proof. apply run_reachable. Qed.
Lemma db1_db2 : rtc step db1 db2.
Proof. unfold db2, db1, sample_ops2. rewrite run_app. apply run_steps. Qed.

(** ** Nonces *)

(** C1: in every interleaving of store operations no two outbox rows of one signer lane
    ever hold the same nonce, so the unique index on (chain, signer, nonce) never fires. *)
Theorem lane_nonce_unique db i j oi oj n :
  reachable db -> tx_outbox db !! i = Some oi -> tx_outbox db !! j = Some oj ->
  o_chain_eid oi = o_chain_eid oj -> o_signer_id oi = o_signer_id oj ->
  o_nonce oi = Some n -> o_nonce oj = Some n -> i = j.
Proof. intros Hr. apply inv_nonce_unique. auto with worker. Qed.

Lemma lane_nonce_unique_witness :
  o_nonce (row_of db2 1) = Some 3 /\ o_nonce (row_of db2 2) = Some 4 /\ 1 = 1.
Proof.
  split; [vm_compute; reflexivity|]. split; [vm_compute; reflexivity|].
  apply (lane_nonce_unique db2 1 1 (row_of db2 1) (row_of db2 1) 3 db2_reachable);
    vm_compute; reflexivity.
Defined.

(** the signer's nonce cursor stays above every nonce recorded on its lane and within
    the BIGINT column. *)
Theorem lane_nonce_below_cursor db id o n :
  reachable db -> tx_outbox db !! id = Some o -> o_nonce o = Some n ->
  exists c, tx_nonce_cursors db !! (o_chain_eid o, o_signer_id o) = Some c /\
            0 <= n < n_next_nonce c /\ n_next_nonce c <= maxDBNonce.
Proof.
  intros Hr Ho Hn. pose proof (reachable_inv db Hr) as Hi.
  destruct (row_cursor _ _ _ _ (inv_rows db Hi _ _ Ho) _ Hn) as (? & c & Hc & ?).
  exists c. destruct (inv_cursors db Hi _ _ Hc) as [? _]. split; [done|lia].
Qed.


(** ** What no operation ever rewrites *)

(** C26: an outbox row is never deleted; its request, an assigned nonce, a pinned receipt
    resolution (outcome and attempt) and the confirmed status survive every later sequence of
    operations. *)
Theorem outbox_row_history db db' id o :
  reachable db -> rtc step db db' -> tx_outbox db !! id = Some o ->
  exists o', tx_outbox db' !! id = Some o' /\ row_evolves o o'.
Proof.
  intros Hr Hs. destruct (steps_inv db db' (reachable_inv db Hr) Hs) as [_ Hev]. apply Hev.
Qed.

Lemma outbox_row_history_witness :
  exists o', tx_outbox db2 !! 1 = Some o' /\ row_evolves (row_of db1 1) o'.
Proof.
  apply (outbox_row_history db1 db2 1 (row_of db1 1) db1_reachable db1_db2).
  vm_compute; reflexivity.
Defined.

(** C25: whatever operations run afterwards, a persisted attempt is never deleted and its row,
    kind and transaction (nonce, type, hash, raw bytes, gas, fees) never change; its state only
    advances, from signed to ambiguous or rejected, to submitted, to mined, and its broadcast
    count only grows. *)
Theorem attempt_history db db' aid a :
  reachable db -> rtc step db db' -> tx_attempts db !! aid = Some a ->
  exists a', tx_attempts db' !! aid = Some a' /\ att_evolves a a'.
Proof.
  intros Hr Hs. destruct (steps_inv db db' (reachable_inv db Hr) Hs) as [_ Hev]. apply Hev.
Qed.

Lemma attempt_history_witness :
  exists a', tx_attempts db2 !! 1 = Some a' /\ att_evolves (attempt_of db1 1) a'.
Proof.
  apply (attempt_history db1 db2 1 (attempt_of db1 1) db1_reachable db1_db2).
  vm_compute; reflexivity.
Defined.

(** ** The table constraints are invariants of the code *)

(** no operation ever attempts a write the schema's CHECK constraints reject: held
    status and reason, lease token and expiry, receipt outcome and attempt come in pairs. *)
Theorem outbox_checks_hold db id o :
  reachable db -> tx_outbox db !! id = Some o ->
  (o_status o = TxStatusHeld <-> o_held_reason o <> None) /\
  (o_lease_token o = None <-> o_lease_until o = None) /\
  (o_receipt_outcome o = None <-> o_receipt_attempt_id o = None).
Proof.
  intros Hr Ho. destruct (inv_rows db (reachable_inv db Hr) _ _ Ho). done.
Qed.


(** a signed or broadcast row always has an attempt to send or to poll: its active
    attempt exists, belongs to the row, carries the row's nonce and has broadcast budget
    accounted up to the cap. *)
Theorem sent_row_has_attempt db id o :
  reachable db -> tx_outbox db !! id = Some o ->
  o_status o = TxStatusSigned \/ o_status o = TxStatusBroadcast ->
  exists aid a, active_attempt db id o = Some (aid, a) /\ o_nonce o = Some (a_nonce a) /\
                0 <= a_broadcast_count a <= TxMaxBroadcasts.
Proof.
  intros Hr Ho Hst. pose proof (reachable_inv db Hr) as Hi.
  destruct (inv_rows db Hi _ _ Ho). specialize (row_active Hst).
  destruct (o_active_attempt_id o) as [aid|] eqn:Ha; [|done].
  destruct (owned_attempt db id o aid Hi Ho (row_active_fk _ eq_refl)) as (a & Hat & Hid & Hn).
  exists aid, a. split; [by apply active_attempt_Some|]. split; [done|].
  apply (inv_atts db Hi _ _ Hat).
Qed.


(** C18: a row still waiting for its first signature (queued or nonce_assigned, including a
    failed row requeued in place) never had a transaction signed for it and has no pinned
    receipt, so a retry in place can never re-sign a consumed nonce. *)
Theorem unsigned_row_never_sent db id o aid a :
  reachable db -> tx_outbox db !! id = Some o ->
  o_status o = TxStatusQueued \/ o_status o = TxStatusNonceAssigned ->
  (tx_attempts db !! aid = Some a -> a_outbox_id a <> id) /\ o_receipt_outcome o = None.
Proof.
  intros Hr Ho Hst. pose proof (inv_rows db (reachable_inv db Hr) _ _ Ho) as Hok. split.
  - intros Ha Hid. apply (row_unsigned _ _ _ _ Hok Hst aid). by exists a.
  - by apply (unsigned_unpinned _ _ _ _ Hok).
Qed.

Lemma unsigned_row_never_sent_witness :
  (tx_attempts db1 !! 1 = Some (attempt_of db1 1) -> a_outbox_id (attempt_of db1 1) <> 2) /\
  o_receipt_outcome (row_of db1 2) = None.
Proof.
  apply (unsigned_row_never_sent db1 2 (row_of db1 2) 1 (attempt_of db1 1) db1_reachable);
    [vm_compute; reflexivity|left; vm_compute; reflexivity].
Defined.

(** a transaction hash identifies one attempt, and a signing token at most one attempt of
    its row, so the crash-recovery lookup by hash is unambiguous. *)
Theorem attempt_identity db i j ai aj :
  reachable db -> tx_attempts db !! i = Some ai -> tx_attempts db !! j = Some aj ->
  a_tx_hash ai = a_tx_hash aj \/
    (a_outbox_id ai = a_outbox_id aj /\ a_signing_token ai = a_signing_token aj) -> i = j.
Proof. intros Hr Hi Hj Hc. by eapply (inv_att_unique db (reachable_inv db Hr)). Qed.

(** C19: a failed row gets at most one retry child, and only once its own nonce is spent (a
    mined receipt is pinned, or the nonce was consumed externally): the task is never
    duplicated. *)
Theorem one_retry_child db i j oi oj p :
  reachable db -> tx_outbox db !! i = Some oi -> tx_outbox db !! j = Some oj ->
  o_retry_of_id oi = Some p -> o_retry_of_id oj = Some p ->
  i = j /\ exists po, tx_outbox db !! p = Some po /\ spent po.
Proof.
  intros Hr Hi Hj Hp Hq. pose proof (reachable_inv db Hr) as Hinv.
  split; [by eapply (inv_child_unique db Hinv)|by eapply (inv_child db Hinv)].
Qed.

Lemma one_retry_child_witness :
  2 = 2 /\ exists po, tx_outbox db3 !! 1 = Some po /\ spent po.
Proof.
  apply (one_retry_child db3 2 2 (row_of db3 2) (row_of db3 2) 1 db3_reachable);
    vm_compute; reflexivity.
Defined.

(** C20: an executor job's retry_count equals the number of distinct failing lzReceive
    transactions recorded for it: replayed receipts and lagging alerts never charge the
    delivery budget twice. *)
Theorem retry_count_is_charged_failures db guid e :
  reachable db -> executor_jobs db !! guid = Some e ->
  e_retry_count e = Z.of_nat (size (charged (executor_receive_failures db) guid)).
Proof. intros Hr. apply (inv_accounting db (reachable_inv db Hr)). Qed.

Lemma retry_count_is_charged_failures_witness :
  exists e, executor_jobs db3 !! HashBytes 5 = Some e /\
    e_retry_count e = Z.of_nat (size (charged (executor_receive_failures db3) (HashBytes 5))) /\
    e_retry_count e = 1.
Proof.
  eexists. split; [vm_compute; reflexivity|]. split; [|vm_compute; reflexivity].
  apply (retry_count_is_charged_failures db3 (HashBytes 5) _ db3_reachable).
  vm_compute; reflexivity.
Defined.
