(* ===== verification/StoreOps.v ===== *)
(** * What single store operations promise their callers

    The contracts of the operations the transaction manager, the workers and the
    operator commands call: what a successful signing or broadcast claim means,
    which receipt resolution is replayed after a crash, the closed forms of the
    two backoff loops, the reconciliation publish, and the packet round trip. *)

From S2P Require Import Prelude Schema SendScope Outbox Attempts CancelReconcile Jobs.
From S2P Require Import StoreInv StoreSteps Store.
From stdpp Require Import base gmap list strings numbers fin_maps relations.
From Stdlib Require Import ZArith Lia.
#[local] Open Scope Z_scope.

(** Evaluate an operation on a sample state that is known to succeed. *)
Tactic Notation "evaluate" constr(op) "as" ident(db) ident(r) ident(E) :=
  destruct op as [db [r|?]] eqn:E; [|exfalso; revert E; vm_compute; discriminate].

(** ** Backoff *)

Lemma autoRetryDelay_loop_closed n d :
  0 < d -> d < txAutoRetryMaxDelay ->
  autoRetryDelay_loop n d = Z.min (d * 2 ^ Z.of_nat n) txAutoRetryMaxDelay.
Proof.
  revert d. induction n as [|n IH]; intros d Hd Hm; cbn [autoRetryDelay_loop].
  - rewrite decide_False by lia. rewrite Z.pow_0_r. lia.
  - rewrite Nat2Z.inj_succ, Z.pow_succ_r by lia.
    assert (1 <= 2 ^ Z.of_nat n) by (apply (Z.pow_le_mono_r 2 0); lia).
    change (Z.quot txAutoRetryMaxDelay 2) with (15 * Minute).
    change txAutoRetryMaxDelay with (30 * Minute) in *. unfold Minute, Second in *.
    case_decide; [nia|]. rewrite IH by lia. f_equal. ring.
Qed.

Lemma broadcastReplayDelay_loop_closed n d :
  0 < d -> d < txBroadcastReplayMaxDelay ->
  broadcastReplayDelay_loop n d = Z.min (d * 2 ^ Z.of_nat n) txBroadcastReplayMaxDelay.
Proof.
  revert d. induction n as [|n IH]; intros d Hd Hm; cbn [broadcastReplayDelay_loop].
  - rewrite Z.pow_0_r. lia.
  - rewrite Nat2Z.inj_succ, Z.pow_succ_r by lia.
    assert (1 <= 2 ^ Z.of_nat n) by (apply (Z.pow_le_mono_r 2 0); lia).
    case_decide; [nia|]. rewrite IH by lia. f_equal. ring.
Qed.

(** both backoff loops compute the capped exponential their comments describe, for every
    counter value: a failed transaction waits min(2^attempts minutes, 30 minutes) and the
    n-th broadcast replay min(3 * 2^(n-1) seconds, one minute). *)
Theorem backoff_closed_form attempts count :
  0 <= attempts -> 1 <= count ->
  autoRetryDelay attempts = Z.min (2 ^ attempts * Minute) (30 * Minute) /\
  broadcastReplayDelay count = Z.min (3 * 2 ^ (count - 1) * Second) (60 * Second).
Proof.
  intros Ha Hc. unfold autoRetryDelay, broadcastReplayDelay. split.
  - rewrite autoRetryDelay_loop_closed by (unfold txAutoRetryBaseDelay, txAutoRetryMaxDelay, Minute, Second; lia).
    rewrite Z2Nat.id by done. unfold txAutoRetryBaseDelay, txAutoRetryMaxDelay. f_equal. ring.
  - rewrite broadcastReplayDelay_loop_closed by (unfold txBroadcastReplayBaseDelay, txBroadcastReplayMaxDelay, Minute, Second; lia).
    rewrite Z2Nat.id by lia. unfold txBroadcastReplayBaseDelay, txBroadcastReplayMaxDelay, Minute.
    f_equal. ring.
Qed.


(** ** Signing claims *)

Lemma toQueuedOutboxTx_fields id o a q :
  toQueuedOutboxTx id o a = Ok q ->
  q_ID q = id /\ q_Nonce q = o_nonce o /\ q_Status q = o_status o /\
  q_Purpose q = o_purpose o /\ q_SignerID q = o_signer_id o /\ q_ChainEID q = o_chain_eid o.
Proof.
  unfold toQueuedOutboxTx, mbind, result_bind. intros H.
  destruct (parseUint64 _); [|done]. destruct (o_nonce o) eqn:En; cbn in H.
  - case_decide; [|done]. case_decide; [|done]. destruct (parseOptionalHash _); [|done].
    injection H as <-. done.
  - case_decide; [|done]. destruct (parseOptionalHash _); [|done].
    injection H as <-. done.
Qed.

Lemma GetOutboxTx_fields id db t :
  GetOutboxTx id db = Ok t ->
  exists o, tx_outbox db !! id = Some o /\ q_ID (t_queued t) = id /\
    t_Nonce t = default 0 (o_nonce o) /\ q_Status (t_queued t) = o_status o.
Proof.
  unfold GetOutboxTx. destruct (tx_outbox db !! id) as [o|] eqn:Eo; [|done].
  unfold toOutboxTx, mbind, result_bind. intros H.
  destruct (toQueuedOutboxTx _ _ _) as [q|] eqn:Eq; [|done].
  apply toQueuedOutboxTx_fields in Eq as (Hid & Hn & Hs & _).
  destruct (parseOptionalHash _); [|done].
  do 3 (destruct (parseOptionalUint64 _); [|done]).
  injection H as <-. exists o. cbn. rewrite Hn. done.
Qed.

(** a successful signing claim of a fresh queued row takes exactly the cursor's nonce: the
    send scope was active, no row of the lane was still waiting for its broadcast, the cursor
    moves up by one, the row becomes nonce_assigned under the caller's lease, and until that
    lease expires every other claim of the row is refused. *)
Theorem ClaimOutboxForSigning_fresh id c s token ttl now db db' t o :
  tx_outbox db !! id = Some o -> o_nonce o = None ->
  ClaimOutboxForSigning id c s token ttl now db = (db', Ok t) ->
  o_status o = TxStatusQueued /\
  lockTxSendScope db c (o_purpose o) (default [] (o_guid o)) = Ok tt /\
  ~ lane_has_pending db c s /\
  (exists n, tx_nonce_cursors db !! (c, s) = Some n /\ t_Nonce t = n_next_nonce n /\
     (n_next_nonce <$> tx_nonce_cursors db' !! (c, s)) = Some (n_next_nonce n + 1)) /\
  (exists o', tx_outbox db' !! id = Some o' /\ o_status o' = TxStatusNonceAssigned /\
     o_nonce o' = Some (t_Nonce t) /\ o_lease_token o' = Some token) /\
  (forall token2 ttl2 now2, 0 < ttl2 -> now2 < now + pgInterval ttl ->
     ClaimOutboxForSigning id c s token2 ttl2 now2 db' = (db', Err ErrOutboxLeaseLost)).
Proof.
  intros Ho Hn. unfold ClaimOutboxForSigning at 1, run_tx.
  destruct (decide (~ (id <= 0 \/ c = 0 \/ s = ""%string \/ ttl <= 0))) as [Harg|]; [|done].
  rewrite Ho. case_decide as Hg; [|done]. unfold mbind, result_bind, claim_nonce. rewrite Hn.
  destruct (o_status o) eqn:Es; try done.
  destruct (lockTxSendScope _ _ _ _) as [[]|] eqn:Esc; [|done].
  case_decide as Hp; [|done].
  destruct (claimCursorNonce db c s now) as [[db1 n]|] eqn:Ecn; [|done].
  intros [= <- Hget]. apply GetOutboxTx_fields in Hget as (o1 & Ho1 & _ & Hnonce & _).
  apply claimCursorNonce_spec in Ecn as (nc & Hnc & <- & _ & ->).
  cbn in Ho1. rewrite lookup_insert_eq in Ho1. injection Ho1 as <-. cbn in Hnonce.
  split_and!; try done.
  - exists nc. cbn. rewrite lookup_insert_eq. done.
  - eexists. cbn. rewrite lookup_insert_eq. split; [reflexivity|]. cbn. rewrite Hnonce. done.
  - intros token2 ttl2 now2 Ht2 Hlive. unfold ClaimOutboxForSigning, run_tx.
    rewrite decide_True by (intros [?|[?|[?|?]]]; [tauto..|lia]). cbn. rewrite lookup_insert_eq.
    rewrite decide_False; [done|]. intros (_ & Hle & _). cbn in Hle. lia.
Qed.

(** ** Broadcast claims *)

Lemma park_exhausted_lookup db c s now id o :
  tx_outbox (park_exhausted db c s now).1 !! id = Some o ->
  exists o0, tx_outbox db !! id = Some o0 /\
    (o = o0 \/ exhausted db c s now (id, o0) /\ o = park_row o0 now).
Proof.
  cbn. rewrite map_lookup_imap. destruct (tx_outbox db !! id) as [o0|]; [|done]. cbn.
  intros [= <-]. exists o0. split; [done|]. case_decide; auto.
Qed.

(** What a successful broadcast claim found and left. *)
Lemma claim_broadcast_sound c s token ttl now db db' claim :
  ClaimAttemptForBroadcast c s token ttl now db = (db', Ok claim) ->
  exists o a,
    tx_outbox db !! b_OutboxID claim = Some o /\ tx_attempts db !! b_AttemptID claim = Some a /\
    o_active_attempt_id o = Some (b_AttemptID claim) /\ a_outbox_id a = b_OutboxID claim /\
    lane c s o /\ o_held_reason o = None /\ o_receipt_outcome o = None /\
    (o_cancel_requested_at o = None \/ a_kind a = TxAttemptCancel) /\
    a_broadcast_count a < TxMaxBroadcasts /\
    (forall n, o_nonce o = Some n -> ~ lane_has_lower db' c s n) /\
    b_RawTx claim = a_raw_tx a /\ b_Nonce claim = a_nonce a /\
    exists a', tx_attempts db' !! b_AttemptID claim = Some a' /\ a_raw_tx a' = b_RawTx claim /\
      a_state a' = TxAttemptAmbiguous /\ a_broadcast_count a' = a_broadcast_count a + 1.
Proof.
  unfold ClaimAttemptForBroadcast, run_tx. case_decide; [|done].
  destruct (park_exhausted db c s now) as [dbp parked] eqn:Ep.
  assert (dbp = (park_exhausted db c s now).1) as Edbp by (by rewrite Ep). clear Ep.
  destruct (order_by _ _) as [[id o]|] eqn:Eo; [|done].
  apply order_by_elem, elem_of_select_outbox in Eo as [Ho (Hl & Hst & Hh & Hr & Hlow & Hact)].
  cbn [fst snd] in *.
  destruct (active_attempt dbp id o) as [[aid a]|] eqn:Ea; [|done].
  apply active_attempt_Some in Ea as (Haid & Hat & Hown).
  destruct Hact as (Hs & Hc & _ & _ & Hcancel).
  intros [= <- <-]. cbn [b_OutboxID b_AttemptID b_RawTx b_Nonce].
  assert (tx_attempts dbp = tx_attempts db) as Hta by (by rewrite Edbp).
  assert (tx_outbox db !! id = Some o) as Hdb.
  { rewrite Edbp in Ho. apply park_exhausted_lookup in Ho as (o0 & Ho0 & [->|[_ ->]]); [done|].
    cbn in Hh. done. }
  exists o, a. rewrite <- Hta. split_and!; try done.
  - intros n Hn. rewrite Hn in Hlow. destruct Hl as [<- <-]. exact Hlow.
  - exists (claim_attempt a token ttl now). cbn. rewrite lookup_insert_eq. split_and!; try done.
    rewrite !elem_of_cons, elem_of_nil in Hs. case_decide; [done|]. destruct Hs as [?|[?|[]]]; done.
Qed.

(** a broadcast claim only ever hands out the raw bytes of a persisted attempt that is the
    active one of an unheld, unresolved row of the lane, below its broadcast budget and of
    cancel kind if a cancel was requested; no row with a lower nonce of the signer is still
    unsent or held; and before the caller can send, the attempt is already recorded as
    possibly sent, with the broadcast counted. *)
Theorem ClaimAttemptForBroadcast_sound c s token ttl now db db' claim :
  ClaimAttemptForBroadcast c s token ttl now db = (db', Ok claim) ->
  exists o a,
    tx_outbox db !! b_OutboxID claim = Some o /\ tx_attempts db !! b_AttemptID claim = Some a /\
    o_active_attempt_id o = Some (b_AttemptID claim) /\ a_outbox_id a = b_OutboxID claim /\
    lane c s o /\ o_held_reason o = None /\ o_receipt_outcome o = None /\
    (o_cancel_requested_at o = None \/ a_kind a = TxAttemptCancel) /\
    a_broadcast_count a < TxMaxBroadcasts /\
    (forall n, o_nonce o = Some n -> ~ lane_has_lower db' c s n) /\
    b_RawTx claim = a_raw_tx a /\ b_Nonce claim = a_nonce a /\
    exists a', tx_attempts db' !! b_AttemptID claim = Some a' /\ a_raw_tx a' = b_RawTx claim /\
      a_state a' = TxAttemptAmbiguous /\ a_broadcast_count a' = a_broadcast_count a + 1.
Proof. apply claim_broadcast_sound. Qed.

(** The first snapshot of the sample run, signed and not yet broadcast. *)
Definition db0 : DB := run (take 5 sample_ops) sample_db.

Lemma ClaimAttemptForBroadcast_sound_witness :
  exists db' claim, ClaimAttemptForBroadcast 7 "s" 600 Minute 15 db0 = (db', Ok claim) /\
    exists a', tx_attempts db' !! b_AttemptID claim = Some a' /\ a_state a' = TxAttemptAmbiguous.
Proof.
  evaluate (ClaimAttemptForBroadcast 7 "s" 600 Minute 15 db0) as db' claim E.
  exists db', claim. split; [reflexivity|].
  destruct (ClaimAttemptForBroadcast_sound 7 "s" 600 Minute 15 db0 db' claim E)
    as (o & a & _ & _ & _ & _ & _ & _ & _ & _ & _ & _ & _ & _ & a' & H1 & _ & H2 & _).
  exists a'. split; assumption.
Defined.

(** a broadcast claim that reports no candidate changes nothing and is right: no row of
    the lane was due (the selector skips nothing the code means to send). *)
Theorem ClaimAttemptForBroadcast_none c s token ttl now db db' :
  ClaimAttemptForBroadcast c s token ttl now db = (db', Err ErrNoBroadcastCandidate) ->
  db' = db /\ forall id o, tx_outbox db !! id = Some o -> ~ broadcastable db c s now (id, o).
Proof.
  unfold ClaimAttemptForBroadcast, run_tx. case_decide; [|done].
  unfold park_exhausted. cbv zeta.
  set (g := fun id o => Some (if decide (exhausted db c s now (id, o)) then park_row o now else o)).
  destruct (select_outbox db (exhausted db c s now)) as [|x l] eqn:Ex.
  - assert (db <| tx_outbox := map_imap g (tx_outbox db) |> = db) as ->.
    { assert (map_imap g (tx_outbox db) = tx_outbox db) as ->; [|by destruct db].
      apply map_eq. intros id. rewrite map_lookup_imap.
      destruct (tx_outbox db !! id) as [o|] eqn:Eo; cbn; [|done]. unfold g. case_decide as Hx; [|done].
      assert ((id, o) ∈ select_outbox db (exhausted db c s now)) as Hin
        by (by apply elem_of_select_outbox). rewrite Ex in Hin. by apply elem_of_nil in Hin. }
    destruct (order_by _ _) as [[id o]|] eqn:Eo.
    { destruct (active_attempt db id o) as [[? ?]|]; done. }
    intros [= <-]. split; [done|]. intros id o Ho Hb.
    apply order_by_None in Eo. assert ((id, o) ∈ select_outbox db (broadcastable db c s now)) as Hin
      by (by apply elem_of_select_outbox). rewrite Eo in Hin. by apply elem_of_nil in Hin.
  - destruct (order_by _ _) as [[id o]|]; [destruct (active_attempt _ id o) as [[? ?]|]; done|].
    cbn. done.
Qed.


(** ** Receipt resolution *)

Definition pinned (db : DB) (id aid : Z) (r : ReceiptOutcome) : Prop :=
  exists o, tx_outbox db !! id = Some o /\ o_receipt_outcome o = Some r /\
    o_receipt_attempt_id o = Some aid.

Lemma PrepareReceiptResolution_pins aid facts now db db1 r :
  PrepareReceiptResolution aid facts now db = (db1, Ok r) ->
  0 < aid /\ exists a, tx_attempts db1 !! aid = Some a /\
    BytesToHash (a_tx_hash a) = f_TxHash facts /\ pinned db1 (a_outbox_id a) aid r.
Proof.
  unfold PrepareReceiptResolution, run_tx, mbind, result_bind, receipt_attempt.
  case_decide as Hpos; [|done]. destruct (validateTxReceiptFacts facts) as [vf|]; [|done].
  destruct (tx_attempts db !! aid) as [a|] eqn:Ea; [|done]. case_decide as Hh; [|done].
  destruct (tx_outbox db !! a_outbox_id a) as [o|] eqn:Eo; [|done].
  destruct (o_receipt_outcome o) as [x|] eqn:Er; case_decide; try done; intros [= <- <-];
    (split; [done|]; exists a; split; [done|]; split; [done|]; unfold pinned).
  - eauto.
  - cbn. rewrite lookup_insert_eq. eauto.
Qed.

Lemma pinned_steps db db' id aid r :
  inv db -> rtc step db db' -> pinned db id aid r -> pinned db' id aid r.
Proof.
  intros Hi Hs (o & Ho & Hr & Hat). destruct (steps_inv db db' Hi Hs) as [_ Hev].
  destruct (ev_rows _ _ Hev _ _ Ho) as (o' & Ho' & [? ? ? ? ? ? ? ? ? Hre ?]).
  destruct (Hre _ Hr) as [? Heq]. exists o'. split_and!; congruence.
Qed.

Lemma PrepareReceiptResolution_pinned aid facts now db a id r aid' :
  0 < aid -> is_ok (validateTxReceiptFacts facts) = true -> tx_attempts db !! aid = Some a ->
  BytesToHash (a_tx_hash a) = f_TxHash facts -> a_outbox_id a = id -> pinned db id aid' r ->
  PrepareReceiptResolution aid facts now db =
    (db, if decide (aid' = aid) then Ok r else Err ErrReceiptResolutionPinned).
Proof.
  intros Hp Hv Ha Hh <- (o & Ho & Hr & Hat).
  unfold PrepareReceiptResolution, run_tx, mbind, result_bind, receipt_attempt.
  rewrite decide_True by done. destruct (validateTxReceiptFacts facts) as [vf|]; [|done].
  rewrite Ha, decide_True, Ho, Hr, Hat by done.
  destruct (decide (aid' = aid)) as [->|]; [by rewrite decide_True|].
  rewrite decide_False by congruence. done.
Qed.

(** the first receipt resolution of a row is final. Whatever happens in between (crashes,
    cancel requests, other instances), resolving the same attempt again returns the same
    outcome and changes nothing, and resolving any other attempt of the row is refused: the
    workflow step and the finalizer always consume one resolution. *)
Theorem receipt_resolution_replays aid facts now db db1 r db2 :
  reachable db -> PrepareReceiptResolution aid facts now db = (db1, Ok r) ->
  rtc step db1 db2 ->
  (forall facts2 now2, is_ok (validateTxReceiptFacts facts2) = true ->
     f_TxHash facts2 = f_TxHash facts ->
     PrepareReceiptResolution aid facts2 now2 db2 = (db2, Ok r)) /\
  (forall aid2 a a2 facts2 now2, aid2 <> aid -> 0 < aid2 ->
     tx_attempts db2 !! aid = Some a -> tx_attempts db2 !! aid2 = Some a2 ->
     a_outbox_id a2 = a_outbox_id a -> is_ok (validateTxReceiptFacts facts2) = true ->
     f_TxHash facts2 = BytesToHash (a_tx_hash a2) ->
     PrepareReceiptResolution aid2 facts2 now2 db2 = (db2, Err ErrReceiptResolutionPinned)).
Proof.
  intros Hr Hp Hs.
  assert (inv db1) as Hi1.
  { pose proof (PrepareReceiptResolution_step aid facts now db (reachable_inv db Hr)) as [Hi _].
    by rewrite Hp in Hi. }
  apply PrepareReceiptResolution_pins in Hp as (Hpos & a1 & Ha1 & Hh1 & Hpin).
  pose proof (pinned_steps _ _ _ _ _ Hi1 Hs Hpin) as Hpin2.
  destruct (steps_inv db1 db2 Hi1 Hs) as [_ Hev].
  destruct (ev_atts _ _ Hev _ _ Ha1) as (a' & Ha' & Hae).
  pose proof (ae_hash _ _ Hae) as Hhash. pose proof (ae_outbox _ _ Hae) as Hob. split.
  - intros facts2 now2 Hv Hf.
    rewrite (PrepareReceiptResolution_pinned aid facts2 now2 db2 a' (a_outbox_id a1) r aid);
      [by rewrite decide_True|done..| |done|done]. congruence.
  - intros aid2 a a2 facts2 now2 Hne Hpos2 Ha Ha2 Hout Hv Hf.
    assert (a = a') as -> by congruence.
    rewrite (PrepareReceiptResolution_pinned aid2 facts2 now2 db2 a2 (a_outbox_id a1) r aid);
      [by rewrite decide_False by congruence|done..|congruence|done].
Qed.

(** ** Publishing a reconciliation pass *)

Lemma apply_decision_cursors db d ev now :
  tx_nonce_cursors (apply_decision db d ev now).1 = tx_nonce_cursors db.
Proof.
  assert (forall id P `{forall o, Decision (P o)} f,
    tx_nonce_cursors (update_outbox db id P f).1 = tx_nonce_cursors db) as Hu.
  { intros. unfold update_outbox. by repeat case_match. }
  unfold apply_decision. destruct (d_Action d); [|apply Hu].
  destruct (_ ≫= _); [apply Hu|done].
Qed.

Lemma apply_decisions_cursors ds db ev now n :
  tx_nonce_cursors (apply_decisions db ds ev now n).1 = tx_nonce_cursors db.
Proof.
  revert db n. induction ds as [|d ds IH]; intros db n; cbn; [done|].
  pose proof (apply_decision_cursors db d ev now) as Hd.
  destruct (apply_decision db d ev now) as [db1 k]. cbn in Hd. by rewrite IH.
Qed.

(** a published reconciliation pass moves the signer's cursor to the maximum of its value
    and the confirmed chain nonce (never back), leaves every other cursor alone and consumes
    its lease: publishing or extending again under the same token is refused without a
    write, so a stale pass cannot act twice. *)
Theorem ApplyNonceReconciliation_once c s token cn cb backoff ds obs now db db' res :
  ApplyNonceReconciliation c s token cn cb backoff ds obs now db = (db', Ok res) ->
  (exists n, tx_nonce_cursors db !! (c, s) = Some n /\ rr_PreviousCursor res = n_next_nonce n /\
     (n_next_nonce <$> tx_nonce_cursors db' !! (c, s)) = Some (Z.max (n_next_nonce n) cn)) /\
  (forall k, k <> (c, s) -> tx_nonce_cursors db' !! k = tx_nonce_cursors db !! k) /\
  (forall cn2 cb2 ds2 obs2 now2, cn2 <= maxDBNonce ->
     ApplyNonceReconciliation c s token cn2 cb2 backoff ds2 obs2 now2 db' =
       (db', Err ErrOutboxLeaseLost)) /\
  (forall ttl now2, 0 < ttl ->
     ExtendNonceReconciliation c s token ttl now2 db' = (db', Err ErrOutboxLeaseLost)).
Proof.
  unfold ApplyNonceReconciliation at 1, run_tx.
  destruct (decide (~ (c = 0 \/ s = ""%string \/ backoff <= 0))) as [Harg|]; [|done].
  case_decide as Hmax; [|done]. destruct (tx_nonce_cursors db !! (c, s)) as [n|] eqn:En; [|done].
  case_decide as Hlease; [|done]. case_decide as Hpos; [|done]. cbv zeta.
  set (cur := (release_reconcile n backoff now) <| n_next_nonce := _ |>).
  set (ev := external_evidence cn cb obs).
  destruct (apply_decisions _ ds ev now 0) as [dbf changed] eqn:Ed. intros [= <- <-].
  assert (tx_nonce_cursors dbf = <[(c, s) := cur]> (tx_nonce_cursors db)) as Hcur.
  { pose proof (apply_decisions_cursors ds (set_cursor db (c, s) cur) ev now 0) as H.
    rewrite Ed in H. exact H. }
  split_and!.
  - exists n. rewrite Hcur, lookup_insert_eq. split_and!; [done|done|]. cbn. f_equal.
    case_bool_decide; lia.
  - intros k Hk. by rewrite Hcur, lookup_insert_ne.
  - intros cn2 cb2 ds2 obs2 now2 Hle. unfold ApplyNonceReconciliation, run_tx.
    rewrite !decide_True, Hcur, lookup_insert_eq by done. rewrite decide_False; [done|].
    intros [Ht _]. done.
  - intros ttl now2 Ht. unfold ExtendNonceReconciliation, run_tx.
    rewrite decide_True by (intros [?|[?|?]]; [tauto..|lia]). rewrite Hcur, lookup_insert_eq.
    rewrite decide_False; [done|]. intros [Hx _]. done.
Qed.

(** The first broadcast is refused as "nonce too low" and the lane is claimed for
    reconciliation. *)
Definition db4 : DB :=
  run (take 6 sample_ops ++
       [ (OpMarkSendResult 1 600 SendErrorNonceTooLow "", 16);
         (OpClaimReconcile 7 "s" 700 Minute
            (run (take 6 sample_ops ++ [(OpMarkSendResult 1 600 SendErrorNonceTooLow "", 16)])
               sample_db), 17) ]) sample_db.

(** ** The nonce cursor's bootstrap *)

(** a bootstrapped cursor starts at or above the chain's pending nonce and above every
    nonce already recorded on the lane; an existing cursor is never touched. *)
Theorem BootstrapTxNonceCursor_above c s rpcNonce now db db' created :
  BootstrapTxNonceCursor c s rpcNonce now db = (db', Ok created) ->
  if created then
    exists n, tx_nonce_cursors db' !! (c, s) = Some n /\ rpcNonce <= n_next_nonce n <= maxDBNonce /\
      forall id o k, tx_outbox db !! id = Some o -> lane c s o -> o_nonce o = Some k ->
        k < n_next_nonce n
  else db' = db /\ is_Some (tx_nonce_cursors db !! (c, s)).
Proof.
  unfold BootstrapTxNonceCursor, run_tx, mbind, result_bind. do 2 (case_decide; [|done]).
  case_decide as Hmax; [|done]. destruct (localNextNonce db c s) as [m|] eqn:Em; [|done].
  destruct (tx_nonce_cursors db !! (c, s)) as [n|] eqn:En; [intros [= <- <-]; eauto|].
  case_decide; [|done]. intros [= <- <-]. cbn. rewrite lookup_insert_eq. eexists.
  split; [reflexivity|]. pose proof (localNextNonce_range db c s m Em). cbn. split; [lia|].
  intros id o k Ho Hl Hk. pose proof (localNextNonce_above db c s m id o k Em Ho Hl Hk). lia.
Qed.


(** ** Selecting and claiming agree *)

Lemma active_scope_guid db o :
  scope_wf db -> o_nonce o = None -> txSendScopeActive db o -> o_guid o <> Some [].
Proof.
  intros Hwf Hn [?|[(_ & Hg & _)|(_ & Hp)]]; [done|congruence|]. intros Hg. rewrite Hg in Hp. cbn in Hp.
  destruct (packets db !! []) as [p|] eqn:E; [|done]. by apply (wf_packet_guid db Hwf) in E.
Qed.

Lemma lockTxSendScope_errors db c p g e :
  lockTxSendScope db c p g = Err e -> e = ErrTxSendScopeInactive \/ exists m, e = Errorf m.
Proof.
  unfold lockTxSendScope, lockChainSendScope, lockPacketSendScope. intros Hl.
  repeat (case_match; simplify_eq; eauto).
Qed.

Lemma GetOutboxTx_errors id db e :
  GetOutboxTx id db = Err e -> e = ErrNoRows \/ exists m, e = Errorf m.
Proof.
  unfold GetOutboxTx, toOutboxTx, toQueuedOutboxTx, parseUint64, parseOptionalHash,
    parseOptionalUint64, mbind, result_bind. intros Hg.
  repeat (case_match; simplify_eq; eauto).
Qed.

Lemma claimCursorNonce_errors db c s now e :
  claimCursorNonce db c s now = Err e -> e = ErrNonceCursorMissing \/ exists m, e = Errorf m.
Proof. unfold claimCursorNonce. intros Hc. repeat (case_match; simplify_eq; eauto). Qed.

(** The nonce step is refused for the scope only when the gate refuses a fresh row. *)
Lemma claim_nonce_errors db id o c s now e :
  claim_nonce db id o c s now = Err e ->
  e <> ErrOutboxLeaseLost /\
  (e = ErrTxSendScopeInactive ->
   o_nonce o = None /\ lockTxSendScope db c (o_purpose o) (default [] (o_guid o)) <> Ok tt).
Proof.
  unfold claim_nonce, signerLaneBlockedByLowerNonce, mbind, result_bind. intros Hc.
  destruct (lockTxSendScope _ _ _ _) as [[]|el] eqn:El.
  - destruct (o_status o), (o_nonce o); simplify_eq/=; branches; try done.
    all: apply claimCursorNonce_errors in E as [->|[m ->]]; done.
  - apply lockTxSendScope_errors in El as [->|[m ->]];
      destruct (o_status o), (o_nonce o); simplify_eq/=; branches; try done.
Qed.

(** C29: the unlocked selector and the locked claim agree: on a database that meets the
    schema's keys, claiming at once the row PeekSendableTx selected is never refused for a lost
    lease or an inactive send scope (only the lane order or the cursor can still say no). *)
Theorem peeked_row_is_claimable c s now db q token ttl db' r :
  scope_wf db -> PeekSendableTx c s now db = Ok q -> 0 < q_ID q -> 0 < ttl ->
  ClaimOutboxForSigning (q_ID q) c s token ttl now db = (db', r) ->
  r <> Err ErrOutboxLeaseLost /\ r <> Err ErrTxSendScopeInactive.
Proof.
  intros Hwf. unfold PeekSendableTx, peekSendableTx. do 3 (case_decide; [|done]).
  destruct (order_by _ _) as [[id o]|] eqn:Eo; [|done]. intros Hq Hid Httl.
  apply order_by_elem, elem_of_select_outbox in Eo as [Ho (Hc & Hs & _ & _ & Hl & Hcr & Hrr & Hsc)].
  apply toQueuedOutboxTx_fields in Hq as (Hqid & _). rewrite Hqid in *. cbn [fst snd] in *.
  unfold ClaimOutboxForSigning, run_tx.
  rewrite decide_True by (intros [?|[?|[?|?]]]; [lia|done..|lia]).
  rewrite Ho, decide_True by done. unfold mbind, result_bind.
  destruct (claim_nonce db id o c s now) as [[db2 o2]|e] eqn:Ecl; intros [= <- <-].
  - destruct (GetOutboxTx _ _) as [t|e] eqn:Eg; [done|].
    apply GetOutboxTx_errors in Eg as [->|[m ->]]; done.
  - apply claim_nonce_errors in Ecl as [Hne Hscope]. split; [congruence|]. intros [= ->].
    destruct (Hscope eq_refl) as [Hn Hno]. apply Hno. subst c s.
    apply scope_gates_agree; eauto using active_scope_guid.
Qed.

Lemma scope_wf_single db k pw :
  packets db = ∅ -> pathways db = {[ k := pw ]} -> scope_wf db.
Proof.
  intros Hp Hw. split; rewrite ?Hp, ?Hw.
  - intros g p. by rewrite lookup_empty.
  - intros g p. by rewrite lookup_empty.
  - intros p i j pi pj [<- _]%lookup_singleton_Some [<- _]%lookup_singleton_Some. done.
Qed.

Lemma peeked_row_is_claimable_witness :
  exists q, PeekSendableTx 7 "s" 17 db1 = Ok q /\
    (ClaimOutboxForSigning (q_ID q) 7 "s" 501 Minute 17 db1).2 <> Err ErrOutboxLeaseLost.
Proof.
  destruct (PeekSendableTx 7 "s" 17 db1) as [q|] eqn:Eq;
    [|exfalso; revert Eq; vm_compute; discriminate].
  exists q. split; [reflexivity|].
  assert (scope_wf db1) as Hwf 
    by (apply (scope_wf_single db1 1 (mkPathway 8 7 (addressBytes 1) (addressBytes 2) true false));
        vm_compute; reflexivity).
  assert (fmap (M:=result dberr) q_ID (PeekSendableTx 7 "s" 17 db1) = Ok 2) as Hq
    by (vm_compute; reflexivity).
  rewrite Eq in Hq. injection Hq as Hq. assert (0 < q_ID q) as Hid by lia.
  destruct (ClaimOutboxForSigning (q_ID q) 7 "s" 501 Minute 17 db1) as [db' r] eqn:E.
  exact (proj1 (peeked_row_is_claimable 7 "s" 17 db1 q 501 Minute db' r Hwf Eq Hid eq_refl E)).
Defined.

(** ** Packets *)

#[export] Instance PacketRecord_eta : Eta PacketRecord := fun p => mkPacketRecord
  (k_GUID p) (k_SrcEID p) (k_DstEID p) (k_Nonce p) (k_Sender p) (k_Receiver p) (k_SendLib p)
  (k_SrcTxHash p) (k_SrcBlockNumber p) (k_SrcLogIndex p) (k_EncodedPacket p) (k_PacketHeader p)
  (k_Message p) (k_PayloadHash p) (k_Options p) (k_Status p).

(** The widths of the Go types of a packet record. *)
Record packet_wf (p : PacketRecord) : Prop := {
  pwf_guid : wf_hash (k_GUID p); pwf_tx : wf_hash (k_SrcTxHash p);
  pwf_payload : wf_hash (k_PayloadHash p); pwf_sender : wf_address (k_Sender p);
  pwf_receiver : wf_address (k_Receiver p); pwf_lib : wf_address (k_SendLib p) }.

Lemma length_addressBytes a : length (addressBytes a) = AddressLength.
Proof. apply length_be_split. Qed.

Lemma BytesToAddress_addressBytes a : wf_address a -> BytesToAddress (addressBytes a) = a.
Proof.
  unfold wf_address, BytesToAddress, addressBytes, AddressLength. intros.
  rewrite be_combine_split. change (256 ^ Z.of_nat 20) with (2 ^ 160).
  by rewrite Z.mod_mod, Z.mod_small.
Qed.

(** a stored packet reads back unchanged: after UpsertPacket succeeds, GetPacket returns
    the same record, field for field, with the status of a packet already known kept (a
    re-indexed packet never falls back to its initial status). *)
Theorem UpsertPacket_GetPacket p now db db' :
  packet_wf p -> UpsertPacket p now db = (db', Ok tt) ->
  GetPacket (k_GUID p) db' =
    Ok (p <| k_Status := default (k_Status p) (p_status <$> packets db !! HashBytes (k_GUID p)) |>).
Proof.
  intros [Hg Ht Hp Hs Hr Hl]. unfold UpsertPacket, run_tx, mbind, result_bind.
  destruct (Validate p) as [nonce|] eqn:Ev; [|done].
  assert (k_Nonce p = Some nonce /\ k_GUID p <> 0) as [Hn Hz].
  { unfold Validate in Ev. branches. done. }
  do 3 (case_decide; [|done]). intros [= <-]. unfold GetPacket. rewrite decide_True by done.
  set (st := default (k_Status p) _).
  assert (forall g row m, packets (db <| packets := <[g := row]> m |>) !! g = Some row) as Hlk
    by (intros; apply lookup_insert_eq).
  rewrite Hlk. unfold toPacketRecord, packet_row.
  cbn [p_sender p_receiver p_send_lib p_src_tx_hash p_payload_hash p_src_eid p_dst_eid p_nonce
       p_src_block_number p_src_log_index p_encoded_packet p_packet_header p_message p_options
       p_status].
  rewrite !length_HashBytes, !length_addressBytes, !decide_True by reflexivity.
  rewrite !BytesToHash_Bytes, !BytesToAddress_addressBytes by done.
  clearbody st. destruct p. cbn in *. by rewrite Hn.
Qed.

(** ** The pricing feed gate *)

(** at most one live snapshot per feed is enqueued: EnqueuePricingSnapshotTx succeeds only
    when no snapshot of the same chain and feed is pending or still owns a retryable nonce, and
    a second snapshot for the feed is refused until the first one leaves that state. *)
Theorem EnqueuePricingSnapshotTx_exclusive r now db db' id :
  EnqueuePricingSnapshotTx r now db = (db', Ok id) ->
  (forall i o, tx_outbox db !! i = Some o -> o_to_address o = addressBytes (To r) ->
     ~ pricing_pending (ChainEID r) o) /\
  (exists o, tx_outbox db' !! id = Some o /\ pricing_pending (ChainEID r) o) /\
  (forall r2 now2, ChainEID r2 = ChainEID r -> Purpose r2 = Purpose r -> To r2 = To r ->
     SignerID r2 <> ""%string -> GUID r2 = GUID r ->
     EnqueuePricingSnapshotTx r2 now2 db' = (db', Err ErrPricingPendingExists)).
Proof.
  unfold EnqueuePricingSnapshotTx at 1, run_tx, mbind, result_bind.
  case_decide as Hc; [|done]. case_decide as Hp; [|done]. case_decide as Ht; [|done].
  case_decide; [|done]. destruct (lockTxSendScope _ _ _ _) as [[]|] eqn:El; [|done].
  case_decide as Hex; [|done]. unfold insert_outbox. cbv zeta. intros [= <- <-].
  set (row := request_row r (GUID r) (default 0 (Value r)) now).
  assert (pricing_pending (ChainEID r) row) as Hpend.
  { unfold row, pricing_pending. cbn. split_and!; [done|done|left; unfold txPricingPendingStatuses; set_solver]. }
  split_and!.
  - intros i o Ho Hto Hpen. apply Hex. exists i, o. done.
  - exists row. cbn. rewrite lookup_insert_eq. done.
  - intros r2 now2 Ec Epu Et Hs Eg. unfold EnqueuePricingSnapshotTx, run_tx, mbind, result_bind.
    rewrite Ec, Epu, Et, Eg, !decide_True by done.
    replace (lockTxSendScope _ _ _ _) with (Ok (E:=dberr) tt) by (by rewrite <- El).
    rewrite decide_False; [done|]. intros Hno. apply Hno.
    exists (next_outbox_id db), row. cbn. rewrite lookup_insert_eq. done.
Qed.

