(* ===== verification/GoErr.v ===== *)
(** * Go strings and error values

    The parts of the Go runtime the classifiers use: strings.ToLower, TrimSpace,
    Contains and HasPrefix on ASCII text, hex text, and error values as trees: an
    error has a message, the identities errors.Is and errors.As look for, and
    what Unwrap returns (one error or a joined list). *)

From S2P Require Import Prelude.
From stdpp Require Import base list strings numbers.
From Stdlib Require Import ZArith Lia Ascii.
#[local] Open Scope Z_scope.

(** ** Strings *)

Definition ascii_lower (c : ascii) : ascii :=
  let n := Ascii.N_of_ascii c in
  if decide (65 <= n /\ n <= 90)%N then Ascii.ascii_of_N (n + 32) else c.

Fixpoint ToLower (s : string) : string :=
  match s with
  | EmptyString => EmptyString
  | String c s => String (ascii_lower c) (ToLower s)
  end.

Definition is_space (c : ascii) : bool :=
  let n := Ascii.N_of_ascii c in
  bool_decide (n = 32 \/ (9 <= n /\ n <= 13))%N.

Fixpoint trim_left (s : string) : string :=
  match s with
  | String c s' => if is_space c then trim_left s' else s
  | EmptyString => EmptyString
  end.

Fixpoint trim_right (s : string) : string :=
  match s with
  | EmptyString => EmptyString
  | String c s' =>
    match trim_right s' with
    | EmptyString => if is_space c then EmptyString else String c EmptyString
    | t => String c t
    end
  end.

Definition TrimSpace (s : string) : string := trim_right (trim_left s).

Definition HasPrefix (s p : string) : bool := String.prefix p s.

Fixpoint Contains (s p : string) : bool :=
  String.prefix p s ||
  match s with
  | EmptyString => false
  | String _ s' => Contains s' p
  end.

(** Joining with a separator (strings.StringsJoin). *)
Fixpoint StringsJoin (parts : list string) (sep : string) : string :=
  match parts with
  | [] => EmptyString
  | [p] => p
  | p :: ps => (p +:+ sep +:+ StringsJoin ps sep)%string
  end.

(** ** Hex text (encoding/hex) *)

Definition hex_digit (n : Z) : ascii :=
  Ascii.ascii_of_N (Z.to_N (if decide (n < 10) then 48 + n else 87 + n)).

Fixpoint EncodeToString (b : bytes) : string :=
  match b with
  | [] => EmptyString
  | x :: b =>
    String (hex_digit (byte_val x / 16)) (String (hex_digit (byte_val x mod 16)) (EncodeToString b))
  end.

Definition is_hex_digit (c : ascii) : bool :=
  let n := Ascii.N_of_ascii c in
  bool_decide ((48 <= n /\ n <= 57) \/ (97 <= n /\ n <= 102) \/ (65 <= n /\ n <= 70))%N.

Fixpoint all_chars (P : ascii -> bool) (s : string) : bool :=
  match s with
  | EmptyString => true
  | String c s => P c && all_chars P s
  end.

(** hex.DecodeString succeeds: an even number of hex digits. *)
Definition decodable (s : string) : bool :=
  Nat.even (String.length s) && all_chars is_hex_digit s.

(** ** Errors *)

(** The sentinel errors the worker compares with errors.Is. *)
Inductive sentinel := ContextCanceled | DeadlineExceeded | EOF | ErrUnexpectedEOF | NotFound.
#[export] Instance sentinel_eq_dec : EqDecision sentinel.
Proof. solve_decision. Defined.

(** rpc.DataError's ErrorData *)
Inductive errdata := DataString (s : string) | DataBytes (b : bytes) | DataOther.

(** [e_code] and [e_data] are present on errors that implement rpc.Error and
    rpc.DataError; [e_voted] marks rpcquorum's VotedRevertError; a joined error unwraps to
    all of [e_wraps], another one to its first element if it has one. *)
Inductive goerr := mkErr (e_msg : string) (e_is : option sentinel) (e_code : option Z)
  (e_data : option errdata) (e_voted : bool) (e_joined : bool) (e_wraps : list goerr).

Definition Error (e : goerr) : string := match e with mkErr m _ _ _ _ _ _ => m end.
Definition ErrorCode (e : goerr) : option Z := match e with mkErr _ _ c _ _ _ _ => c end.
Definition ErrorData (e : goerr) : option errdata := match e with mkErr _ _ _ d _ _ _ => d end.
Definition e_sentinel (e : goerr) : option sentinel := match e with mkErr _ i _ _ _ _ _ => i end.
Definition e_voted (e : goerr) : bool := match e with mkErr _ _ _ _ v _ _ => v end.

(** errors.Unwrap: nil on a joined error. *)
Definition Unwrap (e : goerr) : option goerr :=
  match e with mkErr _ _ _ _ _ j w => if j then None else head w end.

(** A plain errors.New / fmt.Errorf value, and fmt.Errorf("..%w..", cause). *)
Definition errNew (msg : string) : goerr := mkErr msg None None None false false [].
Definition errWrap (msg : string) (cause : goerr) : goerr :=
  mkErr msg None None None false false [cause].

(** errors.Join of a non-empty list. *)
Definition errJoin (errs : list goerr) : goerr :=
  mkErr (StringsJoin (Error <$> errs) (String (Ascii.ascii_of_N 10) EmptyString)) None None None
    false true errs.

(** The pre-order walk of errors.As: the first error of the tree that [f] accepts. *)
Fixpoint err_find {A} (f : goerr -> option A) (e : goerr) : option A :=
  match f e with
  | Some a => Some a
  | None =>
    match e with
    | mkErr _ _ _ _ _ j w =>
      if j then
        (fix walk (l : list goerr) : option A :=
           match l with
           | [] => None
           | x :: l => match err_find f x with Some a => Some a | None => walk l end
           end) w
      else match w with [] => None | x :: _ => err_find f x end
    end
  end.

Definition errors_Is (e : goerr) (s : sentinel) : bool :=
  match err_find (fun x => if decide (e_sentinel x = Some s) then Some tt else None) e with
  | Some _ => true
  | None => false
  end.

(** errors.As(err, &rpc.Error), errors.As(err, &rpc.DataError), IsVotedRevert *)
Definition as_rpc_error (e : goerr) : option (Z * string) :=
  err_find (fun x => (fun c => (c, Error x)) <$> ErrorCode x) e.
Definition as_data_error (e : goerr) : option errdata := err_find ErrorData e.
Definition IsVotedRevert (e : goerr) : bool :=
  match err_find (fun x => if e_voted x then Some tt else None) e with
  | Some _ => true
  | None => false
  end.

(** ** Facts *)

Lemma Contains_spec s p : Contains s p = true <-> exists a b, s = (a +:+ p +:+ b)%string.
Proof.
  assert (forall p s, String.prefix p s = true <-> exists b, s = (p +:+ b)%string) as Hpre.
  { clear. intros p. induction p as [|c p IH]; intros s; [cbn; split; eauto; by destruct s|].
    destruct s as [|d s]; cbn [String.prefix].
    - split; [done|]. intros [b Hb]. done.
    - destruct (ascii_dec c d) as [->|Hne].
      + rewrite IH. split; intros [b Hb]; exists b; [by subst|by injection Hb].
      + split; [done|]. intros [b Hb]. by injection Hb. }
  induction s as [|c s IH]; cbn [Contains]; rewrite orb_true_iff.
  - rewrite Hpre. split; [intros [[b Hb]|?]; [by exists EmptyString, b|done]|].
    intros (a & b & H). left. destruct a; [by exists b|done].
  - rewrite Hpre, IH. split.
    + intros [[b Hb]|(a & b & ->)]; [by exists EmptyString, b|by exists (String c a), b].
    + intros (a & b & H). destruct a as [|c' a]; [left; by exists b|].
      right. injection H as <- ->. by exists a, b.
Qed.

Lemma err_find_self {A} (f : goerr -> option A) e a : f e = Some a -> err_find f e = Some a.
Proof. destruct e; cbn. by intros ->. Qed.
