(* ===== verification/Classify.v ===== *)
(** * Error classifiers (go/internal/txmgr/classify.go, sender.go; rpcquorum/state_reads.go)

    How a broadcast error decides the next action of an attempt, when a gas
    estimate counts as a revert, and when a provider's error is a votable EVM
    revert. *)

From S2P Require Import Prelude Schema GoErr.
From stdpp Require Import base list strings numbers.
From Stdlib Require Import ZArith Lia Ascii.
#[local] Open Scope Z_scope.

(** ** Broadcast errors *)

(** The messages of every error in the Unwrap chain, at most eight levels down. *)
Fixpoint chain_parts (depth : nat) (e : goerr) : list string :=
  if decide (8 < depth)%nat then [] else
  Error e ::
  match e with
  | mkErr _ _ _ _ _ j w =>
    if j then
      (fix walk (l : list goerr) : list string :=
         match l with [] => [] | x :: l => chain_parts (S depth) x ++ walk l end) w
    else match w with [] => [] | x :: _ => chain_parts (S depth) x end
  end.

Definition newline : string := String (Ascii.ascii_of_N 10) EmptyString.

Definition errorChainText (e : goerr) : string := StringsJoin (chain_parts 0 e) newline.

Definition underpriced_phrases : list string :=
  [ "replacement transaction underpriced"; "transaction underpriced";
    "transaction gas price below minimum"; "max fee per gas less than block base fee";
    "max priority fee per gas higher than max fee per gas" ]%string.
Definition retryable_phrases : list string :=
  [ "insufficient funds"; "txpool is full"; "account limit exceeded" ]%string.
Definition definitive_phrases : list string :=
  [ "intrinsic gas too low"; "exceeds block gas limit"; "invalid sender"; "sender not an eoa";
    "transaction type not supported"; "only replay-protected"; "oversized data";
    "negative value"; "gas limit reached" ]%string.

(** The first phrase of the list the message contains. *)
Definition match_phrase (msg : string) (phrases : list string) : option string :=
  head (filter (fun p => Contains msg p = true) phrases).

Definition transport_failure (e : goerr) : bool :=
  errors_Is e ContextCanceled || errors_Is e DeadlineExceeded ||
  errors_Is e EOF || errors_Is e ErrUnexpectedEOF.

(** The phrase tables in the order the code consults them. *)
Definition phrase_table : list (SendErrorClass * list string) :=
  [ (SendErrorAccepted, ["already known"%string]);
    (SendErrorNonceTooLow, ["nonce too low"%string]);
    (SendErrorNonceTooHigh, ["nonce too high"%string]);
    (SendErrorUnderpriced, underpriced_phrases);
    (SendErrorRetryableEnv, retryable_phrases);
    (SendErrorDefinitive, definitive_phrases) ].

Fixpoint first_match (msg : string) (table : list (SendErrorClass * list string))
    : SendErrorClass * string :=
  match table with
  | [] => (SendErrorAmbiguous, "unrecognized broadcast error"%string)
  | (class, phrases) :: table =>
    match match_phrase msg phrases with
    | Some phrase => (class, phrase)
    | None => first_match msg table
    end
  end.

Definition classifyBroadcastError (err : option goerr) : SendErrorClass * string :=
  match err with
  | None => (SendErrorAccepted, ""%string)
  | Some e =>
    if transport_failure e
    then (SendErrorAmbiguous, "transport failure before acknowledgement"%string)
    else first_match (ToLower (errorChainText e)) phrase_table
  end.

(** ** Gas-estimate reverts *)

Definition containsRevertText (value : string) : bool :=
  let normalized := ToLower value in
  Contains normalized "execution reverted" || Contains normalized "reverted".

(** The loop over errors.Unwrap: a joined error ends it. *)
Fixpoint errorChainContainsRevertText (e : goerr) : bool :=
  containsRevertText (Error e) ||
  match e with
  | mkErr _ _ _ _ _ j w =>
    if j then false else match w with [] => false | x :: _ => errorChainContainsRevertText x end
  end.

Definition isRevertErrorData (data : errdata) : bool :=
  match data with
  | DataString value =>
    let normalized := ToLower (TrimSpace value) in
    HasPrefix normalized "0x" || containsRevertText normalized
  | DataBytes value => bool_decide (value <> [])
  | DataOther => false
  end.

Definition isEstimateGasRevert (e : goerr) : bool :=
  IsVotedRevert e ||
  match as_data_error e with Some d => isRevertErrorData d | None => false end ||
  match as_rpc_error e with Some (code, _) => bool_decide (code = 3) | None => false end ||
  errorChainContainsRevertText e.

(** ** Votable reverts (rpcquorum) *)

Definition isASCIILetter (c : ascii) : bool :=
  let n := Ascii.N_of_ascii c in
  bool_decide ((97 <= n /\ n <= 122) \/ (65 <= n /\ n <= 90))%N.

Abbreviation text := (list ascii).
Definition text_of (s : string) : text := String.list_ascii_of_string s.

Definition revert_word : text := text_of "revert".
Definition ed_suffix : text := text_of "ed".

(** strings.Index *)
Fixpoint text_index (l w : text) : option nat :=
  if decide (take (length w) l = w) then Some O
  else match l with [] => None | _ :: l => S <$> text_index l w end.

(** The leading run of ASCII letters. *)
Fixpoint letter_run (l : text) : text :=
  match l with
  | c :: l => if isASCIILetter c then c :: letter_run l else []
  | [] => []
  end.

(** The scan from [index]; [None] when the fuel runs out. *)
Fixpoint revert_loop (fuel : nat) (message : text) (index : nat) : option bool :=
  match fuel with
  | O => None
  | S fuel =>
    match text_index (drop index message) revert_word with
    | None => Some false
    | Some offset =>
      let start := (index + offset)%nat in
      let suffix := letter_run (drop (start + length revert_word) message) in
      let stop := (start + length revert_word + length suffix)%nat in
      let precededByLetter :=
        match start with
        | O => false
        | S before => match message !! before with Some c => isASCIILetter c | None => false end
        end in
      if decide (suffix = [] \/ suffix = ed_suffix)
      then if precededByLetter then revert_loop fuel message stop else Some true
      else revert_loop fuel message stop
    end
  end.

Definition containsRevertWord (message : string) : bool :=
  let message := text_of message in
  default false (revert_loop (S (length message)) message 0).

Definition canonicalRevertData (e : goerr) : option string :=
  match as_data_error e with
  | Some (DataString payload) =>
    let normalized := ToLower (TrimSpace payload) in
    if decide ((String.length normalized <= 2)%nat \/ HasPrefix normalized "0x" = false) then None
    else
      let body := String.substring 2 (String.length normalized - 2) normalized in
      if decodable body then Some normalized else None
  | Some (DataBytes payload) =>
    if decide (payload = []) then None else Some ("0x" +:+ EncodeToString payload)%string
  | Some DataOther | None => None
  end.

Definition revertEvidence (e : goerr) : bool :=
  match as_rpc_error e with
  | None => false
  | Some (code, msg) =>
    if decide (code = 3) then true else
    let message := ToLower msg in
    if containsRevertWord message then true
    else if Contains message "vm execution error"
    then match canonicalRevertData e with Some _ => true | None => false end
    else false
  end.

Definition isDeterministicRevert (e : goerr) : bool := revertEvidence e.

Definition revertFingerprint (e : goerr) : string :=
  match canonicalRevertData e with
  | Some data => "rd:" +:+ data
  | None =>
    match as_rpc_error e with
    | Some (_, msg) => "rm:" +:+ ToLower (TrimSpace msg)
    | None => "rm:" +:+ ToLower (TrimSpace (Error e))
    end
  end%string.

(** ** The broadcast classifier is conservative *)

Lemma match_phrase_Some msg l p : match_phrase msg l = Some p -> p ∈ l /\ Contains msg p = true.
Proof.
  unfold match_phrase. intros H%head_Some_elem_of.
  apply list_elem_of_filter in H as [? ?]. done.
Qed.

Lemma match_phrase_None msg l : match_phrase msg l = None -> forall p, p ∈ l -> Contains msg p = false.
Proof.
  unfold match_phrase. intros H p Hp. destruct (Contains msg p) eqn:E; [|done].
  assert (p ∈ filter (fun p => Contains msg p = true) l) as Hin by (by apply list_elem_of_filter).
  destruct (filter _ l); [by apply elem_of_nil in Hin|done].
Qed.

Lemma first_match_spec msg table class detail :
  first_match msg table = (class, detail) -> class <> SendErrorAmbiguous ->
  exists before phrases after, table = before ++ (class, phrases) :: after /\
    detail ∈ phrases /\ Contains msg detail = true /\
    forall c ps p, (c, ps) ∈ before -> p ∈ ps -> Contains msg p = false.
Proof.
  induction table as [|[c ps] table IH]; cbn; intros H Hc; [congruence|].
  destruct (match_phrase msg ps) as [p|] eqn:E.
  - injection H as <- <-. apply match_phrase_Some in E as [? ?].
    exists [], ps, table. split_and!; try done. intros ??? []%elem_of_nil.
  - destruct (IH H Hc) as (b & phr & a & -> & ? & ? & Hb). exists ((c, ps) :: b), phr, a.
    split_and!; try done. intros c' ps' p [[= -> ->]|Hin]%elem_of_cons Hp; [|by eapply Hb].
    by eapply match_phrase_None.
Qed.

(** only a recognised node phrase moves an attempt away from "possibly accepted": whenever
    classifyBroadcastError returns a class other than ambiguous for an error, the error is no
    transport failure or cancellation, the recorded detail is one of that class's phrases and
    occurs in the (lower-cased) error chain, and no phrase of a class consulted earlier occurs
    in it. *)
Theorem classifyBroadcastError_conservative e class detail :
  classifyBroadcastError (Some e) = (class, detail) -> class <> SendErrorAmbiguous ->
  transport_failure e = false /\
  exists before phrases after, phrase_table = before ++ (class, phrases) :: after /\
    detail ∈ phrases /\
    (exists a b, ToLower (errorChainText e) = a +:+ detail +:+ b)%string /\
    forall c ps p, (c, ps) ∈ before -> p ∈ ps ->
      Contains (ToLower (errorChainText e)) p = false.
Proof.
  unfold classifyBroadcastError. destruct (transport_failure e); [intros [= <- <-]; congruence|].
  intros H Hc. split; [done|].
  destruct (first_match_spec _ _ _ _ H Hc) as (b & ps & a & ? & ? & Hin & ?).
  exists b, ps, a. split_and!; try done. by apply Contains_spec.
Qed.

(** A quorum client's wrapper around a node's answer. *)
Definition sample_send_error : goerr :=
  errWrap "provider[0] eth_sendRawTransaction failed" (errNew "Nonce too LOW: next nonce 5").

Lemma classifyBroadcastError_conservative_witness :
  classifyBroadcastError (Some sample_send_error) = (SendErrorNonceTooLow, "nonce too low"%string) /\
  transport_failure sample_send_error = false.
Proof.
  split; [vm_compute; reflexivity|].
  apply (classifyBroadcastError_conservative sample_send_error SendErrorNonceTooLow
           "nonce too low"); [vm_compute; reflexivity|discriminate].
Defined.

(** ** The revert-word scanner *)

(** "revert" or "reverted" stands at position [k] as a word of its own. *)
Definition revert_at (m : text) (k : nat) : Prop :=
  (exists suf rest, drop k m = revert_word ++ suf ++ rest /\ (suf = [] \/ suf = ed_suffix) /\
     letter_run rest = []) /\
  (forall j c, k = S j -> m !! j = Some c -> isASCIILetter c = false).

Lemma text_index_Some l w i :
  text_index l w = Some i ->
  take (length w) (drop i l) = w /\ forall j, (j < i)%nat -> take (length w) (drop j l) <> w.
Proof.
  revert i. induction l as [|c l IH]; intros i; cbn [text_index]; case_decide as Hd; try done.
  - intros [= <-]. split; [done|lia].
  - intros [= <-]. split; [done|lia].
  - destruct (text_index l w) as [i'|] eqn:E; [|done]. intros [= <-].
    destruct (IH i' eq_refl) as [H1 H2]. split; [done|]. intros [|j] Hj; [done|]. apply H2. lia.
Qed.

Lemma text_index_None l w j : text_index l w = None -> w <> [] -> take (length w) (drop j l) <> w.
Proof.
  revert j. induction l as [|c l IH]; intros j; cbn [text_index]; case_decide as Hd; try done.
  - intros _ Hw. rewrite drop_nil, take_nil. congruence.
  - destruct (text_index l w) as [i'|] eqn:E; [done|]. intros _ Hw. destruct j; [done|]. by apply IH.
Qed.

Lemma letter_run_app suf rest :
  Forall (fun c => isASCIILetter c = true) suf -> letter_run rest = [] ->
  letter_run (suf ++ rest) = suf.
Proof. induction 1 as [|c suf Hc _ IH]; intros Hr; cbn; [done|]. by rewrite Hc, IH. Qed.

Lemma letter_run_split l :
  exists rest, l = letter_run l ++ rest /\ letter_run rest = [] /\
    Forall (fun c => isASCIILetter c = true) (letter_run l).
Proof.
  induction l as [|c l (rest & Hl & Hr & Hf)]; cbn; [by exists []|].
  destruct (isASCIILetter c) eqn:E.
  - exists rest. cbn. rewrite <- Hl. split_and!; auto.
  - exists (c :: l). cbn. rewrite E. done.
Qed.

Lemma suffix_letters suf : suf = [] \/ suf = ed_suffix ->
  Forall (fun c => isASCIILetter c = true) suf.
Proof. intros [->| ->]; repeat constructor. Qed.

(** Positions strictly inside a letter run cannot start a word. *)
Lemma no_word_inside m start k :
  take (length revert_word) (drop start m) = revert_word ->
  (start < k < start + length revert_word + length (letter_run (drop (start + length revert_word) m)))%nat ->
  ~ revert_at m k.
Proof.
  intros Ht Hk [_ Hprev]. destruct k as [|j]; [lia|].
  destruct (letter_run_split (drop (start + length revert_word) m)) as (rest & Hs & _ & Hf).
  set (run := letter_run _) in *.
  assert (drop start m = (revert_word ++ run) ++ rest) as Hd.
  { rewrite <- (take_drop (length revert_word) (drop start m)), Ht, drop_drop, Hs. by rewrite <- app_assoc. }
  assert (Forall (fun c => isASCIILetter c = true) (revert_word ++ run)) as Hall.
  { apply Forall_app. split; [repeat constructor|done]. }
  destruct (lookup_lt_is_Some_2 (revert_word ++ run) (j - start)) as [c Hc].
  { rewrite length_app. lia. }
  assert (m !! j = Some c) as Hm.
  { replace j with (start + (j - start))%nat by lia. rewrite <- lookup_drop, Hd.
    by apply lookup_app_l_Some. }
  pose proof (Forall_lookup_1 _ _ _ _ Hall Hc) as Hl. cbn beta in Hl. rewrite (Hprev j c eq_refl Hm) in Hl. done.
Qed.

(** One turn of the scan: the first occurrence at or after [index] and its letter run. *)
Section scan.
Context (m : text) (index off : nat).
Let start := (index + off)%nat.
Let run := letter_run (drop (start + length revert_word) m).
Let stop := (start + length revert_word + length run)%nat.
Hypothesis Hidx : text_index (drop index m) revert_word = Some off.

Lemma scan_split : exists rest, drop start m = revert_word ++ run ++ rest /\ letter_run rest = [].
Proof.
  apply text_index_Some in Hidx as [Ht _]. rewrite drop_drop in Ht. fold start in Ht.
  destruct (letter_run_split (drop (start + length revert_word) m)) as (rest & Hs & Hr & _).
  exists rest. split; [|done]. rewrite <- (take_drop (length revert_word) (drop start m)), Ht.
  by rewrite drop_drop, Hs.
Qed.

Lemma scan_progress : (index < stop <= length m)%nat.
Proof.
  destruct scan_split as (rest & Hd & _). apply (f_equal length) in Hd.
  rewrite length_drop, !length_app in Hd. assert (length revert_word = 6)%nat by done.
  unfold stop, start in *. lia.
Qed.

(** Later words start at [start] or past the run. *)
Lemma scan_where k : (index <= k)%nat -> revert_at m k -> k = start \/ (stop <= k)%nat.
Proof.
  intros Hk Hat. apply text_index_Some in Hidx as [Ht Hmin]. rewrite drop_drop in Ht.
  destruct (decide (k < start)%nat) as [Hlt|Hge].
  - exfalso. destruct Hat as [(suf & rst & Hdk & _) _]. apply (Hmin (k - index)%nat); [unfold start in Hlt; lia|].
    rewrite drop_drop, Nat.add_comm, Nat.sub_add, Hdk by lia. by rewrite take_app_length.
  - destruct (decide (k = start)) as [->|Hne]; [by left|]. right.
    destruct (decide (k < stop)%nat); [|lia].
    exfalso. apply (no_word_inside m start k); [done| |done]. unfold stop, run in *. lia.
Qed.

Lemma scan_start : revert_at m start <->
  (run = [] \/ run = ed_suffix) /\
  (forall j c, start = S j -> m !! j = Some c -> isASCIILetter c = false).
Proof.
  split.
  - intros [(suf & rst & Hdk & Hsuf & Hrs) Hp]. split; [|done].
    assert (run = suf) as ->; [|done]. unfold run. rewrite <- drop_drop, Hdk.
    rewrite drop_app_length. apply letter_run_app; [by apply suffix_letters|done].
  - intros [Hrun Hp]. split; [|done]. destruct scan_split as (rest & Hd & Hr). eauto.
Qed.
End scan.

Lemma revert_loop_spec fuel m index :
  (index <= length m < fuel + index)%nat ->
  exists b, revert_loop fuel m index = Some b /\
    (b = true <-> exists k, (index <= k)%nat /\ revert_at m k).
Proof.
  revert index. induction fuel as [|fuel IH]; intros index Hf; [lia|]. cbn [revert_loop].
  destruct (text_index (drop index m) revert_word) as [off|] eqn:Ei; cycle 1.
  { exists false. split; [done|]. split; [done|]. intros (k & Hk & (suf & rest & Hd & _) & _).
    exfalso. apply (text_index_None _ _ (k - index) Ei); [done|].
    rewrite drop_drop, Nat.add_comm, Nat.sub_add, Hd by lia. by rewrite take_app_length. }
  pose proof (scan_progress m index off Ei) as Hp. pose proof (scan_where m index off Ei) as Hw.
  pose proof (scan_start m index off Ei) as Hs. cbv zeta.
  set (run := letter_run _) in *. set (stop := (_ + length run)%nat) in *.
  destruct (IH stop ltac:(lia)) as (b & Hb & Hspec).
  set (pre := match (index + off)%nat with O => false | S _ => _ end).
  assert (pre = false <-> forall j c, (index + off)%nat = S j -> m !! j = Some c ->
    isASCIILetter c = false) as Hpre.
  { unfold pre. destruct (index + off)%nat as [|j]; [split; [intros _ ?? [=]|done]|].
    split; [intros H j' c [= <-] Hm; by rewrite Hm in H|].
    intros H. destruct (m !! j) as [c|] eqn:Ec; [by apply (H j)|done]. }
  assert (~ revert_at m (index + off) -> (b = true <-> exists k, (index <= k)%nat /\ revert_at m k))
    as Hskip.
  { intros Hno. rewrite Hspec. split; intros (k & Hk & Hat); [exists k; split; [lia|done]|].
    exists k. split; [|done]. destruct (Hw k Hk Hat) as [->|]; [done|lia]. }
  rewrite <- Hpre in Hs. destruct (decide (run = [] \/ run = ed_suffix)) as [Hr|Hr].
  - destruct pre; [exists b; split; [done|]; apply Hskip; by intros [_ ?]%Hs|].
    exists true. split; [done|]. split; [intros _|done]. exists (index + off)%nat.
    split; [lia|]. by apply Hs.
  - exists b. split; [done|]. apply Hskip. by intros [? _]%Hs.
Qed.

(** containsRevertWord is exactly the word test its comment describes: it terminates within
    the message length and answers true if and only if "revert" or "reverted" occurs with no
    ASCII letter before or after it. *)
Theorem containsRevertWord_spec s :
  containsRevertWord s = true <-> exists k, revert_at (text_of s) k.
Proof.
  unfold containsRevertWord.
  destruct (revert_loop_spec (S (length (text_of s))) (text_of s) 0 ltac:(lia)) as (b & -> & Hb).
  cbn [default]. rewrite Hb. split; [intros (k & _ & ?); eauto|intros (k & ?); exists k].
  split; [lia|done].
Qed.

Example revert_words :
  containsRevertWord "vm exception: revert not owner" = true /\
  containsRevertWord "execution reverted" = true /\
  containsRevertWord "reverting proxy misconfigured" = false /\
  containsRevertWord "irrevert" = false.
Proof. vm_compute. done. Qed.
