(* ===== verification/Voting.v ===== *)
(** * Majority votes

    The arithmetic every quorum read of go/internal/rpcquorum shares: the fixed
    quorum of the configured provider count, vote tallies as Go maps, and the
    facts that make a majority trustworthy (two quorums intersect, a majority
    value is unique). *)

From S2P Require Import Prelude.
From stdpp Require Import base gmap list numbers fin_maps sorting.
From Stdlib Require Import ZArith Lia.

Open Scope nat_scope.

(** q = floor(N/2)+1 over the configured provider count. *)
Definition quorum (total : nat) : nat := total / 2 + 1.

Lemma quorum_majority total : total < 2 * quorum total.
Proof.
  unfold quorum. pose proof (Nat.div_mod_eq total 2). pose proof (Nat.mod_upper_bound total 2). lia.
Qed.

Lemma quorum_pos total : 0 < quorum total.
Proof. unfold quorum. lia. Qed.

(** ** Tallies *)

Section tally.
Context {K : Type} `{Countable K}.

Definition tally (k : K) (l : list K) : nat := length (filter (fun x => x = k) l).

(** [votes[k]++] over a list of votes. *)
Definition count_votes (l : list K) : gmap K nat :=
  foldr (fun k m => <[k := S (default 0 (m !! k))]> m) ∅ l.

(** [for k, count := range votes { if count > best { best = count; winner = k } }]; Go ranges
    in any order, [map_fold] in one. *)
Definition best_vote (votes : gmap K nat) (zero : K) : K * nat :=
  map_fold (fun k count best => if decide (snd best < count) then (k, count) else best)
    (zero, 0) votes.

Lemma tally_cons k x l : tally k (x :: l) = (if decide (x = k) then 1 else 0) + tally k l.
Proof. unfold tally. rewrite filter_cons. by case_decide. Qed.

Lemma tally_app k l1 l2 : tally k (l1 ++ l2) = tally k l1 + tally k l2.
Proof. unfold tally. by rewrite filter_app, length_app. Qed.

Lemma tally_le k l : tally k l <= length l.
Proof. apply length_filter. Qed.

#[global] Instance tally_proper k : Proper (Permutation ==> eq) (tally k).
Proof. intros l l' Hp. unfold tally. by rewrite Hp. Qed.

Lemma count_votes_lookup l k : default 0 (count_votes l !! k) = tally k l.
Proof.
  induction l as [|x l IH]; [done|].
  change (count_votes (x :: l)) with (<[x := S (default 0 (count_votes l !! x))]> (count_votes l)).
  rewrite tally_cons, <- IH.
  case_decide as E; [subst; by rewrite lookup_insert_eq|by rewrite lookup_insert_ne].
Qed.

Lemma best_vote_spec votes zero :
  let '(k, n) := best_vote votes zero in
  (forall j c, votes !! j = Some c -> c <= n) /\ (0 < n -> votes !! k = Some n).
Proof.
  unfold best_vote.
  apply (map_fold_weak_ind (fun r m => let '(k, n) := r in
    (forall j c, m !! j = Some c -> c <= n) /\ (0 < n -> m !! k = Some n))).
  - split; [intros j c Hj; by rewrite lookup_empty in Hj|lia].
  - intros i x m [k n] Hi [Hle Hk]. cbn [snd].
    destruct (decide (n < x)) as [Hlt|Hge].
    + split; [|by rewrite lookup_insert_eq]. intros j c [[<- <-]|[_ Hj]]%lookup_insert_Some; [lia|].
      apply Hle in Hj. lia.
    + split; [intros j c [[<- <-]|[_ Hj]]%lookup_insert_Some; [lia|eauto]|].
      intros Hn. specialize (Hk Hn). rewrite lookup_insert_ne; [done|]. intros ->. congruence.
Qed.

(** Tallying and picking the best finds a value with [q] votes whenever there is one. *)
Lemma best_vote_tally l zero k n :
  best_vote (count_votes l) zero = (k, n) ->
  (0 < n -> tally k l = n) /\ (forall j, tally j l <= n).
Proof.
  intros E. pose proof (best_vote_spec (count_votes l) zero) as Hs. rewrite E in Hs.
  destruct Hs as [Hle Hk]. split.
  - intros Hn. rewrite <- count_votes_lookup, (Hk Hn). done.
  - intros j. rewrite <- count_votes_lookup. destruct (count_votes l !! j) as [c|] eqn:Ej; [|cbn; lia].
    by apply Hle in Ej.
Qed.

Lemma tally_two k j l : k <> j -> tally k l + tally j l <= length l.
Proof.
  intros Hne. induction l as [|x l IH]; [done|]. rewrite !tally_cons. cbn [length].
  repeat case_decide; subst; try congruence; lia.
Qed.

(** A majority value is unique. *)
Lemma majority_unique total l k j :
  length l <= total -> quorum total <= tally k l -> quorum total <= tally j l -> k = j.
Proof.
  intros Hl Hk Hj. destruct (decide (k = j)) as [|Hne]; [done|].
  pose proof (tally_two k j l Hne). pose proof (quorum_majority total). lia.
Qed.
End tally.

(** ** Intersecting quorums *)

Lemma filters_intersect {A} (P Q : A -> Prop) `{forall x, Decision (P x)} `{forall x, Decision (Q x)} l :
  length l < length (filter P l) + length (filter Q l) -> exists x, x ∈ l /\ P x /\ Q x.
Proof.
  induction l as [|a l IH]; cbn [length]; [cbn; lia|]. rewrite !filter_cons.
  destruct (decide (P a)), (decide (Q a)); cbn [length]; intros Hl.
  - exists a. split; [apply elem_of_cons; by left|done].
  - destruct IH as (x & ? & ?); [lia|]. exists x. split; [by apply elem_of_cons; right|done].
  - destruct IH as (x & ? & ?); [lia|]. exists x. split; [by apply elem_of_cons; right|done].
  - destruct IH as (x & ? & ?); [lia|]. exists x. split; [by apply elem_of_cons; right|done].
Qed.

(** The providers satisfying [P], out of [total]. *)
Definition those (total : nat) (P : nat -> Prop) `{forall i, Decision (P i)} : list nat :=
  filter P (seq 0 total).

(** Two groups of at least a quorum of providers share a member. *)
Lemma quorums_intersect total P Q `{forall i, Decision (P i)} `{forall i, Decision (Q i)} :
  quorum total <= length (those total P) -> quorum total <= length (those total Q) ->
  exists i, i < total /\ P i /\ Q i.
Proof.
  intros Hp Hq. destruct (filters_intersect P Q (seq 0 total)) as (i & Hi & HP & HQ).
  - pose proof (quorum_majority total). rewrite length_seq. unfold those in *. lia.
  - exists i. apply elem_of_seq in Hi. split; [lia|done].
Qed.

Lemma tally_omap {A K} `{Countable K} (f : A -> option K) k l :
  tally k (omap f l) = length (filter (fun x => f x = Some k) l).
Proof.
  induction l as [|a l IH]; [done|]. cbn [omap list_omap]. rewrite filter_cons.
  destruct (f a) as [x|]; [rewrite tally_cons, IH|rewrite IH]; repeat case_decide; simplify_eq; done.
Qed.

Lemma length_omap_le {A B} (f : A -> option B) l : length (omap f l) <= length l.
Proof.
  induction l as [|a l IH]; [done|]. change (omap f (a :: l)) with
    (match f a with Some b => b :: omap f l | None => omap f l end).
  destruct (f a); cbn; lia.
Qed.

Lemma length_filter_omap {A B} (f : A -> option B) (P : B -> Prop) (Q : A -> Prop)
    `{forall x, Decision (P x)} `{forall x, Decision (Q x)} l :
  (forall x, Q x <-> from_option P False (f x)) ->
  length (filter P (omap f l)) = length (filter Q l).
Proof.
  intros HQ. induction l as [|a l IH]; [done|]. cbn [omap list_omap]. rewrite (filter_cons Q).
  specialize (HQ a). destruct (f a) as [b|]; cbn [from_option] in HQ.
  - rewrite filter_cons. repeat case_decide; cbn; rewrite ?IH; tauto || done.
  - rewrite decide_False by tauto. done.
Qed.

Lemma length_filter_fmap {A B} (f : A -> B) (P : B -> Prop) (Q : A -> Prop)
    `{forall x, Decision (P x)} `{forall x, Decision (Q x)} l :
  (forall x, Q x <-> P (f x)) -> length (filter P (f <$> l)) = length (filter Q l).
Proof.
  intros HQ. induction l as [|a l IH]; [done|]. rewrite fmap_cons, !filter_cons. specialize (HQ a).
  repeat case_decide; cbn; rewrite ?IH; tauto || done.
Qed.

Lemma filter_length_mono {A} (P Q : A -> Prop) `{forall x, Decision (P x)} `{forall x, Decision (Q x)} l :
  (forall x, x ∈ l -> P x -> Q x) -> length (filter P l) <= length (filter Q l).
Proof.
  intros HPQ. induction l as [|a l IH]; [done|]. rewrite !filter_cons.
  specialize (IH (fun x Hx => HPQ x ltac:(apply elem_of_cons; by right))).
  destruct (decide (P a)); [rewrite decide_True by (apply HPQ; [apply elem_of_cons; by left|done]); cbn; lia|].
  case_decide; cbn; lia.
Qed.

(** ** Votes that return at the first majority

    The receive loop over the probes' completions: the first value to reach the
    quorum wins; otherwise the number of usable answers. *)

Fixpoint vote_loop {K} `{Countable K} (q : nat) (arrivals : list (option K))
    (votes : gmap K nat) (responded : nat) : K + nat :=
  match arrivals with
  | [] => inr responded
  | None :: arrivals => vote_loop q arrivals votes responded
  | Some k :: arrivals =>
    let n := S (default 0 (votes !! k)) in
    if decide (q <= n) then inl k
    else vote_loop q arrivals (<[k := n]> votes) (S responded)
  end.

Section vote_loop.
Context {K : Type} `{Countable K}.

Definition answers (arrivals : list (option K)) : list K := omap (fun a => a) arrivals.

(** The loop's state is the tally of the arrivals already consumed. *)
Lemma vote_loop_spec q arrivals votes responded seen :
  0 < q -> (forall k, default 0 (votes !! k) = tally k seen) -> responded = length seen ->
  (forall k, tally k seen < q) ->
  match vote_loop q arrivals votes responded with
  | inl k => q <= tally k (seen ++ answers arrivals)
  | inr n => n = length (seen ++ answers arrivals) /\
             forall k, tally k (seen ++ answers arrivals) < q
  end.
Proof.
  intros Hq. revert votes responded seen. induction arrivals as [|[k|] arrivals IH];
    intros votes responded seen Hv Hr Hlt; cbn [vote_loop answers].
  - cbn. rewrite app_nil_r. done.
  - change (answers (Some k :: arrivals)) with (k :: answers arrivals).
    rewrite Hv. destruct (decide (q <= S (tally k seen))) as [Hge|Hno].
    + rewrite tally_app, tally_cons, decide_True by done. lia.
    + specialize (IH (<[k := S (tally k seen)]> votes) (S responded) (seen ++ [k])).
      rewrite <- app_assoc in IH. apply IH.
      * intros j. rewrite tally_app, tally_cons. destruct (decide (k = j)) as [<-|Hne].
        -- rewrite lookup_insert_eq. cbn. lia.
        -- rewrite lookup_insert_ne by done. rewrite Hv. cbn. lia.
      * rewrite length_app. cbn. lia.
      * intros j. rewrite tally_app, tally_cons. case_decide as Ej; [subst j; cbn; lia|].
        specialize (Hlt j). cbn. lia.
  - change (answers (None :: arrivals)) with (answers arrivals). by apply IH.
Qed.

Lemma vote_loop_exact q arrivals :
  0 < q ->
  match vote_loop q arrivals ∅ 0 with
  | inl k => q <= tally k (answers arrivals)
  | inr n => n = length (answers arrivals) /\ forall k, tally k (answers arrivals) < q
  end.
Proof.
  intros Hq. apply (vote_loop_spec q arrivals ∅ 0 []); [done|intros k; by rewrite lookup_empty|done|].
  intros k. done.
Qed.

(** The winner does not depend on the order in which the answers arrive. *)
Lemma vote_loop_permutation total (l1 l2 : list (option K)) :
  length l1 <= total -> l1 ≡ₚ l2 ->
  vote_loop (quorum total) l1 ∅ 0 = vote_loop (quorum total) l2 ∅ 0.
Proof.
  intros Hl Hp.
  assert (answers l1 ≡ₚ answers l2) as Ha by (unfold answers; by rewrite Hp).
  assert (length (answers l1) <= total) as Hla.
  { pose proof (length_omap_le (fun a : option K => a) l1). unfold answers. lia. }
  pose proof (vote_loop_exact (quorum total) l1 (quorum_pos _)) as H1.
  pose proof (vote_loop_exact (quorum total) l2 (quorum_pos _)) as H2.
  destruct (vote_loop _ l1 _ _) as [k1|n1], (vote_loop _ l2 _ _) as [k2|n2].
  - f_equal. apply (majority_unique total (answers l1)); [done|done|by rewrite Ha].
  - destruct H2 as [_ H2]. specialize (H2 k1). rewrite <- Ha in H2. lia.
  - destruct H1 as [_ H1]. specialize (H1 k2). rewrite Ha in H1. lia.
  - f_equal. destruct H1 as [-> _], H2 as [-> _]. by rewrite Ha.
Qed.
End vote_loop.
