(* ===== verification/Quorum.v ===== *)
(** * The RPC quorum client: heads, nonces and hashes (go/internal/rpcquorum/quorum.go)

    A round of a quorum read is a function of what every configured provider
    answered: the probes run concurrently, each fills its own slot, and the code
    aggregates the slots (or consumes the completions in whatever order they
    arrive). Error values keep their kind; the diagnostic texts are left out. *)

From S2P Require Import Prelude GoErr Voting.
From stdpp Require Import base gmap list strings numbers fin_maps sorting.
From Stdlib Require Import ZArith Lia.

Open Scope nat_scope.

Inductive ProviderStatus :=
| ProviderHealthy | ProviderLagging | ProviderConflict | ProviderUnavailable.
#[export] Instance ProviderStatus_eq_dec : EqDecision ProviderStatus.
Proof. solve_decision. Defined.

Record configuredProvider := mkProvider {
  pv_status : ProviderStatus; pv_logConflict : bool; pv_stateConflict : bool }.

Record headSnapshot := mkSnapshot {
  hs_number : Z; hs_hash : Hash; hs_tips : gmap nat Z }.

Record Client := mkClient {
  cl_providers : list configuredProvider; cl_head : option headSnapshot }.

#[export] Instance configuredProvider_eta : Eta configuredProvider := fun p =>
  mkProvider (pv_status p) (pv_logConflict p) (pv_stateConflict p).
#[export] Instance Client_eta : Eta Client := fun c => mkClient (cl_providers c) (cl_head c).

Inductive qerr :=
| QuorumUnavailable
| HeadConflict (number : Z)
| LogConflict (fromBlock toBlock : Z)
| ReceiptConflict (txHash : Hash)
| NonceConflict (account : Address)
| StateReadConflict
| EstimateGasConflict (detail : string)
| ReceiptNotFound
| ChainIDMismatch
| VotedRevert (e : goerr)
| ProviderError (e : goerr)
| QErrorf (msg : string).

Definition New (urls : nat) : Client :=
  mkClient (replicate urls (mkProvider ProviderHealthy false false)) None.

(** ** Provider states *)

Definition applyProviderStatuses (statuses : gmap nat ProviderStatus) (c : Client) : Client :=
  c <| cl_providers := imap (fun i p => match statuses !! i with
                                     | Some s => p <| pv_status := s |>
                                     | None => p
                                     end) (cl_providers c) |>.

Definition markUnverifiedUnavailable (statuses : gmap nat ProviderStatus) (total : nat)
    : gmap nat ProviderStatus :=
  foldr (fun i m => match m !! i with
                    | Some _ => m
                    | None => <[i := ProviderUnavailable]> m
                    end) statuses (seq 0 total).

Definition storeHeadSnapshot (s : headSnapshot) (c : Client) : Client := c <| cl_head := Some s |>.

(** [common.Hash{}] *)
Definition zeroHash : Hash := 0%Z.

(** ** CheckHead *)

Section CheckHead.
(** The tip probe of every provider ([None]: an error or no usable header) and the
    historical header hash a provider answers at a height. *)
Context (probe : nat -> option (Z * Hash)) (fetch : nat -> Z -> option Hash).

Definition responders (total : nat) : list (nat * (Z * Hash)) :=
  omap (fun i => (fun th => (i, th)) <$> probe i) (seq 0 total).

(** sort.Slice with [numbers[i] > numbers[j]] *)
Definition sort_desc (l : list Z) : list Z := merge_sort Z.ge l.

(** Skip a height equal to the one before it. *)
Fixpoint distinct_runs (l : list Z) : list Z :=
  match l with
  | [] => []
  | x :: l' =>
    match l' with
    | y :: _ => if decide (x = y) then distinct_runs l' else x :: distinct_runs l'
    | [] => [x]
    end
  end.

Definition candidateHeights (total : nat) : list Z :=
  distinct_runs (drop (quorum total - 1) (sort_desc ((fun r => r.2.1) <$> responders total))).

(** A responder's vote at a height: its probe header at its tip, a fetched header
    below it, nothing above it. *)
Definition vote_at (height : Z) (i : nat) : option Hash :=
  match probe i with
  | None => None
  | Some (tip, h) =>
    match Z.compare tip height with
    | Lt => None
    | Eq => Some h
    | Gt => fetch i height
    end
  end.

Definition level_votes (total : nat) (height : Z) : list (nat * Hash) :=
  omap (fun i => (fun h => (i, h)) <$> vote_at height i) (seq 0 total).

(** The canonical hash of a level: the best hash if it has a quorum of votes. *)
Definition level_winner (total : nat) (height : Z) : option Hash :=
  let votes := level_votes total height in
  if decide (length votes < quorum total) then None else
  let '(canonicalHash, best) := best_vote (count_votes (snd <$> votes)) zeroHash in
  if decide (best < quorum total) then None else Some canonicalHash.

(** The status a provider gets when [height] is accepted at [level]. *)
Definition accepted_status (level : nat) (height : Z) (canonical : Hash) (i : nat)
    : ProviderStatus :=
  match probe i with
  | None => ProviderUnavailable
  | Some (tip, _) =>
    if decide (tip < height)%Z then ProviderLagging else
    match vote_at height i with
    | None => ProviderUnavailable
    | Some h =>
      if decide (h = canonical)
      then if decide (0 < level /\ (height < tip)%Z) then ProviderUnavailable else ProviderHealthy
      else ProviderConflict
    end
  end.

Definition statuses_of (total : nat) (f : nat -> ProviderStatus) : gmap nat ProviderStatus :=
  list_to_map ((fun i => (i, f i)) <$> seq 0 total).

Fixpoint head_levels (total : nat) (level : nat) (heights : list Z)
    : option (nat * Z * Hash) :=
  match heights with
  | [] => None
  | height :: heights =>
    match level_winner total height with
    | Some canonical => Some (level, height, canonical)
    | None => head_levels total (S level) heights
    end
  end.

Definition tip_failures (total : nat) : gmap nat ProviderStatus :=
  list_to_map ((fun i => (i, ProviderUnavailable)) <$> filter (fun i => probe i = None) (seq 0 total)).

Definition CheckHead (c : Client) : Client * result qerr (Z * Hash) :=
  let total := length (cl_providers c) in
  let q := quorum total in
  if decide (total = 0) then (c, Err (QErrorf "no rpc providers configured")) else
  if decide (length (responders total) < q) then
    (applyProviderStatuses (markUnverifiedUnavailable (tip_failures total) total) c,
     Err QuorumUnavailable)
  else
    let heights := candidateHeights total in
    match head_levels total 0 heights with
    | Some (level, height, canonical) =>
      let c := applyProviderStatuses (statuses_of total (accepted_status level height canonical)) c in
      (storeHeadSnapshot
         (mkSnapshot height canonical (list_to_map ((fun r => (r.1, r.2.1)) <$> responders total))) c,
       Ok (height, canonical))
    | None =>
      let first := match heights with height :: _ => height | [] => 0%Z end in
      let firstLevelVotes := level_votes total first in
      if decide (length firstLevelVotes < q) then
        (applyProviderStatuses (markUnverifiedUnavailable (tip_failures total) total) c,
         Err QuorumUnavailable)
      else
        let conflicted := list_to_map ((fun v => (v.1, ProviderConflict)) <$> firstLevelVotes) in
        (applyProviderStatuses
           (markUnverifiedUnavailable (conflicted ∪ tip_failures total) total) c,
         Err (HeadConflict first))
    end.
End CheckHead.

Definition BlockNumber (probe : nat -> option (Z * Hash)) (fetch : nat -> Z -> option Hash)
    (c : Client) : Client * result qerr Z :=
  match CheckHead probe fetch c with
  | (c, Err e) => (c, Err e)
  | (c, Ok (n, _)) =>
    (c, if decide (0 <= n < 2 ^ 64)%Z then Ok n else Err (QErrorf "quorum head number is not a uint64"))
  end.

(** ** Reads that return at the first majority *)

Definition NonceAt (account : Address) (arrivals : list (result goerr Z)) : result qerr Z :=
  let total := length arrivals in
  check total <> 0 or QErrorf "no rpc providers configured" ;;
  let q := quorum total in
  match vote_loop q ((fun a => match a with Ok n => Some n | Err _ => None end) <$> arrivals) ∅ 0 with
  | inl nonce => Ok nonce
  | inr responded =>
    check q <= responded or QuorumUnavailable ;;
    Err (NonceConflict account)
  end.

(** A probe answers a header or fails (a nil header without error is a failure). *)
Definition CanonicalHashAt (blockNumber : option Z) (arrivals : list (result goerr (option Hash)))
    : result qerr Hash :=
  match blockNumber with
  | None => Err (QErrorf "canonical hash lookup requires a block number")
  | Some n =>
    let total := length arrivals in
    check total <> 0 or QErrorf "no rpc providers configured" ;;
    let q := quorum total in
    match vote_loop q ((fun a => match a with Ok h => h | Err _ => None end) <$> arrivals) ∅ 0 with
    | inl h => Ok h
    | inr responded =>
      check q <= responded or QuorumUnavailable ;;
      Err (HeadConflict n)
    end
  end.

(** ** Single-source reads *)

(** sort.SliceStable: insertion from the right, before the first element it is not after. *)
Section stable_sort.
Context {A : Type} (less : A -> A -> bool).

Fixpoint insert_stable (x : A) (l : list A) : list A :=
  match l with
  | [] => [x]
  | y :: l' => if less y x then y :: insert_stable x l' else x :: l
  end.

Definition stable_sort (l : list A) : list A := foldr insert_stable [] l.
End stable_sort.

Definition tip_less (tips : gmap nat Z) (i j : nat) : bool :=
  match tips !! i, tips !! j with
  | None, _ => false
  | Some _, None => true
  | Some ti, Some tj => bool_decide (ti < tj)%Z
  end.

Definition healthyProvidersByTipDistance (c : Client) : list nat :=
  let indices := filter (fun i => pv_status <$> cl_providers c !! i = Some ProviderHealthy)
                   (seq 0 (length (cl_providers c))) in
  match cl_head c with
  | None => indices
  | Some head => stable_sort (tip_less (hs_tips head)) indices
  end.

Definition firstHealthyProvider (c : Client) : result qerr nat :=
  match healthyProvidersByTipDistance c with
  | [] => Err (QErrorf "no healthy rpc providers configured")
  | i :: _ => Ok i
  end.

(** The header fields the worker reads. *)
Record Header := mkHeader {
  hd_Number : Z; hd_Hash : Hash; hd_GasLimit : Z; hd_BaseFee : option Z; hd_Time : Z }.

(** [serve index n] is provider [index]'s answer to eth_getBlockByNumber. *)
Fixpoint canonical_header (serve : nat -> Z -> result goerr (option Header)) (n : Z) (hash : Hash)
    (order : list nat) (lastErr : option goerr) : result qerr Header :=
  match order with
  | [] => match lastErr with
          | Some e => Err (ProviderError e)
          | None => Err (QErrorf "no healthy provider served the canonical header")
          end
  | i :: order =>
    match serve i n with
    | Err e => canonical_header serve n hash order (Some e)
    | Ok (Some h) =>
      if decide (hd_Hash h = hash) then Ok h else canonical_header serve n hash order lastErr
    | Ok None => canonical_header serve n hash order lastErr
    end
  end.

Definition HeaderByNumber (probe : nat -> option (Z * Hash)) (fetch : nat -> Z -> option Hash)
    (serve : nat -> Z -> result goerr (option Header)) (number : option Z) (c : Client)
    : Client * result qerr (option Header) :=
  match number with
  | Some n =>
    (c, match firstHealthyProvider c with
        | Err e => Err e
        | Ok i => match serve i n with Ok h => Ok h | Err e => Err (ProviderError e) end
        end)
  | None =>
    match CheckHead probe fetch c with
    | (c, Err e) => (c, Err e)
    | (c, Ok (n, hash)) =>
      (c, Some <$> canonical_header serve n hash (healthyProvidersByTipDistance c) None)
    end
  end.

(** ** Chain identities *)

(** The providers that do not report the expected chain id ([None]: no id). *)
Definition validateProviderChainIDs (expected : option Z) (ids : list (option Z)) : result qerr unit :=
  match expected with
  | None => Err (QErrorf "expected chain id is required")
  | Some e =>
    check ids <> [] or QErrorf "no rpc providers configured" ;;
    if decide (filter (fun id => id <> Some e) ids = []) then Ok tt else Err ChainIDMismatch
  end.

Definition ValidateChainID (expected : option Z) (replies : list (result goerr (option Z)))
    : result qerr unit :=
  match expected with
  | None => Err (QErrorf "expected chain id is required")
  | Some _ =>
    check replies <> [] or QErrorf "no rpc providers configured" ;;
    match omap (fun r => match r with Err e => Some e | Ok _ => None end) replies with
    | [] => validateProviderChainIDs expected
              (omap (fun r => match r with Ok id => Some id | Err _ => None end) replies)
    | e :: es => Err (ProviderError (errJoin (e :: es)))
    end
  end.

(** ** What a head round proves *)

Section head_proofs.
Context (probe : nat -> option (Z * Hash)) (fetch : nat -> Z -> option Hash).

Lemma level_votes_hashes total height :
  snd <$> level_votes probe fetch total height = omap (vote_at probe fetch height) (seq 0 total).
Proof.
  unfold level_votes. induction (seq 0 total) as [|i l IH]; [done|]. cbn.
  destruct (vote_at probe fetch height i); cbn; by rewrite IH.
Qed.

Lemma level_winner_iff total height canonical :
  level_winner probe fetch total height = Some canonical <->
  quorum total <= length (those total (fun i => vote_at probe fetch height i = Some canonical)).
Proof.
  unfold level_winner, those. cbv zeta. rewrite <- tally_omap, <- level_votes_hashes.
  set (votes := snd <$> level_votes probe fetch total height).
  replace (length (level_votes probe fetch total height)) with (length votes)
    by (unfold votes; by rewrite length_fmap).
  assert (length votes <= total) as Hlen.
  { unfold votes. rewrite level_votes_hashes. pose proof (length_omap_le (vote_at probe fetch height) (seq 0 total)).
    by rewrite length_seq in *. }
  fold votes. destruct (best_vote (count_votes votes) zeroHash) as [k n] eqn:E.
  destruct (best_vote_tally _ _ _ _ E) as [Hk Hle]. pose proof (quorum_pos total).
  split.
  - destruct (decide (length votes < quorum total)); [done|].
    destruct (decide (n < quorum total)); [done|]. intros [= <-]. rewrite Hk; lia.
  - intros Hq. pose proof (tally_le canonical votes). rewrite decide_False by lia.
    specialize (Hle canonical). rewrite decide_False by lia. f_equal.
    apply (majority_unique total votes); [done| |done]. rewrite Hk; lia.
Qed.

Lemma head_levels_Some total level heights l h c :
  head_levels probe fetch total level heights = Some (l, h, c) ->
  h ∈ heights /\ level_winner probe fetch total h = Some c.
Proof.
  revert level. induction heights as [|x heights IH]; intros level; cbn; [done|].
  destruct (level_winner probe fetch total x) eqn:E.
  - intros [= _ <- <-]. split; [apply elem_of_cons; by left|done].
  - intros [? ?]%IH. split; [apply elem_of_cons; by right|done].
Qed.

(** In descending heights the search stops no later than any height with a winner. *)
Lemma head_levels_found total level heights x c :
  StronglySorted Z.ge heights -> x ∈ heights -> level_winner probe fetch total x = Some c ->
  exists l h c', head_levels probe fetch total level heights = Some (l, h, c') /\ (x <= h)%Z.
Proof.
  intros Hs. revert level. induction Hs as [|y heights Hs IH Hf]; intros level Hin Hw;
    [by apply elem_of_nil in Hin|]. cbn.
  destruct (level_winner probe fetch total y) eqn:E.
  - eexists _, _, _. split; [done|]. apply elem_of_cons in Hin as [->|Hin]; [lia|].
    rewrite Forall_forall in Hf. apply Hf in Hin. lia.
  - apply elem_of_cons in Hin as [->|Hin]; [congruence|]. by apply IH.
Qed.

Lemma elem_of_distinct_runs l x : x ∈ distinct_runs l <-> x ∈ l.
Proof.
  induction l as [|a l IH]; [done|]. destruct l as [|b l]; [done|].
  change (distinct_runs (a :: b :: l)) with
    (if decide (a = b) then distinct_runs (b :: l) else a :: distinct_runs (b :: l)).
  case_decide as E; [|rewrite !(elem_of_cons _ _ a), IH; done].
  rewrite IH. subst. rewrite (elem_of_cons (b :: l)). split; [by right|].
  intros [->|?]; [apply elem_of_cons; by left|done].
Qed.

Lemma distinct_runs_sorted l : StronglySorted Z.ge l -> StronglySorted Z.ge (distinct_runs l).
Proof.
  induction 1 as [|a l Hs IH Hf]; [constructor|]. destruct l as [|b l]; [repeat constructor|].
  change (distinct_runs (a :: b :: l)) with
    (if decide (a = b) then distinct_runs (b :: l) else a :: distinct_runs (b :: l)).
  case_decide; [done|]. constructor; [done|]. rewrite Forall_forall in *.
  intros x Hx. apply (proj1 (elem_of_distinct_runs _ _)) in Hx. exact (Hf x Hx).
Qed.

Lemma sorted_drop n l : StronglySorted Z.ge l -> StronglySorted Z.ge (drop n l).
Proof.
  revert l. induction n as [|n IH]; intros l Hs; [done|]. destruct Hs; [constructor|by apply IH].
Qed.

(** A value with at least [S n] elements at or above it survives dropping [n]. *)
Lemma elem_of_drop_sorted n l x :
  StronglySorted Z.ge l -> x ∈ l -> n < length (filter (fun y => x <= y)%Z l) -> x ∈ drop n l.
Proof.
  intros Hs. revert n. induction Hs as [|a l Hs IH Hf]; intros n Hin Hn; [by apply elem_of_nil in Hin|].
  destruct n as [|n]; [done|]. cbn [drop]. rewrite filter_cons in Hn.
  assert (n < length (filter (fun y => x <= y)%Z l)) as Hn'.
  { destruct (decide (x <= a)%Z); cbn in Hn; lia. }
  apply IH; [|done]. apply elem_of_cons in Hin as [->|Hin]; [|done].
  destruct (filter (fun y => a <= y)%Z l) as [|b r] eqn:Ef; [cbn in Hn'; lia|].
  assert (b ∈ filter (fun y => a <= y)%Z l) as Hb by (rewrite Ef; apply elem_of_cons; by left).
  apply list_elem_of_filter in Hb as [Hge Hb]. rewrite Forall_forall in Hf.
  specialize (Hf b Hb). by replace a with b by lia.
Qed.

Lemma candidateHeights_sorted total : StronglySorted Z.ge (candidateHeights probe total).
Proof.
  unfold candidateHeights. apply distinct_runs_sorted, sorted_drop. unfold sort_desc.
  apply StronglySorted_merge_sort; [intros x y z; lia|intros x y; lia].
Qed.

Lemma responders_tips total :
  (fun r => r.2.1) <$> responders probe total = omap (fun i => fst <$> probe i) (seq 0 total).
Proof.
  unfold responders. induction (seq 0 total) as [|i l IH]; [done|]. cbn.
  destruct (probe i) as [[t h]|]; cbn; by rewrite IH.
Qed.

(** The provider's tip is at or above [t]. *)
Definition reaches (t : Z) (j : nat) : Prop :=
  match probe j with Some (tj, _) => (t <= tj)%Z | None => False end.

#[global] Instance reaches_dec t j : Decision (reaches t j).
Proof. unfold reaches. destruct (probe j) as [[tj hj]|]; apply _. Defined.

Lemma elem_of_candidateHeights total i t h :
  i < total -> probe i = Some (t, h) ->
  quorum total <= length (those total (reaches t)) ->
  t ∈ candidateHeights probe total.
Proof.
  intros Hi Hp Hq. unfold candidateHeights. apply elem_of_distinct_runs.
  apply elem_of_drop_sorted.
  - apply StronglySorted_merge_sort; [intros x y z; lia|intros x y; lia].
  - unfold sort_desc. rewrite merge_sort_Permutation, responders_tips. apply list_elem_of_omap.
    exists i. rewrite Hp. split; [apply elem_of_seq; lia|done].
  - pose proof (quorum_pos total). unfold sort_desc. rewrite merge_sort_Permutation, responders_tips.
    assert (length (filter (fun y => t <= y)%Z (omap (fun i => fst <$> probe i) (seq 0 total))) =
            length (those total (reaches t))) as ->; [|lia].
    unfold those. apply length_filter_omap. intros j. unfold reaches.
    by destruct (probe j) as [[? ?]|].
Qed.
End head_proofs.


(** ** What a head round proves about its result and the provider states *)

Lemma applyProviderStatuses_lookup m c i :
  cl_providers (applyProviderStatuses m c) !! i =
  (fun p => match m !! i with Some s => p <| pv_status := s |> | None => p end)
    <$> cl_providers c !! i.
Proof. unfold applyProviderStatuses. cbn. by rewrite list_lookup_imap. Qed.

Lemma markUnverifiedUnavailable_lookup m total i :
  i < total ->
  markUnverifiedUnavailable m total !! i = Some (default ProviderUnavailable (m !! i)).
Proof.
  intros Hi. unfold markUnverifiedUnavailable.
  assert (forall l, foldr (fun i m => match m !! i with Some _ => m
            | None => <[i := ProviderUnavailable]> m end) m l !! i =
          match m !! i with Some s => Some s
          | None => if decide (i ∈ l) then Some ProviderUnavailable else None end) as ->.
  { induction l as [|j l IH]; cbn [foldr].
    - destruct (m !! i); [done|]. by rewrite decide_False by apply not_elem_of_nil.
    - destruct (foldr _ m l !! j) eqn:Ej.
      + rewrite IH. destruct (m !! i); [done|]. destruct (decide (i = j)) as [->|Hne].
        * rewrite Ej in IH. destruct (decide (j ∈ l)); [|done].
          by rewrite decide_True by (apply elem_of_cons; by left).
        * apply decide_ext. rewrite elem_of_cons. tauto.
      + destruct (decide (j = i)) as [->|Hne].
        * rewrite lookup_insert_eq. rewrite Ej in IH. destruct (m !! i); [done|].
          by rewrite decide_True by (apply elem_of_cons; by left).
        * rewrite lookup_insert_ne by done. rewrite IH. destruct (m !! i); [done|].
          apply decide_ext. rewrite elem_of_cons. naive_solver. }
  destruct (m !! i); [done|]. by rewrite decide_True by (apply elem_of_seq; lia).
Qed.

Lemma statuses_of_lookup total f i : i < total -> statuses_of total f !! i = Some (f i).
Proof.
  intros Hi. apply elem_of_list_to_map_1.
  - rewrite <- list_fmap_compose. change (fst ∘ (fun i => (i, f i))) with (fun i : nat => i).
    rewrite list_fmap_id. apply NoDup_seq.
  - apply list_elem_of_fmap. exists i. split; [done|]. apply elem_of_seq. lia.
Qed.

(** Statuses that leave no provider healthy leave the client without a healthy provider. *)
Lemma marked_not_healthy m c i p :
  (forall j, m !! j <> Some ProviderHealthy) ->
  cl_providers (applyProviderStatuses (markUnverifiedUnavailable m (length (cl_providers c))) c) !! i
    = Some p -> pv_status p <> ProviderHealthy.
Proof.
  intros Hm. rewrite applyProviderStatuses_lookup. intros (p0 & Hp & ->)%fmap_Some.
  apply lookup_lt_Some in Hp. rewrite markUnverifiedUnavailable_lookup by done. cbn.
  specialize (Hm i). destruct (m !! i); cbn; congruence.
Qed.

Lemma const_map_not_healthy (l : list nat) s j :
  s <> ProviderHealthy ->
  (list_to_map ((fun i => (i, s)) <$> l) : gmap nat ProviderStatus) !! j <> Some ProviderHealthy.
Proof.
  intros Hs Hj. apply elem_of_list_to_map_2, list_elem_of_fmap in Hj as (i & Hi & _). congruence.
Qed.

Section round.
Context (probe : nat -> option (Z * Hash)) (fetch : nat -> Z -> option Hash).

Lemma tip_failures_not_healthy total j : tip_failures probe total !! j <> Some ProviderHealthy.
Proof. by apply const_map_not_healthy. Qed.

(** C21: A head round that returns (n, h) has a quorum of the configured providers that
    reported hash h at height n; the snapshot it stores is that head, and every provider it
    leaves healthy (the only ones single-source reads use) itself reported h at n. A round
    that fails keeps the previous snapshot and leaves no provider healthy. *)
Theorem CheckHead_sound c :
  let total := length (cl_providers c) in
  match CheckHead probe fetch c with
  | (c', Ok (n, h)) =>
    quorum total <= length (those total (fun i => vote_at probe fetch n i = Some h)) /\
    hs_number <$> cl_head c' = Some n /\ hs_hash <$> cl_head c' = Some h /\
    forall i p, cl_providers c' !! i = Some p -> pv_status p = ProviderHealthy ->
      vote_at probe fetch n i = Some h
  | (c', Err _) =>
    cl_head c' = cl_head c /\
    forall i p, cl_providers c' !! i = Some p -> pv_status p <> ProviderHealthy
  end.
Proof.
  intros total. unfold CheckHead. fold total.
  case_decide as Ht.
  { split; [done|]. intros i p Hp%lookup_lt_Some. unfold total in Ht. lia. }
  case_decide.
  { split; [done|]. intros i p. apply marked_not_healthy, tip_failures_not_healthy. }
  destruct (head_levels probe fetch total 0 (candidateHeights probe total)) as [[[lv n] h]|] eqn:E.
  - apply head_levels_Some in E as [_ Hw%level_winner_iff]. split_and!; [done..|].
    intros i p. cbn [storeHeadSnapshot]. change (cl_providers (storeHeadSnapshot ?s ?c)) with (cl_providers c).
    rewrite applyProviderStatuses_lookup. intros (p0 & Hp & ->)%fmap_Some.
    apply lookup_lt_Some in Hp. rewrite statuses_of_lookup by done. cbn. unfold accepted_status.
    destruct (probe i) as [[tip ?]|]; [|done]. case_decide; [done|].
    destruct (vote_at probe fetch n i); [|done]. case_decide; [by subst|done].
  - case_decide.
    { split; [done|]. intros i p. apply marked_not_healthy, tip_failures_not_healthy. }
    split; [done|]. intros i p. apply marked_not_healthy. intros j [Hj|[_ Hj]]%lookup_union_Some_raw.
    + apply elem_of_list_to_map_2 in Hj. apply list_elem_of_fmap in Hj as (? & ? & _). done.
    + by apply tip_failures_not_healthy in Hj.
Qed.

Lemma exists_lowest (l : list nat) (f : nat -> Z) :
  l <> [] -> exists x, x ∈ l /\ forall y, y ∈ l -> (f x <= f y)%Z.
Proof.
  induction l as [|a l IH]; [done|]. intros _. destruct (decide (l = [])) as [->|Hne].
  { exists a. split; [apply elem_of_cons; by left|]. intros y Hy%list_elem_of_singleton. subst. lia. }
  destruct (IH Hne) as (x & Hx & Hlow). destruct (decide (f a <= f x)%Z).
  - exists a. split; [apply elem_of_cons; by left|].
    intros y [->|Hy]%elem_of_cons; [lia|]. specialize (Hlow y Hy). lia.
  - exists x. split; [apply elem_of_cons; by right|]. intros y [->|Hy]%elem_of_cons; [lia|auto].
Qed.

(** Providers that follow one chain: a tip on it, and its hashes below the tip. *)
Definition follows (chain : Z -> Hash) (i : nat) : Prop :=
  exists tip, probe i = Some (tip, chain tip) /\ forall h, (h < tip)%Z -> fetch i h = Some (chain h).

Lemma follows_vote chain i h : follows chain i -> reaches probe h i -> vote_at probe fetch h i = Some (chain h).
Proof.
  intros (tip & Hp & Hf). unfold reaches, vote_at. rewrite Hp. intros Hle.
  destruct (Z.compare_spec tip h) as [->| |]; [done|lia|by apply Hf].
Qed.

Lemma vote_reaches h i v : vote_at probe fetch h i = Some v -> reaches probe h i.
Proof.
  unfold vote_at, reaches. destruct (probe i) as [[tip v']|]; [|done].
  destruct (Z.compare_spec tip h); [lia|done|lia].
Qed.

Section honest.
Context (chain : Z -> Hash) (honest : nat -> Prop) `{forall i, Decision (honest i)} (total : nat)
  (Hq : quorum total <= length (those total honest))
  (Hh : forall i, i < total -> honest i -> follows chain i).

Lemma elem_of_honest i : i ∈ those total honest <-> honest i /\ i < total.
Proof. unfold those. rewrite list_elem_of_filter, elem_of_seq. split; intros [? ?]; (split; [done|lia]). Qed.

(** Whatever wins a level is the honest chain's block, and an honest provider has it. *)
Lemma honest_winner n h :
  level_winner probe fetch total n = Some h ->
  h = chain n /\ exists i, i < total /\ honest i /\ reaches probe n i.
Proof.
  intros Hw%level_winner_iff. destruct (quorums_intersect _ _ _ Hw Hq) as (i & Hi & Hv & Ho).
  pose proof (vote_reaches _ _ _ Hv) as Hr. rewrite (follows_vote chain) in Hv by auto.
  split; [congruence|eauto].
Qed.

Lemma those_mono P Q `{forall i, Decision (P i)} `{forall i, Decision (Q i)} :
  (forall i, i < total -> P i -> Q i) -> length (those total P) <= length (those total Q).
Proof.
  intros HPQ. unfold those. apply submseteq_length, NoDup_submseteq; [apply NoDup_filter, NoDup_seq|].
  intros i. rewrite !list_elem_of_filter, elem_of_seq. intros [HP Hi]. split; [apply HPQ; [lia|done]|done].
Qed.

(** The lowest honest tip is a candidate height and wins its level. *)
Lemma honest_lowest_tip :
  exists i t, i < total /\ honest i /\ probe i = Some (t, chain t) /\
    t ∈ candidateHeights probe total /\ level_winner probe fetch total t = Some (chain t).
Proof.
  set (tip_of i := match probe i with Some (t, _) => t | None => 0%Z end).
  destruct (exists_lowest (those total honest) tip_of) as (i & Hi & Hlow).
  { intros E. rewrite E in Hq. pose proof (quorum_pos total). cbn in Hq. lia. }
  apply elem_of_honest in Hi as [Ho Hi]. destruct (Hh i Hi Ho) as (t & Hp & _).
  assert (forall j, j < total -> honest j -> reaches probe t j) as Hr.
  { intros j Hj Hoj. destruct (Hh j Hj Hoj) as (tj & Hpj & _). unfold reaches. rewrite Hpj.
    specialize (Hlow j). unfold tip_of in Hlow. rewrite Hp, Hpj in Hlow. apply Hlow.
    by apply elem_of_honest. }
  exists i, t. split_and!; [done..| |].
  - apply (elem_of_candidateHeights probe total i t (chain t) Hi Hp).
    etrans; [exact Hq|]. by apply those_mono.
  - apply level_winner_iff. etrans; [exact Hq|]. apply those_mono. intros j Hj Hoj.
    by apply follows_vote; [apply Hh|apply Hr].
Qed.
End honest.

Lemma candidate_responders total t :
  t ∈ candidateHeights probe total -> quorum total <= length (responders probe total).
Proof.
  unfold candidateHeights, sort_desc. intros Hc. apply (proj1 (elem_of_distinct_runs _ _)) in Hc.
  apply list_elem_of_lookup_1 in Hc as [k Hk]. rewrite lookup_drop in Hk. apply lookup_lt_Some in Hk.
  rewrite merge_sort_Permutation, length_fmap in Hk. pose proof (quorum_pos total). lia.
Qed.

(** C24: When a quorum of the configured providers follow one chain (whatever tip each has
    reached and whatever the others answer), a head round returns a block of that chain that
    some of them has reached and that is no lower than the lowest of their tips; a minority
    can neither lift, stall nor fork the head, and no honest provider is marked conflicted. *)
Theorem CheckHead_honest_majority (c : Client) (chain : Z -> Hash) (honest : nat -> Prop)
    `{forall i, Decision (honest i)} :
  let total := length (cl_providers c) in
  quorum total <= length (those total honest) ->
  (forall i, i < total -> honest i -> follows chain i) ->
  exists c' n, CheckHead probe fetch c = (c', Ok (n, chain n)) /\
    (exists i, i < total /\ honest i /\ reaches probe n i) /\
    (exists i t, i < total /\ honest i /\ probe i = Some (t, chain t) /\ (t <= n)%Z) /\
    (forall i p, honest i -> cl_providers c' !! i = Some p -> pv_status p <> ProviderConflict).
Proof.
  intros total Hq Hh.
  destruct (honest_lowest_tip chain honest total Hq Hh) as (i0 & t & Hi0 & Ho0 & Hp0 & Hc & Hw).
  destruct (head_levels_found probe fetch total 0 _ t (chain t) (candidateHeights_sorted probe total) Hc Hw)
    as (l & n & h & E & Hle).
  destruct (head_levels_Some _ _ _ _ _ _ _ _ E) as [_ Hwn].
  destruct (honest_winner chain honest total Hq Hh _ _ Hwn) as [-> Hr].
  unfold CheckHead. fold total. rewrite decide_False by (intros E0; rewrite E0 in Hi0; lia).
  apply candidate_responders in Hc. rewrite decide_False by lia. rewrite E.
  eexists _, n. split_and!; [done|done|by eauto 10|].
  intros i p Hi. change (cl_providers (storeHeadSnapshot ?s ?c)) with (cl_providers c).
  rewrite applyProviderStatuses_lookup. intros (p0 & Hp%lookup_lt_Some & ->)%fmap_Some.
  rewrite statuses_of_lookup by done. cbn. unfold accepted_status.
  pose proof (follows_vote chain i n (Hh i Hp Hi)) as Hv. unfold reaches in Hv.
  destruct (probe i) as [[tip v]|]; [|done]. case_decide; [done|]. rewrite Hv by lia.
  rewrite decide_True by done. by case_decide.
Qed.
End round.

(** Three providers: two honest ones a block apart, one forged tip far ahead. *)
Definition sample_probe (i : nat) : option (Z * Hash) :=
  match i with 0 => Some (10%Z, 1010%Z) | 1 => Some (9%Z, 1009%Z) | _ => Some (99%Z, 7%Z) end.
Definition sample_fetch (i : nat) (h : Z) : option Hash :=
  if decide (i < 2) then Some (h + 1000)%Z else Some 666%Z.

Lemma CheckHead_honest_majority_witness :
  quorum 3 <= length (those 3 (fun i => i < 2)) /\
  exists c' n, CheckHead sample_probe sample_fetch (New 3) = (c', Ok (n, (n + 1000)%Z)) /\
    (exists i, i < 3 /\ i < 2 /\ reaches sample_probe n i) /\
    (exists i t, i < 3 /\ i < 2 /\ sample_probe i = Some (t, (t + 1000)%Z) /\ (t <= n)%Z) /\
    (forall i p, i < 2 -> cl_providers c' !! i = Some p -> pv_status p <> ProviderConflict).
Proof.
  assert (quorum 3 <= length (those 3 (fun i => i < 2))) as Hq by (vm_compute; lia).
  split; [exact Hq|].
  apply (CheckHead_honest_majority sample_probe sample_fetch (New 3)
           (fun h => (h + 1000)%Z) (fun i => i < 2)); [exact Hq|].
  intros [|[|i]] _ Hi; [exists 10%Z|exists 9%Z|lia]; (split; [reflexivity|done]).
Defined.

(** ** Majority reads *)

Lemma vote_loop_iff {K} `{Countable K} total (arrivals : list (option K)) k :
  length arrivals <= total ->
  vote_loop (quorum total) arrivals ∅ 0 = inl k <-> quorum total <= tally k (answers arrivals).
Proof.
  intros Hl. pose proof (vote_loop_exact (quorum total) arrivals (quorum_pos _)) as Hv.
  assert (length (answers arrivals) <= total) as Ha.
  { pose proof (length_omap_le (fun a : option K => a) arrivals). unfold answers. lia. }
  destruct (vote_loop _ _ _ _) as [j|n]; split.
  - by intros [= <-].
  - intros Hk. f_equal. by apply (majority_unique total (answers arrivals)).
  - done.
  - intros Hk. destruct Hv as [_ Hv]. specialize (Hv k). lia.
Qed.

(** The nonces that arrived. *)
Definition nonces (arrivals : list (result goerr Z)) : list Z :=
  answers ((fun a => match a with Ok n => Some n | Err _ => None end) <$> arrivals).

(** The account nonce that drives the signer lanes is returned exactly when a quorum of
    the configured providers answered it, whatever the order the answers arrived in; without
    such a majority the read fails, as a conflict when a quorum answered and as
    unavailability otherwise. *)
Theorem NonceAt_majority account arrivals :
  (forall n, NonceAt account arrivals = Ok n <->
     arrivals <> [] /\ quorum (length arrivals) <= tally n (nonces arrivals)) /\
  (NonceAt account arrivals = Err (NonceConflict account) <->
     arrivals <> [] /\ quorum (length arrivals) <= length (nonces arrivals) /\
     forall n, tally n (nonces arrivals) < quorum (length arrivals)) /\
  (forall arrivals', arrivals ≡ₚ arrivals' -> NonceAt account arrivals' = NonceAt account arrivals).
Proof.
  unfold nonces. set (f := fun a : result goerr Z => match a with Ok n => Some n | Err _ => None end).
  assert (length (f <$> arrivals) <= length arrivals) as Hl by (by rewrite length_fmap).
  pose proof (vote_loop_exact (quorum (length arrivals)) (f <$> arrivals) (quorum_pos _)) as Hv.
  split_and!.
  - intros n. pose proof (vote_loop_iff (length arrivals) (f <$> arrivals) n Hl) as Hi.
    unfold NonceAt. fold f. destruct arrivals as [|a l]; [naive_solver|]. rewrite decide_True by done.
    destruct (vote_loop _ _ _ _) as [k|m].
    + rewrite <- Hi. naive_solver.
    + rewrite <- Hi. case_decide; naive_solver.
  - unfold NonceAt. fold f. destruct arrivals as [|a l]; [naive_solver|]. rewrite decide_True by done.
    destruct (vote_loop _ _ _ _) as [k|m].
    + split; [done|]. intros (_ & _ & Hk). specialize (Hk k). lia.
    + destruct Hv as [-> Hv]. case_decide; naive_solver.
  - intros l' Hp. unfold NonceAt. fold f. rewrite <- (Permutation_length Hp).
    rewrite (vote_loop_permutation (length arrivals) (f <$> arrivals) (f <$> l') Hl); [done|].
    by rewrite Hp.
Qed.
