(* ===== verification/Sha256.v ===== *)
(** * SHA-256 (Go's crypto/sha256)

    The digest the quorum client compares answers by, as FIPS 180-4 defines it:
    32-bit words as [Z] with the wrap-around written out, the message schedule as
    a sliding window of sixteen words. *)

From S2P Require Import Prelude.
From stdpp Require Import base list numbers.
From Stdlib Require Import Strings.Byte.
From Stdlib Require Import ZArith Lia.

#[local] Open Scope Z_scope.

Definition wadd (a b : Z) : Z := (a + b) mod 2 ^ 32.
Definition rotr (n x : Z) : Z :=
  Z.lor (Z.shiftr x n) (Z.land (Z.shiftl x (32 - n)) (2 ^ 32 - 1)).
Definition xor3 (a b c : Z) : Z := Z.lxor (Z.lxor a b) c.

(** The constants are fractional parts of roots of the first primes, to 32 bits. *)
Definition is_prime (n : Z) : bool := forallb (fun d => negb (n mod d =? 0)) (seqZ 2 (n - 2)).
Definition first_primes (k : nat) : list Z := take k (filter (fun n => is_prime n = true) (seqZ 2 310)).

(** Bit [b] and below of the greatest [r] with [r^3 <= n], given the bits above in [r]. *)
Fixpoint cube_root (b : nat) (n r : Z) : Z :=
  match b with
  | O => r
  | S b =>
    let r' := r + 2 ^ Z.of_nat b in
    cube_root b n (if r' * r' * r' <=? n then r' else r)
  end.

Definition sha256_k : list Z :=
  Eval vm_compute in (fun p => cube_root 36 (p * 2 ^ 96) 0 mod 2 ^ 32) <$> first_primes 64.
Definition sha256_init : list Z :=
  Eval vm_compute in (fun p => Z.sqrt (p * 2 ^ 64) mod 2 ^ 32) <$> first_primes 8.

(** One round on the working variables, with the round constant and schedule word. *)
Definition sha256_round (st : list Z) (k w : Z) : list Z :=
  match st with
  | [a; b; c; d; e; f; g; h] =>
    let S1 := xor3 (rotr 6 e) (rotr 11 e) (rotr 25 e) in
    let ch := Z.lxor (Z.land e f) (Z.land (Z.lxor e (2 ^ 32 - 1)) g) in
    let t1 := wadd h (wadd S1 (wadd ch (wadd k w))) in
    let S0 := xor3 (rotr 2 a) (rotr 13 a) (rotr 22 a) in
    let maj := xor3 (Z.land a b) (Z.land a c) (Z.land b c) in
    [wadd t1 (wadd S0 maj); a; b; c; wadd d t1; e; f; g]
  | _ => st
  end.

(** The window's first word is this round's; its successor sixteen rounds later is appended. *)
Definition sha256_schedule (win : list Z) : list Z :=
  match win with
  | w0 :: (w1 :: _) as win' =>
    let w9 := default 0 (win !! 9%nat) in
    let w14 := default 0 (win !! 14%nat) in
    let s0 := xor3 (rotr 7 w1) (rotr 18 w1) (Z.shiftr w1 3) in
    let s1 := xor3 (rotr 17 w14) (rotr 19 w14) (Z.shiftr w14 10) in
    tail win ++ [wadd s1 (wadd w9 (wadd s0 w0))]
  | _ => win
  end.

Fixpoint sha256_rounds (ks : list Z) (win st : list Z) : list Z :=
  match ks with
  | [] => st
  | k :: ks => sha256_rounds ks (sha256_schedule win) (sha256_round st k (hd 0 win))
  end.

Fixpoint words_of (n : nat) (b : bytes) : list Z :=
  match n with
  | O => []
  | S n => be_combine (take 4 b) :: words_of n (drop 4 b)
  end.

Definition sha256_block (st : list Z) (block : bytes) : list Z :=
  zip_with wadd st (sha256_rounds sha256_k (words_of 16 block) st).

(** Pad with 0x80, zeros and the 64-bit bit length, up to a multiple of 64 bytes. *)
Definition sha256_pad (m : bytes) : bytes :=
  let len := Z.of_nat (length m) in
  m ++ [x80] ++ replicate (Z.to_nat ((55 - len) mod 64)) x00 ++ be_split 8 (8 * len).

Fixpoint sha256_blocks (n : nat) (b : bytes) (st : list Z) : list Z :=
  match n with
  | O => st
  | S n => sha256_blocks n (drop 64 b) (sha256_block st (take 64 b))
  end.

Definition Sum256 (m : bytes) : bytes :=
  let padded := sha256_pad m in
  mjoin (be_split 4 <$> sha256_blocks (length padded / 64) padded sha256_init).

(** The test vectors of FIPS 180-4: the empty message, and "abc". *)
Example Sum256_empty :
  be_combine (Sum256 []) = 0xe3b0c44298fc1c149afbf4c8996fb92427ae41e4649b934ca495991b7852b855.
Proof. vm_compute. reflexivity. Qed.

Example Sum256_abc :
  be_combine (Sum256 [x61; x62; x63]) =
  0xba7816bf8f01cfea414140de5dae2223b00361a396177a9cb410ff61f20015ad.
Proof. vm_compute. reflexivity. Qed.

Example Sum256_two_blocks :
  be_combine (Sum256 (replicate 64 x61)) =
  0xffe054fe7ae0cb6dc65c3af9b61d5209f439851db43d0ba5997337df154668eb.
Proof. vm_compute. reflexivity. Qed.

Lemma length_zip_wadd st r : length st = 8%nat -> length r = 8%nat -> length (zip_with wadd st r) = 8%nat.
Proof. intros. rewrite length_zip_with. lia. Qed.

Lemma length_sha256_rounds ks win st : length st = 8%nat -> length (sha256_rounds ks win st) = 8%nat.
Proof.
  revert win st. induction ks as [|k ks IH]; intros win st Hst; [done|]. cbn. apply IH.
  do 9 (destruct st as [|? st]; try discriminate). done.
Qed.

Lemma length_sha256_blocks n b st : length st = 8%nat -> length (sha256_blocks n b st) = 8%nat.
Proof.
  revert b st. induction n as [|n IH]; intros b st Hst; [done|]. cbn. apply IH, length_zip_wadd; [done|].
  by apply length_sha256_rounds.
Qed.

Lemma length_words4 l : length (mjoin (be_split 4 <$> l)) = (4 * length l)%nat.
Proof.
  induction l as [|x l IH]; [done|]. rewrite fmap_cons. cbn [length].
  change (mjoin (be_split 4 x :: (be_split 4 <$> l))) with (be_split 4 x ++ mjoin (be_split 4 <$> l)).
  rewrite length_app, length_be_split, IH. lia.
Qed.

Lemma length_Sum256 m : length (Sum256 m) = 32%nat.
Proof. unfold Sum256. by rewrite length_words4, length_sha256_blocks. Qed.
