(* ===== verification/StateReads.v ===== *)
(** * Voted state reads and gas estimates (go/internal/rpcquorum/state_reads.go)

    A round is the list of the providers' replies in the order they arrive, each
    with the index of its provider; the receive loops consume that list. *)

From S2P Require Import Prelude GoErr Classify Voting Sha256 Quorum.
From stdpp Require Import base gmap list strings numbers fin_maps sorting pretty.
From Stdlib Require Import ZArith Lia.

Open Scope nat_scope.

(** ** Provider replies *)

Definition providerID (index : nat) : string := "provider[" +:+ pretty index +:+ "]".

Definition wrapProviderOperationError (index : nat) (operation : string) (err : goerr) : goerr :=
  errWrap (providerID index +:+ " " +:+ operation +:+ " failed") err.

(** A success, a deterministic revert, or a failure that only counts as unavailable
    ([stateReadProbe], and the [gasProbe] of EstimateGas). *)
Inductive stateReadProbe (A : Type) :=
| Answered (payload : A)
| Reverted (revertErr : goerr)
| Transient (transientErr : goerr).
Arguments Answered {A} _.
Arguments Reverted {A} _.
Arguments Transient {A} _.

Definition classify_reply {A} (operation : string) (index : nat) (reply : result goerr A)
    : stateReadProbe A :=
  match reply with
  | Ok payload => Answered payload
  | Err err =>
    if isDeterministicRevert err
    then Reverted (wrapProviderOperationError index operation err)
    else Transient (wrapProviderOperationError index operation err)
  end.

Definition comparable {A} (p : stateReadProbe A) : bool :=
  match p with Transient _ => false | _ => true end.

(** Defined on comparable probes. *)
Definition fingerprint (p : stateReadProbe bytes) : option string :=
  match p with
  | Reverted e => Some (revertFingerprint e)
  | Answered payload => Some ("s:" +:+ EncodeToString (Sum256 payload))
  | Transient _ => None
  end.

(** VotedRevertError: the winning provider error, marked. *)
Definition votedRevertError (e : goerr) : goerr := mkErr (Error e) None None None true false [e].

(** ** Conflict flags *)

Definition applyStateConflicts (fingerprints : gmap nat string) (majority : string) (c : Client)
    : Client :=
  c <| cl_providers := imap (fun i p => match fingerprints !! i with
                                     | Some f => p <| pv_stateConflict := bool_decide (majority = "" \/ f <> majority) |>
                                     | None => p
                                     end) (cl_providers c) |>.

(** ** voteStateRead *)

Record readTally := mkReadTally {
  rt_votes : gmap string nat; rt_winners : gmap string (stateReadProbe bytes);
  rt_fingerprints : gmap nat string; rt_comparable : nat; rt_majority : string }.

Definition read_step (q : nat) (t : readTally) (arrival : nat * stateReadProbe bytes) : readTally :=
  let '(index, probe) := arrival in
  match fingerprint probe with
  | None => t
  | Some f =>
    let n := S (default 0 (rt_votes t !! f)) in
    mkReadTally (<[f := n]> (rt_votes t))
      (match rt_winners t !! f with Some _ => rt_winners t | None => <[f := probe]> (rt_winners t) end)
      (<[index := f]> (rt_fingerprints t)) (S (rt_comparable t))
      (if decide (q <= n /\ rt_majority t = "") then f else rt_majority t)
  end.

Definition read_tally (q : nat) (arrivals : list (nat * stateReadProbe bytes)) : readTally :=
  fold_left (read_step q) arrivals (mkReadTally ∅ ∅ ∅ 0 "").

Definition voteStateRead (operation : string) (arrivals : list (nat * result goerr bytes))
    (c : Client) : Client * result qerr bytes :=
  let total := length (cl_providers c) in
  if decide (total = 0) then (c, Err (QErrorf "no rpc providers configured")) else
  let q := quorum total in
  let t := read_tally q ((fun a => (a.1, classify_reply operation a.1 a.2)) <$> arrivals) in
  let c := applyStateConflicts (rt_fingerprints t) (rt_majority t) c in
  if decide (rt_majority t <> "") then
    match rt_winners t !! rt_majority t with
    | Some (Reverted e) => (c, Err (VotedRevert (votedRevertError e)))
    | Some (Answered payload) => (c, Ok payload)
    | Some (Transient _) | None => (c, Ok [])
    end
  else if decide (q <= rt_comparable t) then (c, Err StateReadConflict)
  else (c, Err QuorumUnavailable).

(** ** Anchored reads *)

Record StateAnchor := mkAnchor { an_Number : option Z; an_Hash : Hash }.

(** AnchorFromHead of a verified head (whose number and hash are always set). *)
Definition AnchorFromHead (head : Z * Hash) : StateAnchor := mkAnchor (Some head.1) head.2.

(** How a call is addressed on every provider. *)
Inductive address_mode := AtHash (h : Hash) | AtNumber (n : Z) | AtCanonicalHead.

(** CallAtAnchor: hash addressing when the anchor has a hash, the caller's own head otherwise. *)
Definition CallAtAnchor (anchor : option StateAnchor) : address_mode :=
  match anchor with
  | None => AtCanonicalHead
  | Some a =>
    if decide (an_Hash a <> zeroHash) then AtHash (an_Hash a)
    else match an_Number a with Some n => AtNumber n | None => AtCanonicalHead end
  end.

(** CallContract and CodeAt: a nil block number first establishes the canonical head and
    votes at its hash; the providers' replies depend on how the call is addressed. *)
Definition anchored_read (operation : string)
    (probe : nat -> option (Z * Hash)) (fetch : nat -> Z -> option Hash)
    (replies : address_mode -> list (nat * result goerr bytes))
    (blockNumber : option Z) (c : Client) : Client * result qerr bytes :=
  match blockNumber with
  | None =>
    match CheckHead probe fetch c with
    | (c, Err e) => (c, Err e)
    | (c, Ok (_, anchor)) => voteStateRead operation (replies (AtHash anchor)) c
    end
  | Some n => voteStateRead operation (replies (AtNumber n)) c
  end.
Definition CallContract := anchored_read "eth_call".
Definition CodeAt := anchored_read "eth_getCode".

Definition CallContractAtHash (replies : address_mode -> list (nat * result goerr bytes))
    (blockHash : Hash) (c : Client) : Client * result qerr bytes :=
  voteStateRead "eth_call" (replies (AtHash blockHash)) c.
Definition CodeAtHash (replies : address_mode -> list (nat * result goerr bytes))
    (blockHash : Hash) (c : Client) : Client * result qerr bytes :=
  voteStateRead "eth_getCode" (replies (AtHash blockHash)) c.

(** ** EstimateGas *)

(** Every provider's probe, by arrival; [Answered gas]. *)
Abbreviation gas_arrivals := (list (nat * stateReadProbe Z)).

Definition gas_successes (l : gas_arrivals) : list (nat * Z) :=
  omap (fun a => match a.2 with Answered gas => Some (a.1, gas) | _ => None end) l.

Definition gas_reverts (l : gas_arrivals) : list goerr :=
  omap (fun a => match a.2 with Reverted e => Some e | _ => None end) l.

(** The revert identity with a quorum, and the first error that carried it. *)
Definition voted_revert (q : nat) (reverts : list goerr) : option (string * goerr) :=
  let '(f, n) := best_vote (count_votes (revertFingerprint <$> reverts)) "" in
  if decide (q <= n)
  then (fun e => (f, e)) <$> head (filter (fun e => revertFingerprint e = f) reverts)
  else None.

(** uint64 arithmetic *)
Definition u64 (z : Z) : Z := (z mod 2 ^ 64)%Z.

Definition upper_median (gases : list Z) : Z :=
  let sorted := merge_sort Z.le gases in default 0%Z (sorted !! (length sorted / 2)).

Definition gas_in_bounds (median gas : Z) : Prop :=
  (u64 (median + 1) / 2 <= gas <= u64 (median * 2))%Z.

#[export] Instance gas_in_bounds_dec median gas : Decision (gas_in_bounds median gas).
Proof. unfold gas_in_bounds. apply _. Defined.

(** The classification map: reverts by identity, successes by [label]. *)
Definition gas_classification (label : Z -> string) (l : gas_arrivals) : gmap nat string :=
  list_to_map (omap (fun a => match a.2 with
                              | Reverted e => Some (a.1, revertFingerprint e)
                              | Answered gas => Some (a.1, label gas)
                              | Transient _ => None
                              end) l).

Definition aggregateGas (blockGasLimit : Z) (arrivals : gas_arrivals) (c : Client)
    : Client * result qerr Z :=
  let total := length (cl_providers c) in
  if decide (total = 0) then (c, Err (QErrorf "no rpc providers configured")) else
  let q := quorum total in
  let successes := gas_successes arrivals in
  let comparables := length successes + length (gas_reverts arrivals) in
  match voted_revert q (gas_reverts arrivals) with
  | Some (f, e) =>
    (applyStateConflicts (gas_classification (fun _ => "s:pending") arrivals) f c,
     Err (VotedRevert (votedRevertError e)))
  | None =>
    if decide (q <= length successes) then
      let median := upper_median (snd <$> successes) in
      let label gas := if decide (gas_in_bounds median gas) then "s:bounded" else "s:out-of-bounds" in
      let c := applyStateConflicts (gas_classification label arrivals) "s:bounded" c in
      let inBounds := filter (gas_in_bounds median) (snd <$> successes) in
      if decide (length inBounds < q) then
        (c, Err (EstimateGasConflict "estimates fall outside the bounded set"))
      else
        let result := foldr Z.max 0%Z inBounds in
        if decide (blockGasLimit < result)%Z then
          (c, Err (EstimateGasConflict "bounded estimate exceeds the canonical block gas limit"))
        else (c, Ok result)
    else if decide (q <= comparables) then
      (applyStateConflicts (gas_classification (fun _ => "s:pending") arrivals) "" c,
       Err (EstimateGasConflict "no outcome reached the majority"))
    else (c, Err QuorumUnavailable)
  end.

(** The canonical header's gas limit bounds the estimate. *)
Definition EstimateGas (probe : nat -> option (Z * Hash)) (fetch : nat -> Z -> option Hash)
    (serve : nat -> Z -> result goerr (option Header))
    (arrivals : list (nat * result goerr Z)) (c : Client) : Client * result qerr Z :=
  match HeaderByNumber probe fetch serve None c with
  | (c, Err e) => (c, Err e)
  | (c, Ok None) => (c, Err (QErrorf "no healthy provider served the canonical header"))
  | (c, Ok (Some header)) =>
    aggregateGas (hd_GasLimit header)
      ((fun a => (a.1, classify_reply "eth_estimateGas" a.1 a.2)) <$> arrivals) c
  end.

(** ** PendingNonceAt *)

(** strconv.FormatUint and ParseUint in base 10 *)
Definition format_uint (n : Z) : bytes :=
  (fun c => byte_of_Z (Z.of_N (Ascii.N_of_ascii c))) <$> String.list_ascii_of_string (pretty n).

Fixpoint parse_digits (b : bytes) (acc : Z) : option Z :=
  match b with
  | [] => Some acc
  | x :: b =>
    let d := (byte_val x - 48)%Z in
    if decide (0 <= d <= 9)%Z then
      let acc := (acc * 10 + d)%Z in
      if decide (acc < 2 ^ 64)%Z then parse_digits b acc else None
    else None
  end.
Definition parse_uint (b : bytes) : option Z :=
  match b with [] => None | _ => parse_digits b 0 end.

Definition PendingNonceAt (account : Address) (latest : list (result goerr Z))
    (pending : list (nat * result goerr Z)) (c : Client) : Client * result qerr Z :=
  match NonceAt account latest with
  | Err e => (c, Err e)
  | Ok confirmed =>
    match voteStateRead "eth_getTransactionCount(pending)"
            ((fun a : nat * result goerr Z => (a.1, format_uint <$> a.2)) <$> pending) c with
    | (c, Err e) => (c, Err e)
    | (c, Ok payload) =>
      (c, match parse_uint payload with
          | None => Err (QErrorf "parse pending nonce quorum payload")
          | Some n => check (confirmed <= n)%Z or StateReadConflict ;; Ok n
          end)
    end
  end.

(** ** What a vote proves *)

(** The providers' comparable answers, by fingerprint. *)
Definition fingerprints_of (l : list (nat * stateReadProbe bytes)) : list string :=
  omap (fun a => fingerprint a.2) l.

Lemma fingerprint_nonempty p f : fingerprint p = Some f -> f <> "".
Proof.
  destruct p; cbn; intros [= <-]; [done|]. unfold revertFingerprint. by repeat case_match.
Qed.

(** The loop's state after [seen]. *)
Record tally_inv (q : nat) (seen : list (nat * stateReadProbe bytes)) (t : readTally) : Prop := {
  ti_votes : forall f, default 0 (rt_votes t !! f) = tally f (fingerprints_of seen);
  ti_winner : forall f, 0 < tally f (fingerprints_of seen) -> is_Some (rt_winners t !! f);
  ti_winners : forall f p, rt_winners t !! f = Some p -> fingerprint p = Some f /\ exists i, (i, p) ∈ seen;
  ti_comparable : rt_comparable t = length (fingerprints_of seen);
  ti_majority : rt_majority t <> "" -> q <= tally (rt_majority t) (fingerprints_of seen);
  ti_no_majority : rt_majority t = "" -> forall f, tally f (fingerprints_of seen) < q }.

Lemma fingerprints_of_snoc l a :
  fingerprints_of (l ++ [a]) =
  fingerprints_of l ++ match fingerprint a.2 with Some f => [f] | None => [] end.
Proof. unfold fingerprints_of. rewrite omap_app. cbn. by destruct (fingerprint a.2). Qed.

Lemma tally_snoc {K} `{Countable K} (k f : K) l :
  tally k (l ++ [f]) = tally k l + (if decide (f = k) then 1 else 0).
Proof. rewrite tally_app, tally_cons. cbn. lia. Qed.

Lemma read_step_inv q seen t a :
  0 < q -> tally_inv q seen t -> tally_inv q (seen ++ [a]) (read_step q t a).
Proof.
  intros Hq [Hv Hi Hw Hc Hm Hn]. destruct a as [i p]. unfold read_step.
  pose proof (fingerprints_of_snoc seen (i, p)) as Es. cbn [snd] in Es.
  assert (forall f p', (rt_winners t !! f = Some p' -> fingerprint p' = Some f /\
    exists j, (j, p') ∈ seen ++ [(i, p)])) as Hw'.
  { intros f p' [? [j Hj]]%Hw. split; [done|]. exists j. apply elem_of_app; by left. }
  destruct (fingerprint p) as [f|] eqn:Ef.
  2: { rewrite app_nil_r in Es. split; rewrite ?Es; done. }
  pose proof (fingerprint_nonempty p f Ef) as Hne.
  split; rewrite ?Es; cbn [rt_votes rt_winners rt_comparable rt_majority].
  - intros g. rewrite tally_snoc. case_decide; [subst; rewrite lookup_insert_eq; cbn; rewrite Hv; lia|].
    rewrite lookup_insert_ne by done. rewrite Hv. lia.
  - intros g. rewrite tally_snoc. intros Hg. specialize (Hi g).
    destruct (rt_winners t !! f) eqn:Ew; [case_decide; [subst g; eauto|apply Hi; lia]|].
    destruct (decide (f = g)) as [->|]; [rewrite lookup_insert_eq; eauto|].
    rewrite lookup_insert_ne by done. apply Hi. lia.
  - intros g r. destruct (rt_winners t !! f) eqn:Ew; [by apply Hw'|].
    intros [[<- <-]|[_ Hr]]%lookup_insert_Some; [|by apply Hw']. split; [done|]. exists i.
    apply elem_of_app; right. by apply list_elem_of_singleton.
  - rewrite length_app, Hc. cbn. lia.
  - case_decide as Hd; intros Hne'; rewrite tally_snoc; [rewrite Hv in Hd; rewrite decide_True by done; lia|].
    specialize (Hm Hne'). lia.
  - case_decide as Hd; [done|]. intros Em g. rewrite tally_snoc. specialize (Hn Em g).
    case_decide; [subst g|lia]. rewrite Hv in Hd. destruct (decide (q <= S (tally f (fingerprints_of seen)))); [|lia].
    exfalso. apply Hd. split; done.
Qed.

Lemma read_tally_inv q arrivals : 0 < q -> tally_inv q arrivals (read_tally q arrivals).
Proof.
  intros Hq. unfold read_tally. induction arrivals as [|a l IH] using rev_ind.
  - split; cbn [rt_votes rt_winners rt_comparable rt_majority fold_left fingerprints_of omap list_omap].
    + intros f. by rewrite lookup_empty.
    + intros f. cbn. lia.
    + intros f p. by rewrite lookup_empty.
    + done.
    + done.
    + intros _ f. done.
  - rewrite fold_left_app. by apply read_step_inv.
Qed.

Definition stat (c : Client) : list ProviderStatus := pv_status <$> cl_providers c.

Lemma applyStateConflicts_status fs m c : stat (applyStateConflicts fs m c) = stat c.
Proof.
  unfold stat, applyStateConflicts. cbn. apply list_eq. intros i.
  rewrite !list_lookup_fmap, list_lookup_imap. destruct (cl_providers c !! i); [|done]. cbn.
  by destruct (fs !! i).
Qed.

Lemma hex_digit_val a : (0 <= a < 16)%Z ->
  Z.of_N (Ascii.N_of_ascii (hex_digit a)) = (if decide (a < 10) then 48 + a else 87 + a)%Z.
Proof.
  intros Ha. unfold hex_digit. destruct (decide (a < 10)%Z); rewrite Ascii.N_ascii_embedding; lia.
Qed.

Lemma hex_digit_inj a b :
  (0 <= a < 16)%Z -> (0 <= b < 16)%Z -> hex_digit a = hex_digit b -> a = b.
Proof.
  intros Ha Hb E. pose proof (hex_digit_val a Ha) as E1. rewrite E, hex_digit_val in E1 by done.
  repeat case_decide; lia.
Qed.

Lemma EncodeToString_inj a b : EncodeToString a = EncodeToString b -> a = b.
Proof.
  revert b. induction a as [|x a IH]; intros [|y b]; cbn; try done. intros [= E1 E2 E3%IH]. subst b. f_equal.
  pose proof (byte_val_range x). pose proof (byte_val_range y).
  apply hex_digit_inj in E1; [|split; [apply Z.div_pos|apply Z.div_lt_upper_bound]; lia..].
  apply hex_digit_inj in E2; [|apply Z.mod_pos_bound; lia..].
  apply byte_val_inj. rewrite (Z.div_mod (byte_val x) 16), (Z.div_mod (byte_val y) 16) by lia. congruence.
Qed.

Lemma append_inj_l s a b : (s +:+ a)%string = (s +:+ b)%string -> a = b.
Proof. induction s as [|c s IH]; [done|]. cbn. by intros [= ?%IH]. Qed.

Lemma revertFingerprint_not_success e d : revertFingerprint e <> ("s:" +:+ d)%string.
Proof. unfold revertFingerprint. by repeat case_match. Qed.

Lemma fingerprint_answered p f :
  fingerprint p = Some ("s:" +:+ EncodeToString f)%string ->
  exists payload, p = Answered payload /\ Sum256 payload = f.
Proof.
  destruct p as [payload|e|e]; cbn; [|unfold revertFingerprint; repeat case_match; done|done].
  intros [= E%EncodeToString_inj]. eauto.
Qed.

(** ** Soundness of a voted read *)

(** The reply is a success with digest [d]; the success [p]; a deterministic revert with identity [f];
    a success or a revert. *)
Definition answered_digest (d : bytes) (a : nat * result goerr bytes) : Prop :=
  match a.2 with Ok payload => Sum256 payload = d | Err _ => False end.
Definition answered (p : bytes) (a : nat * result goerr bytes) : Prop :=
  match a.2 with Ok payload => payload = p | Err _ => False end.
Definition reverted_as (f : string) (a : nat * result goerr bytes) : Prop :=
  match a.2 with
  | Err e => isDeterministicRevert e = true /\ revertFingerprint e = f
  | Ok _ => False
  end.
Definition comparable_reply (a : nat * result goerr bytes) : Prop :=
  match a.2 with Err e => isDeterministicRevert e = true | Ok _ => True end.

#[export] Instance answered_digest_dec d a : Decision (answered_digest d a).
Proof. unfold answered_digest. destruct a.2; apply _. Defined.
#[export] Instance answered_dec p a : Decision (answered p a).
Proof. unfold answered. destruct a.2; apply _. Defined.
#[export] Instance reverted_as_dec f a : Decision (reverted_as f a).
Proof. unfold reverted_as. destruct a.2; apply _. Defined.
#[export] Instance comparable_reply_dec a : Decision (comparable_reply a).
Proof. unfold comparable_reply. destruct a.2; apply _. Defined.

Lemma canonicalRevertData_wrap msg e : canonicalRevertData (errWrap msg e) = canonicalRevertData e.
Proof. done. Qed.

Lemma revertFingerprint_wrap i op e :
  isDeterministicRevert e = true ->
  revertFingerprint (wrapProviderOperationError i op e) = revertFingerprint e.
Proof.
  unfold isDeterministicRevert, revertEvidence, revertFingerprint, wrapProviderOperationError.
  rewrite canonicalRevertData_wrap. change (as_rpc_error (errWrap ?m e)) with (as_rpc_error e).
  by destruct (as_rpc_error e) as [[code msg]|].
Qed.

Section vote.
Context (op : string) (arrivals : list (nat * result goerr bytes)).

Definition probes : list (nat * stateReadProbe bytes) :=
  (fun a => (a.1, classify_reply op a.1 a.2)) <$> arrivals.

Lemma fingerprints_probes :
  fingerprints_of probes = omap (fun a => fingerprint (classify_reply op a.1 a.2)) arrivals.
Proof.
  unfold fingerprints_of, probes. induction arrivals as [|a l IH]; [done|]. cbn. by rewrite IH.
Qed.

Lemma filter_length_iff {A} (P Q : A -> Prop) `{forall x, Decision (P x)} `{forall x, Decision (Q x)} l :
  (forall x, P x <-> Q x) -> length (filter P l) = length (filter Q l).
Proof. intros HPQ. by rewrite (list_filter_iff P Q). Qed.

Lemma tally_digest d :
  tally ("s:" +:+ EncodeToString d)%string (fingerprints_of probes) =
  length (filter (answered_digest d) arrivals).
Proof.
  rewrite fingerprints_probes, tally_omap. apply filter_length_iff. intros [i r]. cbn [fst snd].
  unfold answered_digest. cbn [snd]. split.
  - intros (p & Hp & <-)%fingerprint_answered. destruct r as [p'|e]; cbn in Hp; [congruence|].
    by destruct (isDeterministicRevert e).
  - destruct r as [p'|e]; [|done]. cbn. by intros <-.
Qed.

Lemma tally_revert e0 :
  isDeterministicRevert e0 = true ->
  tally (revertFingerprint e0) (fingerprints_of probes) =
  length (filter (reverted_as (revertFingerprint e0)) arrivals).
Proof.
  intros He0. rewrite fingerprints_probes, tally_omap. apply filter_length_iff. intros [i r].
  unfold reverted_as. cbn [fst snd]. destruct r as [p|e]; cbn [classify_reply fingerprint].
  - split; [|done]. intros [= E]. by apply eq_sym, revertFingerprint_not_success in E.
  - destruct (isDeterministicRevert e) eqn:Ee; [|cbn; naive_solver]. cbn [fingerprint].
    rewrite revertFingerprint_wrap by done. split; [intros [= ->]; done|intros [_ ->]; done].
Qed.

Lemma length_comparable : length (fingerprints_of probes) = length (filter comparable_reply arrivals).
Proof.
  rewrite fingerprints_probes.
  etrans; [|apply (length_filter_omap (fun a => fingerprint (classify_reply op a.1 a.2)) (fun _ : string => True) comparable_reply)].
  - f_equal. symmetry. induction (omap _ arrivals) as [|f l IH]; [done|]. rewrite filter_cons. cbn. by f_equal.
  - intros [i r]. unfold comparable_reply. cbn [fst snd].
    destruct r as [p|e]; [done|]. cbn. by destruct (isDeterministicRevert e).
Qed.

(** The winner of a vote is a reply with the majority fingerprint. *)
Lemma read_winner q t :
  0 < q -> tally_inv q probes t -> rt_majority t <> "" ->
  exists i reply, (i, reply) ∈ arrivals /\
    rt_winners t !! rt_majority t = Some (classify_reply op i reply) /\
    fingerprint (classify_reply op i reply) = Some (rt_majority t) /\
    q <= tally (rt_majority t) (fingerprints_of probes).
Proof.
  intros Hq Hinv Hm. pose proof (ti_majority _ _ _ Hinv Hm) as Hle.
  destruct (ti_winner _ _ _ Hinv (rt_majority t)) as [p Hp]; [lia|].
  destruct (ti_winners _ _ _ Hinv _ _ Hp) as [Hf [i Hi]].
  unfold probes in Hi. apply list_elem_of_fmap in Hi as ([i' reply] & [= -> ->] & Hi).
  exists i', reply. done.
Qed.

(** A payload that a quorum answered has the majority fingerprint. *)
Lemma read_agreed total t payload :
  length arrivals = total -> tally_inv (quorum total) probes t ->
  quorum total <= length (filter (answered payload) arrivals) ->
  rt_majority t = ("s:" +:+ EncodeToString (Sum256 payload))%string.
Proof.
  intros Hlen Hinv Hq.
  assert (quorum total <= tally ("s:" +:+ EncodeToString (Sum256 payload))%string (fingerprints_of probes)) as Hd.
  { rewrite tally_digest. etrans; [exact Hq|]. apply filter_length_mono. intros [i r] _.
    unfold answered, answered_digest. cbn. by destruct r; [intros ->|]. }
  destruct (decide (rt_majority t = "")) as [E|Hne].
  - pose proof (ti_no_majority _ _ _ Hinv E ("s:" +:+ EncodeToString (Sum256 payload))%string). lia.
  - apply (majority_unique total (fingerprints_of probes)); [|by apply (ti_majority _ _ _ Hinv)|done].
    rewrite fingerprints_probes, <- Hlen. apply length_omap_le.
Qed.
End vote.

(** A voted state read returns a payload only if a quorum of the configured providers
    answered a payload with its digest, one of them that very payload, and every payload
    that a quorum answered is the one returned (up to digest); it reports a revert only if a
    quorum of providers reported that same revert, a conflict only if a quorum gave a
    comparable answer, and unavailability otherwise. It never touches the head snapshot or a
    provider's head status. *)
Theorem voteStateRead_sound op arrivals c c' r :
  let total := length (cl_providers c) in
  length arrivals = total -> total <> 0 -> voteStateRead op arrivals c = (c', r) ->
  cl_head c' = cl_head c /\ stat c' = stat c /\
  (forall payload, quorum total <= length (filter (answered payload) arrivals) ->
     exists p, r = Ok p /\ Sum256 p = Sum256 payload) /\
  match r with
  | Ok payload =>
    (exists i, (i, Ok payload) ∈ arrivals) /\
    quorum total <= length (filter (answered_digest (Sum256 payload)) arrivals)
  | Err (VotedRevert e) =>
    quorum total <= length (filter (reverted_as (revertFingerprint e)) arrivals)
  | Err StateReadConflict => quorum total <= length (filter comparable_reply arrivals)
  | Err QuorumUnavailable => length (filter comparable_reply arrivals) < quorum total
  | Err _ => False
  end.
Proof.
  intros total Hlen Ht. unfold voteStateRead. fold total. rewrite decide_False by done.
  fold (probes op arrivals). set (q := quorum total).
  pose proof (read_tally_inv q (probes op arrivals) (quorum_pos total)) as Hinv.
  set (t := read_tally q (probes op arrivals)) in *.
  pose proof (length_comparable op arrivals) as Hcmp. rewrite <- (ti_comparable _ _ _ Hinv) in Hcmp.
  rewrite <- Hcmp. pose proof (fun p => read_agreed op arrivals total t p Hlen Hinv) as Hag.
  fold q in Hag. case_decide as Hm.
  - destruct (read_winner op arrivals q t (quorum_pos total) Hinv Hm) as (i & reply & Hi & -> & Hf & Hle).
    destruct reply as [payload|e]; cbn [classify_reply] in *.
    + intros [= <- <-]. split_and!; [done|apply applyStateConflicts_status| | |].
      * intros p Hp%Hag. rewrite Hp in Hf. injection Hf as Hf%EncodeToString_inj. eauto.
      * eauto.
      * cbn [fingerprint] in Hf. apply Some_inj in Hf. by rewrite <- Hf, tally_digest in Hle.
    + destruct (isDeterministicRevert e) eqn:Ee; [|done]. cbn [fingerprint] in Hf.
      rewrite revertFingerprint_wrap in Hf by done. injection Hf as Hf.
      intros [= <- <-]. split_and!; [done|apply applyStateConflicts_status| |].
      * intros p Hp%Hag. rewrite <- Hf in Hp. by apply revertFingerprint_not_success in Hp.
      * change (revertFingerprint (votedRevertError _)) with
          (revertFingerprint (wrapProviderOperationError i op e)).
        rewrite revertFingerprint_wrap by done. by rewrite <- Hf, tally_revert in Hle.
  - assert (forall payload, ~ q <= length (filter (answered payload) arrivals)) as Hno.
    { intros p Hp%Hag. by rewrite Hp in Hm. }
    case_decide; intros [= <- <-]; (split_and!; [done|apply applyStateConflicts_status|naive_solver|]); lia.
Qed.

(** Two of three providers answer the same byte, one times out. *)
Definition sample_replies : list (nat * result goerr bytes) :=
  [(1, Ok [Byte.x01]); (0, Err (errNew "timeout")); (2, Ok [Byte.x01])].

(** ** Bounds of a gas estimate *)

Lemma sorted_median (l : list Z) k m :
  StronglySorted Z.le l -> l !! k = Some m ->
  k + 1 <= length (filter (fun x => x <= m)%Z l) /\
  length l - k <= length (filter (fun x => m <= x)%Z l).
Proof.
  intros Hs. revert k. induction Hs as [|a l Hs IH Hf]; intros k Hk; [done|].
  rewrite !filter_cons. rewrite Forall_forall in Hf. destruct k as [|k]; cbn in Hk.
  - injection Hk as ->. rewrite !decide_True by lia. cbn [length]. split; [lia|].
    assert (filter (fun x => m <= x)%Z l = l) as ->; [|lia].
    clear -Hf. induction l as [|b l IH]; [done|]. rewrite filter_cons, decide_True.
    + f_equal. apply IH. intros x Hx. apply Hf, elem_of_cons. by right.
    + apply Hf, elem_of_cons. by left.
  - destruct (IH k Hk) as [H1 H2]. assert (a <= m)%Z by (by apply Hf, list_elem_of_lookup_2 with k).
    rewrite decide_True by done. cbn [length]. split; [lia|]. case_decide; cbn [length]; lia.
Qed.

Lemma upper_median_counts (l : list Z) :
  l <> [] ->
  length l / 2 + 1 <= length (filter (fun x => x <= upper_median l)%Z l) /\
  length l - length l / 2 <= length (filter (fun x => upper_median l <= x)%Z l).
Proof.
  intros Hne. assert (0 < length l) by (destruct l; cbn; [done|lia]).
  assert (length (merge_sort Z.le l) = length l) as Hlen by (by rewrite merge_sort_Permutation).
  destruct (lookup_lt_is_Some_2 (merge_sort Z.le l) (length l / 2)) as [m Hm].
  { rewrite Hlen. apply Nat.div_lt; lia. }
  assert (upper_median l = m) as -> by (unfold upper_median; by rewrite Hlen, Hm).
  destruct (sorted_median (merge_sort Z.le l) (length l / 2) m) as [H1 H2]; [|done|].
  - apply StronglySorted_merge_sort; [intros x y z; lia|intros x y; lia].
  - by rewrite Hlen, !(merge_sort_Permutation Z.le l) in *.
Qed.

Lemma foldr_max_ge l x : x ∈ l -> (x <= foldr Z.max 0 l)%Z.
Proof. induction 1; cbn; lia. Qed.

Lemma foldr_max_elem l : l <> [] -> (forall x, x ∈ l -> 0 <= x)%Z -> foldr Z.max 0%Z l ∈ l.
Proof.
  induction l as [|a l IH]; [done|]. intros _ Hpos. cbn. destruct (decide (l = [])) as [->|Hne].
  - specialize (Hpos a ltac:(apply elem_of_cons; by left)). cbn. rewrite Z.max_l by lia.
    apply elem_of_cons. by left.
  - specialize (IH Hne (fun x Hx => Hpos x ltac:(apply elem_of_cons; by right))).
    destruct (Z.max_spec a (foldr Z.max 0%Z l)) as [[_ ->]|[_ ->]]; apply elem_of_cons; auto.
Qed.

Section gas.
Context (l : list Z) (total : nat) (Hl : length l <= total)
  (Hu : forall x, x ∈ l -> (0 <= x < 2 ^ 64)%Z) (Hq : quorum total <= length l).

(** A property of a quorum of the estimates holds on both sides of the median. *)
Lemma median_between (P : Z -> Prop) `{forall x, Decision (P x)} :
  quorum total <= length (filter P l) ->
  (exists x, x ∈ l /\ P x /\ x <= upper_median l)%Z /\ (exists x, x ∈ l /\ P x /\ upper_median l <= x)%Z.
Proof.
  intros HP. destruct (upper_median_counts l) as [H1 H2].
  { intros ->. pose proof (quorum_pos total). cbn in *. lia. }
  assert (length l / 2 <= total / 2) by (apply Nat.Div0.div_le_mono; lia).
  pose proof (Nat.div_mod_eq (length l) 2). pose proof (Nat.mod_upper_bound (length l) 2).
  assert (quorum total = total / 2 + 1) by done.
  split.
  - apply (filters_intersect P (fun x => x <= upper_median l)%Z l). lia.
  - apply (filters_intersect P (fun x => upper_median l <= x)%Z l). lia.
Qed.

(** Wrap-around of the doubled median cannot let a quorum through. *)
Lemma bounded_majority :
  let m := upper_median l in
  quorum total <= length (filter (gas_in_bounds m) l) ->
  (0 <= m < 2 ^ 63)%Z /\ (forall x, gas_in_bounds m x <-> m <= 2 * x /\ x <= 2 * m)%Z.
Proof.
  intros m Hin. destruct (median_between (gas_in_bounds m) Hin) as [_ (x & Hx & Hb & Hge)]. fold m in Hge.
  unfold gas_in_bounds, u64 in *. pose proof (Hu x Hx).
  destruct (median_between (fun _ => True)) as [(y & Hy & _ & Hym) _].
  { etrans; [exact Hq|]. clear. induction l as [|a k IH]; [done|].
    rewrite filter_cons, decide_True by done. cbn. lia. }
  fold m in Hym. pose proof (Hu y Hy).
  destruct (decide (m < 2 ^ 63)%Z) as [Hs|Hbig].
  - split; [lia|]. intros z. rewrite !Z.mod_small by lia. pose proof (Z.div_mod (m + 1) 2).
    pose proof (Z.mod_pos_bound (m + 1) 2). lia.
  - exfalso. assert ((m * 2) mod 2 ^ 64 = m * 2 - 2 ^ 64)%Z as E.
    { symmetry. apply (Z.mod_unique_pos _ _ 1); lia. }
    lia.
Qed.
End gas.

Lemma length_gas_successes l : length (gas_successes l) <= length l.
Proof. apply length_omap_le. Qed.

Lemma elem_of_gas_successes l i g : (i, g) ∈ gas_successes l <-> (i, Answered g) ∈ l.
Proof.
  unfold gas_successes. rewrite list_elem_of_omap. split.
  - intros ([j p] & Hin & E). cbn in E. destruct p; by simplify_eq.
  - intros Hin. by exists (i, Answered g).
Qed.

(** C23: A gas estimate is one a provider gave, is at most the canonical block gas limit, and
    when a quorum of the configured providers estimate between [low] and [high] it is at
    least [low] and at most twice [high], whatever the others answer and even though the
    bound 2m is computed in wrapping 64-bit arithmetic. *)
Theorem EstimateGas_bounded limit arrivals c c' g low high :
  let total := length (cl_providers c) in
  let gases := snd <$> gas_successes arrivals in
  length arrivals = total -> (forall x, x ∈ gases -> 0 <= x < 2 ^ 64)%Z ->
  aggregateGas limit arrivals c = (c', Ok g) ->
  quorum total <= length (filter (fun x => low <= x <= high)%Z gases) ->
  (g <= limit /\ low <= g <= 2 * high)%Z /\ exists i, (i, Answered g) ∈ arrivals.
Proof.
  intros total gases Hlen Hu E Hhon. unfold aggregateGas in E. fold total in E.
  case_decide; [done|]. destruct (voted_revert _ _) as [[f e]|]; [done|].
  destruct (decide (quorum total <= length (gas_successes arrivals))) as [Hq|]; [|by case_decide].
  fold gases in E. destruct (decide (length (filter (gas_in_bounds (upper_median gases)) gases) < quorum total))
    as [|Hin]; [done|]. destruct (decide (limit < _)%Z) as [|Hlim]; [done|]. injection E as _ <-.
  assert (length gases <= total) as Hl.
  { unfold gases. rewrite length_fmap, <- Hlen. apply length_gas_successes. }
  assert (quorum total <= length gases) as Hq' by (unfold gases; by rewrite length_fmap).
  assert (quorum total <= length (filter (gas_in_bounds (upper_median gases)) gases)) as Hin' by lia.
  destruct (bounded_majority gases total Hl Hu Hq' Hin') as [_ Hb].
  destruct (median_between gases total Hl Hu Hq' _ Hin') as [_ (x & Hx & Hxb & Hge)].
  destruct (median_between gases total Hl Hu Hq' _ Hhon) as [(y & _ & [? _] & ?) (z & _ & [_ ?] & ?)].
  set (res := filter (gas_in_bounds (upper_median gases)) gases) in *.
  assert (foldr Z.max 0%Z res ∈ res) as Hres.
  { apply foldr_max_elem.
    - intros E0. rewrite E0 in Hin'. pose proof (quorum_pos total). cbn in Hin'. lia.
    - intros w [_ Hw%Hu]%list_elem_of_filter. lia. }
  pose proof (foldr_max_ge res x ltac:(by apply list_elem_of_filter)).
  apply list_elem_of_filter in Hres as [Hbr Hres]. apply Hb in Hbr.
  split; [lia|]. unfold gases in Hres. apply list_elem_of_fmap in Hres as ([i w] & -> & Hw).
  exists i. by apply elem_of_gas_successes.
Qed.

(** One hostile estimate among three. *)
Definition sample_gas : gas_arrivals :=
  [(2, Answered (2 ^ 63)%Z); (0, Answered 21000%Z); (1, Answered 30000%Z)].

Lemma EstimateGas_bounded_witness :
  exists c', aggregateGas 1000000 sample_gas (New 3) = (c', Ok 30000%Z) /\
  (30000 <= 1000000 /\ 21000 <= 30000 <= 2 * 30000)%Z.
Proof.
  destruct (aggregateGas 1000000 sample_gas (New 3)) as [c' r] eqn:E.
  assert (r = Ok 30000%Z) as -> by (apply (f_equal snd) in E; revert E; vm_compute; congruence).
  exists c'. split; [reflexivity|].
  destruct (EstimateGas_bounded 1000000 sample_gas (New 3) c' 30000 21000 30000) as [Hb _].
  - reflexivity.
  - intros x Hx. cbn in Hx. repeat (apply elem_of_cons in Hx as [->|Hx]; [lia|]). by apply elem_of_nil in Hx.
  - exact E.
  - vm_compute. lia.
  - exact Hb.
Defined.
