(* ===== verification/QuorumLogs.v ===== *)
(** * Log windows and receipts by quorum (go/internal/rpcquorum/quorum.go)

    FilterLogs votes on whole log windows by a digest of an injective encoding;
    TransactionReceiptAt votes on receipts and separates an authoritative
    absence from lag. *)

From S2P Require Import Prelude GoErr Voting Sha256 Quorum StateReads.
From stdpp Require Import base gmap list strings numbers fin_maps sorting pretty.
From Stdlib Require Import ZArith Lia Ascii.

Open Scope nat_scope.

(** ** Logs *)

(** The fields of gethtypes.Log the worker reads; integers at their Go width. *)
Record Log := mkLog {
  lg_Address : Address; lg_Topics : list Hash; lg_Data : bytes; lg_BlockNumber : Z;
  lg_TxHash : Hash; lg_TxIndex : Z; lg_BlockHash : Hash; lg_Index : Z; lg_Removed : bool }.

#[export] Instance Log_eq_dec : EqDecision Log.
Proof. solve_decision. Defined.

(** The order of normalizeLogWindow; block hashes compare by their 64-digit hex text, which
    is their numerical order. *)
Definition log_less (a b : Log) : bool :=
  if decide (lg_BlockNumber a <> lg_BlockNumber b) then bool_decide (lg_BlockNumber a < lg_BlockNumber b)%Z
  else if decide (lg_TxIndex a <> lg_TxIndex b) then bool_decide (lg_TxIndex a < lg_TxIndex b)%Z
  else if decide (lg_Index a <> lg_Index b) then bool_decide (lg_Index a < lg_Index b)%Z
  else bool_decide (lg_BlockHash a < lg_BlockHash b)%Z.

Definition normalizeLogWindow (logs : list Log) : list Log := stable_sort log_less logs.

Definition AddressBytes (a : Address) : bytes := be_split AddressLength a.

(** The bytes logWindowFingerprint writes into the digest. *)
Definition write_uint (n : Z) : bytes := be_split 8 n.

Definition log_bytes (l : Log) : bytes :=
  write_uint (lg_BlockNumber l) ++ HashBytes (lg_BlockHash l) ++
  write_uint (lg_TxIndex l) ++ HashBytes (lg_TxHash l) ++
  write_uint (lg_Index l) ++ AddressBytes (lg_Address l) ++
  write_uint (Z.of_nat (length (lg_Topics l))) ++ mjoin (HashBytes <$> lg_Topics l) ++
  write_uint (Z.of_nat (length (lg_Data l))) ++ lg_Data l ++
  [if lg_Removed l then Byte.x01 else Byte.x00].

Definition logWindowBytes (logs : list Log) : bytes :=
  write_uint (Z.of_nat (length logs)) ++ mjoin (log_bytes <$> logs).

Definition logWindowFingerprint (logs : list Log) : string :=
  EncodeToString (Sum256 (logWindowBytes logs)) +:+ "/" +:+ pretty (length logs).

(** A provider's normalized window and its fingerprint; [None] is an error. *)
Definition logWindowResult : Type := option (list Log * string).

(** [attempt k] is the provider's [k]-th reply in this query. *)
Definition queryLogWindow (attempt : nat -> result goerr (list Log)) : logWindowResult :=
  let reply := match attempt 0 with Ok logs => Ok logs | Err _ => attempt 1 end in
  match reply with
  | Err _ => None
  | Ok logs => let sorted := normalizeLogWindow logs in Some (sorted, logWindowFingerprint sorted)
  end.

Definition majorityLogFingerprint (results : list logWindowResult) : string * nat :=
  best_vote (count_votes (omap (fun r : logWindowResult => snd <$> r) results)) "".

Definition applyLogConflicts (fingerprints : gmap nat string) (majority : string) (c : Client)
    : Client :=
  c <| cl_providers := imap (fun i p => match fingerprints !! i with
                                     | Some f => p <| pv_logConflict := bool_decide (majority = "" \/ f <> majority) |>
                                     | None => p
                                     end) (cl_providers c) |>.

Section FilterLogs.
(** The reply of a provider: by index, query round and attempt. *)
Context (attempts : nat -> nat -> nat -> result goerr (list Log)).

Definition participants (toBlock : Z) (snapshot : headSnapshot) : list nat :=
  merge_sort le (fst <$> filter (fun it => toBlock <= it.2)%Z (map_to_list (hs_tips snapshot))).

Definition round1 (parts : list nat) : list logWindowResult :=
  (fun i => queryLogWindow (attempts i 0)) <$> parts.

(** The re-query of the responders outside the round-1 majority. *)
Definition round2 (q : nat) (parts : list nat) : list logWindowResult :=
  let results := round1 parts in
  let '(majority, best) := majorityLogFingerprint results in
  zip_with (fun i (r : logWindowResult) =>
    match r with
    | None => None
    | Some (_, f) =>
      if decide (q <= best /\ f = majority) then r else queryLogWindow (attempts i 1)
    end) parts results.

Definition FilterLogs (fromBlock toBlock : option Z) (c : Client)
    : Client * result qerr (list Log) :=
  match fromBlock, toBlock with
  | Some from, Some to =>
    match cl_head c with
    | None => (c, Err (QErrorf "no quorum head snapshot; CheckHead must precede FilterLogs"))
    | Some snapshot =>
      if decide (hs_number snapshot < to)%Z
      then (c, Err (QErrorf "filter logs to block is beyond the quorum head")) else
      let total := length (cl_providers c) in
      if decide (total = 0) then (c, Err (QErrorf "no rpc providers configured")) else
      let q := quorum total in
      let parts := participants to snapshot in
      if decide (length parts < q) then (c, Err QuorumUnavailable) else
      let results := round2 q parts in
      let '(majority, best) := majorityLogFingerprint results in
      let fingerprints : gmap nat string :=
        list_to_map (omap (fun ir : nat * logWindowResult => (fun w => (ir.1, w.2)) <$> ir.2)
                       (zip parts results)) in
      if decide (length (omap (fun r : logWindowResult => r) results) < q)
      then (c, Err QuorumUnavailable) else
      if decide (best < q)
      then (applyLogConflicts fingerprints "" c, Err (LogConflict from to)) else
      (applyLogConflicts fingerprints majority c,
       match head (filter (fun w => w.2 = majority) (omap (fun r : logWindowResult => r) results)) with
       | Some (logs, _) => Ok logs
       | None => Err (QErrorf "log quorum majority result missing")
       end)
    end
  | _, _ => (c, Err (QErrorf "filter logs requires a bounded from/to block range"))
  end.
End FilterLogs.

(** ** Receipts *)

Record Receipt := mkReceipt {
  rc_TxHash : Hash; rc_Status : Z; rc_BlockNumber : option Z; rc_BlockHash : Hash;
  rc_GasUsed : Z; rc_EffectiveGasPrice : option Z; rc_Logs : list (option Log) }.

#[export] Instance Receipt_eq_dec : EqDecision Receipt.
Proof. solve_decision. Defined.

Section receipts.
(** common.Address.Hex, the checksummed text of go-ethereum. *)
Context (AddressHex : Address -> string).

Definition HashHex (h : Hash) : string := "0x" +:+ EncodeToString (HashBytes h).

Definition log_text (l : option Log) : string :=
  match l with
  | None => "|<nil>"
  | Some l =>
    "|" +:+ AddressHex (lg_Address l) +:+ "/" +:+ HashHex (lg_TxHash l) +:+ "/" +:+
    pretty (lg_Index l) +:+ "/" +:+ pretty (lg_BlockNumber l) +:+ "/" +:+
    HashHex (lg_BlockHash l) +:+ "/" +:+ EncodeToString (lg_Data l) +:+
    foldr String.append "" ((fun t => "/" +:+ HashHex t) <$> lg_Topics l)
  end.

Definition receiptFingerprint (r : Receipt) : string :=
  HashHex (rc_TxHash r) +:+ "|status=" +:+ pretty (rc_Status r) +:+
  "|block=" +:+ from_option pretty "" (rc_BlockNumber r) +:+
  "|block_hash=" +:+ HashHex (rc_BlockHash r) +:+
  "|gas_used=" +:+ pretty (rc_GasUsed r) +:+
  "|effective_gas_price=" +:+ from_option pretty "" (rc_EffectiveGasPrice r) +:+
  "|logs=" +:+ pretty (length (rc_Logs r)) +:+
  foldr String.append "" (log_text <$> rc_Logs r).

Inductive receiptProbe := ReceiptFound (r : Receipt) | ReceiptMissing | ReceiptFailed (e : goerr).

Definition classify_receipt (index : nat) (reply : result goerr (option Receipt)) : receiptProbe :=
  match reply with
  | Err e =>
    let e := wrapProviderOperationError index "eth_getTransactionReceipt" e in
    if errors_Is e NotFound then ReceiptMissing else ReceiptFailed e
  | Ok None => ReceiptMissing
  | Ok (Some r) => ReceiptFound r
  end.

(** The receive loop: the first receipt to reach the quorum, or the tally of all. *)
Fixpoint receipt_loop (q : nat) (arrivals : list (nat * receiptProbe)) (votes : gmap string nat)
    (byFingerprint : gmap string Receipt) : Receipt + (gmap string nat * gmap string Receipt) :=
  match arrivals with
  | [] => inr (votes, byFingerprint)
  | (_, ReceiptFound r) :: arrivals =>
    let f := receiptFingerprint r in
    let n := S (default 0 (votes !! f)) in
    if decide (q <= n) then inl r
    else receipt_loop q arrivals (<[f := n]> votes) (<[f := r]> byFingerprint)
  | _ :: arrivals => receipt_loop q arrivals votes byFingerprint
  end.

Definition is_missing (p : receiptProbe) : bool :=
  match p with ReceiptMissing => true | _ => false end.

(** The provider's last observed tip reached [bar]. *)
Definition covers (c : Client) (bar : option Z) (i : nat) : Prop :=
  match bar, cl_head c ≫= (fun s => hs_tips s !! i) with
  | Some b, Some tip => (b <= tip)%Z
  | _, _ => False
  end.
#[global] Instance covers_dec c bar i : Decision (covers c bar i).
Proof. unfold covers. repeat case_match; apply _. Defined.

(** The "not found" answers that cover [bar]. *)
Definition unexcused (c : Client) (bar : option Z) (arrivals : list (nat * receiptProbe)) : list nat :=
  fst <$> filter (fun a => is_missing a.2 = true /\ covers c bar a.1) arrivals.

Definition max_opt (a b : option Z) : option Z :=
  match a, b with
  | Some x, Some y => Some (Z.max x y)
  | Some x, None => Some x
  | None, b => b
  end.

Definition highest_block (rs : list Receipt) : option Z :=
  foldr (fun r acc => max_opt (rc_BlockNumber r) acc) None rs.

Definition failures (arrivals : list (nat * receiptProbe)) : list goerr :=
  omap (fun a => match a.2 with ReceiptFailed e => Some e | _ => None end) arrivals.

Definition TransactionReceiptAt (c : Client) (txHash : Hash) (minBlock : option Z)
    (replies : list (nat * result goerr (option Receipt))) : result qerr Receipt :=
  let total := length (cl_providers c) in
  check total <> 0 or QErrorf "no rpc providers configured" ;;
  let q := quorum total in
  let arrivals := (fun a => (a.1, classify_receipt a.1 a.2)) <$> replies in
  match receipt_loop q arrivals ∅ ∅ with
  | inl r => Ok r
  | inr (votes, byFingerprint) =>
    if decide (votes = ∅) then
      let notFoundVotes :=
        match minBlock with
        | None => length (filter (fun a => is_missing a.2 = true) arrivals)
        | Some _ => length (unexcused c minBlock arrivals)
        end in
      if decide (q <= notFoundVotes) then Err ReceiptNotFound else
      match failures arrivals with
      | e :: es => Err (ProviderError (errJoin (e :: es)))
      | [] => Err QuorumUnavailable
      end
    else
      let bar := max_opt minBlock (highest_block (snd <$> map_to_list byFingerprint)) in
      let receiptVotes := map_fold (fun _ count acc => count + acc) 0 votes in
      let unexcusedNotFound := length (unexcused c bar arrivals) in
      if decide (q <= unexcusedNotFound) then Err ReceiptNotFound else
      if decide (q <= receiptVotes + unexcusedNotFound /\ (1 < size votes \/ 0 < unexcusedNotFound))
      then Err (ReceiptConflict txHash)
      else Err QuorumUnavailable
  end.

Definition TransactionReceipt (c : Client) (txHash : Hash)
    (replies : list (nat * result goerr (option Receipt))) : result qerr Receipt :=
  TransactionReceiptAt c txHash None replies.
End receipts.

(** ** The log-window encoding is injective *)

Definition wf_u64 (n : Z) : Prop := (0 <= n < 2 ^ 64)%Z.

Record wf_log (l : Log) : Prop := {
  wl_address : wf_address (lg_Address l);
  wl_topics : Forall wf_hash (lg_Topics l);
  wl_ntopics : wf_u64 (Z.of_nat (length (lg_Topics l)));
  wl_ndata : wf_u64 (Z.of_nat (length (lg_Data l)));
  wl_block : wf_u64 (lg_BlockNumber l);
  wl_txhash : wf_hash (lg_TxHash l);
  wl_txindex : wf_u64 (lg_TxIndex l);
  wl_blockhash : wf_hash (lg_BlockHash l);
  wl_index : wf_u64 (lg_Index l) }.

Lemma split_app_inj n a b (x y : bytes) :
  (0 <= a < 256 ^ Z.of_nat n)%Z -> (0 <= b < 256 ^ Z.of_nat n)%Z ->
  be_split n a ++ x = be_split n b ++ y -> a = b /\ x = y.
Proof.
  intros Ha Hb E. apply app_inj_1 in E as [E1 E2]; [|by rewrite !length_be_split].
  split; [|done]. apply (f_equal be_combine) in E1. by rewrite !be_combine_split_small in E1.
Qed.

Lemma hashes_app_inj l1 l2 (x y : bytes) :
  Forall wf_hash l1 -> Forall wf_hash l2 -> length l1 = length l2 ->
  mjoin (HashBytes <$> l1) ++ x = mjoin (HashBytes <$> l2) ++ y -> l1 = l2 /\ x = y.
Proof.
  intros H1. revert l2. induction H1 as [|h1 l1 Hh1 H1 IH]; intros [|h2 l2] H2 Hlen; try done.
  apply Forall_cons in H2 as [Hh2 H2]. injection Hlen as Hlen.
  change (mjoin (HashBytes <$> ?a :: ?b)) with (HashBytes a ++ mjoin (HashBytes <$> b)).
  rewrite <- !app_assoc. intros [-> E]%split_app_inj; [|done..]. apply IH in E as [-> ->]; done.
Qed.

Lemma log_bytes_app_inj l1 l2 (x y : bytes) :
  wf_log l1 -> wf_log l2 -> log_bytes l1 ++ x = log_bytes l2 ++ y -> l1 = l2 /\ x = y.
Proof.
  intros [] []. unfold log_bytes, write_uint. rewrite <- !app_assoc. destruct l1, l2;
  cbn [lg_Address lg_Topics lg_Data lg_BlockNumber lg_TxHash lg_TxIndex lg_BlockHash lg_Index lg_Removed] in *.
  intros [-> E]%split_app_inj; [|done..]. apply split_app_inj in E as [-> E]; [|done..].
  apply split_app_inj in E as [-> E]; [|done..]. apply split_app_inj in E as [-> E]; [|done..].
  apply split_app_inj in E as [-> E]; [|done..]. apply split_app_inj in E as [-> E]; [|done..].
  apply split_app_inj in E as [Hnt E]; [|done..]. apply hashes_app_inj in E as [-> E]; [|done|done|lia].
  apply split_app_inj in E as [Hnd E]; [|done..]. apply app_inj_1 in E as [-> E]; [|lia].
  injection E as E ->. split; [|done]. f_equal. by repeat case_match.
Qed.

(** Windows with the same encoding are the same window. *)
Lemma logWindowBytes_inj w1 w2 :
  Forall wf_log w1 -> Forall wf_log w2 ->
  wf_u64 (Z.of_nat (length w1)) -> wf_u64 (Z.of_nat (length w2)) ->
  logWindowBytes w1 = logWindowBytes w2 -> w1 = w2.
Proof.
  intros H1 H2 Hn1 Hn2. unfold logWindowBytes, write_uint. intros [Hn E]%split_app_inj; [|done..].
  apply Nat2Z.inj in Hn. clear Hn1 Hn2. revert w2 H2 Hn E.
  induction H1 as [|a w1 Ha H1 IH]; intros [|b w2] H2 Hn E; try done.
  apply Forall_cons in H2 as [Hb H2]. injection Hn as Hn.
  change (mjoin (log_bytes <$> ?a :: ?b)) with (log_bytes a ++ mjoin (log_bytes <$> b)) in E.
  apply log_bytes_app_inj in E as [-> E]; [|done..]. f_equal. by apply IH.
Qed.

Lemma append_inj_length s1 s2 a b :
  String.length s1 = String.length s2 -> (s1 +:+ a)%string = (s2 +:+ b)%string -> s1 = s2 /\ a = b.
Proof.
  revert s2. induction s1 as [|c s1 IH]; intros [|d s2]; cbn; try done.
  intros [= Hl] [= -> E]. destruct (IH _ Hl E) as [-> ->]. done.
Qed.

Lemma length_EncodeToString b : String.length (EncodeToString b) = 2 * length b.
Proof. induction b as [|x b IH]; [done|]. cbn. lia. Qed.

Lemma logWindowFingerprint_digest w1 w2 :
  logWindowFingerprint w1 = logWindowFingerprint w2 ->
  Sum256 (logWindowBytes w1) = Sum256 (logWindowBytes w2).
Proof.
  unfold logWindowFingerprint. intros [E _]%append_inj_length.
  - by apply EncodeToString_inj.
  - by rewrite !length_EncodeToString, !length_Sum256.
Qed.

(** ** Normalized windows are ordered *)

Section stable_sort_proofs.
Context {A : Type} (less : A -> A -> bool)
  (Has : forall a b, less a b = true -> less b a = false)
  (Htr : forall a b c, less a b = false -> less b c = false -> less a c = false).

Lemma insert_stable_Permutation x l : insert_stable less x l ≡ₚ x :: l.
Proof.
  induction l as [|y l IH]; [done|]. cbn. destruct (less y x); [|done].
  rewrite IH. apply Permutation_swap.
Qed.

Lemma stable_sort_Permutation l : stable_sort less l ≡ₚ l.
Proof. induction l as [|x l IH]; [done|]. cbn. by rewrite insert_stable_Permutation, IH. Qed.

Definition not_after (a b : A) : Prop := less b a = false.

Lemma insert_stable_sorted x l :
  StronglySorted not_after l -> StronglySorted not_after (insert_stable less x l).
Proof.
  induction 1 as [|y l Hs IH Hf]; [repeat constructor|]. cbn. destruct (less y x) eqn:E.
  - constructor; [done|]. rewrite insert_stable_Permutation. constructor; [by apply Has|done].
  - constructor; [by constructor|]. constructor; [done|].
    eapply Forall_impl; [exact Hf|]. intros z Hz. unfold not_after in *. eauto.
Qed.

Lemma stable_sort_sorted l : StronglySorted not_after (stable_sort less l).
Proof. induction l as [|x l IH]; [constructor|]. by apply insert_stable_sorted. Qed.
End stable_sort_proofs.

Lemma log_less_lex a b :
  log_less a b = lex_ltb [lg_BlockNumber a; lg_TxIndex a; lg_Index a; lg_BlockHash a]
                         [lg_BlockNumber b; lg_TxIndex b; lg_Index b; lg_BlockHash b].
Proof.
  unfold log_less, lex_ltb. repeat case_decide; repeat case_bool_decide;
    repeat match goal with H : ~ _ <> _ |- _ => apply dec_stable in H end; lia.
Qed.

Lemma normalizeLogWindow_sorted logs : StronglySorted (not_after log_less) (normalizeLogWindow logs).
Proof.
  apply stable_sort_sorted.
  - intros a b. rewrite !log_less_lex. apply lex_ltb_asym.
  - intros a b d. rewrite !log_less_lex. apply lex_ltb_trans_false.
Qed.

(** ** What a log vote proves *)

Definition collision (a b : bytes) : Prop := a <> b /\ Sum256 a = Sum256 b.

Section filter_logs_proofs.
Context (attempts : nat -> nat -> nat -> result goerr (list Log)).

(** [w] is the normalized form of a window provider [i] answered. *)
Definition answered_window (i : nat) (w : list Log) : Prop :=
  exists round attempt raw, attempts i round attempt = Ok raw /\ w = normalizeLogWindow raw.

Lemma queryLogWindow_Some i round w f :
  queryLogWindow (attempts i round) = Some (w, f) ->
  answered_window i w /\ f = logWindowFingerprint w.
Proof.
  unfold queryLogWindow, answered_window. destruct (attempts i round 0) as [raw|] eqn:E0.
  - intros [= <- <-]. eauto 10.
  - destruct (attempts i round 1) as [raw|] eqn:E1; [|done]. intros [= <- <-]. eauto 10.
Qed.

Lemma round2_Some q parts i w f :
  (i, Some (w, f)) ∈ zip parts (round2 attempts q parts) ->
  i ∈ parts /\ answered_window i w /\ f = logWindowFingerprint w.
Proof.
  unfold round2, round1. destruct (majorityLogFingerprint _) as [majority best].
  induction parts as [|j parts IH]; cbn; [by intros ?%elem_of_nil|].
  intros Hin. apply elem_of_cons in Hin as [E|Hin].
  2: { destruct (IH Hin) as (? & ? & ?). split_and!; [apply elem_of_cons; by right|done..]. }
  injection E as -> E. split; [apply elem_of_cons; by left|].
  destruct (queryLogWindow (attempts j 0)) as [[w0 f0]|] eqn:E0; [|done].
  destruct (decide _); [simplify_eq; by apply queryLogWindow_Some in E0|].
  symmetry in E. by apply queryLogWindow_Some in E.
Qed.

Lemma participants_spec to snapshot :
  NoDup (participants to snapshot) /\
  forall i, i ∈ participants to snapshot -> exists tip, hs_tips snapshot !! i = Some tip /\ (to <= tip)%Z.
Proof.
  unfold participants. split.
  - rewrite merge_sort_Permutation. apply NoDup_fmap_fst; [|apply NoDup_filter, NoDup_map_to_list].
    intros i t1 t2 [_ H1%elem_of_map_to_list]%list_elem_of_filter [_ H2%elem_of_map_to_list]%list_elem_of_filter.
    congruence.
  - intros i. rewrite merge_sort_Permutation. intros ([j t] & -> & [Ht Hj]%list_elem_of_filter)%list_elem_of_fmap.
    apply elem_of_map_to_list in Hj. eauto.
Qed.

(** The providers whose final window has fingerprint [f]. *)
Definition agreeing (f : string) (parts : list nat) (results : list logWindowResult) : list nat :=
  fst <$> filter (fun ir => snd <$> ir.2 = Some f) (zip parts results).

Lemma agreeing_sublist f parts results : agreeing f parts results `sublist_of` parts.
Proof.
  unfold agreeing. revert results.
  induction parts as [|i parts IH]; intros [|r results]; [done..|apply sublist_nil_l|].
  cbn [zip zip_with]. rewrite filter_cons. case_decide; cbn; [by apply sublist_skip|by apply sublist_cons].
Qed.

Lemma length_agreeing f parts results :
  length parts = length results ->
  length (agreeing f parts results) = tally f (omap (fun r : logWindowResult => snd <$> r) results).
Proof.
  unfold agreeing. rewrite length_fmap, tally_omap. revert results.
  induction parts as [|i parts IH]; intros [|r results] Hl; try done.
  cbn [zip zip_with]. rewrite !filter_cons. cbn [snd]. case_decide; cbn [length]; rewrite IH; auto.
Qed.

Lemma length_round2 q parts : length (round2 attempts q parts) = length parts.
Proof.
  unfold round2. destruct (majorityLogFingerprint _) as [majority best].
  rewrite length_zip_with. unfold round1. rewrite length_fmap. lia.
Qed.
End filter_logs_proofs.

Lemma elem_of_zip_r {A B} (l : list A) (k : list B) y :
  length l = length k -> y ∈ k -> exists x, (x, y) ∈ zip l k.
Proof.
  intros Hl [n Hn]%list_elem_of_lookup_1. pose proof (lookup_lt_Some _ _ _ Hn) as Hlt.
  rewrite <- Hl in Hlt. destruct (lookup_lt_is_Some_2 l n Hlt) as [x Hx]. exists x.
  apply list_elem_of_lookup_2 with n. apply lookup_zip_with_Some. eauto.
Qed.

Lemma answered_window_wf attempts i w :
  (forall i r k raw, attempts i r k = Ok raw -> Forall wf_log raw /\ wf_u64 (Z.of_nat (length raw))) ->
  answered_window attempts i w -> Forall wf_log w /\ wf_u64 (Z.of_nat (length w)).
Proof.
  intros Hwf (r & k & raw & [Hl Hn]%Hwf & ->). unfold normalizeLogWindow.
  by rewrite stable_sort_Permutation.
Qed.

(** Equal fingerprints: the same window, or a collision. *)
Lemma same_digest attempts
    (Hwf : forall i r k raw, attempts i r k = Ok raw -> Forall wf_log raw /\ wf_u64 (Z.of_nat (length raw)))
    i j w1 w2 :
  answered_window attempts i w1 -> answered_window attempts j w2 ->
  logWindowFingerprint w1 = logWindowFingerprint w2 ->
  w1 = w2 \/ collision (logWindowBytes w1) (logWindowBytes w2).
Proof.
  intros H1 H2 E%logWindowFingerprint_digest.
  destruct (decide (w1 = w2)) as [|Hne]; [by left|]. right. split; [|done]. contradict Hne.
  destruct (answered_window_wf _ _ _ Hwf H1), (answered_window_wf _ _ _ Hwf H2).
  by apply logWindowBytes_inj.
Qed.

(** C30: A log window is returned only at or below the quorum head, in node order, and only if
    a quorum of distinct configured providers, each of which had reached the window's end at
    the last head check, answered that very window (or a SHA-256 collision with it): a
    minority can neither add a log to the window nor drop one from it. *)
Theorem FilterLogs_sound attempts from to c c' logs :
  (forall i r k raw, attempts i r k = Ok raw -> Forall wf_log raw /\ wf_u64 (Z.of_nat (length raw))) ->
  FilterLogs attempts (Some from) (Some to) c = (c', Ok logs) ->
  StronglySorted (not_after log_less) logs /\
  exists snapshot group, cl_head c = Some snapshot /\ (to <= hs_number snapshot)%Z /\
    NoDup group /\ quorum (length (cl_providers c)) <= length group /\
    forall i, i ∈ group ->
      (exists tip, hs_tips snapshot !! i = Some tip /\ (to <= tip)%Z) /\
      exists w, answered_window attempts i w /\
        (w = logs \/ collision (logWindowBytes w) (logWindowBytes logs)).
Proof.
  intros Hwf. unfold FilterLogs. destruct (cl_head c) as [snapshot|]; [|done].
  case_decide as Hto; [done|]. case_decide; [done|]. case_decide; [done|].
  set (q := quorum (length (cl_providers c))). set (parts := participants to snapshot).
  set (results := round2 attempts q parts).
  destruct (majorityLogFingerprint results) as [majority best] eqn:Em.
  case_decide; [done|]. case_decide as Hbest; [done|].
  destruct (head _) as [[logs' f]|] eqn:Eh; [|done]. intros [= _ ->].
  destruct (best_vote_tally _ _ _ _ Em) as [Hk _]. pose proof (quorum_pos (length (cl_providers c))) as Hp.
  fold q in Hp. specialize (Hk ltac:(lia)).
  destruct (participants_spec to snapshot) as [Hnd Htip]. fold parts in Hnd, Htip.
  apply head_Some_elem_of, list_elem_of_filter in Eh as [Ef Hin]. cbn in Ef. subst f.
  apply list_elem_of_omap in Hin as (r0 & Hr0 & ->).
  pose proof (length_round2 attempts q parts) as Hlen. fold results in Hlen.
  destruct (elem_of_zip_r parts results _ (eq_sym Hlen) Hr0) as [i0 Hi0].
  destruct (round2_Some _ _ _ _ _ _ Hi0) as (_ & Hw0 & Hf0).
  split; [destruct Hw0 as (? & ? & raw & _ & ->); apply normalizeLogWindow_sorted|].
  exists snapshot, (agreeing majority parts results).
  split_and!; [done|lia|by eapply sublist_NoDup, agreeing_sublist| |].
  { rewrite length_agreeing by done. rewrite Hk. lia. }
  intros i Hi. unfold agreeing in Hi.
  apply list_elem_of_fmap in Hi as ([j r] & -> & [Hr Hj]%list_elem_of_filter). cbn in Hr.
  destruct r as [[w f]|]; [|done]. injection Hr as ->.
  destruct (round2_Some _ _ _ _ _ _ Hj) as (Hpart & Hw & Hf). split; [by apply Htip|].
  exists w. split; [done|]. apply (same_digest attempts Hwf j i0); [done..|congruence].
Qed.

Definition sample_log : Log := mkLog 7%Z [1%Z; 2%Z] [Byte.x01] 90 11%Z 0 12%Z 3 false.
Definition sample_window (i round attempt : nat) : result goerr (list Log) :=
  if decide (i = 1) then Ok [] else Ok [sample_log].
Definition sample_client : Client :=
  mkClient (replicate 3 (mkProvider ProviderHealthy false false))
    (Some (mkSnapshot 100 5%Z (list_to_map [(0, 100%Z); (1, 105%Z); (2, 100%Z)]))).

Lemma sample_window_wf i r k raw :
  sample_window i r k = Ok raw -> Forall wf_log raw /\ wf_u64 (Z.of_nat (length raw)).
Proof.
  unfold sample_window, wf_u64. case_decide; intros [= <-]; (split; [|cbn [length]; lia]); [constructor|].
  constructor; [|constructor]. split; cbn -[Z.pow]; unfold wf_u64, wf_hash, wf_address; try lia.
  apply Forall_cons_2; [unfold wf_hash; lia|]. apply Forall_cons_2; [unfold wf_hash; lia|constructor].
Qed.

Lemma FilterLogs_sound_witness :
  exists c', FilterLogs sample_window (Some 80%Z) (Some 100%Z) sample_client = (c', Ok [sample_log]) /\
  StronglySorted (not_after log_less) [sample_log] /\
  exists group : list nat, NoDup group /\ quorum 3 <= length group.
Proof.
  destruct (FilterLogs sample_window (Some 80%Z) (Some 100%Z) sample_client) as [c' r] eqn:E.
  assert (r = Ok [sample_log]) as -> by (apply (f_equal snd) in E; revert E; vm_compute; congruence).
  exists c'. split; [reflexivity|].
  destruct (FilterLogs_sound sample_window 80 100 sample_client c' [sample_log])
    as (Hs & snapshot & group & _ & _ & Hnd & Hq & _).
  - exact sample_window_wf.
  - exact E.
  - split; [exact Hs|]. exists group. split; [exact Hnd|exact Hq].
Defined.

(** ** Receipt fingerprints determine the receipt *)

Fixpoint no_char (c : Ascii.ascii) (s : string) : Prop :=
  match s with EmptyString => True | String d s => d <> c /\ no_char c s end.

Lemma no_char_app c a b : no_char c (a +:+ b)%string <-> no_char c a /\ no_char c b.
Proof. induction a as [|d a IH]; simpl; [tauto|]. rewrite IH. tauto. Qed.

(** Pieces that each start with a delimiter none of them contains. *)
Definition delimited (c : Ascii.ascii) (pieces : list string) : string :=
  foldr (fun p acc => String c (p +:+ acc)) "" pieces.

Lemma delimited_split c p1 p2 l1 l2 :
  no_char c p1 -> no_char c p2 ->
  (p1 +:+ delimited c l1)%string = (p2 +:+ delimited c l2)%string ->
  p1 = p2 /\ delimited c l1 = delimited c l2.
Proof.
  revert p2. induction p1 as [|d p1 IH]; intros [|e p2]; cbn; [done|..].
  - intros _ [Hne _] E. destruct l1; cbn in E; [done|]. by injection E.
  - intros [Hne _] _ E. destruct l2; cbn in E; [done|]. by injection E.
  - intros [_ H1] [_ H2] [= -> E]. destruct (IH p2 H1 H2 E) as [-> ->]. done.
Qed.

Lemma delimited_inj c l1 l2 :
  Forall (no_char c) l1 -> Forall (no_char c) l2 -> delimited c l1 = delimited c l2 -> l1 = l2.
Proof.
  intros H1. revert l2. induction H1 as [|p l1 Hp H1 IH]; intros [|p2 l2] H2; cbn; try done.
  apply Forall_cons in H2 as [Hp2 H2]. intros [= E]. apply delimited_split in E as [-> E]; [|done..].
  f_equal. by apply IH.
Qed.

Definition bar : Ascii.ascii := "|"%char.
Definition slash : Ascii.ascii := "/"%char.

(** Text without the two delimiters. *)
Definition plain (s : string) : Prop := no_char bar s /\ no_char slash s.

Lemma plain_app a b : plain a -> plain b -> plain (a +:+ b)%string.
Proof. unfold plain. rewrite !no_char_app. tauto. Qed.

Lemma plain_String c s : c <> bar -> c <> slash -> plain s -> plain (String c s).
Proof. intros ?? [? ?]. by repeat split. Qed.

Lemma plain_hex b : plain (EncodeToString b).
Proof.
  induction b as [|x b IH]; [done|]. cbn. pose proof (byte_val_range x).
  assert (forall a, (0 <= a < 16)%Z -> hex_digit a <> bar /\ hex_digit a <> slash) as Hd.
  { intros a Ha. pose proof (hex_digit_val a Ha) as Hv.
    split; intros E; rewrite E in Hv; case_decide; cbn in Hv; lia. }
  destruct (Hd (byte_val x / 16)%Z) as [? ?]; [split; [apply Z.div_pos|apply Z.div_lt_upper_bound]; lia|].
  destruct (Hd (byte_val x mod 16)%Z) as [? ?]; [apply Z.mod_pos_bound; lia|].
  by apply plain_String, plain_String.
Qed.

Lemma plain_HashHex h : plain (HashHex h).
Proof. unfold HashHex. apply plain_app; [by repeat split|apply plain_hex]. Qed.

Lemma pretty_N_go_plain x s : plain s -> plain (pretty_N_go x s) /\ (s <> "" -> pretty_N_go x s <> "").
Proof.
  revert s. induction (N.lt_wf_0 x) as [x _ IH]; intros s Hs.
  destruct (decide (x = 0)%N) as [->|Hx]; [by rewrite pretty_N_go_0|].
  rewrite pretty_N_go_step by lia.
  destruct (IH (x `div` 10)%N) with (s := String (pretty_N_char (x `mod` 10)) s) as [H1 H2].
  - apply N.div_lt; lia.
  - apply plain_String; [| |done]; unfold pretty_N_char; by repeat case_match.
  - split; [done|]. intros _. by apply H2.
Qed.

Lemma pretty_N_plain (x : N) : plain (pretty x) /\ pretty x <> "".
Proof.
  unfold pretty, pretty_N. case_decide as Hx; [by repeat split|].
  rewrite pretty_N_go_step by lia.
  destruct (pretty_N_go_plain (x `div` 10)%N (String (pretty_N_char (x `mod` 10)) "")) as [H1 H2].
  - apply plain_String; [| |done]; unfold pretty_N_char; by repeat case_match.
  - split; [done|]. by apply H2.
Qed.

Lemma pretty_Z_plain (x : Z) : plain (pretty x) /\ pretty x <> "".
Proof.
  destruct x as [|p|p]; [by repeat split|apply pretty_N_plain|].
  destruct (pretty_N_plain (N.pos p)) as [? ?]. split; [|done].
  apply (plain_app "-" (pretty (N.pos p))); [by repeat split|done].
Qed.

Lemma pretty_opt_plain (o : option Z) : plain (from_option pretty "" o).
Proof. destruct o; [apply pretty_Z_plain|by repeat split]. Qed.

Lemma pretty_opt_inj (o1 o2 : option Z) : from_option pretty "" o1 = from_option pretty "" o2 -> o1 = o2.
Proof.
  destruct o1 as [x|], o2 as [y|]; cbn; intros E; [|by apply pretty_Z_plain in E| |done].
  - f_equal. by apply (inj pretty).
  - symmetry in E. by apply pretty_Z_plain in E.
Qed.

Section receipt_fingerprint.
Context (AddressHex : Address -> string)
  (Hplain : forall a, wf_address a -> plain (AddressHex a))
  (Hhex : forall a b, wf_address a -> wf_address b -> AddressHex a = AddressHex b -> a = b).

(** The fields of a log and of a receipt the vote is about. *)
Definition log_facts (l : Log) : Address * Hash * Z * Z * Hash * bytes * list Hash :=
  (lg_Address l, lg_TxHash l, lg_Index l, lg_BlockNumber l, lg_BlockHash l, lg_Data l, lg_Topics l).
Definition receipt_facts (r : Receipt) :=
  (rc_TxHash r, rc_Status r, rc_BlockNumber r, rc_BlockHash r, rc_GasUsed r,
   rc_EffectiveGasPrice r, (fun o : option Log => log_facts <$> o) <$> rc_Logs r).

Definition wf_olog (o : option Log) : Prop := match o with Some l => wf_log l | None => True end.

Definition wf_receipt (r : Receipt) : Prop :=
  wf_hash (rc_TxHash r) /\ wf_hash (rc_BlockHash r) /\
  Forall wf_olog (rc_Logs r).

Lemma HashHex_inj h1 h2 : wf_hash h1 -> wf_hash h2 -> HashHex h1 = HashHex h2 -> h1 = h2.
Proof.
  intros H1 H2 E%append_inj_l%EncodeToString_inj.
  apply (f_equal BytesToHash) in E. by rewrite !BytesToHash_Bytes in E.
Qed.

Definition log_pieces (l : Log) : list string :=
  [HashHex (lg_TxHash l); pretty (lg_Index l); pretty (lg_BlockNumber l); HashHex (lg_BlockHash l);
   EncodeToString (lg_Data l)] ++ (HashHex <$> lg_Topics l).

Definition log_body (o : option Log) : string :=
  match o with
  | None => "<nil>"
  | Some l => AddressHex (lg_Address l) +:+ delimited slash (log_pieces l)
  end.

Lemma topics_delimited l :
  foldr String.append "" ((fun t => "/" +:+ HashHex t)%string <$> l) = delimited slash (HashHex <$> l).
Proof. induction l as [|h l IH]; [done|]. rewrite !fmap_cons. cbn [foldr]. by rewrite IH. Qed.

Lemma log_text_body o : log_text AddressHex o = String bar (log_body o).
Proof. destruct o as [l|]; [|done]. cbn. by rewrite topics_delimited. Qed.

Definition receipt_pieces (r : Receipt) : list string :=
  ["status=" +:+ pretty (rc_Status r); "block=" +:+ from_option pretty "" (rc_BlockNumber r);
   "block_hash=" +:+ HashHex (rc_BlockHash r); "gas_used=" +:+ pretty (rc_GasUsed r);
   "effective_gas_price=" +:+ from_option pretty "" (rc_EffectiveGasPrice r);
   "logs=" +:+ pretty (length (rc_Logs r))]%string ++ (log_body <$> rc_Logs r).

Lemma append_assoc a b c : ((a +:+ b) +:+ c)%string = (a +:+ (b +:+ c))%string.
Proof.
  induction a as [|d a IH]; [done|].
  change (String d ((a +:+ b) +:+ c)%string = String d (a +:+ (b +:+ c))%string). by rewrite IH.
Qed.

Lemma receiptFingerprint_pieces r :
  receiptFingerprint AddressHex r = (HashHex (rc_TxHash r) +:+ delimited bar (receipt_pieces r))%string.
Proof.
  unfold receiptFingerprint. f_equal.
  assert (foldr String.append "" (log_text AddressHex <$> rc_Logs r) = delimited bar (log_body <$> rc_Logs r)) as ->.
  { induction (rc_Logs r) as [|o l IH]; [done|]. rewrite !fmap_cons. cbn [foldr]. by rewrite log_text_body, IH. }
  unfold receipt_pieces. cbn. by rewrite !append_assoc.
Qed.

Lemma plain_pieces l : Forall plain (log_pieces l).
Proof.
  unfold log_pieces. apply Forall_app. split.
  - apply Forall_cons_2; [apply plain_HashHex|]. apply Forall_cons_2; [apply pretty_Z_plain|].
    apply Forall_cons_2; [apply pretty_Z_plain|]. apply Forall_cons_2; [apply plain_HashHex|].
    apply Forall_cons_2; [apply plain_hex|constructor].
  - apply Forall_fmap, Forall_true. intros h. apply plain_HashHex.
Qed.

Lemma delimited_bar l : Forall plain l -> no_char bar (delimited slash l).
Proof.
  induction 1 as [|p l [Hp _] Hl IH]; [done|]. cbn. rewrite no_char_app. by repeat split.
Qed.

Lemma log_body_bar o : wf_olog o -> no_char bar (log_body o).
Proof.
  destruct o as [l|]; [|by repeat split]. intros Hl. cbn [log_body]. rewrite no_char_app.
  split; [apply Hplain, Hl|apply delimited_bar, plain_pieces].
Qed.

Lemma HashHex_list_inj l1 l2 :
  Forall wf_hash l1 -> Forall wf_hash l2 -> HashHex <$> l1 = HashHex <$> l2 -> l1 = l2.
Proof.
  intros H1. revert l2. induction H1 as [|h l1 Hh H1 IH]; intros [|h2 l2] H2; try done.
  apply Forall_cons in H2 as [Hh2 H2]. rewrite !fmap_cons. intros [E1 E2]%cons_eq_inj.
  f_equal; [by apply HashHex_inj|by apply IH].
Qed.

Lemma log_body_nil l : log_body (Some l) <> log_body None.
Proof.
  intros E. assert (no_char slash (log_body None)) as Hn by (by repeat split).
  rewrite <- E in Hn. cbn [log_body] in Hn. apply no_char_app in Hn as [_ [Hn _]]. done.
Qed.

Lemma log_body_inj o1 o2 :
  wf_olog o1 -> wf_olog o2 -> log_body o1 = log_body o2 -> log_facts <$> o1 = log_facts <$> o2.
Proof.
  destruct o1 as [l1|], o2 as [l2|]; [|by intros _ _ E%log_body_nil|
    by intros _ _ E%eq_sym%log_body_nil|done].
  intros H1 H2 E. cbn in H1, H2. unfold log_body in E.
  apply delimited_split in E as [Ea E]; [|apply Hplain; by destruct H1, H2..].
  apply delimited_inj in E; [|eapply Forall_impl; [apply plain_pieces|]; by intros ? []..].
  unfold log_pieces in E. cbn [app] in E.
  do 5 (apply cons_eq_inj in E as [?E E]). rename E into E6. destruct H1, H2. apply Hhex in Ea; [|done..].
  apply HashHex_list_inj in E6; [|done..].
  apply HashHex_inj in E0, E3; [|done..]. apply EncodeToString_inj in E4.
  apply (inj pretty) in E1, E2. cbn. unfold log_facts. by rewrite Ea, E0, E1, E2, E3, E4, E6.
Qed.

Lemma log_bodies_inj l1 l2 :
  Forall wf_olog l1 -> Forall wf_olog l2 -> log_body <$> l1 = log_body <$> l2 ->
  (fun o : option Log => log_facts <$> o) <$> l1 = (fun o : option Log => log_facts <$> o) <$> l2.
Proof.
  intros H1. revert l2. induction H1 as [|h l1 Hh H1 IH]; intros [|h2 l2] H2; try done.
  apply Forall_cons in H2 as [Hh2 H2]. rewrite !fmap_cons. intros [E1 E2]%cons_eq_inj.
  f_equal; [by apply log_body_inj|by apply IH].
Qed.

Lemma labelled_bar (label value : string) :
  no_char bar label -> plain value -> no_char bar (label +:+ value)%string.
Proof. intros ? [? _]. by apply no_char_app. Qed.

Lemma receipt_pieces_bar r : Forall wf_olog (rc_Logs r) -> Forall (no_char bar) (receipt_pieces r).
Proof.
  intros Hw. unfold receipt_pieces. apply Forall_app. split.
  - apply Forall_cons_2; [apply labelled_bar; [by repeat split|apply pretty_Z_plain]|].
    apply Forall_cons_2; [apply labelled_bar; [by repeat split|apply pretty_opt_plain]|].
    apply Forall_cons_2; [apply labelled_bar; [by repeat split|apply plain_HashHex]|].
    apply Forall_cons_2; [apply labelled_bar; [by repeat split|apply pretty_Z_plain]|].
    apply Forall_cons_2; [apply labelled_bar; [by repeat split|apply pretty_opt_plain]|].
    apply Forall_cons_2; [apply labelled_bar; [by repeat split|apply (pretty_N_plain (N.of_nat _))]|constructor].
  - apply Forall_fmap. eapply Forall_impl; [exact Hw|]. intros o Ho. by apply log_body_bar.
Qed.

(** Receipts with the same fingerprint agree on every fact the vote is about. *)
Lemma receiptFingerprint_inj r1 r2 :
  wf_receipt r1 -> wf_receipt r2 ->
  receiptFingerprint AddressHex r1 = receiptFingerprint AddressHex r2 ->
  receipt_facts r1 = receipt_facts r2.
Proof.
  intros (H1 & H1' & Hl1) (H2 & H2' & Hl2). rewrite !receiptFingerprint_pieces.
  intros E'. destruct (delimited_split _ _ _ _ _ (proj1 (plain_HashHex _)) (proj1 (plain_HashHex _)) E')
    as [E0 E]. clear E'. apply delimited_inj in E; [|by apply receipt_pieces_bar..].
  unfold receipt_pieces in E. cbn [app] in E. do 6 (apply cons_eq_inj in E as [?E E]).
  apply append_inj_l in E1, E2, E3, E4, E5. apply (inj pretty) in E1, E4. apply pretty_opt_inj in E2, E5.
  apply HashHex_inj in E0, E3; [|done..]. apply log_bodies_inj in E; [|done..].
  unfold receipt_facts. by rewrite E0, E1, E2, E3, E4, E5, E.
Qed.
End receipt_fingerprint.

(** ** What a receipt vote proves *)

Section receipt_vote.
Context (AddressHex : Address -> string).
Abbreviation fp := (receiptFingerprint AddressHex).

Definition found (l : list (nat * receiptProbe)) : list Receipt :=
  omap (fun a => match a.2 with ReceiptFound r => Some r | _ => None end) l.

Lemma found_app l k : found (l ++ k) = found l ++ found k.
Proof. apply omap_app. Qed.

(** The loop's state after consuming [seen]. *)
Record receipts_inv (q : nat) (seen : list Receipt) (votes : gmap string nat)
    (by_fp : gmap string Receipt) : Prop := {
  ri_votes : forall f, default 0 (votes !! f) = tally f (fp <$> seen);
  ri_below : forall f, tally f (fp <$> seen) < q;
  ri_dom : forall f, is_Some (votes !! f) <-> 0 < tally f (fp <$> seen);
  ri_by : forall r, r ∈ seen -> exists r', by_fp !! fp r = Some r' /\ fp r' = fp r /\ r' ∈ seen;
  ri_in : forall f r, by_fp !! f = Some r -> fp r = f /\ r ∈ seen }.

Lemma receipts_inv_step q seen votes by_fp r :
  receipts_inv q seen votes by_fp ->
  ~ q <= S (default 0 (votes !! fp r)) ->
  receipts_inv q (seen ++ [r]) (<[fp r := S (default 0 (votes !! fp r))]> votes) (<[fp r := r]> by_fp).
Proof.
  intros [Hv Hb Hd Hby Hin] Hq. rewrite Hv in *. split.
  - intros f. rewrite fmap_app. cbn [fmap list_fmap]. rewrite tally_snoc. case_decide as E.
    + subst f. rewrite lookup_insert_eq. cbn. lia.
    + rewrite lookup_insert_ne by done. rewrite Hv. lia.
  - intros f. rewrite fmap_app. cbn [fmap list_fmap]. rewrite tally_snoc. specialize (Hb f).
    case_decide; [subst f|]; lia.
  - intros f. rewrite fmap_app. cbn [fmap list_fmap]. rewrite tally_snoc. case_decide as E.
    + subst f. rewrite lookup_insert_eq. split; [lia|eauto].
    + rewrite lookup_insert_ne by done. rewrite Hd. by rewrite Nat.add_0_r.
  - intros r' [Hr|Hr]%elem_of_app.
    + destruct (decide (fp r' = fp r)) as [E|E].
      * exists r. rewrite E, lookup_insert_eq. split_and!; [done..|]. apply elem_of_app. right. by apply list_elem_of_singleton.
      * destruct (Hby r' Hr) as (r2 & ? & ? & ?). exists r2. rewrite lookup_insert_ne by congruence.
        split_and!; [done..|]. apply elem_of_app. by left.
    + apply list_elem_of_singleton in Hr as ->. exists r. rewrite lookup_insert_eq. split_and!; [done..|].
      apply elem_of_app. right. by apply list_elem_of_singleton.
  - intros f r' [[<- <-]|[_ Hr]]%lookup_insert_Some.
    + split; [done|]. apply elem_of_app. right. by apply list_elem_of_singleton.
    + destruct (Hin f r' Hr). split; [done|]. apply elem_of_app. by left.
Qed.

Lemma receipt_loop_spec q arrivals seen votes by_fp :
  receipts_inv q seen votes by_fp ->
  match receipt_loop AddressHex q arrivals votes by_fp with
  | inl r => r ∈ found arrivals /\ q <= tally (fp r) (fp <$> seen ++ found arrivals)
  | inr (votes', by') => receipts_inv q (seen ++ found arrivals) votes' by'
  end.
Proof.
  revert seen votes by_fp. induction arrivals as [|[i p] l IH]; intros seen votes by_fp Hinv; cbn [receipt_loop].
  - change (found []) with (@nil Receipt). by rewrite app_nil_r.
  - destruct p as [r| |e]; [|by apply (IH seen votes by_fp)..].
    change (found ((i, ReceiptFound r) :: l)) with (r :: found l).
    case_decide as Hq.
    + split; [apply elem_of_cons; by left|]. rewrite (ri_votes _ _ _ _ Hinv) in Hq.
      rewrite fmap_app, fmap_cons, tally_app, tally_cons, decide_True by done. lia.
    + specialize (IH _ _ _ (receipts_inv_step _ _ _ _ _ Hinv Hq)). rewrite <- app_assoc in IH.
      destruct (receipt_loop _ _ _ _ _) as [r'|[votes' by']]; [|done].
      destruct IH as [Hr Ht]. split; [apply elem_of_cons; by right|done].
Qed.
End receipt_vote.

(** The reply is a receipt with the facts of [r]; the receipt [r]; an answer "not found". *)
Definition same_receipt (r : Receipt) (a : nat * result goerr (option Receipt)) : Prop :=
  match a.2 with Ok (Some r') => receipt_facts r' = receipt_facts r | _ => False end.
Definition gives_receipt (r : Receipt) (a : nat * result goerr (option Receipt)) : Prop :=
  match a.2 with Ok (Some r') => r' = r | _ => False end.
Definition denies (a : nat * result goerr (option Receipt)) : Prop :=
  is_missing (classify_receipt a.1 a.2) = true.

#[export] Instance same_receipt_dec r a : Decision (same_receipt r a).
Proof. unfold same_receipt, receipt_facts. repeat case_match; apply _. Defined.
#[export] Instance gives_receipt_dec r a : Decision (gives_receipt r a).
Proof. unfold gives_receipt. repeat case_match; apply _. Defined.
#[export] Instance denies_dec a : Decision (denies a).
Proof. unfold denies. apply _. Defined.

Section receipt_round.
Context (AddressHex : Address -> string)
  (Hplain : forall a, wf_address a -> plain (AddressHex a))
  (Hhex : forall a b, wf_address a -> wf_address b -> AddressHex a = AddressHex b -> a = b)
  (replies : list (nat * result goerr (option Receipt)))
  (Hwf : forall i r, (i, Ok (Some r)) ∈ replies -> wf_receipt r).
Abbreviation fp := (receiptFingerprint AddressHex).

Definition arrived : list (nat * receiptProbe) :=
  (fun a => (a.1, classify_receipt a.1 a.2)) <$> replies.

Lemma classify_found i reply r : classify_receipt i reply = ReceiptFound r -> reply = Ok (Some r).
Proof. destruct reply as [[r'|]|e]; cbn; [congruence|done|]. by destruct (errors_Is _ _). Qed.

Lemma elem_of_found r : r ∈ found arrived <-> exists i, (i, Ok (Some r)) ∈ replies.
Proof.
  unfold found, arrived. rewrite list_elem_of_omap. split.
  - intros ([i p] & Hin & E). apply list_elem_of_fmap in Hin as ([j reply] & [= -> ->] & Hin). cbn in *.
    destruct (classify_receipt j reply) eqn:Ec; [|done..]. apply classify_found in Ec. simplify_eq. eauto.
  - intros [i Hi]. exists (i, ReceiptFound r). split; [|done]. apply list_elem_of_fmap.
    by exists (i, Ok (Some r)).
Qed.

Lemma found_fingerprints :
  fp <$> found arrived =
  omap (fun a => match a.2 with Ok (Some r) => Some (fp r) | _ => None end) replies.
Proof.
  unfold found, arrived. clear Hwf. induction replies as [|[i reply] l IH]; [done|]. cbn.
  destruct reply as [[r|]|e]; cbn; [by rewrite IH|done|]. by destruct (errors_Is _ _).
Qed.

Lemma length_found : length (fp <$> found arrived) <= length replies.
Proof. rewrite found_fingerprints. apply length_omap_le. Qed.

Lemma tally_same_receipt r :
  r ∈ found arrived -> tally (fp r) (fp <$> found arrived) <= length (filter (same_receipt r) replies).
Proof.
  intros [j Hj]%elem_of_found. rewrite found_fingerprints, tally_omap. apply filter_length_mono.
  intros [i reply] Hin. unfold same_receipt. cbn. destruct reply as [[r'|]|e]; [|done..].
  intros E. apply Some_inj in E.
  apply (receiptFingerprint_inj AddressHex Hplain Hhex); [by eapply Hwf|by eapply Hwf|done].
Qed.

Lemma tally_gives_receipt r :
  length (filter (gives_receipt r) replies) <= tally (fp r) (fp <$> found arrived).
Proof.
  rewrite found_fingerprints, tally_omap. apply filter_length_mono.
  intros [i reply] _. unfold gives_receipt. cbn. destruct reply as [[r'|]|e]; [|done..]. by intros ->.
Qed.

Lemma covers_le c b b' i : (b <= b')%Z -> covers c (Some b') i -> covers c (Some b) i.
Proof. unfold covers. destruct (cl_head c ≫= _); [lia|done]. Qed.

Lemma max_opt_le a b x : a = Some x \/ b = Some x -> exists y, max_opt a b = Some y /\ (x <= y)%Z.
Proof. destruct a, b; cbn; intros [?|?]; simplify_eq; eexists; (split; [done|lia]). Qed.

Lemma highest_block_ge rs r n :
  r ∈ rs -> rc_BlockNumber r = Some n -> exists m, highest_block rs = Some m /\ (n <= m)%Z.
Proof.
  induction 1 as [r rs|r r' rs Hin IH]; intros Hn; [apply max_opt_le; by left|].
  destruct (IH Hn) as (m & Hm & Hle).
  change (highest_block (r' :: rs)) with (max_opt (rc_BlockNumber r') (highest_block rs)). rewrite Hm.
  destruct (max_opt_le (rc_BlockNumber r') (Some m) m) as (y & -> & ?); [by right|].
  exists y. split; [done|lia].
Qed.

(** The providers that deny the transaction while covering [bar]. *)
Lemma unexcused_group c b :
  exists group, group `sublist_of` replies /\ length group = length (unexcused c b arrived) /\
    Forall (fun a => denies a /\ covers c b a.1) group.
Proof.
  exists (filter (fun a => denies a /\ covers c b a.1) replies). split_and!.
  - apply sublist_filter.
  - unfold unexcused, arrived. rewrite length_fmap. symmetry. by apply length_filter_fmap.
  - apply Forall_forall. by intros a [? _]%list_elem_of_filter.
Qed.

(** Whatever block a candidate receipt or the caller names, [bar] is at least as high. *)
Lemma bar_covers c q votes by_fp minBlock i :
  receipts_inv AddressHex q (found arrived) votes by_fp ->
  covers c (max_opt minBlock (highest_block (snd <$> map_to_list by_fp))) i ->
  (forall b, minBlock = Some b -> covers c (Some b) i) /\
  (forall j r n, (j, Ok (Some r)) ∈ replies -> rc_BlockNumber r = Some n -> covers c (Some n) i).
Proof.
  intros Hinv Hc. split.
  - intros b ->. destruct (max_opt_le (Some b) (highest_block (snd <$> map_to_list by_fp)) b) as (y & Ey & ?);
      [by left|]. rewrite Ey in Hc. by eapply covers_le.
  - intros j r n Hj Hn. assert (r ∈ found arrived) as Hr by (apply elem_of_found; eauto).
    destruct (ri_by _ _ _ _ _ Hinv r Hr) as (r' & Hlk & Hf & [j' Hj']%elem_of_found).
    apply (receiptFingerprint_inj AddressHex Hplain Hhex) in Hf; [|by eapply Hwf..].
    assert (rc_BlockNumber r' = Some n) as Hn' by (unfold receipt_facts in Hf; congruence).
    destruct (highest_block_ge (snd <$> map_to_list by_fp) r' n) as (m & Hm & ?); [|done|].
    { apply list_elem_of_fmap. exists (fp r, r'). split; [done|]. by apply elem_of_map_to_list. }
    destruct (max_opt_le minBlock (highest_block (snd <$> map_to_list by_fp)) m) as (y & Ey & ?); [by right|].
    rewrite Ey in Hc. eapply covers_le; [|done]. lia.
Qed.

Lemma receipts_inv_start q : 0 < q -> receipts_inv AddressHex q [] ∅ ∅.
Proof.
  intros Hq. split.
  - intros f. by rewrite lookup_empty.
  - intros f. done.
  - intros f. rewrite lookup_empty. split; [by intros []|cbn; lia].
  - by intros r ?%elem_of_nil.
  - intros f r. by rewrite lookup_empty.
Qed.
End receipt_round.

Lemma gives_elem replies r : 0 < length (filter (gives_receipt r) replies) -> exists i, (i, Ok (Some r)) ∈ replies.
Proof.
  destruct (filter (gives_receipt r) replies) as [|[i reply] l] eqn:E; [cbn; lia|]. intros _. exists i.
  assert ((i, reply) ∈ filter (gives_receipt r) replies) as Hin by (rewrite E; apply elem_of_cons; by left).
  apply list_elem_of_filter in Hin as [Hg Hin]. unfold gives_receipt in Hg. cbn in Hg.
  destruct reply as [[r'|]|]; [by subst|done..].
Qed.

(** C31: A receipt is returned only if a quorum of the configured providers answered one with
    the same facts (transaction, status, block, block hash, gas used, gas price and logs), and
    whatever receipt a quorum answers is the one returned, up to those facts. "Not found" is
    reported only on the word of a quorum of providers whose last observed tip reached the
    caller's minimum block and, when any provider has a receipt, the block of every candidate. *)
Theorem TransactionReceiptAt_sound AddressHex c txHash minBlock replies :
  (forall a, wf_address a -> plain (AddressHex a)) ->
  (forall a b, wf_address a -> wf_address b -> AddressHex a = AddressHex b -> a = b) ->
  (forall i r, (i, Ok (Some r)) ∈ replies -> wf_receipt r) ->
  length replies = length (cl_providers c) ->
  let q := quorum (length (cl_providers c)) in
  let result := TransactionReceiptAt AddressHex c txHash minBlock replies in
  (forall r, q <= length (filter (gives_receipt r) replies) ->
     exists r', result = Ok r' /\ receipt_facts r' = receipt_facts r) /\
  match result with
  | Ok r => (exists i, (i, Ok (Some r)) ∈ replies) /\ q <= length (filter (same_receipt r) replies)
  | Err ReceiptNotFound =>
    exists group, group `sublist_of` replies /\ q <= length group /\
      Forall (fun a => denies a /\ (forall b, minBlock = Some b -> covers c (Some b) a.1) /\
        (forall j r n, (j, Ok (Some r)) ∈ replies -> rc_BlockNumber r = Some n -> covers c (Some n) a.1))
        group
  | Err _ => True
  end.
Proof.
  intros Hplain Hhex Hwf Hlen q result. unfold result, TransactionReceiptAt. fold q.
  assert (0 < q) as Hqp by apply quorum_pos.
  pose proof (receipt_loop_spec AddressHex q (arrived replies) [] ∅ ∅
    (receipts_inv_start AddressHex q (quorum_pos _))) as Hloop.
  fold (arrived replies). cbn [app] in Hloop.
  case_decide as Ht.
  2: { split; [|done]. intros r Hr. rewrite Ht in Hlen. destruct replies; [|done].
       cbn in Hr. lia. }
  destruct (receipt_loop _ _ _ _ _) as [r|[votes by_fp]].
  - destruct Hloop as [Hr Hq]. split; [|split; [by apply elem_of_found in Hr|]].
    + intros r' Hr'. exists r. split; [done|].
      pose proof (tally_gives_receipt AddressHex replies r') as Hg.
      assert (0 < tally (receiptFingerprint AddressHex r') (receiptFingerprint AddressHex <$> found (arrived replies)))
        as Hpos by lia.
      assert (receiptFingerprint AddressHex r = receiptFingerprint AddressHex r') as E.
      { apply (majority_unique (length (cl_providers c))
          (receiptFingerprint AddressHex <$> found (arrived replies))); [|done|fold q; lia].
        rewrite <- Hlen. apply length_found. }
      destruct (gives_elem replies r') as [j Hj]; [lia|].
      apply elem_of_found in Hr as [i Hi].
      apply (receiptFingerprint_inj AddressHex Hplain Hhex); [by eapply Hwf|by eapply Hwf|done].
    + etrans; [exact Hq|]. by apply tally_same_receipt.
  - split.
    { intros r Hr. pose proof (tally_gives_receipt AddressHex replies r).
      pose proof (ri_below _ _ _ _ _ Hloop (receiptFingerprint AddressHex r)). lia. }
    case_decide as Hv.
    + assert (found (arrived replies) = []) as Hnone.
      { destruct (found (arrived replies)) as [|r l] eqn:El; [done|].
        destruct (proj2 (ri_dom _ _ _ _ _ Hloop (receiptFingerprint AddressHex r))) as [n Hn].
        - rewrite fmap_cons, tally_cons, decide_True by done. lia.
        - by rewrite Hv, lookup_empty in Hn. }
      case_decide as Hq; [|by destruct (failures _)].
      assert (forall j r, (j, Ok (Some r)) ∉ replies) as Hno.
      { intros j r Hj. apply (not_elem_of_nil r). rewrite <- Hnone. apply elem_of_found. eauto. }
      destruct minBlock as [b|].
      * destruct (unexcused_group replies c (Some b)) as (group & Hsub & Hl & Hg).
        exists group. split_and!; [done|lia|]. eapply Forall_impl; [exact Hg|].
        intros a [? ?]. split_and!; [done|by intros ? [= <-]|]. intros j r n Hj. by apply Hno in Hj.
      * exists (filter denies replies). split_and!; [apply sublist_filter| |].
        -- etrans; [exact Hq|]. unfold arrived. by rewrite (length_filter_fmap _ _ denies).
        -- apply Forall_forall. intros a [? _]%list_elem_of_filter. split_and!; [done|done|].
           intros j r n Hj. by apply Hno in Hj.
    + case_decide as Hq; [|by case_decide].
      destruct (unexcused_group replies c (max_opt minBlock (highest_block (snd <$> map_to_list by_fp))))
        as (group & Hsub & Hl & Hg).
      exists group. split_and!; [done|lia|]. eapply Forall_impl; [exact Hg|].
      intros a [? ?]. split; [done|]. by eapply bar_covers.
Qed.

(** Plain hex text for addresses, two providers with the receipt and one without. *)
Definition sample_hex (a : Address) : string := "0x" +:+ EncodeToString (AddressBytes a).
Definition sample_receipt : Receipt := mkReceipt 11%Z 1 (Some 90%Z) 12%Z 21000 (Some 5%Z) [Some sample_log].
Definition sample_receipts : list (nat * result goerr (option Receipt)) :=
  [(2, Ok (Some sample_receipt)); (0, Ok None); (1, Ok (Some sample_receipt))].

Lemma sample_hex_plain a : wf_address a -> plain (sample_hex a).
Proof. intros _. apply plain_app; [by repeat split|apply plain_hex]. Qed.

Lemma sample_hex_inj a b : wf_address a -> wf_address b -> sample_hex a = sample_hex b -> a = b.
Proof.
  intros Ha Hb E%append_inj_l%EncodeToString_inj. apply (f_equal be_combine) in E.
  unfold AddressBytes in E. by rewrite !be_combine_split_small in E.
Qed.

Lemma sample_receipts_wf i r : (i, Ok (Some r)) ∈ sample_receipts -> wf_receipt r.
Proof.
  assert (wf_receipt sample_receipt) as Hw.
  { split_and!; [unfold wf_hash; cbn -[Z.pow]; lia..|]. constructor; [|constructor].
    destruct (sample_window_wf 0 0 0 [sample_log] eq_refl) as [Hl _]. by apply Forall_cons in Hl as [? _]. }
  unfold sample_receipts. rewrite !elem_of_cons, elem_of_nil. intros [E|[E|[E|[]]]]; simplify_eq; done.
Qed.

Lemma TransactionReceiptAt_sound_witness :
  TransactionReceiptAt sample_hex sample_client 11%Z None sample_receipts = Ok sample_receipt /\
  quorum 3 <= length (filter (same_receipt sample_receipt) sample_receipts).
Proof.
  assert (TransactionReceiptAt sample_hex sample_client 11%Z None sample_receipts = Ok sample_receipt) as E
    by (vm_compute; reflexivity).
  split; [exact E|].
  destruct (TransactionReceiptAt_sound sample_hex sample_client 11%Z None sample_receipts
    sample_hex_plain sample_hex_inj sample_receipts_wf eq_refl) as [_ H].
  rewrite E in H. exact (proj2 H).
Defined.
