(* ===== verification/Proc.v ===== *)
(** * Worker procedures: store calls and remote calls

    A worker routine is a tree of store transactions and of questions to the
    outside (RPC client, signer, clock, context). [behaves] is what it can do:
    between any two of its actions other workers take store steps, every answer
    from outside is possible, a store call may fail before or after its commit,
    and the process may stop anywhere. [safe] is a program logic for these
    executions, proved sound against [behaves]; [behaves_steps] says that any
    execution is a sequence of store steps. *)

From S2P Require Import Prelude Schema Jobs Store.
From stdpp Require Import base list strings relations.

(** ** Store calls *)

(** What a call reads besides the tables: the database clock, the Go clock, an earlier
    snapshot and an observed text. *)
Record callenv := mkEnv {
  ce_now : timestamp; ce_goNow : timestamp; ce_snapshot : DB; ce_observed : string }.

(** A store method: the operation it performs ([None]: a read), what it does and answers, and
    the law that it leaves the tables alone or performs that operation. *)
Record store_call (R : Type) := mkCall {
  sc_op : callenv -> option store_op;
  sc_run : callenv -> DB -> DB * result dberr R;
  sc_law : forall env db, (sc_run env db).1 = db \/
    exists op, sc_op env = Some op /\ (sc_run env db).1 = exec op (ce_now env) db }.
Arguments mkCall {R} _ _ _.
Arguments sc_op {R} _ _.
Arguments sc_run {R} _ _ _.
Arguments sc_law {R} _ _ _.

Definition readCall {R} (f : callenv -> DB -> result dberr R) : store_call R :=
  mkCall (fun _ => None) (fun env db => (db, f env db)) (fun _ _ => or_introl eq_refl).

Definition opCall {R} (op : callenv -> store_op) (run : callenv -> DB -> DB * result dberr R)
    (H : forall env db, (run env db).1 = exec (op env) (ce_now env) db) : store_call R :=
  mkCall (fun env => Some (op env)) run
    (fun env db => or_intror (ex_intro _ (op env) (conj eq_refl (H env db)))).

(** How a call issued at [db] ends: it commits and answers, or the connection fails before or
    after the commit. *)
Definition outcome {R} (c : store_call R) (env : callenv) (db db' : DB) (r : result dberr R) : Prop :=
  sc_run c env db = (db', r) \/
  exists msg, r = Err (Errorf msg) /\ (db' = db \/ db' = (sc_run c env db).1).

Lemma call_steps {R} (c : store_call R) env db : rtc step db (sc_run c env db).1.
Proof.
  destruct (sc_law c env db) as [-> | (op & _ & ->)]; [done|]. apply rtc_once. constructor.
Qed.

Lemma outcome_steps {R} (c : store_call R) env db db' r : outcome c env db db' r -> rtc step db db'.
Proof.
  intros [E|(msg & _ & [-> | ->])]; [|done|apply call_steps].
  pose proof (call_steps c env db) as H. by rewrite E in H.
Qed.

(** ** Procedures *)

Section proc.
(** The questions a routine asks, by the type of their answers. *)
Context {query : Type -> Type}.

Inductive proc (A : Type) : Type :=
| Ret (a : A)
| Do (R : Type) (c : store_call R) (k : result dberr R -> proc A)
| Ask (R : Type) (q : query R) (k : R -> proc A).
Arguments Ret {A} _.
Arguments Do {A R} _ _.
Arguments Ask {A R} _ _.

Fixpoint proc_bind {A B} (p : proc A) (k : A -> proc B) : proc B :=
  match p with
  | Ret a => k a
  | Do c k' => Do c (fun r => proc_bind (k' r) k)
  | Ask q k' => Ask q (fun r => proc_bind (k' r) k)
  end.

Definition store {R} (c : store_call R) : proc (result dberr R) := Do c Ret.
Definition ask {R} (q : query R) : proc R := Ask q Ret.

(** A store call issued, or a question with its answer; with the tables at that moment. *)
Inductive event :=
| EvStore (op : option store_op) (db : DB)
| EvAsk (R : Type) (q : query R) (answer : R) (db : DB).
Arguments EvAsk {R} _ _ _.

(** [behaves p db tr db' r]: started at [db], the routine can produce [tr] and leave [db'];
    [r] is its result, or [None] when it stopped midway. *)
Fixpoint behaves {A} (p : proc A) (db : DB) (tr : list event) (db' : DB) (r : option A) : Prop :=
  exists db0, rtc step db db0 /\
  ((tr = [] /\ db' = db0 /\ r = None) \/
   match p with
   | Ret a => tr = [] /\ db' = db0 /\ r = Some a
   | Do c k => exists env db1 res tr', outcome c env db0 db1 res /\
       tr = EvStore (sc_op c env) db0 :: tr' /\ behaves (k res) db1 tr' db' r
   | Ask q k => exists a tr', tr = EvAsk q a db0 :: tr' /\ behaves (k a) db0 tr' db' r
   end).

(** Every execution of every routine is a sequence of steps of the store. *)
Lemma behaves_steps {A} (p : proc A) db tr db' r : behaves p db tr db' r -> rtc step db db'.
Proof.
  revert db tr. induction p as [a|R c k IH|R q k IH]; intros db tr (db0 & Hdb & [(_ & -> & _)|H]); try done.
  - by destruct H as (_ & -> & _).
  - destruct H as (env & db1 & res & tr' & Ho & _ & H). etrans; [exact Hdb|]. etrans; [by eapply outcome_steps|].
    by eapply IH.
  - destruct H as (a & tr' & _ & H). etrans; [exact Hdb|]. by eapply IH.
Qed.

(** The execution without failures or interference, with the answers of [oracle] and the
    clocks of [env]. *)
Fixpoint simulate {A} (p : proc A) (env : DB -> callenv) (oracle : forall R, query R -> R) (db : DB)
    : list event * DB * A :=
  match p with
  | Ret a => ([], db, a)
  | Do c k =>
    let '(db1, res) := sc_run c (env db) db in
    let '(tr, db', a) := simulate (k res) env oracle db1 in
    (EvStore (sc_op c (env db)) db :: tr, db', a)
  | Ask q k =>
    let '(tr, db', a) := simulate (k (oracle _ q)) env oracle db in
    (EvAsk q (oracle _ q) db :: tr, db', a)
  end.

Lemma simulate_behaves {A} (p : proc A) env oracle db :
  behaves p db (simulate p env oracle db).1.1 (simulate p env oracle db).1.2 (Some (simulate p env oracle db).2).
Proof.
  revert db. induction p as [a|R c k IH|R q k IH]; intros db; exists db; (split; [done|]); right; cbn.
  - done.
  - destruct (sc_run c (env db) db) as [db1 res] eqn:E. specialize (IH res db1).
    destruct (simulate (k res) env oracle db1) as [[tr db'] a]. exists (env db), db1, res, tr. split_and!; [by left|done..].
  - specialize (IH (oracle _ q) db). destruct (simulate (k (oracle _ q)) env oracle db) as [[tr db'] a].
    exists (oracle _ q), tr. done.
Qed.

(** The tables when an event happened, and the steps around it. *)
Definition event_db (e : event) : DB := match e with EvStore _ db => db | EvAsk _ _ db => db end.

Lemma behaves_event {A} (p : proc A) db tr db' r e :
  behaves p db tr db' r -> e ∈ tr -> rtc step db (event_db e) /\ rtc step (event_db e) db'.
Proof.
  revert db tr. induction p as [a|R c k IH|R q k IH]; intros db tr (db0 & Hdb & [(-> & _)|Hb]) Hin;
    try (by apply not_elem_of_nil in Hin).
  - destruct Hb as (-> & _). by apply not_elem_of_nil in Hin.
  - destruct Hb as (env & db1 & res & tr' & Ho & -> & Hb). pose proof (outcome_steps _ _ _ _ _ Ho) as H1.
    apply elem_of_cons in Hin as [-> | Hin]; cbn.
    + split; [done|]. etrans; [exact H1|by eapply behaves_steps].
    + destruct (IH res db1 tr' Hb Hin) as [H2 H3]. split; [|done]. etrans; [exact Hdb|by etrans].
  - destruct Hb as (a & tr' & -> & Hb). apply elem_of_cons in Hin as [-> | Hin]; cbn.
    + split; [done|by eapply behaves_steps].
    + destruct (IH a db0 tr' Hb Hin) as [H2 H3]. split; [by etrans|done].
Qed.

(** ** The logic of safe executions *)

Section safe.
(** What must hold, given the past, of each event. *)
Context (P : list event -> event -> Prop).

Fixpoint safe {A} (p : proc A) (past : list event) (db : DB)
    (Q : A -> list event -> DB -> Prop) : Prop :=
  forall db0, rtc step db db0 ->
  match p with
  | Ret a => Q a past db0
  | Do c k => forall env, P past (EvStore (sc_op c env) db0) /\
      forall db1 res, outcome c env db0 db1 res ->
        safe (k res) (past ++ [EvStore (sc_op c env) db0]) db1 Q
  | Ask q k => forall a, P past (EvAsk q a db0) /\ safe (k a) (past ++ [EvAsk q a db0]) db0 Q
  end.

Lemma safe_later {A} (p : proc A) past db db0 Q :
  rtc step db db0 -> safe p past db Q -> safe p past db0 Q.
Proof.
  intros Hdb H. destruct p; intros db1 Hdb1; by apply H; etrans.
Qed.

Lemma safe_mono {A} (p : proc A) past db (Q Q' : A -> list event -> DB -> Prop) :
  (forall a past db, Q a past db -> Q' a past db) -> safe p past db Q -> safe p past db Q'.
Proof.
  intros HQ. revert past db. induction p as [a|R c k IH|R q k IH]; intros past db H db0 Hdb.
  - by apply HQ, H.
  - intros env. destruct (H db0 Hdb env) as [HP Hk]. split; [done|]. intros db1 res Ho. by apply IH, Hk.
  - intros a. destruct (H db0 Hdb a) as [HP Hk]. split; [done|]. by apply IH.
Qed.

Lemma safe_bind {A B} (p : proc A) (k : A -> proc B) past db Q :
  safe p past db (fun a past db => safe (k a) past db Q) -> safe (proc_bind p k) past db Q.
Proof.
  revert past db. induction p as [a|R c k' IH|R q k' IH]; intros past db H; cbn.
  - specialize (H db (rtc_refl _ _)). done.
  - intros db0 Hdb env. destruct (H db0 Hdb env) as [HP Hk]. split; [done|]. intros db1 res Ho. by apply IH, Hk.
  - intros db0 Hdb a. destruct (H db0 Hdb a) as [HP Hk]. split; [done|]. by apply IH.
Qed.

(** The executions of a safe routine satisfy [P] at every event and [Q] at the end. *)
Lemma safe_sound {A} (p : proc A) past db Q tr db' r :
  safe p past db Q -> behaves p db tr db' r ->
  (forall tr1 e tr2, tr = tr1 ++ e :: tr2 -> P (past ++ tr1) e) /\
  (forall a, r = Some a -> Q a (past ++ tr) db').
Proof.
  revert past db tr. induction p as [a|R c k IH|R q k IH];
    intros past db tr Hs (db0 & Hdb & [(-> & -> & ->)|H]).
  1,3,5: split; [by intros [|? ?]|done].
  - destruct H as (-> & -> & ->). split; [by intros [|? ?]|]. intros a' [= <-]. rewrite app_nil_r. by apply Hs.
  - destruct H as (env & db1 & res & tr' & Ho & -> & Hb). destruct (Hs db0 Hdb env) as [HP Hk].
    destruct (IH res _ _ tr' (Hk _ _ Ho) Hb) as [Htr HQ]. rewrite <- app_assoc in HQ. split; [|done].
    intros [|e1 tr1] e tr2 E; injection E as <- ->; [by rewrite app_nil_r|].
    specialize (Htr tr1 e tr2 eq_refl). by rewrite <- app_assoc in Htr.
  - destruct H as (a & tr' & -> & Hb). destruct (Hs db0 Hdb a) as [HP Hk].
    destruct (IH a _ _ tr' Hk Hb) as [Htr HQ]. rewrite <- app_assoc in HQ. split; [|done].
    intros [|e1 tr1] e tr2 E; injection E as <- ->; [by rewrite app_nil_r|].
    specialize (Htr tr1 e tr2 eq_refl). by rewrite <- app_assoc in Htr.
Qed.
End safe.
End proc.

Arguments proc _ _ : clear implicits.
Arguments Ret {query A} _.
Arguments Do {query A R} _ _.
Arguments Ask {query A R} _ _.
Arguments EvStore {query} _ _.
Arguments EvAsk {query R} _ _ _.
Arguments event _ : clear implicits.

#[export] Instance proc_mbind query : MBind (proc query) := fun _ _ k p => proc_bind p k.
#[export] Instance proc_mret query : MRet (proc query) := fun _ a => Ret a.

Notation "'let!' x ':=' p 'in' k" := (proc_bind p (fun x => k))
  (at level 10, x name, p at level 100, k at level 200).

(** [if err != nil { return err }] *)
Definition andThen {query E A B} (p : proc query (result E A)) (k : A -> proc query (result E B))
    : proc query (result E B) :=
  proc_bind p (fun r => match r with Ok a => k a | Err e => Ret (Err e) end).
Definition pure {query E A} (r : result E A) : proc query (result E A) := Ret r.

Notation "'let?' x ':=' p 'in' k" := (andThen p (fun x => k))
  (at level 10, x name, p at level 100, k at level 200).

(** ** Workflow marks

    Calls refused on missing data, else one status update. *)
Definition markCall (op : store_op) (run : timestamp -> DB -> DB * result dberr unit)
    (H : forall now db, (run now db).1 = db \/ (run now db).1 = exec op now db) : store_call unit :=
  mkCall (fun _ => Some op) (fun e => run (ce_now e))
    (fun env db => match H (ce_now env) db with
                   | or_introl E => or_introl E
                   | or_intror E => or_intror (ex_intro _ op (conj eq_refl E))
                   end).

Lemma with_hash_law h msg k db : (with_hash h msg k db).1 = db \/ (with_hash h msg k db).1 = (k db).1.
Proof. unfold with_hash. case_decide; auto. Qed.
Lemma with_text_law h msg k db : (with_text h msg k db).1 = db \/ (with_text h msg k db).1 = (k db).1.
Proof. unfold with_text. case_decide; auto. Qed.
Lemma manual_review_law guid expected reason now db :
  (MarkExecutorManualReview guid expected reason now db).1 = db \/
  (MarkExecutorManualReview guid expected reason now db).1 =
    (updateExecutorStatus (mkExecutorUpdate guid expected ExecutorManualReview None None reason false) now db).1.
Proof. unfold MarkExecutorManualReview. case_decide; auto. Qed.

Definition cExecutorManualReview (guid : Hash) (expected reason : string) : store_call unit :=
  markCall (OpExecutorStatus (mkExecutorUpdate guid expected ExecutorManualReview None None reason false))
    (MarkExecutorManualReview guid expected reason) (manual_review_law guid expected reason).

(** ** Rules for the routines *)

Section rules.
Context {query : Type -> Type} (P : list (event query) -> event query -> Prop).

Lemma safe_ret {A} (a : A) past db (Q : A -> list (event query) -> DB -> Prop) :
  (forall db0, rtc step db db0 -> Q a past db0) -> safe P (Ret a) past db Q.
Proof. intros HQ db0 Hs. by apply HQ. Qed.

Lemma safe_ask {R B} (q : query R) (k : R -> proc query B) past db Q :
  (forall db0 a, rtc step db db0 -> P past (EvAsk q a db0) /\
     safe P (k a) (past ++ [EvAsk q a db0]) db0 Q) ->
  safe P (proc_bind (ask q) k) past db Q.
Proof. intros H db0 Hdb a. by apply H. Qed.

Lemma safe_store {R B} (c : store_call R) (k : result dberr R -> proc query B) past db Q :
  (forall db0 db1 env res, rtc step db db0 -> P past (EvStore (sc_op c env) db0) /\
     (outcome c env db0 db1 res -> safe P (k res) (past ++ [EvStore (sc_op c env) db0]) db1 Q)) ->
  safe P (proc_bind (store c) k) past db Q.
Proof.
  intros H db0 Hdb env. split; [by apply (H db0 db0 env (Err ErrNoRows))|].
  intros db1 res Ho. by apply (proj2 (H db0 db1 env res Hdb)).
Qed.

(** Routines whose questions all satisfy [S] and whose store operations all satisfy [T]. *)
Fixpoint only (S : forall R, query R -> Prop) (T : option store_op -> Prop) {A} (p : proc query A) : Prop :=
  match p with
  | Ret _ => True
  | Do c k => (forall env, T (sc_op c env)) /\ forall r, only S T (k r)
  | Ask q k => S _ q /\ forall a, only S T (k a)
  end.

Lemma only_bind S T {A B} (p : proc query A) (k : A -> proc query B) :
  only S T p -> (forall a, only S T (k a)) -> only S T (proc_bind p k).
Proof. intros Hp Hk. induction p; cbn in *; [auto|destruct Hp; auto..]. Qed.

Lemma only_store S T {R B} (c : store_call R) (k : result dberr R -> proc query B) :
  (forall env, T (sc_op c env)) -> (forall r, only S T (k r)) -> only S T (proc_bind (store c) k).
Proof. split; auto. Qed.

Lemma only_ask S T {R B} (q : query R) (k : R -> proc query B) :
  S _ q -> (forall a, only S T (k a)) -> only S T (proc_bind (ask q) k).
Proof. split; auto. Qed.

(** When [P] holds of those store calls and questions, such a routine is safe. *)
Lemma only_safe S T {A} (p : proc query A) past db :
  (forall past op db, T op -> P past (EvStore op db)) ->
  (forall past R (q : query R) a db, S R q -> P past (EvAsk q a db)) ->
  only S T p -> safe P p past db (fun _ _ _ => True).
Proof.
  intros Hst Hq. revert past db. induction p as [a|R c k IH|R q k IH]; intros past db Hp db0 Hdb.
  - done.
  - destruct Hp as [HT Hp]. intros env. split; [by apply Hst|]. intros db1 res _. by apply IH.
  - destruct Hp as [HS Hp]. intros a. split; [by apply Hq|]. by apply IH.
Qed.

(** The past only grows. *)
Lemma safe_prefix {A} (p : proc query A) past db Q :
  safe P p past db Q -> safe P p past db (fun a past' db' => Q a past' db' /\ past `prefix_of` past').
Proof.
  enough (forall past0, past0 `prefix_of` past -> safe P p past db Q ->
    safe P p past db (fun a past' db' => Q a past' db' /\ past0 `prefix_of` past')) by auto.
  revert past db. induction p as [a|R c k IH|R q k IH]; intros past db past0 Hp H db0 Hdb.
  - split; [by apply H|done].
  - intros env. destruct (H db0 Hdb env) as [HP Hk]. split; [done|]. intros db1 res Ho.
    apply IH; [by apply prefix_app_r|by apply Hk].
  - intros a. destruct (H db0 Hdb a) as [HP Hk]. split; [done|]. apply IH; [by apply prefix_app_r|done].
Qed.

(** The post-condition may also use that the tables evolved by steps. *)
Lemma safe_steps {A} (p : proc query A) past db Q :
  safe P p past db Q -> safe P p past db (fun a past' db' => Q a past' db' /\ rtc step db db').
Proof.
  enough (forall db0, rtc step db0 db -> safe P p past db Q ->
    safe P p past db (fun a past' db' => Q a past' db' /\ rtc step db0 db')) by eauto using rtc_refl.
  revert past db. induction p as [a|R c k IH|R q k IH]; intros past db dbs Hs H db0 Hdb.
  - split; [by apply H|by etrans].
  - intros env. destruct (H db0 Hdb env) as [HP Hk]. split; [done|]. intros db1 res Ho.
    apply IH; [|by apply Hk]. etrans; [exact Hs|]. etrans; [exact Hdb|]. by eapply outcome_steps.
  - intros a. destruct (H db0 Hdb a) as [HP Hk]. split; [done|]. apply IH; [by etrans|done].
Qed.

Lemma safe_event {A} (p : proc query A) db Q tr1 e tr2 db' r :
  safe P p [] db Q -> behaves p db (tr1 ++ e :: tr2) db' r -> P tr1 e.
Proof. intros Hs Hb. by apply (proj1 (safe_sound _ _ _ _ _ _ _ _ Hs Hb) tr1 e tr2). Qed.

Lemma safe_andThen {E A B} (p : proc query (result E A)) (k : A -> proc query (result E B)) past db Q :
  safe P p past db (fun r past db =>
    match r with Ok a => safe P (k a) past db Q | Err e => safe P (Ret (Err e)) past db Q end) ->
  safe P (andThen p k) past db Q.
Proof.
  intros Hs. apply safe_bind. eapply safe_mono; [|exact Hs]. by intros [a|e].
Qed.

Lemma safe_pure {E A B} (r : result E A) (k : A -> proc query (result E B)) past db Q :
  (forall a, r = Ok a -> safe P (k a) past db Q) ->
  (forall e, r = Err e -> safe P (Ret (Err e)) past db Q) ->
  safe P (andThen (pure r) k) past db Q.
Proof. intros Hok Herr. destruct r as [a|e]; [by apply Hok|by apply Herr]. Qed.

Lemma only_andThen S T {E A B} (p : proc query (result E A)) (k : A -> proc query (result E B)) :
  only S T p -> (forall a, only S T (k a)) -> only S T (andThen p k).
Proof. intros Hp Hk. apply only_bind; [done|]. by intros [a|e]. Qed.
End rules.
