(* ===== verification/BigUtil.v ===== *)
(** * Arbitrary-precision helpers (go/internal/bigutil/bigutil.go)

    A *big.Int is an [option Z] ([None]: nil); copies are the values themselves. *)

From S2P Require Import Prelude.
From stdpp Require Import base strings numbers.
From Stdlib Require Import ZArith Lia Ascii.
#[local] Open Scope Z_scope.

Definition Clone (value : option Z) : option Z := value.

Definition Min (left right : option Z) : option Z :=
  match left, right with
  | None, _ => Clone right
  | _, None => Clone left
  | Some l, Some r => if decide (l <= r) then Clone left else Clone right
  end.

Definition Max (left right : option Z) : option Z :=
  match left, right with
  | None, _ => Clone right
  | _, None => Clone left
  | Some l, Some r => if decide (r <= l) then Clone left else Clone right
  end.

(** A *big.Rat in lowest terms with a positive denominator: QuoRem truncates toward zero. *)
Definition CeilRat (value : option (Z * Z)) : option Z :=
  match value with
  | None => None
  | Some (num, den) =>
    let quotient := Z.quot num den in
    let remainder := Z.rem num den in
    Some (if decide (remainder <> 0 /\ 0 < num) then quotient + 1 else quotient)
  end.

(** big.Int.SetString in base 10: an optional sign and at least one digit. *)
Definition digit_of (c : ascii) : option Z :=
  let n := Z.of_N (N_of_ascii c) in
  if decide (48 <= n <= 57) then Some (n - 48) else None.

Fixpoint digits_value (s : string) (acc : Z) : option Z :=
  match s with
  | EmptyString => Some acc
  | String c s => match digit_of c with Some d => digits_value s (acc * 10 + d) | None => None end
  end.

Definition unsigned_decimal (s : string) : option Z :=
  match s with EmptyString => None | _ => digits_value s 0 end.

Definition parseDecimal (s : string) : option Z :=
  match s with
  | String "-" s => Z.opp <$> unsigned_decimal s
  | String "+" s => unsigned_decimal s
  | _ => unsigned_decimal s
  end%char.

Definition ParseDecimal (field value : string) : result string Z :=
  match parseDecimal value with Some z => Ok z | None => Err (field +:+ " is not a valid integer") end%string.

Definition ParseRequiredDecimal (field : string) (value : option string) : result string Z :=
  match value with None => Err (field +:+ " is required") | Some v => ParseDecimal field v end%string.

Definition ParseOptionalDecimal (field : string) (value : option string) : result string (option Z) :=
  match value with None => Ok None | Some v => Some <$> ParseDecimal field v end.

Definition ParsePositiveDecimal (field value : string) : result string Z :=
  match parseDecimal value with
  | Some z => if decide (0 < z) then Ok z else Err (field +:+ " must be a positive integer")
  | None => Err (field +:+ " must be a positive integer")
  end%string.

Definition ParseNonNegativeDecimal (field value : string) : result string Z :=
  match parseDecimal value with
  | Some z => if decide (0 <= z) then Ok z else Err (field +:+ " must be a non-negative integer")
  | None => Err (field +:+ " must be a non-negative integer")
  end%string.

(** ** Facts *)

Lemma Min_Some l r : Min (Some l) (Some r) = Some (Z.min l r).
Proof. unfold Min, Clone. case_decide; f_equal; lia. Qed.

Lemma Max_Some l r : Max (Some l) (Some r) = Some (Z.max l r).
Proof. unfold Max, Clone. case_decide; f_equal; lia. Qed.

(** The least integer at or above num/den. *)
Lemma CeilRat_least num den : 0 < den ->
  exists c, CeilRat (Some (num, den)) = Some c /\ num <= c * den < num + den.
Proof.
  intros Hd. cbn. pose proof (Z.quot_rem' num den) as E. pose proof (Z.rem_bound_abs num den ltac:(lia)).
  case_decide as Hr; eexists; (split; [done|]).
  - pose proof (Z.rem_bound_pos num den ltac:(lia) Hd). nia.
  - destruct (decide (0 < num)); [nia|].
    pose proof (Z.rem_bound_pos_neg num den Hd ltac:(lia)). nia.
Qed.
