(* ===== verification/TxMgr.v ===== *)
(** * The transaction manager (go/internal/txmgr/sender.go, txmgr.go)

    Every Process method as a routine over store calls, RPC questions and the
    signer. go-ethereum's transaction type is the interface [TxLib]; receipts and
    headers are those of the quorum client. Log lines are left out; deadlines and
    cancellation appear as failing answers. *)

From S2P Require Import Prelude GoErr Classify Schema SendScope Outbox Attempts CancelReconcile Jobs Store.
From S2P Require Import Quorum QuorumLogs BigUtil Proc.
From stdpp Require Import base gmap list strings numbers.
From Stdlib Require Import ZArith Lia.
#[local] Open Scope Z_scope.

(** ** go-ethereum *)

(** core/types.Transaction, its accessors and constructors, and common.Address.Hex. *)
Class TxLib := {
  Transaction : Type;
  tx_Type : Transaction -> Z;
  tx_Hash : Transaction -> Hash;
  tx_Nonce : Transaction -> Z;
  tx_Gas : Transaction -> Z;
  tx_ChainId : Transaction -> option Z;
  tx_GasFeeCap : Transaction -> Z;
  tx_GasTipCap : Transaction -> Z;
  tx_GasPrice : Transaction -> Z;
  tx_To : Transaction -> option Address;
  tx_Value : Transaction -> option Z;
  tx_Data : Transaction -> bytes;
  Sender : Z -> Transaction -> result goerr Address;
  MarshalBinary : Transaction -> result goerr bytes;
  UnmarshalBinary : bytes -> result goerr Transaction;
  NewDynamicFeeTx : Z -> Z -> Z -> Z -> Z -> Address -> Z -> bytes -> Transaction;
  NewLegacyTx : Z -> Z -> Z -> Address -> Z -> bytes -> Transaction;
  AddressHex : Address -> string }.

Definition LegacyTxType : Z := 0.
Definition DynamicFeeTxType : Z := 2.

Section txmgr.
Context `{TxLib}.

(** ** Questions to the outside *)

(** ethereum.CallMsg of an estimate *)
Record CallMsg := mkCallMsg { cm_From : Address; cm_To : Address; cm_Value : Z; cm_Data : bytes }.

(** The chain client. A successful receipt lookup carries a receipt. *)
Inductive rpc : Type -> Type :=
| RHeader : rpc (result goerr (option Header))
| REstimateGas (call : CallMsg) : rpc (result goerr Z)
| RNonceAt (account : Address) (block : option Z) : rpc (result goerr Z)
| RPendingNonceAt (account : Address) : rpc (result goerr Z)
| RSuggestGasPrice : rpc (result goerr (option Z))
| RSuggestGasTipCap : rpc (result goerr (option Z))
| RSend (tx : Transaction) : rpc (option goerr)
| RReceipt (txHash : Hash) (minBlock : option Z) : rpc (result goerr Receipt)
| RCanonicalHash (block : Z) : rpc (result goerr Hash).

Inductive query : Type -> Type :=
| Rpc (R : Type) (chainEID : Z) (q : rpc R) : query R
| SignTx (signer : Address) (tx : Transaction) (chainID : Z) : query (result goerr (option Transaction))
| NewUUID : query uuid
| CtxErr : query (option goerr)
| HeartbeatLost : query bool.
#[local] Arguments Rpc {R} _ _.

Abbreviation action := (proc query).
Definition call {R} (chain : Z) (q : rpc R) : action R := ask (Rpc chain q).

(** ** Errors *)

Inductive mgrerr :=
| ErrNoQueuedTx
| ErrNoReceiptUpdate
| ErrTxDeferred
| DBErr (e : dberr)
| GoError (e : goerr).

Definition fail {A} (msg : string) : action (result mgrerr A) := Ret (Err (GoError (errNew msg))).

(** A store call and a remote call as fallible actions. *)
Definition lift {A} (r : result dberr A) : result mgrerr A :=
  match r with Ok a => Ok a | Err e => Err (DBErr e) end.
Definition remote {A} (r : result goerr A) : result mgrerr A :=
  match r with Ok a => Ok a | Err e => Err (GoError e) end.
Definition storeE {R} (c : store_call R) : action (result mgrerr R) :=
  proc_bind (store c) (fun r => Ret (lift r)).
Definition callE {R} (chain : Z) (q : rpc (result goerr R)) : action (result mgrerr R) :=
  proc_bind (call chain q) (fun r => Ret (remote r)).

Notation "'require' P 'or' msg ;; k" := (if decide P then k else fail msg)
  (at level 10, P at level 99, msg at level 99, k at level 200).

(** ** Configuration *)

Record FeePolicy := mkFeePolicy {
  ConfiguredMaxFeePerGas : option Z; ConfiguredMaxPriorityFeePerGas : option Z;
  ForceLegacyTransactions : bool }.

Record feeQuote := mkQuote {
  fq_Dynamic : bool; fq_MaxFeePerGas : option Z; fq_MaxPriorityFeePerGas : option Z }.

Record Options := mkOptions {
  StaleBroadcastReplacementAfter : Z; PreSignRPCTimeout : Z; SignTimeout : Z;
  SigningLeaseTTL : Z; SendTimeout : Z; BroadcastLeaseTTL : Z; NonceReconcileInterval : Z }.

Definition seconds : Z := 1000000000.

Definition normalizeOptions (o : Options) : Options :=
  let or_default v d := if decide (v <= 0) then d else v in
  mkOptions (or_default (StaleBroadcastReplacementAfter o) (15 * 60 * seconds))
    (or_default (PreSignRPCTimeout o) (30 * seconds)) (or_default (SignTimeout o) (30 * seconds))
    (or_default (SigningLeaseTTL o) (90 * seconds)) (or_default (SendTimeout o) (15 * seconds))
    (or_default (BroadcastLeaseTTL o) (45 * seconds))
    (or_default (NonceReconcileInterval o) (60 * seconds)).

Record Target := mkTarget {
  tg_ChainEID : Z; tg_ChainID : option Z; tg_Signer : option Address; tg_Client : bool;
  tg_Confirmations : Z; tg_FeePolicies : gmap string FeePolicy }.

(** The chain id and the signer of a usable target. *)
Definition validateTarget (t : Target) : result mgrerr (Z * Address) :=
  match tg_ChainID t with
  | Some chainID =>
    if decide (0 < chainID) then
      match tg_Signer t with
      | Some signer => if tg_Client t then Ok (chainID, signer)
                       else Err (GoError (errNew "target client is required"))
      | None => Err (GoError (errNew "target signer is required"))
      end
    else Err (GoError (errNew "chain id is required"))
  | None => Err (GoError (errNew "chain id is required"))
  end.

(** ** Fees *)

Definition replacementBumpNumerator : Z := 110.
Definition replacementBumpDenominator : Z := 100.

Definition bumpFee (value : Z) : Z :=
  (value * replacementBumpNumerator + (replacementBumpDenominator - 1)) / replacementBumpDenominator.

Definition quoteLegacyFee (queued : QueuedOutboxTx) (cap : Z) (chain : Z)
    : action (result mgrerr feeQuote) :=
  let? gasPrice := callE chain RSuggestGasPrice in
  match gasPrice with
  | None => fail "outbox tx legacy gas price is required"
  | Some price =>
    require 0 < price or "outbox tx legacy gas price is required" ;;
    let quote price := if decide (cap < price) then Ret (Err ErrTxDeferred)
                       else Ret (Ok (mkQuote false (Some price) None)) in
    match q_Nonce queued, q_MaxFeePerGas queued with
    | Some _, Some previous =>
      require 0 < previous or "outbox tx previous max fee per gas must be positive for replacement" ;;
      quote (Z.max price (bumpFee previous))
    | _, _ => quote price
    end
  end.

(** The fees of the attempt a replacement must outbid. *)
Definition previous_fees (queued : QueuedOutboxTx) : bool :=
  bool_decide (q_Nonce queued <> None /\
    (q_MaxFeePerGas queued <> None \/ q_MaxPriorityFeePerGas queued <> None)).

Definition quoteDynamicFee (queued : QueuedOutboxTx) (cap : Z) (tipCap : option Z) (baseFee : Z)
    (chain : Z) : action (result mgrerr feeQuote) :=
  require 0 <= baseFee or "latest block base fee is negative" ;;
  match tipCap with
  | None => fail "max priority fee per gas cap is required for dynamic-fee chains"
  | Some tipCap =>
    require 0 < tipCap or "max priority fee per gas cap is required for dynamic-fee chains" ;;
    let? suggestedTip := callE chain RSuggestGasTipCap in
    match suggestedTip with
    | None => fail "outbox tx priority fee per gas is required"
    | Some suggested =>
      require 0 < suggested or "outbox tx priority fee per gas is required" ;;
      let tip := Z.min suggested tipCap in
      let finish tip floor :=
        let feeCap := baseFee * 2 + tip in
        let feeCap := match floor with Some f => Z.max feeCap f | None => feeCap end in
        if decide (cap < feeCap) then Ret (Err ErrTxDeferred)
        else Ret (Ok (mkQuote true (Some feeCap) (Some tip))) in
      if previous_fees queued then
        match q_MaxFeePerGas queued, q_MaxPriorityFeePerGas queued with
        | Some fee, Some priority =>
          require 0 < fee or "outbox tx previous max fee per gas must be positive for replacement" ;;
          require 0 < priority or "outbox tx previous priority fee per gas must be positive for replacement" ;;
          let tip := Z.max tip (bumpFee priority) in
          if decide (tipCap < tip) then Ret (Err ErrTxDeferred)
          else finish tip (Some (bumpFee fee))
        | None, _ => fail "outbox tx previous max fee per gas must be positive for replacement"
        | Some fee, None =>
          require 0 < fee or "outbox tx previous max fee per gas must be positive for replacement" ;;
          fail "outbox tx previous priority fee per gas must be positive for replacement"
        end
      else finish tip None
    end
  end.

Definition quoteFee (queued : QueuedOutboxTx) (policy : FeePolicy) (chain : Z)
    : action (result mgrerr feeQuote) :=
  match ConfiguredMaxFeePerGas policy with
  | None => fail "max fee per gas cap is required"
  | Some cap =>
    require 0 < cap or "max fee per gas cap is required" ;;
    let? header := callE chain RHeader in
    match header with
    | None => fail "latest block header is required"
    | Some header =>
      match hd_BaseFee header with
      | Some baseFee =>
        if ForceLegacyTransactions policy then quoteLegacyFee queued cap chain
        else quoteDynamicFee queued cap (ConfiguredMaxPriorityFeePerGas policy) baseFee chain
      | None => quoteLegacyFee queued cap chain
      end
    end
  end.

Definition estimateGas (queued : QueuedOutboxTx) (from : Address) (chain : Z)
    : action (result mgrerr Z) :=
  let? gasLimit := callE chain (REstimateGas
    (mkCallMsg from (q_To queued) (q_Value queued) (q_Calldata queued))) in
  require gasLimit <> 0 or "outbox tx estimated gas is zero" ;;
  Ret (Ok gasLimit).

Definition preflight (t : Target) (signer : Address) (queued : QueuedOutboxTx) (policy : FeePolicy)
    (reuseGasLimit : bool) : action (result mgrerr (feeQuote * Z)) :=
  let? quote := quoteFee queued policy (tg_ChainEID t) in
  if decide (reuseGasLimit = false \/ q_GasLimit queued = 0) then
    let? gasLimit := estimateGas queued signer (tg_ChainEID t) in
    Ret (Ok (quote, gasLimit))
  else Ret (Ok (quote, q_GasLimit queued)).

(** ** Signing *)

Definition self_call (o : OutboxTx) : Address * Z * bytes :=
  (q_To (t_queued o), q_Value (t_queued o), q_Calldata (t_queued o)).

(** NewTx of the quoted type; the fee fields must be present and positive. *)
Definition build_tx (quote : feeQuote) (chainID nonce gasLimit : Z) (to : Address) (value : Z)
    (data : bytes) : result mgrerr Transaction :=
  match fq_MaxFeePerGas quote, fq_MaxPriorityFeePerGas quote with
  | Some fee, priority =>
    if decide (fee <= 0) then Err (GoError (errNew "outbox tx max fee per gas is required")) else
    if fq_Dynamic quote then
      match priority with
      | Some tip => if decide (tip <= 0) then Err (GoError (errNew "outbox tx max priority fee per gas is required"))
                    else Ok (NewDynamicFeeTx chainID nonce tip fee gasLimit to value data)
      | None => Err (GoError (errNew "outbox tx max priority fee per gas is required"))
      end
    else Ok (NewLegacyTx nonce fee gasLimit to value data)
  | None, _ => Err (GoError (errNew "outbox tx max fee per gas is required"))
  end.

Definition signOutboxTxWithStatuses (o : OutboxTx) (chainID gasLimit : Z) (quote : feeQuote)
    (signer : Address) (statuses : list TxStatus) : action (result mgrerr (option Transaction)) :=
  require q_Status (t_queued o) ∈ statuses or "outbox tx status is not signable" ;;
  require gasLimit <> 0 or "outbox tx gas limit is required" ;;
  let '(to, value, data) := self_call o in
  let? tx := pure (build_tx quote chainID (t_Nonce o) gasLimit to value data) in
  let! signed := ask (SignTx signer tx chainID) in
  Ret (remote signed).

Definition signOutboxTx (o : OutboxTx) (chainID gasLimit : Z) (quote : feeQuote) (signer : Address) :=
  signOutboxTxWithStatuses o chainID gasLimit quote signer [TxStatusNonceAssigned].
Definition signReplacementOutboxTx (o : OutboxTx) (chainID gasLimit : Z) (quote : feeQuote)
    (signer : Address) :=
  signOutboxTxWithStatuses o chainID gasLimit quote signer [TxStatusBroadcast; TxStatusHeld].

Definition signCancelTx (o : OutboxTx) (chainID gasLimit : Z) (quote : feeQuote) (signer : Address)
    : action (result mgrerr (option Transaction)) :=
  require gasLimit <> 0 or "outbox tx cancel gas limit is required" ;;
  let? tx := pure (build_tx quote chainID (t_Nonce o) gasLimit signer 0 []) in
  let! signed := ask (SignTx signer tx chainID) in
  Ret (remote signed).

(** ** Verifying what the signer returned *)

Notation "'demand' P 'or' msg ;; k" := (if decide P then k else Err (GoError (errNew msg)))
  (at level 10, P at level 99, msg at level 99, k at level 200).

Definition verifySignedTxCommon (signed : Transaction) (chainID : Z) (signer : Address)
    (nonce gasLimit : Z) (quote : feeQuote) : result mgrerr unit :=
  match Sender chainID signed with
  | Err e => Err (GoError (errWrap "recover signed tx sender" e))
  | Ok sender =>
    demand sender = signer or "signed tx sender does not match signer" ;;
    demand tx_Nonce signed = nonce or "signed tx nonce does not match outbox nonce" ;;
    demand tx_Gas signed = gasLimit or "signed tx gas limit does not match" ;;
    demand tx_ChainId signed = Some chainID or "signed tx chain id does not match" ;;
    if fq_Dynamic quote then
      demand tx_Type signed = DynamicFeeTxType or "signed tx type is not a dynamic-fee tx" ;;
      demand (Some (tx_GasFeeCap signed) = fq_MaxFeePerGas quote /\
              Some (tx_GasTipCap signed) = fq_MaxPriorityFeePerGas quote)
        or "signed tx fees do not match the quote" ;;
      Ok tt
    else
      demand tx_Type signed = LegacyTxType or "signed tx type is not a legacy tx" ;;
      demand Some (tx_GasPrice signed) = fq_MaxFeePerGas quote or "signed tx gas price does not match the quote" ;;
      Ok tt
  end.

Definition verifySignedOutboxTx (signed : Transaction) (chainID : Z) (signer : Address) (o : OutboxTx)
    (gasLimit : Z) (quote : feeQuote) : result mgrerr unit :=
  _ ← verifySignedTxCommon signed chainID signer (t_Nonce o) gasLimit quote;
  demand tx_To signed = Some (q_To (t_queued o)) or "signed tx destination does not match outbox tx" ;;
  demand tx_Value signed = Some (q_Value (t_queued o)) or "signed tx value does not match outbox tx" ;;
  demand tx_Data signed = q_Calldata (t_queued o) or "signed tx calldata does not match outbox tx" ;;
  Ok tt.

Definition verifySignedCancelTx (signed : Transaction) (chainID : Z) (signer : Address)
    (nonce gasLimit : Z) (quote : feeQuote) : result mgrerr unit :=
  _ ← verifySignedTxCommon signed chainID signer nonce gasLimit quote;
  demand tx_To signed = Some signer or "signed cancel tx destination is not the signer itself" ;;
  demand tx_Value signed = Some 0 or "signed cancel tx value is not zero" ;;
  demand tx_Data signed = [] or "signed cancel tx carries calldata" ;;
  Ok tt.

(** The durable attempt of a verified transaction, with a fresh signing token. *)
Definition package (signed : Transaction) (o : OutboxTx) (gasLimit : Z) (quote : feeQuote)
    (kind : TxAttemptKind) : action (result mgrerr SignedAttempt) :=
  match MarshalBinary signed with
  | Err e => Ret (Err (GoError (errWrap "marshal signed tx" e)))
  | Ok raw =>
    let! token := ask NewUUID in
    Ret (Ok (mkSignedAttempt kind (t_Nonce o) (tx_Type signed) (tx_Hash signed) raw gasLimit
      (fq_MaxFeePerGas quote) (if fq_Dynamic quote then fq_MaxPriorityFeePerGas quote else None) token))
  end.

Definition signedAttemptFromTx (signed : option Transaction) (chainID : Z) (signer : Address)
    (o : OutboxTx) (gasLimit : Z) (quote : feeQuote) (kind : TxAttemptKind)
    : action (result mgrerr SignedAttempt) :=
  match signed with
  | None => fail "signed tx is required"
  | Some signed =>
    let? _ := pure (verifySignedOutboxTx signed chainID signer o gasLimit quote) in
    package signed o gasLimit quote kind
  end.

Definition cancelAttemptFromTx (signed : option Transaction) (chainID : Z) (signer : Address)
    (o : OutboxTx) (gasLimit : Z) (quote : feeQuote) : action (result mgrerr SignedAttempt) :=
  match signed with
  | None => fail "signed tx is required"
  | Some signed =>
    let? _ := pure (verifySignedCancelTx signed chainID signer (t_Nonce o) gasLimit quote) in
    package signed o gasLimit quote TxAttemptCancel
  end.

(** ** Store calls *)

Definition cClaimSigning (id chain : Z) (signerID : string) (token : uuid) (ttl : Z) : store_call OutboxTx :=
  opCall (fun _ => OpClaimSigning id chain signerID token ttl)
    (fun e => ClaimOutboxForSigning id chain signerID token ttl (ce_now e)) (fun _ _ => eq_refl).
Definition cBootstrap (chain : Z) (signerID : string) (nonce : Z) : store_call bool :=
  opCall (fun _ => OpBootstrap chain signerID nonce)
    (fun e => BootstrapTxNonceCursor chain signerID nonce (ce_now e)) (fun _ _ => eq_refl).
Definition cInsertSigned (id : Z) (token : uuid) (a : SignedAttempt) : store_call TxAttempt :=
  opCall (fun _ => OpInsertSigned id token a) (fun e => InsertSignedAttempt id token a (ce_now e)) (fun _ _ => eq_refl).
Definition cPreSignFailure (id : Z) (token : uuid) : store_call bool :=
  opCall (fun _ => OpPreSignFailure id token) (fun e => RecordPreSignFailure id token (ce_now e)) (fun _ _ => eq_refl).
Definition cClaimBroadcast (chain : Z) (signerID : string) (token : uuid) (ttl : Z) : store_call BroadcastClaim :=
  opCall (fun _ => OpClaimBroadcast chain signerID token ttl)
    (fun e => ClaimAttemptForBroadcast chain signerID token ttl (ce_now e)) (fun _ _ => eq_refl).
Definition cSendResult (aid : Z) (token : uuid) (class : SendErrorClass) (detail : string) : store_call unit :=
  opCall (fun _ => OpMarkSendResult aid token class detail)
    (fun e => MarkAttemptSendResult aid token class detail (ce_now e)) (fun _ _ => eq_refl).
Definition cTouchPoll (id : Z) : store_call unit :=
  opCall (fun _ => OpTouchPoll id) (fun e => TouchReceiptPoll id (ce_now e)) (fun _ _ => eq_refl).
Definition cRefresh (id : Z) : store_call unit :=
  opCall (fun _ => OpRefresh id) (fun e => RefreshBroadcastReceiptObservedAt id (ce_now e)) (fun _ _ => eq_refl).
Definition cPrepareReceipt (aid : Z) (f : TxReceiptFacts) : store_call ReceiptOutcome :=
  opCall (fun _ => OpPrepareReceipt aid f) (fun e => PrepareReceiptResolution aid f (ce_now e)) (fun _ _ => eq_refl).
Definition cPrepareRetry (chain : Z) (signerID : string) : store_call Z :=
  opCall (fun _ => OpPrepareNextRetry chain signerID)
    (fun e => PrepareNextFailedTxRetry chain signerID (ce_now e)) (fun _ _ => eq_refl).
Definition cDeferReplacement (id : Z) : store_call unit :=
  opCall (fun _ => OpDeferReplacement id) (fun e => DeferReplacement id (ce_now e)) (fun _ _ => eq_refl).
Definition cClaimReplacement (id expected : Z) (token : uuid) (ttl : Z) : store_call OutboxTx :=
  opCall (fun _ => OpClaimReplacement id expected token ttl)
    (fun e => ClaimOutboxForReplacementSigning id expected token ttl (ce_now e)) (fun _ _ => eq_refl).
Definition cInsertReplacement (id expected : Z) (token : uuid) (a : SignedAttempt) : store_call TxAttempt :=
  opCall (fun _ => OpInsertReplacement id expected token a)
    (fun e => InsertReplacementAttempt id expected token a (ce_now e)) (fun _ _ => eq_refl).
Definition cDeferCancel (id : Z) : store_call unit :=
  opCall (fun _ => OpDeferCancel id) (fun e => DeferCancel id (ce_now e)) (fun _ _ => eq_refl).
Definition cClaimCancel (id expected : Z) (token : uuid) (ttl : Z) : store_call OutboxTx :=
  opCall (fun _ => OpClaimCancel id expected token ttl)
    (fun e => ClaimOutboxForCancelSigning id expected token ttl (ce_now e)) (fun _ _ => eq_refl).
Definition cInsertCancel (id expected : Z) (token : uuid) (a : SignedAttempt) : store_call TxAttempt :=
  opCall (fun _ => OpInsertCancel id expected token a)
    (fun e => InsertCancelAttempt id expected token a (ce_now e)) (fun _ _ => eq_refl).
Definition cFinishReconcile (chain : Z) (signerID : string) (token : uuid) (backoff : Z) : store_call unit :=
  opCall (fun _ => OpFinishReconcile chain signerID token backoff)
    (fun e => FinishNonceReconciliation chain signerID token backoff (ce_now e)) (fun _ _ => eq_refl).

(** Calls that also read the Go clock, a snapshot or an observed text. *)
Definition cEstimateRevert (id : Z) (failure : string) : store_call bool :=
  opCall (fun e => OpMarkEstimateRevert id (Some failure) (ce_goNow e))
    (fun e => MarkQueuedTxEstimateRevertFailed id (Some failure) (ce_goNow e) (ce_now e))
    (fun _ _ => eq_refl).
Definition cFinalizeReceipt (aid : Z) (f : TxReceiptFacts) : store_call ReceiptOutcome :=
  opCall (fun e => OpFinalizeReceipt aid f (ce_goNow e))
    (fun e => FinalizeAttemptReceipt aid f (ce_goNow e) (ce_now e)) (fun _ _ => eq_refl).
Definition cClaimReconcile (chain : Z) (signerID : string) (token : uuid) (ttl : Z)
    : store_call (list NonceReconcileHold) :=
  opCall (fun e => OpClaimReconcile chain signerID token ttl (ce_snapshot e))
    (fun e => ClaimNonceReconciliation chain signerID token ttl (ce_snapshot e) (ce_now e))
    (fun _ _ => eq_refl).
Definition cApplyReconcile (chain : Z) (signerID : string) (token : uuid) (nonce block backoff : Z)
    (ds : list NonceReconcileDecision) : store_call NonceReconcileResult :=
  opCall (fun e => OpApplyReconcile chain signerID token nonce block backoff ds (ce_observed e))
    (fun e => ApplyNonceReconciliation chain signerID token nonce block backoff ds (ce_observed e) (ce_now e))
    (fun _ _ => eq_refl).

(** The workflow marks. *)
Definition cExecutorCommitted (guid txHash : Hash) : store_call unit :=
  markCall (OpExecutorStatus (mkExecutorUpdate guid ExecutorCommitTxEnqueued ExecutorCommitted
       (Some txHash) None "" false)) (MarkExecutorCommitted guid txHash)
    (fun now db => with_hash_law txHash _ _ db).
Definition cExecutorDelivered (guid txHash : Hash) : store_call unit :=
  markCall (OpExecutorStatus (mkExecutorUpdate guid ExecutorLzReceiveTxEnqueued ExecutorDelivered
       None (Some txHash) "" false)) (MarkExecutorDelivered guid txHash)
    (fun now db => with_hash_law txHash _ _ db).
Definition cExecutorReceiveFailed (guid txHash : Hash) (reason : string) : store_call unit :=
  markCall (OpExecutorStatus (mkExecutorUpdate guid ExecutorLzReceiveTxEnqueued ExecutorLzReceiveFailed
       None (Some txHash) reason true)) (MarkExecutorReceiveFailed guid txHash reason)
    (fun now db => with_hash_law txHash _ _ db).
Definition cDVNVerified (guid txHash : Hash) : store_call unit :=
  markCall (OpDVNStatus (mkDVNUpdate guid DVNVerifyTxEnqueued DVNVerified "" "" (Some txHash)))
    (MarkDVNVerified guid txHash) (fun now db => with_hash_law txHash _ _ db).
Definition cDVNManualReview (guid : Hash) (expected reason : string) : store_call unit :=
  markCall (OpDVNStatus (mkDVNUpdate guid expected DVNManualReview reason "" None))
    (MarkDVNManualReview guid expected reason) (fun now db => with_text_law reason _ _ db).

(** ** Signing new work *)

Definition chargePreSignFailure (o : OutboxTx) (token : uuid) : action (result mgrerr Z) :=
  let! ctx := ask CtxErr in
  match ctx with
  | Some e => Ret (Err (GoError e))
  | None =>
    let? _ := storeE (cPreSignFailure (q_ID (t_queued o)) token) in
    Ret (Ok (q_ID (t_queued o)))
  end.

(** [a, err := p; if err != nil { return charge() }; return k(a)] *)
Definition orCharge {A} (o : OutboxTx) (token : uuid) (p : action (result mgrerr A))
    (k : A -> action (result mgrerr Z)) : action (result mgrerr Z) :=
  let! r := p in
  match r with Ok a => k a | Err _ => chargePreSignFailure o token end.

Definition claimForSigning (opts : Options) (t : Target) (signer : Address) (id : Z)
    : action (result mgrerr (OutboxTx * uuid)) :=
  let! token := ask NewUUID in
  let claim := cClaimSigning id (tg_ChainEID t) (AddressHex signer) token (SigningLeaseTTL opts) in
  let! first := store claim in
  let? o := (match first with
             | Err ErrNonceCursorMissing =>
               let? rpcNonce := callE (tg_ChainEID t) (RPendingNonceAt signer) in
               let? _ := storeE (cBootstrap (tg_ChainEID t) (AddressHex signer) rpcNonce) in
               storeE claim
             | r => Ret (lift r)
             end) in
  Ret (Ok (o, token)).

Definition signAndPersistAttempt (chainID : Z) (signer : Address) (o : OutboxTx) (token : uuid)
    (gasLimit : Z) (quote : feeQuote) : action (result mgrerr Z) :=
  orCharge o token (signOutboxTx o chainID gasLimit quote signer) (fun signed =>
  orCharge o token (signedAttemptFromTx signed chainID signer o gasLimit quote TxAttemptOriginal) (fun attempt =>
  let? _ := storeE (cInsertSigned (q_ID (t_queued o)) token attempt) in
  Ret (Ok (q_ID (t_queued o))))).

Definition signQueuedTx (opts : Options) (t : Target) (chainID : Z) (signer : Address)
    (queued : QueuedOutboxTx) (policy : FeePolicy) : action (result mgrerr Z) :=
  let! pre := preflight t signer queued policy false in
  match pre with
  | Err ErrTxDeferred => Ret (Err ErrTxDeferred)
  | Err (GoError e) =>
    if isEstimateGasRevert e then
      let? applied := storeE (cEstimateRevert (q_ID queued) ("estimate gas reverted: " +:+ Error e)) in
      if applied : bool then Ret (Ok (q_ID queued)) else Ret (Err ErrTxDeferred)
    else Ret (Err ErrTxDeferred)
  | Err _ => Ret (Err ErrTxDeferred)
  | Ok (quote, gasLimit) =>
    let? claimed := claimForSigning opts t signer (q_ID queued) in
    signAndPersistAttempt chainID signer claimed.1 claimed.2 gasLimit quote
  end.

Definition recoverNonceAssignedTx (opts : Options) (t : Target) (chainID : Z) (signer : Address)
    (queued : QueuedOutboxTx) (policy : FeePolicy) : action (result mgrerr Z) :=
  let? claimed := claimForSigning opts t signer (q_ID queued) in
  orCharge claimed.1 claimed.2 (preflight t signer queued policy false) (fun qg =>
  signAndPersistAttempt chainID signer claimed.1 claimed.2 qg.2 qg.1).

Definition ProcessNext (opts : Options) (t : Target) : action (result mgrerr Z) :=
  let? cs := pure (validateTarget t) in
  let! peeked := store (readCall (fun e => PeekSendableTx (tg_ChainEID t) (AddressHex cs.2) (ce_now e))) in
  match peeked with
  | Err ErrNoRows => Ret (Err ErrNoQueuedTx)
  | Err e => Ret (Err (DBErr e))
  | Ok queued =>
    match tg_FeePolicies t !! q_Purpose queued with
    | None => fail "tx purpose has no fee policy"
    | Some policy =>
      match q_Status queued with
      | TxStatusQueued => signQueuedTx opts t cs.1 cs.2 queued policy
      | TxStatusNonceAssigned => recoverNonceAssignedTx opts t cs.1 cs.2 queued policy
      | _ => fail "outbox tx has unsupported sendable status"
      end
    end
  end.

(** ** Broadcasting *)

Definition ProcessBroadcast (opts : Options) (t : Target) : action (result mgrerr Z) :=
  let? cs := pure (validateTarget t) in
  let! token := ask NewUUID in
  let? claim := storeE (cClaimBroadcast (tg_ChainEID t) (AddressHex cs.2) token (BroadcastLeaseTTL opts)) in
  match UnmarshalBinary (b_RawTx claim) with
  | Err _ =>
    let! marked := store (cSendResult (b_AttemptID claim) token SendErrorDefinitive "raw transaction decode failed") in
    match marked with
    | Ok _ | Err ErrOutboxLeaseLost => Ret (Ok (b_OutboxID claim))
    | Err e => Ret (Err (DBErr e))
    end
  | Ok tx =>
    let! sendErr := call (tg_ChainEID t) (RSend tx) in
    let '(class, detail) := classifyBroadcastError sendErr in
    let! marked := store (cSendResult (b_AttemptID claim) token class detail) in
    match marked with
    | Ok _ | Err ErrOutboxLeaseLost => Ret (Ok (b_OutboxID claim))
    | Err e => Ret (Err (DBErr e))
    end
  end.

Definition ProcessFailedRetry (t : Target) : action (result mgrerr Z) :=
  match tg_Signer t with
  | None => fail "target signer is required"
  | Some signer => storeE (cPrepareRetry (tg_ChainEID t) (AddressHex signer))
  end.

(** ** Receipts *)

Definition receiptOnCanonicalChain (t : Target) (r : Receipt) : action (result mgrerr bool) :=
  if decide (tg_Confirmations t = 0) then Ret (Ok true) else
  match rc_BlockNumber r with
  | None => fail "receipt block number is unavailable"
  | Some n =>
    let? canonicalHash := callE (tg_ChainEID t) (RCanonicalHash n) in
    Ret (Ok (bool_decide (canonicalHash = rc_BlockHash r)))
  end.

Definition receiptConfirmed (head : option Header) (r : Receipt) (confirmations : Z) : result mgrerr bool :=
  match head with
  | None => Err (GoError (errNew "latest header block number is unavailable"))
  | Some head =>
    demand 0 <= hd_Number head < 2 ^ 64 or "latest header block number is unavailable" ;;
    match rc_BlockNumber r with
    | None => Err (GoError (errNew "receipt block number is unavailable"))
    | Some n =>
      demand 0 <= n < 2 ^ 64 or "receipt block number is unavailable" ;;
      if decide (hd_Number head < n) then Ok false
      else Ok (bool_decide (confirmations <= hd_Number head - n))
    end
  end.

Definition txReceiptFacts (r : Receipt) : result mgrerr TxReceiptFacts :=
  demand rc_TxHash r <> 0 or "receipt tx hash is required" ;;
  match rc_BlockNumber r with
  | None => Err (GoError (errNew "receipt block number must be a non-negative uint64"))
  | Some n =>
    demand 0 <= n < 2 ^ 64 or "receipt block number must be a non-negative uint64" ;;
    match rc_EffectiveGasPrice r with
    | None => Err (GoError (errNew "receipt effective gas price must be non-negative"))
    | Some price =>
      demand 0 <= price or "receipt effective gas price must be non-negative" ;;
      Ok (mkTxReceiptFacts (rc_TxHash r) (rc_Status r) n (rc_GasUsed r) (Some price)
            (Some (rc_GasUsed r * price)))
    end
  end.

(** Whether the workflow already shows one of [statuses] (false on a failed read). *)
Definition executorStatusMatches (guid : Hash) (statuses : list string) : action bool :=
  let! packet := store (readCall (fun _ => GetPacket guid)) in
  Ret (match packet with Ok p => bool_decide (k_Status p ∈ statuses) | Err _ => false end).
Definition dvnStatusMatches (guid : Hash) (statuses : list string) : action bool :=
  let! job := store (readCall (fun _ => GetDVNJob guid)) in
  Ret (match job with Ok j => bool_decide (dj_Status j ∈ statuses) | Err _ => false end).

(** Mark unless already applied, tolerating a failed mark that shows as applied. *)
Definition markReceipt (matches : action bool) (mark : store_call unit) : action (result mgrerr unit) :=
  let! already := matches in
  if already : bool then Ret (Ok tt) else
  let! marked := store mark in
  match marked with
  | Ok _ => Ret (Ok tt)
  | Err e =>
    let! now := matches in
    if now : bool then Ret (Ok tt) else Ret (Err (DBErr e))
  end.
Definition markExecutorReceipt (guid : Hash) (mark : store_call unit) (already : list string) :=
  markReceipt (executorStatusMatches guid already) mark.
Definition markDVNReceipt (guid : Hash) (mark : store_call unit) (already : list string) :=
  markReceipt (dvnStatusMatches guid already) mark.

Definition commit_applied : list string :=
  [ExecutorCommitted; ExecutorExecutable; ExecutorLzReceiveTxEnqueued; ExecutorLzReceiveFailed;
   ExecutorDelivered; ExecutorManualReview].

Definition applyWorkflowReceipt (o : OutboxTx) (txHash : Hash) (success : bool) : action (result mgrerr unit) :=
  let q := t_queued o in
  if decide (length (q_GUID q) <> HashLength) then Ret (Ok tt) else
  let guid := BytesToHash (q_GUID q) in
  if decide (q_Purpose q = txPurposeExecutorCommitVerification) then
    if success then markExecutorReceipt guid (cExecutorCommitted guid txHash) commit_applied
    else Ret (Ok tt)
  else if decide (q_Purpose q = txPurposeExecutorLzReceive) then
    if success then markExecutorReceipt guid (cExecutorDelivered guid txHash)
                      [ExecutorDelivered; ExecutorManualReview]
    else markExecutorReceipt guid (cExecutorReceiveFailed guid txHash "lzReceive transaction reverted")
           [ExecutorLzReceiveFailed; ExecutorDelivered; ExecutorManualReview]
  else if decide (q_Purpose q = txPurposeDVNVerify) then
    if success then markDVNReceipt guid (cDVNVerified guid txHash) [DVNVerified; DVNManualReview]
    else Ret (Ok tt)
  else Ret (Ok tt).

Definition cancel_reason : string := "transaction canceled by operator".

Definition applyWorkflowCancel (o : OutboxTx) : action (result mgrerr unit) :=
  let q := t_queued o in
  if decide (length (q_GUID q) <> HashLength) then Ret (Ok tt) else
  let guid := BytesToHash (q_GUID q) in
  if decide (q_Purpose q = txPurposeExecutorCommitVerification) then
    markExecutorReceipt guid (cExecutorManualReview guid ExecutorCommitTxEnqueued cancel_reason) commit_applied
  else if decide (q_Purpose q = txPurposeExecutorLzReceive) then
    markExecutorReceipt guid (cExecutorManualReview guid ExecutorLzReceiveTxEnqueued cancel_reason)
      [ExecutorLzReceiveFailed; ExecutorDelivered; ExecutorManualReview]
  else if decide (q_Purpose q = txPurposeDVNVerify) then
    markDVNReceipt guid (cDVNManualReview guid DVNVerifyTxEnqueued cancel_reason) [DVNVerified; DVNManualReview]
  else Ret (Ok tt).

(** An attempt of a poll task: its id and row. *)
Abbreviation poll_attempt := (Z * AttemptRow)%type.
Definition attempt_hash (a : poll_attempt) : Hash := BytesToHash (a_tx_hash a.2).

(** The pinned attempt's receipt; [None]: try again on the next pass. *)
Definition pinned_receipt (t : Target) (task : ReceiptPollTask)
    : action (result mgrerr (option (Receipt * poll_attempt))) :=
  match head (filter (fun a => a.1 = t_ReceiptAttemptID (r_Outbox task)) (r_Attempts task)) with
  | None => fail "outbox tx pinned receipt attempt is not poll-worthy"
  | Some winning =>
    let! looked := call (tg_ChainEID t) (RReceipt (attempt_hash winning) None) in
    match looked with
    | Err _ => Ret (Ok None)
    | Ok receipt => Ret (Ok (Some (receipt, winning)))
    end
  end.

(** The first attempt with a receipt on the canonical chain. *)
Fixpoint scan_attempts (t : Target) (attempts : list poll_attempt)
    : action (result mgrerr (option (Receipt * poll_attempt))) :=
  match attempts with
  | [] => Ret (Ok None)
  | attempt :: attempts =>
    let! looked := call (tg_ChainEID t) (RReceipt (attempt_hash attempt) None) in
    match looked with
    | Err _ => scan_attempts t attempts
    | Ok candidate =>
      require rc_TxHash candidate = attempt_hash attempt or "receipt tx hash does not match attempt tx hash" ;;
      if decide (0 < tg_Confirmations t) then
        let! onCanonical := receiptOnCanonicalChain t candidate in
        match onCanonical with
        | Ok true => Ret (Ok (Some (candidate, attempt)))
        | Ok false | Err _ => scan_attempts t attempts
        end
      else Ret (Ok (Some (candidate, attempt)))
    end
  end.

(** The confirmation gate of one receipt, with the pass's cached head: [None] defers the row. *)
Definition terminal_gate (t : Target) (id : Z) (head : option Header) (receipt : Receipt)
    : action (result mgrerr (option Header * bool)) :=
  if decide (0 < tg_Confirmations t) then
    let? head := (match head with
                  | Some h => Ret (Ok (Some h))
                  | None => callE (tg_ChainEID t) RHeader
                  end) in
    let? confirmed := pure (receiptConfirmed head receipt (tg_Confirmations t)) in
    if confirmed : bool then
      let! onCanonical := receiptOnCanonicalChain t receipt in
      match onCanonical with
      | Ok true => Ret (Ok (head, true))
      | Ok false | Err _ => Ret (Ok (head, false))
      end
    else
      let? _ := storeE (cRefresh id) in
      Ret (Ok (head, false))
  else Ret (Ok (head, true)).

(** Pin the outcome, apply the workflow effect, finalize; [false]: another attempt is pinned. *)
Definition terminalize (o : OutboxTx) (winning : poll_attempt) (receipt : Receipt)
    : action (result mgrerr bool) :=
  let? facts := pure (txReceiptFacts receipt) in
  let! pinned := (match t_ReceiptOutcome o with
                  | Some outcome => Ret (Ok outcome)
                  | None => store (cPrepareReceipt winning.1 facts)
                  end) in
  match pinned with
  | Err ErrReceiptResolutionPinned => Ret (Ok false)
  | Err e => Ret (Err (DBErr e))
  | Ok outcome =>
    let? _ := (match outcome with
               | ReceiptOutcomeCanceled => applyWorkflowCancel o
               | ReceiptOutcomeConfirmed => applyWorkflowReceipt o (attempt_hash winning) true
               | ReceiptOutcomeFailed => applyWorkflowReceipt o (attempt_hash winning) false
               end) in
    let? _ := storeE (cFinalizeReceipt winning.1 facts) in
    Ret (Ok true)
  end.

(** One poll task: the new cached head and whether the row was terminalized. A pinned row whose
    receipt cannot be read is touched and skipped. *)
Definition process_task (t : Target) (head : option Header) (task : ReceiptPollTask)
    : action (result mgrerr (option Header * bool)) :=
  let o := r_Outbox task in
  let id := q_ID (t_queued o) in
  let? found := (match t_ReceiptOutcome o with
                 | Some _ => pinned_receipt t task
                 | None => scan_attempts t (r_Attempts task)
                 end) in
  let? _ := storeE (cTouchPoll id) in
  match found with
  | None => Ret (Ok (head, false))
  | Some (receipt, winning) =>
    let? gate := terminal_gate t id head receipt in
    if gate.2 : bool then
      let? done := terminalize o winning receipt in
      Ret (Ok (gate.1, done))
    else Ret (Ok (gate.1, false))
  end.

Fixpoint process_tasks (t : Target) (head : option Header) (tasks : list ReceiptPollTask)
    : action (result mgrerr Z) :=
  match tasks with
  | [] => Ret (Err ErrNoReceiptUpdate)
  | task :: tasks =>
    let? progress := process_task t head task in
    if progress.2 : bool then Ret (Ok (q_ID (t_queued (r_Outbox task))))
    else process_tasks t progress.1 tasks
  end.

Definition ProcessReceipts (t : Target) (limit : Z) : action (result mgrerr Z) :=
  let? cs := pure (validateTarget t) in
  let? tasks := storeE (readCall (fun _ => ListReceiptPollTasks (tg_ChainEID t) (AddressHex cs.2) limit)) in
  process_tasks t None tasks.

(** ** Replacements and cancels *)

Definition queuedFromOutbox (o : OutboxTx) : QueuedOutboxTx :=
  let q := t_queued o in
  mkQueuedOutboxTx (q_ID q) (q_ChainEID q) (q_Purpose q) (q_GUID q) (q_To q) (q_Calldata q)
    (q_Value q) (q_GasLimit q) (Clone (q_MaxFeePerGas q)) (Clone (q_MaxPriorityFeePerGas q))
    (Some (t_Nonce o)) (q_TxHash q) (q_SignerID q) TxStatusQueued (q_Attempts q)
    (q_FailureKind q) (q_NextRetryAt q) (q_RetryOfID q).

(** A zero-value self transfer at the row's nonce. *)
Definition cancelQueuedView (o : OutboxTx) (self : Address) : QueuedOutboxTx :=
  let q := t_queued o in
  mkQueuedOutboxTx (q_ID q) (q_ChainEID q) (q_Purpose q) [] self [] 0 (q_GasLimit q)
    (Clone (q_MaxFeePerGas q)) (Clone (q_MaxPriorityFeePerGas q)) (Some (t_Nonce o)) 0
    (q_SignerID q) (q_Status q) 0 "" None None.

(** Any attempt already mined on the canonical chain, or undecided: the action is deferred. *)
Fixpoint mined_precheck (t : Target) (hashes : list Hash) : action (result mgrerr bool) :=
  match hashes with
  | [] => Ret (Ok false)
  | hash :: hashes =>
    let! looked := call (tg_ChainEID t) (RReceipt hash None) in
    match looked with
    | Err e => if errors_Is e NotFound then mined_precheck t hashes else Ret (Err (GoError e))
    | Ok receipt =>
      let! onCanonical := receiptOnCanonicalChain t receipt in
      match onCanonical with
      | Err _ | Ok true => Ret (Ok true)
      | Ok false => mined_precheck t hashes
      end
    end
  end.

Definition ProcessStaleBroadcastReplacement (opts : Options) (t : Target) : action (result mgrerr Z) :=
  let? cs := pure (validateTarget t) in
  let '(chainID, signer) := cs in
  let? candidate := storeE (readCall (fun e => NextReplacementCandidate (tg_ChainEID t)
    (AddressHex signer) (StaleBroadcastReplacementAfter opts) (ce_now e))) in
  let o := rc_Outbox candidate in
  let id := q_ID (t_queued o) in
  let? mined := mined_precheck t (rc_AttemptHashes candidate) in
  if mined : bool then
    let? _ := storeE (cDeferReplacement id) in Ret (Ok id)
  else
    match tg_FeePolicies t !! q_Purpose (t_queued o) with
    | None => fail "missing fee policy for purpose"
    | Some policy =>
      let bumpingCancel := bool_decide (rc_ActiveKind candidate = TxAttemptCancel) in
      let view := if bumpingCancel then cancelQueuedView o signer else queuedFromOutbox o in
      let! pre := preflight t signer view policy true in
      match pre with
      | Err e =>
        let? _ := storeE (cDeferReplacement id) in
        match e with ErrTxDeferred => Ret (Err ErrTxDeferred) | _ => Ret (Ok id) end
      | Ok (quote, gasLimit) =>
        let! token := ask NewUUID in
        let? claimed := storeE (cClaimReplacement id (rc_ActiveAttemptID candidate) token (SigningLeaseTTL opts)) in
        orCharge claimed token
          (if bumpingCancel then signCancelTx claimed chainID gasLimit quote signer
           else signReplacementOutboxTx claimed chainID gasLimit quote signer) (fun signed =>
        orCharge claimed token
          (if bumpingCancel then cancelAttemptFromTx signed chainID signer claimed gasLimit quote
           else signedAttemptFromTx signed chainID signer claimed gasLimit quote TxAttemptReplacement) (fun attempt =>
        let? _ := storeE (cInsertReplacement id (rc_ActiveAttemptID candidate) token attempt) in
        Ret (Ok id)))
      end
    end.

Definition ProcessCancelRequest (opts : Options) (t : Target) : action (result mgrerr Z) :=
  let? cs := pure (validateTarget t) in
  let '(chainID, signer) := cs in
  let? candidate := storeE (readCall (fun e => NextCancelCandidate (tg_ChainEID t)
    (AddressHex signer) (ce_now e))) in
  let o := cc_Outbox candidate in
  let id := q_ID (t_queued o) in
  let? mined := mined_precheck t (cc_AttemptHashes candidate) in
  if mined : bool then
    let? _ := storeE (cDeferCancel id) in Ret (Ok id)
  else
    match tg_FeePolicies t !! q_Purpose (t_queued o) with
    | None => fail "missing fee policy for purpose"
    | Some policy =>
      let! pre := preflight t signer (cancelQueuedView o signer) policy false in
      match pre with
      | Err e =>
        let? _ := storeE (cDeferCancel id) in
        match e with ErrTxDeferred => Ret (Err ErrTxDeferred) | _ => Ret (Ok id) end
      | Ok (quote, gasLimit) =>
        let! token := ask NewUUID in
        let? claimed := storeE (cClaimCancel id (cc_ActiveAttemptID candidate) token (SigningLeaseTTL opts)) in
        orCharge claimed token (signCancelTx claimed chainID gasLimit quote signer) (fun signed =>
        orCharge claimed token (cancelAttemptFromTx signed chainID signer claimed gasLimit quote) (fun attempt =>
        let? _ := storeE (cInsertCancel id (cc_ActiveAttemptID candidate) token attempt) in
        Ret (Ok id)))
      end
    end.

(** ** Nonce reconciliation *)

(** What the probe of one hash found: nothing, a canonical receipt, or an error. *)
Inductive holdReceiptProbe := ProbeNone | ProbeReceipt | ProbeError.

Definition probe_hash (t : Target) (confirmedBlock : Z) (hash : Hash) : action holdReceiptProbe :=
  let! looked := call (tg_ChainEID t) (RReceipt hash (Some confirmedBlock)) in
  match looked with
  | Err e => Ret (if errors_Is e NotFound then ProbeNone else ProbeError)
  | Ok receipt =>
    let! onCanonical := receiptOnCanonicalChain t receipt in
    Ret (match onCanonical with Err _ => ProbeError | Ok true => ProbeReceipt | Ok false => ProbeNone end)
  end.

(** A receipt on any hash wins; otherwise any error leaves the hold undecided. *)
Definition merge_probe (a b : holdReceiptProbe) : holdReceiptProbe :=
  match a, b with
  | ProbeReceipt, _ | _, ProbeReceipt => ProbeReceipt
  | ProbeError, _ | _, ProbeError => ProbeError
  | ProbeNone, ProbeNone => ProbeNone
  end.

Fixpoint probe_hashes (t : Target) (confirmedBlock : Z) (hashes : list Hash) : action holdReceiptProbe :=
  match hashes with
  | [] => Ret ProbeNone
  | hash :: hashes =>
    let! p := probe_hash t confirmedBlock hash in
    let! rest := probe_hashes t confirmedBlock hashes in
    Ret (merge_probe p rest)
  end.

Fixpoint probe_holds (t : Target) (confirmedBlock : Z) (hashes : gmap Z (list Hash))
    (holds : list NonceReconcileHold) : action (list (NonceReconcileHold * holdReceiptProbe)) :=
  match holds with
  | [] => Ret []
  | hold :: holds =>
    let! p := probe_hashes t confirmedBlock (default [] (hashes !! h_ID hold)) in
    let! rest := probe_holds t confirmedBlock hashes holds in
    Ret ((hold, p) :: rest)
  end.

Definition decide_hold (confirmedNonce : Z) (hp : NonceReconcileHold * holdReceiptProbe)
    : option NonceReconcileDecision :=
  match hp.2 with
  | ProbeError | ProbeReceipt => None
  | ProbeNone =>
    if decide (h_Nonce hp.1 < confirmedNonce)
    then Some (mkDecision (h_ID hp.1) NonceReconcileMarkExternal)
    else if decide (h_CancelRequested hp.1 = true /\ h_ActiveKind hp.1 <> Some TxAttemptCancel)
    then None
    else Some (mkDecision (h_ID hp.1) NonceReconcileRelease)
  end.

(** The newest confirmed block below a head, and the block to read the nonce at. *)
Definition confirmed_block (head confirmations : Z) : Z :=
  if decide (0 < confirmations)
  then (if decide (confirmations <= head) then head - confirmations else 0) else head.

(** The pass under the lease; [Ok None]: the lease was lost before publishing. *)
Definition reconcile_pass (opts : Options) (t : Target) (signer : Address) (token : uuid)
    (holds : list NonceReconcileHold) : action (result mgrerr (option NonceReconcileResult)) :=
  let signerID := AddressHex signer in
  let? hashes := storeE (readCall (fun _ db => Ok (LoadNonceReconcileAttemptHashes db (h_ID <$> holds)))) in
  let? head := callE (tg_ChainEID t) RHeader in
  match head with
  | None => fail "latest header block number is unavailable"
  | Some head =>
    require 0 <= hd_Number head < 2 ^ 64 or "latest header block number is unavailable" ;;
    let confirmedBlock := confirmed_block (hd_Number head) (tg_Confirmations t) in
    let? confirmedNonce := callE (tg_ChainEID t) (RNonceAt signer
      (if decide (0 < tg_Confirmations t) then Some confirmedBlock else None)) in
    let! probed := probe_holds t confirmedBlock hashes holds in
    let! lost := ask HeartbeatLost in
    if lost : bool then fail "nonce reconciliation lease lost during receipt probing" else
    let decisions := omap (decide_hold confirmedNonce) probed in
    let! applied := store (cApplyReconcile (tg_ChainEID t) signerID token confirmedNonce confirmedBlock
      (NonceReconcileInterval opts) decisions) in
    match applied with
    | Err ErrOutboxLeaseLost => Ret (Ok None)
    | Err e => Ret (Err (DBErr e))
    | Ok result => Ret (Ok (Some result))
    end
  end.

(** The deferred release runs on every path that did not publish; its own error is only logged. *)
Definition ProcessNonceReconciliation (opts : Options) (t : Target) : action (result mgrerr Z) :=
  let? cs := pure (validateTarget t) in
  let signer := cs.2 in
  let! token := ask NewUUID in
  let? holds := storeE (cClaimReconcile (tg_ChainEID t) (AddressHex signer) token (SigningLeaseTTL opts)) in
  let! published := reconcile_pass opts t signer token holds in
  match published with
  | Ok (Some result) =>
    Ret (match holds with
         | hold :: _ => if decide (0 < rr_Changed result) then Ok (h_ID hold) else Err (DBErr ErrNoNonceReconcileWork)
         | [] => Err (DBErr ErrNoNonceReconcileWork)
         end)
  | Ok None =>
    let! _ := store (cFinishReconcile (tg_ChainEID t) (AddressHex signer) token (NonceReconcileInterval opts)) in
    Ret (Err (DBErr ErrNoNonceReconcileWork))
  | Err e =>
    let! _ := store (cFinishReconcile (tg_ChainEID t) (AddressHex signer) token (NonceReconcileInterval opts)) in
    Ret (Err e)
  end.

(** ** The loop *)

(** What the loop does with a stage's error. *)
Inductive disposition := NextStage | NextTarget | Progress | Failed.

Definition stages (opts : Options) (t : Target) : list (action (result mgrerr Z) * (mgrerr -> disposition)) :=
  [ (ProcessReceipts t 1, fun e => match e with ErrNoReceiptUpdate => NextStage | _ => Failed end);
    (ProcessNonceReconciliation opts t,
     fun e => match e with DBErr ErrNoNonceReconcileWork => NextStage | _ => Failed end);
    (ProcessCancelRequest opts t,
     fun e => match e with
              | DBErr ErrNoCancelWork | DBErr ErrOutboxLeaseLost | DBErr ErrActiveAttemptChanged => NextStage
              | ErrTxDeferred => NextTarget
              | _ => Failed
              end);
    (ProcessBroadcast opts t,
     fun e => match e with
              | DBErr ErrNoBroadcastCandidate | DBErr ErrSignerLaneBlocked | DBErr ErrOutboxLeaseLost => NextStage
              | DBErr ErrBroadcastLaneHeld => Progress
              | _ => Failed
              end);
    (ProcessStaleBroadcastReplacement opts t,
     fun e => match e with
              | DBErr ErrNoStaleBroadcastReplacement => NextStage
              | ErrTxDeferred | DBErr ErrOutboxLeaseLost | DBErr ErrActiveAttemptChanged => NextTarget
              | _ => Failed
              end);
    (ProcessFailedRetry t, fun e => match e with DBErr ErrNoFailedTxRetry => NextStage | _ => Failed end);
    (ProcessNext opts t,
     fun e => match e with
              | ErrNoQueuedTx | ErrTxDeferred | DBErr ErrSignerLaneBlocked | DBErr ErrOutboxLeaseLost
              | DBErr ErrTxSendScopeInactive => NextTarget
              | _ => Failed
              end) ].

(** One durable action per target: [Ok] tells whether there was one, [Err] that the context
    ended. *)
Fixpoint run_stages (l : list (action (result mgrerr Z) * (mgrerr -> disposition)))
    : action (result goerr bool) :=
  match l with
  | [] => Ret (Ok false)
  | (stage, on_error) :: l =>
    let! r := stage in
    match r with
    | Ok _ => Ret (Ok true)
    | Err e =>
      match on_error e with
      | NextStage => run_stages l
      | NextTarget => Ret (Ok false)
      | Progress => Ret (Ok true)
      | Failed =>
        let! ctx := ask CtxErr in
        Ret (match ctx with Some e => Err e | None => Ok false end)
      end
    end
  end.

Fixpoint process_targets (opts : Options) (targets : list Target) (processed : bool)
    : action (bool * option goerr) :=
  match targets with
  | [] => Ret (processed, None)
  | t :: targets =>
    let! r := run_stages (stages opts t) in
    match r with
    | Err e => Ret (processed, Some e)
    | Ok b => process_targets opts targets (processed || b)
    end
  end.

Definition processOnce (opts : Options) (targets : list Target) : action (bool * option goerr) :=
  process_targets opts targets false.

(** [passes] iterations of the loop: an idle pass waits for the poll interval or the end of
    the context. *)
Fixpoint runLoop (opts : Options) (targets : list Target) (passes : nat) : action (option goerr) :=
  match passes with
  | O => Ret None
  | S passes =>
    let! r := processOnce opts targets in
    match r.2 with
    | Some e => Ret (Some e)
    | None =>
      if r.1 : bool then runLoop opts targets passes else
      let! ctx := ask CtxErr in
      match ctx with
      | Some e => Ret (Some e)
      | None => runLoop opts targets passes
      end
    end
  end.
End txmgr.
