(* ===== verification/TxMgrSample.v ===== *)
(** * A concrete world for the transaction manager

    A transaction type, a target, clocks and answers from outside, with which the
    routines run on the sample tables of the store. *)

From S2P Require Import Prelude GoErr Classify Schema SendScope Outbox Attempts CancelReconcile Jobs Store StoreOps.
From S2P Require Import Quorum QuorumLogs BigUtil Proc TxMgr.
From stdpp Require Import base gmap list strings numbers.
From Stdlib Require Import ZArith.
#[local] Open Scope Z_scope.

(** A transaction with its hash and encoding beside its fields. *)
Record sample_transaction := mkTx {
  x_type : Z; x_hash : Hash; x_nonce : Z; x_gas : Z; x_chain : option Z; x_fee : Z; x_tip : Z;
  x_to : option Address; x_value : option Z; x_data : bytes; x_raw : bytes }.

#[export] Instance sample_lib : TxLib := {|
  Transaction := sample_transaction;
  tx_Type := x_type; tx_Hash := x_hash; tx_Nonce := x_nonce; tx_Gas := x_gas; tx_ChainId := x_chain;
  tx_GasFeeCap := x_fee; tx_GasTipCap := x_tip; tx_GasPrice := x_fee; tx_To := x_to; tx_Value := x_value;
  tx_Data := x_data;
  Sender := fun _ _ => Ok 1;
  MarshalBinary := fun tx => Ok (x_raw tx);
  UnmarshalBinary := fun raw => Ok (mkTx 2 1234 3 21000 (Some 31337) 100 1 (Some 99) (Some 0) [] raw);
  NewDynamicFeeTx := fun chainID nonce tip fee gas to value data =>
    mkTx 2 (1000 + nonce) nonce gas (Some chainID) fee tip (Some to) (Some value) data [Byte.x02];
  NewLegacyTx := fun nonce price gas to value data =>
    mkTx 0 (1000 + nonce) nonce gas None price price (Some to) (Some value) data [Byte.x00];
  AddressHex := fun a => if decide (a = 1) then "s"%string else "other"%string |}.

Definition sample_options : Options := normalizeOptions (mkOptions 0 0 0 0 0 0 0).
Definition sample_policy : FeePolicy := mkFeePolicy (Some 500) (Some 50) false.
Definition sample_target : Target :=
  mkTarget 7 (Some 31337) (Some 1) true 12 {[ TxPurposePricingSetPriceSnapshot := sample_policy ]}.

Definition sample_env (db : DB) : callenv := mkEnv 30 30 db "".

(** A chain at block 100 with account nonce 9, on which everything sent was mined in block 50,
    or nothing was. *)
Definition sample_answer (mined : bool) {R} (q : rpc R) : R :=
  match q with
  | RHeader => Ok (Some (mkHeader 100 70 30000000 (Some 5) 0))
  | REstimateGas _ => Ok 21000
  | RNonceAt _ _ => Ok 9
  | RPendingNonceAt _ => Ok 3
  | RSuggestGasPrice => Ok (Some 10)
  | RSuggestGasTipCap => Ok (Some 2)
  | RSend _ => None
  | RReceipt hash _ => if mined then Ok (mkReceipt hash 1 (Some 50) 77 21000 (Some 6) [])
                       else Err (mkErr "not found" (Some NotFound) None None false false [])
  | RCanonicalHash _ => Ok 77
  end.

Definition sample_oracle (mined : bool) (R : Type) (q : query R) : R :=
  match q with
  | Rpc _ _ r => sample_answer mined r
  | SignTx _ tx _ => Ok (Some tx)
  | NewUUID => 600
  | CtxErr => None
  | HeartbeatLost => false
  end.

(** The first request of the sample run queued, with the lane's cursor; and the same row held
    after "nonce too low". *)
Definition db_queued : DB := run (take 3 sample_ops) sample_db.
Definition db_held : DB := run (take 6 sample_ops ++ [(OpMarkSendResult 1 600 SendErrorNonceTooLow "", 16)]) sample_db.

Definition send_run := simulate (runLoop sample_options [sample_target] 1) sample_env (sample_oracle false) db0.
Definition sign_run := simulate (runLoop sample_options [sample_target] 1) sample_env (sample_oracle false) db_queued.
Definition receipt_run := simulate (ProcessReceipts sample_target 1) sample_env (sample_oracle true) db1.
Definition reconcile_run :=
  simulate (ProcessNonceReconciliation sample_options sample_target) sample_env (sample_oracle false) db_held.
Definition sample_view : QueuedOutboxTx :=
  mkQueuedOutboxTx 1 7 TxPurposePricingSetPriceSnapshot [] 99 [] 0 21000 (Some 100) (Some 40)
    (Some 3) 0 "s" TxStatusBroadcast 0 "" None None.
Definition quote_run := simulate (quoteFee sample_view sample_policy 7) sample_env (sample_oracle false) db0.

(** The tables at event [k] of a trace. *)
Definition db_at (tr : list (event query)) (k : nat) : DB :=
  match tr !! k with Some e => event_db e | None => sample_db end.

Lemma split_at {A} (p : proc query A) db tr db' r k e :
  behaves p db tr db' r -> tr !! k = Some e -> behaves p db (take k tr ++ e :: drop (S k) tr) db' r.
Proof. intros Hb He. by rewrite take_drop_middle. Qed.

Lemma send_run_behaves : behaves (runLoop sample_options [sample_target] 1) db0 send_run.1.1 send_run.1.2 (Some send_run.2).
Proof. unfold send_run. apply simulate_behaves. Qed.
Lemma sign_run_behaves :
  behaves (runLoop sample_options [sample_target] 1) db_queued sign_run.1.1 sign_run.1.2 (Some sign_run.2).
Proof. unfold sign_run. apply simulate_behaves. Qed.
Lemma receipt_run_behaves :
  behaves (ProcessReceipts sample_target 1) db1 receipt_run.1.1 receipt_run.1.2 (Some receipt_run.2).
Proof. unfold receipt_run. apply simulate_behaves. Qed.
Lemma reconcile_run_behaves :
  behaves (ProcessNonceReconciliation sample_options sample_target) db_held
    reconcile_run.1.1 reconcile_run.1.2 (Some reconcile_run.2).
Proof. unfold reconcile_run. apply simulate_behaves. Qed.
Lemma quote_run_behaves :
  behaves (quoteFee sample_view sample_policy 7) db0 quote_run.1.1 quote_run.1.2 (Some quote_run.2).
Proof. unfold quote_run. apply simulate_behaves. Qed.
