(* ===== verification/TxMgrProofs.v ===== *)
(** * What the transaction manager guarantees

    Executions of the manager's routines (any answers from outside, any
    interleaving with other workers, failures and crashes included). *)

From S2P Require Import Prelude GoErr Classify Schema SendScope Outbox Attempts CancelReconcile Jobs StoreInv Store.
From S2P Require Import StoreOps Quorum QuorumLogs BigUtil Proc TxMgr TxMgrSample.
From stdpp Require Import base gmap list strings numbers relations.
From Stdlib Require Import ZArith Lia.
#[local] Open Scope Z_scope.

Section combinators.
Context `{TxLib}.

Lemma safe_storeE (P : list (event query) -> event query -> Prop) {A B} (c : store_call A)
    (k : A -> proc query (result mgrerr B)) past db Q :
  (forall db0 env, rtc step db db0 -> P past (EvStore (sc_op c env) db0)) ->
  (forall db0 db1 env a, rtc step db db0 -> sc_run c env db0 = (db1, Ok a) ->
     safe P (k a) (past ++ [EvStore (sc_op c env) db0]) db1 Q) ->
  (forall db0 db1 env e, rtc step db db0 -> outcome c env db0 db1 (Err e) ->
     safe P (Ret (Err (DBErr e))) (past ++ [EvStore (sc_op c env) db0]) db1 Q) ->
  safe P (andThen (storeE c) k) past db Q.
Proof.
  intros HP Hok Herr db0 Hs env. split; [by apply HP|]. intros db1 [a|e] Ho; cbn.
  - destruct Ho as [Ho|(msg & [=] & _)]. by eapply Hok.
  - by eapply Herr.
Qed.

Lemma safe_callE (P : list (event query) -> event query -> Prop) {A B} chain (q : rpc (result goerr A))
    (k : A -> proc query (result mgrerr B)) past db Q :
  (forall db0 r, rtc step db db0 -> P past (EvAsk (Rpc _ chain q) r db0)) ->
  (forall db0 a, rtc step db db0 -> safe P (k a) (past ++ [EvAsk (Rpc _ chain q) (Ok a) db0]) db0 Q) ->
  (forall db0 e, rtc step db db0 ->
     safe P (Ret (Err (GoError e))) (past ++ [EvAsk (Rpc _ chain q) (Err e) db0]) db0 Q) ->
  safe P (andThen (callE chain q) k) past db Q.
Proof.
  intros HP Hok Herr db0 Hs [a|e]; (split; [by apply HP|]); [by apply Hok|by apply Herr].
Qed.

End combinators.

(** Discharges [only] goals by the structure of the routine. *)
Create HintDb quiet.

Ltac quiet := repeat first
  [ done
  | solve [auto with quiet nocore]
  | progress intros
  | apply only_andThen | apply only_store | apply only_ask | apply only_bind
  | progress (unfold fail, pure, storeE, callE, call, orCharge)
  | match goal with |- only _ _ (match ?x with _ => _ end) => destruct x end ].

Section proofs.
Context `{TxLib}.

(** Questions that broadcast nothing. *)
Definition no_send (R : Type) (q : query R) : Prop :=
  match q with Rpc _ _ (RSend _) => False | _ => True end.

Definition any_op (_ : option store_op) : Prop := True.

(** The row and the attempt an operation persists. *)
Definition insert_of (op : option store_op) : option (Z * SignedAttempt) :=
  match op with
  | Some (OpInsertSigned id _ a) | Some (OpInsertReplacement id _ _ a) | Some (OpInsertCancel id _ _ a) => Some (id, a)
  | _ => None
  end.
Definition no_insert (op : option store_op) : Prop := insert_of op = None.

Lemma only_any S {A} (p : proc query A) : only S no_insert p -> only S any_op p.
Proof. induction p; cbn; [done|intros [? ?]; split; [done|auto]..]. Qed.

Lemma quoteFee_quiet queued policy chain : only no_send no_insert (quoteFee queued policy chain).
Proof. unfold quoteFee, quoteLegacyFee, quoteDynamicFee. quiet. Qed.

Lemma preflight_quiet t signer queued policy reuse : only no_send no_insert (preflight t signer queued policy reuse).
Proof. unfold preflight, estimateGas. apply only_andThen; [apply quoteFee_quiet|]. quiet. Qed.

Lemma sign_quiet o chainID gas quote signer statuses :
  only no_send no_insert (signOutboxTxWithStatuses o chainID gas quote signer statuses).
Proof. unfold signOutboxTxWithStatuses, self_call. quiet. Qed.
Lemma signCancel_quiet o chainID gas quote signer : only no_send no_insert (signCancelTx o chainID gas quote signer).
Proof. unfold signCancelTx. quiet. Qed.
Lemma signedAttempt_quiet signed chainID signer o gas quote kind :
  only no_send no_insert (signedAttemptFromTx signed chainID signer o gas quote kind).
Proof. unfold signedAttemptFromTx, package. quiet. Qed.
Lemma cancelAttempt_quiet signed chainID signer o gas quote :
  only no_send no_insert (cancelAttemptFromTx signed chainID signer o gas quote).
Proof. unfold cancelAttemptFromTx, package. quiet. Qed.
Lemma charge_quiet o token : only no_send no_insert (chargePreSignFailure o token).
Proof. unfold chargePreSignFailure. quiet. Qed.
Lemma canonical_quiet t r : only no_send no_insert (receiptOnCanonicalChain t r).
Proof. unfold receiptOnCanonicalChain. quiet. Qed.
#[local] Hint Resolve only_any : quiet.
#[local] Hint Resolve preflight_quiet sign_quiet signCancel_quiet signedAttempt_quiet
  cancelAttempt_quiet charge_quiet canonical_quiet : quiet.

Lemma claimForSigning_quiet opts t signer id : only no_send no_insert (claimForSigning opts t signer id).
Proof. unfold claimForSigning. quiet. Qed.
Lemma signAndPersist_quiet chainID signer o token gas quote :
  only no_send any_op (signAndPersistAttempt chainID signer o token gas quote).
Proof. unfold signAndPersistAttempt, signOutboxTx. quiet. Qed.
#[local] Hint Resolve claimForSigning_quiet signAndPersist_quiet : quiet.

Lemma ProcessNext_quiet opts t : only no_send any_op (ProcessNext opts t).
Proof. unfold ProcessNext, signQueuedTx, recoverNonceAssignedTx. quiet. Qed.

Lemma pinned_quiet t task : only no_send no_insert (pinned_receipt t task).
Proof. unfold pinned_receipt. quiet. Qed.
Lemma scan_quiet t attempts : only no_send no_insert (scan_attempts t attempts).
Proof. induction attempts; cbn [scan_attempts]; quiet. Qed.
Lemma gate_quiet t id head receipt : only no_send no_insert (terminal_gate t id head receipt).
Proof. unfold terminal_gate. quiet. Qed.
Lemma workflow_quiet o txHash success :
  only no_send no_insert (applyWorkflowReceipt o txHash success) /\ only no_send no_insert (applyWorkflowCancel o).
Proof.
  unfold applyWorkflowReceipt, applyWorkflowCancel, markExecutorReceipt, markDVNReceipt, markReceipt,
    executorStatusMatches, dvnStatusMatches. split; quiet.
Qed.
#[local] Hint Resolve pinned_quiet scan_quiet gate_quiet : quiet.
Lemma terminalize_quiet o winning receipt : only no_send no_insert (terminalize o winning receipt).
Proof.
  unfold terminalize. pose proof (fun h b => proj1 (workflow_quiet o h b)).
  pose proof (proj2 (workflow_quiet o 0 true)). quiet.
Qed.
#[local] Hint Resolve terminalize_quiet : quiet.
Lemma ProcessReceipts_quiet t limit : only no_send no_insert (ProcessReceipts t limit).
Proof.
  unfold ProcessReceipts. quiet. generalize (@None Header).
  match goal with |- forall h, only _ _ (process_tasks _ _ ?l) => induction l end; intros h;
    cbn [process_tasks]; unfold process_task; quiet.
Qed.

Lemma precheck_quiet t hashes : only no_send no_insert (mined_precheck t hashes).
Proof. induction hashes; cbn [mined_precheck]; quiet. Qed.
#[local] Hint Resolve precheck_quiet : quiet.
Lemma ProcessStale_quiet opts t : only no_send any_op (ProcessStaleBroadcastReplacement opts t).
Proof. unfold ProcessStaleBroadcastReplacement, signReplacementOutboxTx. quiet. Qed.
Lemma ProcessCancel_quiet opts t : only no_send any_op (ProcessCancelRequest opts t).
Proof. unfold ProcessCancelRequest. quiet. Qed.

Lemma probe_hashes_quiet t block hashes : only no_send no_insert (probe_hashes t block hashes).
Proof. induction hashes; cbn [probe_hashes]; unfold probe_hash; quiet. Qed.
Lemma probe_holds_quiet t block hashes holds : only no_send no_insert (probe_holds t block hashes holds).
Proof. pose proof probe_hashes_quiet. induction holds; cbn [probe_holds]; quiet. Qed.
#[local] Hint Resolve probe_holds_quiet : quiet.
Lemma ProcessReconcile_quiet opts t : only no_send no_insert (ProcessNonceReconciliation opts t).
Proof. unfold ProcessNonceReconciliation, reconcile_pass. quiet. Qed.
Lemma ProcessFailedRetry_quiet t : only no_send no_insert (ProcessFailedRetry t).
Proof. unfold ProcessFailedRetry. quiet. Qed.

(** ** What is sent *)

(** A row of the outbox on [chain] has a durable attempt whose bytes decode to [tx], already
    counted as broadcast. *)
Definition persisted (chain : Z) (tx : Transaction) (db : DB) : Prop :=
  exists aid a o,
    tx_attempts db !! aid = Some a /\ tx_outbox db !! a_outbox_id a = Some o /\
    UnmarshalBinary (a_raw_tx a) = Ok tx /\ o_chain_eid o = chain /\
    1 <= a_broadcast_count a /\ a_state a <> TxAttemptSigned.

(** Every transaction handed to an RPC client is persisted at that moment. *)
Definition sends_persisted (_ : list (event query)) (e : event query) : Prop :=
  match e with
  | EvStore _ _ => True
  | EvAsk q _ db =>
    match q with
    | Rpc _ chain r => match r with RSend tx => persisted chain tx db | _ => True end
    | _ => True
    end
  end.

Lemma persisted_step chain tx db db' : inv db -> rtc step db db' -> persisted chain tx db -> persisted chain tx db'.
Proof.
  intros Hi Hs (aid & a & o & Ha & Ho & Hu & Hc & Hn & Hst).
  destruct (steps_inv _ _ Hi Hs) as [_ He].
  destruct (ev_atts _ _ He _ _ Ha) as (a' & Ha' & Ea). destruct (ev_rows _ _ He _ _ Ho) as (o' & Ho' & Eo).
  exists aid, a', o'. destruct Ea, Eo. split_and!; try congruence; [lia|].
  destruct ae_state as [-> | Hr]; [done|]. intros E. rewrite E in Hr. cbn in Hr. destruct (a_state a); cbn in Hr; lia.
Qed.

Lemma claim_persisted c s token ttl now db db' claim tx :
  inv db -> ClaimAttemptForBroadcast c s token ttl now db = (db', Ok claim) ->
  UnmarshalBinary (b_RawTx claim) = Ok tx -> persisted c tx db'.
Proof.
  intros Hi Hc Hu.
  destruct (claim_broadcast_sound _ _ _ _ _ _ _ _ Hc) as
    (o & a & Ho & Ha & _ & Hown & [Hl _] & _ & _ & _ & _ & _ & _ & _ & a' & Ha' & Hraw & Hst & Hn).
  assert (rtc step db db') as Hs.
  { pose proof (call_steps (cClaimBroadcast c s token ttl) (mkEnv now now db "") db) as Hs.
    cbn in Hs. by rewrite Hc in Hs. }
  destruct (steps_inv _ _ Hi Hs) as [_ He].
  destruct (ev_atts _ _ He _ _ Ha) as (a2 & Ha2 & Ea). destruct (ev_rows _ _ He _ _ Ho) as (o' & Ho' & Eo).
  assert (a2 = a') as -> by congruence. exists (b_AttemptID claim), a', o'. destruct Ea, Eo.
  pose proof (att_count _ _ (inv_atts _ Hi _ _ Ha)). split_and!; try congruence; lia.
Qed.

Lemma broadcast_safe opts t past db :
  inv db -> safe sends_persisted (ProcessBroadcast opts t) past db (fun _ _ _ => True).
Proof.
  intros Hi. apply safe_pure; [intros cs _|intros; by apply safe_ret].
  apply safe_ask. intros db0 token Hs0. split; [done|].
  apply safe_storeE; [done| |intros; by apply safe_ret].
  intros db1 db2 env claim Hs1 Hc. destruct (UnmarshalBinary _) as [tx|e] eqn:Eu.
  - assert (inv db1) as Hi1 by (eapply steps_inv; [exact Hi|by etrans]).
    apply safe_ask. intros db3 r Hs3. split.
    + pose proof (call_steps (cClaimBroadcast (tg_ChainEID t) (AddressHex cs.2) token (BroadcastLeaseTTL opts)) env db1) as Hs2.
      rewrite Hc in Hs2. eapply persisted_step; [|exact Hs3|exact (claim_persisted _ _ _ _ _ _ _ _ _ Hi1 Hc Eu)].
      exact (proj1 (steps_inv _ _ Hi1 Hs2)).
    + destruct (classifyBroadcastError r). apply safe_store. split; [done|]. intros _.
      destruct res as [|[]]; cbn; by intros.
  - apply safe_store. split; [done|]. intros _. destruct res as [|[]]; cbn; by intros.
Qed.

Lemma quiet_safe {A} (p : proc query A) past db :
  only no_send any_op p -> safe sends_persisted p past db (fun _ _ _ => True).
Proof.
  apply only_safe; [done|]. intros past' R q a db' Hq. destruct q as [? c r| | | |]; [|done..]. by destruct r.
Qed.

Lemma stages_safe opts t :
  Forall (fun s => forall past db, inv db -> safe sends_persisted s.1 past db (fun _ _ _ => True)) (stages opts t).
Proof.
  repeat apply Forall_cons_2; try apply Forall_nil_2; cbn [fst]; intros; try (by apply broadcast_safe);
    apply quiet_safe; eauto using only_any, ProcessReceipts_quiet, ProcessReconcile_quiet, ProcessCancel_quiet,
      ProcessStale_quiet, ProcessFailedRetry_quiet, ProcessNext_quiet.
Qed.

(** A routine run between invariant states leaves one. *)
Lemma safe_inv (P : list (event query) -> event query -> Prop) {A} (p : proc query A) past db Q :
  inv db -> safe P p past db Q -> safe P p past db (fun a past' db' => Q a past' db' /\ inv db').
Proof.
  intros Hi Hs. eapply safe_mono; [|by apply safe_steps]. intros a past' db' [HQ Hst]. split; [done|].
  by eapply steps_inv.
Qed.

(** Whatever every stage of every target keeps, the loop keeps. *)
Section loop.
Context (P : list (event query) -> event query -> Prop).
Context (Hctx : forall past a db, P past (EvAsk CtxErr a db)).

Lemma run_stages_safe l past db :
  Forall (fun s => forall past db, inv db -> safe P s.1 past db (fun _ _ _ => True)) l -> inv db ->
  safe P (run_stages l) past db (fun _ _ db => inv db).
Proof.
  intros Hl. revert past db. induction Hl as [|[stage on_error] l Hst Hl IH]; intros past db Hi.
  - apply safe_ret. intros db0 Hs. by eapply steps_inv.
  - apply safe_bind. eapply safe_mono; [|apply safe_inv; [done|by apply Hst]].
    intros r past' db' [_ Hi']. assert (forall (b : result goerr bool) past, safe P (Ret b) past db' (fun _ _ db => inv db)).
    { intros b past2. apply safe_ret. intros db0 Hs. by eapply steps_inv. }
    destruct r as [a|e]; [auto|]. destruct (on_error e); auto.
    apply safe_ask. intros db0 a Hs. split; [done|]. apply safe_ret. intros db1 Hs1.
    eapply steps_inv; [exact Hi'|by etrans].
Qed.

Lemma runLoop_safe opts targets n past db :
  (forall t, t ∈ targets ->
    Forall (fun s => forall past db, inv db -> safe P s.1 past db (fun _ _ _ => True)) (stages opts t)) ->
  inv db -> safe P (runLoop opts targets n) past db (fun _ _ _ => True).
Proof.
  intros Hst. revert past db. induction n as [|n IH]; intros past db Hi; [by apply safe_ret|].
  apply safe_bind. eapply (safe_mono _ _ _ _ (fun _ _ db => inv db)).
  - intros [b [e|]] past' db' Hi'; [by apply safe_ret|]. destruct b; [by apply IH|].
    apply safe_ask. intros db0 [e|] Hs; (split; [done|]); [by apply safe_ret|]. apply IH. by eapply steps_inv.
  - unfold processOnce. generalize false. clear IH n. revert past db Hi.
    induction targets as [|t targets IH]; intros past db Hi b; cbn [process_targets].
    + apply safe_ret. intros db0 Hs. by eapply steps_inv.
    + apply safe_bind. eapply safe_mono; [|apply run_stages_safe; [|exact Hi]].
      2: { apply Hst. constructor. }
      intros [b'|e] past' db' Hi'; cbn.
      * apply IH; [|done]. intros. apply Hst. by constructor.
      * intros db0 Hs. by eapply steps_inv.
Qed.
End loop.

(** C4: whatever the RPC endpoints, the signer, other workers and the database do, and however
    often a call fails or the process stops, every transaction the loop hands to an RPC client
    is at that moment the decoded bytes of a durable attempt of a row of that chain, whose
    broadcast has already been counted: nothing is ever sent that a restart would not know. *)
Theorem sent_is_persisted opts targets n db tr db' r chain tx answer dbe :
  reachable db -> behaves (runLoop opts targets n) db tr db' r ->
  EvAsk (Rpc _ chain (RSend tx)) answer dbe ∈ tr -> persisted chain tx dbe.
Proof.
  intros Hr Hb (tr1 & tr2 & ->)%list_elem_of_split.
  refine (safe_event sends_persisted _ db (fun _ _ _ => True) _ _ _ _ _ _ Hb).
  apply runLoop_safe; [done| |by apply reachable_inv]. intros. apply stages_safe.
Qed.

(** Any routine refines the store's step system, with other workers interleaved, calls failing
    before or after their commit and the process stopping anywhere: the tables at each of its
    actions and at the end are reachable ones, so every invariant of the store holds whenever a
    routine acts. *)
Lemma behaves_reachable {A} (p : proc query A) db tr db' r :
  reachable db -> behaves p db tr db' r ->
  reachable db' /\ forall e, e ∈ tr -> reachable (event_db e) /\ rtc step (event_db e) db'.
Proof.
  intros (ini & Hini & Hs) Hb. split.
  - exists ini. split; [done|]. etrans; [exact Hs|by eapply behaves_steps].
  - intros e He. destruct (behaves_event _ _ _ _ _ _ Hb He) as [H1 H2]. split; [|done].
    exists ini. split; [done|]. by etrans.
Qed.
End proofs.

Definition sample_sent : Transaction := mkTx 2 1234 3 21000 (Some 31337) 100 1 (Some 99) (Some 0) [] [Byte.x01].

Lemma sent_is_persisted_witness :
  send_run.1.1 !! 6%nat = Some (EvAsk (Rpc _ 7 (RSend sample_sent)) None (db_at send_run.1.1 6)) /\
  persisted 7 sample_sent (db_at send_run.1.1 6).
Proof.
  assert (send_run.1.1 !! 6%nat = Some (EvAsk (Rpc _ 7 (RSend sample_sent)) None (db_at send_run.1.1 6))) as E
    by (vm_compute; reflexivity).
  split; [exact E|].
  apply (sent_is_persisted sample_options [sample_target] 1 db0 send_run.1.1 send_run.1.2 (Some send_run.2) 7
    sample_sent None).
  - apply run_reachable.
  - exact send_run_behaves.
  - exact (list_elem_of_lookup_2 _ _ _ E).
Defined.
