(* ===== verification/TxMgrOutcome.v ===== *)
(** * Receipts and reconciliation of the transaction manager

    Given any answers from outside and any interleaving: what must have been
    observed before a receipt is pinned or finalized, and before a hold is
    marked as externally consumed. *)

From S2P Require Import Prelude GoErr Classify Schema SendScope Outbox Attempts CancelReconcile Jobs StoreInv Store.
From S2P Require Import StoreOps Quorum QuorumLogs BigUtil Proc TxMgr TxMgrSample TxMgrProofs.
From stdpp Require Import base gmap list strings numbers sorting relations.
From Stdlib Require Import ZArith Lia.
#[local] Open Scope Z_scope.

Section outcome.
Context `{TxLib}.

(** The answer [a] was given to [q] earlier. *)
Definition answered {R} (past : list (event query)) (q : query R) (a : R) : Prop :=
  exists db, EvAsk q a db ∈ past.

Lemma answered_prefix {R} past past' (q : query R) a :
  past `prefix_of` past' -> answered past q a -> answered past' q a.
Proof. intros [l ->] [db Hin]. exists db. apply elem_of_app. by left. Qed.
Lemma answered_last {R} past (q : query R) a db : answered (past ++ [EvAsk q a db]) q a.
Proof. exists db. apply elem_of_app. right. by apply list_elem_of_singleton. Qed.
Lemma answered_app {R} past l (q : query R) a : answered past q a -> answered (past ++ l) q a.
Proof. apply answered_prefix. by exists l. Qed.

(** ** Receipts *)

(** A receipt with facts [f] was read, buried under the target's confirmations, and its block
    is the canonical one at its height. *)
Definition settled (t : Target) (past : list (event query)) (f : TxReceiptFacts) : Prop :=
  exists receipt hash head n,
    answered past (Rpc _ (tg_ChainEID t) (RReceipt hash None)) (Ok receipt) /\
    txReceiptFacts receipt = Ok f /\ rc_BlockNumber receipt = Some n /\
    answered past (Rpc _ (tg_ChainEID t) RHeader) (Ok (Some head)) /\
    n + tg_Confirmations t <= hd_Number head /\
    answered past (Rpc _ (tg_ChainEID t) (RCanonicalHash n)) (Ok (rc_BlockHash receipt)).

Definition terminal_settled (t : Target) (past : list (event query)) (e : event query) : Prop :=
  match e with
  | EvStore (Some (OpPrepareReceipt _ f)) _ | EvStore (Some (OpFinalizeReceipt _ f _)) _ =>
    0 < tg_Confirmations t -> settled t past f
  | _ => True
  end.

Definition any_query (R : Type) (_ : query R) : Prop := True.
Definition not_terminal_op (op : option store_op) : Prop :=
  match op with Some (OpPrepareReceipt _ _) | Some (OpFinalizeReceipt _ _ _) => False | _ => True end.

Lemma calm_safe t {A} (p : proc query A) past db :
  only any_query not_terminal_op p -> safe (terminal_settled t) p past db (fun _ _ _ => True).
Proof.
  apply only_safe; [|done]. intros past' op db' HT. cbn. destruct op as [[]|]; done.
Qed.

Lemma workflow_calm o txHash success :
  only any_query not_terminal_op (applyWorkflowReceipt o txHash success) /\
  only any_query not_terminal_op (applyWorkflowCancel o).
Proof.
  unfold applyWorkflowReceipt, applyWorkflowCancel, markExecutorReceipt, markDVNReceipt, markReceipt,
    executorStatusMatches, dvnStatusMatches. split; quiet.
Qed.

#[local] Hint Resolve answered_last answered_app : core.

Lemma canonical_safe t receipt past db :
  safe (terminal_settled t) (receiptOnCanonicalChain t receipt) past db (fun r past' _ =>
    0 < tg_Confirmations t -> r = Ok true -> exists n, rc_BlockNumber receipt = Some n /\
      answered past' (Rpc _ (tg_ChainEID t) (RCanonicalHash n)) (Ok (rc_BlockHash receipt))).
Proof.
  unfold receiptOnCanonicalChain. case_decide; [apply safe_ret; lia|].
  destruct (rc_BlockNumber receipt) as [n|]; [|by apply safe_ret].
  apply safe_callE; [done| |by intros; apply safe_ret].
  intros db0 h _. apply safe_ret. intros db1 _ _ [= E%bool_decide_eq_true]. subst h. eauto.
Qed.

(** A receipt found was answered for that attempt's hash. *)
Definition found_answered (t : Target) (past : list (event query))
    (r : result mgrerr (option (Receipt * (Z * AttemptRow)))) : Prop :=
  match r with
  | Ok (Some (receipt, w)) =>
    answered past (Rpc _ (tg_ChainEID t) (RReceipt (attempt_hash w) None)) (Ok receipt)
  | _ => True
  end.

Lemma pinned_safe t task past db :
  safe (terminal_settled t) (pinned_receipt t task) past db (fun r past' _ => found_answered t past' r).
Proof.
  unfold pinned_receipt. destruct (head _) as [w|]; [|by apply safe_ret].
  apply safe_ask. intros db0 [receipt|e] _; (split; [done|]); apply safe_ret; cbn; auto.
Qed.

Lemma scan_safe t attempts past db :
  safe (terminal_settled t) (scan_attempts t attempts) past db (fun r past' _ => found_answered t past' r).
Proof.
  revert past db. induction attempts as [|w attempts IH]; intros past db; [by apply safe_ret|].
  cbn [scan_attempts]. apply safe_ask. intros db0 [receipt|e] _; (split; [done|]); [|apply IH].
  case_decide; [|by apply safe_ret]. case_decide; [|apply safe_ret; cbn; auto].
  apply safe_bind. eapply safe_mono; [|apply safe_prefix, canonical_safe].
  intros [[]|e] past' db' [_ Hp]; [|apply IH..]. apply safe_ret. intros _ _.
  eapply answered_prefix; [exact Hp|apply answered_last].
Qed.

(** A cached head was answered. *)
Definition head_answered (t : Target) (past : list (event query)) (head : option Header) : Prop :=
  forall h, head = Some h -> answered past (Rpc _ (tg_ChainEID t) RHeader) (Ok (Some h)).

(** What the gate has seen when it opens. *)
Definition gate_passed (t : Target) (past : list (event query)) (receipt : Receipt) : Prop :=
  0 < tg_Confirmations t -> exists head n,
    answered past (Rpc _ (tg_ChainEID t) RHeader) (Ok (Some head)) /\
    rc_BlockNumber receipt = Some n /\ n + tg_Confirmations t <= hd_Number head /\
    answered past (Rpc _ (tg_ChainEID t) (RCanonicalHash n)) (Ok (rc_BlockHash receipt)).

Lemma receiptConfirmed_true head receipt confirmations :
  receiptConfirmed head receipt confirmations = Ok true ->
  exists h n, head = Some h /\ rc_BlockNumber receipt = Some n /\ n + confirmations <= hd_Number h.
Proof.
  unfold receiptConfirmed. destruct head as [h|]; [|done]. case_decide; [|done].
  destruct (rc_BlockNumber receipt) as [n|]; [|done]. case_decide; [|done]. case_decide; [done|].
  intros [= E%bool_decide_eq_true]. exists h, n. split_and!; auto; lia.
Qed.

Lemma gate_confirm_safe t id head receipt past db :
  head_answered t past head ->
  safe (terminal_settled t)
    (andThen (pure (receiptConfirmed head receipt (tg_Confirmations t))) (fun confirmed =>
      if confirmed : bool then
        proc_bind (receiptOnCanonicalChain t receipt) (fun onCanonical =>
        match onCanonical with
        | Ok true => Ret (Ok (head, true))
        | Ok false | Err _ => Ret (Ok (head, false))
        end)
      else andThen (storeE (cRefresh id)) (fun _ => Ret (Ok (head, false))))) past db
    (fun r past' _ => forall head' b, r = Ok (head', b) ->
      head_answered t past' head' /\ (b = true -> gate_passed t past' receipt)).
Proof.
  intros Hh. apply safe_pure; [|by intros; apply safe_ret]. intros [] Hc.
  - apply receiptConfirmed_true in Hc as (h & n & -> & Hn & Hle).
    apply safe_bind. eapply safe_mono; [|apply safe_prefix, canonical_safe].
    intros r past' db' [Hcan Hp]. assert (head_answered t past' (Some h)) as Hh'.
    { intros h' [= <-]. eapply answered_prefix; [exact Hp|auto]. }
    destruct r as [[]|]; apply safe_ret; intros _ _ head' b [= <- <-]; (split; [done|]); [|done..].
    intros _ Hpos. destruct (Hcan Hpos eq_refl) as (n' & Hn' & Hans). exists h, n.
    assert (n' = n) as -> by congruence. eauto.
  - apply safe_storeE; [done| |by intros; apply safe_ret].
    intros db0 db1 env [] _ _. apply safe_ret. intros _ _ head' b [= <- <-]. split; [|done].
    intros h ->. apply answered_app. auto.
Qed.

Lemma gate_safe t id head receipt past db :
  head_answered t past head ->
  safe (terminal_settled t) (terminal_gate t id head receipt) past db
    (fun r past' _ => forall head' b, r = Ok (head', b) ->
      head_answered t past' head' /\ (b = true -> gate_passed t past' receipt)).
Proof.
  intros Hh. unfold terminal_gate. case_decide.
  2: { apply safe_ret. intros _ _ head' b [= <- <-]. split; [done|]. intros _ Hpos. lia. }
  destruct head as [h|]; [by apply (gate_confirm_safe t id (Some h))|].
  apply safe_callE; [done| |by intros; apply safe_ret]. intros db0 h _. apply gate_confirm_safe.
  intros h' ->. auto.
Qed.

Lemma settled_prefix t past past' f : past `prefix_of` past' -> settled t past f -> settled t past' f.
Proof.
  intros Hp (receipt & hash & head & n & H1 & H2 & H3 & H4 & H5 & H6).
  exists receipt, hash, head, n. split_and!; eauto using answered_prefix.
Qed.

Lemma terminalize_safe t o winning receipt past db :
  (forall f, txReceiptFacts receipt = Ok f -> 0 < tg_Confirmations t -> settled t past f) ->
  safe (terminal_settled t) (terminalize o winning receipt) past db (fun _ _ _ => True).
Proof.
  intros Hset. apply safe_pure; [|by intros; apply safe_ret]. intros f Hf. specialize (Hset f Hf).
  apply safe_bind.
  apply (safe_mono _ _ _ _ (fun _ past' _ => past `prefix_of` past')).
  - intros [oc|e] past' db' Hp; [|destruct e; by apply safe_ret].
    apply safe_andThen. eapply safe_mono; [|apply safe_prefix, calm_safe].
    2: { destruct oc; apply (workflow_calm o (attempt_hash winning)); exact true. }
    intros [[]|e] past2 db2 [_ Hp2]; [|by apply safe_ret].
    apply safe_storeE; [|by intros; apply safe_ret..]. intros db3 env _ Hpos.
    eapply settled_prefix; [|by apply Hset]. by etrans.
  - destruct (t_ReceiptOutcome o) as [oc|]; [by apply safe_ret|].
    intros db0 _ env. split; [exact Hset|]. intros db1 res _ db2 _. by apply prefix_app_r.
Qed.

Lemma process_task_safe t head task past db :
  head_answered t past head ->
  safe (terminal_settled t) (process_task t head task) past db (fun r past' _ =>
    forall head' b, r = Ok (head', b) -> head_answered t past' head').
Proof.
  intros Hh. apply safe_andThen.
  eapply (safe_mono _ _ _ _ (fun r past' _ => found_answered t past' r /\ past `prefix_of` past')).
  2: { apply safe_prefix. destruct (t_ReceiptOutcome _); [apply pinned_safe|apply scan_safe]. }
  intros [found|e] past1 db1 [Hf Hp1]; [|by apply safe_ret].
  apply safe_storeE; [done| |by intros; apply safe_ret]. intros db2 db3 env [] _ _.
  assert (head_answered t (past1 ++ [EvStore (sc_op (cTouchPoll (q_ID (t_queued (r_Outbox task)))) env) db2]) head) as Hh'.
  { intros h ->. apply answered_app. eapply answered_prefix; [exact Hp1|auto]. }
  destruct found as [[receipt w]|]; [|apply safe_ret; intros _ _ ? ? [= <- <-]; done].
  apply safe_andThen. eapply safe_mono; [|apply safe_prefix, gate_safe, Hh'].
  intros [[head' []]|e] past4 db4 [Hg Hp4]; [| |by apply safe_ret].
  - destruct (Hg head' true eq_refl) as [Hha Hgate]. cbn [fst snd]. apply safe_andThen.
    eapply safe_mono; [|apply safe_prefix, terminalize_safe].
    + intros [b|e] past5 db5 [_ Hp5]; apply safe_ret; [|done]. intros _ _ ? ? [= <- <-] h ->.
      eapply answered_prefix; [exact Hp5|auto].
    + intros f Hfacts Hpos. destruct (Hgate eq_refl Hpos) as (hd & n & H1 & H2 & H3 & H4).
      exists receipt, (attempt_hash w), hd, n. split_and!; auto.
      eapply answered_prefix; [exact Hp4|]. by apply answered_app.
  - apply safe_ret. intros _ _ ? ? [= <- <-]. by apply (Hg head' false).
Qed.

Lemma process_tasks_safe t tasks head past db :
  head_answered t past head ->
  safe (terminal_settled t) (process_tasks t head tasks) past db (fun _ _ _ => True).
Proof.
  revert head past db. induction tasks as [|task tasks IH]; intros head past db Hh; [by apply safe_ret|].
  apply safe_andThen. eapply safe_mono; [|by apply process_task_safe].
  intros [[head' []]|e] past' db' Hp; [by apply safe_ret| |by apply safe_ret]. apply IH. by eapply Hp.
Qed.

(** C16: before ProcessReceipts pins or finalizes a receipt on a chain with a confirmation depth,
    that very receipt was answered, a head at least that many blocks above it was answered, and
    the canonical hash at its height was answered as its own block hash: an unconfirmed or
    reorganized receipt never settles a row. *)
Theorem receipt_settled_before_terminal t limit db tr1 op dbe tr2 db' r f :
  behaves (ProcessReceipts t limit) db (tr1 ++ EvStore (Some op) dbe :: tr2) db' r ->
  (exists aid, op = OpPrepareReceipt aid f) \/ (exists aid now, op = OpFinalizeReceipt aid f now) ->
  0 < tg_Confirmations t -> settled t tr1 f.
Proof.
  intros Hb Hop. enough (terminal_settled t tr1 (EvStore (Some op) dbe)) as HP.
  { destruct Hop as [[aid ->]|(aid & now & ->)]; exact HP. }
  refine (safe_event (terminal_settled t) _ db (fun _ _ _ => True) _ _ _ _ _ _ Hb).
  apply safe_pure; [intros cs _|by intros; apply safe_ret].
  apply safe_storeE; [done| |by intros; apply safe_ret]. intros db0 db1 env tasks _ _.
  by apply process_tasks_safe.
Qed.

(** ** Reconciliation *)

(** At [block] nothing was mined under [hash]: a quorum did not find it, or its receipt is on a
    block that is not canonical. *)
Definition unmined (t : Target) (block : Z) (past : list (event query)) (hash : Hash) : Prop :=
  (exists e, errors_Is e NotFound = true /\
     answered past (Rpc _ (tg_ChainEID t) (RReceipt hash (Some block))) (Err e)) \/
  (exists receipt n h, answered past (Rpc _ (tg_ChainEID t) (RReceipt hash (Some block))) (Ok receipt) /\
     rc_BlockNumber receipt = Some n /\ h <> rc_BlockHash receipt /\
     answered past (Rpc _ (tg_ChainEID t) (RCanonicalHash n)) (Ok h)).

Lemma unmined_prefix t block past past' hash :
  past `prefix_of` past' -> unmined t block past hash -> unmined t block past' hash.
Proof.
  intros Hp [(e & He & Ha)|(receipt & n & h & H1 & H2 & H3 & H4)]; [left|right].
  - eauto using answered_prefix.
  - exists receipt, n, h. split_and!; eauto using answered_prefix.
Qed.

(** The pass's claim listed the row [id] of the signer's lane as held for reconciliation at [nonce]. *)
Definition claimed_hold (t : Target) (signer : Address) (token : uuid) (past : list (event query)) (id nonce : Z) : Prop :=
  exists ttl snapshot dbc o,
    EvStore (Some (OpClaimReconcile (tg_ChainEID t) (AddressHex signer) token ttl snapshot)) dbc ∈ past /\
    tx_outbox snapshot !! id = Some o /\ o_nonce o = Some nonce /\
    o_chain_eid o = tg_ChainEID t /\ o_signer_id o = AddressHex signer /\ o_status o = TxStatusHeld /\
    o_held_reason o = Some HeldNonceReconcileRequired /\ o_receipt_outcome o = None.

Lemma claimed_hold_prefix t signer token past past' id nonce :
  past `prefix_of` past' -> claimed_hold t signer token past id nonce -> claimed_hold t signer token past' id nonce.
Proof.
  intros [l ->] (ttl & snapshot & dbc & o & Hin & Ho). exists ttl, snapshot, dbc, o.
  split; [apply elem_of_app; by left|done].
Qed.

(** The newest block the target's confirmation depth below a reported head (block 0 under a shorter
    chain). *)
Definition confirmed_under (t : Target) (past : list (event query)) (block : Z) : Prop :=
  exists head, answered past (Rpc _ (tg_ChainEID t) RHeader) (Ok (Some head)) /\
    block = Z.max 0 (hd_Number head - Z.max 0 (tg_Confirmations t)).

Lemma confirmed_under_prefix t past past' block :
  past `prefix_of` past' -> confirmed_under t past block -> confirmed_under t past' block.
Proof. intros Hp (head & Ha & Hb). exists head. split; [by eapply answered_prefix|done]. Qed.

(** What a pass must have read before it writes a row off. *)
Definition written_off (t : Target) (past : list (event query)) (chain : Z) (signerID : string) (token : uuid)
    (nonce block id : Z) : Prop :=
  exists signer n dbr,
    tg_Signer t = Some signer /\ chain = tg_ChainEID t /\ signerID = AddressHex signer /\
    claimed_hold t signer token past id n /\ n < nonce /\ confirmed_under t past block /\
    answered past (Rpc _ (tg_ChainEID t) (RNonceAt signer
      (if decide (0 < tg_Confirmations t) then Some block else None))) (Ok nonce) /\
    EvStore None dbr ∈ past /\
    forall aid a, tx_attempts dbr !! aid = Some a -> a_outbox_id a = id ->
      sent a -> unmined t block past (BytesToHash (a_tx_hash a)).

(** An external mark in a published pass is backed by the answers of that pass. *)
Definition external_backed (t : Target) (past : list (event query)) (e : event query) : Prop :=
  match e with
  | EvStore (Some (OpApplyReconcile chain signerID token nonce block _ ds _)) _ =>
    forall d, d ∈ ds -> d_Action d = NonceReconcileMarkExternal ->
    written_off t past chain signerID token nonce block (d_ID d)
  | _ => True
  end.

Lemma probe_hash_safe t block hash past db :
  safe (external_backed t) (probe_hash t block hash) past db
    (fun r past' _ => r = ProbeNone -> unmined t block past' hash).
Proof.
  apply safe_ask. intros db0 [receipt|e] _; (split; [done|]).
  - unfold receiptOnCanonicalChain. case_decide; [by apply safe_ret|].
    destruct (rc_BlockNumber receipt) as [n|] eqn:En; [|by apply safe_ret].
    apply safe_ask. intros db1 [h|e] _; (split; [done|]); apply safe_ret; [|done]. intros _ _.
    cbn. case_bool_decide; [done|]. intros _. right. exists receipt, n, h. split_and!; auto.
  - apply safe_ret. intros _ _. destruct (errors_Is e NotFound) eqn:Ee; [|done]. left. eauto.
Qed.

Lemma probe_hashes_safe t block hashes past db :
  safe (external_backed t) (probe_hashes t block hashes) past db
    (fun r past' _ => r = ProbeNone -> forall hash, hash ∈ hashes -> unmined t block past' hash).
Proof.
  revert past db. induction hashes as [|hash hashes IH]; intros past db.
  - apply safe_ret. intros _ _ _ hash []%not_elem_of_nil.
  - apply safe_bind. eapply safe_mono; [|apply probe_hash_safe]. intros p past1 db1 Hp.
    apply safe_bind. eapply safe_mono; [|apply safe_prefix, IH]. intros rest past2 db2 [Hr Hpre].
    apply safe_ret. intros _ _. destruct p; [|by destruct rest..]. destruct rest; [|done..].
    intros _ h [-> | Hin]%elem_of_cons; [|by apply Hr].
    eapply unmined_prefix; [exact Hpre|by apply Hp].
Qed.

Lemma probe_holds_safe t block hashes holds past db :
  safe (external_backed t) (probe_holds t block hashes holds) past db
    (fun r past' _ => forall hold, (hold, ProbeNone) ∈ r -> hold ∈ holds /\
      forall hash, hash ∈ default [] (hashes !! h_ID hold) -> unmined t block past' hash).
Proof.
  revert past db. induction holds as [|hold holds IH]; intros past db.
  - apply safe_ret. intros _ _ hold []%not_elem_of_nil.
  - apply safe_bind. eapply safe_mono; [|apply probe_hashes_safe]. intros p past1 db1 Hp.
    apply safe_bind. eapply safe_mono; [|apply safe_prefix, IH]. intros rest past2 db2 [Hr Hpre].
    apply safe_ret. intros _ _ h [[= -> <-] | Hin]%elem_of_cons.
    + split; [constructor|]. intros hash Hh. eapply unmined_prefix; [exact Hpre|by apply Hp].
    + destruct (Hr _ Hin). split; [by constructor|done].
Qed.

Lemma decide_hold_external nonce hp d :
  decide_hold nonce hp = Some d -> d_Action d = NonceReconcileMarkExternal ->
  hp.2 = ProbeNone /\ d_ID d = h_ID hp.1 /\ h_Nonce hp.1 < nonce.
Proof.
  unfold decide_hold. destruct hp as [hold []]; cbn; [|done..]. case_decide.
  - by intros [= <-].
  - case_decide; [done|]. by intros [= <-].
Qed.

(** Every hash of a sent attempt of a listed row is loaded. *)
Lemma load_hashes_complete db ids id aid a :
  id ∈ ids -> tx_attempts db !! aid = Some a -> a_outbox_id a = id -> sent a ->
  BytesToHash (a_tx_hash a) ∈ default [] (LoadNonceReconcileAttemptHashes db ids !! id).
Proof.
  intros Hid Ha Hown Hs. unfold LoadNonceReconcileAttemptHashes.
  assert (BytesToHash (a_tx_hash a) ∈ attemptPollHashes db id) as Hin.
  { apply list_elem_of_fmap. exists (aid, a). split; [done|]. by apply elem_of_select_attempts. }
  assert ((list_to_map ((fun i => (i, attemptPollHashes db i)) <$> ids) : gmap Z (list Hash)) !! id =
    Some (attemptPollHashes db id)) as Hlk.
  { clear Hs Hin. induction ids as [|j ids IH]; [by apply not_elem_of_nil in Hid|]. cbn.
    destruct (decide (j = id)) as [->|Hne]; [by rewrite lookup_insert_eq|]. rewrite lookup_insert_ne by done.
    apply IH. by apply elem_of_cons in Hid as [-> | ?]. }
  rewrite (proj2 (map_lookup_filter_Some _ _ id (attemptPollHashes db id))); [done|].
  split; [done|]. cbn. intros E. rewrite E in Hin. by apply not_elem_of_nil in Hin.
Qed.

Lemma confirmed_block_max head confirmations : 0 <= head ->
  confirmed_block head confirmations = Z.max 0 (head - Z.max 0 confirmations).
Proof. intros Hh. unfold confirmed_block. repeat case_decide; lia. Qed.

Lemma mapM_result_elem {A B} (f : A -> result dberr B) l out b :
  mapM_result f l = Ok out -> b ∈ out -> exists a, a ∈ l /\ f a = Ok b.
Proof.
  revert out. induction l as [|a l IH]; intros out; cbn.
  - intros [= <-] []%elem_of_nil.
  - destruct (f a) as [x|] eqn:E1; cbn; [|done]. destruct (mapM_result f l) as [out'|] eqn:E2; cbn; [|done].
    intros [= <-] [->|Hb]%elem_of_cons; [exists a; split; [by left|done]|].
    destruct (IH _ eq_refl Hb) as (a' & Ha' & Hf). exists a'. split; [by right|done].
Qed.

(** The holds a claim returns are the lane's held rows. *)
Lemma claim_holds t signer token ttl env db db' holds past :
  sc_run (cClaimReconcile (tg_ChainEID t) (AddressHex signer) token ttl) env db = (db', Ok holds) ->
  forall hold, hold ∈ holds -> claimed_hold t signer token
    (past ++ [EvStore (sc_op (cClaimReconcile (tg_ChainEID t) (AddressHex signer) token ttl) env) db]) (h_ID hold) (h_Nonce hold).
Proof.
  cbn. unfold ClaimNonceReconciliation. intros Hrun hold Hin. case_decide; [|done].
  destruct (select_holds (ce_snapshot env) _ _) as [holds'|] eqn:Hsel; cbn in Hrun; [|done].
  case_decide; [|done]. destruct (tx_nonce_cursors db !! _) as [cursor|]; [|done]. case_decide; [|done]. injection Hrun as _ ->.
  destruct (mapM_result_elem _ _ _ _ Hsel Hin) as ([id o] & Hx & Hscan).
  rewrite (merge_sort_Permutation nonce_le) in Hx. apply elem_of_select_outbox in Hx as [Ho ((Hc & Hs) & Hst & Hr & Hn)].
  unfold scan_hold in Hscan. cbn in *. destruct (o_nonce o) as [held|] eqn:En; [|done]. case_decide; [|done].
  injection Hscan as <-. cbn. exists ttl, (ce_snapshot env), db, o. split_and!; try done.
  apply elem_of_app. right. by apply list_elem_of_singleton.
Qed.

Lemma reconcile_pass_safe opts t signer token holds past db :
  tg_Signer t = Some signer -> (forall hold, hold ∈ holds -> claimed_hold t signer token past (h_ID hold) (h_Nonce hold)) ->
  safe (external_backed t) (reconcile_pass opts t signer token holds) past db (fun _ _ _ => True).
Proof.
  intros Hsigner Hclaim. apply safe_storeE; [done| |by intros; apply safe_ret]. intros dbr dbr' env hashes _ [= _ <-].
  apply safe_callE; [done| |by intros; apply safe_ret]. intros db1 [hd|] _; [|by apply safe_ret].
  case_decide as Hrange; [|by apply safe_ret]. rewrite confirmed_block_max by lia. set (block := Z.max 0 _).
  assert (confirmed_under t ((past ++ [EvStore (sc_op (readCall (fun _ db0 => Ok (LoadNonceReconcileAttemptHashes db0
    (h_ID <$> holds)))) env) dbr]) ++ [EvAsk (Rpc _ (tg_ChainEID t) RHeader) (Ok (Some hd)) db1]) block) as Hblock.
  { exists hd. split; [apply answered_last|done]. }
  apply safe_callE; [done| |by intros; apply safe_ret]. intros db2 nonce _.
  apply safe_bind. eapply safe_mono; [|apply safe_prefix, probe_holds_safe]. intros probed past' db' [Hpr Hpre].
  apply safe_ask. intros db3 [] _; (split; [done|]); [by apply safe_ret|].
  apply safe_store. intros db4 db5 env4 res _. split.
  2: { intros _. destruct res as [|[]]; by apply safe_ret. }
  cbn. intros d ([hold p] & Hin & Hd)%list_elem_of_omap Hact.
  apply decide_hold_external in Hd as (Hp & Hid & Hn); [|done]. cbn in Hp, Hid, Hn. subst p.
  destruct (Hpr hold Hin) as [Hhold Hun]. exists signer, (h_Nonce hold), dbr. split_and!; [done|done|done| |done| | | |].
  - rewrite Hid. eapply claimed_hold_prefix; [|by apply Hclaim]. destruct Hpre as [l ->]. rewrite <- !app_assoc. by eexists.
  - eapply confirmed_under_prefix; [|exact Hblock]. destruct Hpre as [l ->]. by do 3 apply prefix_app_r.
  - apply answered_app. eapply answered_prefix; [exact Hpre|]. apply answered_last.
  - apply elem_of_app. left. destruct Hpre as [l ->]. rewrite !elem_of_app. do 3 left. right.
    by apply list_elem_of_singleton.
  - intros aid a Ha Hown Hs. eapply unmined_prefix; [by exists [EvAsk HeartbeatLost false db3]|].
    apply Hun. rewrite <- Hid. eapply load_hashes_complete; [|exact Ha|done|done].
    rewrite Hid. apply list_elem_of_fmap. eauto.
Qed.

Lemma validateTarget_signer t cs : validateTarget t = Ok cs -> tg_Signer t = Some cs.2.
Proof.
  unfold validateTarget. destruct (tg_ChainID t); [|done]. case_decide; [|done].
  destruct (tg_Signer t); [|done]. destruct (tg_Client t); [|done]. by intros [= <-].
Qed.

(** C17: when a reconciliation pass marks a hold as consumed outside, the row is one its claim listed in the signer's lane as
    held for reconciliation, the account nonce the pass publishes was read for the target's signer at the block the target's
    confirmation depth below the head it read, and lies above the row's nonce, and every attempt of that row which may have
    reached a node was looked up at that same block and found neither mined nor on the canonical chain: the row's own
    transaction is never written off. *)
Theorem external_mark_is_backed opts t db tr1 tr2 db' r chain signerID token nonce block backoff ds obs dbe d :
  behaves (ProcessNonceReconciliation opts t) db
    (tr1 ++ EvStore (Some (OpApplyReconcile chain signerID token nonce block backoff ds obs)) dbe :: tr2) db' r ->
  d ∈ ds -> d_Action d = NonceReconcileMarkExternal -> written_off t tr1 chain signerID token nonce block (d_ID d).
Proof.
  intros Hb. refine (safe_event (external_backed t) _ db (fun _ _ _ => True) _ _ _ _ _ _ Hb d).
  apply safe_pure; [intros cs Hcs%validateTarget_signer|by intros; apply safe_ret].
  apply safe_ask. intros db0 tok _. split; [done|].
  apply safe_storeE; [done| |by intros; apply safe_ret]. intros db1 db2 env holds _ Hrun.
  apply safe_bind. eapply safe_mono; [|apply reconcile_pass_safe; [done|by eapply claim_holds]]. intros res past3 db3 _.
  destruct res as [[result|]|e]; [by apply safe_ret| |];
    (apply safe_store; intros; split; [done|]; intros _; by apply safe_ret).
Qed.
End outcome.

Definition sample_settled : TxReceiptFacts := mkTxReceiptFacts 1234 1 50 21000 (Some 6) (Some 126000).

Lemma receipt_settled_before_terminal_witness :
  receipt_run.1.1 !! 6%nat = Some (EvStore (Some (OpPrepareReceipt 1 sample_settled)) (db_at receipt_run.1.1 6)) /\
  settled sample_target (take 6 receipt_run.1.1) sample_settled.
Proof.
  assert (receipt_run.1.1 !! 6%nat =
    Some (EvStore (Some (OpPrepareReceipt 1 sample_settled)) (db_at receipt_run.1.1 6))) as E
    by (vm_compute; reflexivity).
  split; [exact E|].
  apply (receipt_settled_before_terminal sample_target 1 db1 (take 6 receipt_run.1.1) (OpPrepareReceipt 1 sample_settled)
    (db_at receipt_run.1.1 6) (drop 7 receipt_run.1.1) receipt_run.1.2 (Some receipt_run.2) sample_settled).
  - exact (split_at _ _ _ _ _ _ _ receipt_run_behaves E).
  - left. exists 1. reflexivity.
  - reflexivity.
Defined.

Lemma external_mark_is_backed_witness :
  reconcile_run.1.1 !! 7%nat = Some (EvStore (Some (OpApplyReconcile 7 "s" 600 9 88 (60 * seconds)
    [mkDecision 1 NonceReconcileMarkExternal] "")) (db_at reconcile_run.1.1 7)) /\
  written_off sample_target (take 7 reconcile_run.1.1) 7 "s" 600 9 88 1.
Proof.
  assert (reconcile_run.1.1 !! 7%nat = Some (EvStore (Some (OpApplyReconcile 7 "s" 600 9 88 (60 * seconds)
    [mkDecision 1 NonceReconcileMarkExternal] "")) (db_at reconcile_run.1.1 7))) as E by (vm_compute; reflexivity).
  split; [exact E|].
  apply (external_mark_is_backed sample_options sample_target db_held (take 7 reconcile_run.1.1)
    (drop 8 reconcile_run.1.1) reconcile_run.1.2 (Some reconcile_run.2) 7 "s" 600 9 88 (60 * seconds)
    [mkDecision 1 NonceReconcileMarkExternal] "" (db_at reconcile_run.1.1 7) (mkDecision 1 NonceReconcileMarkExternal)).
  - exact (split_at _ _ _ _ _ _ _ reconcile_run_behaves E).
  - constructor.
  - reflexivity.
Defined.
