(* ===== verification/TxMgrSigning.v ===== *)
(** * What the transaction manager signs and pays

    The bounds of a fee quote, and that every attempt the loop persists is the
    verified transaction its outbox row asked for (or the signer's own
    cancellation at the row's nonce). *)

From S2P Require Import Prelude GoErr Classify Schema SendScope Outbox Attempts CancelReconcile Jobs StoreInv StoreSteps.
From S2P Require Import Store StoreOps Quorum QuorumLogs BigUtil Proc TxMgr TxMgrSample TxMgrProofs.
From stdpp Require Import base gmap list strings numbers relations.
From Stdlib Require Import ZArith Lia.
#[local] Open Scope Z_scope.

(** ** Fees *)

Lemma bumpFee_spec v : 0 < v -> v * 110 <= bumpFee v * 100 < v * 110 + 100 /\ v < bumpFee v.
Proof.
  intros Hv. unfold bumpFee, replacementBumpNumerator, replacementBumpDenominator.
  pose proof (Z.div_mod (v * 110 + (100 - 1)) 100). pose proof (Z.mod_pos_bound (v * 110 + (100 - 1)) 100). lia.
Qed.

(** At least ten percent above a previous fee. *)
Definition outbids (fee : Z) (previous : option Z) : Prop :=
  forall p, previous = Some p -> 0 < p /\ p * 110 <= fee * 100.

Record fee_bounded (queued : QueuedOutboxTx) (policy : FeePolicy) (q : feeQuote) : Prop := {
  fb_fee : exists cap fee, ConfiguredMaxFeePerGas policy = Some cap /\ fq_MaxFeePerGas q = Some fee /\
    0 < fee <= cap /\ (q_Nonce queued <> None -> outbids fee (q_MaxFeePerGas queued));
  fb_dynamic : fq_Dynamic q = true -> exists tipCap tip fee,
    ConfiguredMaxPriorityFeePerGas policy = Some tipCap /\ fq_MaxPriorityFeePerGas q = Some tip /\
    fq_MaxFeePerGas q = Some fee /\ 0 < tip <= tipCap /\ tip <= fee /\
    (q_Nonce queued <> None -> outbids tip (q_MaxPriorityFeePerGas queued));
  fb_legacy : fq_Dynamic q = false -> fq_MaxPriorityFeePerGas q = None }.

Section signing.
Context `{TxLib}.

Definition anything (_ : list (event query)) (_ : event query) : Prop := True.

Lemma quoteLegacyFee_bounded queued policy cap chain past db :
  ConfiguredMaxFeePerGas policy = Some cap ->
  safe anything (quoteLegacyFee queued cap chain) past db (fun r _ _ => forall q, r = Ok q -> fee_bounded queued policy q).
Proof.
  intros Hcap. apply safe_callE; [done| |by intros; apply safe_ret]. intros db0 [price|] _; [|by apply safe_ret].
  case_decide; [|by apply safe_ret].
  assert (forall p past db, 0 < p -> (q_Nonce queued <> None -> outbids p (q_MaxFeePerGas queued)) ->
    safe anything (if decide (cap < p) then Ret (Err ErrTxDeferred) else Ret (Ok (mkQuote false (Some p) None)))
      past db (fun r _ _ => forall q, r = Ok q -> fee_bounded queued policy q)) as Hq.
  { intros p past' db' Hp Ho. case_decide; apply safe_ret; [done|]. intros _ _ q [= <-].
    split; cbn; [|done..]. exists cap, p. split_and!; auto; lia. }
  destruct (q_Nonce queued) as [n|]; [|apply Hq; [done|by intros []]].
  destruct (q_MaxFeePerGas queued) as [prev|]; [|by apply Hq].
  case_decide; [|by apply safe_ret]. destruct (bumpFee_spec prev) as [Hb _]; [done|].
  apply Hq; [lia|]. intros _ p [= <-]. split; lia.
Qed.

Lemma quoteDynamicFee_bounded queued policy cap baseFee chain past db :
  ConfiguredMaxFeePerGas policy = Some cap ->
  safe anything (quoteDynamicFee queued cap (ConfiguredMaxPriorityFeePerGas policy) baseFee chain) past db
    (fun r _ _ => forall q, r = Ok q -> fee_bounded queued policy q).
Proof.
  intros Hcap. unfold quoteDynamicFee. case_decide; [|by apply safe_ret].
  destruct (ConfiguredMaxPriorityFeePerGas policy) as [tipCap|] eqn:Etip; [|by apply safe_ret].
  case_decide; [|by apply safe_ret].
  apply safe_callE; [done| |by intros; apply safe_ret]. intros db0 [suggested|] _; [|by apply safe_ret].
  case_decide; [|by apply safe_ret].
  assert (forall tip feeCap past db, 0 < tip <= tipCap -> tip <= feeCap ->
    (q_Nonce queued <> None -> outbids feeCap (q_MaxFeePerGas queued) /\ outbids tip (q_MaxPriorityFeePerGas queued)) ->
    safe anything (if decide (cap < feeCap) then Ret (Err ErrTxDeferred)
                   else Ret (Ok (mkQuote true (Some feeCap) (Some tip)))) past db
      (fun r _ _ => forall q, r = Ok q -> fee_bounded queued policy q)) as Hq.
  { intros tip feeCap past' db' Htip Hle Ho. case_decide; apply safe_ret; [done|]. intros _ _ q [= <-].
    split; cbn; [|intros _|done].
    - exists cap, feeCap. split_and!; auto; try lia. intros Hn. apply Ho, Hn.
    - exists tipCap, tip, feeCap. split_and!; auto; try lia. intros Hn. apply Ho, Hn. }
  unfold previous_fees. case_bool_decide as Hprev.
  - destruct (q_MaxFeePerGas queued) as [fee|]; [|by apply safe_ret].
    destruct (q_MaxPriorityFeePerGas queued) as [prio|]; [|case_decide; by apply safe_ret].
    case_decide; [|by apply safe_ret]. case_decide; [|by apply safe_ret].
    destruct (bumpFee_spec fee) as [Hb1 _]; [done|]. destruct (bumpFee_spec prio) as [Hb2 _]; [done|].
    case_decide; [by apply safe_ret|]. apply Hq; [lia|lia|]. intros _. split; intros p [= <-]; lia.
  - apply Hq; [lia|lia|]. intros Hn. split; intros p Hp; destruct Hprev; (split; [done|]); [left|right]; congruence.
Qed.

(** C22: whatever the chain answers, a fee quote is positive and within the configured caps; a
    dynamic quote keeps the tip within its own cap and within the fee; and a replacement outbids
    the recorded fees of the attempt it replaces by at least ten percent, so that nodes accept
    it in the mempool. *)
Theorem quoteFee_bounded queued policy chain db tr db' q :
  behaves (quoteFee queued policy chain) db tr db' (Some (Ok q)) -> fee_bounded queued policy q.
Proof.
  intros Hb. refine (proj2 (safe_sound anything _ [] db
    (fun r _ _ => forall q, r = Ok q -> fee_bounded queued policy q) tr db' _ _ Hb) _ eq_refl q eq_refl).
  unfold quoteFee. destruct (ConfiguredMaxFeePerGas policy) as [cap|] eqn:Ecap; [|by apply safe_ret].
  case_decide; [|by apply safe_ret].
  apply safe_callE; [done| |by intros; apply safe_ret]. intros db0 [header|] _; [|by apply safe_ret].
  destruct (hd_BaseFee header) as [baseFee|]; [|by apply quoteLegacyFee_bounded].
  destruct (ForceLegacyTransactions policy); [by apply quoteLegacyFee_bounded|by apply quoteDynamicFee_bounded].
Qed.

(** ** Attempts *)

(** The view [t] of a claimed row is the request of row [o] with its nonce. *)
Record asks (t : OutboxTx) (o : OutboxRow) : Prop := {
  ask_to : q_To (t_queued t) = BytesToAddress (o_to_address o);
  ask_value : q_Value (t_queued t) = o_value o;
  ask_data : q_Calldata (t_queued t) = o_calldata o;
  ask_nonce : o_nonce o = Some (t_Nonce t) }.

Lemma asks_evolves t o o' : row_evolves o o' -> asks t o -> asks t o'.
Proof. intros [] []. split; try congruence. auto. Qed.

Lemma GetOutboxTx_view id db t o :
  tx_outbox db !! id = Some o -> o_nonce o <> None -> GetOutboxTx id db = Ok t ->
  q_ID (t_queued t) = id /\ asks t o.
Proof.
  intros Ho Hn. unfold GetOutboxTx. rewrite Ho. unfold toOutboxTx, toQueuedOutboxTx, mbind, result_bind.
  intros E. destruct (parseUint64 _); [|done]. destruct (o_nonce o) as [n|] eqn:En; [|done]. cbn in E.
  case_decide; [|done]. case_decide; [|done]. destruct (parseOptionalHash _); [|done].
  destruct (parseOptionalHash _); [|done]. do 3 (destruct (parseOptionalUint64 _); [|done]).
  injection E as <-. split; [done|]. by split.
Qed.

(** A claim that succeeded reads back the row it leased. *)
Definition leased_read (run : DB -> DB * result dberr OutboxTx) (id : Z) : Prop :=
  forall db db' t, run db = (db', Ok t) -> GetOutboxTx id db' = Ok t /\
    exists o', tx_outbox db' !! id = Some o' /\ o_lease_token o' <> None.

Lemma claim_signing_read id chain signerID token ttl now :
  leased_read (ClaimOutboxForSigning id chain signerID token ttl now) id.
Proof.
  intros db db' t. unfold ClaimOutboxForSigning, run_tx. case_decide; [|done].
  destruct (tx_outbox db !! id) as [o|]; [|done]. case_decide; [|done].
  destruct (claim_nonce _ _ _ _ _ _) as [[db1 o1]|]; [|done]. intros [= <- Ht]. split; [exact Ht|].
  eexists. split; [apply lookup_insert_eq|done].
Qed.

Lemma claim_replacement_read id expected token ttl now :
  leased_read (ClaimOutboxForReplacementSigning id expected token ttl now) id.
Proof.
  intros db db' t. unfold ClaimOutboxForReplacementSigning, run_tx. case_decide; [|done].
  destruct (tx_outbox db !! id) as [o|]; [|done]. do 3 (case_decide; [|done]).
  destruct (tx_attempts db !! expected); [|done]. case_decide; [|done]. intros [= <- Ht]. split; [exact Ht|].
  eexists. split; [apply lookup_insert_eq|done].
Qed.

Lemma claim_cancel_read id expected token ttl now :
  leased_read (ClaimOutboxForCancelSigning id expected token ttl now) id.
Proof.
  intros db db' t. unfold ClaimOutboxForCancelSigning, run_tx. case_decide; [|done].
  destruct (tx_outbox db !! id) as [o|]; [|done]. do 4 (case_decide; [|done]). intros [= <- Ht]. split; [exact Ht|].
  eexists. split; [apply lookup_insert_eq|done].
Qed.

(** The row [t] was read from, on [chain], at any later moment. *)
Definition row_asks (chain : Z) (t : OutboxTx) (db : DB) : Prop :=
  exists o, tx_outbox db !! q_ID (t_queued t) = Some o /\ o_chain_eid o = chain /\ asks t o.

Lemma row_asks_step chain t db db' : inv db -> rtc step db db' -> row_asks chain t db -> row_asks chain t db'.
Proof.
  intros Hi Hs (o & Ho & Hc & Ha). destruct (steps_inv _ _ Hi Hs) as [_ He].
  destruct (ev_rows _ _ He _ _ Ho) as (o' & Ho' & Ev). exists o'. split_and!; [done| |by eapply asks_evolves].
  destruct Ev. congruence.
Qed.

(** Row [id] is on [chain]. *)
Definition on_chain (chain id : Z) (db : DB) : Prop :=
  exists o, tx_outbox db !! id = Some o /\ o_chain_eid o = chain.

Lemma on_chain_step chain id db db' : inv db -> rtc step db db' -> on_chain chain id db -> on_chain chain id db'.
Proof.
  intros Hi Hs (o & Ho & Hc). destruct (steps_inv _ _ Hi Hs) as [_ He].
  destruct (ev_rows _ _ He _ _ Ho) as (o' & Ho' & []). exists o'. split; congruence.
Qed.

(** The row a successful signing-lease call [c] returns is what the database asks for. *)
Lemma leased_asks (c : store_call OutboxTx) id chain env db db' t :
  leased_read (sc_run c env) id -> inv db -> sc_run c env db = (db', Ok t) -> on_chain chain id db ->
  q_ID (t_queued t) = id /\ row_asks chain t db' /\ inv db'.
Proof.
  intros Hr Hi Hrun Hc. pose proof (call_steps c env db) as Hs. rewrite Hrun in Hs. cbn in Hs.
  pose proof (proj1 (steps_inv _ _ Hi Hs)) as Hi'.
  destruct (on_chain_step _ _ _ _ Hi Hs Hc) as (o & Ho & Hch).
  destruct (Hr _ _ _ Hrun) as (Hget & o' & Ho' & Hl). assert (o' = o) as -> by congruence.
  assert (o_nonce o <> None) as Hn by (apply (row_assigned _ _ _ _ (inv_rows _ Hi' _ _ Ho)); auto).
  destruct (GetOutboxTx_view id db' t o Ho Hn Hget) as [Hid Ha]. split_and!; [done| |done].
  exists o. by rewrite Hid.
Qed.

(** Attempt [a] carries a transaction signed by [signer] for the chain id and the nonce of row
    [o], with the request of the row or, for a cancel, a bare transfer of zero to the signer. *)
Definition attempt_matches (chainID : Z) (signer : Address) (o : OutboxRow) (a : SignedAttempt) : Prop :=
  exists tx,
    MarshalBinary tx = Ok (s_RawTx a) /\ tx_Hash tx = s_TxHash a /\ s_Nonce a = tx_Nonce tx /\
    Sender chainID tx = Ok signer /\ tx_ChainId tx = Some chainID /\ o_nonce o = Some (tx_Nonce tx) /\
    if decide (s_Kind a = TxAttemptCancel)
    then tx_To tx = Some signer /\ tx_Value tx = Some 0 /\ tx_Data tx = []
    else tx_To tx = Some (BytesToAddress (o_to_address o)) /\ tx_Value tx = Some (o_value o) /\
         tx_Data tx = o_calldata o.

Definition inserts_verified (targets : list Target) (_ : list (event query)) (e : event query) : Prop :=
  match e with
  | EvStore op db => forall id a, insert_of op = Some (id, a) ->
    exists t chainID signer o, t ∈ targets /\ validateTarget t = Ok (chainID, signer) /\
      tx_outbox db !! id = Some o /\ o_chain_eid o = tg_ChainEID t /\ attempt_matches chainID signer o a
  | _ => True
  end.

(** What the verified common fields say. *)
Lemma verifyCommon_ok signed chainID signer nonce gas quote :
  verifySignedTxCommon signed chainID signer nonce gas quote = Ok tt ->
  Sender chainID signed = Ok signer /\ tx_Nonce signed = nonce /\ tx_ChainId signed = Some chainID.
Proof.
  unfold verifySignedTxCommon. destruct (Sender chainID signed) as [sender|]; [|done].
  case_decide; [|done]. case_decide; [|done]. case_decide; [|done]. case_decide; [|done].
  intros _. subst. done.
Qed.

(** The attempt a packaging routine returns, whatever row asks for it. *)
Definition packaged (chainID : Z) (signer : Address) (t : OutboxTx) (a : SignedAttempt) : Prop :=
  forall o, asks t o -> attempt_matches chainID signer o a.

Lemma signedAttempt_packaged targets signed chainID signer t gas quote kind past db :
  kind <> TxAttemptCancel ->
  safe (inserts_verified targets) (signedAttemptFromTx signed chainID signer t gas quote kind) past db
    (fun r _ _ => forall a, r = Ok a -> packaged chainID signer t a).
Proof.
  intros Hkind. destruct signed as [signed|]; [|by apply safe_ret]. apply safe_pure; [|by intros; apply safe_ret].
  intros [] Hv. unfold verifySignedOutboxTx, mbind, result_bind in Hv.
  destruct (verifySignedTxCommon _ _ _ _ _ _) as [[]|] eqn:Ec; [|done].
  apply verifyCommon_ok in Ec as (Hs & Hn & Hc). do 3 (case_decide; [|done]).
  unfold package. destruct (MarshalBinary signed) as [raw|] eqn:Em; [|by apply safe_ret].
  apply safe_ask. intros db0 token _. split; [done|]. apply safe_ret. intros _ _ a [= <-] o [].
  exists signed. cbn. split_and!; try done; [congruence|]. rewrite decide_False by done.
  split_and!; congruence.
Qed.

Lemma cancelAttempt_packaged targets signed chainID signer t gas quote past db :
  safe (inserts_verified targets) (cancelAttemptFromTx signed chainID signer t gas quote) past db
    (fun r _ _ => forall a, r = Ok a -> packaged chainID signer t a).
Proof.
  destruct signed as [signed|]; [|by apply safe_ret]. apply safe_pure; [|by intros; apply safe_ret].
  intros [] Hv. unfold verifySignedCancelTx, mbind, result_bind in Hv.
  destruct (verifySignedTxCommon _ _ _ _ _ _) as [[]|] eqn:Ec; [|done].
  apply verifyCommon_ok in Ec as (Hs & Hn & Hc). do 3 (case_decide; [|done]).
  unfold package. destruct (MarshalBinary signed) as [raw|] eqn:Em; [|by apply safe_ret].
  apply safe_ask. intros db0 token _. split; [done|]. apply safe_ret. intros _ _ a [= <-] o [].
  exists signed. cbn. split_and!; try done; congruence.
Qed.

Lemma inserts_quiet targets S {A} (p : proc query A) past db :
  only S no_insert p -> safe (inserts_verified targets) p past db (fun _ _ _ => True).
Proof.
  apply only_safe; [|done]. intros past' op db' HT id a E. unfold no_insert in HT. congruence.
Qed.

Section stages.
Context (targets : list Target) (t : Target) (chainID : Z) (signer : Address).
Hypothesis Ht : t ∈ targets.
Hypothesis Hvalid : validateTarget t = Ok (chainID, signer).

(** Sign, package and insert: the tail the three signing routines share. *)
Lemma persist_safe {B} o token sign (pack : option Transaction -> proc query (result mgrerr SignedAttempt))
    (insert : SignedAttempt -> store_call B) (n : Z) past db :
  inv db -> row_asks (tg_ChainEID t) o db -> only no_send no_insert sign ->
  (forall signed past db, safe (inserts_verified targets) (pack signed) past db
     (fun r _ _ => forall a, r = Ok a -> packaged chainID signer o a)) ->
  (forall a env, insert_of (sc_op (insert a) env) = Some (q_ID (t_queued o), a)) ->
  safe (inserts_verified targets)
    (orCharge o token sign (fun signed => orCharge o token (pack signed) (fun a =>
      andThen (storeE (insert a)) (fun _ => Ret (Ok n))))) past db (fun _ _ _ => True).
Proof.
  intros Hi Ho Hsign Hpack Hins. unfold orCharge.
  apply safe_bind. eapply safe_mono; [|eapply safe_steps, inserts_quiet, Hsign].
  intros [signed|e] past1 db1 [_ Hs1]; [|eapply inserts_quiet, charge_quiet].
  apply safe_bind. eapply safe_mono; [|apply safe_steps, Hpack].
  intros [a|e] past2 db2 [Ha Hs2]; [|eapply inserts_quiet, charge_quiet].
  apply safe_storeE; [|by intros; apply safe_ret..]. intros db3 env Hs3 id a' E. rewrite Hins in E.
  injection E as <- <-. destruct (row_asks_step (tg_ChainEID t) o db db3 Hi) as (orow & Hrow & Hch & Hask); [|exact Ho|].
  { etrans; [exact Hs1|]. by etrans. }
  exists t, chainID, signer, orow. split_and!; auto. by apply (Ha a eq_refl).
Qed.

Lemma signAndPersist_safe o token gas quote past db :
  inv db -> row_asks (tg_ChainEID t) o db ->
  safe (inserts_verified targets) (signAndPersistAttempt chainID signer o token gas quote) past db (fun _ _ _ => True).
Proof.
  intros Hi Ho. apply (persist_safe o token _ _ (cInsertSigned (q_ID (t_queued o)) token)); auto.
  - apply sign_quiet.
  - intros. by apply signedAttempt_packaged.
Qed.

Lemma claim_signing_chain id chain signerID token ttl env db db' o :
  sc_run (cClaimSigning id chain signerID token ttl) env db = (db', Ok o) -> on_chain chain id db.
Proof.
  cbn. unfold ClaimOutboxForSigning, run_tx. case_decide; [|done].
  destruct (tx_outbox db !! id) as [row|] eqn:Er; [|done]. case_decide as Hl; [|done]. intros _.
  exists row. split; [done|]. apply Hl.
Qed.

Lemma claimForSigning_safe opts id past db :
  inv db ->
  safe (inserts_verified targets) (claimForSigning opts t signer id) past db (fun r _ db' =>
    forall o token, r = Ok (o, token) -> row_asks (tg_ChainEID t) o db' /\ inv db').
Proof.
  intros Hi. unfold claimForSigning. apply safe_ask. intros db0 token Hs0. split; [done|].
  pose proof (proj1 (steps_inv _ _ Hi Hs0)) as Hi0.
  set (claim := cClaimSigning _ _ _ _ _).
  assert (forall env db1 db2 db3 o, rtc step db0 db1 -> sc_run claim env db1 = (db2, Ok o) -> rtc step db2 db3 ->
    row_asks (tg_ChainEID t) o db3 /\ inv db3) as Hclaim.
  { intros env db1 db2 db3 o Hs Hrun Hs3. pose proof (proj1 (steps_inv _ _ Hi0 Hs)) as Hi1.
    destruct (leased_asks claim id (tg_ChainEID t) env db1 db2 o) as (_ & Hr & Hi2); auto.
    - apply claim_signing_read.
    - by eapply claim_signing_chain.
    - split; [by eapply row_asks_step|by eapply steps_inv]. }
  apply safe_store. intros db1 db2 env res Hs1. split; [done|]. intros Ho.
  destruct res as [o|e].
  - destruct Ho as [Hrun|(msg & [=] & _)]. apply safe_ret. intros db3 Hs3 o' tok [= <- <-]. by eapply Hclaim.
  - assert (rtc step db0 db2) as Hs2 by (etrans; [exact Hs1|by eapply outcome_steps]). clear Ho.
    destruct e; try (by apply safe_ret). apply safe_andThen, safe_callE; [done| |intros; apply safe_ret; intros; by apply safe_ret].
    intros db3 nonce Hs3. apply safe_storeE; [done| |intros; apply safe_ret; intros; by apply safe_ret].
    intros db4 db5 env4 b Hs4 Hb. pose proof (call_steps (cBootstrap (tg_ChainEID t) (AddressHex signer) nonce) env4 db4) as Hs5.
    rewrite Hb in Hs5. intros db6 Hs6 env6. split; [done|]. intros db7 [o|e] Ho; [|by intros ? ?].
    destruct Ho as [Hrun|(msg & [=] & _)]. intros db8 Hs8 db9 Hs9 o' tok [= <- <-].
    eapply (Hclaim env6 db6 db7); [|exact Hrun|by etrans].
    etrans; [exact Hs2|]. etrans; [exact Hs3|]. etrans; [exact Hs4|]. etrans; [exact Hs5|exact Hs6].
Qed.

Lemma ProcessNext_safe opts past db :
  inv db -> safe (inserts_verified targets) (ProcessNext opts t) past db (fun _ _ _ => True).
Proof.
  intros Hi. unfold ProcessNext. rewrite Hvalid. cbn [andThen proc_bind pure fst snd].
  apply safe_store. intros db0 db1 env res Hs0. split; [done|]. intros Ho.
  assert (inv db1) as Hi1.
  { eapply steps_inv; [exact Hi|]. etrans; [exact Hs0|]. by eapply outcome_steps. }
  destruct res as [queued|[]]; try (by apply safe_ret).
  destruct (tg_FeePolicies t !! q_Purpose queued) as [policy|]; [|by apply safe_ret].
  destruct (q_Status queued); try (by apply safe_ret).
  - unfold signQueuedTx. apply safe_bind.
    eapply safe_mono; [|apply safe_inv; [exact Hi1|eapply inserts_quiet, preflight_quiet]].
    intros [[quote gas]|e] past2 db2 [_ Hi2].
    + apply safe_andThen. eapply safe_mono; [|by apply claimForSigning_safe].
      intros [[o token]|e] past3 db3 Hc; [|by apply safe_ret].
      destruct (Hc o token eq_refl) as [Ho3 Hi3]. by apply signAndPersist_safe.
    + apply (inserts_quiet _ no_send). quiet.
  - unfold recoverNonceAssignedTx. apply safe_andThen. eapply safe_mono; [|by apply claimForSigning_safe].
    intros [[o token]|e] past3 db3 Hc; [|by apply safe_ret]. destruct (Hc o token eq_refl) as [Ho3 Hi3].
    apply safe_bind. eapply safe_mono; [|eapply safe_steps, inserts_quiet, preflight_quiet].
    intros [[quote gas]|e] past4 db4 [_ Hs4]; [|eapply inserts_quiet, charge_quiet].
    apply signAndPersist_safe; [by eapply steps_inv|by eapply row_asks_step].
Qed.

Lemma toOutboxTx_id id o a tx : toOutboxTx id o a = Ok tx -> q_ID (t_queued tx) = id.
Proof.
  unfold toOutboxTx, mbind, result_bind. intros E.
  destruct (toQueuedOutboxTx _ _ _) as [q|] eqn:Eq; [|done]. apply toQueuedOutboxTx_fields in Eq as (Hid & _).
  destruct (parseOptionalHash _); [|done]. do 3 (destruct (parseOptionalUint64 _); [|done]). by injection E as <-.
Qed.

Lemma replacement_candidate_chain chain signerID stale now db c :
  NextReplacementCandidate chain signerID stale now db = Ok c ->
  on_chain chain (q_ID (t_queued (rc_Outbox c))) db.
Proof.
  unfold NextReplacementCandidate. case_decide; [|done]. case_decide; [|done].
  destruct (order_by _ _) as [[id o]|] eqn:Eo; [|done].
  apply order_by_elem, elem_of_select_outbox in Eo as [Ho ([Hl _] & _)].
  destruct (active_attempt db id o) as [[aid a]|]; [|done]. unfold mbind, result_bind.
  destruct (toOutboxTx id o (Some a)) as [tx|] eqn:Et; [|done]. intros [= <-]. cbn. rewrite (toOutboxTx_id _ _ _ _ Et).
  by exists o.
Qed.

Lemma cancel_candidate_chain chain signerID now db c :
  NextCancelCandidate chain signerID now db = Ok c -> on_chain chain (q_ID (t_queued (cc_Outbox c))) db.
Proof.
  unfold NextCancelCandidate. case_decide; [|done].
  destruct (order_by _ _) as [[id o]|] eqn:Eo; [|done].
  apply order_by_elem, elem_of_select_outbox in Eo as [Ho ([Hl _] & _)]. unfold mbind, result_bind.
  destruct (toOutboxTx id o (snd <$> active_attempt db id o)) as [tx|] eqn:Et; [|done]. intros [= <-]. cbn. rewrite (toOutboxTx_id _ _ _ _ Et).
  by exists o.
Qed.

(** Claim a signing lease on a row known to be on the chain, then persist. *)
Lemma claim_persist_safe (claim : store_call OutboxTx) id
    (k : OutboxTx -> proc query (result mgrerr Z)) past db :
  inv db -> on_chain (tg_ChainEID t) id db ->
  (forall env, leased_read (sc_run claim env) id) -> (forall env, no_insert (sc_op claim env)) ->
  (forall o past db, inv db -> q_ID (t_queued o) = id -> row_asks (tg_ChainEID t) o db ->
     safe (inserts_verified targets) (k o) past db (fun _ _ _ => True)) ->
  safe (inserts_verified targets) (andThen (storeE claim) k) past db (fun _ _ _ => True).
Proof.
  intros Hi Hc Hread Hno Hk. apply safe_storeE; [| |by intros; apply safe_ret].
  - intros db0 env _ i a E. specialize (Hno env). unfold no_insert in Hno. congruence.
  - intros db0 db1 env o Hs0 Hrun. destruct (leased_asks claim id (tg_ChainEID t) env db0 db1 o) as (Hid & Hr & Hi1); auto.
    + by eapply steps_inv.
    + by eapply on_chain_step.
Qed.

Lemma ProcessStale_safe opts past db :
  inv db -> safe (inserts_verified targets) (ProcessStaleBroadcastReplacement opts t) past db (fun _ _ _ => True).
Proof.
  intros Hi. unfold ProcessStaleBroadcastReplacement. rewrite Hvalid. cbn [andThen proc_bind pure].
  apply safe_storeE; [done| |by intros; apply safe_ret]. intros db0 db0' env c Hs0 [= <- Hc].
  apply replacement_candidate_chain in Hc. pose proof (proj1 (steps_inv _ _ Hi Hs0)) as Hi0.
  apply safe_andThen. eapply safe_mono; [|eapply safe_steps, inserts_quiet, precheck_quiet].
  intros [[]|e] past1 db1 [_ Hs1]; [apply (inserts_quiet _ no_send); quiet| |by apply safe_ret].
  destruct (tg_FeePolicies t !! _) as [policy|]; [|by apply safe_ret].
  apply safe_bind. eapply safe_mono; [|eapply safe_steps, inserts_quiet, preflight_quiet].
  intros [[quote gas]|e] past2 db2 [_ Hs2]; [|apply (inserts_quiet _ no_send); quiet].
  apply safe_ask. intros db3 token Hs3. split; [done|].
  assert (rtc step db0 db3) as Hs by (etrans; [exact Hs1|]; by etrans).
  eapply (claim_persist_safe _ (q_ID (t_queued (rc_Outbox c)))); [by eapply steps_inv|by eapply on_chain_step|
    intros; apply claim_replacement_read|done|].
  intros o past4 db4 Hi4 Hid Ho. case_bool_decide.
  - apply (persist_safe o token _ _ (cInsertReplacement _ _ token)); auto; [apply signCancel_quiet| |by rewrite Hid].
    intros. apply cancelAttempt_packaged.
  - apply (persist_safe o token _ _ (cInsertReplacement _ _ token)); auto; [apply sign_quiet| |by rewrite Hid].
    intros. by apply signedAttempt_packaged.
Qed.

Lemma ProcessCancel_safe opts past db :
  inv db -> safe (inserts_verified targets) (ProcessCancelRequest opts t) past db (fun _ _ _ => True).
Proof.
  intros Hi. unfold ProcessCancelRequest. rewrite Hvalid. cbn [andThen proc_bind pure].
  apply safe_storeE; [done| |by intros; apply safe_ret]. intros db0 db0' env c Hs0 [= <- Hc].
  apply cancel_candidate_chain in Hc. pose proof (proj1 (steps_inv _ _ Hi Hs0)) as Hi0.
  apply safe_andThen. eapply safe_mono; [|eapply safe_steps, inserts_quiet, precheck_quiet].
  intros [[]|e] past1 db1 [_ Hs1]; [apply (inserts_quiet _ no_send); quiet| |by apply safe_ret].
  destruct (tg_FeePolicies t !! _) as [policy|]; [|by apply safe_ret].
  apply safe_bind. eapply safe_mono; [|eapply safe_steps, inserts_quiet, preflight_quiet].
  intros [[quote gas]|e] past2 db2 [_ Hs2]; [|apply (inserts_quiet _ no_send); quiet].
  apply safe_ask. intros db3 token Hs3. split; [done|].
  assert (rtc step db0 db3) as Hs by (etrans; [exact Hs1|]; by etrans).
  eapply (claim_persist_safe _ (q_ID (t_queued (cc_Outbox c)))); [by eapply steps_inv|by eapply on_chain_step|
    intros; apply claim_cancel_read|done|].
  intros o past4 db4 Hi4 Hid Ho.
  apply (persist_safe o token _ _ (cInsertCancel _ _ token)); auto; [apply signCancel_quiet| |by rewrite Hid].
  intros. apply cancelAttempt_packaged.
Qed.
End stages.

Lemma inserts_stages_safe targets opts t :
  t ∈ targets ->
  Forall (fun s => forall past db, inv db ->
    safe (inserts_verified targets) s.1 past db (fun _ _ _ => True)) (stages opts t).
Proof.
  intros Ht.
  assert (forall p : proc query (result mgrerr Z), (forall chainID signer past db,
      validateTarget t = Ok (chainID, signer) -> inv db -> safe (inserts_verified targets) p past db (fun _ _ _ => True)) ->
    (forall e, validateTarget t = Err e -> p = Ret (Err e)) -> forall past db, inv db ->
    safe (inserts_verified targets) p past db (fun _ _ _ => True)) as Hcase.
  { intros p Hok Herr past db Hi. destruct (validateTarget t) as [[chainID signer]|e] eqn:E; [by eapply Hok|].
    rewrite (Herr e eq_refl). by apply safe_ret. }
  assert (forall opts, only (fun _ _ => True) no_insert (ProcessBroadcast opts t)).
  { intros. unfold ProcessBroadcast. quiet. }
  repeat apply Forall_cons_2; try apply Forall_nil_2; cbn [fst]; intros past db Hi.
  1: apply (inserts_quiet _ no_send), ProcessReceipts_quiet.
  1: apply (inserts_quiet _ no_send), ProcessReconcile_quiet.
  2: by eapply inserts_quiet.
  3: apply (inserts_quiet _ no_send), ProcessFailedRetry_quiet.
  all: apply Hcase; [|intros e E|done]; [intros; by eauto using ProcessCancel_safe, ProcessStale_safe, ProcessNext_safe|].
  - unfold ProcessCancelRequest. by rewrite E.
  - unfold ProcessStaleBroadcastReplacement. by rewrite E.
  - unfold ProcessNext. by rewrite E.
Qed.

(** C15: whatever the signer service returns, every attempt the loop persists (original,
    replacement or cancel) carries a transaction that recovers to the signer of a target, for
    that target's chain id, with the nonce of its outbox row, and with exactly the row's
    destination, value and calldata, or a bare zero transfer to the signer itself for a cancel:
    a faulty signer cannot make the loop store, and so later send, anything else. *)
Theorem persisted_is_requested opts targets n db tr db' r op dbe id a :
  reachable db -> behaves (runLoop opts targets n) db tr db' r ->
  EvStore op dbe ∈ tr -> insert_of op = Some (id, a) ->
  exists t chainID signer o, t ∈ targets /\ validateTarget t = Ok (chainID, signer) /\
    tx_outbox dbe !! id = Some o /\ o_chain_eid o = tg_ChainEID t /\ attempt_matches chainID signer o a.
Proof.
  intros Hr Hb (tr1 & tr2 & ->)%list_elem_of_split.
  refine (safe_event (inserts_verified targets) _ db (fun _ _ _ => True) tr1 _ tr2 _ _ _ Hb id a).
  apply runLoop_safe; [done| |by apply reachable_inv]. intros. by apply inserts_stages_safe.
Qed.
End signing.

Definition sample_quote : feeQuote := mkQuote true (Some 110) (Some 44).

Lemma quoteFee_bounded_witness :
  quote_run.2 = Ok sample_quote /\ exists tip fee, fq_MaxPriorityFeePerGas sample_quote = Some tip /\
    fq_MaxFeePerGas sample_quote = Some fee /\ tip <= fee.
Proof.
  assert (quote_run.2 = Ok sample_quote) as E by (vm_compute; reflexivity). split; [exact E|].
  pose proof quote_run_behaves as Hb.
  rewrite E in Hb.
  destruct (fb_dynamic _ _ _ (quoteFee_bounded _ _ _ _ _ _ sample_quote Hb) eq_refl)
    as (tipCap & tip & fee & _ & H1 & H2 & _ & H3 & _).
  exists tip, fee. split; [exact H1|]. split; [exact H2|exact H3].
Defined.

Definition sample_signed : SignedAttempt :=
  mkSignedAttempt TxAttemptOriginal 3 2 1003 [Byte.x02] 21000 (Some 12) (Some 2) 600.

Lemma persisted_is_requested_witness :
  sign_run.1.1 !! 16%nat = Some (EvStore (Some (OpInsertSigned 1 600 sample_signed)) (db_at sign_run.1.1 16)) /\
  exists o, tx_outbox (db_at sign_run.1.1 16) !! 1 = Some o /\ attempt_matches 31337 1 o sample_signed.
Proof.
  assert (sign_run.1.1 !! 16%nat =
    Some (EvStore (Some (OpInsertSigned 1 600 sample_signed)) (db_at sign_run.1.1 16))) as E by (vm_compute; reflexivity).
  split; [exact E|].
  destruct (persisted_is_requested sample_options [sample_target] 1 db_queued sign_run.1.1 sign_run.1.2
    (Some sign_run.2) (Some (OpInsertSigned 1 600 sample_signed)) (db_at sign_run.1.1 16) 1 sample_signed)
    as (t & chainID & signer & o & Ht & Hv & Ho & _ & Hm).
  - apply run_reachable.
  - exact sign_run_behaves.
  - exact (list_elem_of_lookup_2 _ _ _ E).
  - reflexivity.
  - exists o. split; [exact Ho|]. apply list_elem_of_singleton in Ht. subst t.
    injection Hv as <- <-. exact Hm.
Defined.
