(* ===== verification/Registry.v ===== *)
(** * Configured chains and pathways (go/internal/chain/registry.go)

    The registry every worker consults: the configured chains by endpoint id and
    the pathways under the text key of their four coordinates. *)

From S2P Require Import Prelude GoErr StateReads Quorum QuorumLogs.
From stdpp Require Import base gmap list strings numbers pretty.
From Stdlib Require Import ZArith Lia Ascii.
#[local] Open Scope Z_scope.

(** ** Configuration records (go/internal/config/config.go) *)

Definition DVNModeShadow : string := "shadow".
Definition DVNModeActive : string := "active".

Record TxRoleConfig := mkTxRoleConfig {
  rcf_Signer : Address; rcf_MaxFeePerGasWei : string; rcf_MaxPriorityFeePerGasWei : string;
  rcf_MinNativeBalanceWei : string }.

Record ChainConfig := mkChainConfig {
  ccf_EID : Z; ccf_Name : string; ccf_Family : string; ccf_ChainID : Z; ccf_EndpointAddress : Address;
  ccf_Confirmations : Z; ccf_StartBlockNumber : Z; ccf_IndexerQueryBlockRange : Z;
  ccf_IndexerPollIntervalSeconds : Z; ccf_LegacyTransactions : bool; ccf_RPCURLs : list string;
  ccf_Executor : TxRoleConfig; ccf_DVN : TxRoleConfig }.

Record WorkerFeeModelConfig := mkFeeModel {
  FixedFeeWei : string; DstGasOverhead : Z; DataSizeOverheadBytes : option Z; MarginBps : Z }.
Record PathwayPricingConfig := mkPathwayPricing {
  ExecutorFee : WorkerFeeModelConfig; DVNFee : WorkerFeeModelConfig }.

Record WorkerContracts := mkWorkerContracts {
  OpenExecutor : Address; OpenDVN : Address; PriceFeed : Address }.

(** chain.Pathway and config.PathwayConfig have the same fields, the latter with addresses
    as config.EVMAddress (whose Common is the address). *)
Record Pathway := mkPathway {
  pw_SrcEID : Z; pw_DstEID : Z; pw_SrcOApp : Address; pw_DstOApp : Address;
  pw_SendLib : Address; pw_ReceiveLib : Address; pw_SourceWorkers : WorkerContracts;
  pw_DestinationOpenDVN : Address; pw_SendRequiredDVNs : list Address;
  pw_ReceiveRequiredDVNs : list Address; pw_DVNMode : string; pw_Pricing : PathwayPricingConfig;
  pw_Enabled : bool; pw_MaxMessageSize : Z; pw_MinLzReceiveGas : Z; pw_MaxLzReceiveGas : Z }.
Abbreviation PathwayConfig := Pathway.

(** ** The registry *)

Record TxRole := mkTxRole {
  tr_SignerID : string; tr_MaxFeePerGasWei : string; tr_MaxPriorityFeePerGasWei : string;
  tr_MinNativeBalanceWei : string }.

Record Chain := mkChain {
  ch_EID : Z; ch_Name : string; ch_ChainID : Z; ch_EndpointAddress : Address;
  ch_Confirmations : Z; ch_StartBlockNumber : Z; ch_IndexerQueryBlockRange : Z;
  ch_IndexerPollInterval : Z; ch_LegacyTransactions : bool; ch_Executor : TxRole; ch_DVN : TxRole;
  ch_RPC : option Client }.

Record Registry := mkRegistry {
  rg_byEID : gmap Z Chain; rg_pathways : gmap string Pathway }.

(** common.Address.Hex, the checksummed text of go-ethereum. *)
Class AddressText := AddressHex : Address -> string.

Section registry.
Context `{AddressText}.

(** %d of a uint32, %s of an address *)
Definition pathwayKey (srcEID dstEID : Z) (srcOApp dstOApp : Address) : string :=
  pretty srcEID +:+ ":" +:+ pretty dstEID +:+ ":" +:+ AddressHex srcOApp +:+ ":" +:+ AddressHex dstOApp.

Definition optionalSignerID (value : Address) : string :=
  if decide (value = 0) then "" else AddressHex value.

(** time.Duration(seconds) * time.Second: int64 nanoseconds, wrapping. *)
Definition int64_wrap (z : Z) : Z := (z + 2 ^ 63) mod 2 ^ 64 - 2 ^ 63.
Definition secondsDuration (seconds : Z) : Z := int64_wrap (int64_wrap seconds * 1000000000).

Definition chain_of (cfg : ChainConfig) : Chain :=
  let role signerID r := mkTxRole signerID (rcf_MaxFeePerGasWei r) (rcf_MaxPriorityFeePerGasWei r)
                           (rcf_MinNativeBalanceWei r) in
  mkChain (ccf_EID cfg) (ccf_Name cfg) (ccf_ChainID cfg) (ccf_EndpointAddress cfg)
    (ccf_Confirmations cfg) (ccf_StartBlockNumber cfg) (ccf_IndexerQueryBlockRange cfg)
    (secondsDuration (ccf_IndexerPollIntervalSeconds cfg)) (ccf_LegacyTransactions cfg)
    (role (AddressHex (rcf_Signer (ccf_Executor cfg))) (ccf_Executor cfg))
    (role (optionalSignerID (rcf_Signer (ccf_DVN cfg))) (ccf_DVN cfg))
    (Some (New (length (ccf_RPCURLs cfg)))).

Definition pathway_key (p : Pathway) : string :=
  pathwayKey (pw_SrcEID p) (pw_DstEID p) (pw_SrcOApp p) (pw_DstOApp p).

(** Both loops write into a map: a later entry replaces an earlier one with its key. *)
Definition NewRegistry (chains : list ChainConfig) (pathways : list PathwayConfig) : Registry :=
  mkRegistry (fold_left (fun m cfg => <[ccf_EID cfg := chain_of cfg]> m) chains ∅)
    (fold_left (fun m p => <[pathway_key p := p]> m) pathways ∅).

Definition Get (r : Registry) (eid : Z) : result string Chain :=
  match rg_byEID r !! eid with
  | Some c => Ok c
  | None => Err ("unknown chain eid " +:+ pretty eid)
  end.

(** All and Pathways list the maps in some order. *)
Definition All (r : Registry) : list Chain := (map_to_list (rg_byEID r)).*2.
Definition Pathways (r : Registry) : list Pathway := (map_to_list (rg_pathways r)).*2.

Definition PathwayOf (r : Registry) (srcEID dstEID : Z) (srcOApp dstOApp : Address)
    : result string Pathway :=
  match rg_pathways r !! pathwayKey srcEID dstEID srcOApp dstOApp with
  | Some p => Ok p
  | None => Err ("unknown pathway " +:+ pretty srcEID +:+ " -> " +:+ pretty dstEID +:+ " " +:+
                 AddressHex srcOApp +:+ " -> " +:+ AddressHex dstOApp)
  end.

End registry.

(** ** Lookups are exact *)

Definition colon : ascii := ":"%char.

Lemma pretty_N_go_colon x s : no_char colon s -> no_char colon (pretty_N_go x s).
Proof.
  revert s. induction (N.lt_wf_0 x) as [x _ IH]; intros s Hs.
  destruct (decide (x = 0)%N) as [->|Hx]; [by rewrite pretty_N_go_0|].
  rewrite pretty_N_go_step by lia. apply IH; [apply N.div_lt; lia|].
  split; [|done]. pose proof (N.mod_lt x 10 ltac:(done)). unfold pretty_N_char.
  destruct (x `mod` 10)%N as [|p]; [done|]. repeat (destruct p as [p|p|]; try done).
Qed.

Lemma pretty_Z_colon (z : Z) : no_char colon (pretty z).
Proof.
  assert (forall n : N, no_char colon (pretty n)) as Hn.
  { intros n. unfold pretty, pretty_N. case_decide; [by repeat split|]. by apply pretty_N_go_colon. }
  destruct z as [|p|p]; unfold pretty, pretty_Z; [by repeat split|apply Hn|].
  split; [done|apply Hn].
Qed.

Lemma string_app_nil_r s : (s +:+ "")%string = s.
Proof. induction s as [|c s IH]; [done|]. change (String c (s +:+ "") = String c s)%string. by rewrite IH. Qed.

Section lookups.
Context `{AddressText}.
(** What the key relies on of the address text: distinct addresses differ, and it has no
    colon. *)
Context (hex_inj : forall a b, wf_address a -> wf_address b -> AddressHex a = AddressHex b -> a = b)
  (hex_colon : forall a, wf_address a -> no_char colon (AddressHex a)).

Lemma pathwayKey_pieces s d a b :
  String colon (pathwayKey s d a b) = delimited colon [pretty s; pretty d; AddressHex a; AddressHex b].
Proof. unfold pathwayKey, delimited. cbn [foldr]. by rewrite string_app_nil_r. Qed.

Lemma pathwayKey_inj s d a b s' d' a' b' :
  wf_address a -> wf_address b -> wf_address a' -> wf_address b' ->
  pathwayKey s d a b = pathwayKey s' d' a' b' -> s = s' /\ d = d' /\ a = a' /\ b = b'.
Proof.
  intros Ha Hb Ha' Hb' E%(f_equal (String colon)). rewrite !pathwayKey_pieces in E.
  apply delimited_inj in E; [|by repeat constructor; auto using pretty_Z_colon..].
  injection E as Es%(inj pretty) Ed%(inj pretty) Ea Eb. eauto 10.
Qed.

(** The pathway of the configuration with these coordinates; the last one when several are. *)
Definition on_route (s d : Z) (a b : Address) (p : Pathway) : Prop :=
  pw_SrcEID p = s /\ pw_DstEID p = d /\ pw_SrcOApp p = a /\ pw_DstOApp p = b.
#[export] Instance on_route_dec s d a b p : Decision (on_route s d a b p) := _.

Definition wf_pathway (p : Pathway) : Prop := wf_address (pw_SrcOApp p) /\ wf_address (pw_DstOApp p).

Lemma pathways_lookup s d a b (m : gmap string Pathway) pathways :
  wf_address a -> wf_address b -> Forall wf_pathway pathways ->
  fold_left (fun m p => <[pathway_key p := p]> m) pathways m !! pathwayKey s d a b =
  match last (filter (on_route s d a b) pathways) with
  | Some p => Some p
  | None => m !! pathwayKey s d a b
  end.
Proof.
  intros Ha Hb Hwf. revert m. induction pathways as [|p l IH] using rev_ind; intros m; [done|].
  apply Forall_app in Hwf as [Hl [[Hp1 Hp2] _]%Forall_cons].
  rewrite fold_left_app, filter_app. cbn [fold_left]. rewrite filter_cons, filter_nil.
  case_decide as Hr.
  - destruct Hr as (<- & <- & <- & <-). by rewrite last_snoc, lookup_insert_eq.
  - rewrite app_nil_r, lookup_insert_ne; [by apply IH|]. intros E%pathwayKey_inj; [|done..]. by apply Hr.
Qed.

(** the registry answers a pathway lookup with the last configured pathway that has these
    source and destination endpoint ids and OApps, and fails exactly when there is none: the
    text key never confuses two routes. *)
Theorem PathwayOf_NewRegistry chains pathways s d a b :
  wf_address a -> wf_address b -> Forall wf_pathway pathways ->
  match last (filter (on_route s d a b) pathways) with
  | Some p => PathwayOf (NewRegistry chains pathways) s d a b = Ok p
  | None => is_ok (PathwayOf (NewRegistry chains pathways) s d a b) = false
  end.
Proof.
  intros Ha Hb Hwf. unfold PathwayOf. cbn [rg_pathways NewRegistry].
  rewrite pathways_lookup, lookup_empty by done. by destruct (last _).
Qed.

Lemma Get_NewRegistry chains pathways eid :
  match last (filter (fun c => ccf_EID c = eid) chains) with
  | Some cfg => Get (NewRegistry chains pathways) eid = Ok (chain_of cfg)
  | None => is_ok (Get (NewRegistry chains pathways) eid) = false
  end.
Proof.
  unfold Get. cbn [rg_byEID NewRegistry].
  assert (fold_left (fun m cfg => <[ccf_EID cfg := chain_of cfg]> m) chains ∅ !! eid =
          chain_of <$> last (filter (fun c => ccf_EID c = eid) chains)) as ->; [|by destruct (last _)].
  induction chains as [|c l IH] using rev_ind; [done|].
  rewrite fold_left_app, filter_app. cbn [fold_left]. rewrite filter_cons, filter_nil.
  case_decide as Hc; [by rewrite <- Hc, last_snoc, lookup_insert_eq|].
  by rewrite app_nil_r, lookup_insert_ne.
Qed.
End lookups.

(** ** A sample configuration *)

Lemma hex_colon b : no_char colon (EncodeToString b).
Proof.
  assert (forall a, (0 <= a < 16)%Z -> hex_digit a <> colon) as Hd.
  { intros a Ha E. pose proof (hex_digit_val a Ha) as Hv. rewrite E in Hv. case_decide; cbn in Hv; lia. }
  induction b as [|x b IH]; [done|]. pose proof (byte_val_range x). cbn. split_and!; [apply Hd..|done].
  - split; [apply Z.div_pos|apply Z.div_lt_upper_bound]; lia.
  - apply Z.mod_pos_bound; lia.
Qed.

#[local] Instance sample_address_text : AddressText := sample_hex.

Definition sample_fee_model : WorkerFeeModelConfig := mkFeeModel "1000" 50000 (Some 100) 500.
Definition sample_pathway : Pathway :=
  mkPathway 101 102 11 22 31 32 (mkWorkerContracts 41 42 43) 52 [42] [52] DVNModeActive
    (mkPathwayPricing sample_fee_model sample_fee_model) true 10000 1 1000000.
Definition sample_chain (eid : Z) : ChainConfig :=
  mkChainConfig eid "chain" "evm" (eid * 10) (eid * 1000) 5 1 10 5 false ["http://a"; "http://b"; "http://c"]
    (mkTxRoleConfig 61 "100" "10" "") (mkTxRoleConfig 62 "100" "10" "").
Definition sample_registry : Registry :=
  NewRegistry [sample_chain 101; sample_chain 102] [sample_pathway].

