(* ===== verification/Worker.v ===== *)
(** * What the chain workers share (go/internal/workerloop, the read helpers of
      go/internal/executor/readiness.go and go/internal/dvn/dvn.go)

    The executor, the DVN and the indexer are routines over the store and the quorum
    client of a chain. go-ethereum's ABI codec and keccak are the interface
    [LzAbi]: a contract view packs its arguments and unpacks the returned bytes.
    An error of the client keeps its kind and its text. *)

From S2P Require Import Prelude GoErr Schema Outbox Jobs Store Quorum StateReads QuorumLogs Registry Proc LzCodec.
From stdpp Require Import base gmap list strings numbers pretty.
From Stdlib Require Import ZArith Lia.
#[local] Open Scope Z_scope.

(** ** Contract views *)

Record Origin := mkOrigin { og_SrcEID : Z; og_Sender : Hash; og_Nonce : Z }.

Record ulnConfig := mkUln {
  uc_Confirmations : Z; uc_RequiredDVNCount : Z; uc_OptionalDVNCount : Z;
  uc_OptionalDVNThreshold : Z; uc_RequiredDVNs : list Address; uc_OptionalDVNs : list Address }.

(** The EndpointV2 and ReceiveUln302 methods the workers call, by the type of their result. *)
Inductive view : Type -> Type :=
| InboundPayloadHash (receiver : Address) (srcEID : Z) (sender : Hash) (nonce : Z) : view Hash
| IsValidReceiveLibrary (receiver : Address) (srcEID : Z) (lib : Address) : view bool
| EndpointVerifiable (origin : Origin) (receiver : Address) : view bool
| LazyInboundNonce (receiver : Address) (srcEID : Z) (sender : Hash) : view Z
| InboundNonce (receiver : Address) (srcEID : Z) (sender : Hash) : view Z
| GetReceiveLibrary (receiver : Address) (srcEID : Z) : view (Address * bool)
| GetUlnConfig (receiver : Address) (srcEID : Z) : view ulnConfig
| UlnVerifiable (config : ulnConfig) (headerHash payloadHash : Hash) : view bool
| HashLookup (headerHash payloadHash : Hash) (dvn : Address) : view (bool * Z).

(** The codec of the pinned ABIs and keccak; [Unpack] answers only values of the count and
    types the caller asserts. *)
Class LzAbi := {
  lz_address_text :: AddressText;
  Keccak256Hash : bytes -> Hash;
  Pack : forall R, view R -> result string bytes;
  Unpack : forall R, view R -> bytes -> result string R;
  PackReceiveUln302CommitVerification : bytes -> Hash -> result string bytes;
  PackLzReceive : Origin -> Address -> Hash -> bytes -> bytes -> result string bytes;
  PackOpenDVNSubmitVerification : Address -> bytes -> Hash -> Z -> result string bytes }.
Arguments Pack {_ R} _.
Arguments Unpack {_ R} _ _.

(** ** Questions to a chain *)

(** The error of a quorum read: what it is, and its text. *)
Record client_err := mkClientErr { cx_kind : qerr; cx_text : string }.

Record FilterQuery := mkFilterQuery {
  fy_FromBlock : Z; fy_ToBlock : Z; fy_Addresses : list Address; fy_Topics : list Hash }.

(** A head is a HeadResult: a number, if it has one, and the hash (zero for an empty text). A
    receipt lookup without a block floor is TransactionReceipt. [WWait] is the select between
    the timer and the context. *)
Inductive wquery : Type -> Type :=
| WCall (eid : Z) (to : Address) (data : bytes) (mode : address_mode) : wquery (result client_err bytes)
| WBlockNumber (eid : Z) : wquery (result client_err Z)
| WCheckHead (eid : Z) : wquery (result client_err (option Z * Hash))
| WReceipt (eid : Z) (txHash : Hash) (minBlock : option Z) : wquery (result client_err (option Receipt))
| WFilterLogs (eid : Z) (q : FilterQuery) : wquery (result client_err (list Log))
| WCtxErr : wquery (option goerr)
| WWait : wquery (option goerr).

Abbreviation work := (proc wquery).

(** ** Errors *)

Inductive werr :=
| WDB (e : dberr)
| WClient (e : client_err)
| WText (msg : string)
| WCtx (e : goerr)
| WAwaitingConfirmations
| WConfigMismatch (msg : string)
| WReceiptReorg (msg : string)
| WFatal (e : werr).

(** workerloop.Fatal and IsFatal *)
Definition Fatal (e : option werr) : option werr := WFatal <$> e.
Definition IsFatal (e : werr) : bool := match e with WFatal _ => true | _ => false end.

(** The texts of the sentinel errors of the store. *)
Definition dberr_text (e : dberr) : string :=
  match e with
  | ErrNoRows => "no rows in result set"
  | ErrNonceCursorMissing => "tx nonce cursor missing"
  | ErrNoFailedTxRetry => "no failed tx retry"
  | ErrNoStaleBroadcastReplacement => "no stale broadcast replacement"
  | ErrTxSendScopeInactive => "tx send scope is paused or disabled"
  | ErrSignerLaneBlocked => "signer lane blocked by an earlier nonce"
  | ErrOutboxLeaseLost => "outbox signing lease lost"
  | ErrNoBroadcastCandidate => "no broadcast candidate attempt"
  | ErrBroadcastLaneHeld => "broadcast lane held after replay budget exhausted"
  | ErrActiveAttemptChanged => "outbox active attempt changed"
  | ErrReceiptResolutionPinned => "receipt resolution pinned to another attempt"
  | ErrNoCancelWork => "no cancel work"
  | ErrNoNonceReconcileWork => "no nonce reconcile work"
  | ErrPricingPendingExists => "a pricing snapshot tx for this feed is still pending"
  | ErrConstraint name => "violates constraint " +:+ name
  | Errorf msg => msg
  end.

(** err.Error() *)
Fixpoint ErrorText (e : werr) : string :=
  match e with
  | WDB e => dberr_text e
  | WClient e => cx_text e
  | WText msg => msg
  | WCtx e => Error e
  | WAwaitingConfirmations => "awaiting confirmation depth"
  | WConfigMismatch msg => "destination verification config mismatch: " +:+ msg
  | WReceiptReorg msg => "source receipt block does not match indexed block: " +:+ msg
  | WFatal e => ErrorText e
  end.

(** Store calls, client calls and checks as fallible steps of a routine. *)
Definition storeW {R} (c : store_call R) : work (result werr R) :=
  proc_bind (store c) (fun r => Ret (match r with Ok a => Ok a | Err e => Err (WDB e) end)).
Definition clientW {R} (q : wquery (result client_err R)) : work (result werr R) :=
  proc_bind (ask q) (fun r => Ret (match r with Ok a => Ok a | Err e => Err (WClient e) end)).
Definition textW {A} (r : result string A) : result werr A :=
  match r with Ok a => Ok a | Err msg => Err (WText msg) end.
Definition dbW {A} (r : result dberr A) : result werr A :=
  match r with Ok a => Ok a | Err e => Err (WDB e) end.
Definition failW {A} (msg : string) : work (result werr A) := Ret (Err (WText msg)).

Notation "'need' P 'or' msg ;; k" := (if decide P then k else failW msg)
  (at level 10, P at level 99, msg at level 99, k at level 200).

(** [if err := ctx.Err(); err != nil { return .., err }] *)
Definition unlessDone {A} (k : work (result werr A)) : work (result werr A) :=
  let! ctx := ask WCtxErr in
  match ctx with Some e => Ret (Err (WCtx e)) | None => k end.

Definition loopInterval : Z := 5 * 1000000000.

(** ** Anchored view calls *)

Section views.
Context `{LzAbi}.

(** Pack, CallAtAnchor, Unpack: callAndUnpack and its typed callers. *)
Definition callAndUnpack {R} (eid : Z) (to : Address) (v : view R) (anchor : option StateAnchor)
    : work (result werr R) :=
  let? data := pure (textW (Pack v)) in
  let? result := clientW (WCall eid to data (CallAtAnchor anchor)) in
  pure (textW (Unpack v result)).

(** rpcquorum.AnchorFromHead *)
Definition anchorOfHead (head : option Z * Hash) : result werr StateAnchor :=
  match head.1 with
  | None => Err (WText "verified head has no block number")
  | Some n => Ok (AnchorFromHead (n, head.2))
  end.

(** common.BytesToHash of the 20 address bytes, and big.Int.Uint64 of the packet nonce. *)
Definition AddressToHash (a : Address) : Hash := BytesToHash (addressBytes a).
Definition nonce_u64 (n : option Z) : Z := default 0 n mod 2 ^ 64.

Definition originFromPacket (packet : PacketRecord) : Origin :=
  mkOrigin (k_SrcEID packet) (AddressToHash (k_Sender packet)) (nonce_u64 (k_Nonce packet)).
End views.

(** ** Polling loops *)

(** [if processed, err := p; err != nil || processed { return processed, err }; return next] *)
Definition orElse (p next : work (result werr bool)) : work (result werr bool) :=
  let? processed := p in
  if processed : bool then Ret (Ok true) else next.

(** At most [n] passes of [for { processed, err := process(ctx); .. }]; [Ok tt] when the
    passes are used up, the loop's error otherwise. *)
Fixpoint runLoop (process : work (result werr bool)) (n : nat) : work (result werr unit) :=
  match n with
  | O => Ret (Ok tt)
  | S n =>
    let? processed := process in
    if processed : bool then runLoop process n else
    let! ctx := ask WWait in
    match ctx with Some e => Ret (Err (WCtx e)) | None => runLoop process n end
  end.
