(* ===== verification/WorkerProofs.v ===== *)
(** * Reasoning about the chain workers

    A worker's writes are judged by a condition on the events before them:
    [justified step] asks [step past op] of every store operation. The rules
    below carry what was read (the answers of views, heads, receipts and work
    lists) into those conditions. *)

From S2P Require Import Prelude GoErr Schema Outbox Jobs Store Quorum StateReads QuorumLogs.
From S2P Require Import Registry Proc Worker.
From stdpp Require Import base gmap list strings numbers relations.
From Stdlib Require Import ZArith Lia.
#[local] Open Scope Z_scope.

Abbreviation history := (list (event wquery)).

(** Every store operation satisfies [step] given the past; questions and reads are free. *)
Definition justified (step : history -> store_op -> Prop) (past : history) (e : event wquery) : Prop :=
  match e with EvStore (Some op) _ => step past op | _ => True end.

(** What an execution asked and was told. *)
Definition heard {R} (past : history) (q : wquery R) (a : R) : Prop := exists db, EvAsk q a db ∈ past.

(** A read of the store that answered [r] at some moment of the past. *)
Definition stored {R} (past : history) (read : timestamp -> DB -> result dberr R) (r : R) : Prop :=
  exists db now, EvStore None db ∈ past /\ read now db = Ok r.

(** A store call that was answered [r] by the tables at some moment of the past. *)
Definition answered {R} (past : history) (c : store_call R) (r : result dberr R) : Prop :=
  exists db env, EvStore (sc_op c env) db ∈ past /\ (sc_run c env db).2 = r.

(** A verified tip of the chain. *)
Definition tip (past : history) (eid : Z) (head : Z * Hash) : Prop :=
  heard past (WCheckHead eid) (Ok (Some head.1, head.2)).
Definition at_tip (head : Z * Hash) : address_mode := CallAtAnchor (Some (AnchorFromHead head)).

Lemma heard_mono {R} past past' (q : wquery R) a : past ⊆ past' -> heard past q a -> heard past' q a.
Proof. intros Hs (db & Hin). exists db. by apply Hs. Qed.
Lemma stored_mono {R} past past' read (r : R) : past ⊆ past' -> stored past read r -> stored past' read r.
Proof. intros Hs (db & now & Hin & E). exists db, now. split; [by apply Hs|done]. Qed.

Lemma answered_mono {R} past past' (c : store_call R) r : past ⊆ past' -> answered past c r -> answered past' c r.
Proof. intros Hs (db & env & Hin & E). exists db, env. split; [by apply Hs|done]. Qed.

Lemma heard_here {R} past (q : wquery R) a db : heard (past ++ [EvAsk q a db]) q a.
Proof. exists db. set_solver. Qed.

Lemma prefix_subset (past past' : history) : past `prefix_of` past' -> past ⊆ past'.
Proof. intros [l ->]. set_solver. Qed.

(** Chains of inclusions between pasts. *)
Ltac grow := first [eassumption | reflexivity | etransitivity; [eassumption|grow]].

Section rules.
Context (step : history -> store_op -> Prop).
Abbreviation P := (justified step).
(** The routine is safe, whatever it returns. *)
Abbreviation okay p past db := (safe P p past db (fun _ _ _ => True)).

Lemma safe_askW {R B} (q : wquery R) (k : R -> work B) past db Q :
  (forall db0 a past', past' = past ++ [EvAsk q a db0] -> safe P (k a) past' db0 Q) ->
  safe P (proc_bind (ask q) k) past db Q.
Proof. intros Hk. apply safe_ask. intros db0 a _. split; [done|by apply Hk]. Qed.

Lemma safe_clientW {R B} (q : wquery (result client_err R)) (k : R -> work (result werr B)) past db
    (Q : result werr B -> history -> DB -> Prop) :
  (forall past' db0 a, past ⊆ past' -> heard past' q (Ok a) -> safe P (k a) past' db0 Q) ->
  (forall past' db0 e, past ⊆ past' -> Q (Err (WClient e)) past' db0) ->
  safe P (andThen (clientW q) k) past db Q.
Proof.
  intros Hok Herr db0 _ a. split; [done|]. destruct a as [a|e]; cbn.
  - apply Hok; [set_solver|]. apply heard_here.
  - intros db1 _. apply Herr. set_solver.
Qed.

(** A store write: the step must be justified; what follows does not see its result. *)
Lemma safe_storeW {R B} (c : store_call R) (k : R -> work (result werr B)) past db :
  (forall env op, sc_op c env = Some op -> step past op) ->
  (forall past' db' a, past ⊆ past' -> okay (k a) past' db') ->
  okay (andThen (storeW c) k) past db.
Proof.
  intros Hstep Hk db0 _ env. split.
  - unfold P. cbn. destruct (sc_op c env) eqn:E; [by eapply Hstep|done].
  - intros db1 [a|e] _; [|by intros ? _]. apply Hk. set_solver.
Qed.

(** A store read: its answer is remembered. *)
Lemma safe_readW {R B} (f : timestamp -> DB -> result dberr R) (k : R -> work (result werr B)) past db
    (Q : result werr B -> history -> DB -> Prop) :
  (forall past' db0 a, past ⊆ past' -> stored past' f a -> safe P (k a) past' db0 Q) ->
  (forall past' db0 e, past ⊆ past' -> Q (Err (WDB e)) past' db0) ->
  safe P (andThen (storeW (readCall (fun e => f (ce_now e)))) k) past db Q.
Proof.
  intros Hok Herr db0 _ env. split; [done|]. intros db1 [a|e] Ho; cbn.
  - destruct Ho as [[= <- E]|(msg & [=] & _)]. apply Hok; [set_solver|].
    exists db0, (ce_now env). split; [set_solver|done].
  - intros db2 _. apply Herr. set_solver.
Qed.

Lemma safe_unlessDone {A} (k : work (result werr A)) past db :
  (forall past' db', past ⊆ past' -> okay k past' db') -> okay (unlessDone k) past db.
Proof.
  intros Hk. apply safe_askW. intros db0 [e|] past' ->; [by intros ? _|]. apply Hk. set_solver.
Qed.

(** The same with a post-condition on success. *)
Lemma safe_unless {A} (k : work (result werr A)) past db (I : A -> history -> Prop) :
  (forall past' db', past ⊆ past' -> safe P k past' db' (fun r past'' _ => forall a, r = Ok a -> I a past'')) ->
  safe P (unlessDone k) past db (fun r past' _ => forall a, r = Ok a -> I a past').
Proof.
  intros Hk. apply safe_askW. intros db0 [e|] past' ->; [by intros ? _ a [=]|]. apply Hk. set_solver.
Qed.

Lemma safe_post {A} (p : work A) past db (Q Q' : A -> history -> DB -> Prop) :
  safe P p past db Q ->
  (forall a past' db', past ⊆ past' -> Q a past' db' -> Q' a past' db') -> safe P p past db Q'.
Proof.
  intros Hs HQ. apply safe_prefix in Hs. eapply safe_mono; [|exact Hs].
  intros a past' db' [H Hp]. apply HQ; [by apply prefix_subset|done].
Qed.

Lemma safe_ok {A B} (p : work (result werr A)) (k : A -> work (result werr B)) past db
    (I : A -> history -> Prop) (Q : result werr B -> history -> DB -> Prop) :
  safe P p past db (fun r past' _ => forall a, r = Ok a -> I a past') ->
  (forall a past' db', past ⊆ past' -> I a past' -> safe P (k a) past' db' Q) ->
  (forall e past' db', past ⊆ past' -> Q (Err e) past' db') ->
  safe P (andThen p k) past db Q.
Proof.
  intros Hp Hok Herr. apply safe_andThen. eapply safe_post; [exact Hp|].
  intros [a|e] past' db' Hs HI; cbn.
  - by apply Hok; [|apply HI].
  - intros db0 _. by apply Herr.
Qed.

(** The same with what a failure tells. *)
Lemma safe_try {A B} (p : work (result werr A)) (k : A -> work (result werr B)) past db
    (I : result werr A -> history -> Prop) (Q : result werr B -> history -> DB -> Prop) :
  safe P p past db (fun r past' _ => I r past') ->
  (forall a past' db', past ⊆ past' -> I (Ok a) past' -> safe P (k a) past' db' Q) ->
  (forall e past' db', past ⊆ past' -> I (Err e) past' -> Q (Err e) past' db') ->
  safe P (andThen p k) past db Q.
Proof.
  intros Hp Hok Herr. apply safe_andThen. eapply safe_post; [exact Hp|].
  intros [a|e] past' db' Hs HI; cbn; [by apply Hok|]. intros db0 _. by apply Herr.
Qed.

(** A store write that is remembered. *)
Lemma safe_storeW_past {R B} (c : store_call R) (k : R -> work (result werr B)) past db :
  (forall env op, sc_op c env = Some op -> step past op) ->
  (forall env db0 db' a, okay (k a) (past ++ [EvStore (sc_op c env) db0]) db') ->
  okay (andThen (storeW c) k) past db.
Proof.
  intros Hstep Hk db0 _ env. split.
  - unfold P. cbn. destruct (sc_op c env) eqn:E; [by eapply Hstep|done].
  - intros db1 [a|e] _; [apply Hk|by intros ? _].
Qed.

(** A store call of any kind, whose success is remembered. *)
Lemma safe_done {R B} (c : store_call R) (k : R -> work (result werr B)) past db
    (Q : result werr B -> history -> DB -> Prop) :
  (forall env op, sc_op c env = Some op -> step past op) ->
  (forall past' db' a, past ⊆ past' -> answered past' c (Ok a) -> safe P (k a) past' db' Q) ->
  (forall past' db' e, past ⊆ past' -> Q (Err (WDB e)) past' db') ->
  safe P (andThen (storeW c) k) past db Q.
Proof.
  intros Hstep Hok Herr db0 _ env. split.
  - unfold P. cbn. destruct (sc_op c env) eqn:E; [by eapply Hstep|done].
  - intros db1 [a|e] Ho; cbn; [|intros db2 _; apply Herr; set_solver]. apply Hok; [set_solver|].
    destruct Ho as [E|(msg & [=] & _)]. exists db0, env. rewrite E. split; [set_solver|done].
Qed.

(** A read whose answer, or absence of rows, is inspected. *)
Lemma safe_look {R B} (f : callenv -> DB -> result dberr R) (k : result dberr R -> work B) past db Q :
  (forall past' db' r, past ⊆ past' -> answered past' (readCall f) r -> safe P (k r) past' db' Q) ->
  (forall past' db' msg, past ⊆ past' -> safe P (k (Err (Errorf msg))) past' db' Q) ->
  safe P (proc_bind (store (readCall f)) k) past db Q.
Proof.
  intros Hok Herr db0 _ env. split; [done|]. intros db1 r [E|(msg & -> & _)].
  - apply Hok; [set_solver|]. exists db0, env. rewrite E. split; [set_solver|done].
  - apply Herr. set_solver.
Qed.

Lemma okay_ret {A} (r : A) past db : okay (Ret r) past db.
Proof. by intros ? _. Qed.

Lemma orElse_okay (p next : work (result werr bool)) past db :
  okay p past db -> (forall past' db', okay next past' db') -> okay (orElse p next) past db.
Proof.
  intros Hp Hn. apply safe_andThen. eapply safe_mono; [|exact Hp].
  intros [[]|e] past' db' _; [apply okay_ret|apply Hn|apply okay_ret].
Qed.

Lemma runLoop_okay process n past db :
  (forall past db, okay process past db) -> okay (runLoop process n) past db.
Proof.
  intros Hp. revert past db. induction n as [|n IH]; intros past db; [by intros ? _|].
  cbn [runLoop]. apply safe_andThen. eapply safe_mono; [|apply Hp].
  intros [[]|e] past' db' _; [apply IH| |by intros ? _].
  apply safe_askW. intros db0 [e|] past'' _; [by intros ? _|apply IH].
Qed.

(** Every write of an execution of an [okay] routine is justified by what came before. *)
Lemma okay_event {A} (p : work A) db tr1 op db0 tr2 db' r :
  okay p [] db -> behaves p db (tr1 ++ EvStore (Some op) db0 :: tr2) db' r -> step tr1 op.
Proof. intros Hs Hb. by apply (safe_event _ _ _ _ _ _ _ _ _ Hs Hb). Qed.

(** ** Views *)

Section views.
Context `{LzAbi}.

(** The chain [eid] was asked for [v] of the contract [to] at [mode], and answered [r]. *)
Definition saw {R} (past : history) (eid : Z) (to : Address) (v : view R) (mode : address_mode) (r : R) : Prop :=
  exists data out, Pack v = Ok data /\ heard past (WCall eid to data mode) (Ok out) /\ Unpack v out = Ok r.

Lemma saw_mono {R} past past' eid to (v : view R) mode r :
  past ⊆ past' -> saw past eid to v mode r -> saw past' eid to v mode r.
Proof. intros Hs (data & out & Hd & Ho & Hu). exists data, out. split_and!; [done|by eapply heard_mono|done]. Qed.

(** A read that failed says so with the client's or the codec's error. *)
Definition read_failure (e : werr) : Prop := match e with WText _ | WClient _ => True | _ => False end.

Lemma view_reads_try {R} eid to (v : view R) anchor past db :
  safe P (callAndUnpack eid to v anchor) past db (fun r past' _ =>
    match r with Ok a => saw past' eid to v (CallAtAnchor anchor) a | Err e => read_failure e end).
Proof.
  unfold callAndUnpack. apply safe_pure; [|intros e He ? _; by destruct (Pack v); simplify_eq/=]. intros data Hd.
  apply safe_clientW; [|done]. intros past' db0 out _ Hh db1 _.
  destruct (Pack v) eqn:Hp; cbn in Hd; simplify_eq. destruct (Unpack v out) as [a|] eqn:Ha; cbn; [|done].
  by exists data, out.
Qed.

Lemma view_reads {R} eid to (v : view R) anchor past db :
  safe P (callAndUnpack eid to v anchor) past db (fun r past' _ =>
    forall a, r = Ok a -> saw past' eid to v (CallAtAnchor anchor) a).
Proof. eapply safe_mono; [|apply view_reads_try]. by intros [a|e] p' db' Hr b [= <-]. Qed.

Lemma safe_view {R B} eid to (v : view R) anchor (k : R -> work (result werr B)) past db
    (Q : result werr B -> history -> DB -> Prop) :
  (forall past' db0 a, past ⊆ past' -> saw past' eid to v (CallAtAnchor anchor) a -> safe P (k a) past' db0 Q) ->
  (forall past' db0 e, past ⊆ past' -> Q (Err e) past' db0) ->
  safe P (andThen (callAndUnpack eid to v anchor) k) past db Q.
Proof.
  intros Hok Herr. eapply safe_ok; [apply view_reads| |].
  - intros a past' db' Hs Ha. by apply Hok.
  - intros e past' db' Hs. by apply Herr.
Qed.
End views.
End rules.

Arguments saw {_ R} _ _ _ _ _ _.
