(* ===== verification/Executor.v ===== *)
(** * The executor worker (go/internal/executor/executor.go, readiness.go, txbuilder.go)

    Committing a verified packet and delivering it: each pass takes the oldest
    due job of a status, reads the destination chain at one anchor, and moves the
    job or enqueues a transaction. Log lines are left out. *)

From S2P Require Import Prelude GoErr Schema Outbox Jobs Store Quorum StateReads QuorumLogs.
From S2P Require Import LzCodec Registry Proc Worker.
From stdpp Require Import base gmap list strings numbers pretty.
From Stdlib Require Import ZArith Lia.
#[local] Open Scope Z_scope.

Definition TxPurposeCommitVerification : string := "executor_commit_verification".
Definition TxPurposeLzReceive : string := "executor_lz_receive".

Definition emptyPayloadHash : Hash := 0.
Definition nilPayloadHash : Hash := 2 ^ 256 - 1.

Inductive CommitState := CommitNotVerifiable | CommitVerifiable | CommitCommitted.
Inductive DeliveryState := DeliveryNotExecutable | DeliveryExecutable | DeliveryDelivered.

#[export] Instance CommitState_eq_dec : EqDecision CommitState.
Proof. solve_decision. Defined.
#[export] Instance DeliveryState_eq_dec : EqDecision DeliveryState.
Proof. solve_decision. Defined.

(** The chains with a caller. *)
Record ExecWorker := mkExecWorker { ew_registry : Registry; ew_callers : gset Z }.

(** New: the configured chains that have an RPC client, under their own endpoint id. *)
Definition NewExecWorker (registry : Registry) : ExecWorker :=
  mkExecWorker registry
    (list_to_set (omap (fun c => (fun _ => ch_EID c) <$> ch_RPC c) (All registry))).

(** A nil caller is [None]. *)
Definition caller (w : ExecWorker) (eid : Z) : option Z :=
  if decide (eid ∈ ew_callers w) then Some eid else None.

(** ExecutorWorkItem: the packet, and of the job its fee, status and retry count. *)
Abbreviation ExecutorWorkItem := (PacketRecord * (option Z * string * Z))%type.

(** ** Store calls *)

Definition cListExecutorWork (status : string) (limit : Z) : store_call (list ExecutorWorkItem) :=
  readCall (fun e => ListExecutorWork status limit (ce_now e)).
Definition cDeferExecutor (guid : Hash) (status : string) (delay : Z) : store_call unit :=
  opCall (fun _ => OpDeferExecutor guid status delay)
    (fun e => DeferExecutorJob guid status delay (ce_now e)) (fun _ _ => eq_refl).
Definition cEnqueueExecutor (guid : Hash) (expected next : string) (request : TxRequest) : store_call Z :=
  opCall (fun _ => OpEnqueueExecutor guid expected next request)
    (fun e => EnqueueExecutorTx guid expected next request (ce_now e)) (fun _ _ => eq_refl).

(** The status marks without further data. *)
Definition executor_mark (guid : Hash) (expected next : string) : executorStatusUpdate :=
  mkExecutorUpdate guid expected next None None "" false.
Definition cMarkWaitingDVN (guid : Hash) (expected : string) : store_call unit :=
  opCall (fun _ => OpExecutorStatus (executor_mark guid expected ExecutorWaitingDVNVerification))
    (fun e => MarkExecutorWaitingDVNVerification guid expected (ce_now e)) (fun _ _ => eq_refl).
Definition cMarkVerifiable (guid : Hash) (expected : string) : store_call unit :=
  opCall (fun _ => OpExecutorStatus (executor_mark guid expected ExecutorVerifiable))
    (fun e => MarkExecutorVerifiable guid expected (ce_now e)) (fun _ _ => eq_refl).
Definition cMarkCommittedFromChain (guid : Hash) (expected : string) : store_call unit :=
  opCall (fun _ => OpExecutorStatus (executor_mark guid expected ExecutorCommitted))
    (fun e => MarkExecutorCommittedFromChain guid expected (ce_now e)) (fun _ _ => eq_refl).
Definition cMarkExecutable (guid : Hash) : store_call unit :=
  opCall (fun _ => OpExecutorStatus (executor_mark guid ExecutorCommitted ExecutorExecutable))
    (fun e => MarkExecutorExecutable guid (ce_now e)) (fun _ _ => eq_refl).
Definition cMarkDeliveredFromChain (guid : Hash) (expected : string) : store_call unit :=
  opCall (fun _ => OpExecutorStatus (executor_mark guid expected ExecutorDelivered))
    (fun e => MarkExecutorDeliveredFromChain guid expected (ce_now e)) (fun _ _ => eq_refl).

Section executor.
Context `{LzAbi}.

(** ** Transactions (txbuilder.go) *)

Definition options_text (e : Options.options_err) : string :=
  match e with
  | Options.TruncatedHeader => "truncated executor option header"
  | Options.InvalidSize => "invalid executor option size"
  | Options.UnsupportedWorker id => "unsupported worker option id " +:+ pretty id
  | Options.UnsupportedNativeDrop => "unsupported native drop executor option"
  | Options.UnsupportedLzCompose => "unsupported lzCompose executor option"
  | Options.UnsupportedOrdered => "unsupported ordered execution executor option"
  | Options.UnsupportedLzRead => "unsupported lzRead executor option"
  | Options.UnsupportedOptionType t => "unsupported executor option type " +:+ pretty t
  | Options.DuplicateLzReceive => "duplicate lzReceive option"
  | Options.InvalidPayloadLength n => "invalid lzReceive option payload length " +:+ pretty n
  | Options.NonZeroValue => "non-zero lzReceive native value"
  | Options.GasRequired => "lzReceive gas is required"
  | Options.MissingLzReceive => "missing lzReceive option"
  | Options.OutOfFuel => "options decoder stopped"
  end.

Notation "'want' P 'or' msg ;; k" := (if decide P then k else Err (WText msg))
  (at level 10, P at level 99, msg at level 99, k at level 200).

Definition BuildCommitVerificationCalldata (packet : PacketRecord) : result werr bytes :=
  _ ← dbW (Validate packet);
  textW (PackReceiveUln302CommitVerification (k_PacketHeader packet) (k_PayloadHash packet)).

Definition BuildLzReceiveCalldata (packet : PacketRecord) (extraData : bytes) : result werr bytes :=
  _ ← dbW (Validate packet);
  textW (PackLzReceive (originFromPacket packet) (k_Receiver packet) (k_GUID packet) (k_Message packet) extraData).

Definition BuildCommitVerificationTx (packet : PacketRecord) (receiveLib : Address) (signerID : string)
    : result werr TxRequest :=
  want receiveLib <> 0 or "receive lib address is required" ;;
  want signerID <> ""%string or "signer id is required" ;;
  calldata ← BuildCommitVerificationCalldata packet;
  Ok (mkTxRequest (k_DstEID packet) TxPurposeCommitVerification (HashBytes (k_GUID packet)) receiveLib
        calldata (Some 0) signerID).

Definition BuildLzReceiveTx (packet : PacketRecord) (endpoint : Address) (signerID : string)
    : result werr TxRequest :=
  want endpoint <> 0 or "endpoint address is required" ;;
  want signerID <> ""%string or "signer id is required" ;;
  match Options.DecodeExecutorOptions (k_Options packet) with
  | Err e => Err (WText (options_text e))
  | Ok _ =>
    calldata ← BuildLzReceiveCalldata packet [];
    Ok (mkTxRequest (k_DstEID packet) TxPurposeLzReceive (HashBytes (k_GUID packet)) endpoint
          calldata (Some 0) signerID)
  end.

(** ** Readiness (readiness.go) *)

Definition CheckCommitState (caller : option Z) (endpoint receiveLib : Address) (packet : PacketRecord)
    (anchor : option StateAnchor) : work (result werr CommitState) :=
  let? _ := pure (dbW (Validate packet)) in
  match caller with
  | None => failW "contract caller is required"
  | Some eid =>
    need endpoint <> 0 or "endpoint address is required" ;;
    need receiveLib <> 0 or "receive lib address is required" ;;
    if decide (k_PayloadHash packet = emptyPayloadHash) then Ret (Ok CommitNotVerifiable) else
    let origin := originFromPacket packet in
    let? payloadHash := callAndUnpack eid endpoint
      (InboundPayloadHash (k_Receiver packet) (k_SrcEID packet) (og_Sender origin) (og_Nonce origin)) anchor in
    if decide (payloadHash = k_PayloadHash packet) then Ret (Ok CommitCommitted) else
    let? validReceiveLib := callAndUnpack eid endpoint
      (IsValidReceiveLibrary (k_Receiver packet) (k_SrcEID packet) receiveLib) anchor in
    if negb validReceiveLib then Ret (Ok CommitNotVerifiable) else
    let? endpointVerifiable := callAndUnpack eid endpoint (EndpointVerifiable origin (k_Receiver packet)) anchor in
    if negb endpointVerifiable then Ret (Ok CommitNotVerifiable) else
    let? config := callAndUnpack eid receiveLib (GetUlnConfig (k_Receiver packet) (k_SrcEID packet)) anchor in
    let? verifiable := callAndUnpack eid receiveLib
      (UlnVerifiable config (Keccak256Hash (k_PacketHeader packet)) (k_PayloadHash packet)) anchor in
    Ret (Ok (if verifiable : bool then CommitVerifiable else CommitNotVerifiable))
  end.

Definition IsCommitVerifiable (caller : option Z) (endpoint receiveLib : Address) (packet : PacketRecord)
    : work (result werr bool) :=
  let? state := CheckCommitState caller endpoint receiveLib packet None in
  Ret (Ok (bool_decide (state = CommitVerifiable))).

Definition CheckDeliveryState (caller : option Z) (endpoint : Address) (packet : PacketRecord)
    (anchor : option StateAnchor) : work (result werr DeliveryState) :=
  let? _ := pure (dbW (Validate packet)) in
  match caller with
  | None => failW "contract caller is required"
  | Some eid =>
    need endpoint <> 0 or "endpoint address is required" ;;
    let origin := originFromPacket packet in
    let? payloadHash := callAndUnpack eid endpoint
      (InboundPayloadHash (k_Receiver packet) (k_SrcEID packet) (og_Sender origin) (og_Nonce origin)) anchor in
    let? lazyInboundNonce := callAndUnpack eid endpoint
      (LazyInboundNonce (k_Receiver packet) (k_SrcEID packet) (og_Sender origin)) anchor in
    if decide (payloadHash = emptyPayloadHash /\ og_Nonce origin <= lazyInboundNonce)
    then Ret (Ok DeliveryDelivered) else
    if decide (payloadHash <> k_PayloadHash packet) then Ret (Ok DeliveryNotExecutable) else
    if decide (payloadHash = emptyPayloadHash \/ payloadHash = nilPayloadHash)
    then Ret (Ok DeliveryNotExecutable) else
    let? inboundNonce := callAndUnpack eid endpoint
      (InboundNonce (k_Receiver packet) (k_SrcEID packet) (og_Sender origin)) anchor in
    Ret (Ok (if decide (inboundNonce < og_Nonce origin) then DeliveryNotExecutable else DeliveryExecutable))
  end.

Definition IsLzReceiveExecutable (caller : option Z) (endpoint : Address) (packet : PacketRecord)
    : work (result werr bool) :=
  let? state := CheckDeliveryState caller endpoint packet None in
  Ret (Ok (bool_decide (state = DeliveryExecutable))).

(** ** Anchors (executor.go) *)

Definition confirmedReadBlock (w : ExecWorker) (eid : Z) : work (result werr (option Z)) :=
  let? configuredChain := pure (textW (Get (ew_registry w) eid)) in
  if decide (ch_Confirmations configuredChain = 0) then Ret (Ok None) else
  match caller w eid with
  | None => failW ("missing destination caller for eid " +:+ pretty eid)
  | Some eid =>
    let? head := clientW (WBlockNumber eid) in
    if decide (head < ch_Confirmations configuredChain) then Ret (Err WAwaitingConfirmations)
    else Ret (Ok (Some (head - ch_Confirmations configuredChain)))
  end.

Definition latestAnchor (caller : option Z) : work (result werr StateAnchor) :=
  match caller with
  | None => failW "destination caller is required"
  | Some eid =>
    let? head := clientW (WCheckHead eid) in
    pure (anchorOfHead head)
  end.

(** False while the chain is not deep enough, else the read at the deep
    block (a zero hash addresses the read by number). *)
Definition atConfirmedBlock (w : ExecWorker) (eid : Z) (read : StateAnchor -> work (result werr bool))
    : work (result werr bool) :=
  let! confBlock := confirmedReadBlock w eid in
  match confBlock with
  | Err WAwaitingConfirmations => Ret (Ok false)
  | Err e => Ret (Err e)
  | Ok n => read (mkAnchor n zeroHash)
  end.

Definition commitConfirmedOnChain (w : ExecWorker) (eid : Z) (endpoint receiveLib : Address)
    (packet : PacketRecord) : work (result werr bool) :=
  atConfirmedBlock w eid (fun anchor =>
    let? state := CheckCommitState (caller w eid) endpoint receiveLib packet (Some anchor) in
    Ret (Ok (bool_decide (state = CommitCommitted)))).

Definition deliveryConfirmedOnChain (w : ExecWorker) (eid : Z) (endpoint : Address)
    (packet : PacketRecord) : work (result werr bool) :=
  atConfirmedBlock w eid (fun anchor =>
    let? state := CheckDeliveryState (caller w eid) endpoint packet (Some anchor) in
    Ret (Ok (bool_decide (state = DeliveryDelivered)))).

(** ** Deferring and parking *)

Definition deferJob (guid : Hash) (status : string) : work (result werr bool) :=
  let? _ := storeW (cDeferExecutor guid status loopInterval) in
  Ret (Ok true).

Definition deferExecutorWorkError (item : ExecutorWorkItem) (status : string) : work (result werr bool) :=
  unlessDone (deferJob (k_GUID item.1) status).

Definition markExecutorManualReview (item : ExecutorWorkItem) (status : string) (cause : werr)
    : work (result werr bool) :=
  unlessDone (
    let? _ := storeW (cExecutorManualReview (k_GUID item.1) status (ErrorText cause)) in
    Ret (Ok true)).

(** [a, err := p; if err != nil { return w.deferExecutorWorkError(..) }] *)
Definition orDefer {A} (item : ExecutorWorkItem) (status : string) (p : work (result werr A))
    (k : A -> work (result werr bool)) : work (result werr bool) :=
  let! r := p in
  match r with Ok a => k a | Err _ => deferExecutorWorkError item status end.

(** The oldest due job of a status, if there is one. *)
Definition firstWork (status : string) (k : ExecutorWorkItem -> work (result werr bool))
    : work (result werr bool) :=
  let? items := storeW (cListExecutorWork status 1) in
  match items with [] => Ret (Ok false) | item :: _ => k item end.

Definition destinationAnchor (w : ExecWorker) (item : ExecutorWorkItem) (status : string)
    (k : StateAnchor -> work (result werr bool)) : work (result werr bool) :=
  orDefer item status (latestAnchor (caller w (k_DstEID item.1))) k.

Definition packetPathway (w : ExecWorker) (p : PacketRecord) : result werr Pathway :=
  textW (PathwayOf (ew_registry w) (k_SrcEID p) (k_DstEID p) (k_Sender p) (k_Receiver p)).

(** A terminal state seen at the tip is marked only once it holds at the deep block. *)
Definition markOnceConfirmed (item : ExecutorWorkItem) (status : string) (confirm : work (result werr bool))
    (mark : store_call unit) : work (result werr bool) :=
  orDefer item status confirm (fun confirmed =>
    if negb confirmed then deferJob (k_GUID item.1) status else
    let? _ := storeW mark in
    Ret (Ok true)).

(** Enqueue; an inactive scope leaves the job alone. *)
Definition enqueue (item : ExecutorWorkItem) (status next : string) (request : TxRequest)
    : work (result werr bool) :=
  let! r := store (cEnqueueExecutor (k_GUID item.1) status next request) in
  match r with
  | Ok _ => Ret (Ok true)
  | Err ErrTxSendScopeInactive => Ret (Ok false)
  | Err e => Ret (Err (WDB e))
  end.

(** ** The committer *)

(** The reads both committer steps start with: an enabled pathway, the destination chain and
    the commit state at one anchor. *)
Definition withCommitState (w : ExecWorker) (status : string) (item : ExecutorWorkItem)
    (k : Pathway -> Chain -> CommitState -> work (result werr bool)) : work (result werr bool) :=
  let packet := item.1 in
  orDefer item status (pure (packetPathway w packet)) (fun pathway =>
  if negb (pw_Enabled pathway) then deferJob (k_GUID packet) status else
  orDefer item status (pure (textW (Get (ew_registry w) (k_DstEID packet)))) (fun dstChain =>
  destinationAnchor w item status (fun anchor =>
  orDefer item status (CheckCommitState (caller w (k_DstEID packet)) (ch_EndpointAddress dstChain)
      (pw_ReceiveLib pathway) packet (Some anchor)) (fun state =>
  k pathway dstChain state)))).

Definition markCommitted (w : ExecWorker) (status : string) (item : ExecutorWorkItem) (pathway : Pathway)
    (dstChain : Chain) : work (result werr bool) :=
  markOnceConfirmed item status
    (commitConfirmedOnChain w (k_DstEID item.1) (ch_EndpointAddress dstChain) (pw_ReceiveLib pathway) item.1)
    (cMarkCommittedFromChain (k_GUID item.1) status).

Definition processCommitReadinessStatus (w : ExecWorker) (status : string) : work (result werr bool) :=
  firstWork status (fun item =>
  withCommitState w status item (fun pathway dstChain state =>
  match state with
  | CommitCommitted => markCommitted w status item pathway dstChain
  | CommitVerifiable =>
    let? _ := storeW (cMarkVerifiable (k_GUID item.1) status) in
    Ret (Ok true)
  | CommitNotVerifiable =>
    if decide (status = ExecutorAssigned) then
      let? _ := storeW (cMarkWaitingDVN (k_GUID item.1) status) in
      Ret (Ok true)
    else deferJob (k_GUID item.1) status
  end)).

Definition processVerifiable (w : ExecWorker) : work (result werr bool) :=
  let status := ExecutorVerifiable in
  firstWork status (fun item =>
  withCommitState w status item (fun pathway dstChain state =>
  match state with
  | CommitCommitted => markCommitted w status item pathway dstChain
  | CommitVerifiable =>
    let? request := pure (BuildCommitVerificationTx item.1 (pw_ReceiveLib pathway) (tr_SignerID (ch_Executor dstChain))) in
    enqueue item status ExecutorCommitTxEnqueued request
  | CommitNotVerifiable => deferJob (k_GUID item.1) status
  end)).

Definition ProcessCommitterOnce (w : ExecWorker) : work (result werr bool) :=
  orElse (processCommitReadinessStatus w ExecutorAssigned)
    (orElse (processCommitReadinessStatus w ExecutorWaitingDVNVerification) (processVerifiable w)).

(** ** The deliverer *)

Definition withDeliveryState (w : ExecWorker) (status : string) (item : ExecutorWorkItem)
    (k : Chain -> DeliveryState -> work (result werr bool)) : work (result werr bool) :=
  let packet := item.1 in
  orDefer item status (pure (textW (Get (ew_registry w) (k_DstEID packet)))) (fun dstChain =>
  destinationAnchor w item status (fun anchor =>
  orDefer item status (CheckDeliveryState (caller w (k_DstEID packet)) (ch_EndpointAddress dstChain)
      packet (Some anchor)) (fun state =>
  k dstChain state))).

Definition markDelivered (w : ExecWorker) (status : string) (item : ExecutorWorkItem) (dstChain : Chain)
    : work (result werr bool) :=
  markOnceConfirmed item status
    (deliveryConfirmedOnChain w (k_DstEID item.1) (ch_EndpointAddress dstChain) item.1)
    (cMarkDeliveredFromChain (k_GUID item.1) status).

Definition processExecutableReadiness (w : ExecWorker) : work (result werr bool) :=
  let status := ExecutorCommitted in
  firstWork status (fun item =>
  withDeliveryState w status item (fun dstChain state =>
  match state with
  | DeliveryDelivered => markDelivered w status item dstChain
  | DeliveryExecutable =>
    let? _ := storeW (cMarkExecutable (k_GUID item.1)) in
    Ret (Ok true)
  | DeliveryNotExecutable => deferJob (k_GUID item.1) status
  end)).

Definition retry_budget_reason (count : Z) : string :=
  "lzReceive reverted " +:+ pretty count +:+ " times, exceeding the " +:+
  pretty MaxLzReceiveDeliveryAttempts +:+ "-attempt retry budget".

Definition processDelivererStatus (w : ExecWorker) (status : string) : work (result werr bool) :=
  firstWork status (fun item =>
  withDeliveryState w status item (fun dstChain state =>
  match state with
  | DeliveryDelivered => markDelivered w status item dstChain
  | DeliveryExecutable =>
    let retries := item.2.2 in
    if decide (status = ExecutorLzReceiveFailed /\ MaxLzReceiveDeliveryAttempts <= retries) then
      markExecutorManualReview item status (WText (retry_budget_reason retries))
    else
      match BuildLzReceiveTx item.1 (ch_EndpointAddress dstChain) (tr_SignerID (ch_Executor dstChain)) with
      | Err e => markExecutorManualReview item status e
      | Ok request => enqueue item status ExecutorLzReceiveTxEnqueued request
      end
  | DeliveryNotExecutable => deferJob (k_GUID item.1) status
  end)).

Definition ProcessDelivererOnce (w : ExecWorker) : work (result werr bool) :=
  orElse (processExecutableReadiness w)
    (orElse (processDelivererStatus w ExecutorExecutable) (processDelivererStatus w ExecutorLzReceiveFailed)).

(** ** The loops *)

Definition RunCommitter (w : ExecWorker) (n : nat) : work (result werr unit) := runLoop (ProcessCommitterOnce w) n.
Definition RunDeliverer (w : ExecWorker) (n : nat) : work (result werr unit) := runLoop (ProcessDelivererOnce w) n.

End executor.
