(* ===== verification/ExecutorProofs.v ===== *)
(** * What the executor worker guarantees

    Every write of the committer and deliverer loops is backed by reads of the
    destination chain made before it: a transaction is enqueued only for a packet
    that was ready at one pinned tip, and a terminal state is recorded only when it
    also held at the block the chain's confirmation depth below its head. *)

From S2P Require Import Prelude GoErr Schema SendScope Outbox Jobs Store Quorum StateReads QuorumLogs.
From S2P Require Import LzCodec Registry Proc Worker WorkerProofs Executor.
From stdpp Require Import base gmap list strings numbers relations.
From Stdlib Require Import ZArith Lia.
#[local] Open Scope Z_scope.

Section proofs.
Context `{LzAbi}.

(** ** What the readiness checks read *)

Definition inbound_view (packet : PacketRecord) : view Hash :=
  let o := originFromPacket packet in
  InboundPayloadHash (k_Receiver packet) (k_SrcEID packet) (og_Sender o) (og_Nonce o).

(** The views that make a packet committable, all at one address of the state. *)
Definition commit_read (past : history) (eid : Z) (endpoint lib : Address) (packet : PacketRecord)
    (mode : address_mode) (state : CommitState) : Prop :=
  match state with
  | CommitCommitted => saw past eid endpoint (inbound_view packet) mode (k_PayloadHash packet)
  | CommitVerifiable => exists inbound config,
      inbound <> k_PayloadHash packet /\
      saw past eid endpoint (inbound_view packet) mode inbound /\
      saw past eid endpoint (IsValidReceiveLibrary (k_Receiver packet) (k_SrcEID packet) lib) mode true /\
      saw past eid endpoint (EndpointVerifiable (originFromPacket packet) (k_Receiver packet)) mode true /\
      saw past eid lib (GetUlnConfig (k_Receiver packet) (k_SrcEID packet)) mode config /\
      saw past eid lib (UlnVerifiable config (Keccak256Hash (k_PacketHeader packet)) (k_PayloadHash packet)) mode true
  | CommitNotVerifiable => True
  end.

Definition delivery_read (past : history) (eid : Z) (endpoint : Address) (packet : PacketRecord)
    (mode : address_mode) (state : DeliveryState) : Prop :=
  let o := originFromPacket packet in
  match state with
  | DeliveryDelivered => exists lazy, og_Nonce o <= lazy /\
      saw past eid endpoint (inbound_view packet) mode emptyPayloadHash /\
      saw past eid endpoint (LazyInboundNonce (k_Receiver packet) (k_SrcEID packet) (og_Sender o)) mode lazy
  | DeliveryExecutable => exists inbound,
      og_Nonce o <= inbound /\ ~ (k_PayloadHash packet = emptyPayloadHash \/ k_PayloadHash packet = nilPayloadHash) /\
      saw past eid endpoint (inbound_view packet) mode (k_PayloadHash packet) /\
      saw past eid endpoint (InboundNonce (k_Receiver packet) (k_SrcEID packet) (og_Sender o)) mode inbound
  | DeliveryNotExecutable => True
  end.

Lemma commit_read_mono past past' eid e l p m s :
  past ⊆ past' -> commit_read past eid e l p m s -> commit_read past' eid e l p m s.
Proof. destruct s; cbn; [done| |by apply saw_mono]. intros Hs. naive_solver eauto using saw_mono. Qed.
Lemma delivery_read_mono past past' eid e p m s :
  past ⊆ past' -> delivery_read past eid e p m s -> delivery_read past' eid e p m s.
Proof. destruct s; cbn; [done|..]; intros Hs; naive_solver eauto using saw_mono. Qed.

Section step.
Context (step : history -> store_op -> Prop).
Abbreviation P := (justified step).
Abbreviation okay p past db := (safe P p past db (fun _ _ _ => True)).

Lemma CheckCommitState_reads c endpoint lib packet anchor past db :
  safe P (CheckCommitState c endpoint lib packet anchor) past db (fun r past' _ =>
    forall s, r = Ok s -> exists eid, c = Some eid /\ commit_read past' eid endpoint lib packet (CallAtAnchor anchor) s).
Proof.
  unfold CheckCommitState. apply safe_pure; [|intros e _ ? _ s [=]]. intros _ _.
  destruct c as [eid|]; [|intros ? _ s [=]].
  case_decide; [|intros ? _ s [=]]. case_decide; [|intros ? _ s [=]].
  case_decide; [intros ? _ s [= <-]; by exists eid|].
  apply safe_view; [|intros ????? [=]]. intros p1 db1 inbound _ Hv1.
  case_decide as Heq; [intros ? _ s [= <-]; exists eid; cbn; by rewrite <- Heq|].
  apply safe_view; [|intros ????? [=]]. intros p2 db2 [] Hs2 Hv2; cbn; [|intros ? _ s [= <-]; by exists eid].
  apply safe_view; [|intros ????? [=]]. intros p3 db3 [] Hs3 Hv3; cbn; [|intros ? _ s [= <-]; by exists eid].
  apply safe_view; [|intros ????? [=]]. intros p4 db4 config Hs4 Hv4.
  apply safe_view; [|intros ????? [=]]. intros p5 db5 [] Hs5 Hv5; intros ? _ s [= <-]; exists eid; split; try done.
  exists inbound, config. split_and!; [done|eapply saw_mono; [|eassumption]; grow..].
Qed.

Lemma CheckDeliveryState_reads c endpoint packet anchor past db :
  safe P (CheckDeliveryState c endpoint packet anchor) past db (fun r past' _ =>
    forall s, r = Ok s -> exists eid, c = Some eid /\ delivery_read past' eid endpoint packet (CallAtAnchor anchor) s).
Proof.
  unfold CheckDeliveryState. apply safe_pure; [|intros e _ ? _ s [=]]. intros _ _.
  destruct c as [eid|]; [|intros ? _ s [=]]. case_decide; [|intros ? _ s [=]].
  apply safe_view; [|intros ????? [=]]. intros p1 db1 inbound _ Hv1.
  apply safe_view; [|intros ????? [=]]. intros p2 db2 lazy Hs2 Hv2.
  case_decide as Hd.
  { intros ? _ s [= <-]. exists eid. split; [done|]. destruct Hd as [-> Hle].
    exists lazy. split_and!; [done|by eapply saw_mono|done]. }
  case_decide as Hp; [intros ? _ s [= <-]; by exists eid|]. subst inbound.
  case_decide as Hn; [intros ? _ s [= <-]; by exists eid|].
  apply safe_view; [|intros ????? [=]]. intros p3 db3 n Hs3 Hv3. case_decide; intros ? _ s [= <-]; exists eid; split; try done.
  exists n. split_and!; [cbn in *; lia|done| |done]. eapply saw_mono; [|eassumption]. grow.
Qed.

(** ** Anchors *)

(** The state a confirmation depth below an observed head; the tip when the chain has no
    confirmation gate. *)
Definition deep (w : ExecWorker) (past : history) (eid : Z) (mode : address_mode) : Prop :=
  exists chain, Get (ew_registry w) eid = Ok chain /\
  ((ch_Confirmations chain = 0 /\ mode = AtCanonicalHead) \/
   exists head, heard past (WBlockNumber eid) (Ok head) /\ ch_Confirmations chain <= head /\
     mode = AtNumber (head - ch_Confirmations chain)).

Lemma deep_mono w past past' eid mode : past ⊆ past' -> deep w past eid mode -> deep w past' eid mode.
Proof.
  intros Hs (chain & Hg & [Hz|(head & Hh & Hr)]); exists chain; (split; [done|]); [by left|right].
  exists head. split; [by eapply heard_mono|done].
Qed.

Lemma latestAnchor_reads c past db :
  safe P (latestAnchor c) past db (fun r past' _ =>
    forall a, r = Ok a -> exists eid head, c = Some eid /\ a = AnchorFromHead head /\ tip past' eid head).
Proof.
  destruct c as [eid|]; [|intros ? _ a [=]]. apply safe_clientW; [|intros ????? [=]].
  intros p' db0 [[n|] h] _ Hh ? _ a [= <-]. by exists eid, (n, h).
Qed.

Lemma caller_Some w eid e : caller w eid = Some e -> e = eid.
Proof. unfold caller. case_decide; congruence. Qed.

Lemma confirmedReadBlock_reads w eid past db :
  safe P (confirmedReadBlock w eid) past db (fun r past' _ =>
    forall n, r = Ok n -> deep w past' eid (CallAtAnchor (Some (mkAnchor n zeroHash)))).
Proof.
  unfold confirmedReadBlock. apply safe_pure; [|intros e _ ? _ n [=]]. intros chain Hc.
  assert (Get (ew_registry w) eid = Ok chain) as Hg by (destruct (Get _ _); cbn in Hc; by simplify_eq).
  case_decide as Hz; [intros ? _ n [= <-]; exists chain; split; [done|by left]|].
  destruct (caller w eid) as [e|] eqn:He; [|intros ? _ n [=]]. apply caller_Some in He as ->.
  apply safe_clientW; [|intros ????? [=]]. intros p' db0 head _ Hh.
  case_decide; intros ? _ n [= <-]. exists chain. split; [done|]. right. exists head. split_and!; [done|lia|done].
Qed.

Lemma atConfirmedBlock_reads w eid (read : StateAnchor -> work (result werr bool)) (I : history -> address_mode -> Prop) past db :
  (forall past' db' anchor, safe P (read anchor) past' db' (fun r past'' _ =>
     r = Ok true -> I past'' (CallAtAnchor (Some anchor)))) ->
  safe P (atConfirmedBlock w eid read) past db (fun r past' _ =>
    r = Ok true -> exists mode, deep w past' eid mode /\ I past' mode).
Proof.
  intros Hr. unfold atConfirmedBlock. apply safe_bind. eapply safe_mono; [|apply confirmedReadBlock_reads].
  intros [n|e] past' db' Hd; [|by destruct e; intros ? _].
  eapply safe_post; [apply Hr|]. intros r past'' db'' Hs HI E. eexists. split; [|by apply HI].
  eapply deep_mono; [exact Hs|]. by apply Hd.
Qed.

Lemma commitConfirmed_reads w eid endpoint lib packet past db :
  safe P (commitConfirmedOnChain w eid endpoint lib packet) past db (fun r past' _ =>
    r = Ok true -> exists mode, deep w past' eid mode /\ commit_read past' eid endpoint lib packet mode CommitCommitted).
Proof.
  apply (atConfirmedBlock_reads w eid _ (fun past mode => commit_read past eid endpoint lib packet mode CommitCommitted)).
  intros past' db' anchor. eapply safe_ok; [apply CheckCommitState_reads| |done].
  intros s p'' db'' _ (e & He & Hr) ? _ Ht. apply caller_Some in He as ->. injection Ht as ->%bool_decide_eq_true. done.
Qed.

Lemma deliveryConfirmed_reads w eid endpoint packet past db :
  safe P (deliveryConfirmedOnChain w eid endpoint packet) past db (fun r past' _ =>
    r = Ok true -> exists mode, deep w past' eid mode /\ delivery_read past' eid endpoint packet mode DeliveryDelivered).
Proof.
  apply (atConfirmedBlock_reads w eid _ (fun past mode => delivery_read past eid endpoint packet mode DeliveryDelivered)).
  intros past' db' anchor. eapply safe_ok; [apply CheckDeliveryState_reads| |done].
  intros s p'' db'' _ (e & He & Hr) ? _ Ht. apply caller_Some in He as ->. injection Ht as ->%bool_decide_eq_true. done.
Qed.

(** ** Control flow *)

Context (step_defer : forall past guid status, step past (OpDeferExecutor guid status loopInterval)).

Lemma deferJob_okay guid status past db : okay (deferJob guid status) past db.
Proof. apply safe_storeW; [intros env op [= <-]; apply step_defer|]. intros. apply okay_ret. Qed.

Lemma orDefer_okay {A} item status (p : work (result werr A)) k past db (I : A -> history -> Prop) :
  safe P p past db (fun r past' _ => forall a, r = Ok a -> I a past') ->
  (forall a past' db', past ⊆ past' -> I a past' -> okay (k a) past' db') ->
  okay (orDefer item status p k) past db.
Proof.
  intros Hp Hk. unfold orDefer. apply safe_bind. eapply safe_post; [exact Hp|].
  intros [a|e] past' db' Hs HI; [by apply Hk, HI|].
  apply safe_unlessDone. intros. apply deferJob_okay.
Qed.

Lemma orDefer_pure_okay {A} item status (r : result werr A) k past db :
  (forall a, r = Ok a -> okay (k a) past db) -> okay (orDefer item status (pure r) k) past db.
Proof.
  intros Hk. unfold orDefer, pure. destruct r as [a|e]; cbn; [by apply Hk|].
  apply safe_unlessDone. intros. apply deferJob_okay.
Qed.

(** The oldest due job of the status, as read before. *)
Definition listed (past : history) (status : string) (item : ExecutorWorkItem) : Prop :=
  exists rest, stored past (ListExecutorWork status 1) (item :: rest).

Lemma listed_mono past past' status item : past ⊆ past' -> listed past status item -> listed past' status item.
Proof. intros Hs [rest Hl]. exists rest. by eapply stored_mono. Qed.

Lemma firstWork_okay status k past db :
  (forall item past' db', past ⊆ past' -> listed past' status item -> okay (k item) past' db') ->
  okay (firstWork status k) past db.
Proof.
  intros Hk. apply safe_readW; [|done]. intros past' db0 [|item rest] Hs Hl; [apply okay_ret|].
  apply Hk; [done|]. by exists rest.
Qed.

Lemma markOnceConfirmed_okay item status confirm (mark : store_call unit) past db (I : history -> Prop) :
  safe P confirm past db (fun r past' _ => r = Ok true -> I past') ->
  (forall past' env op, past ⊆ past' -> I past' -> sc_op mark env = Some op -> step past' op) ->
  okay (markOnceConfirmed item status confirm mark) past db.
Proof.
  intros Hc Hm. apply (orDefer_okay _ _ _ _ _ _ (fun b past' => b = true -> I past')).
  - eapply safe_mono; [|exact Hc]. intros r p' d' HI a -> ->. by apply HI.
  - intros [] past' db' Hs HI; cbn [negb]; [|apply deferJob_okay].
    apply safe_storeW; [|intros; apply okay_ret]. intros env op. apply Hm; [done|by apply HI].
Qed.

Lemma enqueue_okay item status next request past db :
  step past (OpEnqueueExecutor (k_GUID item.1) status next request) ->
  okay (enqueue item status next request) past db.
Proof.
  intros Hst. apply safe_store. intros db0 db1 env r _. split; [exact Hst|].
  intros _. destruct r as [?|[]]; apply okay_ret.
Qed.
End step.

(** ** The committer *)

(** The job was the oldest due one, its pathway is configured and enabled, and the commit
    state was read at a verified tip. *)
Record commit_evidence (w : ExecWorker) (past : history) (status : string) (item : ExecutorWorkItem)
    (pathway : Pathway) (chain : Chain) (state : CommitState) : Prop := {
  ce_listed : listed past status item;
  ce_pathway : packetPathway w item.1 = Ok pathway;
  ce_enabled : pw_Enabled pathway = true;
  ce_chain : Get (ew_registry w) (k_DstEID item.1) = Ok chain;
  ce_state : exists head, tip past (k_DstEID item.1) head /\
    commit_read past (k_DstEID item.1) (ch_EndpointAddress chain) (pw_ReceiveLib pathway) item.1 (at_tip head) state }.

(** What the committer writes, and on which evidence. *)
Definition committer_step (w : ExecWorker) (past : history) (op : store_op) : Prop :=
  match op with
  | OpDeferExecutor _ _ delay => delay = loopInterval
  | OpEnqueueExecutor guid expected next request => exists item pathway chain,
      commit_evidence w past ExecutorVerifiable item pathway chain CommitVerifiable /\
      guid = k_GUID item.1 /\ expected = ExecutorVerifiable /\ next = ExecutorCommitTxEnqueued /\
      BuildCommitVerificationTx item.1 (pw_ReceiveLib pathway) (tr_SignerID (ch_Executor chain)) = Ok request
  | OpExecutorStatus u => exists status item pathway chain state next,
      commit_evidence w past status item pathway chain state /\ u = executor_mark (k_GUID item.1) status next /\
      match state with
      | CommitVerifiable => next = ExecutorVerifiable
      | CommitNotVerifiable => status = ExecutorAssigned /\ next = ExecutorWaitingDVNVerification
      | CommitCommitted => next = ExecutorCommitted /\ exists mode, deep w past (k_DstEID item.1) mode /\
          commit_read past (k_DstEID item.1) (ch_EndpointAddress chain) (pw_ReceiveLib pathway) item.1 mode CommitCommitted
      end
  | _ => False
  end.

Section committer.
Context (w : ExecWorker).
Abbreviation okay p past db := (safe (justified (committer_step w)) p past db (fun _ _ _ => True)).

Lemma commit_evidence_mono past past' status item pathway chain state :
  past ⊆ past' -> commit_evidence w past status item pathway chain state ->
  commit_evidence w past' status item pathway chain state.
Proof.
  intros Hs [Hl Hp He Hc (head & Ht & Hr)]. split; try done; [by eapply listed_mono|].
  exists head. split; [by eapply heard_mono|by eapply commit_read_mono].
Qed.

Lemma withCommitState_okay status item k past db :
  listed past status item ->
  (forall pathway chain state past' db', past ⊆ past' ->
     commit_evidence w past' status item pathway chain state -> okay (k pathway chain state) past' db') ->
  okay (withCommitState w status item k) past db.
Proof.
  intros Hl Hk. unfold withCommitState. apply orDefer_pure_okay; [done|]. intros pathway Hp.
  destruct (pw_Enabled pathway) eqn:He; cbn [negb]; [|by apply deferJob_okay].
  apply orDefer_pure_okay; [done|]. intros chain Hc.
  eapply orDefer_okay; [done|apply latestAnchor_reads|].
  intros anchor p1 db1 Hs1 (eid & head & Hcl & -> & Ht). apply caller_Some in Hcl as ->.
  eapply orDefer_okay; [done|apply CheckCommitState_reads|].
  intros state p2 db2 Hs2 (eid & Hcl & Hr). apply caller_Some in Hcl as ->.
  apply Hk; [grow|]. split; try done.
  - eapply listed_mono; [|eassumption]. grow.
  - destruct (Get _ _); cbn in Hc; by simplify_eq.
  - exists head. split; [by eapply heard_mono|done].
Qed.

Lemma markCommitted_okay status item pathway chain past db :
  commit_evidence w past status item pathway chain CommitCommitted ->
  okay (markCommitted w status item pathway chain) past db.
Proof.
  intros He. eapply markOnceConfirmed_okay; [done|apply commitConfirmed_reads|].
  intros past' env op Hs (mode & Hd & Hr) [= <-].
  exists status, item, pathway, chain, CommitCommitted, ExecutorCommitted.
  split_and!; [by eapply commit_evidence_mono|done|done|by exists mode].
Qed.

Lemma readiness_okay status past db : okay (processCommitReadinessStatus w status) past db.
Proof.
  apply firstWork_okay. intros item p1 db1 _ Hl. apply withCommitState_okay; [done|].
  intros pathway chain state p2 db2 _ He. destruct state.
  - case_decide as Hst; [|by apply deferJob_okay].
    apply safe_storeW; [|intros; apply okay_ret]. intros env op [= <-]. by exists status, item, pathway, chain, CommitNotVerifiable, ExecutorWaitingDVNVerification.
  - apply safe_storeW; [|intros; apply okay_ret]. intros env op [= <-]. by exists status, item, pathway, chain, CommitVerifiable, ExecutorVerifiable.
  - by apply markCommitted_okay.
Qed.

Lemma verifiable_okay past db : okay (processVerifiable w) past db.
Proof.
  apply firstWork_okay. intros item p1 db1 _ Hl. apply withCommitState_okay; [done|].
  intros pathway chain state p2 db2 _ He. destruct state; [by apply deferJob_okay| |by apply markCommitted_okay].
  apply safe_pure; [|intros; apply okay_ret]. intros request Hreq.
  apply enqueue_okay. by exists item, pathway, chain.
Qed.

(** C5: every write of the committer loop, whatever the chain and the store answer, is a
    five-second deferral or is backed by reads made before it. A commitVerification request
    is enqueued only for the oldest due VERIFIABLE job of an enabled pathway, built from its
    packet, after the endpoint and the receive library both reported the packet verifiable and
    not yet committed at one hash-pinned verified tip; a job is marked committed only when
    the endpoint holds its payload hash at the tip and at the confirmation-deep block. *)
Theorem committer_writes_justified n db tr1 op db0 tr2 db' r :
  behaves (RunCommitter w n) db (tr1 ++ EvStore (Some op) db0 :: tr2) db' r -> committer_step w tr1 op.
Proof.
  intros Hb. refine (okay_event _ _ _ _ _ _ _ _ _ _ Hb). apply runLoop_okay. clear. intros past db.
  repeat (apply orElse_okay; [apply readiness_okay|intros]). apply verifiable_okay.
Qed.
End committer.

(** ** The deliverer *)

Record delivery_evidence (w : ExecWorker) (past : history) (status : string) (item : ExecutorWorkItem)
    (chain : Chain) (state : DeliveryState) : Prop := {
  de_listed : listed past status item;
  de_chain : Get (ew_registry w) (k_DstEID item.1) = Ok chain;
  de_state : exists head, tip past (k_DstEID item.1) head /\
    delivery_read past (k_DstEID item.1) (ch_EndpointAddress chain) item.1 (at_tip head) state }.

(** The retry count the list showed is below the budget, when the last delivery failed. *)
Definition within_budget (status : string) (item : ExecutorWorkItem) : Prop :=
  status = ExecutorExecutable \/ (status = ExecutorLzReceiveFailed /\ item.2.2 < MaxLzReceiveDeliveryAttempts).

Definition deliverer_step (w : ExecWorker) (past : history) (op : store_op) : Prop :=
  match op with
  | OpDeferExecutor _ _ delay => delay = loopInterval
  | OpEnqueueExecutor guid expected next request => exists item chain,
      delivery_evidence w past expected item chain DeliveryExecutable /\ within_budget expected item /\
      guid = k_GUID item.1 /\ next = ExecutorLzReceiveTxEnqueued /\
      BuildLzReceiveTx item.1 (ch_EndpointAddress chain) (tr_SignerID (ch_Executor chain)) = Ok request
  | OpExecutorStatus u => exists status item chain state,
      delivery_evidence w past status item chain state /\
      match state with
      | DeliveryExecutable =>
          (status = ExecutorCommitted /\ u = executor_mark (k_GUID item.1) status ExecutorExecutable) \/
          (exists reason, u = mkExecutorUpdate (k_GUID item.1) status ExecutorManualReview None None reason false /\
            ((status = ExecutorLzReceiveFailed /\ MaxLzReceiveDeliveryAttempts <= item.2.2) \/
             is_ok (BuildLzReceiveTx item.1 (ch_EndpointAddress chain) (tr_SignerID (ch_Executor chain))) = false))
      | DeliveryDelivered => u = executor_mark (k_GUID item.1) status ExecutorDelivered /\
          exists mode, deep w past (k_DstEID item.1) mode /\
          delivery_read past (k_DstEID item.1) (ch_EndpointAddress chain) item.1 mode DeliveryDelivered
      | DeliveryNotExecutable => False
      end
  | _ => False
  end.

Section deliverer.
Context (w : ExecWorker).
Abbreviation okay p past db := (safe (justified (deliverer_step w)) p past db (fun _ _ _ => True)).

Lemma delivery_evidence_mono past past' status item chain state :
  past ⊆ past' -> delivery_evidence w past status item chain state -> delivery_evidence w past' status item chain state.
Proof.
  intros Hs [Hl Hc (head & Ht & Hr)]. split; try done; [by eapply listed_mono|].
  exists head. split; [by eapply heard_mono|by eapply delivery_read_mono].
Qed.

Lemma withDeliveryState_okay status item k past db :
  listed past status item ->
  (forall chain state past' db', past ⊆ past' ->
     delivery_evidence w past' status item chain state -> okay (k chain state) past' db') ->
  okay (withDeliveryState w status item k) past db.
Proof.
  intros Hl Hk. unfold withDeliveryState. apply orDefer_pure_okay; [done|]. intros chain Hc.
  eapply orDefer_okay; [done|apply latestAnchor_reads|].
  intros anchor p1 db1 Hs1 (eid & head & Hcl & -> & Ht). apply caller_Some in Hcl as ->.
  eapply orDefer_okay; [done|apply CheckDeliveryState_reads|].
  intros state p2 db2 Hs2 (eid & Hcl & Hr). apply caller_Some in Hcl as ->.
  apply Hk; [grow|]. split.
  - eapply listed_mono; [|eassumption]. grow.
  - destruct (Get _ _); cbn in Hc; by simplify_eq.
  - exists head. split; [by eapply heard_mono|done].
Qed.

Lemma markDelivered_okay status item chain past db :
  delivery_evidence w past status item chain DeliveryDelivered -> okay (markDelivered w status item chain) past db.
Proof.
  intros He. eapply markOnceConfirmed_okay; [done|apply deliveryConfirmed_reads|].
  intros past' env op Hs (mode & Hd & Hr) [= <-]. exists status, item, chain, DeliveryDelivered.
  split_and!; [by eapply delivery_evidence_mono|done|by exists mode].
Qed.

Lemma executable_okay past db : okay (processExecutableReadiness w) past db.
Proof.
  apply firstWork_okay. intros item p1 db1 _ Hl. apply withDeliveryState_okay; [done|].
  intros chain state p2 db2 _ He. destruct state; [by apply deferJob_okay| |by apply markDelivered_okay].
  apply safe_storeW; [|intros; apply okay_ret]. intros env op [= <-].
  exists ExecutorCommitted, item, chain, DeliveryExecutable. split; [done|by left].
Qed.

Lemma manualReview_okay status item chain cause past db :
  delivery_evidence w past status item chain DeliveryExecutable ->
  (status = ExecutorLzReceiveFailed /\ MaxLzReceiveDeliveryAttempts <= item.2.2) \/
    is_ok (BuildLzReceiveTx item.1 (ch_EndpointAddress chain) (tr_SignerID (ch_Executor chain))) = false ->
  okay (markExecutorManualReview item status cause) past db.
Proof.
  intros He Hwhy. apply safe_unlessDone. intros past' db' Hs. apply safe_storeW; [|intros; apply okay_ret].
  intros env op [= <-]. exists status, item, chain, DeliveryExecutable.
  split; [by eapply delivery_evidence_mono|]. right. by exists (ErrorText cause).
Qed.

Lemma delivererStatus_okay status past db :
  status = ExecutorExecutable \/ status = ExecutorLzReceiveFailed -> okay (processDelivererStatus w status) past db.
Proof.
  intros Hst. apply firstWork_okay. intros item p1 db1 _ Hl. apply withDeliveryState_okay; [done|].
  intros chain state p2 db2 _ He. destruct state; [by apply deferJob_okay| |by apply markDelivered_okay].
  cbv zeta. destruct (decide (status = ExecutorLzReceiveFailed /\ MaxLzReceiveDeliveryAttempts <= item.2.2)) as [Hb|Hb];
    [eapply manualReview_okay; [exact He|by left]|].
  destruct (BuildLzReceiveTx _ _ _) as [request|e] eqn:Hreq;
    [|eapply manualReview_okay; [exact He|right; by rewrite Hreq]].
  apply enqueue_okay. exists item, chain. split_and!; [done| |done..].
  destruct Hst as [-> | ->]; [by left|]. right. split; [done|].
  apply Znot_ge_lt. intros Hge. apply Hb. split; [done|lia].
Qed.

(** C6: every write of the deliverer loop is a five-second deferral or is backed by reads made
    before it. An lzReceive request is enqueued only for the oldest due EXECUTABLE job, or a
    failed one with fewer than five counted failures, whose payload hash the endpoint held at a
    verified tip with the inbound nonce reaching it; a job is marked delivered only when the
    endpoint had cleared the payload both at the tip and at the confirmation-deep block; a job is
    parked only when its retry budget is used up or its transaction cannot be built. *)
Theorem deliverer_writes_justified n db tr1 op db0 tr2 db' r :
  behaves (RunDeliverer w n) db (tr1 ++ EvStore (Some op) db0 :: tr2) db' r -> deliverer_step w tr1 op.
Proof.
  intros Hb. refine (okay_event _ _ _ _ _ _ _ _ _ _ Hb). apply runLoop_okay. clear. intros past db.
  apply orElse_okay; [apply executable_okay|]. intros past' db'.
  apply orElse_okay; [by apply delivererStatus_okay; left|]. intros. by apply delivererStatus_okay; right.
Qed.
End deliverer.
End proofs.
