(* ===== verification/PacketLogs.v ===== *)
(** * Contract events and source transactions (go/internal/lzabi, go/internal/indexer/packets.go,
      source_tx.go, dvn_source_tx.go, source_segments.go, executor_jobs.go)

    Decoding the worker contracts' logs, and cross-checking the logs of one source
    transaction into packets with their executor and DVN assignments. The ABI
    decoder of go-ethereum and the event topics are the interface [EventAbi]. *)

From S2P Require Import Prelude GoErr Schema Outbox Jobs Voting Quorum StateReads QuorumLogs.
From S2P Require Import LzCodec Registry Proc Worker Executor.
From stdpp Require Import base gmap list strings numbers pretty.
From Stdlib Require Import ZArith Lia.
#[local] Open Scope Z_scope.

(** ** Events *)

Record PacketSent := mkPacketSent { ps_EncodedPayload : bytes; ps_Options : bytes; ps_SendLibrary : Address }.
Record PacketVerified := mkPacketVerified { pf_Origin : Origin; pf_Receiver : Address; pf_PayloadHash : Hash }.
Record PacketDelivered := mkPacketDelivered { pd_Origin : Origin; pd_Receiver : Address }.
Record LzReceiveAlert := mkAlert {
  al_Receiver : Address; al_Executor : Address; al_Origin : Origin; al_GUID : Hash; al_Gas : Z;
  al_Value : Z; al_Message : bytes; al_ExtraData : bytes; al_Reason : bytes }.
Record ExecutorJobAssigned := mkExecutorAssigned {
  ea_DstEID : Z; ea_Sender : Address; ea_SendLib : Address; ea_CalldataSize : option Z;
  ea_Price : option Z; ea_Options : bytes }.
Record DVNJobAssigned := mkDVNAssigned {
  da_JobID : Hash; da_DstEID : Z; da_Sender : Address; da_SendLib : Address;
  da_Confirmations : Z; da_Fee : option Z }.
Record ExecutorFeePaid := mkExecutorFeePaid { xf_Executor : Address; xf_Fee : option Z }.
Record DVNFeePaid := mkDVNFeePaid {
  df_RequiredDVNs : list Address; df_OptionalDVNs : list Address; df_Fees : list (option Z) }.
Record PayloadVerified := mkPayloadVerified {
  pl_DVN : Address; pl_Header : bytes; pl_Confirmations : option Z; pl_ProofHash : Hash }.

(** Event ids, UnpackIntoInterface of the data of a log (an indexed field is left zero) and
    common.HexToAddress. *)
Class EventAbi := {
  ev_lz :: LzAbi;
  PacketSentTopic : Hash; PacketVerifiedTopic : Hash; PacketDeliveredTopic : Hash;
  LzReceiveAlertTopic : Hash; ExecutorJobAssignedTopic : Hash; DVNJobAssignedTopic : Hash;
  ExecutorFeePaidTopic : Hash; DVNFeePaidTopic : Hash; PayloadVerifiedTopic : Hash;
  UnpackPacketSent : bytes -> result string PacketSent;
  UnpackPacketVerified : bytes -> result string PacketVerified;
  UnpackPacketDelivered : bytes -> result string PacketDelivered;
  UnpackLzReceiveAlert : bytes -> result string LzReceiveAlert;
  UnpackExecutorJobAssigned : bytes -> result string ExecutorJobAssigned;
  UnpackDVNJobAssigned : bytes -> result string DVNJobAssigned;
  UnpackExecutorFeePaid : bytes -> result string ExecutorFeePaid;
  UnpackDVNFeePaid : bytes -> result string DVNFeePaid;
  UnpackPayloadVerified : bytes -> result string PayloadVerified;
  HexToAddress : string -> Address }.

Section events.
Context `{EventAbi}.

Definition logHasTopic (log : Log) (topic : Hash) : Prop := head (lg_Topics log) = Some topic.
#[export] Instance logHasTopic_dec log topic : Decision (logHasTopic log topic).
Proof. unfold logHasTopic. apply _. Defined.

Definition topic_at (log : Log) (i : nat) : Hash := default 0 (lg_Topics log !! i).
(** common.BytesToAddress(topic.Bytes()[12:]) and uint32(topic.Big().Uint64()) *)
Definition topic_address (t : Hash) : Address := BytesToAddress (slice (HashBytes t) 12 32).
Definition topic_uint32 (t : Hash) : Z := (t mod 2 ^ 64) mod 2 ^ 32.

Definition DecodePacketSent (log : Log) : result string PacketSent :=
  check logHasTopic log PacketSentTopic or "log is not EndpointV2 PacketSent"%string ;;
  UnpackPacketSent (lg_Data log).
Definition DecodePacketVerified (log : Log) : result string PacketVerified :=
  check logHasTopic log PacketVerifiedTopic or "log is not EndpointV2 PacketVerified"%string ;;
  UnpackPacketVerified (lg_Data log).
Definition DecodePacketDelivered (log : Log) : result string PacketDelivered :=
  check logHasTopic log PacketDeliveredTopic or "log is not EndpointV2 PacketDelivered"%string ;;
  UnpackPacketDelivered (lg_Data log).
Definition DecodeLzReceiveAlert (log : Log) : result string LzReceiveAlert :=
  check logHasTopic log LzReceiveAlertTopic or "log is not EndpointV2 LzReceiveAlert"%string ;;
  check length (lg_Topics log) = 3%nat
    or "EndpointV2 LzReceiveAlert must have receiver and executor topics"%string ;;
  d ← UnpackLzReceiveAlert (lg_Data log);
  Ok (mkAlert (topic_address (topic_at log 1)) (topic_address (topic_at log 2)) (al_Origin d) (al_GUID d)
        (al_Gas d) (al_Value d) (al_Message d) (al_ExtraData d) (al_Reason d)).
Definition DecodeExecutorJobAssigned (log : Log) : result string ExecutorJobAssigned :=
  check length (lg_Topics log) = 4%nat /\ logHasTopic log ExecutorJobAssignedTopic
    or "log is not OpenExecutor ExecutorJobAssigned"%string ;;
  e ← UnpackExecutorJobAssigned (lg_Data log);
  Ok (mkExecutorAssigned (topic_uint32 (topic_at log 1)) (topic_address (topic_at log 2))
        (topic_address (topic_at log 3)) (ea_CalldataSize e) (ea_Price e) (ea_Options e)).
Definition DecodeDVNJobAssigned (log : Log) : result string DVNJobAssigned :=
  check length (lg_Topics log) = 4%nat /\ logHasTopic log DVNJobAssignedTopic
    or "log is not OpenDVN DVNJobAssigned"%string ;;
  e ← UnpackDVNJobAssigned (lg_Data log);
  Ok (mkDVNAssigned (topic_at log 1) (topic_uint32 (topic_at log 2)) (topic_address (topic_at log 3))
        (da_SendLib e) (da_Confirmations e) (da_Fee e)).
Definition DecodeExecutorFeePaid (log : Log) : result string ExecutorFeePaid :=
  check logHasTopic log ExecutorFeePaidTopic or "log is not SendUln302 ExecutorFeePaid"%string ;;
  UnpackExecutorFeePaid (lg_Data log).
Definition DecodeDVNFeePaid (log : Log) : result string DVNFeePaid :=
  check logHasTopic log DVNFeePaidTopic or "log is not SendUln302 DVNFeePaid"%string ;;
  UnpackDVNFeePaid (lg_Data log).
Definition DecodePayloadVerified (log : Log) : result string PayloadVerified :=
  check logHasTopic log PayloadVerifiedTopic or "log is not ReceiveUln302 PayloadVerified"%string ;;
  UnpackPayloadVerified (lg_Data log).

(** ** Packets (packets.go) *)

Definition packetV1RouteLength : nat := 81.

Record packetV1Route := mkRoute { rt_SrcEID : Z; rt_DstEID : Z; rt_Sender : Address; rt_Receiver : Address }.

Definition packetRouteFromSentLog (log : Log) : result string (packetV1Route * PacketSent) :=
  event ← DecodePacketSent log;
  let p := ps_EncodedPayload event in
  check (packetV1RouteLength <= length p)%nat
    or ("packet length " +:+ pretty (length p) +:+ " is shorter than PacketV1 header")%string ;;
  Ok (mkRoute (be_combine (slice p 9 13)) (be_combine (slice p 45 49))
        (BytesToAddress (slice p 13 45)) (BytesToAddress (slice p 49 81)), event).

Definition packet_err_text (e : Packet.packet_err) : string :=
  match e with
  | Packet.BadHeaderLength n => "packet header length " +:+ pretty n +:+ " is not 81"
  | Packet.PacketTooShort n => "packet length " +:+ pretty n +:+ " is shorter than PacketV1 header+guid"
  | Packet.UnsupportedVersion v => "unsupported packet version " +:+ pretty v
  | Packet.ZeroNonce => "packet nonce is zero"
  | Packet.EIDsRequired => "packet source and destination eids are required"
  | Packet.EIDsMustDiffer => "packet source and destination eids must differ"
  | Packet.EndpointsRequired => "packet sender and receiver are required"
  | Packet.GUIDRequired => "packet guid is required"
  end.

Definition PacketRecordFromSentLog (log : Log) : result string PacketRecord :=
  event ← DecodePacketSent log;
  match Packet.DecodePacketV1 Keccak256Hash (ps_EncodedPayload event) with
  | Err e => Err (packet_err_text e)
  | Ok p =>
    Ok (mkPacketRecord (Packet.p_GUID p) (Packet.p_SrcEID p) (Packet.p_DstEID p) (Some (Packet.p_Nonce p))
          (Packet.p_Sender p) (Packet.p_Receiver p) (ps_SendLibrary event) (lg_TxHash log)
          (lg_BlockNumber log) (lg_Index log) (ps_EncodedPayload event) (Packet.p_Header p)
          (Packet.p_Message p) (Packet.p_PayloadHash p) (ps_Options event) ExecutorNew)
  end.

(** ** The logs of one transaction (source_segments.go) *)

Definition index_less (a b : Log) : bool := bool_decide (lg_Index a < lg_Index b).

Definition orderedSourceTxLogs (logs : list Log) : result string (list Log) :=
  match stable_sort index_less logs with
  | [] => Ok []
  | first :: rest =>
    check Forall (fun log => lg_TxHash log = lg_TxHash first) rest
      or "source tx logs contain multiple transaction hashes"%string ;;
    Ok (first :: rest)
  end.

(** ** Executor assignments (executor_jobs.go, source_tx.go) *)

Definition ExecutorJobFromAssignment (packet : PacketRecord) (a : ExecutorJobAssigned)
    : result string ExecutorJobRecord :=
  check k_DstEID packet = ea_DstEID a
    or ("executor assignment dst eid " +:+ pretty (ea_DstEID a) +:+ " does not match packet dst eid "
        +:+ pretty (k_DstEID packet))%string ;;
  check k_Sender packet = ea_Sender a
    or ("executor assignment sender " +:+ AddressHex (ea_Sender a) +:+ " does not match packet sender "
        +:+ AddressHex (k_Sender packet))%string ;;
  check k_SendLib packet = ea_SendLib a
    or ("executor assignment send lib " +:+ AddressHex (ea_SendLib a) +:+ " does not match packet send lib "
        +:+ AddressHex (k_SendLib packet))%string ;;
  let '(status, lastError) :=
    match Options.DecodeExecutorOptions (ea_Options a) with
    | Ok _ => (ExecutorAssigned, ""%string)
    | Err e => (ExecutorManualReview, ("unsupported executor options: " +:+ options_text e)%string)
    end in
  Ok (mkExecutorJobRecord (k_GUID packet) (ea_Price a) status lastError 0 0).

Record ExecutorSourceTxRecords := mkExecutorRecords {
  xr_Packet : PacketRecord; xr_ExecutorJob : ExecutorJobRecord; xr_Executor : Address }.
Record executorSourcePacketGap := mkExecutorGap { xg_Packet : PacketRecord; xg_Executor : Address }.

Record executorSourceSegment := mkSegment {
  sg_feePaid : option ExecutorFeePaid; sg_feeLogAddress : Address; sg_feePaidCount : Z;
  sg_assignment : option ExecutorJobAssigned; sg_assignmentLogAddress : Address }.
Definition emptySegment : executorSourceSegment := mkSegment None 0 0 None 0.

(** A record, a gap, or neither. *)
Definition recordsFromPacket (s : executorSourceSegment) (log : Log)
    : result string (option (ExecutorSourceTxRecords + executorSourcePacketGap)) :=
  if decide (sg_assignment s = None /\ sg_feePaidCount s = 0) then Ok None else
  packet ← PacketRecordFromSentLog log;
  check sg_feePaidCount s <> 0 or "source tx send segment missing ExecutorFeePaid log"%string ;;
  check sg_feePaidCount s <= 1 or "source tx send segment contains multiple ExecutorFeePaid logs"%string ;;
  match sg_feePaid s with
  | None => Err "source tx send segment missing ExecutorFeePaid log"%string
  | Some fee =>
    check k_SendLib packet = sg_feeLogAddress s
      or ("PacketSent send lib " +:+ AddressHex (k_SendLib packet) +:+
          " does not match ExecutorFeePaid log address " +:+ AddressHex (sg_feeLogAddress s))%string ;;
    match sg_assignment s with
    | None => Ok (Some (inr (mkExecutorGap packet (xf_Executor fee))))
    | Some assignment =>
      check xf_Executor fee = sg_assignmentLogAddress s
        or ("executor fee paid executor " +:+ AddressHex (xf_Executor fee) +:+
            " does not match assignment log address " +:+ AddressHex (sg_assignmentLogAddress s))%string ;;
      check is_Some (ea_Price assignment) /\ ea_Price assignment = xf_Fee fee
        or "executor assignment price does not match fee paid"%string ;;
      job ← ExecutorJobFromAssignment packet assignment;
      Ok (Some (inl (mkExecutorRecords packet job (sg_assignmentLogAddress s))))
    end
  end.

#[export] Instance ExecutorJobAssigned_eq_dec : EqDecision ExecutorJobAssigned.
Proof. solve_decision. Defined.

(** One turn of the loop: the records and gaps so far, and the open segment. *)
Definition executor_source_step
    (st : list ExecutorSourceTxRecords * list executorSourcePacketGap * executorSourceSegment) (log : Log)
    : result string (list ExecutorSourceTxRecords * list executorSourcePacketGap * executorSourceSegment) :=
  let '(records, gaps, s) := st in
  if decide (logHasTopic log ExecutorJobAssignedTopic) then
    check sg_assignment s = None or "source tx send segment contains multiple ExecutorJobAssigned logs"%string ;;
    event ← DecodeExecutorJobAssigned log;
    Ok (records, gaps, mkSegment (sg_feePaid s) (sg_feeLogAddress s) (sg_feePaidCount s)
          (Some event) (lg_Address log))
  else if decide (logHasTopic log ExecutorFeePaidTopic) then
    event ← DecodeExecutorFeePaid log;
    Ok (records, gaps, mkSegment (Some event) (lg_Address log) (sg_feePaidCount s + 1)
          (sg_assignment s) (sg_assignmentLogAddress s))
  else if decide (logHasTopic log PacketSentTopic) then
    out ← recordsFromPacket s log;
    Ok (match out with
        | Some (inl record) => (records ++ [record], gaps, emptySegment)
        | Some (inr gap) => (records, gaps ++ [gap], emptySegment)
        | None => (records, gaps, emptySegment)
        end)
  else Ok st.

Fixpoint fold_result {E A S} (f : S -> A -> result E S) (s : S) (l : list A) : result E S :=
  match l with
  | [] => Ok s
  | x :: l => s' ← f s x; fold_result f s' l
  end.

Definition decodeExecutorSourceTxLogs (logs : list Log)
    : result string (list ExecutorSourceTxRecords * list executorSourcePacketGap) :=
  ordered ← orderedSourceTxLogs logs;
  st ← fold_result executor_source_step ([], [], emptySegment) ordered;
  check sg_assignment st.2 = None
    or "source tx contains ExecutorJobAssigned without following PacketSent"%string ;;
  Ok st.1.

Definition ExecutorSourceTxRecordsFromLogs (logs : list Log) : result string (list ExecutorSourceTxRecords) :=
  rg ← decodeExecutorSourceTxLogs logs; Ok rg.1.

(** ** DVN assignments (dvn_source_tx.go) *)

Record DVNSourceTxRecords := mkDVNRecords {
  vr_Packet : PacketRecord; vr_DVNJob : DVNJobRecord; vr_DVN : Address }.
Record dvnSourcePacketGap := mkDVNGap { vg_Packet : PacketRecord; vg_Fee : DVNFeePaid }.
Record dvnFeeEvent := mkFeeEvent { fe_Log : Log; fe_Event : DVNFeePaid; fe_Matched : bool }.
Record dvnAssignmentEvent := mkAssignmentEvent { ae_Log : Log; ae_Event : DVNJobAssigned; ae_Matched : bool }.

Definition dvnAssignmentMatchesPacket (a : DVNJobAssigned) (packet : PacketRecord) : Prop :=
  da_DstEID a = k_DstEID packet /\ da_Sender a = k_Sender packet /\ da_SendLib a = k_SendLib packet.
#[export] Instance dvnAssignmentMatchesPacket_dec a p : Decision (dvnAssignmentMatchesPacket a p).
Proof. unfold dvnAssignmentMatchesPacket. apply _. Defined.

Definition dvnFeeMatches (event : DVNFeePaid) (expectedDVN : Address) (expectedFee : option Z) : bool :=
  match expectedFee with
  | None => false
  | Some fee =>
    let dvns := df_RequiredDVNs event ++ df_OptionalDVNs event in
    if decide (length dvns <> length (df_Fees event)) then false
    else bool_decide (Exists (fun x => x.1 = expectedDVN /\ x.2 = Some fee) (zip dvns (df_Fees event)))
  end.

(** The indices of the elements that satisfy [P], in order. *)
Definition indices {A} (P : A -> Prop) `{forall x, Decision (P x)} (l : list A) : list nat :=
  omap (fun x => x) (imap (fun i x => if decide (P x) then Some i else None) l).

Definition latestUnmatchedDVNFee (fees : list dvnFeeEvent) (sendLib : Address) : option nat :=
  last (indices (fun f => fe_Matched f = false /\ lg_Address (fe_Log f) = sendLib) fees).

Definition open_assignment (packet : PacketRecord) (a : dvnAssignmentEvent) : Prop :=
  ae_Matched a = false /\ dvnAssignmentMatchesPacket (ae_Event a) packet.
#[export] Instance open_assignment_dec p a : Decision (open_assignment p a).
Proof. unfold open_assignment. apply _. Defined.

Definition matchingDVNAssignment (assignments : list dvnAssignmentEvent) (packet : PacketRecord)
    (fee : DVNFeePaid) : result string (option nat) :=
  let candidates := indices (open_assignment packet) assignments in
  let matches := indices (fun a => open_assignment packet a /\
    dvnFeeMatches fee (lg_Address (ae_Log a)) (da_Fee (ae_Event a)) = true) assignments in
  match matches with
  | [i] => Ok (Some i)
  | _ :: _ => Err ("packet " +:+ HashHex (k_GUID packet) +:+ " matches multiple DVNJobAssigned logs")%string
  | [] =>
    match candidates with
    | _ :: _ => Err "dvn fee paid does not include assigned dvn fee"%string
    | [] => Ok None
    end
  end.

Definition hasUnmatchedDVNAssignmentForPacket (assignments : list dvnAssignmentEvent) (packet : PacketRecord) : bool :=
  bool_decide (Exists (open_assignment packet) assignments).
Definition hasUnmatchedDVNAssignment (assignments : list dvnAssignmentEvent) : bool :=
  bool_decide (Exists (fun a => ae_Matched a = false) assignments).

(** new(big.Int).Set(fee) of a decoded event, whose fee is never nil. *)
Definition dvnRecordFromMatchedLogs (packet : PacketRecord) (a : dvnAssignmentEvent) : DVNSourceTxRecords :=
  mkDVNRecords packet
    (mkDVNJobRecord (k_GUID packet) (da_Fee (ae_Event a)) (da_Confirmations (ae_Event a)) DVNAssigned "")
    (lg_Address (ae_Log a)).

Record dvn_source_state := mkDVNState {
  ds_records : list DVNSourceTxRecords; ds_gaps : list dvnSourcePacketGap;
  ds_fees : list dvnFeeEvent; ds_assignments : list dvnAssignmentEvent }.

Definition dvn_packet_step (endpoint : Address) (st : dvn_source_state) (log : Log)
    : result string dvn_source_state :=
  check ~ (endpoint <> 0 /\ lg_Address log <> endpoint)
    or ("source tx PacketSent address " +:+ AddressHex (lg_Address log) +:+ " does not match endpoint "
        +:+ AddressHex endpoint)%string ;;
  packet ← PacketRecordFromSentLog log;
  match latestUnmatchedDVNFee (ds_fees st) (k_SendLib packet) with
  | None =>
    if hasUnmatchedDVNAssignmentForPacket (ds_assignments st) packet
    then Err "source tx PacketSent missing matching DVNFeePaid log"%string else Ok st
  | Some feeIndex =>
    match ds_fees st !! feeIndex with
    | None => Ok st
    | Some fee =>
      assignmentIndex ← matchingDVNAssignment (ds_assignments st) packet (fe_Event fee);
      let fees := <[feeIndex := mkFeeEvent (fe_Log fee) (fe_Event fee) true]> (ds_fees st) in
      match (i ← assignmentIndex; (fun a => (i, a)) <$> ds_assignments st !! i) with
      | Some (i, a) =>
        let a := mkAssignmentEvent (ae_Log a) (ae_Event a) true in
        Ok (mkDVNState (ds_records st ++ [dvnRecordFromMatchedLogs packet a]) (ds_gaps st) fees
              (<[i := a]> (ds_assignments st)))
      | None =>
        Ok (mkDVNState (ds_records st) (ds_gaps st ++ [mkDVNGap packet (fe_Event fee)]) fees (ds_assignments st))
      end
    end
  end.

Definition dvn_source_step (endpoint : Address) (st : dvn_source_state) (log : Log)
    : result string dvn_source_state :=
  if decide (logHasTopic log DVNJobAssignedTopic) then
    event ← DecodeDVNJobAssigned log;
    Ok (mkDVNState (ds_records st) (ds_gaps st) (ds_fees st)
          (ds_assignments st ++ [mkAssignmentEvent log event false]))
  else if decide (logHasTopic log DVNFeePaidTopic) then
    event ← DecodeDVNFeePaid log;
    Ok (mkDVNState (ds_records st) (ds_gaps st) (ds_fees st ++ [mkFeeEvent log event false]) (ds_assignments st))
  else if decide (logHasTopic log PacketSentTopic) then dvn_packet_step endpoint st log
  else Ok st.

Definition decodeDVNSourceTxLogsForEndpoint (logs : list Log) (endpoint : Address)
    : result string (list DVNSourceTxRecords * list dvnSourcePacketGap) :=
  ordered ← orderedSourceTxLogs logs;
  st ← fold_result (dvn_source_step endpoint) (mkDVNState [] [] [] []) ordered;
  check hasUnmatchedDVNAssignment (ds_assignments st) = false
    or "source tx contains DVNJobAssigned without following PacketSent"%string ;;
  Ok (ds_records st, ds_gaps st).

Definition DVNSourceTxRecordsFromLogsForEndpoint (logs : list Log) (endpoint : Address)
    : result string (list DVNSourceTxRecords) :=
  rg ← decodeDVNSourceTxLogsForEndpoint logs endpoint; Ok rg.1.
Definition DVNSourceTxRecordsFromLogs (logs : list Log) : result string (list DVNSourceTxRecords) :=
  DVNSourceTxRecordsFromLogsForEndpoint logs 0.

End events.
