(* ===== verification/PacketLogsProofs.v ===== *)
(** * Source transactions are decoded without loss

    Every assignment log of a source transaction becomes exactly one record, and
    each record is backed by the assignment, fee and packet logs it was made from. *)

From S2P Require Import Prelude GoErr Schema Outbox Jobs Voting Quorum StateReads QuorumLogs.
From S2P Require Import LzCodec Registry Proc Worker Executor PacketLogs.
From stdpp Require Import base gmap list strings numbers.
From Stdlib Require Import ZArith Lia.
#[local] Open Scope Z_scope.

(** ** Folds that can fail *)

Lemma fold_result_inv {E A S} (f : S -> A -> result E S) (I : list A -> S -> Prop) s l s' :
  I [] s ->
  (forall seen x s1 s2, I seen s1 -> f s1 x = Ok s2 -> I (seen ++ [x]) s2) ->
  fold_result f s l = Ok s' -> I l s'.
Proof.
  intros H0 Hstep. enough (forall seen s, I seen s -> fold_result f s l = Ok s' -> I (seen ++ l) s') as Hg
    by (intros; by apply (Hg [] s)).
  clear s H0. induction l as [|x l IH]; intros seen s Hs; cbn; [intros [= <-]; by rewrite app_nil_r|].
  destruct (f s x) as [s1|] eqn:Hf; cbn; [|done]. intros Hl.
  change (x :: l) with ([x] ++ l). rewrite (assoc_L (++) seen [x] l). eapply IH; [by eapply Hstep|done].
Qed.

Lemma elem_of_indices {A} (P : A -> Prop) `{forall x, Decision (P x)} l i :
  i ∈ indices P l -> exists x, l !! i = Some x /\ P x.
Proof.
  unfold indices. intros (o & Ho & E)%list_elem_of_omap. subst o.
  apply list_elem_of_lookup in Ho as (j & Hj). rewrite list_lookup_imap in Hj.
  destruct (l !! j) as [x|] eqn:Hx; [|done]. cbn in Hj. case_decide; simplify_eq. by exists x.
Qed.

Section proofs.
Context `{EventAbi}.

Lemma ordered_perm logs ordered : orderedSourceTxLogs logs = Ok ordered -> ordered ≡ₚ logs.
Proof.
  unfold orderedSourceTxLogs. pose proof (stable_sort_Permutation index_less logs) as Hp.
  destruct (stable_sort index_less logs) as [|first rest]; [intros [= <-]; done|].
  case_decide; [|done]. by intros [= <-].
Qed.

(** The logs of a kind. *)
Definition logs_of (topic : Hash) (logs : list Log) : list Log := filter (fun l => logHasTopic l topic) logs.

Lemma logs_of_snoc topic l x : logs_of topic (l ++ [x]) = logs_of topic l ++ if decide (logHasTopic x topic) then [x] else [].
Proof. unfold logs_of. rewrite list.filter_app, filter_cons, filter_nil. by case_decide. Qed.
Lemma logs_of_perm topic l l' : l ≡ₚ l' -> logs_of topic l ≡ₚ logs_of topic l'.
Proof. intros Hp. unfold logs_of. by rewrite Hp. Qed.
Lemma logs_of_elem topic l x : x ∈ logs_of topic l -> x ∈ l.
Proof. by intros [_ Hx]%list_elem_of_filter. Qed.
(** A kind of log that one more log can only add to. *)
Lemma logs_of_more topic l x used : used ⊆+ logs_of topic l -> used ⊆+ logs_of topic (l ++ [x]).
Proof. intros Hu. rewrite logs_of_snoc. etrans; [exact Hu|]. apply submseteq_inserts_r. done. Qed.
Lemma logs_of_use topic l x used : logHasTopic x topic -> used ⊆+ logs_of topic l -> x :: used ⊆+ logs_of topic (l ++ [x]).
Proof.
  intros Hx Hu. rewrite logs_of_snoc, decide_True by done. rewrite (Permutation_app_comm (logs_of topic l)). cbn.
  by apply submseteq_skip.
Qed.

(** *** The logs a result was made from *)

(** A record or a gap with the fee and packet logs behind it; a record also has its assignment. *)
Record evidence (R : Type) := mkEvidence { ev_result : R; ev_assignment : Log; ev_fee : Log; ev_packet : Log }.
Arguments mkEvidence {R}.
Arguments ev_result {R}.
Arguments ev_assignment {R}.
Arguments ev_fee {R}.
Arguments ev_packet {R}.

Definition all_made {R} (made : Log -> Log -> Log -> R -> Prop) (ev : list (evidence R)) : Prop :=
  Forall (fun x => made (ev_assignment x) (ev_fee x) (ev_packet x) (ev_result x)) ev.

(** The decoder used every assignment log for exactly one record, and no fee or packet log twice. *)
Definition conserved {R G} (assigned feePaid : Hash) (made : Log -> Log -> Log -> R -> Prop)
    (gap_made : Log -> Log -> G -> Prop) (logs : list Log) (records : list R) (gaps : list G) : Prop :=
  exists (ev : list (evidence R)) (gv : list (G * (Log * Log))),
    ev_result <$> ev = records /\ gv.*1 = gaps /\ all_made made ev /\ Forall (fun x => gap_made x.2.1 x.2.2 x.1) gv /\
    (ev_assignment <$> ev) ≡ₚ logs_of assigned logs /\
    (ev_fee <$> ev) ++ (gv.*2).*1 ⊆+ logs_of feePaid logs /\
    (ev_packet <$> ev) ++ (gv.*2).*2 ⊆+ logs_of PacketSentTopic logs.

Lemma conserved_backed {R G} assigned feePaid (made : Log -> Log -> Log -> R -> Prop) (gap_made : Log -> Log -> G -> Prop)
    logs records gaps :
  conserved assigned feePaid made gap_made logs records gaps ->
  Forall (fun r => exists la lf lp, la ∈ logs /\ lf ∈ logs /\ lp ∈ logs /\ made la lf lp r) records /\
  Forall (fun g => exists lf lp, lf ∈ logs /\ lp ∈ logs /\ gap_made lf lp g) gaps.
Proof.
  intros (ev & gv & <- & <- & Hm & Hg & Ha & Hf & Hp). unfold all_made in Hm.
  assert (forall l, l ∈ (ev_fee <$> ev) ++ (gv.*2).*1 -> l ∈ logs) as Hf' by (intros l Hl; eapply logs_of_elem, elem_of_submseteq; done).
  assert (forall l, l ∈ (ev_packet <$> ev) ++ (gv.*2).*2 -> l ∈ logs) as Hp' by (intros l Hl; eapply logs_of_elem, elem_of_submseteq; done).
  rewrite list.Forall_forall in Hm. rewrite list.Forall_forall in Hg. split; apply list.Forall_forall.
  - intros r (x & -> & Hx)%list_elem_of_fmap. exists (ev_assignment x), (ev_fee x), (ev_packet x). split_and!.
    + apply (logs_of_elem assigned). rewrite <- Ha. by apply list_elem_of_fmap_2.
    + apply Hf', elem_of_app. left. by apply list_elem_of_fmap_2.
    + apply Hp', elem_of_app. left. by apply list_elem_of_fmap_2.
    + by apply Hm.
  - intros g (x & -> & Hx)%list_elem_of_fmap. exists x.2.1, x.2.2. split_and!.
    + apply Hf', elem_of_app. right. by do 2 apply list_elem_of_fmap_2.
    + apply Hp', elem_of_app. right. by do 2 apply list_elem_of_fmap_2.
    + by apply Hg.
Qed.

(** ** Executor assignments *)

(** An executor record made from the assignment by the executor contract, the fee the send library
    paid to it, and the packet. *)
Definition executor_made (la lf lp : Log) (record : ExecutorSourceTxRecords) : Prop :=
  let p := xr_Packet record in let job := xr_ExecutorJob record in
  exists a f, DecodeExecutorJobAssigned la = Ok a /\ DecodeExecutorFeePaid lf = Ok f /\ PacketRecordFromSentLog lp = Ok p /\
    xr_Executor record = lg_Address la /\ xf_Executor f = lg_Address la /\ lg_Address lf = k_SendLib p /\
    ea_DstEID a = k_DstEID p /\ ea_Sender a = k_Sender p /\ ea_SendLib a = k_SendLib p /\
    is_Some (ea_Price a) /\ xf_Fee f = ea_Price a /\ ej_AssignedFee job = ea_Price a /\ ej_GUID job = k_GUID p /\
    ej_Status job = (if is_ok (Options.DecodeExecutorOptions (ea_Options a)) then ExecutorAssigned else ExecutorManualReview).
Definition executor_gap_made (lf lp : Log) (gap : executorSourcePacketGap) : Prop :=
  exists f, DecodeExecutorFeePaid lf = Ok f /\ PacketRecordFromSentLog lp = Ok (xg_Packet gap) /\
    xg_Executor gap = xf_Executor f /\ lg_Address lf = k_SendLib (xg_Packet gap).

Definition executor_backed (logs : list Log) (record : ExecutorSourceTxRecords) : Prop :=
  exists la lf lp, la ∈ logs /\ lf ∈ logs /\ lp ∈ logs /\ executor_made la lf lp record.
Definition gap_backed (logs : list Log) (gap : executorSourcePacketGap) : Prop :=
  exists lf lp, lf ∈ logs /\ lp ∈ logs /\ executor_gap_made lf lp gap.

Lemma executor_backed_mono l l' r : l ⊆ l' -> executor_backed l r -> executor_backed l' r.
Proof. intros Hs (la & lf & lp & H1 & H2 & H3 & Hr). exists la, lf, lp. by split_and!; try apply Hs. Qed.
Lemma gap_backed_mono l l' g : l ⊆ l' -> gap_backed l g -> gap_backed l' g.
Proof. intros Hs (lf & lp & H1 & H2 & Hr). exists lf, lp. by split_and!; try apply Hs. Qed.

(** The logs the open segment holds. *)
Definition segment_logs (oa fo : option Log) (s : executorSourceSegment) : Prop :=
  match sg_assignment s with
  | Some a => exists l, oa = Some l /\ DecodeExecutorJobAssigned l = Ok a /\ lg_Address l = sg_assignmentLogAddress s
  | None => oa = None
  end /\
  match sg_feePaid s with
  | Some f => exists l, fo = Some l /\ DecodeExecutorFeePaid l = Ok f /\ lg_Address l = sg_feeLogAddress s
  | None => fo = None
  end.

Definition executor_inv (seen : list Log)
    (st : list ExecutorSourceTxRecords * list executorSourcePacketGap * executorSourceSegment) : Prop :=
  exists ev gv oa fo,
    ev_result <$> ev = st.1.1 /\ gv.*1 = st.1.2 /\ all_made executor_made ev /\
    Forall (fun x => executor_gap_made x.2.1 x.2.2 x.1) gv /\ segment_logs oa fo st.2 /\
    option_list oa ++ (ev_assignment <$> ev) ≡ₚ logs_of ExecutorJobAssignedTopic seen /\
    option_list fo ++ (ev_fee <$> ev) ++ (gv.*2).*1 ⊆+ logs_of ExecutorFeePaidTopic seen /\
    (ev_packet <$> ev) ++ (gv.*2).*2 ⊆+ logs_of PacketSentTopic seen.

(** What a PacketSent log makes of the open segment. *)
Lemma recordsFromPacket_spec oa fo s log out :
  segment_logs oa fo s -> recordsFromPacket s log = Ok out ->
  match out with
  | Some (inl record) => exists la lf, oa = Some la /\ fo = Some lf /\ executor_made la lf log record
  | Some (inr gap) => oa = None /\ exists lf, fo = Some lf /\ executor_gap_made lf log gap
  | None => oa = None
  end.
Proof.
  intros [Ha Hf]. unfold recordsFromPacket.
  case_decide as H0; [destruct H0 as [E _]; rewrite E in Ha; by intros [= <-]|].
  destruct (PacketRecordFromSentLog log) as [p|] eqn:Hp; cbn; [|done].
  case_decide; [|done]. case_decide; [|done]. destruct (sg_feePaid s) as [f|] eqn:Hfee; [|done].
  case_decide as Hlib; [|done]. destruct Hf as (lf & -> & Hdf & Haf).
  destruct (sg_assignment s) as [a|] eqn:Hass.
  - case_decide as Hex; [|done]. case_decide as Hpr; [|done]. destruct Hpr as [Hsome Hpr].
    destruct Ha as (la & -> & Hda & Haa).
    unfold ExecutorJobFromAssignment. case_decide as E1; cbn; [|done]. case_decide as E2; cbn; [|done]. case_decide as E3; cbn; [|done].
    intros E. destruct (Options.DecodeExecutorOptions (ea_Options a)) eqn:Hopt; cbn in E; injection E as <-;
      exists la, lf; (do 2 (split; [done|])); exists a, f; cbn; rewrite Hopt; split_and!; try done; congruence.
  - intros [= <-]. split; [done|]. exists lf. split; [done|]. exists f. cbn. split_and!; try done; congruence.
Qed.

Lemma packet_topic log p : PacketRecordFromSentLog log = Ok p -> logHasTopic log PacketSentTopic.
Proof. unfold PacketRecordFromSentLog, DecodePacketSent. by case_decide. Qed.

Lemma executor_step_inv seen log st st' :
  executor_inv seen st -> executor_source_step st log = Ok st' -> executor_inv (seen ++ [log]) st'.
Proof.
  destruct st as [[records gaps] s]. intros (ev & gv & oa & fo & Er & Eg & Hm & Hg & Hs & Ha & Hf & Hp). cbn [fst snd] in *.
  unfold executor_source_step. destruct (decide (logHasTopic log ExecutorJobAssignedTopic)) as [Ht|Ht].
  { case_decide as Hnone; [|done]. destruct (DecodeExecutorJobAssigned log) as [a|] eqn:Hd; cbn; [|done].
    intros [= <-]. destruct Hs as [Hsa Hsf]. rewrite Hnone in Hsa. subst oa.
    exists ev, gv, (Some log), fo. split_and!; try done; [split; [by exists log|done]|..].
    - rewrite logs_of_snoc, decide_True, <- Ha by done. cbn. by rewrite <- Permutation_cons_append.
    - by apply logs_of_more.
    - by apply logs_of_more. }
  destruct (decide (logHasTopic log ExecutorFeePaidTopic)) as [Htf|Htf].
  { destruct (DecodeExecutorFeePaid log) as [f|] eqn:Hd; cbn; [|done].
    intros [= <-]. destruct Hs as [Hsa Hsf].
    exists ev, gv, oa, (Some log). split_and!; try done; [split; [done|by exists log]|..].
    - by rewrite logs_of_snoc, decide_False, app_nil_r by done.
    - apply logs_of_use; [done|]. etrans; [|exact Hf]. by apply submseteq_inserts_l.
    - by apply logs_of_more. }
  assert (logs_of ExecutorJobAssignedTopic (seen ++ [log]) = logs_of ExecutorJobAssignedTopic seen) as Ea
    by (by rewrite logs_of_snoc, decide_False, app_nil_r by done).
  destruct (decide (logHasTopic log PacketSentTopic)) as [Htp|Htp].
  2:{ intros [= <-]. exists ev, gv, oa, fo. rewrite Ea. split_and!; try done; by apply logs_of_more. }
  destruct (recordsFromPacket s log) as [out|] eqn:Ho; cbn; [|done].
  pose proof (recordsFromPacket_spec oa fo s log out Hs Ho) as Hspec.
  intros [= <-]. destruct out as [[record|gap]|]; cbn.
  - destruct Hspec as (la & lf & -> & -> & Hmade). exists (ev ++ [mkEvidence record la lf log]), gv, None, None.
    rewrite Ea, !fmap_app, Er. cbn in Ha, Hf |- *. split_and!; try done.
    + apply Forall_app. split; [done|by apply Forall_singleton].
    + by rewrite <- Permutation_cons_append.
    + apply logs_of_more. etrans; [|exact Hf]. apply Permutation_submseteq. rewrite <- app_assoc. cbn. by rewrite <- Permutation_middle.
    + etrans; [|by apply logs_of_use; [|exact Hp]]. apply Permutation_submseteq. rewrite <- app_assoc. cbn. by rewrite <- Permutation_middle.
  - destruct Hspec as (-> & lf & -> & Hmade). exists ev, (gv ++ [(gap, (lf, log))]), None, None.
    rewrite Ea, !fmap_app, Eg. cbn in Ha, Hf |- *. split_and!; try done.
    + apply Forall_app. split; [done|by apply Forall_singleton].
    + apply logs_of_more. etrans; [|exact Hf]. apply Permutation_submseteq. rewrite app_assoc. by rewrite <- Permutation_cons_append.
    + etrans; [|by apply logs_of_use; [|exact Hp]]. apply Permutation_submseteq. rewrite app_assoc. by rewrite <- Permutation_cons_append.
  - subst oa. exists ev, gv, None, None. rewrite Ea. split_and!; try done; [|by apply logs_of_more].
    apply logs_of_more. etrans; [|exact Hf]. by apply submseteq_inserts_l.
Qed.

Lemma executor_decode_conserved logs records gaps :
  decodeExecutorSourceTxLogs logs = Ok (records, gaps) ->
  conserved ExecutorJobAssignedTopic ExecutorFeePaidTopic executor_made executor_gap_made logs records gaps.
Proof.
  unfold decodeExecutorSourceTxLogs. destruct (orderedSourceTxLogs logs) as [ordered|] eqn:Ho; cbn; [|done].
  apply ordered_perm in Ho. destruct (fold_result _ _ _) as [[[r g] s]|] eqn:Hf; cbn; [|done].
  apply (fold_result_inv _ executor_inv) in Hf as (ev & gv & oa & fo & Er & Eg & Hm & Hg & [Hsa _] & Ha & Hfe & Hp);
    [|exists [], [], None, None; split_and!; try done; by constructor | intros; by eapply executor_step_inv].
  case_decide as Hs; [|done]. cbn in *. intros [= <- <-]. rewrite Hs in Hsa. subst oa.
  exists ev, gv. split_and!; try done.
  - by rewrite <- (logs_of_perm _ _ _ Ho).
  - rewrite <- (logs_of_perm _ _ _ Ho). etrans; [|exact Hfe]. by apply submseteq_inserts_l.
  - by rewrite <- (logs_of_perm _ _ _ Ho).
Qed.

Lemma executor_decode_spec logs records gaps :
  decodeExecutorSourceTxLogs logs = Ok (records, gaps) ->
  Forall (executor_backed logs) records /\ Forall (gap_backed logs) gaps.
Proof. intros Hd. eapply conserved_backed. by apply executor_decode_conserved. Qed.

(** ** DVN assignments *)

(** The fee event paid this DVN this fee. *)
Definition paid (f : DVNFeePaid) (dvn : Address) (fee : option Z) : Prop :=
  let dvns := df_RequiredDVNs f ++ df_OptionalDVNs f in
  length dvns = length (df_Fees f) /\
  exists k amount, dvns !! k = Some dvn /\ df_Fees f !! k = Some (Some amount) /\ fee = Some amount.
Lemma dvnFeeMatches_paid f dvn fee : dvnFeeMatches f dvn fee = true -> paid f dvn fee.
Proof.
  unfold dvnFeeMatches, paid. destruct fee as [amount|]; [|done]. cbv zeta. case_decide as Hl; [done|].
  intros ([x y] & Hin & Hx & Hy)%bool_decide_eq_true%list.Exists_exists. cbn in *. subst. split; [done|].
  apply list_elem_of_lookup in Hin as [k (Hk1 & Hk2)%lookup_zip_Some]. by exists k, amount.
Qed.

(** A DVN record made from the assignment by the DVN contract, a fee event of the packet's send
    library that paid this DVN this fee, and the packet. *)
Definition dvn_made (la lf lp : Log) (record : DVNSourceTxRecords) : Prop :=
  let p := vr_Packet record in
  exists a f, DecodeDVNJobAssigned la = Ok a /\ DecodeDVNFeePaid lf = Ok f /\ PacketRecordFromSentLog lp = Ok p /\
    da_DstEID a = k_DstEID p /\ da_Sender a = k_Sender p /\ da_SendLib a = k_SendLib p /\
    lg_Address lf = k_SendLib p /\ paid f (lg_Address la) (da_Fee a) /\ vr_DVN record = lg_Address la /\
    vr_DVNJob record = mkDVNJobRecord (k_GUID p) (da_Fee a) (da_Confirmations a) DVNAssigned "".
Definition dvn_gap_made (lf lp : Log) (gap : dvnSourcePacketGap) : Prop :=
  DecodeDVNFeePaid lf = Ok (vg_Fee gap) /\ PacketRecordFromSentLog lp = Ok (vg_Packet gap) /\
  lg_Address lf = k_SendLib (vg_Packet gap).

Definition dvn_backed (logs : list Log) (record : DVNSourceTxRecords) : Prop :=
  exists la lf lp, la ∈ logs /\ lf ∈ logs /\ lp ∈ logs /\ dvn_made la lf lp record.
Definition dvn_gap_backed (logs : list Log) (gap : dvnSourcePacketGap) : Prop :=
  exists lf lp, lf ∈ logs /\ lp ∈ logs /\ dvn_gap_made lf lp gap.

(** *** Flags *)

(** Setting the flag of an unflagged entry adds it to the flagged ones. *)
Lemma flagged_insert {A} (flag : A -> bool) (log : A -> Log) l i a a' :
  l !! i = Some a -> flag a = false -> flag a' = true -> log a' = log a ->
  log <$> filter (fun x => flag x = true) (<[i := a']> l) ≡ₚ log a :: (log <$> filter (fun x => flag x = true) l) /\
  log <$> <[i := a']> l = log <$> l.
Proof.
  intros Hi Ha Ha' El. split.
  - rewrite <- El, <- fmap_cons. apply fmap_Permutation.
    rewrite insert_take_drop by (by eapply lookup_lt_Some). rewrite <- (take_drop_middle l i a) at 3 by done.
    rewrite !list.filter_app, !filter_cons, decide_True, decide_False by congruence. by rewrite Permutation_middle.
  - rewrite list_fmap_insert, El. apply list_insert_id. by rewrite list_lookup_fmap, Hi.
Qed.

Lemma list_filter_all_true {A} (P : A -> Prop) `{forall x, Decision (P x)} (l : list A) : (forall x, x ∈ l -> P x) -> filter P l = l.
Proof.
  induction l as [|x l IH]; intros HP; [done|]. rewrite filter_cons, decide_True by (apply HP; by left).
  f_equal. apply IH. intros y Hy. apply HP. by right.
Qed.

Definition matched (l : list dvnAssignmentEvent) : list dvnAssignmentEvent := filter (fun a => ae_Matched a = true) l.
Definition matched_fees (l : list dvnFeeEvent) : list dvnFeeEvent := filter (fun f => fe_Matched f = true) l.

Record dvn_inv (seen : list Log) (st : dvn_source_state) (ev : list (evidence DVNSourceTxRecords))
    (gv : list (dvnSourcePacketGap * (Log * Log))) : Prop := {
  di_records : ev_result <$> ev = ds_records st;
  di_gaps : gv.*1 = ds_gaps st;
  di_made : all_made dvn_made ev;
  di_gap_made : Forall (fun x => dvn_gap_made x.2.1 x.2.2 x.1) gv;
  di_decoded : Forall (fun a => DecodeDVNJobAssigned (ae_Log a) = Ok (ae_Event a)) (ds_assignments st);
  di_fee_decoded : Forall (fun f => DecodeDVNFeePaid (fe_Log f) = Ok (fe_Event f)) (ds_fees st);
  di_assignments : ae_Log <$> ds_assignments st = logs_of DVNJobAssignedTopic seen;
  di_matched : (ev_assignment <$> ev) ≡ₚ ae_Log <$> matched (ds_assignments st);
  di_fees : fe_Log <$> ds_fees st ⊆+ logs_of DVNFeePaidTopic seen;
  di_matched_fees : (ev_fee <$> ev) ++ (gv.*2).*1 ≡ₚ fe_Log <$> matched_fees (ds_fees st);
  di_packets : (ev_packet <$> ev) ++ (gv.*2).*2 ⊆+ logs_of PacketSentTopic seen }.

Lemma dvn_inv_more seen log st ev gv :
  ~ logHasTopic log DVNJobAssignedTopic -> dvn_inv seen st ev gv -> dvn_inv (seen ++ [log]) st ev gv.
Proof.
  intros Ht [? ? ? ? ? ? Ha ? ? ? ?]. split; try done; [|by apply logs_of_more..].
  by rewrite logs_of_snoc, decide_False, app_nil_r by done.
Qed.

Lemma matching_spec l packet fee i :
  matchingDVNAssignment l packet fee = Ok (Some i) ->
  exists a, l !! i = Some a /\ open_assignment packet a /\ dvnFeeMatches fee (lg_Address (ae_Log a)) (da_Fee (ae_Event a)) = true.
Proof.
  unfold matchingDVNAssignment. cbv zeta. destruct (indices (fun a => open_assignment packet a /\ _) l) as [|j [|]] eqn:Hi; try done.
  - destruct (indices (open_assignment packet) l); done.
  - intros [= ->]. pose proof (list_elem_of_here i []) as Hin. rewrite <- Hi in Hin.
    apply elem_of_indices in Hin as (a & Ha & Hp). by exists a.
Qed.

Lemma latest_fee_spec fees lib i : latestUnmatchedDVNFee fees lib = Some i ->
  exists f, fees !! i = Some f /\ fe_Matched f = false /\ lg_Address (fe_Log f) = lib.
Proof.
  unfold latestUnmatchedDVNFee. intros Hl%last_Some_elem_of. apply elem_of_indices in Hl as (f & Hf & Hm & Hlib). by exists f.
Qed.

Lemma dvn_packet_step_inv endpoint seen log st st' ev gv :
  ~ logHasTopic log DVNJobAssignedTopic -> dvn_inv seen st ev gv -> dvn_packet_step endpoint st log = Ok st' ->
  exists ev' gv', dvn_inv (seen ++ [log]) st' ev' gv'.
Proof.
  intros Ht Hinv. unfold dvn_packet_step.
  case_decide; [|done]. destruct (PacketRecordFromSentLog log) as [p|] eqn:Hp; cbn; [|done].
  pose proof (logs_of_use _ seen log _ (packet_topic _ _ Hp) (di_packets _ _ _ _ Hinv)) as Hpk.
  apply (dvn_inv_more _ log) in Hinv; [|done].
  destruct (latestUnmatchedDVNFee _ _) as [fi|] eqn:Hfi;
    [|destruct (hasUnmatchedDVNAssignmentForPacket _ _); [done|intros [= <-]; by exists ev, gv]].
  apply latest_fee_spec in Hfi as (fee & Hfee & Hfm & Hlib). rewrite Hfee.
  destruct (matchingDVNAssignment _ _ _) as [ai|] eqn:Hm; cbn; [|done].
  destruct Hinv as [Hr Hg Hmd Hgm Had Hfd Ha Hmt Hf Hmf _]. pose proof (Forall_lookup_1 _ _ _ _ Hfd Hfee) as Hfdec. cbn in Hfdec.
  destruct (flagged_insert fe_Matched fe_Log (ds_fees st) fi fee (mkFeeEvent (fe_Log fee) (fe_Event fee) true)) as [Hins Hlog]; [done..|].
  assert (Forall (fun f => DecodeDVNFeePaid (fe_Log f) = Ok (fe_Event f))
    (<[fi := mkFeeEvent (fe_Log fee) (fe_Event fee) true]> (ds_fees st))) as Hfd' by (by apply Forall_insert).
  destruct ai as [i|].
  - apply matching_spec in Hm as (a & Hai & [Hopen (H1 & H2 & H3)] & Hpaid). cbn. rewrite Hai. cbn. intros [= <-].
    pose proof (Forall_lookup_1 _ _ _ _ Had Hai) as Hadec. cbn in Hadec.
    destruct (flagged_insert ae_Matched ae_Log (ds_assignments st) i a (mkAssignmentEvent (ae_Log a) (ae_Event a) true)) as [Hains Halog]; [done..|].
    exists (ev ++ [mkEvidence (dvnRecordFromMatchedLogs p (mkAssignmentEvent (ae_Log a) (ae_Event a) true)) (ae_Log a) (fe_Log fee) log]), gv.
    split; cbn; rewrite ?fmap_app, ?Hlog, ?Halog; try done.
    + by rewrite Hr.
    + apply Forall_app. split; [done|]. apply Forall_singleton. exists (ae_Event a), (fe_Event fee).
      split_and!; try done. by apply dvnFeeMatches_paid.
    + by apply Forall_insert.
    + unfold matched. rewrite Hains, <- Hmt. cbn. by rewrite <- Permutation_cons_append.
    + unfold matched_fees. rewrite Hins, <- Hmf. rewrite <- app_assoc. cbn. by rewrite <- Permutation_middle.
    + etrans; [|exact Hpk]. apply Permutation_submseteq. rewrite <- app_assoc. cbn. by rewrite <- Permutation_middle.
  - cbn. intros [= <-]. exists ev, (gv ++ [(mkDVNGap p (fe_Event fee), (fe_Log fee, log))]).
    split; cbn; rewrite ?fmap_app, ?Hlog; cbn; try done.
    + by rewrite Hg.
    + apply Forall_app. split; [done|]. by apply Forall_singleton.
    + unfold matched_fees. rewrite Hins, <- Hmf. rewrite app_assoc. by rewrite <- Permutation_cons_append.
    + etrans; [|exact Hpk]. apply Permutation_submseteq. rewrite app_assoc. by rewrite <- Permutation_cons_append.
Qed.

Lemma dvn_step_inv endpoint seen log st st' :
  (exists ev gv, dvn_inv seen st ev gv) -> dvn_source_step endpoint st log = Ok st' ->
  exists ev gv, dvn_inv (seen ++ [log]) st' ev gv.
Proof.
  intros (ev & gv & Hinv). unfold dvn_source_step. destruct (decide (logHasTopic log DVNJobAssignedTopic)) as [Ht|Ht].
  { destruct (DecodeDVNJobAssigned log) as [a|] eqn:Hd; cbn; [|done]. intros [= <-].
    destruct Hinv as [Hr Hg Hmd Hgm Had Hfd Ha Hmt Hf Hmf Hp]. exists ev, gv. split; cbn; try done.
    - apply Forall_app. split; [done|]. by apply Forall_singleton.
    - by rewrite fmap_app, Ha, logs_of_snoc, decide_True by done.
    - unfold matched in *. by rewrite list.filter_app, filter_cons, filter_nil, decide_False, app_nil_r by done.
    - by apply logs_of_more.
    - by apply logs_of_more. }
  destruct (decide (logHasTopic log DVNFeePaidTopic)) as [Htf|Htf].
  { destruct (DecodeDVNFeePaid log) as [f|] eqn:Hd; cbn; [|done]. intros [= <-].
    pose proof (logs_of_use _ seen log _ Htf (di_fees _ _ _ _ Hinv)) as Hfe.
    apply (dvn_inv_more _ log) in Hinv; [|done]. destruct Hinv as [Hr Hg Hmd Hgm Had Hfd Ha Hmt Hf Hmf Hp].
    exists ev, gv. split; cbn; try done.
    - apply Forall_app. split; [done|]. by apply Forall_singleton.
    - rewrite fmap_app. cbn. by rewrite <- Permutation_cons_append.
    - unfold matched_fees in *. by rewrite list.filter_app, filter_cons, filter_nil, decide_False, app_nil_r by done. }
  destruct (decide (logHasTopic log PacketSentTopic)); [by eapply dvn_packet_step_inv|].
  intros [= <-]. exists ev, gv. by apply dvn_inv_more.
Qed.

Lemma dvn_decode_conserved logs endpoint records gaps :
  decodeDVNSourceTxLogsForEndpoint logs endpoint = Ok (records, gaps) ->
  conserved DVNJobAssignedTopic DVNFeePaidTopic dvn_made dvn_gap_made logs records gaps.
Proof.
  unfold decodeDVNSourceTxLogsForEndpoint. destruct (orderedSourceTxLogs logs) as [ordered|] eqn:Ho; cbn; [|done].
  apply ordered_perm in Ho. destruct (fold_result _ _ _) as [st|] eqn:Hf; cbn; [|done].
  apply (fold_result_inv _ (fun seen st => exists ev gv, dvn_inv seen st ev gv)) in Hf as (ev & gv & [Hr Hg Hmd Hgm Had Hfd Ha Hmt Hfe Hmf Hp]);
    [|exists [], []; split; cbn; try done; by constructor | intros; by eapply dvn_step_inv].
  case_decide as Hu; [|done]. intros [= <- <-]. apply bool_decide_eq_false in Hu.
  assert (matched (ds_assignments st) = ds_assignments st) as Hall.
  { apply list_filter_all_true. intros a Hin. destruct (ae_Matched a) eqn:E; [done|].
    destruct Hu. apply list.Exists_exists. by exists a. }
  exists ev, gv. split_and!; try done; rewrite <- (logs_of_perm _ _ _ Ho).
  - by rewrite Hmt, Hall, Ha.
  - rewrite Hmf. etrans; [|exact Hfe]. apply sublist_submseteq, fmap_sublist, sublist_filter.
  - done.
Qed.

Lemma dvn_decode_spec logs endpoint records gaps :
  decodeDVNSourceTxLogsForEndpoint logs endpoint = Ok (records, gaps) ->
  Forall (dvn_backed logs) records /\ Forall (dvn_gap_backed logs) gaps.
Proof. intros Hd. eapply conserved_backed. by eapply dvn_decode_conserved. Qed.

(** ** The two decoders *)

(** C33: decoding the logs of a source transaction loses, invents and repeats no assignment. When
    it succeeds the ExecutorJobAssigned logs and the executor records are in one-to-one
    correspondence, and so are the DVNJobAssigned logs and the DVN records: every assignment log
    is used for exactly one record, together with a fee event of the packet's send library that
    paid this worker the assigned amount and the PacketSent log the packet was decoded from, and
    no fee or packet log is used twice, by records or by the gaps reported beside them. *)
Theorem source_assignments_conserved logs endpoint xrecords xgaps vrecords vgaps :
  decodeExecutorSourceTxLogs logs = Ok (xrecords, xgaps) ->
  decodeDVNSourceTxLogsForEndpoint logs endpoint = Ok (vrecords, vgaps) ->
  conserved ExecutorJobAssignedTopic ExecutorFeePaidTopic executor_made executor_gap_made logs xrecords xgaps /\
  conserved DVNJobAssignedTopic DVNFeePaidTopic dvn_made dvn_gap_made logs vrecords vgaps.
Proof. intros Hx Hv. split; [by apply executor_decode_conserved|by eapply dvn_decode_conserved]. Qed.

Lemma slice_header (e : bytes) a b : (b <= 81)%nat -> slice (slice e 0 Packet.packetV1HeaderLength) a b = slice e a b.
Proof.
  intros Hb. unfold slice, Packet.packetV1HeaderLength. rewrite drop_0, skipn_firstn_comm, firstn_firstn. f_equal. lia.
Qed.

(** The record a PacketSent log stands for, field by field: where the log is, what its event
    says, and the fixed byte ranges of the encoded packet. *)
Record recorded (log : Log) (event : PacketSent) (record : PacketRecord) : Prop := {
  rd_tx : k_SrcTxHash record = lg_TxHash log;
  rd_block : k_SrcBlockNumber record = lg_BlockNumber log;
  rd_index : k_SrcLogIndex record = lg_Index log;
  rd_lib : k_SendLib record = ps_SendLibrary event;
  rd_options : k_Options record = ps_Options event;
  rd_encoded : k_EncodedPacket record = ps_EncodedPayload event;
  rd_header : k_PacketHeader record = slice (ps_EncodedPayload event) 0 81;
  rd_nonce : k_Nonce record = Some (be_combine (slice (ps_EncodedPayload event) 1 9));
  rd_src : k_SrcEID record = be_combine (slice (ps_EncodedPayload event) 9 13);
  rd_sender : k_Sender record = BytesToAddress (slice (ps_EncodedPayload event) 13 45);
  rd_dst : k_DstEID record = be_combine (slice (ps_EncodedPayload event) 45 49);
  rd_receiver : k_Receiver record = BytesToAddress (slice (ps_EncodedPayload event) 49 81);
  rd_guid : k_GUID record = BytesToHash (slice (ps_EncodedPayload event) 81 113);
  rd_message : k_Message record = drop 113 (ps_EncodedPayload event);
  rd_payload : k_PayloadHash record = Keccak256Hash (drop 81 (ps_EncodedPayload event));
  rd_status : k_Status record = "NEW"%string }.

Lemma slice_rest (e : bytes) a : slice e a (length e) = drop a e.
Proof. unfold slice. apply take_ge. by rewrite length_drop. Qed.

#[local] Opaque slice be_combine BytesToAddress BytesToHash.

Lemma decoded_packet log record :
  PacketRecordFromSentLog log = Ok record ->
  exists event, DecodePacketSent log = Ok event /\ recorded log event record /\
  packetRouteFromSentLog log =
    Ok (mkRoute (k_SrcEID record) (k_DstEID record) (k_Sender record) (k_Receiver record), event) /\
  (lg_TxHash log <> 0 -> ps_SendLibrary event <> 0 -> Keccak256Hash (drop 81 (ps_EncodedPayload event)) <> 0 ->
   exists nonce, k_Nonce record = Some nonce /\ 0 < nonce < 2 ^ 64 /\ Validate record = Ok nonce).
Proof.
  unfold PacketRecordFromSentLog, packetRouteFromSentLog. destruct (DecodePacketSent log) as [event|]; cbn; [|done].
  destruct (Packet.DecodePacketV1 _ _) as [p|] eqn:Hd; [|done]. intros [= <-]. exists event. cbn.
  unfold Packet.DecodePacketV1 in Hd. case_decide as Hlen; [|done].
  destruct (Packet.DecodePacketV1Header _) as [h|] eqn:Hh; [|done]. case_decide as Hg; [|done]. injection Hd as <-.
  unfold Packet.DecodePacketV1Header in Hh. case_decide as Hhl; [|done].
  destruct (Packet.validatePacketV1Header _) as [[]|] eqn:Hv; [|done]. injection Hh as <-. cbn in *.
  set (e := ps_EncodedPayload event) in *.
  unfold Packet.packetV1MessageOffset, Packet.packetV1GUIDOffset, Packet.packetV1PayloadOffset in *.
  rewrite !slice_header in * by lia. rewrite !slice_rest. split_and!; [done|by split| |].
  - rewrite decide_True by (unfold packetV1RouteLength; lia). done.
  - intros Htx Hlib Hph. exists (be_combine (slice e 1 9)). split; [done|].
    unfold Packet.validatePacketV1Header in Hv. cbn in Hv. repeat (case_decide; [|done]).
    pose proof (be_combine_range (slice e 1 9)) as Hr. rewrite length_slice in Hr by lia. cbn in Hr.
    assert (0 < be_combine (slice e 1 9) < 2 ^ 64) as Hn by (unfold Packet.packetV1Version in *; lia).
    split; [done|]. unfold Validate. cbn. rewrite !decide_True; try done; try lia; try tauto.
    + intros E. rewrite E in Hhl. done.
    + intros E. rewrite E in Hlen. cbn in Hlen. lia.
Qed.

(** C34: a PacketSent log that decodes to a packet decodes to the packet it carries: the record
    has the log's transaction, block and index, the event's send library and options, and every
    other field from its own byte range of the encoded packet. The cheap routing read that
    filters foreign OApps agrees with it on the route. And the store accepts the record, under
    a positive 64-bit nonce, whenever the log's transaction hash, the event's send library and
    the Keccak hash of guid and message are not zero. *)
Theorem packet_route_agrees log record :
  PacketRecordFromSentLog log = Ok record ->
  exists event, DecodePacketSent log = Ok event /\ recorded log event record /\
  packetRouteFromSentLog log =
    Ok (mkRoute (k_SrcEID record) (k_DstEID record) (k_Sender record) (k_Receiver record), event) /\
  (lg_TxHash log <> 0 -> ps_SendLibrary event <> 0 -> Keccak256Hash (drop 81 (ps_EncodedPayload event)) <> 0 ->
   exists nonce, k_Nonce record = Some nonce /\ 0 < nonce < 2 ^ 64 /\ Validate record = Ok nonce).
Proof. apply decoded_packet. Qed.
End proofs.
