(* ===== verification/Dvn.v ===== *)
(** * The DVN worker (go/internal/dvn/dvn.go)

    A DVN job waits for the source confirmations the assignment asked for, is
    checked against the quorum's receipt of its source transaction, and is then
    reported (shadow mode) or submitted to the destination (active mode) after the
    destination's configuration was validated. Log lines are left out. *)

From S2P Require Import Prelude GoErr Schema SendScope Outbox Jobs Store Quorum StateReads QuorumLogs.
From S2P Require Import LzCodec Registry Proc Worker Executor PacketLogs.
From stdpp Require Import base gmap list strings numbers sorting pretty.
From Stdlib Require Import ZArith Lia Ascii.
#[local] Open Scope Z_scope.

Definition TxPurposeVerify : string := "dvn_verify".
Definition nilDVNCount : Z := 255.

(** ** JSON text (encoding/json) *)

Definition hex4 (n : Z) : string :=
  String (hex_digit (n / 4096)) (String (hex_digit (n / 256 mod 16))
    (String (hex_digit (n / 16 mod 16)) (String (hex_digit (n mod 16)) EmptyString))).

Definition code (c : ascii) : Z := Z.of_N (Ascii.N_of_ascii c).

(** One byte below 0x80, with the HTML-safe set of Marshal. *)
Definition json_ascii (c : ascii) : string :=
  let n := code c in
  if decide (n = 34) then "\" +:+ String c ""
  else if decide (n = 92) then "\\"
  else if decide (n = 8) then "\b" else if decide (n = 12) then "\f"
  else if decide (n = 10) then "\n" else if decide (n = 13) then "\r" else if decide (n = 9) then "\t"
  else if decide (n < 32 \/ n = 60 \/ n = 62 \/ n = 38) then "\u" +:+ hex4 n
  else String c EmptyString.

(** The continuation bytes of a valid UTF-8 sequence that starts here ([None]: invalid). *)
Definition utf8_tail (s : string) : option nat :=
  let cont lo hi c := bool_decide (lo <= code c <= hi) in
  match s with
  | String a (String b r) =>
    let n := code a in
    if decide (194 <= n <= 223) then if cont 128 191 b then Some 1%nat else None
    else match r with
    | String c r =>
      let lo3 := if decide (n = 224) then 160 else 128 in
      let hi3 := if decide (n = 237) then 159 else 191 in
      if decide (224 <= n <= 239) then if cont lo3 hi3 b && cont 128 191 c then Some 2%nat else None
      else match r with
      | String d _ =>
        let lo4 := if decide (n = 240) then 144 else 128 in
        let hi4 := if decide (n = 244) then 143 else 191 in
        if decide (240 <= n <= 244) then
          if cont lo4 hi4 b && cont 128 191 c && cont 128 191 d then Some 3%nat else None
        else None
      | EmptyString => None
      end
    | EmptyString => None
    end
  | _ => None
  end.

(** U+2028 and U+2029 *)
Definition line_separator (s : string) : option string :=
  match s with
  | String a (String b (String c _)) =>
    if decide (code a = 226 /\ code b = 128 /\ code c = 168) then Some "\u2028"%string
    else if decide (code a = 226 /\ code b = 128 /\ code c = 169) then Some "\u2029"%string else None
  | _ => None
  end.

(** [copy] and [skip] count the bytes of an accepted sequence still to copy or to drop. *)
Fixpoint json_body (copy skip : nat) (s : string) : string :=
  match s with
  | EmptyString => EmptyString
  | String c r =>
    match skip, copy with
    | S skip, _ => json_body copy skip r
    | O, S copy => String c (json_body copy 0 r)
    | O, O =>
      if decide (code c < 128) then json_ascii c +:+ json_body 0 0 r else
      match utf8_tail s with
      | None => "\ufffd" +:+ json_body 0 0 r
      | Some n =>
        match line_separator s with
        | Some t => t +:+ json_body 0 n r
        | None => String c (json_body n 0 r)
        end
      end
    end
  end.

Definition dquote : string := String (Ascii.ascii_of_N 34) EmptyString.
Definition json_string (s : string) : string := dquote +:+ json_body 0 0 s +:+ dquote.

(** Members in the order given (Marshal sorts the keys of a map). *)
Definition json_object (members : list (string * string)) : string :=
  "{" +:+ StringsJoin ((fun kv => json_string kv.1 +:+ ":" +:+ kv.2) <$> members) "," +:+ "}".

(** The evidence of a conflict or a reorg: map[string]any{"tx_hash", "error"}. *)
Definition error_payload (packet : PacketRecord) (e : werr) : string :=
  json_object [("error", json_string (ErrorText e)); ("tx_hash", json_string (HashHex (k_SrcTxHash packet)))]%string.

Record QuorumReport := mkReport {
  qr_TxHash : string; qr_BlockNumber : Z; qr_BlockHash : string; qr_LogIndex : Z;
  qr_GUID : string; qr_PayloadHash : string }.
Definition report_payload (r : QuorumReport) : string :=
  json_object [("tx_hash", json_string (qr_TxHash r)); ("block_number", pretty (qr_BlockNumber r));
    ("block_hash", json_string (qr_BlockHash r)); ("log_index", pretty (qr_LogIndex r));
    ("guid", json_string (qr_GUID r)); ("payload_hash", json_string (qr_PayloadHash r))]%string.

(** ** The worker *)

(** The readers of a chain; whether its receipt reader takes a block floor. *)
Record DVNWorker := mkDVNWorker {
  dw_registry : option Registry; dw_settings : gmap Z string; dw_heads : gset Z;
  dw_receipts : gmap Z bool; dw_callers : gset Z }.

(** NewWithSettings: every configured chain with an RPC client is read through it. *)
Definition NewDVNWorker (registry : Registry) (settings : gmap Z string) : DVNWorker :=
  let eids := omap (fun c => (fun _ => ch_EID c) <$> ch_RPC c) (All registry) in
  mkDVNWorker (Some registry) settings (list_to_set eids)
    (list_to_map ((fun eid => (eid, true)) <$> eids)) (list_to_set eids).

Abbreviation DVNWorkItem := (PacketRecord * DVNJobRecord)%type.

(** ** Store calls *)

Definition cListDVNWork (status : string) (limit : Z) : store_call (list DVNWorkItem) :=
  readCall (fun e => ListDVNWork status limit (ce_now e)).
Definition cDeferDVN (guid : Hash) (status : string) (delay : Z) : store_call unit :=
  opCall (fun _ => OpDeferDVN guid status delay)
    (fun e => DeferDVNJob guid status delay (ce_now e)) (fun _ _ => eq_refl).
Definition cPauseChain (eid : Z) : store_call unit :=
  opCall (fun _ => OpPauseChain eid) (fun _ => PauseChain eid) (fun _ _ => eq_refl).
Definition cPausePathway (guid : Hash) : store_call unit :=
  opCall (fun _ => OpPausePathway guid) (fun _ => PausePathwayForPacket guid) (fun _ _ => eq_refl).
Definition cMarkDVNWaiting (guid : Hash) (expected : string) : store_call unit :=
  opCall (fun _ => OpDVNStatus (mkDVNUpdate guid expected DVNWaitingConfirmations "" "" None))
    (fun e => MarkDVNWaitingConfirmations guid expected (ce_now e)) (fun _ _ => eq_refl).
Definition cMarkDVNQuorumChecking (guid : Hash) (expected : string) : store_call unit :=
  opCall (fun _ => OpDVNStatus (mkDVNUpdate guid expected DVNQuorumChecking "" "" None))
    (fun e => MarkDVNQuorumChecking guid expected (ce_now e)) (fun _ _ => eq_refl).
Definition cMarkDVNReady (guid : Hash) (expected result : string) : store_call unit :=
  markCall (OpDVNStatus (mkDVNUpdate guid expected DVNReadyToVerify "" result None))
    (MarkDVNReadyToVerify guid expected result) (fun now db => with_text_law result _ _ db).
Definition cMarkDVNWouldVerify (guid : Hash) (expected result : string) : store_call unit :=
  markCall (OpDVNStatus (mkDVNUpdate guid expected DVNWouldVerify "" result None))
    (MarkDVNWouldVerify guid expected result) (fun now db => with_text_law result _ _ db).
Definition cMarkDVNVerifiedFromChain (guid : Hash) (expected result : string) : store_call unit :=
  markCall (OpDVNStatus (mkDVNUpdate guid expected DVNVerified "" result None))
    (MarkDVNVerifiedFromChain guid expected result) (fun now db => with_text_law result _ _ db).
Definition cMarkDVNQuorumConflict (guid : Hash) (expected reason result : string) : store_call unit :=
  markCall (OpDVNStatus (mkDVNUpdate guid expected DVNQuorumConflict reason result None))
    (MarkDVNQuorumConflict guid expected reason result) (fun now db => with_text_law reason _ _ db).
Definition cMarkDVNReorg (guid : Hash) (expected reason result : string) : store_call unit :=
  markCall (OpDVNStatus (mkDVNUpdate guid expected DVNReorgDetected reason result None))
    (MarkDVNReorgDetected guid expected reason result) (fun now db => with_text_law reason _ _ db).
Definition cMarkDVNReorgAt (guid : Hash) (expected reason result : string) (block index oldBlock oldIndex : Z)
    : store_call unit :=
  opCall (fun _ => OpDVNReorg guid expected reason result block index oldBlock oldIndex)
    (fun e => MarkDVNReorgDetectedWithCoordinates guid expected reason result block index oldBlock oldIndex (ce_now e))
    (fun _ _ => eq_refl).
Definition cDVNMismatch (guid : Hash) (expected reason result : string) : store_call unit :=
  opCall (fun _ => OpDVNManualReviewAndPause guid expected reason result)
    (fun e => MarkDVNManualReviewAndPausePathway guid expected reason result (ce_now e)) (fun _ _ => eq_refl).
Definition cEnqueueDVN (guid : Hash) (expected next : string) (request : TxRequest) (result : string) : store_call Z :=
  opCall (fun _ => OpEnqueueDVN guid expected next request result)
    (fun e => EnqueueDVNVerifyTx guid expected next request result (ce_now e)) (fun _ _ => eq_refl).

Section dvn.
Context `{EventAbi}.

Notation "'want' P 'or' msg ;; k" := (if decide P then k else Err (WText msg))
  (at level 10, P at level 99, msg at level 99, k at level 200).

(** ** Transactions *)

Definition BuildVerifyCalldata (packet : PacketRecord) (receiveLib : Address) (confirmations : Z)
    : result werr bytes :=
  _ ← dbW (Validate packet);
  want receiveLib <> 0 or "receive lib address is required" ;;
  want confirmations <> 0 or "dvn confirmations required is required" ;;
  textW (PackOpenDVNSubmitVerification receiveLib (k_PacketHeader packet) (k_PayloadHash packet) confirmations).

Definition BuildVerifyTx (packet : PacketRecord) (openDVN receiveLib : Address) (confirmations : Z)
    (signerID : string) : result werr TxRequest :=
  want openDVN <> 0 or "destination open dvn address is required" ;;
  want signerID <> ""%string or "signer id is required" ;;
  calldata ← BuildVerifyCalldata packet receiveLib confirmations;
  Ok (mkTxRequest (k_DstEID packet) TxPurposeVerify (HashBytes (k_GUID packet)) openDVN calldata
        (Some 0) signerID).

Definition buildVerifyTx (w : DVNWorker) (packet : PacketRecord) (pathway : Pathway) (confirmations : Z)
    : result werr TxRequest :=
  match dw_registry w with
  | None => Err (WFatal (WText "dvn active mode requires chain registry"))
  | Some _ =>
    match dw_settings w !! k_DstEID packet with
    | None => Err (WFatal (WText ("dvn active mode requires tx settings for destination eid " +:+
                                  pretty (k_DstEID packet))))
    | Some signerID =>
      if decide (signerID = ""%string) then Err (WFatal (WText "dvn active mode requires signer id")) else
      BuildVerifyTx packet (pw_DestinationOpenDVN pathway) (pw_ReceiveLib pathway) confirmations signerID
    end
  end.

(** ** Source evidence *)

Definition hasRequiredConfirmations (blockNumber confirmationsRequired head : Z) : bool :=
  if decide (confirmationsRequired = 0) then false
  else if decide (head < blockNumber) then false
  else bool_decide (confirmationsRequired <= u64 (head - blockNumber + 1)).

Definition validateReceiptPacket (expected actual : PacketRecord) : result werr unit :=
  want k_GUID actual = k_GUID expected or ("receipt packet guid " +:+ HashHex (k_GUID actual) +:+
    " does not match stored guid " +:+ HashHex (k_GUID expected)) ;;
  want k_SrcEID actual = k_SrcEID expected /\ k_DstEID actual = k_DstEID expected
    or ("receipt packet pathway " +:+ pretty (k_SrcEID actual) +:+ " -> " +:+ pretty (k_DstEID actual) +:+
        " does not match stored pathway " +:+ pretty (k_SrcEID expected) +:+ " -> " +:+ pretty (k_DstEID expected)) ;;
  want k_Sender actual = k_Sender expected /\ k_Receiver actual = k_Receiver expected
    or ("receipt packet oapps " +:+ AddressHex (k_Sender actual) +:+ " -> " +:+ AddressHex (k_Receiver actual) +:+
        " do not match stored oapps " +:+ AddressHex (k_Sender expected) +:+ " -> " +:+ AddressHex (k_Receiver expected)) ;;
  want k_SendLib actual = k_SendLib expected or ("receipt send lib " +:+ AddressHex (k_SendLib actual) +:+
    " does not match stored send lib " +:+ AddressHex (k_SendLib expected)) ;;
  want k_PayloadHash actual = k_PayloadHash expected or ("receipt payload hash " +:+ HashHex (k_PayloadHash actual) +:+
    " does not match stored payload hash " +:+ HashHex (k_PayloadHash expected)) ;;
  want k_EncodedPacket actual = k_EncodedPacket expected
    or "receipt encoded packet does not match stored encoded packet" ;;
  Ok tt.

Definition foreign (endpoint : Address) (log : Log) : Prop := endpoint <> 0 /\ lg_Address log <> endpoint.
#[local] Instance foreign_dec endpoint log : Decision (foreign endpoint log).
Proof. unfold foreign. apply _. Defined.

Definition block_mismatch (actual indexed : Z) : werr :=
  WReceiptReorg ("source receipt block " +:+ pretty actual +:+ " does not match indexed block " +:+ pretty indexed).

(** The first log with the stored index decides. *)
Fixpoint report_of_logs (packet : PacketRecord) (receipt : Receipt) (endpoint : Address)
    (logs : list (option Log)) : result werr QuorumReport :=
  match logs with
  | [] => Err (WText ("source receipt missing PacketSent log index " +:+ pretty (k_SrcLogIndex packet)))
  | None :: logs => report_of_logs packet receipt endpoint logs
  | Some log :: logs =>
    if decide (lg_Index log <> k_SrcLogIndex packet) then report_of_logs packet receipt endpoint logs else
    want ~ foreign endpoint log or ("source receipt PacketSent address " +:+ AddressHex (lg_Address log) +:+
      " does not match endpoint " +:+ AddressHex endpoint) ;;
    if decide (lg_BlockNumber log <> k_SrcBlockNumber packet)
    then Err (block_mismatch (lg_BlockNumber log) (k_SrcBlockNumber packet)) else
    record ← textW (PacketRecordFromSentLog log);
    _ ← validateReceiptPacket packet record;
    Ok (mkReport (HashHex (rc_TxHash receipt)) (lg_BlockNumber log) (HashHex (lg_BlockHash log)) (lg_Index log)
          (HashHex (k_GUID packet)) (HashHex (k_PayloadHash packet)))
  end.

(** A receipt block outside uint64 is not compared. *)
Definition verifySourceReceiptForEndpoint (packet : PacketRecord) (receipt : option Receipt)
    (endpoint : Address) : result werr QuorumReport :=
  match receipt with
  | None => Err (WText "source receipt is missing")
  | Some receipt =>
    want rc_TxHash receipt = k_SrcTxHash packet or ("receipt tx hash " +:+ HashHex (rc_TxHash receipt) +:+
      " does not match packet source tx " +:+ HashHex (k_SrcTxHash packet)) ;;
    want rc_Status receipt = 1 or ("source tx receipt status is " +:+ pretty (rc_Status receipt)) ;;
    match rc_BlockNumber receipt with
    | Some n =>
      if decide (0 <= n < 2 ^ 64 /\ n <> k_SrcBlockNumber packet)
      then Err (block_mismatch n (k_SrcBlockNumber packet))
      else report_of_logs packet receipt endpoint (rc_Logs receipt)
    | None => report_of_logs packet receipt endpoint (rc_Logs receipt)
    end
  end.

Definition reincluded (packet : PacketRecord) (endpoint : Address) (log : option Log) : option PacketRecord :=
  match log with
  | None => None
  | Some log =>
    if decide (lg_BlockNumber log = 0) then None else
    if decide (foreign endpoint log) then None else
    match PacketRecordFromSentLog log with
    | Err _ => None
    | Ok record =>
      if decide (k_GUID record <> k_GUID packet) then None else
      match validateReceiptPacket packet record with
      | Err _ => None
      | Ok _ =>
        Some (mkPacketRecord (k_GUID packet) (k_SrcEID packet) (k_DstEID packet) (k_Nonce packet)
          (k_Sender packet) (k_Receiver packet) (k_SendLib packet) (k_SrcTxHash packet)
          (lg_BlockNumber log) (lg_Index log) (k_EncodedPacket packet) (k_PacketHeader packet)
          (k_Message packet) (k_PayloadHash packet) (k_Options packet) (k_Status packet))
      end
    end
  end.

Definition reorgedPacketRecord (packet : PacketRecord) (receipt : option Receipt) (endpoint : Address)
    : option PacketRecord :=
  match receipt with
  | None => None
  | Some receipt => head (omap (reincluded packet endpoint) (rc_Logs receipt))
  end.

(** ** Destination configuration *)

Definition equalAddressSets (a b : list Address) : bool :=
  if decide (length a <> length b) then false else bool_decide (merge_sort Z.le a = merge_sort Z.le b).

(** uint8(len(..)) *)
Definition u8 (n : Z) : Z := n mod 256.

Definition validateReceiveUlnConfig (config : ulnConfig) (confirmations : Z) (requiredDVNs : list Address)
    : result string unit :=
  check uc_Confirmations config <= confirmations
    or ("assigned confirmations " +:+ pretty confirmations +:+ " are below receive uln required confirmations "
        +:+ pretty (uc_Confirmations config))%string ;;
  check uc_RequiredDVNCount config = u8 (Z.of_nat (length (uc_RequiredDVNs config)))
    or ("receive uln requiredDVNCount " +:+ pretty (uc_RequiredDVNCount config) +:+
        " does not match requiredDVNs length " +:+ pretty (length (uc_RequiredDVNs config)))%string ;;
  check uc_OptionalDVNCount config = 0 \/ uc_OptionalDVNCount config = nilDVNCount
    or ("receive uln optionalDVNCount " +:+ pretty (uc_OptionalDVNCount config) +:+ " is not disabled")%string ;;
  check uc_OptionalDVNThreshold config = 0
    or ("receive uln optionalDVNThreshold " +:+ pretty (uc_OptionalDVNThreshold config) +:+ " is not zero")%string ;;
  check uc_OptionalDVNs config = [] or "receive uln optional DVNs are configured"%string ;;
  check equalAddressSets (uc_RequiredDVNs config) requiredDVNs = true
    or "receive uln required DVNs do not match configured required set"%string ;;
  Ok tt.

Definition callInboundPayloadHash (eid : Z) (endpoint : Address) (packet : PacketRecord)
    (anchor : option StateAnchor) : work (result werr Hash) :=
  need endpoint <> 0 or "endpoint address is required" ;;
  let origin := originFromPacket packet in
  callAndUnpack eid endpoint
    (InboundPayloadHash (k_Receiver packet) (k_SrcEID packet) (og_Sender origin) (og_Nonce origin)) anchor.

Definition callReceiveLibrary (eid : Z) (endpoint receiver : Address) (srcEID : Z)
    (anchor : option StateAnchor) : work (result werr Address) :=
  need endpoint <> 0 or "endpoint address is required" ;;
  need receiver <> 0 or "receiver address is required" ;;
  let? values := callAndUnpack eid endpoint (GetReceiveLibrary receiver srcEID) anchor in
  Ret (Ok values.1).

Definition callReceiveUlnConfig (eid : Z) (receiveLib receiver : Address) (srcEID : Z)
    (anchor : option StateAnchor) : work (result werr ulnConfig) :=
  need receiveLib <> 0 or "receive lib address is required" ;;
  need receiver <> 0 or "receiver address is required" ;;
  callAndUnpack eid receiveLib (GetUlnConfig receiver srcEID) anchor.

Definition callHashLookup (eid : Z) (receiveLib : Address) (headerHash payloadHash : Hash) (dvn : Address)
    (anchor : option StateAnchor) : work (result werr (bool * Z)) :=
  need receiveLib <> 0 or "receive lib address is required" ;;
  need dvn <> 0 or "open dvn address is required" ;;
  callAndUnpack eid receiveLib (HashLookup headerHash payloadHash dvn) anchor.

Definition validateDestinationVerificationConfig (eid : Z) (endpoint : Address) (packet : PacketRecord)
    (pathway : Pathway) (confirmations : Z) (anchor : option StateAnchor) : work (result werr unit) :=
  let? receiveLib := callReceiveLibrary eid endpoint (k_Receiver packet) (k_SrcEID packet) anchor in
  if decide (receiveLib <> pw_ReceiveLib pathway) then
    Ret (Err (WConfigMismatch ("destination receive library " +:+ AddressHex receiveLib +:+
      " does not match configured " +:+ AddressHex (pw_ReceiveLib pathway))))
  else
  let? config := callReceiveUlnConfig eid (pw_ReceiveLib pathway) (k_Receiver packet) (k_SrcEID packet) anchor in
  match validateReceiveUlnConfig config confirmations (pw_ReceiveRequiredDVNs pathway) with
  | Err msg => Ret (Err (WConfigMismatch msg))
  | Ok _ => Ret (Ok tt)
  end.

Definition isDestinationVerificationConfigMismatch (e : werr) : bool :=
  match e with WConfigMismatch _ => true | _ => false end.

(** ** Anchors *)

Definition dstHead (w : DVNWorker) (eid : Z) (msg : string) : work (result werr (option Z * Hash)) :=
  if decide (eid ∈ dw_heads w) then clientW (WCheckHead eid) else failW (msg +:+ pretty eid).

Definition dvnAnchor (w : DVNWorker) (dstEID : Z) : work (result werr StateAnchor) :=
  let? head := dstHead w dstEID "missing destination head reader for eid " in
  pure (anchorOfHead head).

Definition confirmedAnchor (confBlock : option Z) : option StateAnchor :=
  (fun n => mkAnchor (Some n) zeroHash) <$> confBlock.

Definition confirmedDstBlock (registry : Registry) (w : DVNWorker) (dstEID : Z) : work (result werr (option Z)) :=
  let? dstChain := pure (textW (Get registry dstEID)) in
  if decide (ch_Confirmations dstChain = 0) then Ret (Ok None) else
  let? head := dstHead w dstEID "missing destination head reader for eid " in
  match head.1 with
  | Some n =>
    need 0 <= n < 2 ^ 64 or "destination head block number is unavailable" ;;
    if decide (n < ch_Confirmations dstChain) then Ret (Err WAwaitingConfirmations)
    else Ret (Ok (Some (n - ch_Confirmations dstChain)))
  | None => failW "destination head block number is unavailable"
  end.

Definition withCaller {A} (w : DVNWorker) (eid : Z) (k : work (result werr A)) : work (result werr A) :=
  if decide (eid ∈ dw_callers w) then k else failW ("missing destination caller for eid " +:+ pretty eid).

Definition validateActiveDestinationConfig (w : DVNWorker) (packet : PacketRecord) (confirmations : Z)
    : work (result werr unit) :=
  match dw_registry w with
  | None => Ret (Ok tt)
  | Some registry =>
    let? pathway := pure (textW (PathwayOf registry (k_SrcEID packet) (k_DstEID packet) (k_Sender packet) (k_Receiver packet))) in
    if decide (pw_DVNMode pathway <> DVNModeActive) then Ret (Ok tt) else
    let? dstChain := pure (textW (Get registry (k_DstEID packet))) in
    withCaller w (k_DstEID packet) (
    let? anchor := dvnAnchor w (k_DstEID packet) in
    validateDestinationVerificationConfig (k_DstEID packet) (ch_EndpointAddress dstChain) packet pathway
      confirmations (Some anchor))
  end.

Definition verificationAlreadyComplete (w : DVNWorker) (packet : PacketRecord) (pathway : Pathway)
    (confirmations : Z) (anchor : option StateAnchor) : work (result werr bool) :=
  let? _ := pure (dbW (Validate packet)) in
  need confirmations <> 0 or "dvn confirmations required is required" ;;
  match dw_registry w with
  | None => Ret (Err (WFatal (WText "dvn active mode requires chain registry")))
  | Some registry =>
    let? dstChain := pure (textW (Get registry (k_DstEID packet))) in
    withCaller w (k_DstEID packet) (
    let? payloadHash := callInboundPayloadHash (k_DstEID packet) (ch_EndpointAddress dstChain) packet anchor in
    if decide (payloadHash = k_PayloadHash packet) then Ret (Ok true) else
    let? _ := validateDestinationVerificationConfig (k_DstEID packet) (ch_EndpointAddress dstChain) packet pathway
      confirmations anchor in
    let? lookup := callHashLookup (k_DstEID packet) (pw_ReceiveLib pathway) (Keccak256Hash (k_PacketHeader packet))
      (k_PayloadHash packet) (pw_DestinationOpenDVN pathway) anchor in
    Ret (Ok (lookup.1 && bool_decide (confirmations <= lookup.2))))
  end.

Definition verificationConfirmedOnChain (registry : Registry) (w : DVNWorker) (packet : PacketRecord)
    (pathway : Pathway) (confirmations : Z) : work (result werr bool) :=
  let! confBlock := confirmedDstBlock registry w (k_DstEID packet) in
  match confBlock with
  | Err WAwaitingConfirmations => Ret (Ok false)
  | Err e => Ret (Err e)
  | Ok n =>
    let! complete := verificationAlreadyComplete w packet pathway confirmations (confirmedAnchor n) in
    match complete with
    | Err e => if isDestinationVerificationConfigMismatch e then Ret (Ok false) else Ret (Err e)
    | Ok b => Ret (Ok b)
    end
  end.

(** ** Deferring and parking *)

Definition deferDVN (guid : Hash) (status : string) : work (result werr bool) :=
  let? _ := storeW (cDeferDVN guid status loopInterval) in
  Ret (Ok true).

Definition deferDVNWorkError (item : DVNWorkItem) (status : string) (cause : werr) : work (result werr bool) :=
  unlessDone (if IsFatal cause then Ret (Err cause) else deferDVN (k_GUID item.1) status).

Definition markDestinationConfigMismatch (item : DVNWorkItem) (status : string) (cause : werr)
    : work (result werr bool) :=
  let? _ := storeW (cDVNMismatch (k_GUID item.1) status (ErrorText cause) (dj_QuorumResult item.2)) in
  Ret (Ok true).

(** Two transactions: the conflict, then the pause. *)
Definition markQuorumConflict (packet : PacketRecord) (cause : werr) : work (result werr bool) :=
  let? _ := storeW (cMarkDVNQuorumConflict (k_GUID packet) DVNQuorumChecking (ErrorText cause) (error_payload packet cause)) in
  let? _ := storeW (cPausePathway (k_GUID packet)) in
  Ret (Ok true).

Definition markReorgDetected (packet : PacketRecord) (cause : werr) : work (result werr bool) :=
  let? _ := storeW (cMarkDVNReorg (k_GUID packet) DVNQuorumChecking (ErrorText cause) (error_payload packet cause)) in
  Ret (Ok true).

Definition firstDVNWork (status : string) (none : work (result werr bool)) (k : DVNWorkItem -> work (result werr bool))
    : work (result werr bool) :=
  let? items := storeW (cListDVNWork status 1) in
  match items with [] => none | item :: _ => k item end.

(** [a, err := p; if err != nil { return w.deferDVNWorkError(..) }] *)
Definition orDeferDVN {A} (item : DVNWorkItem) (status : string) (p : work (result werr A))
    (k : A -> work (result werr bool)) : work (result werr bool) :=
  let! r := p in
  match r with Ok a => k a | Err e => deferDVNWorkError item status e end.

(** The same, with a configuration mismatch parked. *)
Definition orParkDVN {A} (item : DVNWorkItem) (status : string) (p : work (result werr A))
    (k : A -> work (result werr bool)) : work (result werr bool) :=
  let! r := p in
  match r with
  | Ok a => k a
  | Err e => if isDestinationVerificationConfigMismatch e then markDestinationConfigMismatch item status e
             else deferDVNWorkError item status e
  end.

(** ** Source confirmations *)

(** CheckHead of the source; a head conflict pauses the chain. *)
Definition withSourceHead (w : DVNWorker) (item : DVNWorkItem) (status : string)
    (k : Z -> work (result werr bool)) : work (result werr bool) :=
  let eid := k_SrcEID item.1 in
  if decide (eid ∈ dw_heads w) then
    let! head := ask (WCheckHead eid) in
    match head with
    | Err e =>
      match cx_kind e with
      | HeadConflict _ =>
        let? _ := storeW (cPauseChain eid) in
        Ret (Ok true)
      | _ => deferDVNWorkError item status (WClient e)
      end
    | Ok (None, _) =>
      deferDVNWorkError item status (WText ("source head result for eid " +:+ pretty eid +:+ " is missing number"))
    | Ok (Some n, _) => k (u64 n)
    end
  else deferDVNWorkError item status (WText ("missing source head reader for eid " +:+ pretty eid)).

Definition processConfirmations (w : DVNWorker) (status : string) (item : DVNWorkItem) : work (result werr bool) :=
  let guid := k_GUID item.1 in
  if decide (status = DVNReorgDetected) then
    let? _ := storeW (cMarkDVNWaiting guid status) in
    Ret (Ok true)
  else
  orParkDVN item status (validateActiveDestinationConfig w item.1 (dj_ConfirmationsRequired item.2)) (fun _ =>
  withSourceHead w item status (fun head =>
  if hasRequiredConfirmations (k_SrcBlockNumber item.1) (dj_ConfirmationsRequired item.2) head then
    let? _ := storeW (cMarkDVNQuorumChecking guid status) in
    Ret (Ok true)
  else if decide (status = DVNAssigned) then
    let? _ := storeW (cMarkDVNWaiting guid status) in
    Ret (Ok true)
  else deferDVN guid status)).

Fixpoint confirmations_of (w : DVNWorker) (statuses : list string) : work (result werr bool) :=
  match statuses with
  | [] => Ret (Ok false)
  | status :: rest => firstDVNWork status (confirmations_of w rest) (processConfirmations w status)
  end.

Definition ProcessConfirmationsOnce (w : DVNWorker) : work (result werr bool) :=
  confirmations_of w [DVNReorgDetected; DVNAssigned; DVNWaitingConfirmations].

(** ** Source receipts *)

(** What a verified or contradicting receipt makes of the job. *)
Definition judgeReceipt (packet : PacketRecord) (receipt : option Receipt) (endpoint : Address)
    : work (result werr bool) :=
  match verifySourceReceiptForEndpoint packet receipt endpoint with
  | Ok report =>
    let? _ := storeW (cMarkDVNReady (k_GUID packet) DVNQuorumChecking (report_payload report)) in
    Ret (Ok true)
  | Err (WReceiptReorg msg) =>
    let e := WReceiptReorg msg in
    match reorgedPacketRecord packet receipt endpoint with
    | Some updated =>
      let? _ := storeW (cMarkDVNReorgAt (k_GUID packet) DVNQuorumChecking (ErrorText e) (error_payload packet e)
        (k_SrcBlockNumber updated) (k_SrcLogIndex updated) (k_SrcBlockNumber packet) (k_SrcLogIndex packet)) in
      Ret (Ok true)
    | None => markReorgDetected packet e
    end
  | Err e => markQuorumConflict packet e
  end.

Definition ProcessQuorumOnce (w : DVNWorker) : work (result werr bool) :=
  let status := DVNQuorumChecking in
  firstDVNWork status (Ret (Ok false)) (fun item =>
  let packet := item.1 in
  match dw_receipts w !! k_SrcEID packet with
  | None => deferDVNWorkError item status (WText ("missing source receipt reader for eid " +:+ pretty (k_SrcEID packet)))
  | Some takesFloor =>
    let! r := ask (WReceipt (k_SrcEID packet) (k_SrcTxHash packet)
                     (if takesFloor : bool then Some (k_SrcBlockNumber packet) else None)) in
    match r with
    | Err e =>
      match cx_kind e with
      | ReceiptConflict _ => markQuorumConflict packet (WClient e)
      | ReceiptNotFound => markReorgDetected packet (WClient e)
      | _ => deferDVNWorkError item status (WClient e)
      end
    | Ok receipt =>
      match dw_registry w with
      | None => judgeReceipt packet receipt 0
      | Some registry =>
        orDeferDVN item status (pure (textW (Get registry (k_SrcEID packet)))) (fun srcChain =>
        judgeReceipt packet receipt (ch_EndpointAddress srcChain))
      end
    end
  end).

(** ** Verification *)

Definition processActive (registry : Registry) (w : DVNWorker) (item : DVNWorkItem) (pathway : Pathway)
    : work (result werr bool) :=
  let status := DVNReadyToVerify in
  let packet := item.1 in
  let confirmations := dj_ConfirmationsRequired item.2 in
  orDeferDVN item status (dvnAnchor w (k_DstEID packet)) (fun anchor =>
  orParkDVN item status (verificationAlreadyComplete w packet pathway confirmations (Some anchor)) (fun complete =>
  if complete : bool then
    orDeferDVN item status (verificationConfirmedOnChain registry w packet pathway confirmations) (fun confirmed =>
    if negb confirmed then deferDVN (k_GUID packet) status else
    let? _ := storeW (cMarkDVNVerifiedFromChain (k_GUID packet) status (dj_QuorumResult item.2)) in
    Ret (Ok true))
  else
    let? request := pure (buildVerifyTx w packet pathway confirmations) in
    let! r := store (cEnqueueDVN (k_GUID packet) status DVNVerifyTxEnqueued request (dj_QuorumResult item.2)) in
    match r with
    | Ok _ => Ret (Ok true)
    | Err ErrTxSendScopeInactive => Ret (Ok false)
    | Err e => Ret (Err (WDB e))
    end)).

Definition ProcessReadyToVerifyOnce (w : DVNWorker) : work (result werr bool) :=
  let status := DVNReadyToVerify in
  firstDVNWork status (Ret (Ok false)) (fun item =>
  need dj_QuorumResult item.2 <> ""%string
    or ("dvn job " +:+ HashHex (k_GUID item.1) +:+ " ready to verify without quorum result") ;;
  match dw_registry w with
  | None => Ret (Err (WFatal (WText "dvn verifier requires chain registry")))
  | Some registry =>
    orDeferDVN item status (pure (textW (PathwayOf registry (k_SrcEID item.1) (k_DstEID item.1) (k_Sender item.1)
        (k_Receiver item.1)))) (fun pathway =>
    if decide (pw_DVNMode pathway = DVNModeShadow) then
      let? _ := storeW (cMarkDVNWouldVerify (k_GUID item.1) status (dj_QuorumResult item.2)) in
      Ret (Ok true)
    else if decide (pw_DVNMode pathway = DVNModeActive) then processActive registry w item pathway
    else Ret (Err (WFatal (WText "unsupported dvn mode"))))
  end).

(** ** The loop *)

Definition dvnPass (w : DVNWorker) : work (result werr bool) :=
  orElse (ProcessConfirmationsOnce w) (orElse (ProcessQuorumOnce w) (ProcessReadyToVerifyOnce w)).

Definition RunDVN (w : DVNWorker) (n : nat) : work (result werr unit) := runLoop (dvnPass w) n.

End dvn.
