(* ===== verification/DvnProofs.v ===== *)
(** * What the DVN worker guarantees

    Every write of the verifier loop is backed by reads made before it: the
    confirmation count of the source head, the quorum's receipt of the source
    transaction, and the destination's configuration at one anchor. *)

From S2P Require Import Prelude GoErr Schema SendScope Outbox Jobs Store Quorum StateReads QuorumLogs.
From S2P Require Import LzCodec Registry Proc Worker WorkerProofs Executor PacketLogs Dvn.
From stdpp Require Import base gmap list strings numbers sorting relations.
From Stdlib Require Import ZArith Lia.
#[local] Open Scope Z_scope.

(** ** Confirmations and address sets *)

(** the confirmation gate opens only at a positive requirement that the head meets counting
    the packet's own block, for all uint64 values; and it opens whenever it is met unless the
    chain spans the whole uint64 range. *)
Theorem hasRequiredConfirmations_spec block required head :
  0 <= block < 2 ^ 64 -> 0 <= head < 2 ^ 64 -> 0 <= required < 2 ^ 64 ->
  (hasRequiredConfirmations block required head = true ->
     0 < required /\ block <= head /\ required <= head - block + 1) /\
  (0 < required -> block <= head -> required <= head - block + 1 -> head - block + 1 < 2 ^ 64 ->
     hasRequiredConfirmations block required head = true).
Proof.
  intros Hb Hh Hr. unfold hasRequiredConfirmations, u64. split.
  - case_decide; [done|]. case_decide; [done|]. intros Hle%bool_decide_eq_true.
    pose proof (Z.mod_le (head - block + 1) (2 ^ 64) ltac:(lia) ltac:(lia)). lia.
  - intros. rewrite decide_False, decide_False by lia. apply bool_decide_eq_true.
    rewrite Z.mod_small; lia.
Qed.

(** A positive requirement the head meets, counting the packet's own block (in uint64). *)
Definition deep_enough (block required head : Z) : Prop :=
  required <> 0 /\ block <= head /\ required <= (head - block + 1) mod 2 ^ 64.
Lemma hasRequiredConfirmations_deep block required head :
  hasRequiredConfirmations block required head = true -> deep_enough block required head.
Proof.
  unfold hasRequiredConfirmations, deep_enough, u64. case_decide; [done|]. case_decide; [done|].
  intros Hle%bool_decide_eq_true. split_and!; [done|lia|done].
Qed.

(** The required-DVN comparison accepts exactly the reorderings of the configured set,
    counting duplicates. *)
Lemma equalAddressSets_spec a b : equalAddressSets a b = true <-> a ≡ₚ b.
Proof.
  unfold equalAddressSets. split.
  - case_decide as Hl; [done|]. intros E%bool_decide_eq_true.
    etrans; [symmetry; apply (merge_sort_Permutation Z.le)|]. rewrite E. apply merge_sort_Permutation.
  - intros Hp. rewrite decide_False by (rewrite Hp; tauto). apply bool_decide_eq_true.
    apply (Sorted_unique Z.le); [apply Sorted_merge_sort, _..|]. by rewrite !merge_sort_Permutation.
Qed.

Section proofs.
Context `{EventAbi}.

(** ** Receipts *)

(** The record decoded from a log agrees with the stored packet in everything it signs off. *)
Definition same_packet (stored decoded : PacketRecord) : Prop :=
  k_GUID decoded = k_GUID stored /\ k_SrcEID decoded = k_SrcEID stored /\ k_DstEID decoded = k_DstEID stored /\
  k_Sender decoded = k_Sender stored /\ k_Receiver decoded = k_Receiver stored /\
  k_SendLib decoded = k_SendLib stored /\ k_PayloadHash decoded = k_PayloadHash stored /\
  k_EncodedPacket decoded = k_EncodedPacket stored.

Lemma validateReceiptPacket_same e a : validateReceiptPacket e a = Ok tt <-> same_packet e a.
Proof.
  unfold validateReceiptPacket, same_packet. split.
  - intros E. repeat (case_decide; [|done]). by intuition.
  - intros (?&?&?&?&?&?&?&?). by repeat (rewrite decide_True by done).
Qed.

(** The log of a receipt at an index: the first with it. *)
Definition log_at (logs : list (option Log)) (index : Z) : option Log :=
  head (filter (fun log => lg_Index log = index) (omap id logs)).

(** The log is of the endpoint, when one is configured. *)
Definition of_endpoint (endpoint : Address) (log : Log) : Prop := endpoint <> 0 -> lg_Address log = endpoint.

(** The receipt reports no uint64 block other than the indexed one. *)
Definition block_agrees (packet : PacketRecord) (receipt : Receipt) : Prop :=
  forall n, rc_BlockNumber receipt = Some n -> 0 <= n < 2 ^ 64 -> n = k_SrcBlockNumber packet.

(** The packet's transaction, successful. *)
Definition of_tx (packet : PacketRecord) (receipt : Receipt) : Prop :=
  rc_TxHash receipt = k_SrcTxHash packet /\ rc_Status receipt = 1.

(** A receipt that proves the packet: successful, of its transaction and block, with the packet in
    the endpoint's log at the stored index. *)
Definition proves (packet : PacketRecord) (receipt : Receipt) (endpoint : Address) : Prop :=
  of_tx packet receipt /\ block_agrees packet receipt /\
  exists log record, log_at (rc_Logs receipt) (k_SrcLogIndex packet) = Some log /\
    lg_BlockNumber log = k_SrcBlockNumber packet /\ of_endpoint endpoint log /\
    PacketRecordFromSentLog log = Ok record /\ same_packet packet record.

(** One that shows the transaction in another block. *)
Definition moved (packet : PacketRecord) (receipt : Receipt) (endpoint : Address) : Prop :=
  of_tx packet receipt /\
  (~ block_agrees packet receipt \/
   exists log, log_at (rc_Logs receipt) (k_SrcLogIndex packet) = Some log /\ of_endpoint endpoint log /\
     lg_BlockNumber log <> k_SrcBlockNumber packet).

(** One that contradicts the packet: of another transaction or a failed one, or in the same block
    without the endpoint's log at the stored index, or with another packet there. *)
Definition contradicts (packet : PacketRecord) (receipt : option Receipt) (endpoint : Address) : Prop :=
  forall r, receipt = Some r -> ~ of_tx packet r \/
    block_agrees packet r /\
    forall log, log_at (rc_Logs r) (k_SrcLogIndex packet) = Some log -> ~ of_endpoint endpoint log \/
      lg_BlockNumber log = k_SrcBlockNumber packet /\
      forall record, PacketRecordFromSentLog log = Ok record -> ~ same_packet packet record.

(** Only the log at the stored index decides. *)
Lemma report_of_logs_at packet receipt endpoint logs :
  report_of_logs packet receipt endpoint logs =
  match log_at logs (k_SrcLogIndex packet) with
  | None => report_of_logs packet receipt endpoint []
  | Some log => report_of_logs packet receipt endpoint [Some log]
  end /\ forall log, log_at logs (k_SrcLogIndex packet) = Some log -> lg_Index log = k_SrcLogIndex packet.
Proof.
  unfold log_at. induction logs as [|[log|] logs IH]; [done| |exact IH].
  cbn [omap list_omap id]. rewrite filter_cons. cbn [report_of_logs]. destruct (decide (lg_Index log <> k_SrcLogIndex packet)) as [Hi|Hi].
  - rewrite decide_False by done. exact IH.
  - apply dec_stable in Hi. rewrite !(decide_True (P := lg_Index log = _)) by done. cbn [head]. split; [|by intros l [= <-]].
    by rewrite (decide_False (P := lg_Index log <> _)) by tauto.
Qed.

(** What a verdict on a receipt rests on. *)
Definition receipt_verdict (packet : PacketRecord) (receipt : option Receipt) (endpoint : Address)
    (r : result werr QuorumReport) : Prop :=
  match r with
  | Ok _ => exists rc, receipt = Some rc /\ proves packet rc endpoint
  | Err (WReceiptReorg _) => exists rc, receipt = Some rc /\ moved packet rc endpoint
  | Err _ => contradicts packet receipt endpoint
  end.

Lemma report_verdict packet receipt endpoint :
  of_tx packet receipt -> block_agrees packet receipt ->
  receipt_verdict packet (Some receipt) endpoint (report_of_logs packet receipt endpoint (rc_Logs receipt)).
Proof.
  intros Ht Hb. destruct (report_of_logs_at packet receipt endpoint (rc_Logs receipt)) as [-> Hidx].
  destruct (log_at _ _) as [log|] eqn:Hl; cbn [report_of_logs].
  2:{ intros r [= <-]. right. split; [done|]. by rewrite Hl. }
  specialize (Hidx _ eq_refl). rewrite decide_False by tauto.
  assert (~ foreign endpoint log <-> of_endpoint endpoint log) as Hf
    by (unfold foreign, of_endpoint; destruct (decide (lg_Address log = endpoint)); tauto).
  destruct (decide (~ foreign endpoint log)) as [Hn|Hn].
  2:{ intros r [= <-]. right. split; [done|]. rewrite Hl. intros l [= <-]. left. by rewrite <- Hf. }
  apply Hf in Hn. destruct (decide (lg_BlockNumber log <> k_SrcBlockNumber packet)) as [Hne|He].
  { exists receipt. split; [done|]. split; [done|]. right. by exists log. }
  apply dec_stable in He. destruct (PacketRecordFromSentLog log) as [record|msg] eqn:Hd; cbn.
  2:{ intros r [= <-]. right. split; [done|]. rewrite Hl. intros l [= <-]. right. split; [done|]. by rewrite Hd. }
  pose proof (validateReceiptPacket_same packet record) as Hs.
  destruct (validateReceiptPacket packet record) as [[]|e] eqn:Hv; cbn.
  { exists receipt. split; [done|]. split_and!; [done..|]. exists log, record. split_and!; [done..|by apply Hs]. }
  assert (contradicts packet (Some receipt) endpoint) as Hc.
  { intros r [= <-]. right. split; [done|]. rewrite Hl. intros l [= <-]. right. split; [done|].
    rewrite Hd. intros r [= <-] Hsame. by apply Hs in Hsame. }
  revert Hv. unfold validateReceiptPacket. repeat (case_decide; [|by intros [= <-]]). done.
Qed.

Lemma verifySourceReceipt_verdict packet receipt endpoint :
  receipt_verdict packet receipt endpoint (verifySourceReceiptForEndpoint packet receipt endpoint).
Proof.
  unfold verifySourceReceiptForEndpoint. destruct receipt as [r|]; [|by intros ? [=]].
  case_decide as Ht; [|intros ? [= <-]; left; by intros [? _]].
  case_decide as Hst; [|intros ? [= <-]; left; by intros [_ ?]].
  assert (of_tx packet r) as Hof by done. destruct (rc_BlockNumber r) as [n|] eqn:Hn.
  - case_decide as Hd.
    + exists r. split; [done|]. split; [done|]. left. intros Hb. destruct Hd as [Hr Hne]. by apply Hne, (Hb n).
    + apply report_verdict; [done|]. intros m E Hm. rewrite Hn in E. injection E as <-.
      destruct (decide (n = k_SrcBlockNumber packet)); [done|]. by destruct Hd.
  - apply report_verdict; [done|]. intros m E. congruence.
Qed.

(** ** Destination reads *)

(** A receive configuration this DVN may verify under: it asks for no more confirmations than the job
    has, its required DVNs are the pathway's, and it has no optional ones. *)
Definition approved_uln (config : ulnConfig) (confirmations : Z) (required : list Address) : Prop :=
  uc_Confirmations config <= confirmations /\
  uc_RequiredDVNCount config = Z.of_nat (length (uc_RequiredDVNs config)) mod 256 /\
  (uc_OptionalDVNCount config = 0 \/ uc_OptionalDVNCount config = 255) /\
  uc_OptionalDVNThreshold config = 0 /\ uc_OptionalDVNs config = [] /\ uc_RequiredDVNs config ≡ₚ required.

Lemma validateReceiveUlnConfig_approved config confirmations required :
  validateReceiveUlnConfig config confirmations required = Ok tt <-> approved_uln config confirmations required.
Proof.
  unfold validateReceiveUlnConfig, approved_uln. rewrite <- equalAddressSets_spec. split.
  - intros E. repeat (case_decide; [|done]). done.
  - intros (?&?&?&?&?&?). by repeat (rewrite decide_True by done).
Qed.

Definition config_ok (past : history) (endpoint : Address) (packet : PacketRecord) (pathway : Pathway)
    (confirmations : Z) (mode : address_mode) : Prop :=
  exists supported config,
    saw past (k_DstEID packet) endpoint (GetReceiveLibrary (k_Receiver packet) (k_SrcEID packet)) mode
      (pw_ReceiveLib pathway, supported) /\
    saw past (k_DstEID packet) (pw_ReceiveLib pathway) (GetUlnConfig (k_Receiver packet) (k_SrcEID packet)) mode config /\
    approved_uln config confirmations (pw_ReceiveRequiredDVNs pathway).

(** The destination answered a configuration that is not the approved one. *)
Definition config_bad (past : history) (endpoint : Address) (packet : PacketRecord) (pathway : Pathway)
    (confirmations : Z) (mode : address_mode) : Prop :=
  (exists lib supported, lib <> pw_ReceiveLib pathway /\
    saw past (k_DstEID packet) endpoint (GetReceiveLibrary (k_Receiver packet) (k_SrcEID packet)) mode (lib, supported)) \/
  (exists config,
    saw past (k_DstEID packet) (pw_ReceiveLib pathway) (GetUlnConfig (k_Receiver packet) (k_SrcEID packet)) mode config /\
    ~ approved_uln config confirmations (pw_ReceiveRequiredDVNs pathway)).

(** The verdict of a validation: approved, or contradicted, or not known. *)
Definition config_verdict {A} (good bad : Prop) (r : result werr A) : Prop :=
  match r with Ok _ => good | Err (WConfigMismatch _) => bad | Err _ => True end.

Lemma config_verdict_failure {A} good bad e : read_failure e -> config_verdict good bad (@Err werr A e).
Proof. by destruct e. Qed.

Definition dvn_inbound (packet : PacketRecord) : view Hash :=
  let o := originFromPacket packet in
  InboundPayloadHash (k_Receiver packet) (k_SrcEID packet) (og_Sender o) (og_Nonce o).

(** What verificationAlreadyComplete read. *)
Definition completion_read (past : history) (endpoint : Address) (packet : PacketRecord) (pathway : Pathway)
    (confirmations : Z) (mode : address_mode) (complete : bool) : Prop :=
  (complete = true /\ saw past (k_DstEID packet) endpoint (dvn_inbound packet) mode (k_PayloadHash packet)) \/
  exists inbound submitted observed,
    saw past (k_DstEID packet) endpoint (dvn_inbound packet) mode inbound /\ inbound <> k_PayloadHash packet /\
    config_ok past endpoint packet pathway confirmations mode /\
    saw past (k_DstEID packet) (pw_ReceiveLib pathway)
      (HashLookup (Keccak256Hash (k_PacketHeader packet)) (k_PayloadHash packet) (pw_DestinationOpenDVN pathway))
      mode (submitted, observed) /\
    complete = submitted && bool_decide (confirmations <= observed).

Lemma config_ok_mono past past' e p w c m : past ⊆ past' -> config_ok past e p w c m -> config_ok past' e p w c m.
Proof. intros Hs (s & cfg & H1 & H2 & H3). exists s, cfg. split_and!; [by eapply saw_mono..|done]. Qed.

Lemma completion_read_mono past past' e p w c m b :
  past ⊆ past' -> completion_read past e p w c m b -> completion_read past' e p w c m b.
Proof.
  intros Hs [[-> Hr]|(i & s & o & H1 & H2 & H3 & H4 & H5)]; [left; split; [done|by eapply saw_mono]|].
  right. exists i, s, o. split_and!; [by eapply saw_mono|done|by eapply config_ok_mono|by eapply saw_mono|done].
Qed.

Section step.
Context (step : history -> store_op -> Prop).
Abbreviation P := (justified step).
Abbreviation okay p past db := (safe P p past db (fun _ _ _ => True)).

Lemma validateConfig_reads endpoint packet pathway confirmations anchor past db :
  safe P (validateDestinationVerificationConfig (k_DstEID packet) endpoint packet pathway confirmations anchor)
    past db (fun r past' _ =>
      config_verdict (config_ok past' endpoint packet pathway confirmations (CallAtAnchor anchor))
        (config_bad past' endpoint packet pathway confirmations (CallAtAnchor anchor)) r).
Proof.
  unfold validateDestinationVerificationConfig. eapply (safe_try _ _ _ _ _ (fun r past' =>
    match r with
    | Ok lib => exists s, saw past' (k_DstEID packet) endpoint
        (GetReceiveLibrary (k_Receiver packet) (k_SrcEID packet)) (CallAtAnchor anchor) (lib, s)
    | Err e => read_failure e
    end)); [| |intros; by apply config_verdict_failure].
  { unfold callReceiveLibrary. case_decide; [|by intros ? _]. case_decide; [|by intros ? _].
    eapply safe_try; [apply view_reads_try| |done]. intros [lib s] p' db' _ Hv ? _. by exists s. }
  intros lib p1 db1 _ [s Hl]. case_decide as Hne; [intros ? _; left; by exists lib, s|]. subst lib.
  eapply (safe_try _ _ _ _ _ (fun r past' => match r with
    | Ok config => saw past' (k_DstEID packet) (pw_ReceiveLib pathway)
        (GetUlnConfig (k_Receiver packet) (k_SrcEID packet)) (CallAtAnchor anchor) config
    | Err e => read_failure e
    end)); [| |intros; by apply config_verdict_failure].
  { unfold callReceiveUlnConfig. case_decide; [|by intros ? _]. case_decide; [|by intros ? _]. apply view_reads_try. }
  intros config p2 db2 Hs2 Hc. destruct (validateReceiveUlnConfig _ _ _) as [[]|msg] eqn:Hv; intros ? _; cbn.
  - exists s, config. split_and!; [by eapply saw_mono|done|by apply validateReceiveUlnConfig_approved].
  - right. exists config. split; [done|]. rewrite <- validateReceiveUlnConfig_approved. congruence.
Qed.

(** What a completion check tells: its answer with its reads, or a contradicted configuration. *)
Definition completion_verdict (w : DVNWorker) (past : history) (packet : PacketRecord) (pathway : Pathway)
    (confirmations : Z) (mode : address_mode) (r : result werr bool) : Prop :=
  let at_chain (Q : Address -> Prop) := exists registry chain, dw_registry w = Some registry /\
    Get registry (k_DstEID packet) = Ok chain /\ Q (ch_EndpointAddress chain) in
  match r with
  | Ok b => at_chain (fun e => completion_read past e packet pathway confirmations mode b)
  | Err (WConfigMismatch _) => at_chain (fun e => config_bad past e packet pathway confirmations mode)
  | Err _ => True
  end.

Lemma alreadyComplete_reads w packet pathway confirmations anchor past db :
  safe P (verificationAlreadyComplete w packet pathway confirmations anchor) past db (fun r past' _ =>
    completion_verdict w past' packet pathway confirmations (CallAtAnchor anchor) r).
Proof.
  unfold verificationAlreadyComplete.
  apply safe_pure; [|intros e He ? _; by destruct (Validate packet); cbn in He; simplify_eq]. intros _ _.
  case_decide; [|by intros ? _]. destruct (dw_registry w) as [registry|] eqn:Hreg; [|by intros ? _].
  apply safe_pure; [|intros e He ? _; by destruct (Get _ _); cbn in He; simplify_eq]. intros chain Hc.
  assert (Get registry (k_DstEID packet) = Ok chain) as Hg by (destruct (Get _ _); cbn in Hc; by simplify_eq).
  enough (safe P (withCaller w (k_DstEID packet)
    (let? payloadHash := callInboundPayloadHash (k_DstEID packet) (ch_EndpointAddress chain) packet anchor in
     if decide (payloadHash = k_PayloadHash packet) then Ret (Ok true) else
     let? _ := validateDestinationVerificationConfig (k_DstEID packet) (ch_EndpointAddress chain) packet pathway
       confirmations anchor in
     let? lookup := callHashLookup (k_DstEID packet) (pw_ReceiveLib pathway) (Keccak256Hash (k_PacketHeader packet))
       (k_PayloadHash packet) (pw_DestinationOpenDVN pathway) anchor in
     Ret (Ok (lookup.1 && bool_decide (confirmations <= lookup.2))))) past db (fun r past' _ =>
     match r with
     | Ok b => completion_read past' (ch_EndpointAddress chain) packet pathway confirmations (CallAtAnchor anchor) b
     | Err (WConfigMismatch _) => config_bad past' (ch_EndpointAddress chain) packet pathway confirmations (CallAtAnchor anchor)
     | Err _ => True
     end)) as Hs.
  { eapply safe_mono; [|exact Hs]. intros [b|[]] p' db' Hr; try done; by exists registry, chain. }
  unfold withCaller. case_decide; [|by intros ? _].
  apply (safe_try _ _ _ _ _ (fun r past' => match r with
    | Ok h => saw past' (k_DstEID packet) (ch_EndpointAddress chain) (dvn_inbound packet) (CallAtAnchor anchor) h
    | Err e => read_failure e end)); [| |by intros []].
  { unfold callInboundPayloadHash. case_decide; [apply view_reads_try|by intros ? _]. }
  intros h p1 db1 _ Hh. case_decide as He; [intros ? _; left; by rewrite <- He|].
  eapply safe_try; [apply validateConfig_reads| |by intros []]. intros u p2 db2 Hs2 Hcfg; cbn in Hcfg.
  apply (safe_try _ _ _ _ _ (fun r past' => match r with
    | Ok x => saw past' (k_DstEID packet) (pw_ReceiveLib pathway)
        (HashLookup (Keccak256Hash (k_PacketHeader packet)) (k_PayloadHash packet) (pw_DestinationOpenDVN pathway))
        (CallAtAnchor anchor) x
    | Err e => read_failure e end)); [| |by intros []].
  { unfold callHashLookup. case_decide; [|by intros ? _]. case_decide; [apply view_reads_try|by intros ? _]. }
  intros [s o] p3 db3 Hs3 Hl ? _. right.
  exists h, s, o. split_and!; [eapply saw_mono; [|done]; grow|done|by eapply config_ok_mono|done..].
Qed.

(** The state a confirmation depth below a verified head of the destination. *)
Definition dvn_deep (registry : Registry) (past : history) (eid : Z) (mode : address_mode) : Prop :=
  exists chain, Get registry eid = Ok chain /\
  ((ch_Confirmations chain = 0 /\ mode = AtCanonicalHead) \/
   exists head, tip past eid head /\ ch_Confirmations chain <= head.1 /\ mode = AtNumber (head.1 - ch_Confirmations chain)).

Lemma dvn_deep_mono registry past past' eid mode :
  past ⊆ past' -> dvn_deep registry past eid mode -> dvn_deep registry past' eid mode.
Proof.
  intros Hs (chain & Hg & [Hz|(head & Hh & Hr)]); exists chain; (split; [done|]); [by left|right].
  exists head. split; [by eapply heard_mono|done].
Qed.

Lemma dstHead_reads w eid msg past db :
  safe P (dstHead w eid msg) past db (fun r past' _ => forall h, r = Ok h -> heard past' (WCheckHead eid) (Ok h)).
Proof.
  unfold dstHead. case_decide; [|intros ? _ h [=]]. intros db0 _ a. split; [done|].
  destruct a as [a|e]; intros ? _ h [= <-]. apply heard_here.
Qed.

Lemma dvnAnchor_reads w eid past db :
  safe P (dvnAnchor w eid) past db (fun r past' _ =>
    forall a, r = Ok a -> exists head, a = AnchorFromHead head /\ tip past' eid head).
Proof.
  unfold dvnAnchor. eapply safe_ok; [apply dstHead_reads| |intros ????? [=]].
  intros [[n|] h] p' db' _ Hh ? _ a [= <-]. by exists (n, h).
Qed.

Lemma confirmedDst_reads registry w eid past db :
  safe P (confirmedDstBlock registry w eid) past db (fun r past' _ =>
    forall n, r = Ok n -> dvn_deep registry past' eid (CallAtAnchor (confirmedAnchor n))).
Proof.
  unfold confirmedDstBlock. apply safe_pure; [|intros e _ ? _ n [=]]. intros chain Hc.
  assert (Get registry eid = Ok chain) as Hg by (destruct (Get _ _); cbn in Hc; by simplify_eq).
  case_decide as Hz; [intros ? _ n [= <-]; exists chain; split; [done|by left]|].
  eapply safe_ok; [apply dstHead_reads| |intros ????? [=]]. intros [[n|] h] p' db' _ Hh; cbn [fst]; [|intros ? _ ? [=]].
  case_decide; [|intros ? _ ? [=]]. case_decide; intros ? _ k [= <-].
  exists chain. split; [done|]. right. exists (n, h). split_and!; [done|cbn; lia|done].
Qed.

Lemma confirmedOnChain_reads registry w packet pathway confirmations past db :
  safe P (verificationConfirmedOnChain registry w packet pathway confirmations) past db (fun r past' _ =>
    forall b, r = Ok b -> b = true -> exists mode, dvn_deep registry past' (k_DstEID packet) mode /\
      completion_verdict w past' packet pathway confirmations mode (Ok true)).
Proof.
  unfold verificationConfirmedOnChain. apply safe_bind. eapply safe_mono; [|apply confirmedDst_reads].
  intros [n|e] p1 db1 Hd; [|destruct e; by intros ? _ b [= <-] [=]]. specialize (Hd n eq_refl).
  apply safe_bind. eapply safe_post; [apply alreadyComplete_reads|].
  intros [b|e] p2 db2 Hs2 Hc; [|destruct (isDestinationVerificationConfigMismatch e); by intros ? _ b' [= <-] [=]].
  intros ? _ b' [= <-] ->. exists (CallAtAnchor (confirmedAnchor n)). split; [by eapply dvn_deep_mono|done].
Qed.

(** ** Control flow *)

Context (step_defer : forall past guid status, step past (OpDeferDVN guid status loopInterval)).

Lemma deferDVN_okay guid status past db : okay (deferDVN guid status) past db.
Proof. apply safe_storeW; [intros env op [= <-]; apply step_defer|]. intros. apply okay_ret. Qed.

Lemma deferError_okay item status cause past db : okay (deferDVNWorkError item status cause) past db.
Proof. apply safe_unlessDone. intros. destruct (IsFatal cause); [apply okay_ret|apply deferDVN_okay]. Qed.

Lemma orDeferDVN_okay {A} item status (p : work (result werr A)) k past db (I : A -> history -> Prop) :
  safe P p past db (fun r past' _ => forall a, r = Ok a -> I a past') ->
  (forall a past' db', past ⊆ past' -> I a past' -> okay (k a) past' db') ->
  okay (orDeferDVN item status p k) past db.
Proof.
  intros Hp Hk. unfold orDeferDVN. apply safe_bind. eapply safe_post; [exact Hp|].
  intros [a|e] past' db' Hs HI; [by apply Hk, HI|apply deferError_okay].
Qed.

Lemma orDeferDVN_pure_okay {A} item status (r : result werr A) k past db :
  (forall a, r = Ok a -> okay (k a) past db) -> okay (orDeferDVN item status (pure r) k) past db.
Proof. intros Hk. unfold orDeferDVN, pure. destruct r as [a|e]; cbn; [by apply Hk|apply deferError_okay]. Qed.

Lemma orParkDVN_okay {A} item status (p : work (result werr A)) k past db (I : result werr A -> history -> Prop) :
  safe P p past db (fun r past' _ => I r past') ->
  (forall past' msg reason, past ⊆ past' -> I (Err (WConfigMismatch msg)) past' ->
     step past' (OpDVNManualReviewAndPause (k_GUID item.1) status reason (dj_QuorumResult item.2))) ->
  (forall a past' db', past ⊆ past' -> I (Ok a) past' -> okay (k a) past' db') ->
  okay (orParkDVN item status p k) past db.
Proof.
  intros Hp Hpark Hk. unfold orParkDVN. apply safe_bind. eapply safe_post; [exact Hp|].
  intros [a|e] past' db' Hs HI; [by apply Hk|].
  destruct e; try apply deferError_okay; cbn [isDestinationVerificationConfigMismatch].
  apply safe_storeW; [|intros; apply okay_ret]. intros env op [= <-]. by eapply Hpark.
Qed.

Definition dlisted (past : history) (status : string) (item : DVNWorkItem) : Prop :=
  exists rest, stored past (ListDVNWork status 1) (item :: rest).

Lemma dlisted_mono past past' status item : past ⊆ past' -> dlisted past status item -> dlisted past' status item.
Proof. intros Hs [rest Hl]. exists rest. by eapply stored_mono. Qed.

Lemma firstDVNWork_okay status none k past db :
  (forall past' db', past ⊆ past' -> okay none past' db') ->
  (forall item past' db', past ⊆ past' -> dlisted past' status item -> okay (k item) past' db') ->
  okay (firstDVNWork status none k) past db.
Proof.
  intros Hn Hk. apply safe_readW; [|done]. intros past' db0 [|item rest] Hs Hl; [by apply Hn|].
  apply Hk; [done|]. by exists rest.
Qed.

End step.

(** ** The verifier loop *)

(** An active pathway's destination was validated at a verified tip; other pathways need no
    validation. *)
Definition destination_validated (w : DVNWorker) (past : history) (item : DVNWorkItem) : Prop :=
  forall registry pathway, dw_registry w = Some registry ->
  PathwayOf registry (k_SrcEID item.1) (k_DstEID item.1) (k_Sender item.1) (k_Receiver item.1) = Ok pathway ->
  pw_DVNMode pathway = DVNModeActive ->
  exists chain head, Get registry (k_DstEID item.1) = Ok chain /\ tip past (k_DstEID item.1) head /\
    config_ok past (ch_EndpointAddress chain) item.1 pathway (dj_ConfirmationsRequired item.2) (at_tip head).

(** The same, contradicted. *)
Definition destination_contradicted (w : DVNWorker) (past : history) (item : DVNWorkItem) : Prop :=
  exists registry pathway chain head, dw_registry w = Some registry /\
  PathwayOf registry (k_SrcEID item.1) (k_DstEID item.1) (k_Sender item.1) (k_Receiver item.1) = Ok pathway /\
  Get registry (k_DstEID item.1) = Ok chain /\ tip past (k_DstEID item.1) head /\
  config_bad past (ch_EndpointAddress chain) item.1 pathway (dj_ConfirmationsRequired item.2) (at_tip head).

(** The endpoint whose logs count for a source chain. *)
Definition source_endpoint (w : DVNWorker) (eid : Z) (endpoint : Address) : Prop :=
  match dw_registry w with
  | None => endpoint = 0
  | Some registry => exists chain, Get registry eid = Ok chain /\ endpoint = ch_EndpointAddress chain
  end.

(** The receipt the source chain's reader answered. *)
Definition receipt_read (w : DVNWorker) (past : history) (packet : PacketRecord)
    (answer : result client_err (option Receipt)) : Prop :=
  exists floor, dw_receipts w !! k_SrcEID packet = Some floor /\
  heard past (WReceipt (k_SrcEID packet) (k_SrcTxHash packet)
                (if floor : bool then Some (k_SrcBlockNumber packet) else None)) answer.

(** The receipt readers disagree, or their answer contradicts the packet. *)
Definition conflicting (w : DVNWorker) (packet : PacketRecord) (answer : result client_err (option Receipt)) : Prop :=
  match answer with
  | Err e => exists txHash, cx_kind e = ReceiptConflict txHash
  | Ok receipt => exists endpoint, source_endpoint w (k_SrcEID packet) endpoint /\ contradicts packet receipt endpoint
  end.

(** The transaction is gone, or in another block. *)
Definition reorganised (w : DVNWorker) (packet : PacketRecord) (answer : result client_err (option Receipt)) : Prop :=
  match answer with
  | Err e => cx_kind e = ReceiptNotFound
  | Ok receipt => exists rc endpoint, receipt = Some rc /\ source_endpoint w (k_SrcEID packet) endpoint /\
                    moved packet rc endpoint
  end.

(** The writes of the loop, each with its evidence. *)
Inductive dvn_write (w : DVNWorker) (past : history) : store_op -> Prop :=
| write_defer guid status : dvn_write w past (OpDeferDVN guid status loopInterval)
| write_pause_chain status item e n :
    dlisted past status item -> heard past (WCheckHead (k_SrcEID item.1)) (Err e) -> cx_kind e = HeadConflict n ->
    dvn_write w past (OpPauseChain (k_SrcEID item.1))
| write_waiting status item :
    dlisted past status item -> status = DVNReorgDetected \/ status = DVNAssigned ->
    dvn_write w past (OpDVNStatus (mkDVNUpdate (k_GUID item.1) status DVNWaitingConfirmations "" "" None))
| write_checking status item head :
    dlisted past status item -> destination_validated w past item -> tip past (k_SrcEID item.1) head ->
    deep_enough (k_SrcBlockNumber item.1) (dj_ConfirmationsRequired item.2) (head.1 mod 2 ^ 64) ->
    dvn_write w past (OpDVNStatus (mkDVNUpdate (k_GUID item.1) status DVNQuorumChecking "" "" None))
| write_ready item receipt endpoint report :
    dlisted past DVNQuorumChecking item -> receipt_read w past item.1 (Ok (Some receipt)) ->
    source_endpoint w (k_SrcEID item.1) endpoint -> proves item.1 receipt endpoint ->
    dvn_write w past (OpDVNStatus (mkDVNUpdate (k_GUID item.1) DVNQuorumChecking DVNReadyToVerify "" report None))
| write_conflict item answer reason payload :
    dlisted past DVNQuorumChecking item -> receipt_read w past item.1 answer -> conflicting w item.1 answer ->
    dvn_write w past (OpDVNStatus (mkDVNUpdate (k_GUID item.1) DVNQuorumChecking DVNQuorumConflict reason payload None))
| write_pause_pathway item reason payload db :
    dlisted past DVNQuorumChecking item ->
    EvStore (Some (OpDVNStatus (mkDVNUpdate (k_GUID item.1) DVNQuorumChecking DVNQuorumConflict reason payload None))) db ∈ past ->
    dvn_write w past (OpPausePathway (k_GUID item.1))
| write_reorg item answer reason payload :
    dlisted past DVNQuorumChecking item -> receipt_read w past item.1 answer -> reorganised w item.1 answer ->
    dvn_write w past (OpDVNStatus (mkDVNUpdate (k_GUID item.1) DVNQuorumChecking DVNReorgDetected reason payload None))
| write_reorg_at item receipt reason payload endpoint log record :
    dlisted past DVNQuorumChecking item -> receipt_read w past item.1 (Ok (Some receipt)) ->
    source_endpoint w (k_SrcEID item.1) endpoint -> moved item.1 receipt endpoint ->
    Some log ∈ rc_Logs receipt -> of_endpoint endpoint log -> lg_BlockNumber log <> 0 ->
    PacketRecordFromSentLog log = Ok record -> same_packet item.1 record ->
    dvn_write w past (OpDVNReorg (k_GUID item.1) DVNQuorumChecking reason payload (lg_BlockNumber log) (lg_Index log)
      (k_SrcBlockNumber item.1) (k_SrcLogIndex item.1))
| write_park status item reason :
    dlisted past status item -> destination_contradicted w past item ->
    dvn_write w past (OpDVNManualReviewAndPause (k_GUID item.1) status reason (dj_QuorumResult item.2))
| write_would_verify item registry pathway :
    dlisted past DVNReadyToVerify item -> dw_registry w = Some registry ->
    PathwayOf registry (k_SrcEID item.1) (k_DstEID item.1) (k_Sender item.1) (k_Receiver item.1) = Ok pathway ->
    pw_DVNMode pathway = DVNModeShadow -> dj_QuorumResult item.2 <> ""%string ->
    dvn_write w past (OpDVNStatus (mkDVNUpdate (k_GUID item.1) DVNReadyToVerify DVNWouldVerify "" (dj_QuorumResult item.2) None))
| write_verified item registry pathway head mode :
    dlisted past DVNReadyToVerify item -> dw_registry w = Some registry ->
    PathwayOf registry (k_SrcEID item.1) (k_DstEID item.1) (k_Sender item.1) (k_Receiver item.1) = Ok pathway ->
    pw_DVNMode pathway = DVNModeActive -> tip past (k_DstEID item.1) head ->
    completion_verdict w past item.1 pathway (dj_ConfirmationsRequired item.2) (at_tip head) (Ok true) ->
    dvn_deep registry past (k_DstEID item.1) mode ->
    completion_verdict w past item.1 pathway (dj_ConfirmationsRequired item.2) mode (Ok true) ->
    dvn_write w past (OpDVNStatus (mkDVNUpdate (k_GUID item.1) DVNReadyToVerify DVNVerified "" (dj_QuorumResult item.2) None))
| write_verify_tx item registry pathway head request :
    dlisted past DVNReadyToVerify item -> dj_QuorumResult item.2 <> ""%string -> dw_registry w = Some registry ->
    PathwayOf registry (k_SrcEID item.1) (k_DstEID item.1) (k_Sender item.1) (k_Receiver item.1) = Ok pathway ->
    pw_DVNMode pathway = DVNModeActive -> tip past (k_DstEID item.1) head ->
    completion_verdict w past item.1 pathway (dj_ConfirmationsRequired item.2) (at_tip head) (Ok false) ->
    buildVerifyTx w item.1 pathway (dj_ConfirmationsRequired item.2) = Ok request ->
    dvn_write w past (OpEnqueueDVN (k_GUID item.1) DVNReadyToVerify DVNVerifyTxEnqueued request (dj_QuorumResult item.2)).

Section verifier.
Context (w : DVNWorker).
Abbreviation okay p past db := (safe (justified (dvn_write w)) p past db (fun _ _ _ => True)).
Hint Constructors dvn_write : core.

Lemma completion_verdict_mono past past' packet pathway c mode r :
  past ⊆ past' -> completion_verdict w past packet pathway c mode (Ok r) -> completion_verdict w past' packet pathway c mode (Ok r).
Proof. intros Hs (reg & ch & E1 & E2 & Hr). exists reg, ch. split_and!; [done..|by eapply completion_read_mono]. Qed.

Lemma dvn_defers past guid status : dvn_write w past (OpDeferDVN guid status loopInterval).
Proof. constructor. Qed.
Hint Resolve dvn_defers : core.

(** A write whose result ends the pass. *)
Lemma last_write_okay {R} (c : store_call R) past db :
  (forall env op, sc_op c env = Some op -> dvn_write w past op) ->
  okay (let? _ := storeW c in Ret (Ok true)) past db.
Proof. intros Hw. apply safe_storeW; [done|]. intros. apply okay_ret. Qed.

Lemma Get_text registry eid chain : textW (Get registry eid) = Ok chain -> Get registry eid = Ok chain.
Proof. destruct (Get registry eid); cbn; congruence. Qed.
Lemma PathwayOf_text registry a b c d p : textW (PathwayOf registry a b c d) = Ok p -> PathwayOf registry a b c d = Ok p.
Proof. destruct (PathwayOf registry a b c d); cbn; congruence. Qed.

(** The pre-check of the confirmation stage. *)
Lemma validateActive_reads item past db :
  safe (justified (dvn_write w)) (validateActiveDestinationConfig w item.1 (dj_ConfirmationsRequired item.2)) past db
    (fun r past' _ => config_verdict (destination_validated w past' item) (destination_contradicted w past' item) r).
Proof.
  unfold validateActiveDestinationConfig. destruct (dw_registry w) as [registry|] eqn:Hreg.
  2:{ intros ? _ reg pw E. congruence. }
  apply safe_pure; [|intros e He ? _; by destruct (PathwayOf _ _ _ _ _); cbn in He; simplify_eq].
  intros pathway Hp%PathwayOf_text. case_decide as Hm.
  { intros ? _ reg pw E Ep Ha. rewrite Hreg in E. injection E as <-. rewrite Hp in Ep. injection Ep as <-. done. }
  apply safe_pure; [|intros e He ? _; by destruct (Get _ _); cbn in He; simplify_eq]. intros chain Hc%Get_text.
  unfold withCaller. case_decide; [|by intros ? _].
  eapply (safe_try _ _ _ _ _ (fun r past' => match r with
    | Ok a => exists head, a = AnchorFromHead head /\ tip past' (k_DstEID item.1) head
    | Err e => read_failure e end)); [| |intros; by apply config_verdict_failure].
  { unfold dvnAnchor. eapply (safe_try _ _ _ _ _ (fun r past' => match r with
      | Ok h => heard past' (WCheckHead (k_DstEID item.1)) (Ok h) | Err e => read_failure e end)); [| |done].
    - unfold dstHead. case_decide; [|by intros ? _]. intros db0 _ a. split; [done|].
      destruct a as [a|e]; intros ? _; [apply heard_here|done].
    - intros [[n|] h] p' db' _ Hh ? _; [|done]. by exists (n, h). }
  intros anchor p1 db1 _ (head & -> & Ht).
  eapply safe_post; [apply validateConfig_reads|]. intros r p2 db2 Hs2 Hv.
  assert (tip p2 (k_DstEID item.1) head) as Ht2 by (by eapply heard_mono).
  destruct r as [[]|[]]; cbn in *; try done.
  - intros reg pw E Ep Ha. rewrite Hreg in E. injection E as <-. rewrite Hp in Ep. injection Ep as <-. by exists chain, head.
  - by exists registry, pathway, chain, head.
Qed.

Lemma confirmations_okay status item past db :
  dlisted past status item -> okay (processConfirmations w status item) past db.
Proof.
  intros Hl. unfold processConfirmations. case_decide as Hst.
  { apply last_write_okay. intros env op [= <-]. apply write_waiting; auto. }
  eapply orParkDVN_okay; [done|apply validateActive_reads| |].
  { intros p1 msg reason Hs1 Hb. apply write_park; [by eapply dlisted_mono|done]. }
  intros u p1 db1 Hs1 Hv. cbn in Hv. unfold withSourceHead. case_decide; [|by apply deferError_okay].
  apply safe_askW. intros db2 r p2 ->. set (p2 := p1 ++ _).
  assert (p1 ⊆ p2) as Hs2 by set_solver. assert (dlisted p2 status item) as Hl2 by (eapply dlisted_mono; [|done]; grow).
  destruct r as [[[n|] h]|e]; [|by apply deferError_okay|].
  - destruct (hasRequiredConfirmations _ _ _) eqn:Hr.
    + apply last_write_okay. intros env op [= <-]. apply (write_checking w p2 status item (n, h));
        [done| |apply heard_here|by apply hasRequiredConfirmations_deep].
      intros reg pw E Ep Ha. destruct (Hv reg pw E Ep Ha) as (chain & head & Hg & Ht & Hc).
      exists chain, head. split_and!; [done|by eapply heard_mono|by eapply config_ok_mono].
    + case_decide as Ha; [|by apply deferDVN_okay]. apply last_write_okay. intros env op [= <-]. apply write_waiting; auto.
  - pose proof (heard_here p1 (WCheckHead (k_SrcEID item.1)) (Err e) db2) as Hh. change (p1 ++ _) with p2 in Hh.
    clearbody p2. destruct (cx_kind e) eqn:Hk; try (by apply deferError_okay).
    apply last_write_okay. intros env op [= <-]. by eapply write_pause_chain.
Qed.

Lemma confirmations_of_okay statuses past db : okay (confirmations_of w statuses) past db.
Proof.
  revert past db. induction statuses as [|status rest IH]; intros past db; [apply okay_ret|].
  apply firstDVNWork_okay; [intros; apply IH|]. intros. by apply confirmations_okay.
Qed.

Lemma conflict_okay item cause answer past db :
  dlisted past DVNQuorumChecking item -> receipt_read w past item.1 answer -> conflicting w item.1 answer ->
  okay (markQuorumConflict item.1 cause) past db.
Proof.
  intros Hl Hr Hc. apply safe_storeW_past; [intros env op [= <-]; by eapply write_conflict|].
  intros env db0 db' [] . apply last_write_okay. intros env' op [= <-].
  eapply write_pause_pathway; [eapply dlisted_mono; [|done]; set_solver|]. apply elem_of_app. right. by left.
Qed.

Lemma reorg_okay item cause answer past db :
  dlisted past DVNQuorumChecking item -> receipt_read w past item.1 answer -> reorganised w item.1 answer ->
  okay (markReorgDetected item.1 cause) past db.
Proof. intros Hl Hr Hg. apply last_write_okay. intros env op [= <-]. by eapply write_reorg. Qed.

Lemma reincluded_packet packet endpoint log updated :
  reincluded packet endpoint log = Some updated ->
  exists l record, log = Some l /\ PacketRecordFromSentLog l = Ok record /\ same_packet packet record /\
    of_endpoint endpoint l /\ lg_BlockNumber l <> 0 /\
    k_SrcBlockNumber updated = lg_BlockNumber l /\ k_SrcLogIndex updated = lg_Index l.
Proof.
  unfold reincluded. destruct log as [l|]; [|done]. case_decide as Hz; [done|]. case_decide as Hf; [done|].
  destruct (PacketRecordFromSentLog l) as [record|] eqn:Hr; [|done]. case_decide; [done|].
  destruct (validateReceiptPacket packet record) as [[]|] eqn:Hv; [|done]. intros [= <-].
  exists l, record. split_and!; try done; [by apply validateReceiptPacket_same|].
  intros He. apply dec_stable. intros Hne. by apply Hf.
Qed.

Lemma judge_okay item receipt endpoint past db :
  dlisted past DVNQuorumChecking item -> receipt_read w past item.1 (Ok receipt) ->
  source_endpoint w (k_SrcEID item.1) endpoint -> okay (judgeReceipt item.1 receipt endpoint) past db.
Proof.
  intros Hl Hr He. unfold judgeReceipt. pose proof (verifySourceReceipt_verdict item.1 receipt endpoint) as Hv.
  destruct (verifySourceReceiptForEndpoint _ _ _) as [report|e].
  - destruct Hv as (r & -> & Hp). apply last_write_okay. intros env op [= <-]. by eapply write_ready.
  - destruct e; try (eapply conflict_okay; [done..|by exists endpoint]). destruct Hv as (r & -> & Hm).
    destruct (reorgedPacketRecord _ _ _) as [updated|] eqn:Hu; [|eapply reorg_okay; [done..|by exists r, endpoint]].
    apply head_Some_elem_of, list_elem_of_omap in Hu as (olog & Hin & Ho).
    apply reincluded_packet in Ho as (log & record & -> & Hd & Hsame & Hend & Hz & Hb & Hi).
    apply last_write_okay. intros env op [= <-]. rewrite Hb, Hi. by eapply write_reorg_at.
Qed.

Lemma quorum_okay past db : okay (ProcessQuorumOnce w) past db.
Proof.
  apply firstDVNWork_okay; [intros; apply okay_ret|]. intros item p1 db1 _ Hl.
  cbv zeta. destruct (dw_receipts w !! k_SrcEID item.1) as [floor|] eqn:Hfl; [|by apply deferError_okay].
  apply safe_askW. intros db2 r p2 ->. set (p2 := p1 ++ _).
  assert (dlisted p2 DVNQuorumChecking item) as Hl2 by (eapply dlisted_mono; [|done]; set_solver).
  assert (receipt_read w p2 item.1 r) as Hr2 by (exists floor; split; [done|apply heard_here]). clearbody p2.
  destruct r as [receipt|e].
  - destruct (dw_registry w) as [registry|] eqn:Hreg.
    + apply orDeferDVN_pure_okay; [done|]. intros chain Hc%Get_text. apply judge_okay; [done..|].
      unfold source_endpoint. rewrite Hreg. by exists chain.
    + apply judge_okay; [done..|]. unfold source_endpoint. by rewrite Hreg.
  - destruct (cx_kind e) eqn:Hk; first [by apply deferError_okay |
      by eapply conflict_okay; [done|done|eexists] | by eapply reorg_okay].
Qed.

Lemma active_okay registry item pathway past db :
  dlisted past DVNReadyToVerify item -> dj_QuorumResult item.2 <> ""%string -> dw_registry w = Some registry ->
  PathwayOf registry (k_SrcEID item.1) (k_DstEID item.1) (k_Sender item.1) (k_Receiver item.1) = Ok pathway ->
  pw_DVNMode pathway = DVNModeActive -> okay (processActive registry w item pathway) past db.
Proof.
  intros Hl Hq Hreg Hp Hm. unfold processActive. cbv zeta.
  eapply orDeferDVN_okay; [done|apply dvnAnchor_reads|]. intros anchor p1 db1 Hs1 (head & -> & Ht).
  eapply orParkDVN_okay; [done|apply alreadyComplete_reads| |].
  { intros p2 msg reason Hs2 (reg & chain & E & Hc & Hb). rewrite Hreg in E. injection E as <-.
    apply write_park; [eapply dlisted_mono; [|done]; grow|].
    exists registry, pathway, chain, head. split_and!; [done|done|done|by eapply heard_mono|done]. }
  intros complete p2 db2 Hs2 Hv. change (CallAtAnchor _) with (at_tip head) in Hv.
  assert (dlisted p2 DVNReadyToVerify item) as Hl2 by (eapply dlisted_mono; [|done]; grow).
  assert (tip p2 (k_DstEID item.1) head) as Ht2 by (by eapply heard_mono).
  destruct complete.
  - eapply orDeferDVN_okay; [done|apply confirmedOnChain_reads|]. intros [] p3 db3 Hs3 Hd; cbn [negb]; [|by apply deferDVN_okay].
    destruct (Hd eq_refl) as (mode & Hdeep & Hc). apply last_write_okay. intros env op [= <-].
    eapply (write_verified w p3 item registry pathway head mode);
      [by eapply dlisted_mono|done|done|done|by eapply heard_mono|by eapply completion_verdict_mono|done|done].
  - apply safe_pure; [|intros; apply okay_ret]. intros request Hreq.
    apply safe_store. intros db3 db4 env r _. split; [by eapply write_verify_tx|].
    intros _. destruct r as [?|[]]; apply okay_ret.
Qed.

Lemma ready_okay past db : okay (ProcessReadyToVerifyOnce w) past db.
Proof.
  apply firstDVNWork_okay; [intros; apply okay_ret|]. intros item p1 db1 _ Hl.
  case_decide as Hq; [|apply okay_ret]. destruct (dw_registry w) as [registry|] eqn:Hreg; [|apply okay_ret].
  apply orDeferDVN_pure_okay; [done|]. intros pathway Hp%PathwayOf_text.
  case_decide as Hsh; [apply last_write_okay; intros env op [= <-]; by eapply write_would_verify|].
  case_decide as Hac; [|apply okay_ret]. by apply active_okay.
Qed.

(** C3: every write of the DVN loop, whatever the chains and the store answer, has its evidence
    before it. A job passes the confirmation gate only with a verified source head deep enough
    and, on an active pathway, an approved destination configuration at one tip; it becomes ready
    only on a successful receipt of its source transaction whose log at the stored index and
    block decodes to the stored packet; it is marked in conflict only when the readers disagree or
    their receipt contradicts the packet in the indexed block, and reorganised only when the
    transaction is gone or in another block; submitVerification is enqueued only for a ready job of an
    active pathway after the destination showed at one tip that it is not yet verified and still
    approved; a job is parked and its pathway paused only on a contradicted configuration; a
    terminal verified mark also held at the confirmation-deep block. *)
Theorem dvn_writes_justified n db tr1 op db0 tr2 db' r :
  behaves (RunDVN w n) db (tr1 ++ EvStore (Some op) db0 :: tr2) db' r -> dvn_write w tr1 op.
Proof.
  intros Hb. refine (okay_event _ _ _ _ _ _ _ _ _ _ Hb). apply runLoop_okay. clear. intros past db.
  apply orElse_okay; [apply confirmations_of_okay|]. intros.
  apply orElse_okay; [apply quorum_okay|]. intros. apply ready_okay.
Qed.
End verifier.
End proofs.
