(* ===== verification/Indexer.v ===== *)
(** * The indexer (go/internal/indexer/indexer.go, destination_events.go)

    One chain's four durable streams: each poll takes the confirmed window behind
    the stream's cursor, reads its logs in bounded chunks, stores the packets and
    assignments (source) or the observed outcomes (destination), and then moves
    the cursor. Log lines and metrics are left out. *)

From S2P Require Import Prelude GoErr Schema Outbox Jobs Store Quorum StateReads QuorumLogs.
From S2P Require Import LzCodec Registry Proc Worker PacketLogs.
From stdpp Require Import base gmap list strings numbers sorting pretty.
From Stdlib Require Import ZArith Lia.
#[local] Open Scope Z_scope.

Definition defaultBackfillRange : Z := 500.
Definition defaultQueryBlockRange : Z := 500.

Definition ExecutorSourceStream : string := "executor_source".
Definition ExecutorDestinationStream : string := "executor_destination".
Definition DVNSourceStream : string := "dvn_source".
Definition DVNDestinationStream : string := "dvn_destination".

Inductive role := RoleExecutor | RoleDVN.
Definition role_name (r : role) : string := match r with RoleExecutor => "executor" | RoleDVN => "dvn" end.

Record StreamSet := mkStreams {
  st_ExecutorSource : bool; st_ExecutorDestination : bool; st_DVNSource : bool; st_DVNDestination : bool }.
Definition StreamsForRoles (executorEnabled dvnEnabled : bool) : StreamSet :=
  mkStreams executorEnabled executorEnabled dvnEnabled dvnEnabled.
Definition Empty (s : StreamSet) : bool :=
  negb (st_ExecutorSource s) && negb (st_ExecutorDestination s) && negb (st_DVNSource s) && negb (st_DVNDestination s).
Definition allStreams : StreamSet := mkStreams true true true true.

(** [ix_client]: the chain has a log client. *)
Record Indexer := mkIndexer {
  ix_chain : Chain; ix_sourcePathways : list Pathway; ix_destinationPathways : list Pathway;
  ix_client : bool; ix_pollInterval : Z; ix_backfillRange : Z; ix_queryBlockRange : Z; ix_streams : StreamSet }.

Definition NewIndexer (chain : Chain) (pathways : list Pathway) : Indexer :=
  mkIndexer chain (filter (fun p => pw_SrcEID p = ch_EID chain) pathways)
    (filter (fun p => pw_DstEID p = ch_EID chain) pathways) (bool_decide (is_Some (ch_RPC chain)))
    (ch_IndexerPollInterval chain) defaultBackfillRange
    (if decide (ch_IndexerQueryBlockRange chain = 0) then defaultQueryBlockRange else ch_IndexerQueryBlockRange chain)
    allStreams.
Definition WithStreams (streams : StreamSet) (i : Indexer) : Indexer :=
  mkIndexer (ix_chain i) (ix_sourcePathways i) (ix_destinationPathways i) (ix_client i) (ix_pollInterval i)
    (ix_backfillRange i) (ix_queryBlockRange i) streams.

Definition ix_eid (i : Indexer) : Z := ch_EID (ix_chain i).

(** ** Store calls *)

Definition cGetCursor (eid : Z) (stream : string) : store_call Z :=
  readCall (fun _ => GetIndexerCursor eid stream).
Definition cUpdateCursor (eid : Z) (stream : string) (block : Z) : store_call unit :=
  opCall (fun _ => OpIndexerCursor eid stream block) (fun _ => UpdateIndexerCursor eid stream block) (fun _ _ => eq_refl).
Definition cRecordSkip (skip : SourcePacketSkip) : store_call unit :=
  opCall (fun _ => OpRecordSkip skip) (fun e => RecordSourcePacketSkip skip (ce_now e)) (fun _ _ => eq_refl).
Definition cUpsertPacket (p : PacketRecord) : store_call unit :=
  opCall (fun _ => OpUpsertPacket p) (fun e => UpsertPacket p (ce_now e)) (fun _ _ => eq_refl).
Definition cUpsertExecutor (j : ExecutorJobRecord) : store_call unit :=
  opCall (fun _ => OpUpsertExecutor j) (fun e => UpsertExecutorJob j (ce_now e)) (fun _ _ => eq_refl).
Definition cUpsertDVN (j : DVNJobRecord) : store_call unit :=
  opCall (fun _ => OpUpsertDVN j) (fun e => UpsertDVNJob j (ce_now e)) (fun _ _ => eq_refl).
Definition cCommittedObserved (guid txHash : Hash) (expected : string) : store_call unit :=
  markCall (OpExecutorStatus (mkExecutorUpdate guid expected ExecutorCommitted (Some txHash) None "" false))
    (MarkExecutorCommittedObserved guid txHash expected) (fun now db => with_hash_law txHash _ _ db).
Definition cDeliveredObserved (guid txHash : Hash) (expected : string) : store_call unit :=
  markCall (OpExecutorStatus (mkExecutorUpdate guid expected ExecutorDelivered None (Some txHash) "" false))
    (MarkExecutorDeliveredObserved guid txHash expected) (fun now db => with_hash_law txHash _ _ db).
Definition cReceiveFailedObserved (guid txHash : Hash) (expected reason : string) : store_call unit :=
  markCall (OpExecutorStatus (mkExecutorUpdate guid expected ExecutorLzReceiveFailed None (Some txHash) reason true))
    (MarkExecutorReceiveFailedObserved guid txHash expected reason) (fun now db => with_hash_law txHash _ _ db).
Definition cDVNVerifiedObserved (guid txHash : Hash) (expected : string) : store_call unit :=
  markCall (OpDVNStatus (mkDVNUpdate guid expected DVNVerified "" "" (Some txHash)))
    (MarkDVNVerifiedObserved guid txHash expected) (fun now db => with_hash_law txHash _ _ db).

(** ** Windows *)

Inductive cursorSkipReason := CaughtUp | StartBlockNotConfirmed.

(** The next window of a stream, given what its cursor read answered. *)
Definition window_of (i : Indexer) (cursor : option Z) (confirmedTo : Z) : (Z * Z) + cursorSkipReason :=
  let window from :=
    let to := confirmedTo in
    inl (from, if decide (0 < ix_backfillRange i /\ ix_backfillRange i < u64 (to - from + 1))
               then u64 (from + ix_backfillRange i - 1) else to) in
  match cursor with
  | Some c => if decide (confirmedTo <= c) then inr CaughtUp else window (u64 (c + 1))
  | None => if decide (confirmedTo < ch_StartBlockNumber (ix_chain i)) then inr StartBlockNotConfirmed
            else window (ch_StartBlockNumber (ix_chain i))
  end.

Definition cursorWindow (i : Indexer) (stream : string) (confirmedTo : Z)
    : work (result werr ((Z * Z) + cursorSkipReason)) :=
  let! cursor := store (cGetCursor (ix_eid i) stream) in
  match cursor with
  | Ok c => Ret (Ok (window_of i (Some c) confirmedTo))
  | Err ErrNoRows => Ret (Ok (window_of i None confirmedTo))
  | Err e => Ret (Err (WDB e))
  end.

Definition chunkToBlock (i : Indexer) (from limit : Z) : Z :=
  if decide (ix_queryBlockRange i = 0) then limit else
  let to := u64 (from + ix_queryBlockRange i - 1) in
  if decide (to < from \/ limit < to) then limit else to.

(** The chunks [for chunkFrom := from; chunkFrom <= to; { .. }] visits. Each turn moves past at
    least one block, so the size of the window is fuel enough. *)
Fixpoint chunks (fuel : nat) (i : Indexer) (from to : Z) : list (Z * Z) :=
  match fuel with
  | O => []
  | S fuel =>
    if decide (to < from) then [] else
    let chunkTo := chunkToBlock i from to in
    (from, chunkTo) :: if decide (chunkTo = to) then [] else chunks fuel i (u64 (chunkTo + 1)) to
  end.
Definition window_chunks (i : Indexer) (from to : Z) : list (Z * Z) := chunks (Z.to_nat (to - from + 1)) i from to.

Definition lagBlocks (confirmedTo indexedTo : Z) : Z :=
  if decide (confirmedTo <= indexedTo) then 0 else confirmedTo - indexedTo.

Section indexer.
Context `{EventAbi}.

(** ** Filters *)

(** A set of addresses in the order of their hex text, which is numerical. *)
Definition sorted_addresses (l : list Address) : list Address := merge_sort Z.le (remove_dups l).

Definition destinationAddresses (i : Indexer) (r : role) : list Address :=
  sorted_addresses (match r with
                    | RoleExecutor => [ch_EndpointAddress (ix_chain i)]
                    | RoleDVN => pw_ReceiveLib <$> ix_destinationPathways i
                    end).
Definition sourceAddresses (i : Indexer) (r : role) : list Address :=
  sorted_addresses (ch_EndpointAddress (ix_chain i) ::
    (p ← ix_sourcePathways i;
     [pw_SendLib p; match r with RoleExecutor => OpenExecutor (pw_SourceWorkers p)
                               | RoleDVN => OpenDVN (pw_SourceWorkers p) end])).
Definition sourceTopics (r : role) : list Hash :=
  match r with
  | RoleExecutor => [PacketSentTopic; ExecutorFeePaidTopic; ExecutorJobAssignedTopic]
  | RoleDVN => [PacketSentTopic; DVNFeePaidTopic; DVNJobAssignedTopic]
  end.
Definition destinationTopics (r : role) : list Hash :=
  match r with
  | RoleExecutor => [PacketVerifiedTopic; PacketDeliveredTopic; LzReceiveAlertTopic]
  | RoleDVN => [PayloadVerifiedTopic]
  end.

(** The first configured pathway with this identity. *)
Definition findPathway (pathways : list Pathway) (srcEID dstEID : Z) (sender receiver : Address) : option Pathway :=
  head (filter (on_route srcEID dstEID sender receiver) pathways).
Definition sourcePathwayIdentity (i : Indexer) := findPathway (ix_sourcePathways i).
Definition sourcePathway (i : Indexer) (p : PacketRecord) : option Pathway :=
  sourcePathwayIdentity i (k_SrcEID p) (k_DstEID p) (k_Sender p) (k_Receiver p).

(** ** Source transactions *)

Definition is_uint64 (n : option Z) : Prop := match n with Some n => 0 <= n < 2 ^ 64 | None => False end.
#[export] Instance is_uint64_dec n : Decision (is_uint64 n).
Proof. destruct n; cbn; apply _. Defined.

Definition skip_of (r : role) (p : PacketRecord) (reason : string) (worker : Address) : SourcePacketSkip :=
  mkSkip (role_name r) (k_SrcEID p) (k_DstEID p) (nonce_u64 (k_Nonce p)) (k_Sender p) (k_Receiver p)
    (k_GUID p) (k_SrcTxHash p) (k_SrcBlockNumber p) (k_SrcLogIndex p) reason worker.

Definition recordSourcePacketSkip (r : role) (p : PacketRecord) (reason : string) (worker : Address)
    : work (result werr unit) :=
  need is_uint64 (k_Nonce p)
    or ("packet " +:+ HashHex (k_GUID p) +:+ " nonce is invalid for source skip tombstone") ;;
  storeW (cRecordSkip (skip_of r p reason worker)).

(** The segments (logs up to and including a PacketSent) that belong to a configured
    pathway and send library; [relevant] so far and the open [segment]. *)
Fixpoint relevant_logs (i : Indexer) (r : role) (logs relevant segment : list Log)
    : work (result werr (list Log * list Log)) :=
  match logs with
  | [] => Ret (Ok (relevant, segment))
  | log :: logs =>
    unlessDone (
    let segment := segment ++ [log] in
    if decide (~ logHasTopic log PacketSentTopic) then relevant_logs i r logs relevant segment else
    if decide (lg_Address log <> ch_EndpointAddress (ix_chain i)) then relevant_logs i r logs relevant [] else
    let? re := pure (textW (packetRouteFromSentLog log)) in
    match sourcePathwayIdentity i (rt_SrcEID re.1) (rt_DstEID re.1) (rt_Sender re.1) (rt_Receiver re.1) with
    | None => relevant_logs i r logs relevant []
    | Some pathway =>
      if decide (ps_SendLibrary re.2 <> pw_SendLib pathway) then
        let? packet := pure (textW (PacketRecordFromSentLog log)) in
        let? _ := recordSourcePacketSkip r packet "unexpected_send_library" 0 in
        relevant_logs i r logs relevant []
      else relevant_logs i r logs (relevant ++ segment) []
    end)
  end.

(** A trailing segment with an assignment is kept, so that decoding reports it. *)
Definition sourceTxLogsForPathways (i : Indexer) (logs : list Log) (r : role) : work (result werr (list Log)) :=
  let? ordered := pure (textW (orderedSourceTxLogs logs)) in
  let? rs := relevant_logs i r ordered [] [] in
  let assignmentTopic := match r with RoleExecutor => ExecutorJobAssignedTopic | RoleDVN => DVNJobAssignedTopic end in
  Ret (Ok (if decide (Exists (fun log => logHasTopic log assignmentTopic) rs.2) then rs.1 ++ rs.2 else rs.1)).

(** UpsertPacket and UpsertExecutorJob are two transactions. *)
Fixpoint executor_records (i : Indexer) (records : list ExecutorSourceTxRecords) (processed : Z)
    : work (result werr Z) :=
  match records with
  | [] => Ret (Ok processed)
  | record :: records =>
    unlessDone (
    match sourcePathway i (xr_Packet record) with
    | None => executor_records i records processed
    | Some pathway =>
      if negb (pw_Enabled pathway) then
        let? _ := recordSourcePacketSkip RoleExecutor (xr_Packet record) "pathway_disabled" (xr_Executor record) in
        executor_records i records processed
      else if decide (xr_Executor record <> OpenExecutor (pw_SourceWorkers pathway)) then
        let? _ := recordSourcePacketSkip RoleExecutor (xr_Packet record) "unexpected_worker" (xr_Executor record) in
        executor_records i records processed
      else
        let p := xr_Packet record in
        let? _ := storeW (cUpsertPacket (mkPacketRecord (k_GUID p) (k_SrcEID p) (k_DstEID p) (k_Nonce p) (k_Sender p)
          (k_Receiver p) (k_SendLib p) (k_SrcTxHash p) (k_SrcBlockNumber p) (k_SrcLogIndex p) (k_EncodedPacket p)
          (k_PacketHeader p) (k_Message p) (k_PayloadHash p) (k_Options p) (ej_Status (xr_ExecutorJob record)))) in
        let? _ := storeW (cUpsertExecutor (xr_ExecutorJob record)) in
        executor_records i records (processed + 1)
    end)
  end.

Fixpoint recordExecutorSourceGaps (i : Indexer) (gaps : list executorSourcePacketGap) : work (result werr unit) :=
  match gaps with
  | [] => Ret (Ok tt)
  | gap :: gaps =>
    unlessDone (
    match sourcePathway i (xg_Packet gap) with
    | None => recordExecutorSourceGaps i gaps
    | Some pathway =>
      if decide (pw_Enabled pathway = true /\ xg_Executor gap = OpenExecutor (pw_SourceWorkers pathway)) then
        failW ("packet " +:+ HashHex (k_GUID (xg_Packet gap)) +:+ " paid configured executor " +:+
               AddressHex (xg_Executor gap) +:+ " but its assignment log is missing")
      else
        let reason := if pw_Enabled pathway then "unexpected_worker"%string else "pathway_disabled"%string in
        let? _ := recordSourcePacketSkip RoleExecutor (xg_Packet gap) reason (xg_Executor gap) in
        recordExecutorSourceGaps i gaps
    end)
  end.

Definition processExecutorSourceTx (i : Indexer) (txLogs : list Log) : work (result werr Z) :=
  let? rg := pure (textW (decodeExecutorSourceTxLogs txLogs)) in
  let? processed := executor_records i rg.1 0 in
  let? _ := recordExecutorSourceGaps i rg.2 in
  Ret (Ok processed).

Fixpoint dvn_records (i : Indexer) (records : list DVNSourceTxRecords) (processed : Z) : work (result werr Z) :=
  match records with
  | [] => Ret (Ok processed)
  | record :: records =>
    unlessDone (
    match sourcePathway i (vr_Packet record) with
    | None => dvn_records i records processed
    | Some pathway =>
      if negb (pw_Enabled pathway) then
        let? _ := recordSourcePacketSkip RoleDVN (vr_Packet record) "pathway_disabled" (vr_DVN record) in
        dvn_records i records processed
      else if decide (vr_DVN record <> OpenDVN (pw_SourceWorkers pathway)) then
        let? _ := recordSourcePacketSkip RoleDVN (vr_Packet record) "unexpected_worker" (vr_DVN record) in
        dvn_records i records processed
      else
        let? _ := storeW (cUpsertPacket (vr_Packet record)) in
        let? _ := storeW (cUpsertDVN (vr_DVNJob record)) in
        dvn_records i records (processed + 1)
    end)
  end.

(** The first non-zero worker up to the expected one, and whether the latter was paid. *)
Definition gap_worker (dvns : list Address) (expected : Address) : Address * bool :=
  fold_left (fun acc dvn =>
    if acc.2 : bool then acc
    else let worker := if decide (acc.1 = 0) then dvn else acc.1 in (worker, bool_decide (dvn = expected)))
    dvns (0, false).
Definition dvnGapWorker (fee : DVNFeePaid) (expected : Address) : result string (Address * bool) :=
  let dvns := df_RequiredDVNs fee ++ df_OptionalDVNs fee in
  check length dvns = length (df_Fees fee)
    or ("dvn fee worker count " +:+ pretty (length dvns) +:+ " does not match fee count " +:+
        pretty (length (df_Fees fee)))%string ;;
  Ok (gap_worker dvns expected).

Fixpoint recordDVNSourceGaps (i : Indexer) (gaps : list dvnSourcePacketGap) : work (result werr unit) :=
  match gaps with
  | [] => Ret (Ok tt)
  | gap :: gaps =>
    match sourcePathway i (vg_Packet gap) with
    | None => recordDVNSourceGaps i gaps
    | Some pathway =>
      if negb (pw_Enabled pathway) then
        let? _ := recordSourcePacketSkip RoleDVN (vg_Packet gap) "pathway_disabled" 0 in
        recordDVNSourceGaps i gaps
      else
        let expected := OpenDVN (pw_SourceWorkers pathway) in
        match dvnGapWorker (vg_Fee gap) expected with
        | Err msg => failW ("packet " +:+ HashHex (k_GUID (vg_Packet gap)) +:+ ": " +:+ msg)
        | Ok (_, true) =>
          failW ("packet " +:+ HashHex (k_GUID (vg_Packet gap)) +:+ " paid configured dvn " +:+
                 AddressHex expected +:+ " but its assignment log is missing")
        | Ok (worker, false) =>
          let? _ := recordSourcePacketSkip RoleDVN (vg_Packet gap) "unexpected_worker" worker in
          recordDVNSourceGaps i gaps
        end
    end
  end.

Definition processDVNSourceTx (i : Indexer) (txLogs : list Log) : work (result werr Z) :=
  let? rg := pure (textW (decodeDVNSourceTxLogsForEndpoint txLogs (ch_EndpointAddress (ix_chain i)))) in
  let? processed := dvn_records i rg.1 0 in
  let? _ := recordDVNSourceGaps i rg.2 in
  Ret (Ok processed).

(** Executor and DVN transactions processed. *)
Definition processSourceTxLogs (i : Indexer) (logs : list Log) (r : role) : work (result werr (Z * Z)) :=
  let? relevant := sourceTxLogsForPathways i logs r in
  match relevant with
  | [] => Ret (Ok (0, 0))
  | _ =>
    match r with
    | RoleExecutor => let? n := processExecutorSourceTx i relevant in Ret (Ok (n, 0))
    | RoleDVN => let? n := processDVNSourceTx i relevant in Ret (Ok (0, n))
    end
  end.

Definition add2 (a b : Z * Z) : Z * Z := (a.1 + b.1, a.2 + b.2).

(** [current] holds the logs of the open transaction. *)
Fixpoint source_logs (i : Indexer) (r : role) (logs current : list Log) (total : Z * Z)
    : work (result werr (Z * Z)) :=
  match logs with
  | [] =>
    match current with
    | [] => Ret (Ok total)
    | _ => let? n := processSourceTxLogs i current r in Ret (Ok (add2 total n))
    end
  | log :: logs =>
    unlessDone (
    match current with
    | first :: _ =>
      if decide (lg_TxHash first <> lg_TxHash log) then
        let? n := processSourceTxLogs i current r in
        source_logs i r logs [log] (add2 total n)
      else source_logs i r logs (current ++ [log]) total
    | [] => source_logs i r logs [log] total
    end)
  end.
Definition processSourceLogs (i : Indexer) (logs : list Log) (r : role) : work (result werr (Z * Z)) :=
  source_logs i r logs [] (0, 0).

Fixpoint source_chunks (i : Indexer) (r : role) (cs : list (Z * Z)) (total : Z * Z) : work (result werr (Z * Z)) :=
  match cs with
  | [] => Ret (Ok total)
  | (from, to) :: cs =>
    unlessDone (
    let? logs := clientW (WFilterLogs (ix_eid i) (mkFilterQuery from to (sourceAddresses i r) (sourceTopics r))) in
    let? n := processSourceLogs i logs r in
    source_chunks i r cs (add2 total n))
  end.

Definition processSourceWindow (i : Indexer) (from to : Z) (r : role) : work (result werr (Z * Z)) :=
  match ix_sourcePathways i with
  | [] => Ret (Ok (0, 0))
  | _ => source_chunks i r (window_chunks i from to) (0, 0)
  end.

(** ** Destination events (destination_events.go) *)

Definition originSenderAddress (o : Origin) : Address := topic_address (og_Sender o).

Record destinationPacketIdentity := mkIdentity {
  id_SrcEID : Z; id_DstEID : Z; id_Sender : Address; id_Receiver : Address; id_Nonce : Z }.

Definition identity_of (dstEID : Z) (o : Origin) (receiver : Address) : destinationPacketIdentity :=
  mkIdentity (og_SrcEID o) dstEID (originSenderAddress o) receiver (og_Nonce o).

Definition executorDestinationLogIdentity (dstEID : Z) (expectedExecutor : Address) (log : Log)
    : result werr (option destinationPacketIdentity) :=
  if decide (logHasTopic log PacketVerifiedTopic) then
    event ← textW (DecodePacketVerified log);
    Ok (Some (identity_of dstEID (pf_Origin event) (pf_Receiver event)))
  else if decide (logHasTopic log PacketDeliveredTopic) then
    event ← textW (DecodePacketDelivered log);
    Ok (Some (identity_of dstEID (pd_Origin event) (pd_Receiver event)))
  else if decide (logHasTopic log LzReceiveAlertTopic) then
    event ← textW (DecodeLzReceiveAlert log);
    if decide (expectedExecutor <> 0 /\ al_Executor event <> expectedExecutor) then Ok None
    else Ok (Some (identity_of dstEID (al_Origin event) (al_Receiver event)))
  else Ok None.

Definition pathwayForPacket (pathways : list Pathway) (p : PacketRecord) : option Pathway :=
  findPathway pathways (k_SrcEID p) (k_DstEID p) (k_Sender p) (k_Receiver p).

Definition executorDestinationLogPathway (pathways : list Pathway) (dstEID : Z) (expectedExecutor : Address)
    (log : Log) : result werr (option Pathway) :=
  match pathways with
  | [] => Ok None
  | _ =>
    identity ← executorDestinationLogIdentity dstEID expectedExecutor log;
    Ok (d ← identity; findPathway pathways (id_SrcEID d) (id_DstEID d) (id_Sender d) (id_Receiver d))
  end.

(** [Ok]: whether there is a tombstone. *)
Definition sourcePacketWasSkipped (r : role) (d : destinationPacketIdentity) : work (result werr bool) :=
  let! skip := store (readCall (fun _ => GetSourcePacketSkip (role_name r) (id_SrcEID d) (id_DstEID d)
                                          (id_Sender d) (id_Receiver d) (id_Nonce d))) in
  match skip with
  | Ok _ => Ret (Ok true)
  | Err ErrNoRows => Ret (Ok false)
  | Err e => Ret (Err (WDB e))
  end.

Definition executorSourcePacketWasSkipped (dstEID : Z) (expectedExecutor : Address) (log : Log)
    : work (result werr bool) :=
  let? identity := pure (executorDestinationLogIdentity dstEID expectedExecutor log) in
  match identity with
  | None => Ret (Ok false)
  | Some d => sourcePacketWasSkipped RoleExecutor d
  end.

Definition packetForDestinationLog (dstEID : Z) (log : Log) : work (result werr (option PacketRecord)) :=
  let byDestination o receiver :=
    let? p := storeW (readCall (fun _ => GetPacketByDestination dstEID (og_SrcEID o) (originSenderAddress o) receiver (og_Nonce o))) in
    Ret (Ok (Some p)) in
  if decide (logHasTopic log PacketVerifiedTopic) then
    let? event := pure (textW (DecodePacketVerified log)) in
    byDestination (pf_Origin event) (pf_Receiver event)
  else if decide (logHasTopic log PacketDeliveredTopic) then
    let? event := pure (textW (DecodePacketDelivered log)) in
    byDestination (pd_Origin event) (pd_Receiver event)
  else if decide (logHasTopic log LzReceiveAlertTopic) then
    let? event := pure (textW (DecodeLzReceiveAlert log)) in
    let? p := storeW (readCall (fun _ => GetPacket (al_GUID event))) in
    Ret (Ok (Some p))
  else Ret (Ok None).

Definition executorDestinationLogExecutorAllowed (log : Log) (expectedExecutor : Address) : bool :=
  if decide (expectedExecutor = 0 \/ ~ logHasTopic log LzReceiveAlertTopic) then true else
  match DecodeLzReceiveAlert log with
  | Ok event => bool_decide (al_Executor event = expectedExecutor)
  | Err _ => false
  end.

Definition executorDestinationLogAlreadyApplied (status : string) (topic : option Hash) : bool :=
  if decide (topic = Some PacketVerifiedTopic) then
    bool_decide (status ∈ [ExecutorCommitted; ExecutorExecutable; ExecutorLzReceiveTxEnqueued; ExecutorDelivered;
                           ExecutorLzReceiveFailed; ExecutorManualReview])
  else if decide (topic = Some PacketDeliveredTopic) then bool_decide (status = ExecutorDelivered)
  else if decide (topic = Some LzReceiveAlertTopic) then
    bool_decide (status ∈ [ExecutorLzReceiveFailed; ExecutorDelivered; ExecutorManualReview])
  else false.

Definition executorCanApplyPacketVerified (status : string) : bool :=
  bool_decide (status ∈ [ExecutorAssigned; ExecutorWaitingDVNVerification; ExecutorVerifiable; ExecutorCommitTxEnqueued]).
Definition executorCanApplyLzReceiveAlert (status : string) : bool :=
  bool_decide (status ∈ [ExecutorCommitTxEnqueued; ExecutorCommitted; ExecutorExecutable; ExecutorLzReceiveTxEnqueued]).
Definition dvnCanApplyPayloadVerified (status : string) : bool :=
  if decide (status ∈ [DVNVerified; DVNReorgDetected]) then false else bool_decide (status <> ""%string).

Notation "'want' P 'or' msg ;; k" := (if decide P then k else Err (WText msg))
  (at level 10, P at level 99, msg at level 99, k at level 200).

(** "%s a does not match %s b", and a *big.Int with %s. *)
Definition differs (what a whatElse b : string) : string :=
  what +:+ " " +:+ a +:+ " does not match " +:+ whatElse +:+ " " +:+ b.
Definition nonce_text (n : option Z) : string := match n with Some n => pretty n | None => "<nil>" end.

Definition validateOrigin (p : PacketRecord) (o : Origin) : result werr unit :=
  want og_SrcEID o = k_SrcEID p or differs "origin source eid" (pretty (og_SrcEID o)) "packet source eid" (pretty (k_SrcEID p)) ;;
  want og_Sender o = AddressToHash (k_Sender p) or differs "origin sender" (HashHex (og_Sender o)) "packet sender" (AddressHex (k_Sender p)) ;;
  want is_uint64 (k_Nonce p) or ("packet nonce " +:+ nonce_text (k_Nonce p) +:+ " does not fit uint64") ;;
  want og_Nonce o = nonce_u64 (k_Nonce p) or differs "origin nonce" (pretty (og_Nonce o)) "packet nonce" (nonce_text (k_Nonce p)) ;;
  Ok tt.
Definition validatePacketVerified (p : PacketRecord) (e : PacketVerified) : result werr unit :=
  _ ← validateOrigin p (pf_Origin e);
  want pf_Receiver e = k_Receiver p
    or differs "PacketVerified receiver" (AddressHex (pf_Receiver e)) "packet receiver" (AddressHex (k_Receiver p)) ;;
  want pf_PayloadHash e = k_PayloadHash p
    or differs "PacketVerified payload hash" (HashHex (pf_PayloadHash e)) "packet payload hash" (HashHex (k_PayloadHash p)) ;;
  Ok tt.
Definition validatePacketDelivered (p : PacketRecord) (e : PacketDelivered) : result werr unit :=
  _ ← validateOrigin p (pd_Origin e);
  want pd_Receiver e = k_Receiver p
    or differs "PacketDelivered receiver" (AddressHex (pd_Receiver e)) "packet receiver" (AddressHex (k_Receiver p)) ;;
  Ok tt.
Definition validateLzReceiveAlert (p : PacketRecord) (e : LzReceiveAlert) : result werr unit :=
  _ ← validateOrigin p (al_Origin e);
  want al_Receiver e = k_Receiver p
    or differs "LzReceiveAlert receiver" (AddressHex (al_Receiver e)) "packet receiver" (AddressHex (k_Receiver p)) ;;
  want al_GUID e = k_GUID p
    or differs "LzReceiveAlert guid" (HashHex (al_GUID e)) "packet guid" (HashHex (k_GUID p)) ;;
  want al_Message e = k_Message p or "LzReceiveAlert message does not match packet message" ;;
  Ok tt.
Definition validatePayloadVerified (p : PacketRecord) (e : PayloadVerified) : result werr unit :=
  want pl_Header e = k_PacketHeader p or "PayloadVerified header does not match packet header" ;;
  want pl_ProofHash e = k_PayloadHash p
    or differs "PayloadVerified proof hash" (HashHex (pl_ProofHash e)) "packet payload hash" (HashHex (k_PayloadHash p)) ;;
  match pl_Confirmations e with
  | Some n => want 0 < n or "PayloadVerified confirmations must be positive" ;; Ok tt
  | None => Err (WText "PayloadVerified confirmations must be positive")
  end.

(** Applies one event to the job; [false]: nothing to apply. *)
Definition ApplyExecutorDestinationLog (p : PacketRecord) (job : ExecutorJobRecord) (log : Log)
    : work (result werr bool) :=
  let? _ := pure (dbW (Validate p)) in
  need ej_GUID job = k_GUID p
    or ("executor job " +:+ HashHex (ej_GUID job) +:+ " does not match packet " +:+ HashHex (k_GUID p)) ;;
  let mark c := let? _ := storeW c in Ret (Ok true) in
  match head (lg_Topics log) with
  | None => Ret (Ok false)
  | Some topic =>
    if executorDestinationLogAlreadyApplied (ej_Status job) (Some topic) then Ret (Ok false) else
    if decide (topic = PacketVerifiedTopic) then
      let? event := pure (textW (DecodePacketVerified log)) in
      let? _ := pure (validatePacketVerified p event) in
      need executorCanApplyPacketVerified (ej_Status job) = true
        or ("executor PacketVerified cannot apply from status " +:+ ej_Status job) ;;
      mark (cCommittedObserved (k_GUID p) (lg_TxHash log) (ej_Status job))
    else if decide (topic = PacketDeliveredTopic) then
      let? event := pure (textW (DecodePacketDelivered log)) in
      let? _ := pure (validatePacketDelivered p event) in
      mark (cDeliveredObserved (k_GUID p) (lg_TxHash log) (ej_Status job))
    else if decide (topic = LzReceiveAlertTopic) then
      let? event := pure (textW (DecodeLzReceiveAlert log)) in
      let? _ := pure (validateLzReceiveAlert p event) in
      need executorCanApplyLzReceiveAlert (ej_Status job) = true
        or ("executor LzReceiveAlert cannot apply from status " +:+ ej_Status job) ;;
      mark (cReceiveFailedObserved (k_GUID p) (lg_TxHash log) (ej_Status job) (EncodeToString (al_Reason event)))
    else Ret (Ok false)
  end.

(** What becomes of one destination log. *)
Inductive log_outcome := Applied | Skipped | Pending.

(** The branch for a packet whose executor job is not indexed yet. *)
Definition missingExecutorJob (pathways : list Pathway) (p : PacketRecord) : work (result werr log_outcome) :=
  match pathwayForPacket pathways p with
  | Some pathway =>
    if pw_Enabled pathway then
      let? skipped := sourcePacketWasSkipped RoleExecutor
        (mkIdentity (k_SrcEID p) (k_DstEID p) (k_Sender p) (k_Receiver p) (nonce_u64 (k_Nonce p))) in
      Ret (Ok (if skipped : bool then Skipped else Pending))
    else Ret (Ok Skipped)
  | None => Ret (Ok Skipped)
  end.

(** The branch for an unknown packet. *)
Definition missingExecutorPacket (dstEID : Z) (pathways : list Pathway) (expectedExecutor : Address) (log : Log)
    : work (result werr log_outcome) :=
  let? pathway := pure (executorDestinationLogPathway pathways dstEID expectedExecutor log) in
  match pathway with
  | Some pathway =>
    if pw_Enabled pathway then
      let? skipped := executorSourcePacketWasSkipped dstEID expectedExecutor log in
      Ret (Ok (if skipped : bool then Skipped else Pending))
    else Ret (Ok Skipped)
  | None => Ret (Ok Skipped)
  end.

Definition executorDestinationLog (dstEID : Z) (pathways : list Pathway) (expectedExecutor : Address) (log : Log)
    : work (result werr log_outcome) :=
  let! found := packetForDestinationLog dstEID log in
  match found with
  | Err (WDB ErrNoRows) => missingExecutorPacket dstEID pathways expectedExecutor log
  | Err e => Ret (Err e)
  | Ok None => Ret (Ok Skipped)
  | Ok (Some p) =>
    need k_DstEID p = dstEID
      or ("packet " +:+ HashHex (k_GUID p) +:+ " destination eid " +:+ pretty (k_DstEID p) +:+
          " does not match indexed chain " +:+ pretty dstEID) ;;
    if negb (executorDestinationLogExecutorAllowed log expectedExecutor) then Ret (Ok Skipped) else
    let! found := store (readCall (fun _ => GetExecutorJob (k_GUID p))) in
    match found with
    | Err ErrNoRows => missingExecutorJob pathways p
    | Err e => Ret (Err (WDB e))
    | Ok job =>
      if executorDestinationLogAlreadyApplied (ej_Status job) (head (lg_Topics log)) then Ret (Ok Skipped) else
      let? didApply := ApplyExecutorDestinationLog p job log in
      Ret (Ok (if didApply : bool then Applied else Skipped))
    end
  end.

(** One PayloadVerified log. The branch for a missing DVN job does not look for a tombstone. *)
Definition dvnDestinationLog (dstEID : Z) (pathways : list Pathway) (log : Log) : work (result werr log_outcome) :=
  if decide (~ logHasTopic log PayloadVerifiedTopic) then Ret (Ok Skipped) else
  let? event := pure (textW (DecodePayloadVerified log)) in
  let! found := store (readCall (fun _ => GetPacketByVerification dstEID (pl_Header event) (pl_ProofHash event))) in
  match found with
  | Err ErrNoRows =>
    match Packet.DecodePacketV1Header (pl_Header event) with
    | Err _ => Ret (Ok Skipped)
    | Ok h =>
      match findPathway pathways (Packet.SrcEID h) dstEID (Packet.Sender h) (Packet.Receiver h) with
      | Some pathway =>
        if decide (pw_Enabled pathway = true /\ pl_DVN event = pw_DestinationOpenDVN pathway) then
          let? skipped := sourcePacketWasSkipped RoleDVN
            (mkIdentity (Packet.SrcEID h) dstEID (Packet.Sender h) (Packet.Receiver h) (Packet.Nonce h)) in
          Ret (Ok (if skipped : bool then Skipped else Pending))
        else Ret (Ok Skipped)
      | None => Ret (Ok Skipped)
      end
    end
  | Err e => Ret (Err (WDB e))
  | Ok p =>
    need k_DstEID p = dstEID
      or ("packet " +:+ HashHex (k_GUID p) +:+ " destination eid " +:+ pretty (k_DstEID p) +:+
          " does not match indexed chain " +:+ pretty dstEID) ;;
    match pathwayForPacket pathways p with
    | None => Ret (Ok Skipped)
    | Some pathway =>
      if decide (pl_DVN event <> pw_DestinationOpenDVN pathway) then Ret (Ok Skipped) else
      let? _ := pure (validatePayloadVerified p event) in
      let! found := store (readCall (fun _ => GetDVNJob (k_GUID p))) in
      match found with
      | Err ErrNoRows => Ret (Ok (if pw_Enabled pathway then Pending else Skipped))
      | Err e => Ret (Err (WDB e))
      | Ok job =>
        if decide (dj_Status job = DVNVerified) then Ret (Ok Skipped) else
        if negb (dvnCanApplyPayloadVerified (dj_Status job)) then Ret (Ok Skipped) else
        let? _ := storeW (cDVNVerifiedObserved (k_GUID p) (lg_TxHash log) (dj_Status job)) in
        Ret (Ok Applied)
      end
    end
  end.

(** destinationApplyResult: the applied events and whether one is pending. *)
Definition add_outcome (acc : Z * bool) (o : log_outcome) : Z * bool :=
  match o with Applied => (acc.1 + 1, acc.2) | Skipped => acc | Pending => (acc.1, true) end.

Fixpoint destination_logs (apply : Log -> work (result werr log_outcome)) (logs : list Log) (acc : Z * bool)
    : work (result werr (Z * bool)) :=
  match logs with
  | [] => Ret (Ok acc)
  | log :: logs => let? o := apply log in destination_logs apply logs (add_outcome acc o)
  end.

Definition applyDestinationLogs (i : Indexer) (r : role) (logs : list Log) (acc : Z * bool) : work (result werr (Z * bool)) :=
  need ix_eid i <> 0 or "destination eid is required" ;;
  let apply := match r with
    | RoleExecutor => executorDestinationLog (ix_eid i) (ix_destinationPathways i)
                        (HexToAddress (tr_SignerID (ch_Executor (ix_chain i))))
    | RoleDVN => dvnDestinationLog (ix_eid i) (ix_destinationPathways i)
    end in
  destination_logs apply logs acc.

(** The exported entry points take every log at once, without pathways for the executor. *)
Definition ApplyExecutorDestinationLogs (dstEID : Z) (logs : list Log) : work (result werr Z) :=
  need dstEID <> 0 or "destination eid is required" ;;
  let? acc := destination_logs (executorDestinationLog dstEID [] 0) logs (0, false) in
  Ret (Ok acc.1).
Definition ApplyDVNDestinationLogs (dstEID : Z) (pathways : list Pathway) (logs : list Log) : work (result werr Z) :=
  need dstEID <> 0 or "destination eid is required" ;;
  let? acc := destination_logs (dvnDestinationLog dstEID pathways) logs (0, false) in
  Ret (Ok acc.1).

Fixpoint destination_chunks (i : Indexer) (r : role) (cs : list (Z * Z)) (acc : Z * bool) : work (result werr (Z * bool)) :=
  match cs with
  | [] => Ret (Ok acc)
  | (from, to) :: cs =>
    let? logs := clientW (WFilterLogs (ix_eid i) (mkFilterQuery from to (destinationAddresses i r) (destinationTopics r))) in
    let? acc := applyDestinationLogs i r logs acc in
    destination_chunks i r cs acc
  end.
Definition processDestinationWindow (i : Indexer) (from to : Z) (r : role) : work (result werr (Z * bool)) :=
  destination_chunks i r (window_chunks i from to) (0, false).

(** ** Polling *)

Record streamProgress := mkProgress {
  sp_stream : string; sp_from : Z; sp_to : Z; sp_source : Z; sp_dvn : Z; sp_destination : Z }.
Record ProcessResult := mkResult {
  pr_ConfirmedToBlock : Z; pr_ObservedHeadBlock : Z; pr_SourceWindow : option (Z * Z);
  pr_DestinationWindow : option (Z * Z); pr_SourceTransactions : Z; pr_DVNTransactions : Z;
  pr_DestinationLogs : Z; pr_streamProgress : list streamProgress }.

(** The array holds four entries. *)
Definition addStreamProgress (r : ProcessResult) (p : streamProgress) : ProcessResult :=
  if decide (4 <= length (pr_streamProgress r))%nat then r else
  mkResult (pr_ConfirmedToBlock r) (pr_ObservedHeadBlock r) (pr_SourceWindow r) (pr_DestinationWindow r)
    (pr_SourceTransactions r) (pr_DVNTransactions r) (pr_DestinationLogs r) (pr_streamProgress r ++ [p]).

(** The first stream of a kind sets the reported window. *)
Definition first_window (old : option (Z * Z)) (w : Z * Z) : option (Z * Z) :=
  match old with Some w' => Some w' | None => Some w end.

Definition sourceStream (i : Indexer) (stream : string) (r : role) (confirmedTo : Z) (res : ProcessResult)
    : work (result werr ProcessResult) :=
  let? window := cursorWindow i stream confirmedTo in
  match window with
  | inr _ => Ret (Ok res)
  | inl (from, to) =>
    let? n := processSourceWindow i from to r in
    let? _ := storeW (cUpdateCursor (ix_eid i) stream to) in
    Ret (Ok (addStreamProgress
      (mkResult (pr_ConfirmedToBlock res) (pr_ObservedHeadBlock res) (first_window (pr_SourceWindow res) (from, to))
        (pr_DestinationWindow res) (pr_SourceTransactions res + n.1) (pr_DVNTransactions res + n.2)
        (pr_DestinationLogs res) (pr_streamProgress res))
      (mkProgress stream from to n.1 n.2 0)))
  end.

Definition destinationStream (i : Indexer) (stream : string) (r : role) (confirmedTo : Z) (res : ProcessResult)
    : work (result werr ProcessResult) :=
  let? window := cursorWindow i stream confirmedTo in
  match window with
  | inr _ => Ret (Ok res)
  | inl (from, to) =>
    let? applied := processDestinationWindow i from to r in
    let res := mkResult (pr_ConfirmedToBlock res) (pr_ObservedHeadBlock res) (pr_SourceWindow res)
        (first_window (pr_DestinationWindow res) (from, to)) (pr_SourceTransactions res) (pr_DVNTransactions res)
        (pr_DestinationLogs res + applied.1) (pr_streamProgress res) in
    if applied.2 : bool then Ret (Ok res) else
    let? _ := storeW (cUpdateCursor (ix_eid i) stream to) in
    Ret (Ok (addStreamProgress res (mkProgress stream from to 0 0 applied.1)))
  end.

Definition when (b : bool) (k : ProcessResult -> work (result werr ProcessResult)) (res : ProcessResult)
    : work (result werr ProcessResult) := if b then k res else Ret (Ok res).

Definition ProcessOnce (i : Indexer) : work (result werr ProcessResult) :=
  need ix_client i = true or "indexer log client is required" ;;
  let? head := clientW (WBlockNumber (ix_eid i)) in
  if decide (head < ch_Confirmations (ix_chain i)) then Ret (Ok (mkResult 0 head None None 0 0 0 [])) else
  let confirmedTo := head - ch_Confirmations (ix_chain i) in
  let st := ix_streams i in
  let? res := when (st_ExecutorSource st) (sourceStream i ExecutorSourceStream RoleExecutor confirmedTo)
                (mkResult confirmedTo head None None 0 0 0 []) in
  let? res := when (st_DVNSource st) (sourceStream i DVNSourceStream RoleDVN confirmedTo) res in
  let? res := when (st_ExecutorDestination st)
                (destinationStream i ExecutorDestinationStream RoleExecutor confirmedTo) res in
  when (st_DVNDestination st) (destinationStream i DVNDestinationStream RoleDVN confirmedTo) res.

(** A failed poll is retried on the next interval, unless the context is done. *)
Definition pollOnce (i : Indexer) : work (result werr unit) :=
  let! r := ProcessOnce i in
  match r with
  | Ok _ => Ret (Ok tt)
  | Err _ => unlessDone (Ret (Ok tt))
  end.

(** The first poll, then at most [n] ticks. *)
Fixpoint poll_ticks (i : Indexer) (n : nat) : work (result werr unit) :=
  match n with
  | O => Ret (Ok tt)
  | S n =>
    let! ctx := ask WWait in
    match ctx with
    | Some e => Ret (Err (WCtx e))
    | None => let? _ := pollOnce i in poll_ticks i n
    end
  end.
Definition runPollingLoop (i : Indexer) (n : nat) : work (result werr unit) :=
  if decide (ix_pollInterval i <= 0) then Ret (Err (WFatal (WText "indexer poll interval must be positive"))) else
  if negb (ix_client i) then Ret (Err (WFatal (WText "indexer log client is required"))) else
  let? _ := pollOnce i in
  poll_ticks i n.

End indexer.
