(* ===== verification/IndexerProofs.v ===== *)
(** * What the indexer guarantees

    The windows and chunks of a poll tile the confirmed blocks behind the cursor
    exactly; and every write is justified by logs read before it. In particular a
    cursor moves only past blocks all of whose logs were fetched and handled: every
    assignment to a configured worker stored, every other one tombstoned, every
    destination event applied or known not to matter. *)

From S2P Require Import Prelude GoErr Schema Outbox Jobs Store Quorum StateReads QuorumLogs.
From S2P Require Import LzCodec Registry Proc Worker WorkerProofs PacketLogs PacketLogsProofs Indexer.
From stdpp Require Import base gmap list strings numbers sorting relations.
From Stdlib Require Import ZArith Lia.
#[local] Open Scope Z_scope.

Definition is_u64 (n : Z) : Prop := 0 <= n < 2 ^ 64.

(** ** Windows and chunks *)

(** Where a stream continues: behind its cursor, or at the chain's start block. *)
Definition resume_block (i : Indexer) (cursor : option Z) : Z :=
  match cursor with Some c => c + 1 | None => ch_StartBlockNumber (ix_chain i) end.

(** a poll's window starts right behind the cursor, so that no block is skipped or read
    twice, ends at or below the confirmed block, and holds at most the backfill range; and
    there is a window exactly when a confirmed block is left. *)
Theorem window_of_spec i cursor confirmedTo :
  is_u64 confirmedTo -> confirmedTo < 2 ^ 64 - 1 -> is_u64 (ix_backfillRange i) -> 0 <= resume_block i cursor ->
  match window_of i cursor confirmedTo with
  | inl (from, to) => from = resume_block i cursor /\ from <= to <= confirmedTo /\
      (0 < ix_backfillRange i -> to - from + 1 <= ix_backfillRange i) /\
      (to < confirmedTo -> to - from + 1 = ix_backfillRange i)
  | inr _ => confirmedTo < resume_block i cursor
  end.
Proof.
  unfold is_u64. intros Hc Hmax Hb Hr.
  assert (forall from, 0 <= from <= confirmedTo ->
    let to := if decide (0 < ix_backfillRange i /\ ix_backfillRange i < u64 (confirmedTo - from + 1))
              then u64 (from + ix_backfillRange i - 1) else confirmedTo in
    from <= to <= confirmedTo /\ (0 < ix_backfillRange i -> to - from + 1 <= ix_backfillRange i) /\
    (to < confirmedTo -> to - from + 1 = ix_backfillRange i)) as Hw.
  { intros from Hf. cbv zeta. unfold u64. rewrite (Z.mod_small (confirmedTo - from + 1)) by lia.
    case_decide as Hd; [rewrite Z.mod_small by lia|]; lia. }
  unfold window_of, resume_block in *. destruct cursor as [c|].
  - destruct (decide (confirmedTo <= c)); [lia|].
    assert (u64 (c + 1) = c + 1) as E by (unfold u64; apply Z.mod_small; lia).
    rewrite E. split; [done|]. apply Hw. lia.
  - destruct (decide (confirmedTo < ch_StartBlockNumber (ix_chain i))); [done|]. split; [done|]. apply Hw. lia.
Qed.

Lemma chunkToBlock_bounds i from to :
  is_u64 (ix_queryBlockRange i) -> 0 <= from <= to -> to < 2 ^ 64 ->
  from <= chunkToBlock i from to <= to /\
  (0 < ix_queryBlockRange i -> chunkToBlock i from to - from + 1 <= ix_queryBlockRange i).
Proof.
  unfold is_u64, chunkToBlock, u64. intros Hq Hf Ht. case_decide; [lia|]. cbv zeta.
  destruct (decide (from + ix_queryBlockRange i - 1 < 2 ^ 64)).
  - rewrite Z.mod_small by lia. case_decide; lia.
  - replace ((from + ix_queryBlockRange i - 1) mod 2 ^ 64) with (from + ix_queryBlockRange i - 1 - 2 ^ 64)
      by (apply (Zmod_unique _ _ 1); lia).
    case_decide; lia.
Qed.

(** The blocks of a chunk. *)
Definition blocks (c : Z * Z) : list Z := seqZ c.1 (c.2 - c.1 + 1).

Lemma blocks_split from mid to : from <= mid < to -> blocks (from, mid) ++ blocks (mid + 1, to) = blocks (from, to).
Proof.
  intros H. unfold blocks. cbn. replace (to - from + 1) with ((mid - from + 1) + (to - mid)) by lia.
  rewrite (seqZ_app from (mid - from + 1) (to - mid)) by lia.
  by replace (from + (mid - from + 1)) with (mid + 1) by lia; replace (to - (mid + 1) + 1) with (to - mid) by lia.
Qed.

Lemma chunks_tile i to n : forall from,
  is_u64 (ix_queryBlockRange i) -> 0 <= from -> to < 2 ^ 64 -> (Z.to_nat (to - from + 1) <= n)%nat ->
  (chunks n i from to ≫= blocks) = blocks (from, to) /\
  Forall (fun c => from <= c.1 <= c.2 /\ c.2 <= to /\
    (0 < ix_queryBlockRange i -> c.2 - c.1 + 1 <= ix_queryBlockRange i)) (chunks n i from to).
Proof.
  induction n as [|n IH]; intros from Hq Hf Ht Hn; cbn [chunks].
  { unfold blocks. cbn. rewrite seqZ_nil by lia. done. }
  case_decide; [unfold blocks; cbn; rewrite seqZ_nil by lia; done|]. cbv zeta.
  destruct (chunkToBlock_bounds i from to Hq) as [Hc Hs]; [lia..|]. set (m := chunkToBlock i from to) in *.
  case_decide as Hm; [rewrite Hm in *; cbn; rewrite app_nil_r; split; [done|repeat constructor; cbn; lia]|].
  assert (u64 (m + 1) = m + 1) as -> by (unfold u64; apply Z.mod_small; lia).
  destruct (IH (m + 1)) as [Hj Hall]; [done|lia..|]. split.
  - cbn [mbind list_bind]. rewrite Hj. apply blocks_split. lia.
  - constructor; [cbn; lia|]. eapply list.Forall_impl; [exact Hall|]. cbn. lia.
Qed.

(** C32: the chunks of a window, in order, hold exactly its blocks, each once; no chunk is
    larger than the query range. The loop visits all of them, whatever the range, up to the
    last uint64 block. *)
Theorem window_chunks_tile i from to :
  is_u64 (ix_queryBlockRange i) -> 0 <= from -> to < 2 ^ 64 ->
  (window_chunks i from to ≫= blocks) = blocks (from, to) /\
  Forall (fun c => from <= c.1 <= c.2 /\ c.2 <= to /\
    (0 < ix_queryBlockRange i -> c.2 - c.1 + 1 <= ix_queryBlockRange i)) (window_chunks i from to).
Proof. intros. by apply chunks_tile. Qed.

Section proofs.
Context `{EventAbi}.

(** ** What a handled source transaction is *)

(** The logs split after every PacketSent, and the open rest. *)
Fixpoint segments (logs segment : list Log) : list (list Log) * list Log :=
  match logs with
  | [] => ([], segment)
  | log :: logs =>
    if decide (logHasTopic log PacketSentTopic) then
      let '(closed, open) := segments logs [] in ((segment ++ [log]) :: closed, open)
    else segments logs (segment ++ [log])
  end.

(** The first of the pathways with a route: source and destination chain and both OApps. *)
Definition route_pathway (pathways : list Pathway) (srcEID dstEID : Z) (sender receiver : Address) : option Pathway :=
  head (filter (fun w => pw_SrcEID w = srcEID /\ pw_DstEID w = dstEID /\ pw_SrcOApp w = sender /\ pw_DstOApp w = receiver)
          pathways).

(** A segment that belongs to a configured pathway and its send library. *)
Definition ours (i : Indexer) (segment : list Log) : bool :=
  match last segment with
  | Some log =>
    bool_decide (lg_Address log = ch_EndpointAddress (ix_chain i)) &&
    match packetRouteFromSentLog log with
    | Ok (route, event) =>
      match route_pathway (ix_sourcePathways i) (rt_SrcEID route) (rt_DstEID route) (rt_Sender route) (rt_Receiver route) with
      | Some pathway => bool_decide (ps_SendLibrary event = pw_SendLib pathway)
      | None => false
      end
    | Err _ => false
    end
  | None => false
  end.

Definition assignment_topic (r : role) : Hash :=
  match r with RoleExecutor => ExecutorJobAssignedTopic | RoleDVN => DVNJobAssignedTopic end.

(** The logs of a transaction that concern this indexer: the segments that are [ours], and an
    open rest with an assignment. *)
Definition relevant_of (i : Indexer) (r : role) (txLogs : list Log) : result string (list Log) :=
  ordered ← orderedSourceTxLogs txLogs;
  let '(closed, open) := segments ordered [] in
  Ok (mjoin (filter (fun s => ours i s = true) closed) ++
      if decide (Exists (fun log => logHasTopic log (assignment_topic r)) open) then open else []).

(** The pathway of a packet's route. *)
Definition packet_pathway (pathways : list Pathway) (p : PacketRecord) : option Pathway :=
  route_pathway pathways (k_SrcEID p) (k_DstEID p) (k_Sender p) (k_Receiver p).

Lemma findPathway_route pathways s d a b : findPathway pathways s d a b = route_pathway pathways s d a b.
Proof. unfold findPathway, route_pathway. f_equal. Qed.
Lemma sourcePathway_route i p : sourcePathway i p = packet_pathway (ix_sourcePathways i) p.
Proof. apply findPathway_route. Qed.
Lemma pathwayForPacket_route pathways p : pathwayForPacket pathways p = packet_pathway pathways p.
Proof. apply findPathway_route. Qed.

(** An assignment to the worker configured for an enabled pathway of the packet. *)
Definition for_us (i : Indexer) (r : role) (p : PacketRecord) (worker : Address) : Prop :=
  exists pathway, packet_pathway (ix_sourcePathways i) p = Some pathway /\ pw_Enabled pathway = true /\
    worker = match r with RoleExecutor => OpenExecutor (pw_SourceWorkers pathway)
                        | RoleDVN => OpenDVN (pw_SourceWorkers pathway) end.

Definition tombstoned (past : history) (r : role) (p : PacketRecord) : Prop :=
  exists reason worker, answered past (cRecordSkip (skip_of r p reason worker)) (Ok tt).

Definition executor_packet (record : ExecutorSourceTxRecords) : PacketRecord :=
  let p := xr_Packet record in
  mkPacketRecord (k_GUID p) (k_SrcEID p) (k_DstEID p) (k_Nonce p) (k_Sender p)
    (k_Receiver p) (k_SendLib p) (k_SrcTxHash p) (k_SrcBlockNumber p) (k_SrcLogIndex p) (k_EncodedPacket p)
    (k_PacketHeader p) (k_Message p) (k_PayloadHash p) (k_Options p) (ej_Status (xr_ExecutorJob record)).

(** What became of a decoded assignment: stored when it is ours, tombstoned when it is not. *)
Definition executor_handled (i : Indexer) (past : history) (record : ExecutorSourceTxRecords) : Prop :=
  (for_us i RoleExecutor (xr_Packet record) (xr_Executor record) ->
   answered past (cUpsertPacket (executor_packet record)) (Ok tt) /\
   answered past (cUpsertExecutor (xr_ExecutorJob record)) (Ok tt)) /\
  (is_Some (packet_pathway (ix_sourcePathways i) (xr_Packet record)) -> ~ for_us i RoleExecutor (xr_Packet record) (xr_Executor record) ->
   tombstoned past RoleExecutor (xr_Packet record)).
Definition dvn_handled (i : Indexer) (past : history) (record : DVNSourceTxRecords) : Prop :=
  (for_us i RoleDVN (vr_Packet record) (vr_DVN record) ->
   answered past (cUpsertPacket (vr_Packet record)) (Ok tt) /\
   answered past (cUpsertDVN (vr_DVNJob record)) (Ok tt)) /\
  (is_Some (packet_pathway (ix_sourcePathways i) (vr_Packet record)) -> ~ for_us i RoleDVN (vr_Packet record) (vr_DVN record) ->
   tombstoned past RoleDVN (vr_Packet record)).

(** A packet that paid a worker without an assignment: tombstoned, and the worker is not ours. *)
Definition executor_gap_handled (i : Indexer) (past : history) (gap : executorSourcePacketGap) : Prop :=
  ~ for_us i RoleExecutor (xg_Packet gap) (xg_Executor gap) /\
  (is_Some (packet_pathway (ix_sourcePathways i) (xg_Packet gap)) -> tombstoned past RoleExecutor (xg_Packet gap)).
Definition dvn_gap_handled (i : Indexer) (past : history) (gap : dvnSourcePacketGap) : Prop :=
  Forall (fun dvn => ~ for_us i RoleDVN (vg_Packet gap) dvn)
    (df_RequiredDVNs (vg_Fee gap) ++ df_OptionalDVNs (vg_Fee gap)) /\
  (is_Some (packet_pathway (ix_sourcePathways i) (vg_Packet gap)) -> tombstoned past RoleDVN (vg_Packet gap)).

Definition tx_handled (i : Indexer) (r : role) (past : history) (txLogs : list Log) : Prop :=
  exists relevant, relevant_of i r txLogs = Ok relevant /\
  match r with
  | RoleExecutor => exists records gaps, decodeExecutorSourceTxLogs relevant = Ok (records, gaps) /\
      Forall (executor_handled i past) records /\ Forall (executor_gap_handled i past) gaps
  | RoleDVN => exists records gaps,
      decodeDVNSourceTxLogsForEndpoint relevant (ch_EndpointAddress (ix_chain i)) = Ok (records, gaps) /\
      Forall (dvn_handled i past) records /\ Forall (dvn_gap_handled i past) gaps
  end.

(** The transactions of fetched logs: runs of one transaction hash. *)
Fixpoint tx_groups (logs current : list Log) : list (list Log) :=
  match logs with
  | [] => match current with [] => [] | _ => [current] end
  | log :: logs =>
    match current with
    | first :: _ => if decide (lg_TxHash first <> lg_TxHash log) then current :: tx_groups logs [log]
                    else tx_groups logs (current ++ [log])
    | [] => tx_groups logs [log]
    end
  end.

Lemma tx_groups_join logs : forall current, mjoin (tx_groups logs current) = current ++ logs.
Proof.
  induction logs as [|log logs IH]; intros current; cbn.
  - destruct current; cbn; by rewrite ?app_nil_r.
  - destruct current as [|first rest]; [by rewrite IH|]. case_decide; cbn; rewrite IH; [done|].
    cbn. by rewrite <- app_assoc.
Qed.

(** ** What justifies a write *)

Definition source_stream (r : role) : string :=
  match r with RoleExecutor => ExecutorSourceStream | RoleDVN => DVNSourceStream end.
Definition destination_stream (r : role) : string :=
  match r with RoleExecutor => ExecutorDestinationStream | RoleDVN => DVNDestinationStream end.
(** What a chunk's filter asks for: the packet, fee and assignment events of the endpoint, the send
    libraries and the workers; the events of the endpoint, or of the receive libraries. *)
Definition watched (contracts : list Address) : list Address := merge_sort Z.le (remove_dups contracts).
Definition source_query (i : Indexer) (r : role) (c : Z * Z) : FilterQuery :=
  match r with
  | RoleExecutor =>
    mkFilterQuery c.1 c.2 (watched (ch_EndpointAddress (ix_chain i) ::
        (w ← ix_sourcePathways i; [pw_SendLib w; OpenExecutor (pw_SourceWorkers w)])))
      [PacketSentTopic; ExecutorFeePaidTopic; ExecutorJobAssignedTopic]
  | RoleDVN =>
    mkFilterQuery c.1 c.2 (watched (ch_EndpointAddress (ix_chain i) ::
        (w ← ix_sourcePathways i; [pw_SendLib w; OpenDVN (pw_SourceWorkers w)])))
      [PacketSentTopic; DVNFeePaidTopic; DVNJobAssignedTopic]
  end.
Definition destination_query (i : Indexer) (r : role) (c : Z * Z) : FilterQuery :=
  match r with
  | RoleExecutor => mkFilterQuery c.1 c.2 (watched [ch_EndpointAddress (ix_chain i)])
      [PacketVerifiedTopic; PacketDeliveredTopic; LzReceiveAlertTopic]
  | RoleDVN => mkFilterQuery c.1 c.2 (watched (pw_ReceiveLib <$> ix_destinationPathways i)) [PayloadVerifiedTopic]
  end.
Lemma source_query_eq i r from to :
  mkFilterQuery from to (sourceAddresses i r) (sourceTopics r) = source_query i r (from, to).
Proof. by destruct r. Qed.
Lemma destination_query_eq i r from to :
  mkFilterQuery from to (destinationAddresses i r) (destinationTopics r) = destination_query i r (from, to).
Proof. by destruct r. Qed.

Definition cursor_read (i : Indexer) (past : history) (stream : string) (cursor : option Z) : Prop :=
  answered past (cGetCursor (ix_eid i) stream) (match cursor with Some c => Ok c | None => Err ErrNoRows end).

(** The blocks right behind the cursor, or from the start block, up to the confirmed one or for the
    backfill range (in uint64). *)
Definition window_behind (i : Indexer) (cursor : option Z) (confirmed from to : Z) : Prop :=
  match cursor with
  | Some c => c < confirmed /\ from = (c + 1) mod 2 ^ 64
  | None => ch_StartBlockNumber (ix_chain i) <= confirmed /\ from = ch_StartBlockNumber (ix_chain i)
  end /\
  (to = confirmed \/
   0 < ix_backfillRange i < (confirmed - from + 1) mod 2 ^ 64 /\ to = (from + ix_backfillRange i - 1) mod 2 ^ 64).
Lemma window_of_behind i cursor confirmed from to :
  window_of i cursor confirmed = inl (from, to) -> window_behind i cursor confirmed from to.
Proof.
  unfold window_of, window_behind, u64. destruct cursor as [c|]; case_decide; try done; intros [= <- <-];
    (split; [split; [lia|done]|]); case_decide; auto.
Qed.

(** The window behind the cursor the store answered, under the head the chain reported. *)
Definition confirmed_window (i : Indexer) (past : history) (stream : string) (from to : Z) : Prop :=
  exists head cursor, heard past (WBlockNumber (ix_eid i)) (Ok head) /\ ch_Confirmations (ix_chain i) <= head /\
    cursor_read i past stream cursor /\ window_behind i cursor (head - ch_Confirmations (ix_chain i)) from to.

(** A transaction, or a log, that was fetched in a chunk of such a window. *)
Definition source_tx (i : Indexer) (past : history) (r : role) (txLogs : list Log) : Prop :=
  exists from to c logs, confirmed_window i past (source_stream r) from to /\ c ∈ window_chunks i from to /\
    heard past (WFilterLogs (ix_eid i) (source_query i r c)) (Ok logs) /\ txLogs ∈ tx_groups logs [].
Definition destination_log (i : Indexer) (past : history) (r : role) (log : Log) : Prop :=
  exists from to c logs, confirmed_window i past (destination_stream r) from to /\ c ∈ window_chunks i from to /\
    heard past (WFilterLogs (ix_eid i) (destination_query i r c)) (Ok logs) /\ log ∈ logs.

(** Why a packet of a configured route is tombstoned. *)
Definition skip_reason (i : Indexer) (r : role) (p : PacketRecord) (reason : string) (worker : Address) : Prop :=
  exists pathway, packet_pathway (ix_sourcePathways i) p = Some pathway /\
  ((reason = "unexpected_send_library"%string /\ k_SendLib p <> pw_SendLib pathway) \/
   (reason = "pathway_disabled"%string /\ pw_Enabled pathway = false) \/
   (reason = "unexpected_worker"%string /\ (worker = 0 \/ ~ for_us i r p worker))).

(** The event a destination log of the executor carries. *)
Inductive executor_event :=
| Verified (e : PacketVerified) | Delivered (e : PacketDelivered) | Alert (e : LzReceiveAlert).
Definition ev_origin (ev : executor_event) : Origin :=
  match ev with Verified e => pf_Origin e | Delivered e => pd_Origin e | Alert e => al_Origin e end.
Definition ev_receiver (ev : executor_event) : Address :=
  match ev with Verified e => pf_Receiver e | Delivered e => pd_Receiver e | Alert e => al_Receiver e end.
Definition carries (log : Log) (ev : executor_event) : Prop :=
  match ev with
  | Verified e => logHasTopic log PacketVerifiedTopic /\ DecodePacketVerified log = Ok e
  | Delivered e => ~ logHasTopic log PacketVerifiedTopic /\ logHasTopic log PacketDeliveredTopic /\
                   DecodePacketDelivered log = Ok e
  | Alert e => ~ logHasTopic log PacketVerifiedTopic /\ ~ logHasTopic log PacketDeliveredTopic /\
               logHasTopic log LzReceiveAlertTopic /\ DecodeLzReceiveAlert log = Ok e
  end.
(** The address in the low 20 bytes of a word. *)
Definition word_address (w : Hash) : Address := w mod 2 ^ 160.
Definition event_identity (dstEID : Z) (ev : executor_event) : destinationPacketIdentity :=
  mkIdentity (og_SrcEID (ev_origin ev)) dstEID (word_address (og_Sender (ev_origin ev))) (ev_receiver ev)
    (og_Nonce (ev_origin ev)).

(** The stored packet of an origin and a receiver: by its route and nonce. *)
Definition routed_packet (past : history) (dstEID : Z) (o : Origin) (receiver : Address) (p : PacketRecord) : Prop :=
  answered past (readCall (fun _ => GetPacketByDestination dstEID (og_SrcEID o) (word_address (og_Sender o)) receiver
                                      (og_Nonce o))) (Ok p).

(** The stored packet an event names: by its route and nonce, or by the guid of an alert. *)
Definition event_packet (past : history) (dstEID : Z) (ev : executor_event) (p : PacketRecord) : Prop :=
  k_DstEID p = dstEID /\
  match ev with
  | Verified e => routed_packet past dstEID (pf_Origin e) (pf_Receiver e) p
  | Delivered e => routed_packet past dstEID (pd_Origin e) (pd_Receiver e) p
  | Alert e => answered past (readCall (fun _ => GetPacket (al_GUID e))) (Ok p)
  end.
(** The stored packet of a PayloadVerified event: by its header and payload hash. *)
Definition proof_packet (past : history) (dstEID : Z) (e : PayloadVerified) (p : PacketRecord) : Prop :=
  k_DstEID p = dstEID /\
  answered past (readCall (fun _ => GetPacketByVerification dstEID (pl_Header e) (pl_ProofHash e))) (Ok p).
Definition executor_job_read (past : history) (p : PacketRecord) (job : ExecutorJobRecord) : Prop :=
  answered past (readCall (fun _ => GetExecutorJob (k_GUID p))) (Ok job).
Definition dvn_job_read (past : history) (p : PacketRecord) (job : DVNJobRecord) : Prop :=
  answered past (readCall (fun _ => GetDVNJob (k_GUID p))) (Ok job).

(** The event agrees with the stored packet. *)
Definition origin_matches (p : PacketRecord) (o : Origin) : Prop :=
  k_SrcEID p = og_SrcEID o /\ AddressToHash (k_Sender p) = og_Sender o /\ k_Nonce p = Some (og_Nonce o).
Definition event_matches (p : PacketRecord) (ev : executor_event) : Prop :=
  origin_matches p (ev_origin ev) /\ k_Receiver p = ev_receiver ev /\
  match ev with
  | Verified e => k_PayloadHash p = pf_PayloadHash e
  | Delivered _ => True
  | Alert e => k_GUID p = al_GUID e /\ k_Message p = al_Message e
  end.

(** The states in which a job waits for an event, and those that are past it. *)
Definition awaits (ev : executor_event) (status : string) : Prop :=
  match ev with
  | Verified _ => status ∈ [ExecutorAssigned; ExecutorWaitingDVNVerification; ExecutorVerifiable; ExecutorCommitTxEnqueued]
  | Delivered _ => status <> ExecutorDelivered
  | Alert _ => status ∈ [ExecutorCommitTxEnqueued; ExecutorCommitted; ExecutorExecutable; ExecutorLzReceiveTxEnqueued]
  end.
Definition is_past (ev : executor_event) (status : string) : Prop :=
  match ev with
  | Verified _ => status ∈ [ExecutorCommitted; ExecutorExecutable; ExecutorLzReceiveTxEnqueued; ExecutorDelivered;
                            ExecutorLzReceiveFailed; ExecutorManualReview]
  | Delivered _ => status = ExecutorDelivered
  | Alert _ => status ∈ [ExecutorLzReceiveFailed; ExecutorDelivered; ExecutorManualReview]
  end.

(** The update an event makes to its job. *)
Definition event_update (ev : executor_event) (p : PacketRecord) (status : string) (tx : Hash) : executorStatusUpdate :=
  match ev with
  | Verified _ => mkExecutorUpdate (k_GUID p) status ExecutorCommitted (Some tx) None "" false
  | Delivered _ => mkExecutorUpdate (k_GUID p) status ExecutorDelivered None (Some tx) "" false
  | Alert e => mkExecutorUpdate (k_GUID p) status ExecutorLzReceiveFailed None (Some tx) (EncodeToString (al_Reason e)) true
  end.

(** A mark an executor log calls for: its event matches the stored packet and the job waits for it. *)
Definition executor_event_mark (dstEID : Z) (past : history) (log : Log) (op : store_op) : Prop :=
  exists ev p job, carries log ev /\ event_packet past dstEID ev p /\ executor_job_read past p job /\
    event_matches p ev /\ awaits ev (ej_Status job) /\
    op = OpExecutorStatus (event_update ev p (ej_Status job) (lg_TxHash log)).

(** A PayloadVerified log of a pathway's DVN that matches the stored packet. *)
Definition proof_matches (pathways : list Pathway) (p : PacketRecord) (e : PayloadVerified) : Prop :=
  pl_Header e = k_PacketHeader p /\ pl_ProofHash e = k_PayloadHash p /\
  (exists n, pl_Confirmations e = Some n /\ 0 < n) /\
  exists w, packet_pathway pathways p = Some w /\ pl_DVN e = pw_DestinationOpenDVN w.

(** The mark it calls for. *)
Definition dvn_mark (dstEID : Z) (pathways : list Pathway) (past : history) (log : Log) (op : store_op) : Prop :=
  exists p job event, logHasTopic log PayloadVerifiedTopic /\ DecodePayloadVerified log = Ok event /\
    proof_packet past dstEID event p /\ proof_matches pathways p event /\ dvn_job_read past p job /\
    dj_Status job ∉ [DVNVerified; DVNReorgDetected; ""%string] /\
    op = OpDVNStatus (mkDVNUpdate (k_GUID p) (dj_Status job) DVNVerified "" "" (Some (lg_TxHash log))).

(** A store call that performed [op] and succeeded. *)
Definition performed (past : history) (op : store_op) : Prop :=
  exists c : store_call unit, (forall env, sc_op c env = Some op) /\ answered past c (Ok tt).

(** The mark a log calls for was made. *)
Definition executor_applied (dstEID : Z) (past : history) (log : Log) : Prop :=
  exists op, executor_event_mark dstEID past log op /\ performed past op.
Definition dvn_applied (dstEID : Z) (pathways : list Pathway) (past : history) (log : Log) : Prop :=
  exists op, dvn_mark dstEID pathways past log op /\ performed past op.

Definition not_enabled (pathway : option Pathway) : Prop :=
  match pathway with Some pathway => pw_Enabled pathway = false | None => True end.

(** An alert, and not of the expected executor. *)
Definition foreign_alert (expected : Address) (log : Log) : Prop :=
  expected <> 0 /\ logHasTopic log LzReceiveAlertTopic /\
  forall e, DecodeLzReceiveAlert log = Ok e -> al_Executor e <> expected.

Definition tombstone_read (past : history) (r : role) (d : destinationPacketIdentity) : Prop :=
  exists skip, answered past (readCall (fun _ => GetSourcePacketSkip (role_name r) (id_SrcEID d) (id_DstEID d)
                                          (id_Sender d) (id_Receiver d) (id_Nonce d))) (Ok skip).
Definition packet_identity (p : PacketRecord) : destinationPacketIdentity :=
  mkIdentity (k_SrcEID p) (k_DstEID p) (k_Sender p) (k_Receiver p) (nonce_u64 (k_Nonce p)).

(** An executor log is done with: its event was applied; or it is none of the three events; or an
    alert of another executor; or the packet it names is of no enabled route, tombstoned, or has
    a job that is past the event. *)
Inductive executor_settled (dstEID : Z) (pathways : list Pathway) (expected : Address) (past : history) (log : Log) : Prop :=
| es_applied : executor_applied dstEID past log -> executor_settled dstEID pathways expected past log
| es_foreign : ~ logHasTopic log PacketVerifiedTopic -> ~ logHasTopic log PacketDeliveredTopic ->
    ~ logHasTopic log LzReceiveAlertTopic -> executor_settled dstEID pathways expected past log
| es_other_executor ev : carries log ev -> foreign_alert expected log -> executor_settled dstEID pathways expected past log
| es_unrouted ev : carries log ev ->
    not_enabled (route_pathway pathways (og_SrcEID (ev_origin ev)) dstEID (word_address (og_Sender (ev_origin ev)))
                   (ev_receiver ev)) ->
    executor_settled dstEID pathways expected past log
| es_tombstone ev : carries log ev -> tombstone_read past RoleExecutor (event_identity dstEID ev) ->
    executor_settled dstEID pathways expected past log
| es_unrouted_packet ev p : carries log ev -> event_packet past dstEID ev p -> not_enabled (packet_pathway pathways p) ->
    executor_settled dstEID pathways expected past log
| es_tombstone_packet ev p : carries log ev -> event_packet past dstEID ev p ->
    tombstone_read past RoleExecutor (packet_identity p) ->
    executor_settled dstEID pathways expected past log
| es_already ev p job : carries log ev -> event_packet past dstEID ev p -> executor_job_read past p job ->
    is_past ev (ej_Status job) -> executor_settled dstEID pathways expected past log.

(** The same for a DVN log: the packet is the one of the event's header and payload hash. *)
Inductive dvn_settled (dstEID : Z) (pathways : list Pathway) (past : history) (log : Log) : Prop :=
| vs_applied : dvn_applied dstEID pathways past log -> dvn_settled dstEID pathways past log
| vs_foreign : ~ logHasTopic log PayloadVerifiedTopic -> dvn_settled dstEID pathways past log
| vs_header event e : DecodePayloadVerified log = Ok event -> Packet.DecodePacketV1Header (pl_Header event) = Err e ->
    dvn_settled dstEID pathways past log
| vs_unrouted event h : DecodePayloadVerified log = Ok event ->
    Packet.DecodePacketV1Header (pl_Header event) = Ok h ->
    (forall w, route_pathway pathways (Packet.SrcEID h) dstEID (Packet.Sender h) (Packet.Receiver h) = Some w ->
       pw_Enabled w = false \/ pl_DVN event <> pw_DestinationOpenDVN w) ->
    dvn_settled dstEID pathways past log
| vs_tombstone event h : DecodePayloadVerified log = Ok event -> Packet.DecodePacketV1Header (pl_Header event) = Ok h ->
    tombstone_read past RoleDVN
      (mkIdentity (Packet.SrcEID h) dstEID (Packet.Sender h) (Packet.Receiver h) (Packet.Nonce h)) ->
    dvn_settled dstEID pathways past log
| vs_unrouted_packet event p : DecodePayloadVerified log = Ok event -> proof_packet past dstEID event p ->
    (forall w, packet_pathway pathways p = Some w -> pl_DVN event <> pw_DestinationOpenDVN w \/ pw_Enabled w = false) ->
    dvn_settled dstEID pathways past log
| vs_already event p job : DecodePayloadVerified log = Ok event -> proof_packet past dstEID event p ->
    proof_matches pathways p event -> dvn_job_read past p job ->
    dj_Status job ∈ [DVNVerified; DVNReorgDetected; ""%string] -> dvn_settled dstEID pathways past log.

(** Per role. *)
Definition expected_executor (i : Indexer) : Address := HexToAddress (tr_SignerID (ch_Executor (ix_chain i))).
Definition mark_due (i : Indexer) (r : role) (past : history) (log : Log) (op : store_op) : Prop :=
  match r with
  | RoleExecutor => executor_event_mark (ix_eid i) past log op
  | RoleDVN => dvn_mark (ix_eid i) (ix_destinationPathways i) past log op
  end.
Definition settled (i : Indexer) (r : role) (past : history) (log : Log) : Prop :=
  match r with
  | RoleExecutor => executor_settled (ix_eid i) (ix_destinationPathways i) (expected_executor i) past log
  | RoleDVN => dvn_settled (ix_eid i) (ix_destinationPathways i) past log
  end.

(** The writes of a poll and what must have happened before each. *)
Inductive index_write (i : Indexer) (past : history) : store_op -> Prop :=
| iw_executor_packet txLogs record :
    source_tx i past RoleExecutor txLogs -> executor_backed txLogs record ->
    for_us i RoleExecutor (xr_Packet record) (xr_Executor record) ->
    index_write i past (OpUpsertPacket (executor_packet record))
| iw_executor_job txLogs record :
    source_tx i past RoleExecutor txLogs -> executor_backed txLogs record ->
    for_us i RoleExecutor (xr_Packet record) (xr_Executor record) ->
    answered past (cUpsertPacket (executor_packet record)) (Ok tt) ->
    index_write i past (OpUpsertExecutor (xr_ExecutorJob record))
| iw_dvn_packet txLogs record :
    source_tx i past RoleDVN txLogs -> dvn_backed txLogs record -> for_us i RoleDVN (vr_Packet record) (vr_DVN record) ->
    index_write i past (OpUpsertPacket (vr_Packet record))
| iw_dvn_job txLogs record :
    source_tx i past RoleDVN txLogs -> dvn_backed txLogs record -> for_us i RoleDVN (vr_Packet record) (vr_DVN record) ->
    answered past (cUpsertPacket (vr_Packet record)) (Ok tt) ->
    index_write i past (OpUpsertDVN (vr_DVNJob record))
| iw_skip r txLogs log p reason worker :
    source_tx i past r txLogs -> log ∈ txLogs -> PacketRecordFromSentLog log = Ok p ->
    skip_reason i r p reason worker ->
    index_write i past (OpRecordSkip (skip_of r p reason worker))
| iw_mark r log op : destination_log i past r log -> mark_due i r past log op -> index_write i past op
| iw_source_cursor r from to :
    confirmed_window i past (source_stream r) from to ->
    (ix_sourcePathways i <> [] ->
     Forall (fun c => exists logs, heard past (WFilterLogs (ix_eid i) (source_query i r c)) (Ok logs) /\
       Forall (tx_handled i r past) (tx_groups logs [])) (window_chunks i from to)) ->
    index_write i past (OpIndexerCursor (ix_eid i) (source_stream r) to)
| iw_destination_cursor r from to :
    confirmed_window i past (destination_stream r) from to ->
    Forall (fun c => exists logs, heard past (WFilterLogs (ix_eid i) (destination_query i r c)) (Ok logs) /\
      Forall (settled i r past) logs) (window_chunks i from to) ->
    index_write i past (OpIndexerCursor (ix_eid i) (destination_stream r) to).

(** ** What was read stays read *)

Section grows.
Context (past past' : history) (Hs : past ⊆ past').

Lemma tombstoned_mono r p : tombstoned past r p -> tombstoned past' r p.
Proof. intros (reason & worker & Ha). exists reason, worker. by eapply answered_mono. Qed.
Lemma executor_handled_mono i record : executor_handled i past record -> executor_handled i past' record.
Proof.
  intros [H1 H2]. split; [|intros; by apply tombstoned_mono, H2].
  intros Hu. destruct (H1 Hu). split; by eapply answered_mono.
Qed.
Lemma dvn_handled_mono i record : dvn_handled i past record -> dvn_handled i past' record.
Proof.
  intros [H1 H2]. split; [|intros; by apply tombstoned_mono, H2].
  intros Hu. destruct (H1 Hu). split; by eapply answered_mono.
Qed.
Lemma executor_gap_handled_mono i gap : executor_gap_handled i past gap -> executor_gap_handled i past' gap.
Proof. intros [H1 H2]. split; [done|]. intros. by apply tombstoned_mono, H2. Qed.
Lemma dvn_gap_handled_mono i gap : dvn_gap_handled i past gap -> dvn_gap_handled i past' gap.
Proof. intros [H1 H2]. split; [done|]. intros. by apply tombstoned_mono, H2. Qed.
Lemma tx_handled_mono i r txLogs : tx_handled i r past txLogs -> tx_handled i r past' txLogs.
Proof.
  intros (relevant & Hr & Hh). exists relevant. split; [done|].
  destruct r; destruct Hh as (records & gaps & Hd & Hrs & Hgs); exists records, gaps; (split_and!; [done|..]).
  all: eapply list.Forall_impl; [eassumption|].
  all: auto using executor_handled_mono, executor_gap_handled_mono, dvn_handled_mono, dvn_gap_handled_mono.
Qed.
Lemma confirmed_window_mono i stream from to :
  confirmed_window i past stream from to -> confirmed_window i past' stream from to.
Proof.
  intros (head & cursor & Hh & Hc & Hr & Hw). exists head, cursor.
  split_and!; [by eapply heard_mono|done|by eapply answered_mono|done].
Qed.
Lemma source_tx_mono i r txLogs : source_tx i past r txLogs -> source_tx i past' r txLogs.
Proof.
  intros (from & to & c & logs & Hw & Hc & Hl & Hin). exists from, to, c, logs.
  split_and!; [by apply confirmed_window_mono|done|by eapply heard_mono|done].
Qed.
Lemma destination_log_mono i r log : destination_log i past r log -> destination_log i past' r log.
Proof.
  intros (from & to & c & logs & Hw & Hc & Hl & Hin). exists from, to, c, logs.
  split_and!; [by apply confirmed_window_mono|done|by eapply heard_mono|done].
Qed.
Lemma event_packet_mono dst ev p : event_packet past dst ev p -> event_packet past' dst ev p.
Proof. intros [Hd Ha]. split; [done|]. destruct ev; by eapply answered_mono. Qed.
Lemma proof_packet_mono dst e p : proof_packet past dst e p -> proof_packet past' dst e p.
Proof. intros [Hd Ha]. split; [done|by eapply answered_mono]. Qed.
Lemma executor_mark_mono dst log op : executor_event_mark dst past log op -> executor_event_mark dst past' log op.
Proof.
  intros (ev & p & job & Hc & Hp & Hj & Hm). exists ev, p, job.
  split_and!; [done|by apply event_packet_mono|by eapply answered_mono|apply Hm..].
Qed.
Lemma dvn_mark_mono dst pathways log op : dvn_mark dst pathways past log op -> dvn_mark dst pathways past' log op.
Proof.
  intros (p & job & event & Ht & Hd & Hp & Hm & Hj & Hst). exists p, job, event.
  split_and!; [done|done|by apply proof_packet_mono|done|by eapply answered_mono|apply Hst..].
Qed.
Lemma performed_mono op : performed past op -> performed past' op.
Proof. intros (c & Hc & Ha). exists c. split; [done|by eapply answered_mono]. Qed.
Lemma executor_applied_mono dst log : executor_applied dst past log -> executor_applied dst past' log.
Proof. intros (op & Hm & Hp). exists op. split; [by apply executor_mark_mono|by apply performed_mono]. Qed.
Lemma dvn_applied_mono dst pathways log : dvn_applied dst pathways past log -> dvn_applied dst pathways past' log.
Proof. intros (op & Hm & Hp). exists op. split; [by apply dvn_mark_mono|by apply performed_mono]. Qed.
Lemma tombstone_read_mono r d : tombstone_read past r d -> tombstone_read past' r d.
Proof. intros (skip & Ha). exists skip. by eapply answered_mono. Qed.
Lemma executor_settled_mono dst pathways expected log :
  executor_settled dst pathways expected past log -> executor_settled dst pathways expected past' log.
Proof.
  destruct 1; [by eapply es_applied, executor_applied_mono|by apply es_foreign|
    by eapply es_other_executor|by eapply es_unrouted|eapply es_tombstone|eapply es_unrouted_packet|
    eapply es_tombstone_packet|eapply es_already]; try done;
    try (by eapply event_packet_mono); try (by eapply tombstone_read_mono); by eapply answered_mono.
Qed.
Lemma dvn_settled_mono dst pathways log : dvn_settled dst pathways past log -> dvn_settled dst pathways past' log.
Proof.
  destruct 1; [by eapply vs_applied, dvn_applied_mono|by apply vs_foreign|
    by eapply vs_header|by eapply vs_unrouted|eapply vs_tombstone|eapply vs_unrouted_packet|
    eapply vs_already]; try done;
    try (by eapply proof_packet_mono); try (by eapply tombstone_read_mono); by eapply answered_mono.
Qed.
Lemma settled_mono i r log : settled i r past log -> settled i r past' log.
Proof. destruct r; [apply executor_settled_mono|apply dvn_settled_mono]. Qed.
End grows.

(** ** Source transactions *)

Section indexer.
Context (i : Indexer).
Abbreviation P := (justified (index_write i)).
Abbreviation yields p past db I := (safe P p past db (fun r past' _ => forall a, r = Ok a -> I a past')).

Lemma yields_ret {A} (r : result werr A) past db (I : A -> history -> Prop) :
  (forall a, r = Ok a -> I a past) -> yields (Ret r) past db I.
Proof. intros HI db0 _. done. Qed.

Lemma yields_then {A B} (p : work (result werr A)) (k : A -> work (result werr B)) past db
    (I : A -> history -> Prop) (J : B -> history -> Prop) :
  yields p past db I ->
  (forall a past' db', past ⊆ past' -> I a past' -> yields (k a) past' db' J) ->
  yields (andThen p k) past db J.
Proof. intros Hp Hk. eapply safe_ok; [exact Hp|done|]. by intros ????? [=]. Qed.

Lemma yields_pure {A B} (r : result werr A) (k : A -> work (result werr B)) past db (J : B -> history -> Prop) :
  (forall a, r = Ok a -> yields (k a) past db J) -> yields (andThen (pure r) k) past db J.
Proof. intros Hk. apply safe_pure; [done|]. intros e _ ? _ a [=]. Qed.

Lemma yields_done {R B} (c : store_call R) (k : R -> work (result werr B)) past db (J : B -> history -> Prop) :
  (forall env op, sc_op c env = Some op -> index_write i past op) ->
  (forall past' db' a, past ⊆ past' -> answered past' c (Ok a) -> yields (k a) past' db' J) ->
  yields (andThen (storeW c) k) past db J.
Proof. intros Hs Hk. apply safe_done; [done|done|]. by intros ????? [=]. Qed.

Lemma textW_ok {A} (r : result string A) a : textW r = Ok a -> r = Ok a.
Proof. destruct r; cbn; congruence. Qed.
Lemma dbW_ok {A} (r : result dberr A) a : dbW r = Ok a -> r = Ok a.
Proof. destruct r; cbn; congruence. Qed.

Lemma skip_done {B} r p reason worker txLogs log (k : unit -> work (result werr B)) past db (J : B -> history -> Prop) :
  source_tx i past r txLogs -> log ∈ txLogs -> PacketRecordFromSentLog log = Ok p -> skip_reason i r p reason worker ->
  (forall past' db', past ⊆ past' -> tombstoned past' r p -> yields (k tt) past' db' J) ->
  yields (andThen (recordSourcePacketSkip r p reason worker) k) past db J.
Proof.
  intros Ht Hl Hp Hr Hk. apply (yields_then _ _ _ _ (fun _ past' => tombstoned past' r p)).
  - unfold recordSourcePacketSkip. case_decide; [|by apply yields_ret].
    intros db0 _ env. split; [by eapply iw_skip|]. intros db1 [[]|e] Ho ? _ a [= <-]. exists reason, worker.
    destruct Ho as [E|(msg & [=] & _)]. exists db0, env. rewrite E. split; [set_solver|done].
  - intros [] past' db' Hs Hts. by apply Hk.
Qed.

Lemma relevant_logs_spec r txLogs logs : forall relevant segment past db,
  source_tx i past r txLogs -> (forall log, log ∈ logs -> log ∈ txLogs) ->
  yields (relevant_logs i r logs relevant segment) past db (fun out _ =>
    let '(closed, open) := segments logs segment in
    out = (relevant ++ mjoin (filter (fun s => ours i s = true) closed), open)).
Proof.
  induction logs as [|log logs IH]; intros relevant segment past db Ht Hin; cbn [relevant_logs segments].
  { apply yields_ret. intros a [= <-]. cbn. by rewrite app_nil_r. }
  apply safe_unless. intros p1 db1 Hs1. cbv zeta.
  assert (source_tx i p1 r txLogs) as Ht1 by (by eapply source_tx_mono).
  assert (forall l, l ∈ logs -> l ∈ txLogs) as Hin' by (intros; apply Hin; by right).
  destruct (decide (logHasTopic log PacketSentTopic)) as [Hsent|Hsent].
  2:{ rewrite decide_True by done. by apply IH. }
  rewrite decide_False by tauto.
  assert (forall rel past db, source_tx i past r txLogs -> forall b, ours i (segment ++ [log]) = b ->
    rel = (if b then relevant ++ (segment ++ [log]) else relevant) ->
    yields (relevant_logs i r logs rel []) past db (fun out _ =>
      let '(closed, open) := let '(closed, open) := segments logs [] in ((segment ++ [log]) :: closed, open) in
      out = (relevant ++ mjoin (filter (fun s => ours i s = true) closed), open))) as Hnext.
  { intros rel past0 db0 Ht0 b Hb ->. eapply safe_mono; [|apply IH; [done|done]].
    intros res past' db' Hres out Hout. specialize (Hres out Hout).
    destruct (segments logs []) as [closed open]. rewrite Hres, filter_cons, Hb.
    destruct b; [rewrite decide_True by done; cbn; by rewrite <- !app_assoc|by rewrite decide_False]. }
  assert (ours i (segment ++ [log]) = bool_decide (lg_Address log = ch_EndpointAddress (ix_chain i)) &&
    match packetRouteFromSentLog log with
    | Ok (route, event) =>
      match route_pathway (ix_sourcePathways i) (rt_SrcEID route) (rt_DstEID route) (rt_Sender route) (rt_Receiver route) with
      | Some pathway => bool_decide (ps_SendLibrary event = pw_SendLib pathway)
      | None => false
      end
    | Err _ => false
    end) as Hours by (unfold ours; by rewrite last_snoc).
  destruct (decide (lg_Address log <> ch_EndpointAddress (ix_chain i))) as [Ha|Ha];
    [eapply Hnext; [done|exact Hours|by rewrite bool_decide_false]|].
  apply dec_stable in Ha. rewrite bool_decide_true in Hours by done.
  apply yields_pure. intros [route event] Hre%textW_ok. rewrite Hre in Hours. cbn [fst snd].
  unfold sourcePathwayIdentity. rewrite findPathway_route. destruct (route_pathway _ _ _ _ _) as [pathway|] eqn:Hpw; [|by eapply Hnext; [|exact Hours|]].
  destruct (decide (ps_SendLibrary event <> pw_SendLib pathway)) as [Hlib|Hlib];
    [|eapply Hnext; [done|exact Hours|apply dec_stable in Hlib; by rewrite bool_decide_true]].
  apply yields_pure. intros packet Hpk%textW_ok. destruct (decoded_packet _ _ Hpk) as (event' & _ & Hsl%rd_lib & Hroute & _).
  rewrite Hre in Hroute. injection Hroute as -> <-.
  eapply skip_done; [done|apply Hin; by left|done| |].
  { exists pathway. split; [exact Hpw|]. left. split; [done|]. by rewrite Hsl. }
  intros p2 db2 Hs2 _. eapply Hnext; [by eapply source_tx_mono|exact Hours|by rewrite bool_decide_false].
Qed.

Lemma segments_join logs : forall segment closed open,
  segments logs segment = (closed, open) -> mjoin closed ++ open = segment ++ logs.
Proof.
  induction logs as [|log logs IH]; intros segment closed open; cbn.
  - intros [= <- <-]. cbn. by rewrite app_nil_r.
  - case_decide.
    + destruct (segments logs []) as [cl op] eqn:E. intros [= <- <-]. apply IH in E. cbn [app] in E. subst logs.
      cbn. by rewrite <- !app_assoc.
    + intros E. rewrite (IH _ _ _ E). by rewrite <- app_assoc.
Qed.

Lemma relevant_subset r txLogs relevant : relevant_of i r txLogs = Ok relevant -> relevant ⊆ txLogs.
Proof.
  unfold relevant_of. destruct (orderedSourceTxLogs txLogs) as [ordered|] eqn:Ho; cbn; [|done].
  destruct (segments ordered []) as [closed open] eqn:Hsg. intros [= <-]. apply segments_join in Hsg. cbn in Hsg.
  intros log Hin. rewrite <- (ordered_perm _ _ Ho), <- Hsg.
  apply elem_of_app in Hin as [(s & Hl & [_ Hs]%list_elem_of_filter)%list_elem_of_join|Hin].
  - apply elem_of_app. left. apply list_elem_of_join. by exists s.
  - case_decide; [set_solver|by apply not_elem_of_nil in Hin].
Qed.

Lemma sourceTxLogs_spec r txLogs past db :
  source_tx i past r txLogs ->
  yields (sourceTxLogsForPathways i txLogs r) past db (fun relevant _ => relevant_of i r txLogs = Ok relevant).
Proof.
  intros Ht. unfold sourceTxLogsForPathways. apply yields_pure. intros ordered Ho%textW_ok.
  eapply yields_then; [apply (relevant_logs_spec r txLogs); [exact Ht|]|].
  { intros log Hl. by rewrite <- (ordered_perm _ _ Ho). }
  intros rs past' db' Hs Hrs. apply yields_ret. intros relevant [= <-]. unfold relevant_of. rewrite Ho. cbn [mbind].
  cbv beta. cbn. destruct (segments ordered []) as [closed open]. subst rs. cbn. unfold assignment_topic.
  destruct r; (destruct (decide (Exists _ open)); [done|by rewrite app_nil_r]).
Qed.

Lemma sourcePathway_unique r p worker pathway :
  packet_pathway (ix_sourcePathways i) p = Some pathway -> for_us i r p worker ->
  pw_Enabled pathway = true /\ worker = match r with RoleExecutor => OpenExecutor (pw_SourceWorkers pathway)
                                                  | RoleDVN => OpenDVN (pw_SourceWorkers pathway) end.
Proof. intros Hp (w & Hw & He & Hk). rewrite Hp in Hw. by simplify_eq. Qed.

(** A worker that is not ours makes a packet's tombstone. *)
Lemma unexpected_worker_reason r p worker pathway :
  packet_pathway (ix_sourcePathways i) p = Some pathway ->
  worker <> match r with RoleExecutor => OpenExecutor (pw_SourceWorkers pathway)
                       | RoleDVN => OpenDVN (pw_SourceWorkers pathway) end ->
  skip_reason i r p "unexpected_worker" worker.
Proof.
  intros Hp Hne. exists pathway. split; [done|]. right; right. split; [done|]. right. intros Hu.
  by destruct (sourcePathway_unique _ _ _ _ Hp Hu).
Qed.

Lemma executor_records_spec txLogs records : forall processed past db,
  source_tx i past RoleExecutor txLogs -> Forall (executor_backed txLogs) records ->
  yields (executor_records i records processed) past db (fun _ past' => Forall (executor_handled i past') records).
Proof.
  induction records as [|record records IH]; intros processed past db Ht Hb; cbn [executor_records].
  { apply yields_ret. constructor. }
  apply Forall_cons_1 in Hb as [Hr Hb]. apply safe_unless. intros p1 db1 Hs1.
  assert (source_tx i p1 RoleExecutor txLogs) as Ht1 by (by eapply source_tx_mono).
  assert (exists log, log ∈ txLogs /\ PacketRecordFromSentLog log = Ok (xr_Packet record)) as (log & Hlog & Hdec).
  { by destruct Hr as (la & lf & lp & _ & _ & Hlp & a & f & _ & _ & Hd & _); exists lp. }
  assert (forall n past db, source_tx i past RoleExecutor txLogs -> executor_handled i past record ->
    yields (executor_records i records n) past db (fun _ past' => Forall (executor_handled i past') (record :: records))) as Hnext.
  { intros n past0 db0 Ht0 Hh. eapply safe_post; [apply IH; done|]. intros res past' db' Hs Hres a Ha. constructor.
    - by eapply executor_handled_mono.
    - by apply (Hres a). }
  rewrite sourcePathway_route. destruct (packet_pathway _ (xr_Packet record)) as [pathway|] eqn:Hpw.
  2:{ apply Hnext; [done|]. split; [|rewrite Hpw; intros []; done]. intros (w & Hw & _). congruence. }
  assert (forall past, tombstoned past RoleExecutor (xr_Packet record) ->
    (pw_Enabled pathway = true -> xr_Executor record <> OpenExecutor (pw_SourceWorkers pathway)) ->
    executor_handled i past record) as Hskip.
  { intros past0 Hts Hno. split; [|done]. intros Hu. exfalso. destruct (sourcePathway_unique _ _ _ _ Hpw Hu). by apply Hno. }
  destruct (pw_Enabled pathway) eqn:Hen; cbn [negb].
  2:{ eapply skip_done; [done..| |].
      - exists pathway. split; [done|]. right; left. done.
      - intros. apply Hnext; [by eapply source_tx_mono|by apply Hskip]. }
  destruct (decide (xr_Executor record <> OpenExecutor (pw_SourceWorkers pathway))) as [Hw|Hw].
  { eapply skip_done; [done..|by eapply unexpected_worker_reason|].
    intros. apply Hnext; [by eapply source_tx_mono|by apply Hskip]. }
  apply dec_stable in Hw. assert (for_us i RoleExecutor (xr_Packet record) (xr_Executor record)) as Hu by (by exists pathway).
  apply yields_done; [intros env op [= <-]; by eapply (iw_executor_packet _ _ txLogs record)|].
  intros p2 db2 [] Hs2 Hup. assert (source_tx i p2 RoleExecutor txLogs) as Ht2 by (by eapply source_tx_mono).
  apply yields_done; [intros env op [= <-]; by eapply iw_executor_job|].
  intros p3 db3 [] Hs3 Huj. apply Hnext; [by eapply source_tx_mono|]. split; [|done]. intros _.
  split; [by eapply answered_mono|done].
Qed.

Lemma executor_gaps_spec txLogs gaps : forall past db,
  source_tx i past RoleExecutor txLogs -> Forall (gap_backed txLogs) gaps ->
  yields (recordExecutorSourceGaps i gaps) past db (fun _ past' => Forall (executor_gap_handled i past') gaps).
Proof.
  induction gaps as [|gap gaps IH]; intros past db Ht Hb; cbn [recordExecutorSourceGaps].
  { apply yields_ret. constructor. }
  apply Forall_cons_1 in Hb as [(lf & lp & _ & Hlp & f & _ & Hdec & _) Hb]. apply safe_unless. intros p1 db1 Hs1.
  assert (source_tx i p1 RoleExecutor txLogs) as Ht1 by (by eapply source_tx_mono).
  assert (forall past db, source_tx i past RoleExecutor txLogs -> executor_gap_handled i past gap ->
    yields (recordExecutorSourceGaps i gaps) past db (fun _ past' => Forall (executor_gap_handled i past') (gap :: gaps))) as Hnext.
  { intros past0 db0 Ht0 Hh. eapply safe_post; [apply IH; done|]. intros res past' db' Hs Hres a Ha. constructor.
    - by eapply executor_gap_handled_mono.
    - by apply (Hres a). }
  rewrite sourcePathway_route. destruct (packet_pathway _ (xg_Packet gap)) as [pathway|] eqn:Hpw.
  2:{ apply Hnext; [done|]. split; [|rewrite Hpw; intros []; done]. intros (w & Hw & _). congruence. }
  destruct (decide (pw_Enabled pathway = true /\ _)) as [|Hno]; [by apply yields_ret|]. cbv zeta.
  assert (~ for_us i RoleExecutor (xg_Packet gap) (xg_Executor gap)) as Hnu.
  { intros Hu. by destruct (sourcePathway_unique _ _ _ _ Hpw Hu); destruct Hno. }
  eapply skip_done; [done..| |].
  - exists pathway. split; [done|]. destruct (pw_Enabled pathway); [right; right; split; [done|by right]|right; by left].
  - intros. apply Hnext; [by eapply source_tx_mono|done].
Qed.

Lemma dvn_records_spec txLogs records : forall processed past db,
  source_tx i past RoleDVN txLogs -> Forall (dvn_backed txLogs) records ->
  yields (dvn_records i records processed) past db (fun _ past' => Forall (dvn_handled i past') records).
Proof.
  induction records as [|record records IH]; intros processed past db Ht Hb; cbn [dvn_records].
  { apply yields_ret. constructor. }
  apply Forall_cons_1 in Hb as [Hr Hb]. apply safe_unless. intros p1 db1 Hs1.
  assert (source_tx i p1 RoleDVN txLogs) as Ht1 by (by eapply source_tx_mono).
  assert (exists log, log ∈ txLogs /\ PacketRecordFromSentLog log = Ok (vr_Packet record)) as (log & Hlog & Hdec).
  { by destruct Hr as (la & lf & lp & _ & _ & Hlp & a & f & _ & _ & Hd & _); exists lp. }
  assert (forall n past db, source_tx i past RoleDVN txLogs -> dvn_handled i past record ->
    yields (dvn_records i records n) past db (fun _ past' => Forall (dvn_handled i past') (record :: records))) as Hnext.
  { intros n past0 db0 Ht0 Hh. eapply safe_post; [apply IH; done|]. intros res past' db' Hs Hres a Ha. constructor.
    - by eapply dvn_handled_mono.
    - by apply (Hres a). }
  rewrite sourcePathway_route. destruct (packet_pathway _ (vr_Packet record)) as [pathway|] eqn:Hpw.
  2:{ apply Hnext; [done|]. split; [|rewrite Hpw; intros []; done]. intros (w & Hw & _). congruence. }
  assert (forall past, tombstoned past RoleDVN (vr_Packet record) ->
    (pw_Enabled pathway = true -> vr_DVN record <> OpenDVN (pw_SourceWorkers pathway)) ->
    dvn_handled i past record) as Hskip.
  { intros past0 Hts Hno. split; [|done]. intros Hu. exfalso. destruct (sourcePathway_unique _ _ _ _ Hpw Hu). by apply Hno. }
  destruct (pw_Enabled pathway) eqn:Hen; cbn [negb].
  2:{ eapply skip_done; [done..| |].
      - exists pathway. split; [done|]. right; left. done.
      - intros. apply Hnext; [by eapply source_tx_mono|by apply Hskip]. }
  destruct (decide (vr_DVN record <> OpenDVN (pw_SourceWorkers pathway))) as [Hw|Hw].
  { eapply skip_done; [done..|by eapply unexpected_worker_reason|].
    intros. apply Hnext; [by eapply source_tx_mono|by apply Hskip]. }
  apply dec_stable in Hw. assert (for_us i RoleDVN (vr_Packet record) (vr_DVN record)) as Hu by (by exists pathway).
  apply yields_done; [intros env op [= <-]; by eapply iw_dvn_packet|].
  intros p2 db2 [] Hs2 Hup. assert (source_tx i p2 RoleDVN txLogs) as Ht2 by (by eapply source_tx_mono).
  apply yields_done; [intros env op [= <-]; by eapply iw_dvn_job|].
  intros p3 db3 [] Hs3 Huj. apply Hnext; [by eapply source_tx_mono|]. split; [|done]. intros _.
  split; [by eapply answered_mono|done].
Qed.

(** Without a payment to the expected worker the reported one is another, or none. *)
Lemma gap_worker_none dvns expected worker :
  gap_worker dvns expected = (worker, false) -> (expected ∉ dvns) /\ (worker = 0 \/ worker <> expected).
Proof.
  unfold gap_worker. enough (forall acc, (acc.1 = 0 \/ acc.1 <> expected) -> forall b,
    fold_left (fun acc dvn => if acc.2 : bool then acc
      else ((if decide (acc.1 = 0) then dvn else acc.1), bool_decide (dvn = expected))) dvns acc = (worker, b) ->
    b = false -> (expected ∉ dvns) /\ (worker = 0 \/ worker <> expected)) as Hgen
    by (intros E; eapply Hgen; [|exact E|done]; by left).
  induction dvns as [|dvn dvns IH]; intros acc Hacc b; cbn [fold_left].
  - intros -> ->. split; [apply not_elem_of_nil|done].
  - destruct acc as [w [|]]; cbn [fst snd] in *.
    + intros E ->. exfalso. revert E. clear. induction dvns; cbn; [done|done].
    + destruct (decide (dvn = expected)) as [->|Hne].
      { rewrite bool_decide_true by done. intros E ->. exfalso. revert E. clear.
        generalize (if decide (w = 0) then expected else w) as v. intros v. induction dvns; cbn; [done|done]. }
      rewrite bool_decide_false by done. intros E Hb. apply IH in E as [Hn Hw]; [|cbn; case_decide; auto|done].
      split; [|done]. by apply not_elem_of_cons.
Qed.

Lemma dvn_gaps_spec txLogs gaps : forall past db,
  source_tx i past RoleDVN txLogs -> Forall (dvn_gap_backed txLogs) gaps ->
  yields (recordDVNSourceGaps i gaps) past db (fun _ past' => Forall (dvn_gap_handled i past') gaps).
Proof.
  induction gaps as [|gap gaps IH]; intros past db Ht Hb; cbn [recordDVNSourceGaps].
  { apply yields_ret. constructor. }
  apply Forall_cons_1 in Hb as [(lf & lp & _ & Hlp & _ & Hdec & _) Hb].
  assert (forall past db, source_tx i past RoleDVN txLogs -> dvn_gap_handled i past gap ->
    yields (recordDVNSourceGaps i gaps) past db (fun _ past' => Forall (dvn_gap_handled i past') (gap :: gaps))) as Hnext.
  { intros past0 db0 Ht0 Hh. eapply safe_post; [apply IH; done|]. intros res past' db' Hs Hres a Ha. constructor.
    - by eapply dvn_gap_handled_mono.
    - by apply (Hres a). }
  rewrite sourcePathway_route. destruct (packet_pathway _ (vg_Packet gap)) as [pathway|] eqn:Hpw.
  2:{ apply Hnext; [done|]. split; [|rewrite Hpw; intros []; done].
      apply list.Forall_forall. intros d _ (w & Hw & _). congruence. }
  destruct (pw_Enabled pathway) eqn:Hen; cbn [negb].
  2:{ eapply skip_done; [done..| |].
      - exists pathway. split; [done|]. right; by left.
      - intros. apply Hnext; [by eapply source_tx_mono|]. split; [|done].
        apply list.Forall_forall. intros d _ Hu. destruct (sourcePathway_unique _ _ _ _ Hpw Hu). congruence. }
  cbv zeta. unfold dvnGapWorker. case_decide; [|by apply yields_ret].
  destruct (gap_worker _ _) as [worker [|]] eqn:Hg; [by apply yields_ret|]. apply gap_worker_none in Hg as [Hn Hw].
  eapply skip_done; [done..| |].
  - exists pathway. split; [done|]. right; right. split; [done|]. destruct Hw as [Hw|Hw]; [by left|right].
    intros Hu. by destruct (sourcePathway_unique _ _ _ _ Hpw Hu).
  - intros. apply Hnext; [by eapply source_tx_mono|]. split; [|done]. apply list.Forall_forall. intros d Hd Hu.
    destruct (sourcePathway_unique _ _ _ _ Hpw Hu) as [_ ->]. done.
Qed.

Lemma dvn_backed_mono l l' record : l ⊆ l' -> dvn_backed l record -> dvn_backed l' record.
Proof.
  intros Hs (la & lf & lp & H1 & H2 & H3 & Hr). exists la, lf, lp.
  split; [by apply Hs|]. split; [by apply Hs|]. split; [by apply Hs|done].
Qed.
Lemma dvn_gap_backed_mono l l' gap : l ⊆ l' -> dvn_gap_backed l gap -> dvn_gap_backed l' gap.
Proof.
  intros Hs (lf & lp & H1 & H2 & Hr). exists lf, lp. split; [by apply Hs|]. split; [by apply Hs|done].
Qed.

(** A transaction that was processed without error is handled. *)
Lemma processTx_spec r txLogs past db :
  source_tx i past r txLogs ->
  yields (processSourceTxLogs i txLogs r) past db (fun _ past' => tx_handled i r past' txLogs).
Proof.
  intros Ht. unfold processSourceTxLogs. eapply yields_then; [by apply sourceTxLogs_spec|].
  intros relevant p1 db1 Hs1 Hrel. assert (source_tx i p1 r txLogs) as Ht1 by (by eapply source_tx_mono).
  pose proof (relevant_subset _ _ _ Hrel) as Hsub.
  destruct relevant as [|l0 rest] eqn:El.
  { apply yields_ret. intros a _. exists []. split; [done|]. destruct r; exists [], []; by split_and!. }
  rewrite <- El in *. clear El. destruct r.
  - eapply (yields_then _ _ _ _ (fun _ past' => tx_handled i RoleExecutor past' txLogs));
      [|intros; by apply yields_ret]. unfold processExecutorSourceTx. apply yields_pure.
    intros [records gaps] Hd%textW_ok. destruct (executor_decode_spec _ _ _ Hd) as (Hr & Hg). cbn [fst snd].
    eapply yields_then; [apply (executor_records_spec txLogs); [exact Ht1|]|].
    { eapply list.Forall_impl; [exact Hr|]. intros. by eapply executor_backed_mono. }
    intros n p2 db2 Hs2 Hhr. eapply yields_then; [apply (executor_gaps_spec txLogs); [by eapply source_tx_mono|]|].
    { eapply list.Forall_impl; [exact Hg|]. intros. by eapply gap_backed_mono. }
    intros [] p3 db3 Hs3 Hhg. apply yields_ret. intros a _. exists relevant. split; [done|]. exists records, gaps.
    split_and!; [done| |done]. eapply list.Forall_impl; [exact Hhr|]. intros. by eapply executor_handled_mono.
  - eapply (yields_then _ _ _ _ (fun _ past' => tx_handled i RoleDVN past' txLogs));
      [|intros; by apply yields_ret]. unfold processDVNSourceTx. apply yields_pure.
    intros [records gaps] Hd%textW_ok. destruct (dvn_decode_spec _ _ _ _ Hd) as (Hr & Hg). cbn [fst snd].
    eapply yields_then; [apply (dvn_records_spec txLogs); [exact Ht1|]|].
    { eapply list.Forall_impl; [exact Hr|]. intros. by eapply dvn_backed_mono. }
    intros n p2 db2 Hs2 Hhr. eapply yields_then; [apply (dvn_gaps_spec txLogs); [by eapply source_tx_mono|]|].
    { eapply list.Forall_impl; [exact Hg|]. intros. by eapply dvn_gap_backed_mono. }
    intros [] p3 db3 Hs3 Hhg. apply yields_ret. intros a _. exists relevant. split; [done|]. exists records, gaps.
    split_and!; [done| |done]. eapply list.Forall_impl; [exact Hhr|]. intros. by eapply dvn_handled_mono.
Qed.

Lemma source_logs_spec r logs : forall current total past db,
  (forall g, g ∈ tx_groups logs current -> source_tx i past r g) ->
  yields (source_logs i r logs current total) past db (fun _ past' => Forall (tx_handled i r past') (tx_groups logs current)).
Proof.
  induction logs as [|log logs IH]; intros current total past db Hg; cbn [source_logs tx_groups] in *.
  { destruct current as [|first rest] eqn:E; [apply yields_ret; constructor|]. rewrite <- E in *.
    eapply yields_then; [apply processTx_spec, Hg; by left|]. intros n p1 db1 _ Hh. apply yields_ret. by repeat constructor. }
  apply safe_unless. intros p1 db1 Hs1.
  assert (forall cur g, g ∈ tx_groups logs cur -> (forall g, g ∈ tx_groups logs cur -> source_tx i past r g) ->
    forall p2, p1 ⊆ p2 -> source_tx i p2 r g) as Hgo.
  { intros cur g Hin Hall p2 Hs2. eapply source_tx_mono; [|by apply Hall]. by etrans. }
  destruct current as [|first rest]; [apply IH; intros; by eapply Hgo|].
  case_decide; [|apply IH; intros; by eapply Hgo].
  eapply yields_then.
  { apply processTx_spec. eapply source_tx_mono; [exact Hs1|]. apply Hg. by left. }
  intros n p2 db2 Hs2 Hh. eapply safe_post.
  - apply IH. intros g Hin. eapply Hgo; [exact Hin| |done]. intros. apply Hg. by right.
  - intros res past' db' Hs3 Hres a Ha. constructor; [by eapply tx_handled_mono|by apply (Hres a)].
Qed.

Definition chunk_handled (r : role) (past : history) (c : Z * Z) : Prop :=
  exists logs, heard past (WFilterLogs (ix_eid i) (source_query i r c)) (Ok logs) /\
    Forall (tx_handled i r past) (tx_groups logs []).

Lemma chunk_handled_mono r past past' c : past ⊆ past' -> chunk_handled r past c -> chunk_handled r past' c.
Proof.
  intros Hs (logs & Hl & Hh). exists logs. split; [by eapply heard_mono|].
  eapply list.Forall_impl; [exact Hh|]. intros. by eapply tx_handled_mono.
Qed.

Lemma source_chunks_spec r from to cs : forall total past db,
  confirmed_window i past (source_stream r) from to -> cs ⊆ window_chunks i from to ->
  yields (source_chunks i r cs total) past db (fun _ past' => Forall (chunk_handled r past') cs).
Proof.
  induction cs as [|[cf ct] cs IH]; intros total past db Hw Hc; cbn [source_chunks].
  { apply yields_ret. constructor. }
  apply safe_unless. intros p1 db1 Hs1. apply safe_clientW; [|by intros ????? [=]].
  intros p2 db2 logs Hs2 Hl. rewrite source_query_eq in Hl. assert (confirmed_window i p2 (source_stream r) from to) as Hw2
    by (eapply confirmed_window_mono; [|exact Hw]; by etrans).
  eapply yields_then; [apply source_logs_spec|].
  { intros g Hg. exists from, to, (cf, ct), logs. split_and!; [done|apply Hc; by left|done|done]. }
  intros n p3 db3 Hs3 Hh. eapply safe_post.
  - apply IH; [by eapply confirmed_window_mono|]. intros c Hin. apply Hc. by right.
  - intros res past' db' Hs4 Hres a Ha. constructor; [|by apply (Hres a)].
    eapply chunk_handled_mono; [exact Hs4|]. exists logs. split; [by eapply heard_mono|done].
Qed.

Lemma sourceWindow_spec r from to past db :
  confirmed_window i past (source_stream r) from to ->
  yields (processSourceWindow i from to r) past db (fun _ past' =>
    ix_sourcePathways i <> [] -> Forall (chunk_handled r past') (window_chunks i from to)).
Proof.
  intros Hw. unfold processSourceWindow. destruct (ix_sourcePathways i); [by apply yields_ret|].
  eapply safe_mono; [|by apply (source_chunks_spec r from to)]. intros res p' db' Hres a Ha _. by apply (Hres a).
Qed.

(** ** Destination logs *)

Lemma topic_address_word w : topic_address w = word_address w.
Proof.
  unfold topic_address, word_address, BytesToAddress, HashBytes, slice, HashLength.
  assert (forall m n z, drop m (be_split (m + n) z) = be_split n z) as Hd.
  { intros m n. induction n as [|n IH]; intros z.
    - rewrite Nat.add_0_r. apply drop_ge. by rewrite length_be_split.
    - rewrite Nat.add_succ_r. cbn [be_split]. rewrite drop_app_le by (rewrite length_be_split; lia). by rewrite IH. }
  rewrite (Hd 12%nat 20%nat), take_ge by (by rewrite length_be_split). rewrite be_combine_split.
  change (256 ^ Z.of_nat 20) with (2 ^ 160). by rewrite Zmod_mod.
Qed.

Lemma origin_word o : originSenderAddress o = word_address (og_Sender o).
Proof. apply topic_address_word. Qed.
Lemma routed_answer past dst o receiver p :
  answered past (readCall (fun _ => GetPacketByDestination dst (og_SrcEID o) (originSenderAddress o) receiver (og_Nonce o))) (Ok p) ->
  routed_packet past dst o receiver p.
Proof. unfold routed_packet. by rewrite origin_word. Qed.

(** The stored packet of a log is the one its event names. *)
Definition named_packet (past : history) (dst : Z) (log : Log) (r : result werr (option PacketRecord)) : Prop :=
  match r with
  | Ok (Some p) => exists ev, carries log ev /\ (k_DstEID p = dst -> event_packet past dst ev p)
  | Ok None => ~ logHasTopic log PacketVerifiedTopic /\ ~ logHasTopic log PacketDeliveredTopic /\
               ~ logHasTopic log LzReceiveAlertTopic
  | Err (WDB _) => exists ev, carries log ev
  | Err _ => True
  end.

Lemma packetForLog_spec dst log past db :
  safe P (packetForDestinationLog dst log) past db (fun r past' _ => named_packet past' dst log r).
Proof.
  unfold packetForDestinationLog. cbv zeta.
  assert (forall (c : store_call PacketRecord) ev past db, carries log ev -> (forall env, sc_op c env = None) ->
    (forall past p, answered past c (Ok p) -> k_DstEID p = dst -> event_packet past dst ev p) ->
    safe P (let? p := storeW c in Ret (Ok (Some p))) past db (fun r past' _ => named_packet past' dst log r)) as Hread.
  { intros c ev p0 db0 Hev Hop Hp. apply safe_done.
    - intros env op. by rewrite Hop.
    - intros p1 db1 p Hs Ha ? _. exists ev. split; [done|by apply Hp].
    - intros p1 db1 e Hs. by exists ev. }
  assert (forall A (r : result string A) e, textW r = Err e -> forall past, named_packet past dst log (Err e)) as Htext
    by (intros A [|] err; cbn; [done|by intros [= <-]]).
  destruct (decide (logHasTopic log PacketVerifiedTopic)) as [H1|H1].
  { apply safe_pure; [|intros err Herr ? _; by eapply Htext]. intros e He%textW_ok. apply (Hread _ (Verified e)); [done|done|].
    intros past0 p Ha Hd. split; [exact Hd|]. by apply routed_answer. }
  destruct (decide (logHasTopic log PacketDeliveredTopic)) as [H2|H2].
  { apply safe_pure; [|intros err Herr ? _; by eapply Htext]. intros e He%textW_ok. apply (Hread _ (Delivered e)); [done|done|].
    intros past0 p Ha Hd. split; [exact Hd|]. by apply routed_answer. }
  destruct (decide (logHasTopic log LzReceiveAlertTopic)) as [H3|H3]; [|by intros ? _].
  apply safe_pure; [|intros err Herr ? _; by eapply Htext]. intros e He%textW_ok. apply (Hread _ (Alert e)); [done|done|].
  intros past0 p Ha Hd. by split.
Qed.

Lemma wasSkipped_spec r d past db :
  yields (sourcePacketWasSkipped r d) past db (fun b past' => b = true -> tombstone_read past' r d).
Proof.
  unfold sourcePacketWasSkipped. apply safe_look.
  - intros p1 db1 [skip|[]] Hs Ha; apply yields_ret; intros b [= <-]; try done. intros _. by exists skip.
  - intros p1 db1 msg Hs. by apply yields_ret.
Qed.

Abbreviation esettled := (executor_settled (ix_eid i) (ix_destinationPathways i) (expected_executor i)).
Abbreviation vsettled := (dvn_settled (ix_eid i) (ix_destinationPathways i)).

(** A mark that is due, once performed, settles its log. *)
Lemma mark_spec r (c : store_call unit) op log past db :
  (forall env, sc_op c env = Some op) -> destination_log i past r log -> mark_due i r past log op ->
  yields (let? _ := storeW c in Ret (Ok true)) past db (fun b past' => b = true /\ performed past' op).
Proof.
  intros Hop Hl Hm. apply yields_done; [intros env op'; rewrite Hop; intros [= <-]; by eapply iw_mark|].
  intros p1 db1 [] Hs Ha. apply yields_ret. intros b [= <-]. split; [done|]. by exists c.
Qed.

Lemma topic_head log topic : head (lg_Topics log) = Some topic -> forall t, logHasTopic log t <-> topic = t.
Proof. unfold logHasTopic. intros -> t. split; congruence. Qed.

(** What the validators accept agrees with the stored packet. *)
Lemma validateOrigin_matches p o : validateOrigin p o = Ok tt -> origin_matches p o.
Proof.
  unfold validateOrigin, origin_matches. repeat (case_decide; [|done]). intros _.
  destruct (k_Nonce p) as [n|]; [|done]. unfold nonce_u64, is_uint64 in *. cbn in *.
  split_and!; [done|done|]. f_equal. rewrite Z.mod_small in * by lia. lia.
Qed.
Lemma validate_matches p ev :
  match ev with
  | Verified e => validatePacketVerified p e | Delivered e => validatePacketDelivered p e
  | Alert e => validateLzReceiveAlert p e
  end = Ok tt -> event_matches p ev.
Proof.
  unfold event_matches, validatePacketVerified, validatePacketDelivered, validateLzReceiveAlert.
  destruct ev as [e|e|e]; cbn [ev_origin ev_receiver]; (destruct (validateOrigin p _) as [[]|] eqn:Ho; cbn; [|done]);
    repeat (case_decide; [|done]); intros _; split_and!; (done || by apply validateOrigin_matches).
Qed.

(** Whether a job is past an event is decided by the log's topic. *)
Lemma past_event log ev status : carries log ev ->
  executorDestinationLogAlreadyApplied status (head (lg_Topics log)) = true <-> is_past ev status.
Proof.
  unfold executorDestinationLogAlreadyApplied, carries, logHasTopic, is_past. destruct ev; intros Hc.
  - rewrite decide_True by apply Hc. by rewrite bool_decide_eq_true.
  - rewrite decide_False, decide_True by apply Hc. by rewrite bool_decide_eq_true.
  - rewrite decide_False, decide_False, decide_True by apply Hc. by rewrite bool_decide_eq_true.
Qed.

(** An event that is due, once its mark is made, settles its log. *)
Lemma event_spec log ev p job (c : store_call unit) past db :
  destination_log i past RoleExecutor log -> carries log ev -> event_packet past (ix_eid i) ev p ->
  executor_job_read past p job -> event_matches p ev -> awaits ev (ej_Status job) ->
  (forall env, sc_op c env = Some (OpExecutorStatus (event_update ev p (ej_Status job) (lg_TxHash log)))) ->
  yields (let? _ := storeW c in Ret (Ok true)) past db (fun _ past' => esettled past' log).
Proof.
  intros Hl Hc Hp Hj Hm Ha Hop.
  assert (executor_event_mark (ix_eid i) past log (OpExecutorStatus (event_update ev p (ej_Status job) (lg_TxHash log))))
    as Hmark by (by exists ev, p, job).
  eapply safe_post; [by eapply (mark_spec RoleExecutor)|]. intros res p1 db1 Hs1 Hres b Hb.
  destruct (Hres b Hb) as [_ Hpf]. apply es_applied. eexists. split; [by eapply executor_mark_mono|done].
Qed.

Lemma applyExecutor_spec p job log ev past db :
  destination_log i past RoleExecutor log -> carries log ev -> event_packet past (ix_eid i) ev p ->
  executor_job_read past p job ->
  executorDestinationLogAlreadyApplied (ej_Status job) (head (lg_Topics log)) = false ->
  yields (ApplyExecutorDestinationLog p job log) past db (fun b past' => esettled past' log).
Proof.
  intros Hl Hc Hp Hj Hnot. unfold ApplyExecutorDestinationLog. apply yields_pure. intros _ _.
  case_decide; [|by apply yields_ret]. cbv zeta.
  assert (~ is_past ev (ej_Status job)) as Hnp by (rewrite <- (past_event _ _ _ Hc); congruence).
  destruct (head (lg_Topics log)) as [topic|] eqn:Ht.
  2:{ apply yields_ret. intros b _. apply es_foreign; unfold logHasTopic; by rewrite Ht. }
  rewrite Hnot. pose proof (topic_head _ _ Ht) as Htop. pose proof Hc as Hcv. unfold carries in Hc.
  destruct (decide (topic = PacketVerifiedTopic)) as [->|Hn1].
  { apply yields_pure. intros event He%textW_ok. apply yields_pure. intros [] Hv.
    destruct ev as [e| |]; [|by destruct Hc as [[] _]; apply Htop..]. destruct Hc as [_ He']. rewrite He in He'. injection He' as <-.
    case_decide as Hd; [|by apply yields_ret].
    eapply (event_spec _ (Verified event)); try done; [by apply validate_matches|].
    revert Hd. unfold executorCanApplyPacketVerified. by rewrite bool_decide_eq_true. }
  destruct (decide (topic = PacketDeliveredTopic)) as [->|Hn2].
  { apply yields_pure. intros event He%textW_ok. apply yields_pure. intros [] Hv.
    destruct ev as [|e|]; [by destruct Hc as [?%Htop _]| |by destruct Hc as (_ & [] & _); apply Htop]. destruct Hc as (_ & _ & He').
    rewrite He in He'. injection He' as <-.
    eapply (event_spec _ (Delivered event)); try done; by apply validate_matches. }
  destruct (decide (topic = LzReceiveAlertTopic)) as [->|Hn3].
  { apply yields_pure. intros event He%textW_ok. apply yields_pure. intros [] Hv.
    destruct ev as [| |e]; [by destruct Hc as [?%Htop _]|by destruct Hc as (_ & ?%Htop & _)|]. destruct Hc as (_ & _ & _ & He').
    rewrite He in He'. injection He' as <-. case_decide as Hd; [|by apply yields_ret].
    eapply (event_spec _ (Alert event)); try done; [by apply validate_matches|].
    revert Hd. unfold executorCanApplyLzReceiveAlert. by rewrite bool_decide_eq_true. }
  apply yields_ret. intros b _. apply es_foreign; by rewrite Htop.
Qed.

(** An alert that is turned away is of another executor. *)
Lemma refused_alert log expected :
  executorDestinationLogExecutorAllowed log expected = false -> foreign_alert expected log.
Proof.
  unfold executorDestinationLogExecutorAllowed, foreign_alert. case_decide as Hd; [done|]. intros Hb.
  destruct (decide (expected = 0)); [tauto|]. destruct (decide (logHasTopic log LzReceiveAlertTopic)); [|tauto].
  split_and!; [done|done|]. intros e He. rewrite He in Hb. by apply bool_decide_eq_false in Hb.
Qed.

(** The identity the code derives from a log is the one of its event. *)
Lemma log_identity dst expected log ev identity : carries log ev ->
  executorDestinationLogIdentity dst expected log = Ok identity ->
  identity = Some (event_identity dst ev) \/
  (identity = None /\ foreign_alert expected log).
Proof.
  unfold executorDestinationLogIdentity, event_identity. destruct ev as [e|e|e]; cbn [carries ev_origin ev_receiver].
  - intros [H1 He]. rewrite decide_True, He by done. cbn. intros [= <-]. left.
    unfold identity_of. by rewrite origin_word.
  - intros (H1 & H2 & He). rewrite decide_False, decide_True, He by done. cbn. intros [= <-]. left.
    unfold identity_of. by rewrite origin_word.
  - intros (H1 & H2 & H3 & He). rewrite decide_False, decide_False, decide_True, He by done. cbn.
    case_decide as Hd; intros [= <-].
    + right. split; [done|]. destruct Hd. split_and!; [done..|]. intros e' He'. rewrite He in He'. by injection He' as <-.
    + left. unfold identity_of. by rewrite origin_word.
Qed.

Lemma missingPacket_spec log ev past db : carries log ev ->
  yields (missingExecutorPacket (ix_eid i) (ix_destinationPathways i) (expected_executor i) log) past db
    (fun o past' => o <> Pending -> esettled past' log).
Proof.
  intros Hc. unfold missingExecutorPacket. apply yields_pure. intros pathway Hpw.
  assert ((pathway = None /\ foreign_alert (expected_executor i) log) \/
    pathway = route_pathway (ix_destinationPathways i) (og_SrcEID (ev_origin ev)) (ix_eid i)
      (word_address (og_Sender (ev_origin ev))) (ev_receiver ev)) as [[-> Hf]|Hroute].
  { revert Hpw. unfold executorDestinationLogPathway. destruct (ix_destinationPathways i) as [|w ws]; [intros [= <-]; by right|].
    destruct (executorDestinationLogIdentity _ _ _) as [d|] eqn:Hid; cbn; [|done]. intros [= <-].
    apply (log_identity _ _ _ _ _ Hc) in Hid as [->|[-> He]]; [right; cbn; apply findPathway_route|by left]. }
  { apply yields_ret. intros o _ _. by eapply es_other_executor. }
  destruct pathway as [w|]; [destruct (pw_Enabled w) eqn:Hen|];
    try (apply yields_ret; intros o _ _; eapply es_unrouted; [exact Hc|]; by rewrite <- Hroute).
  unfold executorSourcePacketWasSkipped.
  eapply (yields_then _ _ _ _ (fun b past' => b = true -> esettled past' log)).
  - apply yields_pure. intros [d|] Hid; [|by apply yields_ret; intros b [= <-]].
    eapply safe_mono; [|apply wasSkipped_spec]. intros res p' db' Hr b Hb Ht.
    apply (log_identity _ _ _ _ _ Hc) in Hid as [[= ->]|[[=] _]]. eapply es_tombstone; [exact Hc|by apply (Hr b)].
  - intros [] p3 db3 Hs3 Hsk; apply yields_ret; intros o [= <-]; [|done]. intros _. by apply Hsk.
Qed.

Lemma executorLog_spec log past db :
  destination_log i past RoleExecutor log ->
  yields (executorDestinationLog (ix_eid i) (ix_destinationPathways i) (expected_executor i) log) past db
    (fun o past' => o <> Pending -> esettled past' log).
Proof.
  intros Hl. unfold executorDestinationLog. apply safe_bind. eapply safe_post; [apply packetForLog_spec|].
  intros res p1 db1 Hs1 Hres. assert (destination_log i p1 RoleExecutor log) as Hl1 by (by eapply destination_log_mono).
  destruct res as [[p|]|e].
  - destruct Hres as (ev & Hc & Hp). case_decide as Hd; [|by apply yields_ret]. specialize (Hp Hd).
    destruct (executorDestinationLogExecutorAllowed log (expected_executor i)) eqn:Hal; cbn [negb].
    2:{ apply yields_ret. intros o _ _. eapply es_other_executor; [exact Hc|by apply refused_alert]. }
    apply safe_look; [|intros; by apply yields_ret]. intros p2 db2 r2 Hs2 Ha.
    assert (event_packet p2 (ix_eid i) ev p) as Hp2 by (by eapply event_packet_mono).
    destruct r2 as [job|e]; [|destruct e; try by apply yields_ret].
    + destruct (executorDestinationLogAlreadyApplied _ _) eqn:Hap.
      { apply yields_ret. intros o _ _. eapply es_already; [done..|]. by apply (past_event log). }
      eapply yields_then; [by eapply applyExecutor_spec; [eapply destination_log_mono|..]|].
      intros b p3 db3 Hs3 Hb. apply yields_ret. done.
    + unfold missingExecutorJob. rewrite pathwayForPacket_route. destruct (packet_pathway _ p) as [w|] eqn:Hw.
      2:{ apply yields_ret. intros o _ _. eapply es_unrouted_packet; [done..|]. by rewrite Hw. }
      destruct (pw_Enabled w) eqn:Hen.
      2:{ apply yields_ret. intros o _ _. eapply es_unrouted_packet; [done..|]. by rewrite Hw. }
      eapply yields_then; [apply wasSkipped_spec|]. intros [] p3 db3 Hs3 Hsk; apply yields_ret; intros o [= <-]; [|done].
      intros _. eapply es_tombstone_packet; [done|by eapply event_packet_mono|]. by apply Hsk.
  - destruct Hres as (H1 & H2 & H3). apply yields_ret. intros o _ _. by apply es_foreign.
  - destruct e as [[]| | | | | | |]; try by apply yields_ret. destruct Hres as [ev Hc]. by eapply missingPacket_spec.
Qed.

(** What the validator of a PayloadVerified log accepts, and when the job takes it. *)
Lemma validatePayload_matches pathways p e w :
  validatePayloadVerified p e = Ok tt -> packet_pathway pathways p = Some w -> pl_DVN e = pw_DestinationOpenDVN w ->
  proof_matches pathways p e.
Proof.
  unfold validatePayloadVerified, proof_matches. repeat (case_decide; [|done]).
  destruct (pl_Confirmations e) as [n|]; [|done]. case_decide; [|done]. intros _ Hw Hd.
  split_and!; [done|done|by exists n|by exists w].
Qed.
Lemma dvnCanApply_iff status :
  dvnCanApplyPayloadVerified status = true <-> status ∉ [DVNVerified; DVNReorgDetected; ""%string].
Proof.
  unfold dvnCanApplyPayloadVerified. case_decide as Hd; [set_solver|]. rewrite bool_decide_eq_true. set_solver.
Qed.

Lemma dvnLog_spec log past db :
  destination_log i past RoleDVN log ->
  yields (dvnDestinationLog (ix_eid i) (ix_destinationPathways i) log) past db
    (fun o past' => o <> Pending -> vsettled past' log).
Proof.
  intros Hl. unfold dvnDestinationLog. destruct (decide (~ logHasTopic log PayloadVerifiedTopic)) as [Ht|Hnt].
  { apply yields_ret. intros o _ _. by apply vs_foreign. }
  apply yields_pure. intros event He%textW_ok. apply safe_look; [|intros; by apply yields_ret].
  intros p1 db1 r1 Hs1 Ha. assert (destination_log i p1 RoleDVN log) as Hl1 by (by eapply destination_log_mono).
  destruct r1 as [p|e]; [|destruct e; try by apply yields_ret].
  - case_decide as Hd; [|by apply yields_ret].
    assert (proof_packet p1 (ix_eid i) event p) as Hp by done.
    rewrite pathwayForPacket_route. destruct (packet_pathway _ p) as [w|] eqn:Hw.
    2:{ apply yields_ret. intros o _ _. eapply vs_unrouted_packet; [done..|]. by rewrite Hw. }
    destruct (decide (pl_DVN event <> pw_DestinationOpenDVN w)) as [Hne|Heq].
    { apply yields_ret. intros o _ _. eapply vs_unrouted_packet; [done..|]. rewrite Hw. intros w' [= <-]. by left. }
    apply dec_stable in Heq. apply yields_pure. intros [] Hv. pose proof (validatePayload_matches _ _ _ _ Hv Hw Heq) as Hm.
    apply safe_look; [|intros; by apply yields_ret]. intros p2 db2 r2 Hs2 Hj.
    assert (proof_packet p2 (ix_eid i) event p) as Hp2 by (by eapply proof_packet_mono).
    destruct r2 as [job|e]; [|destruct e; try by apply yields_ret].
    + destruct (decide (dj_Status job = DVNVerified)) as [Hver|Hver].
      { apply yields_ret. intros o _ _. eapply vs_already; [done..|]. rewrite Hver. set_solver. }
      pose proof (dvnCanApply_iff (dj_Status job)) as Hiff.
      destruct (dvnCanApplyPayloadVerified (dj_Status job)) eqn:Hcan; cbn [negb].
      2:{ apply yields_ret. intros o _ _. eapply vs_already; [done..|]. apply dec_stable. intros Hno. by apply Hiff in Hno. }
      assert (forall past, p2 ⊆ past -> dvn_mark (ix_eid i) (ix_destinationPathways i) past log
        (OpDVNStatus (mkDVNUpdate (k_GUID p) (dj_Status job) DVNVerified "" "" (Some (lg_TxHash log))))) as Hmk.
      { intros past0 Hs. eapply dvn_mark_mono; [exact Hs|]. exists p, job, event.
        split_and!; [by apply dec_stable|done..|by apply Hiff|done]. }
      apply yields_done; [intros env op [= <-]; eapply (iw_mark _ _ RoleDVN); [by eapply destination_log_mono|by apply Hmk]|].
      intros p3 db3 [] Hs3 Hd3. apply yields_ret. intros o _ _. apply vs_applied. eexists. split; [by apply Hmk|].
      eexists. split; [|exact Hd3]. done.
    + apply yields_ret. intros o [= <-]. destruct (pw_Enabled w) eqn:Hen; [done|]. intros _.
      eapply vs_unrouted_packet; [done..|]. rewrite Hw. intros w' [= <-]. by right.
  - destruct (Packet.DecodePacketV1Header (pl_Header event)) as [h|e] eqn:Hh.
    2:{ apply yields_ret. intros o _ _. by eapply vs_header. }
    rewrite findPathway_route. destruct (route_pathway _ _ _ _ _) as [w|] eqn:Hw.
    2:{ apply yields_ret. intros o _ _. eapply vs_unrouted; [done..|]. by rewrite Hw. }
    destruct (decide (pw_Enabled w = true /\ _)) as [[Hen Hdvn]|Hno].
    2:{ apply yields_ret. intros o _ _. eapply vs_unrouted; [done..|]. rewrite Hw. intros w' [= <-].
        destruct (pw_Enabled w); [right; intros E; by apply Hno|by left]. }
    eapply yields_then; [apply wasSkipped_spec|]. intros [] p3 db3 Hs3 Hsk; apply yields_ret; intros o [= <-]; [|done].
    intros _. eapply vs_tombstone; [done..|by apply Hsk].
Qed.

Lemma destination_logs_spec r apply logs : forall acc past db,
  (forall log past db, destination_log i past r log ->
     yields (apply log) past db (fun o past' => o <> Pending -> settled i r past' log)) ->
  Forall (destination_log i past r) logs ->
  yields (destination_logs apply logs acc) past db (fun acc' past' =>
    acc'.2 = false -> acc.2 = false /\ Forall (settled i r past') logs).
Proof.
  induction logs as [|log logs IH]; intros acc past db Ha Hl; cbn [destination_logs].
  { apply yields_ret. by intros a [= <-]. }
  apply Forall_cons_1 in Hl as [Hlog Hl]. eapply yields_then; [by apply Ha|]. intros o p1 db1 Hs1 Ho.
  eapply safe_post; [apply IH; [done|]|].
  - eapply list.Forall_impl; [exact Hl|]. intros. by eapply destination_log_mono.
  - intros res past' db' Hs2 Hres acc' Hacc' Hf. destruct (Hres acc' Hacc' Hf) as [Hadd Hall].
    destruct o; cbn in Hadd; [| |done].
    all: split; [done|]; constructor; [eapply settled_mono; [exact Hs2|]; by apply Ho|done].
Qed.

Definition chunk_settled (r : role) (past : history) (c : Z * Z) : Prop :=
  exists logs, heard past (WFilterLogs (ix_eid i) (destination_query i r c)) (Ok logs) /\ Forall (settled i r past) logs.

Lemma chunk_settled_mono r past past' c : past ⊆ past' -> chunk_settled r past c -> chunk_settled r past' c.
Proof.
  intros Hs (logs & Hl & Hh). exists logs. split; [by eapply heard_mono|].
  eapply list.Forall_impl; [exact Hh|]. intros. by eapply settled_mono.
Qed.

Lemma applyLogs_spec r logs acc past db :
  Forall (destination_log i past r) logs ->
  yields (applyDestinationLogs i r logs acc) past db (fun acc' past' =>
    acc'.2 = false -> acc.2 = false /\ Forall (settled i r past') logs).
Proof.
  intros Hl. unfold applyDestinationLogs. case_decide; [|by apply yields_ret].
  apply destination_logs_spec; [|done]. intros log p' db' Hd. destruct r; [by apply executorLog_spec|by apply dvnLog_spec].
Qed.

Lemma destination_chunks_spec r from to cs : forall acc past db,
  confirmed_window i past (destination_stream r) from to -> cs ⊆ window_chunks i from to ->
  yields (destination_chunks i r cs acc) past db (fun acc' past' =>
    acc'.2 = false -> acc.2 = false /\ Forall (chunk_settled r past') cs).
Proof.
  induction cs as [|[cf ct] cs IH]; intros acc past db Hw Hc; cbn [destination_chunks].
  { apply yields_ret. by intros a [= <-]. }
  apply safe_clientW; [|by intros ????? [=]].
  intros p1 db1 logs Hs1 Hl. rewrite destination_query_eq in Hl. assert (confirmed_window i p1 (destination_stream r) from to) as Hw1
    by (by eapply confirmed_window_mono).
  eapply yields_then; [apply applyLogs_spec|].
  { apply list.Forall_forall. intros log Hin. exists from, to, (cf, ct), logs. split_and!; [done|apply Hc; by left|done|done]. }
  intros acc1 p2 db2 Hs2 Hh. eapply safe_post.
  - apply IH; [by eapply confirmed_window_mono|]. intros c Hin. apply Hc. by right.
  - intros res past' db' Hs3 Hres a Ha Hf. destruct (Hres a Ha Hf) as [Hf1 Hall]. destruct (Hh Hf1) as [Hf0 Hset].
    split; [done|]. constructor; [|done]. eapply chunk_settled_mono; [exact Hs3|]. exists logs.
    split; [by eapply heard_mono|done].
Qed.

(** ** Polls *)

Definition head_read (past : history) (confirmedTo : Z) : Prop :=
  exists head, heard past (WBlockNumber (ix_eid i)) (Ok head) /\ ch_Confirmations (ix_chain i) <= head /\
    confirmedTo = head - ch_Confirmations (ix_chain i).

Lemma head_read_mono past past' n : past ⊆ past' -> head_read past n -> head_read past' n.
Proof. intros Hs (head & Hh & Hr). exists head. split; [by eapply heard_mono|done]. Qed.

Lemma cursorWindow_spec stream confirmedTo past db :
  head_read past confirmedTo ->
  yields (cursorWindow i stream confirmedTo) past db (fun w past' =>
    forall from to, w = inl (from, to) -> confirmed_window i past' stream from to).
Proof.
  intros (head & Hh & Hc & ->). unfold cursorWindow. apply safe_look; [|intros; by apply yields_ret].
  intros p1 db1 r Hs Ha.
  destruct r as [c|[]]; apply yields_ret; intros w [= <-] from to Hw;
    [exists head, (Some c)|exists head, None]; (split_and!; [by eapply heard_mono|done|done|by apply window_of_behind]).
Qed.

Lemma sourceStream_okay r confirmedTo res past db :
  head_read past confirmedTo ->
  yields (sourceStream i (source_stream r) r confirmedTo res) past db (fun _ past' => head_read past' confirmedTo).
Proof.
  intros Hh. unfold sourceStream. eapply yields_then; [by apply cursorWindow_spec|].
  intros [[from to]|] p1 db1 Hs1 Hw; [|apply yields_ret; intros; by eapply head_read_mono].
  specialize (Hw from to eq_refl). eapply yields_then; [by apply sourceWindow_spec|]. intros n p2 db2 Hs2 Hall.
  apply yields_done.
  - intros env op [= <-]. eapply iw_source_cursor; [by eapply confirmed_window_mono|exact Hall].
  - intros p3 db3 [] Hs3 _. apply yields_ret. intros a _. eapply head_read_mono; [|exact Hh]. grow.
Qed.

Lemma destinationStream_okay r confirmedTo res past db :
  head_read past confirmedTo ->
  yields (destinationStream i (destination_stream r) r confirmedTo res) past db (fun _ past' => head_read past' confirmedTo).
Proof.
  intros Hh. unfold destinationStream. eapply yields_then; [by apply cursorWindow_spec|].
  intros [[from to]|] p1 db1 Hs1 Hw; [|apply yields_ret; intros; by eapply head_read_mono].
  specialize (Hw from to eq_refl). unfold processDestinationWindow.
  eapply yields_then; [by apply (destination_chunks_spec r from to)|]. intros [applied pending] p2 db2 Hs2 Hall. cbn [fst snd] in *.
  assert (head_read p2 confirmedTo) as Hh2 by (eapply head_read_mono; [|exact Hh]; grow).
  cbv zeta. destruct pending; [by apply yields_ret|]. destruct (Hall eq_refl) as [_ Hset]. apply yields_done.
  - intros env op [= <-]. eapply iw_destination_cursor; [by eapply confirmed_window_mono|exact Hset].
  - intros p3 db3 [] Hs3 _. apply yields_ret. intros a _. by eapply head_read_mono.
Qed.

Lemma when_spec b k res past db (I : ProcessResult -> history -> Prop) :
  yields (k res) past db I -> I res past -> yields (when b k res) past db I.
Proof. intros Hk Hr. destruct b; [done|]. apply yields_ret. by intros a [= <-]. Qed.

Lemma ProcessOnce_okay past db : yields (ProcessOnce i) past db (fun _ _ => True).
Proof.
  unfold ProcessOnce. case_decide; [|by apply yields_ret]. apply safe_clientW; [|by intros ????? [=]].
  intros p1 db1 head Hs1 Hh. destruct (decide (head < _)) as [|Hc]; [by apply yields_ret|]. cbv zeta.
  set (n := head - ch_Confirmations (ix_chain i)).
  assert (head_read p1 n) as Hr by (exists head; split_and!; [done|lia|done]).
  eapply (yields_then _ _ _ _ (fun _ past' => head_read past' n));
    [apply when_spec; [by apply (sourceStream_okay RoleExecutor)|done]|]. intros r2 p2 db2 _ Hr2.
  eapply (yields_then _ _ _ _ (fun _ past' => head_read past' n));
    [apply when_spec; [by apply (sourceStream_okay RoleDVN)|done]|]. intros r3 p3 db3 _ Hr3.
  eapply (yields_then _ _ _ _ (fun _ past' => head_read past' n));
    [apply when_spec; [by apply (destinationStream_okay RoleExecutor)|done]|]. intros r4 p4 db4 _ Hr4.
  apply when_spec; [|done]. eapply safe_mono; [|by apply (destinationStream_okay RoleDVN)]. done.
Qed.

Lemma pollOnce_okay past db : yields (pollOnce i) past db (fun _ _ => True).
Proof.
  apply safe_bind. eapply safe_mono; [|apply ProcessOnce_okay]. intros [r|e] p1 db1 _; [by apply yields_ret|].
  apply safe_unless. intros. by apply yields_ret.
Qed.

Lemma poll_ticks_okay n : forall past db, yields (poll_ticks i n) past db (fun _ _ => True).
Proof.
  induction n as [|n IH]; intros past db; [by apply yields_ret|]. cbn [poll_ticks].
  apply safe_askW. intros db0 [e|] p1 _; [by apply yields_ret|]. eapply yields_then; [apply pollOnce_okay|]. intros. apply IH.
Qed.

Lemma runPollingLoop_okay n past db : yields (runPollingLoop i n) past db (fun _ _ => True).
Proof.
  unfold runPollingLoop. case_decide; [by apply yields_ret|]. destruct (ix_client i); [|by apply yields_ret].
  cbn [negb]. eapply yields_then; [apply pollOnce_okay|]. intros. apply poll_ticks_okay.
Qed.
End indexer.

End proofs.
