(* ===== verification/WorkerSample.v ===== *)
(** * A concrete world for the chain workers

    A codec, two chains and a source transaction, with which the indexer stores a
    packet and its jobs, and the executor and the DVN then work on them. Each
    theorem about the workers is applied to these runs. *)

From S2P Require Import Prelude GoErr Schema SendScope Outbox Jobs Store Voting Quorum StateReads QuorumLogs.
From S2P Require Import LzCodec Registry Proc Worker WorkerProofs Executor ExecutorProofs.
From S2P Require Import PacketLogs PacketLogsProofs Dvn DvnProofs Indexer IndexerProofs.
From stdpp Require Import base gmap list strings numbers sorting.
From Stdlib Require Import ZArith Lia.
#[local] Open Scope Z_scope.

(** A view is packed as its name and its answer read back by its type. *)
Definition view_tag {R} (v : view R) : Byte.byte :=
  match v with
  | InboundPayloadHash _ _ _ _ => Byte.x01 | IsValidReceiveLibrary _ _ _ => Byte.x02
  | EndpointVerifiable _ _ => Byte.x03 | LazyInboundNonce _ _ _ => Byte.x04 | InboundNonce _ _ _ => Byte.x05
  | GetReceiveLibrary _ _ => Byte.x06 | GetUlnConfig _ _ => Byte.x07 | UlnVerifiable _ _ _ => Byte.x08
  | HashLookup _ _ _ => Byte.x09
  end.
Definition sample_uln : ulnConfig := mkUln 6 1 0 0 [52] [].
Definition sample_unpack {R} (v : view R) (out : bytes) : result string R :=
  let flag := bool_decide (be_combine out = 1) in
  match v in view R return result string R with
  | InboundPayloadHash _ _ _ _ => Ok (be_combine out) | IsValidReceiveLibrary _ _ _ => Ok flag
  | EndpointVerifiable _ _ => Ok flag | LazyInboundNonce _ _ _ => Ok (be_combine out)
  | InboundNonce _ _ _ => Ok (be_combine out) | GetReceiveLibrary _ _ => Ok (be_combine out, false)
  | GetUlnConfig _ _ => Ok sample_uln | UlnVerifiable _ _ _ => Ok flag | HashLookup _ _ _ => Ok (flag, be_combine out)
  end.

#[export] Instance sample_lz : LzAbi := {|
  lz_address_text := sample_hex;
  Keccak256Hash := fun b => 1 + BytesToHash b;
  Pack := fun _ v => Ok [view_tag v];
  Unpack := fun _ v out => sample_unpack v out;
  PackReceiveUln302CommitVerification := fun header _ => Ok header;
  PackLzReceive := fun _ _ _ message _ => Ok message;
  PackOpenDVNSubmitVerification := fun _ header _ _ => Ok header |}.

Definition sample_message : bytes := [Byte.x0a; Byte.x0b].
Definition sample_packet_bytes : bytes :=
  Packet.encode_header 1 101 11 102 22 ++ be_split 32 999 ++ sample_message.
Definition sample_executor_options : bytes := Options.type3_prefix true ++ Options.lz_receive_option 100000 false.

#[export] Instance sample_events : EventAbi := {|
  ev_lz := sample_lz;
  PacketSentTopic := 901; PacketVerifiedTopic := 902; PacketDeliveredTopic := 903; LzReceiveAlertTopic := 904;
  ExecutorJobAssignedTopic := 905; DVNJobAssignedTopic := 906; ExecutorFeePaidTopic := 907; DVNFeePaidTopic := 908;
  PayloadVerifiedTopic := 909;
  UnpackPacketSent := fun data => Ok (mkPacketSent data sample_executor_options 31);
  UnpackPacketVerified := fun _ => Err "no data"%string;
  UnpackPacketDelivered := fun _ => Ok (mkPacketDelivered (mkOrigin 101 11 1) 22);
  UnpackLzReceiveAlert := fun _ => Err "no data"%string;
  UnpackExecutorJobAssigned := fun _ => Ok (mkExecutorAssigned 0 0 0 (Some 2) (Some 5) sample_executor_options);
  UnpackDVNJobAssigned := fun _ => Ok (mkDVNAssigned 0 0 0 31 6 (Some 7));
  UnpackExecutorFeePaid := fun _ => Ok (mkExecutorFeePaid 41 (Some 5));
  UnpackDVNFeePaid := fun _ => Ok (mkDVNFeePaid [42] [] [Some 7]);
  UnpackPayloadVerified := fun data => Ok (mkPayloadVerified 52 data (Some 6) (1 + BytesToHash (be_split 32 999 ++ sample_message)));
  HexToAddress := fun _ => 61 |}.

(** ** A source transaction in block 100, delivered in block 150 *)

Definition world_log (address : Address) (topics : list Hash) (data : bytes) (block tx index : Z) : Log :=
  mkLog address topics data block tx 0 77 index false.
Definition sample_source_logs : list Log :=
  [ world_log 31 [907] [] 100 700 0; world_log 41 [905; 102; 11; 31] [] 100 700 1;
    world_log 31 [908] [] 100 700 2; world_log 42 [906; 1; 102; 11] [] 100 700 3;
    world_log 101000 [901] sample_packet_bytes 100 700 4 ].
Definition sample_destination_logs : list Log := [ world_log 102000 [903] [] 150 701 0 ].

Definition world_packet : PacketRecord :=
  match PacketRecordFromSentLog (world_log 101000 [901] sample_packet_bytes 100 700 4) with
  | Ok p => p
  | Err _ => mkPacketRecord 0 0 0 None 0 0 0 0 0 0 [] [] [] 0 [] ""
  end.

Definition matches_query (q : FilterQuery) (l : Log) : bool :=
  bool_decide (fy_FromBlock q <= lg_BlockNumber l <= fy_ToBlock q) && bool_decide (lg_Address l ∈ fy_Addresses q) &&
  bool_decide (default 0 (head (lg_Topics l)) ∈ fy_Topics q).

(** The chains at block 200. [inbound] is the payload hash the destination endpoint holds. *)
Definition sample_world (inbound : Hash) (R : Type) (q : wquery R) : R :=
  match q with
  | WCall _ _ data _ =>
    Ok (if decide (data = [Byte.x01]) then be_split 32 inbound
        else if decide (data = [Byte.x06]) then be_split 32 32
        else if decide (data = [Byte.x09]) then [] else [Byte.x01])
  | WBlockNumber _ => Ok 200
  | WCheckHead _ => Ok (Some 200, 77)
  | WReceipt _ tx _ => Ok (Some (mkReceipt tx 1 (Some 100) 77 21000 (Some 6) (Some <$> sample_source_logs)))
  | WFilterLogs eid q => Ok (filter (fun l => matches_query q l = true)
                              (if decide (eid = 101) then sample_source_logs else sample_destination_logs))
  | WCtxErr => None
  | WWait => None
  end.

Definition world_env (db : DB) : callenv := mkEnv 30 30 db "".

Definition source_indexer : Indexer := NewIndexer (chain_of (sample_chain 101)) [sample_pathway].
Definition destination_indexer : Indexer := NewIndexer (chain_of (sample_chain 102)) [sample_pathway].
Definition sample_executor : ExecWorker := NewExecWorker sample_registry.

Definition empty_tables : DB :=
  mkDB {[ 101 := Schema.mkChain true false; 102 := Schema.mkChain true false ]}
    {[ 1 := Schema.mkPathway 101 102 (addressBytes 11) (addressBytes 22) true false ]} ∅ ∅ ∅ ∅ ∅ ∅ ∅ ∅ ∅ 1 1.

Definition index_run := simulate (runPollingLoop source_indexer 0) world_env (sample_world 0) empty_tables.
Definition indexed_tables : DB := Eval vm_compute in index_run.1.2.
Definition commit_run := simulate (RunCommitter sample_executor 2) world_env (sample_world 0) indexed_tables.
Definition committed_tables : DB := Eval vm_compute in
  exec (OpExecutorStatus (Executor.executor_mark 999 ExecutorAssigned ExecutorCommitted)) 30 indexed_tables.
Definition deliver_run :=
  simulate (RunDeliverer sample_executor 2) world_env (sample_world (k_PayloadHash world_packet)) committed_tables.
Definition delivered_run := simulate (runPollingLoop destination_indexer 0) world_env (sample_world 0) committed_tables.
Definition sample_dvn : DVNWorker := NewDVNWorker sample_registry {[ 102 := "signer"%string ]}.
Definition dvn_run := simulate (RunDVN sample_dvn 3) world_env (sample_world 0) indexed_tables.

(** The store operation, and the tables, at event [k] of a trace. *)
Definition op_at (tr : history) (k : nat) : store_op :=
  match tr !! k with Some (EvStore (Some op) _) => op | _ => OpPausePathway 0 end.
Definition tables_at (tr : history) (k : nat) : DB :=
  match tr !! k with Some e => event_db e | None => empty_tables end.
Definition writes (tr : history) (k : nat) (op : store_op) : Prop :=
  tr !! k = Some (EvStore (Some op) (tables_at tr k)).

Lemma run_split {A} (p : work A) db (run : history * DB * A) k op :
  behaves p db run.1.1 run.1.2 (Some run.2) -> writes run.1.1 k op ->
  behaves p db (take k run.1.1 ++ EvStore (Some op) (tables_at run.1.1 k) :: drop (S k) run.1.1) run.1.2 (Some run.2).
Proof. intros Hb Hw. unfold writes in Hw. by rewrite (take_drop_middle _ _ _ Hw). Qed.

Lemma commit_run_behaves :
  behaves (RunCommitter sample_executor 2) indexed_tables commit_run.1.1 commit_run.1.2 (Some commit_run.2).
Proof. unfold commit_run. apply simulate_behaves. Qed.
Lemma deliver_run_behaves :
  behaves (RunDeliverer sample_executor 2) committed_tables deliver_run.1.1 deliver_run.1.2 (Some deliver_run.2).
Proof. unfold deliver_run. apply simulate_behaves. Qed.
Lemma dvn_run_behaves : behaves (RunDVN sample_dvn 3) indexed_tables dvn_run.1.1 dvn_run.1.2 (Some dvn_run.2).
Proof. unfold dvn_run. apply simulate_behaves. Qed.
Lemma index_run_behaves :
  behaves (runPollingLoop source_indexer 0) empty_tables index_run.1.1 index_run.1.2 (Some index_run.2).
Proof. unfold index_run. apply simulate_behaves. Qed.

Definition commit_request : TxRequest :=
  mkTxRequest 102 TxPurposeCommitVerification (HashBytes 999) 32 (k_PacketHeader world_packet) (Some 0) (sample_hex 61).
Definition deliver_request : TxRequest :=
  mkTxRequest 102 TxPurposeLzReceive (HashBytes 999) 102000 sample_message (Some 0) (sample_hex 61).

Lemma committer_writes_justified_witness :
  let op := OpEnqueueExecutor 999 ExecutorVerifiable ExecutorCommitTxEnqueued commit_request in
  writes commit_run.1.1 17 op /\ committer_step sample_executor (take 17 commit_run.1.1) op.
Proof.
  cbv zeta. assert (writes commit_run.1.1 17
    (OpEnqueueExecutor 999 ExecutorVerifiable ExecutorCommitTxEnqueued commit_request)) as E by (vm_compute; reflexivity).
  split; [exact E|].
  exact (committer_writes_justified sample_executor 2 _ _ _ _ _ _ _
    (run_split _ _ commit_run 17 _ commit_run_behaves E)).
Defined.

Lemma deliverer_writes_justified_witness :
  let op := OpEnqueueExecutor 999 ExecutorExecutable ExecutorLzReceiveTxEnqueued deliver_request in
  writes deliver_run.1.1 12 op /\ deliverer_step sample_executor (take 12 deliver_run.1.1) op.
Proof.
  cbv zeta. assert (writes deliver_run.1.1 12
    (OpEnqueueExecutor 999 ExecutorExecutable ExecutorLzReceiveTxEnqueued deliver_request)) as E by (vm_compute; reflexivity).
  split; [exact E|].
  exact (deliverer_writes_justified sample_executor 2 _ _ _ _ _ _ _
    (run_split _ _ deliver_run 12 _ deliver_run_behaves E)).
Defined.

Lemma dvn_writes_justified_witness :
  (exists request result, op_at dvn_run.1.1 23 = OpEnqueueDVN 999 DVNReadyToVerify DVNVerifyTxEnqueued request result) /\
  dvn_write sample_dvn (take 23 dvn_run.1.1) (op_at dvn_run.1.1 23).
Proof.
  assert (writes dvn_run.1.1 23 (op_at dvn_run.1.1 23)) as E by (vm_compute; reflexivity).
  split; [eexists _, _; vm_compute; reflexivity|].
  exact (dvn_writes_justified sample_dvn 3 _ _ _ _ _ _ _
    (run_split _ _ dvn_run 23 _ dvn_run_behaves E)).
Defined.


Lemma window_of_spec_witness : window_of source_indexer None 195 = inl (1, 195) /\ 195 - 1 + 1 <= 500.
Proof.
  pose proof (window_of_spec source_indexer None 195) as Hw.
  assert (window_of source_indexer None 195 = inl (1, 195)) as E by (vm_compute; reflexivity).
  rewrite E in Hw. destruct Hw as (_ & _ & Hb & _); [unfold is_u64; lia|lia|vm_compute; split; [discriminate|reflexivity]|vm_compute; discriminate|].
  split; [exact E|]. apply Hb. vm_compute. reflexivity.
Defined.

Lemma window_chunks_tile_witness : (window_chunks source_indexer 1 195 ≫= blocks) = blocks (1, 195).
Proof.
  apply (window_chunks_tile source_indexer 1 195); [vm_compute; split; [discriminate|reflexivity]|lia|lia].
Defined.

Lemma packet_route_agrees_witness :
  k_SrcTxHash world_packet = 700 /\
  exists nonce, k_Nonce world_packet = Some nonce /\ 0 < nonce < 2 ^ 64 /\ Validate world_packet = Ok nonce.
Proof.
  destruct (packet_route_agrees (world_log 101000 [901] sample_packet_bytes 100 700 4) world_packet)
    as (event & He & Hr & _ & Hv); [vm_compute; reflexivity|]. split; [exact (rd_tx _ _ _ Hr)|].
  vm_compute in He. injection He as <-. apply Hv; vm_compute; discriminate.
Defined.

Definition sample_decoded : list ExecutorSourceTxRecords :=
  match decodeExecutorSourceTxLogs sample_source_logs with Ok (r, _) => r | Err _ => [] end.
Definition sample_decoded_dvn : list DVNSourceTxRecords :=
  match decodeDVNSourceTxLogsForEndpoint sample_source_logs 101000 with Ok (r, _) => r | Err _ => [] end.

Lemma source_assignments_conserved_witness :
  (length sample_decoded = 1%nat /\ length sample_decoded_dvn = 1%nat) /\
  conserved ExecutorJobAssignedTopic ExecutorFeePaidTopic executor_made executor_gap_made sample_source_logs sample_decoded [] /\
  conserved DVNJobAssignedTopic DVNFeePaidTopic dvn_made dvn_gap_made sample_source_logs sample_decoded_dvn [].
Proof.
  split; [vm_compute; split; reflexivity|].
  apply (source_assignments_conserved sample_source_logs 101000 sample_decoded [] sample_decoded_dvn []);
    vm_compute; reflexivity.
Defined.

(** ** A packet without jobs and with tombstones

    The packet was stored through one role and skipped by both: the executor's log is skipped, but
    the DVN's stays pending, and with it the cursor of its stream. *)

Definition tombstoned_tables : DB :=
  run [ (OpUpsertPacket world_packet, 30);
        (OpRecordSkip (skip_of RoleExecutor world_packet "unexpected_worker" 43), 30);
        (OpRecordSkip (skip_of RoleDVN world_packet "unexpected_worker" 43), 30) ] empty_tables.
Definition delivered_log : Log := world_log 102000 [903] [] 150 701 0.
Definition payload_verified_log : Log := world_log 32 [909] (k_PacketHeader world_packet) 149 702 0.

Lemma tombstone_asymmetry :
  (simulate (executorDestinationLog 102 [sample_pathway] 61 delivered_log) world_env (sample_world 0)
     tombstoned_tables).2 = Ok Skipped /\
  (simulate (dvnDestinationLog 102 [sample_pathway] payload_verified_log) world_env (sample_world 0)
     tombstoned_tables).2 = Ok Pending.
Proof. vm_compute. split; reflexivity. Qed.
