(* ===== verification/PriceMath.v ===== *)
(** * Price arithmetic and policies (go/internal/pricing/pricing.go)

    The pure part of the price bot: conversions between native tokens, deviations in basis
    points, snapshots and their calldata, fee models, the settings' checks and the source
    selection policy. A *big.Rat is an [option Q] ([None]: nil), a time a count of
    nanoseconds since the Unix epoch, a duration a count of nanoseconds. *)

From S2P Require Import Prelude BigUtil Schema Outbox Attempts Registry.
From stdpp Require Import base gmap list strings numbers pretty sorting.
From Stdlib Require Import ZArith QArith Qround Qabs Qminmax Lqa Lia.
#[local] Open Scope Z_scope.

(** ** Rationals *)

Definition CloneRat (value : option Q) : option Q := value.

(** Num and Denom of the value in lowest terms. *)
Definition ratParts (q : Q) : Z * Z := (Qnum (Qred q), Zpos (Qden (Qred q))).
Definition ceilRat (q : Q) : Z := default 0 (CeilRat (Some (ratParts q))).
Definition ratSign (q : Q) : Z := Z.sgn (Qnum q).

(** A nil value or one whose Sign is not positive. *)
Definition notPositiveRat (q : option Q) : Prop := match q with Some q => ratSign q <= 0 | None => True end.
Definition notPositive (z : option Z) : Prop := match z with Some z => z <= 0 | None => True end.
Definition negativeOrNil (z : option Z) : Prop := match z with Some z => z < 0 | None => True end.
#[export] Instance notPositiveRat_dec q : Decision (notPositiveRat q).
Proof. destruct q; apply _. Defined.
#[export] Instance notPositive_dec z : Decision (notPositive z).
Proof. destruct z; apply _. Defined.
#[export] Instance negativeOrNil_dec z : Decision (negativeOrNil z).
Proof. destruct z; apply _. Defined.

Definition maxUint64 : Z := 2 ^ 64 - 1.
Definition maxUint256 : Z := 2 ^ 256 - 1.

(** [if !bps.IsUint64() { return ^uint64(0) }; return bps.Uint64()] *)
Definition saturateUint64 (bps : Z) : Z := if decide (0 <= bps < 2 ^ 64) then bps else maxUint64.

(** ** Basis points *)

Definition GasIncreaseBps (previous current : option Z) : Z :=
  match previous, current with
  | Some p, Some c =>
    if decide (p <= 0 \/ c <= 0) then maxUint64 else
    if decide (c <= p) then 0 else
    let ratio := (inject_Z (c - p) / inject_Z p)%Q in
    saturateUint64 (ceilRat (ratio * inject_Z 10000)%Q)
  | _, _ => maxUint64
  end.

Definition PriceChangeBps (previous current : option Z) : Z :=
  match previous, current with
  | Some p, Some c =>
    if decide (p <= 0 \/ c <= 0) then maxUint64 else
    let diff := c - p in
    let diff := if decide (diff < 0) then - diff else diff in
    saturateUint64 (Z.quot (diff * 10000) p)
  | _, _ => maxUint64
  end.

Definition DeviationBps (left right : option Q) : Z :=
  match left, right with
  | Some l, Some r =>
    if decide (ratSign l <= 0 \/ ratSign r <= 0) then maxUint64 else
    let diff := (l - r)%Q in
    let diff := if decide (ratSign diff < 0) then (- diff)%Q else diff in
    let diff := (diff * inject_Z 10000)%Q in
    let denominator := if decide ((r ?= l)%Q = Lt) then r else l in
    saturateUint64 (ceilRat (diff / denominator)%Q)
  | _, _ => maxUint64
  end.

(** SetInt, Mul by the destination price, Quo by the source price. *)
Definition weiInSrc (dstWei : option Z) (srcNativeUSD dstNativeUSD : option Q) : Q :=
  (inject_Z (default 0%Z dstWei) * default 0 dstNativeUSD / default 0 srcNativeUSD)%Q.

Definition ConvertDstWeiToSrcWei (dstWei : option Z) (srcNativeUSD dstNativeUSD : option Q)
    : result string Z :=
  check ~ negativeOrNil dstWei or "destination wei must be non-negative"%string ;;
  check ~ notPositiveRat srcNativeUSD or "source native USD price must be positive"%string ;;
  check ~ notPositiveRat dstNativeUSD or "destination native USD price must be positive"%string ;;
  Ok (ceilRat (weiInSrc dstWei srcNativeUSD dstNativeUSD)).

(** ** Snapshots *)

Definition MaxPriceSnapshotStaleAfterSeconds : Z := 24 * 60 * 60.
Definition MinPricingFreshnessMarginSeconds : Z := 600.

Record PriceInputs := mkPriceInputs {
  pi_SrcNativeUSD : option Q; pi_DstNativeUSD : option Q; pi_DstGasPriceWei : option Z;
  pi_DstDataFeePerByteWei : option Z; pi_UpdatedAtUnix : Z; pi_StaleAfterSeconds : Z }.

Record PriceSnapshot := mkPriceSnapshot {
  ps_DstGasPriceInSrcToken : option Z; ps_DstDataFeePerByteInSrcToken : option Z;
  ps_UpdatedAt : Z; ps_StaleAfter : Z }.
#[export] Instance PriceSnapshot_eq_dec : EqDecision PriceSnapshot.
Proof. solve_decision. Defined.

Record PriceSnapshotUpdate := mkSnapshotUpdate { su_DstEid : Z; su_Snapshot : PriceSnapshot }.
#[export] Instance PriceSnapshotUpdate_eq_dec : EqDecision PriceSnapshotUpdate.
Proof. solve_decision. Defined.

(** PriceSnapshot.Validate *)
Definition validateSnapshot (s : PriceSnapshot) : result string unit :=
  check ~ notPositive (ps_DstGasPriceInSrcToken s)
    or "price snapshot destination gas price must be positive"%string ;;
  check default 0 (ps_DstGasPriceInSrcToken s) <= maxUint256
    or "price snapshot destination gas price exceeds uint256"%string ;;
  check ~ negativeOrNil (ps_DstDataFeePerByteInSrcToken s)
    or "price snapshot destination data fee per byte must be non-negative"%string ;;
  check default 0 (ps_DstDataFeePerByteInSrcToken s) <= maxUint256
    or "price snapshot destination data fee per byte exceeds uint256"%string ;;
  check ps_UpdatedAt s <> 0 or "price snapshot updated_at is required"%string ;;
  check ps_StaleAfter s <> 0 or "price snapshot stale_after is required"%string ;;
  check ps_StaleAfter s <= MaxPriceSnapshotStaleAfterSeconds
    or ("price snapshot stale_after exceeds OpenPriceFeed maximum " +:+
        pretty MaxPriceSnapshotStaleAfterSeconds)%string ;;
  Ok tt.

Definition BuildPriceSnapshot (inputs : PriceInputs) : result string PriceSnapshot :=
  check ~ notPositiveRat (pi_SrcNativeUSD inputs)
    or "source native USD price must be positive"%string ;;
  check ~ notPositiveRat (pi_DstNativeUSD inputs)
    or "destination native USD price must be positive"%string ;;
  check ~ notPositive (pi_DstGasPriceWei inputs) or "destination gas price must be positive"%string ;;
  check ~ negativeOrNil (pi_DstDataFeePerByteWei inputs)
    or "destination data fee per byte must be non-negative"%string ;;
  check pi_UpdatedAtUnix inputs <> 0 or "updated_at is required"%string ;;
  check pi_StaleAfterSeconds inputs <> 0 or "stale_after is required"%string ;;
  check pi_StaleAfterSeconds inputs <= MaxPriceSnapshotStaleAfterSeconds
    or ("stale_after exceeds OpenPriceFeed maximum " +:+ pretty MaxPriceSnapshotStaleAfterSeconds)%string ;;
  let toSrc wei := weiInSrc wei (pi_SrcNativeUSD inputs) (pi_DstNativeUSD inputs) in
  let snapshot := mkPriceSnapshot (CeilRat (Some (ratParts (toSrc (pi_DstGasPriceWei inputs)))))
    (CeilRat (Some (ratParts (toSrc (pi_DstDataFeePerByteWei inputs)))))
    (pi_UpdatedAtUnix inputs) (pi_StaleAfterSeconds inputs) in
  match validateSnapshot snapshot with
  | Err e => Err e
  | Ok _ => Ok snapshot
  end.

(** ** The settings and fee models *)

Record Settings := mkSettings {
  st_Enabled : bool; st_SignerID : string; st_Interval : Z; st_StaleAfter : Z;
  st_MaxDeviation : Z; st_MinUpdateDeviation : Z; st_Heartbeat : Z;
  st_SourceRequestTimeout : Z; st_GasSpikeBps : Z }.

(** time.Duration(config.MaxPriceSnapshotStaleAfterSeconds)*time.Second *)
Definition maxStaleAfter : Z := secondsDuration MaxPriceSnapshotStaleAfterSeconds.
Definition minFreshnessMargin : Z := secondsDuration MinPricingFreshnessMarginSeconds.

(** Settings.Validate; the differences of durations are int64. *)
Definition validateSettings (s : Settings) : result string unit :=
  if negb (st_Enabled s) then Ok tt else
  check st_SignerID s <> ""%string or "pricing signer id is required"%string ;;
  check 0 < st_Interval s or "pricing interval must be positive"%string ;;
  check 0 < st_StaleAfter s or "pricing stale_after must be positive"%string ;;
  check st_StaleAfter s <= maxStaleAfter
    or "pricing stale_after exceeds OpenPriceFeed maximum 24h0m0s"%string ;;
  check st_MaxDeviation s <> 0 or "pricing max deviation bps is required"%string ;;
  check ~ (st_MinUpdateDeviation s = 0 \/ 10000 < st_MinUpdateDeviation s)
    or "pricing min update deviation bps must be between 1 and 10000"%string ;;
  check 0 < st_Heartbeat s or "pricing heartbeat must be positive"%string ;;
  check st_Heartbeat s < st_StaleAfter s or "pricing heartbeat must be less than stale_after"%string ;;
  check st_Interval s < int64_wrap (st_StaleAfter s - st_Heartbeat s)
    or "pricing heartbeat plus interval must be less than stale_after"%string ;;
  check minFreshnessMargin <= int64_wrap (int64_wrap (st_StaleAfter s - st_Heartbeat s) - st_Interval s)
    or ("pricing stale_after must exceed heartbeat plus interval by at least " +:+
        pretty MinPricingFreshnessMarginSeconds +:+ " seconds")%string ;;
  check 0 < st_SourceRequestTimeout s or "pricing source request timeout must be positive"%string ;;
  check st_GasSpikeBps s <> 0 or "pricing gas spike bps is required"%string ;;
  Ok tt.

Record FeeModel := mkWorkerFee {
  wf_FixedFee : option Z; wf_DstGasOverhead : Z; wf_DataSizeOverheadBytes : Z; wf_MarginBps : Z }.

(** FeeModel.Validate *)
Definition validateFeeModel (m : FeeModel) (prefix : string) : result string unit :=
  check ~ negativeOrNil (wf_FixedFee m) or (prefix +:+ " fixed fee must be non-negative")%string ;;
  check wf_MarginBps m <= 10000 or (prefix +:+ " margin bps exceeds 10000")%string ;;
  Ok tt.

Definition feeModelFromConfig (cfg : WorkerFeeModelConfig) : result string FeeModel :=
  check FixedFeeWei cfg <> ""%string or "fixed_fee_wei is required"%string ;;
  match ParseNonNegativeDecimal "fixed_fee_wei" (FixedFeeWei cfg) with
  | Err _ => Err "fixed_fee_wei must be a non-negative integer"%string
  | Ok fixedFee =>
    match DataSizeOverheadBytes cfg with
    | None => Err "data_size_overhead_bytes is required"%string
    | Some overhead =>
      let model := mkWorkerFee (Some fixedFee) (DstGasOverhead cfg) overhead (MarginBps cfg) in
      match validateFeeModel model "fee model" with Err e => Err e | Ok _ => Ok model end
    end
  end.

(** The values of the big integers, as Cmp compares them. *)
Definition feeModelsEqual (left right : FeeModel) : bool :=
  bool_decide (wf_FixedFee left = wf_FixedFee right) &&
  bool_decide (wf_DstGasOverhead left = wf_DstGasOverhead right) &&
  bool_decide (wf_DataSizeOverheadBytes left = wf_DataSizeOverheadBytes right) &&
  bool_decide (wf_MarginBps left = wf_MarginBps right).

(** ** Facts *)

Lemma ratSign_pos q : 0 < ratSign q <-> (0 < q)%Q.
Proof. unfold ratSign, Qlt. cbn. lia. Qed.

Lemma ratSign_neg q : ratSign q < 0 <-> (q < 0)%Q.
Proof. unfold ratSign, Qlt. cbn. lia. Qed.

Lemma CeilRat_ceiling q : CeilRat (Some (ratParts q)) = Some (Qceiling q).
Proof.
  destruct (CeilRat_least (Qnum (Qred q)) (Zpos (Qden (Qred q))) ltac:(lia)) as (c & E & Hc).
  unfold ratParts. rewrite E. f_equal.
  rewrite <- (Qceiling_comp _ _ (Qred_correct q)). destruct (Qred q) as [n d]. cbn in Hc |- *.
  unfold Qceiling, Qfloor, Qopp. cbn.
  rewrite <- (Z.div_unique_pos (- n) (Zpos d) (- c) (c * Zpos d - n)); lia.
Qed.

Lemma ceilRat_ceiling q : ceilRat q = Qceiling q.
Proof. unfold ceilRat. by rewrite CeilRat_ceiling. Qed.

Lemma inject_le x y : (inject_Z x <= inject_Z y)%Q <-> x <= y.
Proof. by rewrite Zle_Qle. Qed.
Lemma inject_lt x y : (inject_Z x < inject_Z y)%Q <-> x < y.
Proof. by rewrite Zlt_Qlt. Qed.

Lemma Qceiling_le_iff q z : Qceiling q <= z <-> (q <= inject_Z z)%Q.
Proof.
  split.
  - intros H. eapply Qle_trans; [apply Qle_ceiling|]. by rewrite <- Zle_Qle.
  - intros H. rewrite <- (Qceiling_Z z). by apply Qceiling_resp_le.
Qed.

Lemma saturateUint64_le b m : 0 <= b -> m < maxUint64 -> saturateUint64 b <= m <-> b <= m.
Proof. unfold saturateUint64, maxUint64. case_decide; lia. Qed.

Lemma saturateUint64_ge b m : 0 <= b -> m <= maxUint64 -> m <= saturateUint64 b <-> m <= b.
Proof. unfold saturateUint64, maxUint64. case_decide; lia. Qed.

Lemma Qceiling_nonneg q : (0 <= q)%Q -> 0 <= Qceiling q.
Proof. intros H. rewrite <- (Qceiling_Z 0). by apply Qceiling_resp_le. Qed.

Lemma distance_Qabs q : ((if decide (ratSign q < 0)%Z then - q else q) == Qabs q)%Q.
Proof.
  case_decide as Hs; rewrite ratSign_neg in Hs; symmetry; [apply Qabs_neg|apply Qabs_pos]; lra.
Qed.

Lemma smaller_Qmin l r : ((if decide ((r ?= l)%Q = Lt) then r else l) == Qmin l r)%Q.
Proof.
  case_decide as Hs; rewrite <- Qlt_alt in Hs; symmetry; [apply Q.min_r|apply Q.min_l]; lra.
Qed.

Lemma Qdiv_le_iff a b c : (0 < b)%Q -> (a / b <= c <-> a <= c * b)%Q.
Proof.
  intros Hb. split; intros H; [|by apply Qle_shift_div_r].
  assert (a == a / b * b)%Q as E by (field; lra). rewrite E. apply Qmult_le_compat_r; lra.
Qed.

(** Two positive prices deviate by at most [m] basis points, as the selection policy
    computes it, exactly when ten thousand times their distance is at most [m] times the
    smaller of them: rounding is never in favour of acceptance, and the order of the two does
    not matter. *)
Lemma DeviationBps_spec l r m : (0 < l)%Q -> (0 < r)%Q -> m < maxUint64 ->
  DeviationBps (Some l) (Some r) <= m <-> (Qabs (l - r) * 10000 <= inject_Z m * Qmin l r)%Q.
Proof.
  intros Hl Hr Hm. unfold DeviationBps.
  rewrite decide_False by (apply ratSign_pos in Hl, Hr; lia).
  assert (0 < Qmin l r)%Q as Hmin by (by apply Q.min_glb_lt).
  pose proof (Qabs_nonneg (l - r)) as Habs.
  rewrite ceilRat_ceiling, (distance_Qabs (l - r)), (smaller_Qmin l r).
  rewrite saturateUint64_le, Qceiling_le_iff, Qdiv_le_iff; [done|done| |done].
  apply Qceiling_nonneg, Qle_shift_div_l; [done|]. change (inject_Z 10000) with 10000%Q. lra.
Qed.

(** A written price is at least [m] basis points away from the previous one, as the write
    gate computes it, exactly when ten thousand times the change is at least [m] times the
    previous price. *)
Theorem PriceChangeBps_spec p c m : 0 < p -> 0 < c -> m <= maxUint64 ->
  m <= PriceChangeBps (Some p) (Some c) <-> m * p <= Z.abs (c - p) * 10000.
Proof.
  intros Hp Hc Hm. unfold PriceChangeBps. rewrite decide_False by lia.
  assert ((if decide (c - p < 0) then - (c - p) else c - p) = Z.abs (c - p)) as -> by (case_decide; lia).
  pose proof (Z.abs_nonneg (c - p)) as Ha. rewrite Z.quot_div_nonneg by lia.
  rewrite saturateUint64_ge; [|by apply Z.div_pos; lia|done].
  split; [intros H|intros H; apply Z.div_le_lower_bound; lia].
  pose proof (Z.mul_div_le (Z.abs (c - p) * 10000) p Hp). nia.
Qed.

(** A gas price below the spike threshold [m] has risen by at most [m - 1] basis points. *)
Lemma GasIncreaseBps_below p c m : 0 < p -> 0 < c -> 0 < m <= maxUint64 ->
  GasIncreaseBps (Some p) (Some c) < m <-> (c - p) * 10000 <= (m - 1) * p.
Proof.
  intros Hp Hc Hm. unfold GasIncreaseBps. rewrite decide_False by lia.
  case_decide as Hle; [split; nia|].
  transitivity (saturateUint64 (ceilRat (inject_Z (c - p) / inject_Z p * inject_Z 10000)) <= m - 1); [lia|].
  rewrite ceilRat_ceiling. assert (0 < inject_Z p)%Q as HQ by (by apply (inject_lt 0)).
  assert (inject_Z (c - p) / inject_Z p * inject_Z 10000 == inject_Z ((c - p) * 10000) / inject_Z p)%Q as ->.
  { rewrite inject_Z_mult. field. lra. }
  rewrite saturateUint64_le, Qceiling_le_iff, Qdiv_le_iff, <- inject_Z_mult, <- Zle_Qle; [done|done| |lia].
  apply Qceiling_nonneg, Qle_shift_div_l; [done|]. rewrite Qmult_0_l. apply (inject_le 0). lia.
Qed.

(** The converted amount: at least the exact value, and less than one unit above it. *)
Definition covers (dstWei srcWei : Z) (src dst : Q) : Prop :=
  (inject_Z dstWei * dst <= inject_Z srcWei * src)%Q /\
  (inject_Z srcWei * src < inject_Z dstWei * dst + src)%Q.

Lemma ceil_covers wei src dst : (0 < src)%Q ->
  covers wei (Qceiling (weiInSrc (Some wei) (Some src) (Some dst))) src dst.
Proof.
  intros Hs. unfold covers, weiInSrc. cbn [default from_option id]. set (x := (inject_Z wei * dst)%Q).
  pose proof (Qle_ceiling (x / src)) as H1. pose proof (Qceiling_lt (x / src)) as H2.
  assert (x == x / src * src)%Q as E by (field; lra). fold x. clearbody x. generalize dependent (x / src)%Q.
  intros y H1 H2 E. rewrite E. split; [apply Qmult_le_compat_r; lra|].
  assert (inject_Z (Qceiling y - 1) == inject_Z (Qceiling y) - 1)%Q as E' by (unfold Z.sub; by rewrite inject_Z_plus).
  rewrite E' in H2. apply (Qmult_lt_compat_r _ _ src) in H2; lra.
Qed.

Lemma covers_pos wei w src dst : (0 < src)%Q -> (0 < dst)%Q -> covers wei w src dst ->
  (0 < wei -> 0 < w) /\ (0 <= wei -> 0 <= w).
Proof.
  intros Hs Hd [H1 H2]. split; intros Hw.
  - destruct (Z_lt_le_dec 0 w) as [|Hn]; [done|]. exfalso.
    apply (inject_lt 0) in Hw. apply (inject_le _ 0) in Hn. change (inject_Z 0) with 0%Q in *.
    apply (Qmult_lt_compat_r _ _ dst Hd) in Hw. apply (Qmult_le_compat_r _ _ src) in Hn; lra.
  - destruct (Z_lt_le_dec w 0) as [Hn|]; [|done]. exfalso. assert (w <= -1) as Hn' by lia.
    apply (inject_le 0) in Hw. apply (inject_le _ (-1)) in Hn'. change (inject_Z 0) with 0%Q in *.
    apply (Qmult_le_compat_r _ _ dst) in Hw; [|lra]. apply (Qmult_le_compat_r _ _ src) in Hn'; [|lra].
    change (inject_Z (-1)) with (-1)%Q in Hn'. lra.
Qed.

(** C36: a snapshot built from positive prices and gas never undercharges: the stored gas price
    and data fee, in source wei, are worth at least the destination amounts at the two USD
    prices and less than one wei more, and the build fails only when one of them does not fit
    a uint256. *)
Theorem BuildPriceSnapshot_spec src dst gas fee updatedAt staleAfter :
  (0 < src)%Q -> (0 < dst)%Q -> 0 < gas -> 0 <= fee -> updatedAt <> 0 ->
  0 < staleAfter <= MaxPriceSnapshotStaleAfterSeconds ->
  exists gas' fee', covers gas gas' src dst /\ covers fee fee' src dst /\ 0 < gas' /\ 0 <= fee' /\
  match BuildPriceSnapshot (mkPriceInputs (Some src) (Some dst) (Some gas) (Some fee) updatedAt staleAfter) with
  | Ok s => s = mkPriceSnapshot (Some gas') (Some fee') updatedAt staleAfter /\
            gas' <= maxUint256 /\ fee' <= maxUint256
  | Err _ => maxUint256 < gas' \/ maxUint256 < fee'
  end.
Proof.
  intros Hs Hd Hg Hf Hu Hst. pose proof (ceil_covers gas src dst Hs) as C1. pose proof (ceil_covers fee src dst Hs) as C2.
  eexists _, _. split; [exact C1|]. split; [exact C2|].
  destruct (covers_pos _ _ _ _ Hs Hd C1) as [P1 _]. destruct (covers_pos _ _ _ _ Hs Hd C2) as [_ P2].
  specialize (P1 Hg). specialize (P2 Hf). split; [done|]. split; [done|].
  apply ratSign_pos in Hs, Hd. unfold BuildPriceSnapshot, validateSnapshot.
  cbn [pi_SrcNativeUSD pi_DstNativeUSD pi_DstGasPriceWei pi_DstDataFeePerByteWei pi_UpdatedAtUnix pi_StaleAfterSeconds
       notPositiveRat notPositive negativeOrNil].
  rewrite !CeilRat_ceiling. cbn [ps_DstGasPriceInSrcToken ps_DstDataFeePerByteInSrcToken ps_UpdatedAt ps_StaleAfter
    notPositiveRat notPositive negativeOrNil default from_option id].
  repeat (case_decide; [|first [lia | by left; lia | by right; lia]]). done.
Qed.

(** What an enabled configuration must satisfy. *)
Definition settings_ok (s : Settings) : Prop :=
  st_SignerID s <> ""%string /\ 0 < st_Interval s /\ 0 < st_Heartbeat s /\
  st_StaleAfter s <= MaxPriceSnapshotStaleAfterSeconds * 1000000000 /\
  st_Heartbeat s + st_Interval s + MinPricingFreshnessMarginSeconds * 1000000000 <= st_StaleAfter s /\
  st_MaxDeviation s <> 0 /\ 1 <= st_MinUpdateDeviation s <= 10000 /\
  0 < st_SourceRequestTimeout s /\ st_GasSpikeBps s <> 0.

Definition is_int64 (z : Z) : Prop := - 2 ^ 63 <= z < 2 ^ 63.

Lemma int64_wrap_id z : is_int64 z -> int64_wrap z = z.
Proof. unfold is_int64, int64_wrap. intros. rewrite Z.mod_small; lia. Qed.

(** Enabled settings are accepted exactly when a signer, deviations and a timeout are given,
    the snapshot lifetime is within the contract's limit, and heartbeat and polling interval
    together leave the freshness margin of it, so that a pathway evaluated every interval is
    rewritten before its snapshot expires; the int64 differences never wrap. *)
Theorem validateSettings_spec s :
  st_Enabled s = true -> is_int64 (st_Interval s) -> is_int64 (st_StaleAfter s) -> is_int64 (st_Heartbeat s) ->
  0 <= st_MinUpdateDeviation s ->
  is_ok (validateSettings s) = true <-> settings_ok s.
Proof.
  intros Hen Hi Hst Hh Hmin. unfold validateSettings, settings_ok. rewrite Hen. cbn [negb].
  change maxStaleAfter with (MaxPriceSnapshotStaleAfterSeconds * 1000000000).
  change minFreshnessMargin with (MinPricingFreshnessMarginSeconds * 1000000000).
  unfold MaxPriceSnapshotStaleAfterSeconds, MinPricingFreshnessMarginSeconds, is_int64 in *.
  destruct (decide (0 < st_Interval s /\ 0 < st_StaleAfter s <= 24 * 60 * 60 * 1000000000 /\
                    0 < st_Heartbeat s < st_StaleAfter s)) as [H|H].
  - rewrite !int64_wrap_id by (unfold is_int64; try rewrite int64_wrap_id; unfold is_int64; lia).
    repeat (case_decide; [|split; [done|intros; tauto || lia]]). split; [intros _|done]. lia || naive_solver lia.
  - split; [|naive_solver lia]. repeat (case_decide; [|done]). naive_solver lia.
Qed.
