(* ===== verification/PriceSelect.v ===== *)
(** * Price source selection (ChainNativePrice of go/internal/pricing/pricing.go)

    One chain's USD price: every configured source is asked at once, the answers that arrive
    before the deadline are collected, the primary observation is validated and compared with
    every healthy sanity observation. The goroutines' answers are a list in order of arrival;
    the context's error stands for the ones that are late. *)

From S2P Require Import Prelude GoErr BigUtil Registry PriceMath.
From stdpp Require Import base gmap list strings numbers pretty.
From Stdlib Require Import ZArith QArith Qabs Qminmax Lqa Lia.
#[local] Open Scope Z_scope.

(** ** Times *)

(** time.Time{}, year one. *)
Definition zeroTime : Z := - 62135596800 * 1000000000.
(** time.Unix(sec, 0): seconds since year one are an int64. *)
Definition unixTime (sec : Z) : Z := (int64_wrap (sec + 62135596800) - 62135596800) * 1000000000.
(** Time.Sub saturates. *)
Definition timeSub (a b : Z) : Z := Z.max (- 2 ^ 63) (Z.min (2 ^ 63 - 1) (a - b)).
Definition timeUnix (t : Z) : Z := t `div` 1000000000.

Definition sourceFutureTolerance : Z := 30 * 1000000000.

(** ** Observations *)

Record SourcePrice := mkSourcePrice { sp_Source : string; sp_USD : option Q; sp_ObservedAt : Z }.

(** [cr_Reader]: the reader is not nil. *)
Record ConfiguredPriceReader := mkReader { cr_Name : string; cr_Reader : bool; cr_MaxAge : Z }.

Record ChainSources := mkChainSources {
  cs_Primary : ConfiguredPriceReader; cs_Sanity : list ConfiguredPriceReader; cs_Gas : bool;
  cs_DataFeePerByteWei : option Z; cs_NativeAssetID : string }.

Record PriceSourceFailure := mkFailure {
  pf_EID : Z; pf_Source : string; pf_Role : string; pf_Category : string;
  pf_DeviationBps : Z; pf_Err : goerr }.

Definition quoted (s : string) : string :=
  String (Ascii.ascii_of_N 34) (s +:+ String (Ascii.ascii_of_N 34) EmptyString).

Definition validateObservedPrice (source : ConfiguredPriceReader) (price : SourcePrice) (now : Z)
    : option goerr :=
  let name := cr_Name source in
  let fail msg := Some (errNew msg) in
  if decide (name = ""%string \/ cr_Reader source = false) then fail "price source is not configured" else
  if decide (cr_MaxAge source <= 0) then fail (name +:+ " max age must be positive") else
  if decide (sp_Source price = ""%string) then fail (name +:+ " returned missing source name") else
  if decide (sp_Source price <> name)
    then fail (name +:+ " returned unexpected source " +:+ quoted (sp_Source price)) else
  if decide (notPositiveRat (sp_USD price)) then fail (name +:+ " returned non-positive price") else
  if decide (sp_ObservedAt price = zeroTime) then fail (name +:+ " returned missing observation time") else
  if decide (now + sourceFutureTolerance < sp_ObservedAt price)
    then fail (name +:+ " observation time is too far in the future") else
  if decide (cr_MaxAge source < timeSub now (sp_ObservedAt price))
    then fail (name +:+ " observation is stale") else
  None.

Definition priceSourceFailureCategory (err : goerr) : string :=
  if errors_Is err DeadlineExceeded then "timeout" else
  if Contains (Error err) "stale" then "stale" else
  if Contains (Error err) "future" then "future" else
  if Contains (Error err) "non-positive" then "non_positive" else
  if Contains (Error err) "missing observation time" then "missing_time" else
  "unavailable".

(** ** Selection *)

Definition deviationError (primary sanity : SourcePrice) (deviation limit : Z) : goerr :=
  errNew ("price deviation between " +:+ sp_Source primary +:+ " and " +:+ sp_Source sanity +:+ " is " +:+
          pretty deviation +:+ " bps, exceeds limit " +:+ pretty limit +:+ " bps").

Fixpoint checkSanity (primary : SourcePrice) (sanityPrices : list SourcePrice) (maxDeviationBps : Z)
    : option goerr :=
  match sanityPrices with
  | [] => None
  | sanity :: rest =>
    if decide (notPositiveRat (sp_USD sanity))
      then Some (errNew ("sanity price source " +:+ sp_Source sanity +:+ " is unhealthy")) else
    let deviation := DeviationBps (sp_USD primary) (sp_USD sanity) in
    if decide (maxDeviationBps < deviation)
      then Some (deviationError primary sanity deviation maxDeviationBps) else
    checkSanity primary rest maxDeviationBps
  end.

Definition SelectPriceWithSanity (primary : SourcePrice) (sanityPrices : list SourcePrice)
    (maxDeviationBps : Z) : result goerr (option Q) :=
  if decide (notPositiveRat (sp_USD primary)) then Err (errNew "primary price source is unhealthy") else
  match checkSanity primary sanityPrices maxDeviationBps with
  | Some e => Err e
  | None => Ok (CloneRat (sp_USD primary))
  end.

Definition SelectPrice (primary sanity : SourcePrice) (maxDeviationBps : Z) : result goerr (option Q) :=
  SelectPriceWithSanity primary [sanity] maxDeviationBps.

(** ** One chain's sources *)

Definition answer := result goerr SourcePrice.

(** The checks on the configured readers: names and duplicates. *)
Fixpoint checkReaders (eid : Z) (configured : list ConfiguredPriceReader) (sourceNames : gset string)
    : option goerr :=
  match configured with
  | [] => None
  | source :: rest =>
    if decide (cr_Name source = ""%string \/ cr_Reader source = false)
      then Some (errNew ("pricing chain " +:+ pretty eid +:+ " contains an incomplete price source")) else
    if decide (cr_MaxAge source <= 0)
      then Some (errNew (cr_Name source +:+ " max age must be positive")) else
    if decide (cr_Name source ∈ sourceNames)
      then Some (errNew ("pricing chain " +:+ pretty eid +:+ " contains duplicate source " +:+ cr_Name source)) else
    checkReaders eid rest ({[cr_Name source]} ∪ sourceNames)
  end.

(** The select loop: answers in order of arrival, each with the index of its source, until
    every source has one or the context is done with [ctxErr]. *)
Fixpoint collect (configured : list ConfiguredPriceReader) (arrivals : list (nat * answer))
    (ctxErr : goerr) (completed : gmap string answer) : gmap string answer :=
  if decide (length configured <= size completed)%nat then completed else
  match arrivals with
  | [] =>
    fold_left (fun m source => match m !! cr_Name source with
                               | Some _ => m
                               | None => <[cr_Name source := Err ctxErr]> m
                               end) configured completed
  | (i, result) :: rest =>
    match configured !! i with
    | None => collect configured rest ctxErr completed
    | Some source =>
      match completed !! cr_Name source with
      | Some _ => collect configured rest ctxErr completed
      | None => collect configured rest ctxErr (<[cr_Name source := result]> completed)
      end
    end
  end.

(** completed[name], and its validation *)
Definition observed (completed : gmap string answer) (source : ConfiguredPriceReader) (now : Z) : answer :=
  match completed !! cr_Name source with
  | Some (Ok price) =>
    match validateObservedPrice source price now with Some e => Err e | None => Ok price end
  | Some (Err e) => Err e
  | None => match validateObservedPrice source (mkSourcePrice "" None zeroTime) now with
            | Some e => Err e | None => Ok (mkSourcePrice "" None zeroTime) end
  end.

Definition sanityErrorOf (source : string) (err : goerr) : goerr :=
  errWrap (source +:+ " sanity source: " +:+ Error err) err.

(** The loop over the sanity sources: the healthy prices and the failures. *)
Fixpoint splitSanity (completed : gmap string answer) (now : Z) (sanity : list ConfiguredPriceReader)
    : list SourcePrice * list (string * goerr) :=
  match sanity with
  | [] => ([], [])
  | source :: rest =>
    let '(prices, errs) := splitSanity completed now rest in
    match observed completed source now with
    | Ok price => (price :: prices, errs)
    | Err e => (prices, (cr_Name source, e) :: errs)
    end
  end.

(** The first sanity price beyond the limit, with the failure it reports. *)
Fixpoint deviating (eid : Z) (primary : SourcePrice) (sanityPrices : list SourcePrice) (limit : Z)
    : option PriceSourceFailure :=
  match sanityPrices with
  | [] => None
  | sanity :: rest =>
    let deviation := DeviationBps (sp_USD primary) (sp_USD sanity) in
    if decide (limit < deviation)
    then Some (mkFailure eid (sp_Source sanity) "sanity" "deviation" deviation
                 (deviationError primary sanity deviation limit))
    else deviating eid primary rest limit
  end.

(** From the collected answers to the price, with the failures reported on the way. *)
Definition selectFrom (eid : Z) (sources : ChainSources) (completed : gmap string answer) (now : Z)
    (maxDeviationBps : Z) : list PriceSourceFailure * result goerr (option Q) :=
  let '(sanityPrices, sanityErrs) := splitSanity completed now (cs_Sanity sources) in
  match observed completed (cs_Primary sources) now with
  | Err e =>
    ([mkFailure eid (cr_Name (cs_Primary sources)) "primary" (priceSourceFailureCategory e) 0 e],
     Err (errWrap (cr_Name (cs_Primary sources) +:+ " primary source for chain " +:+ pretty eid +:+ ": " +:+
                   Error e) e))
  | Ok primary =>
    let reported := (fun x => mkFailure eid x.1 "sanity" (priceSourceFailureCategory x.2) 0 x.2) <$> sanityErrs in
    if decide (cs_Sanity sources <> [] /\ sanityPrices = []) then
      let err := errNew ("no healthy sanity price source for chain " +:+ pretty eid) in
      (reported, Err (if decide (sanityErrs = []) then err
                      else errJoin (err :: ((fun x => sanityErrorOf x.1 x.2) <$> sanityErrs))))
    else
      match deviating eid primary sanityPrices maxDeviationBps with
      | Some failure => (reported ++ [failure], Err (pf_Err failure))
      | None => (reported, SelectPriceWithSanity primary sanityPrices maxDeviationBps)
      end
  end.

(** The checks before any request. *)
Definition checkSources (sources : gmap Z ChainSources) (eid : Z) (timeout : Z) : result goerr ChainSources :=
  match sources !! eid with
  | None => Err (errNew ("pricing sources for chain " +:+ pretty eid +:+ " are not configured"))
  | Some cs =>
    if decide (cr_Reader (cs_Primary cs) = false)
      then Err (errNew ("primary price source for chain " +:+ pretty eid +:+ " is not configured")) else
    if decide (timeout <= 0) then Err (errNew "price source request timeout must be positive") else
    match checkReaders eid (cs_Primary cs :: cs_Sanity cs) ∅ with
    | Some e => Err e
    | None => Ok cs
    end
  end.

(** ** Facts *)

(** A positive price under the source's own name, observed neither too long ago nor in the
    future. *)
Definition valid_price (source : ConfiguredPriceReader) (price : SourcePrice) (now : Z) (q : Q) : Prop :=
  cr_Name source <> ""%string /\ cr_Reader source = true /\ 0 < cr_MaxAge source /\
  sp_Source price = cr_Name source /\ (sp_USD price = Some q /\ (0 < q)%Q) /\
  sp_ObservedAt price <> zeroTime /\ sp_ObservedAt price <= now + sourceFutureTolerance /\
  timeSub now (sp_ObservedAt price) <= cr_MaxAge source.

(** The source answered in time, with such a price. *)
Definition healthy (completed : gmap string answer) (source : ConfiguredPriceReader) (now : Z)
    (price : SourcePrice) (q : Q) : Prop :=
  completed !! cr_Name source = Some (Ok price) /\ valid_price source price now q.

Lemma healthy_usd completed source now p q : healthy completed source now p q -> sp_USD p = Some q.
Proof. by intros (_ & _ & _ & _ & _ & [? _] & _). Qed.
Lemma healthy_pos completed source now p q : healthy completed source now p q -> (0 < q)%Q.
Proof. by intros (_ & _ & _ & _ & _ & [_ ?] & _). Qed.

Lemma notPositiveRat_Some q : ~ notPositiveRat q <-> exists r, q = Some r /\ (0 < r)%Q.
Proof.
  destruct q as [q|]; cbn; [|naive_solver]. setoid_rewrite <- ratSign_pos. split; [|naive_solver lia].
  intros H. exists q. split; [done|lia].
Qed.

Lemma validateObservedPrice_None source price now :
  validateObservedPrice source price now = None <-> exists q, valid_price source price now q.
Proof.
  unfold validateObservedPrice, valid_price.
  destruct (decide (cr_Name source = ""%string \/ cr_Reader source = false)) as [H|H].
  { split; [done|]. intros (q & Hn & Hr & _). destruct H; congruence. }
  destruct (cr_Reader source); [|tauto].
  case_decide; [split; [done|intros (q & ?); lia]|].
  case_decide as Hs; [split; [done|intros (q & ? & _ & _ & ? & _); congruence]|].
  destruct (decide (sp_Source price <> cr_Name source)) as [Hne|Heq%dec_stable]; [split; [done|intros (q & ?); tauto]|].
  case_decide as Hp; [split; [done|intros (q & _ & _ & _ & _ & Hq & _)];
    exfalso; by apply (proj2 (notPositiveRat_Some _) (ex_intro _ q Hq))|].
  do 3 (case_decide; [split; [done|intros (q & ?); tauto || lia]|]). split; [intros _|done].
  apply notPositiveRat_Some in Hp as (q & Hq). exists q. split_and!; tauto || lia.
Qed.

Lemma observed_Ok completed source now price :
  observed completed source now = Ok price <-> exists q, healthy completed source now price q.
Proof.
  assert (forall p, match validateObservedPrice source p now with Some e => Err e | None => Ok p end = Ok price <->
                    p = price /\ exists q, valid_price source price now q) as Hv.
  { intros p. rewrite <- validateObservedPrice_None. split; [|by intros [-> ->]]. destruct (validateObservedPrice source p now) eqn:E; [done|]. by intros [= ->]. }
  unfold observed, healthy. destruct (completed !! cr_Name source) as [[p|e]|] eqn:E.
  - rewrite Hv. split; [intros [-> [q Hq]]; eauto|]. intros (q & [= ->] & Hq). eauto.
  - split; [done|]. by intros (q & ? & _).
  - rewrite Hv. split; [|by intros (q & ? & _)]. intros [<- (q & _ & _ & _ & _ & [? _] & _)]. done.
Qed.

Lemma splitSanity_prices completed now sanity p :
  p ∈ (splitSanity completed now sanity).1 <->
  exists source q, source ∈ sanity /\ healthy completed source now p q.
Proof.
  induction sanity as [|s l IH]; cbn [splitSanity].
  { split; [by intros ?%not_elem_of_nil|]. intros (? & ? & ?%not_elem_of_nil & _). done. }
  destruct (splitSanity completed now l) as [prices errs]. cbn [fst] in IH.
  destruct (observed completed s now) as [p'|e] eqn:E.
  - cbn [fst]. rewrite elem_of_cons, IH. apply observed_Ok in E as [q Hq]. split.
    + intros [-> | (s' & q' & Hs & Hh)]; [exists s, q|exists s', q']; (split; [|done]); set_solver.
    + intros (s' & q' & [-> | Hs]%elem_of_cons & Hh); [|naive_solver].
      left. destruct Hq as [Hq _]. destruct Hh as [Hh _]. congruence.
  - cbn [fst]. rewrite IH. split; intros (s' & q' & Hs & Hh); exists s', q'; (split; [|done]).
    + set_solver.
    + apply elem_of_cons in Hs as [-> | Hs]; [|done]. exfalso.
      rewrite (proj2 (observed_Ok _ _ _ p)) in E; [done|by exists q'].
Qed.

Lemma checkSanity_deviating eid primary prices m :
  Forall (fun p => ~ notPositiveRat (sp_USD p)) prices -> deviating eid primary prices m = None ->
  checkSanity primary prices m = None.
Proof.
  induction 1 as [|p l Hp _ IH]; [done|]. cbn. rewrite (decide_False (P := notPositiveRat _)) by done.
  case_decide; [done|auto].
Qed.

Lemma deviating_None eid primary prices m :
  deviating eid primary prices m = None <-> Forall (fun p => DeviationBps (sp_USD primary) (sp_USD p) <= m) prices.
Proof.
  induction prices as [|p l IH]; [by cbn|]. cbn. rewrite Forall_cons, <- IH. case_decide; [|naive_solver lia].
  split; [done|lia].
Qed.

(** The chain is priced at q: its primary source is healthy at q, some sanity source is healthy
    if any is configured, and every healthy sanity price is within the allowed deviation. *)
Definition priced (sources : ChainSources) (completed : gmap string answer) (now m : Z) (q : Q) : Prop :=
  (exists p, healthy completed (cs_Primary sources) now p q) /\
  (cs_Sanity sources = [] \/ exists s p q', s ∈ cs_Sanity sources /\ healthy completed s now p q') /\
  (forall s p q', s ∈ cs_Sanity sources -> healthy completed s now p q' ->
     (Qabs (q - q') * 10000 <= inject_Z m * Qmin q q')%Q).

Lemma selectFrom_Some eid sources completed now m q : m < maxUint64 ->
  (selectFrom eid sources completed now m).2 = Ok (Some q) <-> priced sources completed now m q.
Proof.
  intros Hm. unfold priced, selectFrom. pose proof (splitSanity_prices completed now (cs_Sanity sources)) as Hin.
  destruct (splitSanity _ _ _) as [prices errs]. cbn [fst] in Hin.
  destruct (observed completed (cs_Primary sources) now) as [primary|e] eqn:Ho; cbn [snd]; last first.
  { split; [done|]. intros ([p Hp] & _). rewrite (proj2 (observed_Ok _ _ _ p)) in Ho; [done|by exists q]. }
  apply observed_Ok in Ho as [q0 Hq0].
  assert ((exists p, healthy completed (cs_Primary sources) now p q) <-> q0 = q) as ->.
  { split; [|intros <-; eauto]. intros [p Hp].
    pose proof (healthy_usd _ _ _ _ _ Hp). pose proof (healthy_usd _ _ _ _ _ Hq0). destruct Hp as [Hp _], Hq0 as [Hq0 _].
    congruence. }
  assert ((cs_Sanity sources = [] \/ exists s p q', s ∈ cs_Sanity sources /\ healthy completed s now p q') <->
          (cs_Sanity sources = [] \/ prices <> [])) as ->.
  { apply or_iff_compat_l. split; [intros (s & p & q' & Hs & Hh)|].
    - intros ->. apply (not_elem_of_nil p), Hin. eauto.
    - intros Hne. destruct prices as [|p l]; [done|]. destruct (proj1 (Hin p)) as (s & q' & ?); [set_solver|eauto]. }
  destruct (decide (cs_Sanity sources <> [] /\ prices = [])) as [Hd|Hd]; cbn [snd].
  { split; [done|]. intros (_ & H & _). tauto. }
  assert (Forall (fun p => ~ notPositiveRat (sp_USD p)) prices) as Hpos.
  { apply Forall_forall. intros p (s & q' & Hs & Hh)%Hin. apply notPositiveRat_Some. exists q'.
    eauto using healthy_usd, healthy_pos. }
  assert (sp_USD primary = Some q0 /\ (0 < q0)%Q) as [EU Hq] by eauto using healthy_usd, healthy_pos.
  assert (deviating eid primary prices m = None <->
    forall s p q', s ∈ cs_Sanity sources -> healthy completed s now p q' ->
     (Qabs (q0 - q') * 10000 <= inject_Z m * Qmin q0 q')%Q) as Hdev.
  { rewrite deviating_None, Forall_forall. split.
    - intros H s p q' Hs Hh. apply DeviationBps_spec; [done|by eapply healthy_pos|done|]. rewrite <- EU.
      rewrite <- (healthy_usd _ _ _ _ _ Hh). apply H, Hin. eauto.
    - intros H p (s & q' & Hs & Hh)%Hin. rewrite EU, (healthy_usd _ _ _ _ _ Hh).
      apply DeviationBps_spec; [done|by eapply healthy_pos|done|]. by eapply H. }
  destruct (deviating eid primary prices m) as [f|] eqn:Ed; cbn [snd].
  { split; [done|]. intros (-> & _ & H). apply Hdev in H. done. }
  unfold SelectPriceWithSanity. rewrite decide_False, (checkSanity_deviating eid _ _ _ Hpos Ed);
    [|rewrite notPositiveRat_Some; eauto]. unfold CloneRat. rewrite EU.
  assert (cs_Sanity sources = [] \/ prices <> []) as Hs.
  { destruct (cs_Sanity sources); [by left|right]. naive_solver. }
  split; [|naive_solver]. intros [= ->]. split; [done|]. split; [done|]. by apply Hdev.
Qed.

(** A selection that succeeds has a price: a source without one is not healthy. *)
Lemma selectFrom_not_None eid sources completed now m :
  (selectFrom eid sources completed now m).2 <> Ok None.
Proof.
  unfold selectFrom. destruct (splitSanity _ _ _) as [prices errs].
  destruct (observed _ _ _); [|done]. case_decide; [done|]. destruct (deviating _ _ _ _); [done|]. cbn.
  unfold SelectPriceWithSanity. case_decide as Hp; [done|]. destruct (checkSanity _ _ _); [done|].
  apply notPositiveRat_Some in Hp as (q & -> & _). done.
Qed.

(** C35: a chain has a price exactly when its primary source is healthy, some sanity source is
    healthy if any is configured, and every healthy sanity price is within the allowed
    deviation of the primary (computed exactly, not rounded). The price is then the primary's:
    no sanity observation replaces it; and exactly in every other case the selection is an
    error. The allowed deviation is below 2^64 - 1, the value the code's bps saturate at. *)
Theorem selectFrom_spec eid sources completed now m : m < maxUint64 ->
  (forall q, (selectFrom eid sources completed now m).2 = Ok (Some q) <-> priced sources completed now m q) /\
  ((exists e, (selectFrom eid sources completed now m).2 = Err e) <-> ~ exists q, priced sources completed now m q).
Proof.
  intros Hm. pose proof (fun q => selectFrom_Some eid sources completed now m q Hm) as Hs. split; [exact Hs|].
  pose proof (selectFrom_not_None eid sources completed now m) as Hn.
  destruct (selectFrom eid sources completed now m).2 as [[q|]|e]; [|done|].
  - split; [by intros [e ?]|]. intros Hno. destruct Hno. exists q. by apply Hs.
  - split; [|by exists e]. intros _ [q Hq%Hs]. done.
Qed.

(** An accepted answer arrived from the source of that name. *)
Lemma collect_arrived configured arrivals ctxErr completed name p :
  collect configured arrivals ctxErr completed !! name = Some (Ok p) ->
  completed !! name = Some (Ok p) \/
  exists i source, (i, Ok p) ∈ arrivals /\ configured !! i = Some source /\ cr_Name source = name.
Proof.
  revert completed. induction arrivals as [|[i r] l IH]; intros completed; cbn [collect].
  - case_decide; [by left|]. intros Hf. left. clear -Hf. revert completed Hf.
    induction configured as [|s cfg IH]; intros completed Hf; [done|]. cbn [fold_left] in Hf. apply IH in Hf.
    destruct (completed !! cr_Name s) eqn:E; [done|].
    destruct (decide (cr_Name s = name)) as [<-|Hne]; [by rewrite lookup_insert_eq in Hf|by rewrite lookup_insert_ne in Hf].
  - case_decide; [by left|]. destruct (configured !! i) as [s|] eqn:Ei; [destruct (completed !! cr_Name s) eqn:Es|];
      intros [Hl|(j & s' & Hj & ?)]%IH; try (by left); try (right; exists j, s'; split; [set_solver|done]).
    destruct (decide (cr_Name s = name)) as [<-|Hne]; [|left; by rewrite lookup_insert_ne in Hl].
    rewrite lookup_insert_eq in Hl. injection Hl as ->. right. exists i, s. split; [set_solver|done].
Qed.
