(* ===== verification/PriceUpdates.v ===== *)
(** * Price updates and their transactions (go/internal/pricing/pricing.go)

    Which (source, destination, feed) triples the bot keeps priced, how they are grouped into
    one transaction per feed, and the calldata of such a transaction. The pinned ABI of
    OpenPriceFeed is the interface [PriceAbi]. *)

From S2P Require Import Prelude Schema Outbox Jobs QuorumLogs Registry PriceMath.
From stdpp Require Import base gmap list strings numbers pretty sorting.
From Stdlib Require Import ZArith Lia.
#[local] Open Scope Z_scope.

(** ** The ABI of OpenPriceFeed *)

(** go-ethereum's codec of the two methods; [UnpackSet] reads the arguments of
    setPriceSnapshot, [UnpackStored] the four values priceSnapshot returns. *)
Class PriceAbi := {
  price_address_text :: AddressText;
  setPriceSnapshotID : bytes;
  PackSet : list PriceSnapshotUpdate -> result string bytes;
  UnpackSet : bytes -> result string (list PriceSnapshotUpdate);
  PackStored : Z -> result string bytes;
  UnpackStored : bytes -> result string PriceSnapshot }.

(** An encoding starts with the four bytes of its selector and decodes to what was encoded. *)
Class PriceAbiLaws (abi : PriceAbi) := {
  pack_selector : forall us data, PackSet us = Ok data -> take 4 data = setPriceSnapshotID;
  selector_length : length setPriceSnapshotID = 4%nat;
  pack_unpack : forall us data, PackSet us = Ok data -> UnpackSet (drop 4 data) = Ok us }.

(** ** Updates *)

Record pricedUpdate := mkPricedUpdate { pu_SrcEID : Z; pu_DstEID : Z; pu_PriceFeed : Address }.
#[export] Instance pricedUpdate_eq_dec : EqDecision pricedUpdate.
Proof. solve_decision. Defined.

Record pricedUpdateBatch := mkBatch {
  pb_SrcEID : Z; pb_PriceFeed : Address; pb_Targets : list pricedUpdate }.

Section updates.
Context `{AddressText}.

Definition priceUpdateKey (update : pricedUpdate) : string :=
  pretty (pu_SrcEID update) +:+ ":" +:+ pretty (pu_DstEID update) +:+ ":" +:+ AddressHex (pu_PriceFeed update).
Definition pendingFeedKey (srcEID : Z) (priceFeed : Address) : string :=
  pretty srcEID +:+ ":" +:+ AddressHex priceFeed.
Definition priceUpdateBatchKey (update : pricedUpdate) : string :=
  pretty (pu_SrcEID update) +:+ ":" +:+ AddressHex (pu_PriceFeed update).

(** rememberFeeModel *)
Definition feeModelKey (srcEID dstEID : Z) (role : string) (worker : Address) : string :=
  pretty srcEID +:+ ":" +:+ pretty dstEID +:+ ":" +:+ role +:+ ":" +:+ AddressHex worker.

Definition rememberFeeModel (seen : gmap string FeeModel) (srcEID dstEID : Z) (role : string)
    (worker : Address) (fee : FeeModel) : result string (gmap string FeeModel) :=
  let key := feeModelKey srcEID dstEID role worker in
  match seen !! key with
  | Some existing =>
    if feeModelsEqual existing fee then Ok seen
    else Err ("conflicting " +:+ role +:+ " fee model for " +:+ pretty srcEID +:+ " -> " +:+
              pretty dstEID +:+ " worker " +:+ AddressHex worker)
  | None => Ok (<[key := fee]> seen)
  end.

Definition updateOf (pathway : Pathway) : pricedUpdate :=
  mkPricedUpdate (pw_SrcEID pathway) (pw_DstEID pathway) (PriceFeed (pw_SourceWorkers pathway)).

(** One pass of the loop over the registry's pathways. *)
Definition addPathway (seen : gmap string pricedUpdate) (seenFeeModels : gmap string FeeModel)
    (pathway : Pathway) : result string (gmap string pricedUpdate * gmap string FeeModel) :=
  let src := pw_SrcEID pathway in let dst := pw_DstEID pathway in
  let where_ := "pathway " +:+ pretty src +:+ " -> " +:+ pretty dst in
  match feeModelFromConfig (ExecutorFee (pw_Pricing pathway)) with
  | Err e => Err (where_ +:+ " pricing.executor_fee: " +:+ e)
  | Ok executorFee =>
    match feeModelFromConfig (DVNFee (pw_Pricing pathway)) with
    | Err e => Err (where_ +:+ " pricing.dvn_fee: " +:+ e)
    | Ok dvnFee =>
      fees ← rememberFeeModel seenFeeModels src dst "executor" (OpenExecutor (pw_SourceWorkers pathway)) executorFee;
      fees ← rememberFeeModel fees src dst "dvn" (OpenDVN (pw_SourceWorkers pathway)) dvnFee;
      let key := priceUpdateKey (updateOf pathway) in
      match seen !! key with
      | Some _ => Ok (seen, fees)
      | None => Ok (<[key := updateOf pathway]> seen, fees)
      end
    end
  end.

Fixpoint addPathways (seen : gmap string pricedUpdate) (seenFeeModels : gmap string FeeModel)
    (pathways : list Pathway) : result string (gmap string pricedUpdate) :=
  match pathways with
  | [] => Ok seen
  | pathway :: rest =>
    '(seen, fees) ← addPathway seen seenFeeModels pathway;
    addPathways seen fees rest
  end.

(** The values of a map in the order of sort.Strings on its keys. *)
Definition sorted_values {A} (m : gmap string A) : list A :=
  omap (fun key => m !! key) (merge_sort String.le (map_to_list m).*1).

Definition uniquePriceUpdates (registry : Registry) : result string (list pricedUpdate) :=
  seen ← addPathways ∅ ∅ (Pathways registry);
  Ok (sorted_values seen).

(** ** Batches *)

Definition addToBatch (seen : gmap string pricedUpdateBatch) (update : pricedUpdate)
    : gmap string pricedUpdateBatch :=
  let key := priceUpdateBatchKey update in
  <[key := match seen !! key with
           | Some batch => mkBatch (pb_SrcEID batch) (pb_PriceFeed batch) (pb_Targets batch ++ [update])
           | None => mkBatch (pu_SrcEID update) (pu_PriceFeed update) [update]
           end]> seen.

(** The order of the targets: destination, then key. *)
Definition target_le (a b : pricedUpdate) : Prop :=
  pu_DstEID a < pu_DstEID b \/
  (pu_DstEID a = pu_DstEID b /\ String.le (priceUpdateKey a) (priceUpdateKey b)).
#[export] Instance target_le_dec a b : Decision (target_le a b) := _.

Definition priceUpdateBatches (updates : list pricedUpdate) : list pricedUpdateBatch :=
  (fun batch => mkBatch (pb_SrcEID batch) (pb_PriceFeed batch) (merge_sort target_le (pb_Targets batch)))
    <$> sorted_values (fold_left addToBatch updates ∅).
End updates.

(** ** Calldata *)

Section calldata.
Context `{PriceAbi}.

Fixpoint checkUpdates (updates : list PriceSnapshotUpdate) : result string unit :=
  match updates with
  | [] => Ok tt
  | update :: rest =>
    check su_DstEid update <> 0 or "destination eid is required"%string ;;
    _ ← validateSnapshot (su_Snapshot update);
    checkUpdates rest
  end.

Definition BuildSetPriceSnapshotCalldata (updates : list PriceSnapshotUpdate) : result string bytes :=
  check updates <> [] or "price snapshot updates are required"%string ;;
  _ ← checkUpdates updates;
  PackSet updates.

Definition BuildSetPriceSnapshotTx (chainEID : Z) (priceFeed : Address) (signerID : string)
    (updates : list PriceSnapshotUpdate) : result string TxRequest :=
  check chainEID <> 0 or "chain eid is required"%string ;;
  check priceFeed <> 0 or "price feed address is required"%string ;;
  check signerID <> ""%string or "signer id is required"%string ;;
  calldata ← BuildSetPriceSnapshotCalldata updates;
  Ok (mkTxRequest chainEID TxPurposePricingSetPriceSnapshot [] priceFeed calldata (Some 0) signerID).

(** The loop over the decoded entries. *)
Fixpoint checkEntries (updates : list PriceSnapshotUpdate) (seen : gset Z) : result string unit :=
  match updates with
  | [] => Ok tt
  | update :: rest =>
    check su_DstEid update <> 0 or "setPriceSnapshot entry has a zero destination eid"%string ;;
    check su_DstEid update ∉ seen
      or ("setPriceSnapshot entry duplicates destination eid " +:+ pretty (su_DstEid update))%string ;;
    _ ← validateSnapshot (su_Snapshot update);
    checkEntries rest ({[su_DstEid update]} ∪ seen)
  end.

Definition decodeSetPriceSnapshotCalldata (calldata : bytes) : result string (list PriceSnapshotUpdate) :=
  check ~ (length calldata < 4)%nat /\ take 4 calldata = setPriceSnapshotID
    or "calldata does not start with the setPriceSnapshot selector"%string ;;
  updates ← UnpackSet (drop 4 calldata);
  check updates <> [] or "setPriceSnapshot batch is empty"%string ;;
  reencoded ← PackSet updates;
  check reencoded = calldata or "calldata is not the canonical setPriceSnapshot encoding"%string ;;
  _ ← checkEntries updates ∅;
  Ok updates.
End calldata.

(** ** Facts *)

Lemma sorted_values_perm {A} (m : gmap string A) : sorted_values m ≡ₚ (map_to_list m).*2.
Proof.
  unfold sorted_values. rewrite (merge_sort_Permutation String.le).
  assert (forall l, l ⊆ map_to_list m -> omap (fun k => m !! k) l.*1 = l.*2) as Hl; [|by rewrite Hl].
  induction l as [|[k a] l IH]; [done|]. intros Hs. cbn.
  assert (m !! k = Some a) as -> by (apply elem_of_map_to_list, Hs; left). f_equal. apply IH. set_solver.
Qed.

Lemma elem_of_sorted_values {A} (m : gmap string A) a : a ∈ sorted_values m <-> exists k, m !! k = Some a.
Proof.
  rewrite sorted_values_perm, list_elem_of_fmap. setoid_rewrite <- elem_of_map_to_list. split.
  - intros ([k b] & -> & Hin). by exists k.
  - intros [k Hk]. by exists (k, a).
Qed.

(** Distinct keys give distinct values when the key is read off the value. *)
Lemma NoDup_sorted_values {A B} (m : gmap string A) (f : A -> B) (g : B -> string) :
  (forall k a, m !! k = Some a -> k = g (f a)) -> NoDup (f <$> sorted_values m).
Proof.
  intros Hg. rewrite sorted_values_perm. apply (NoDup_fmap_1 g). rewrite <- !list_fmap_compose.
  erewrite list_fmap_ext; [apply (NoDup_fst_map_to_list m)|].
  intros i [k a] Hi. cbn. symmetry. by apply Hg, elem_of_map_to_list, list_elem_of_lookup_2 with i.
Qed.

Section keys.
Context `{AddressText}.
Context (hex_inj : forall a b, wf_address a -> wf_address b -> AddressHex a = AddressHex b -> a = b)
  (hex_colon : forall a, wf_address a -> no_char colon (AddressHex a)).

Definition wf_update (u : pricedUpdate) : Prop := wf_address (pu_PriceFeed u).

Lemma priceUpdateKey_inj u v : wf_update u -> wf_update v -> priceUpdateKey u = priceUpdateKey v -> u = v.
Proof.
  intros Hu Hv E%(f_equal (String colon)). destruct u as [s d a], v as [s' d' a'].
  assert (forall s d a, String colon (priceUpdateKey (mkPricedUpdate s d a)) =
          delimited colon [pretty s; pretty d; AddressHex a]) as Hd.
  { intros. unfold priceUpdateKey, delimited. cbn [foldr pu_SrcEID pu_DstEID pu_PriceFeed]. by rewrite string_app_nil_r. }
  rewrite !Hd in E. apply delimited_inj in E; [|by repeat constructor; auto using pretty_Z_colon..].
  injection E as Es%(inj pretty) Ed%(inj pretty) Ea%hex_inj; [congruence|done..].
Qed.

Lemma pendingFeedKey_inj s a s' a' : wf_address a -> wf_address a' ->
  pendingFeedKey s a = pendingFeedKey s' a' -> s = s' /\ a = a'.
Proof.
  intros Ha Ha' E%(f_equal (String colon)).
  assert (forall s a, String colon (pendingFeedKey s a) = delimited colon [pretty s; AddressHex a]) as Hd.
  { intros. unfold pendingFeedKey, delimited. cbn [foldr]. by rewrite string_app_nil_r. }
  rewrite !Hd in E. apply delimited_inj in E; [|by repeat constructor; auto using pretty_Z_colon..].
  injection E as Es%(inj pretty) Ea%hex_inj; done.
Qed.

(** The batch of a key: the updates with that key, in their order. *)
Lemma batches_lookup updates k :
  fold_left addToBatch updates ∅ !! k =
  match filter (fun u => priceUpdateBatchKey u = k) updates with
  | [] => None
  | u :: l => Some (mkBatch (pu_SrcEID u) (pu_PriceFeed u) (u :: l))
  end.
Proof.
  induction updates as [|u l IH] using rev_ind; [done|].
  rewrite fold_left_app, list.filter_app. cbn [fold_left]. rewrite filter_cons, filter_nil. unfold addToBatch at 1.
  case_decide as Hk.
  - subst k. rewrite lookup_insert_eq, IH. by destruct (filter _ l).
  - by rewrite lookup_insert_ne, IH, app_nil_r.
Qed.

#[local] Instance target_le_total : Total target_le.
Proof.
  intros a b. unfold target_le. destruct (Z.lt_trichotomy (pu_DstEID a) (pu_DstEID b)) as [|[|]]; [tauto| |tauto].
  destruct (total String.le (priceUpdateKey a) (priceUpdateKey b)); auto.
Qed.

Definition of_feed (src : Z) (feed : Address) (u : pricedUpdate) : Prop :=
  pu_SrcEID u = src /\ pu_PriceFeed u = feed.
#[export] Instance of_feed_dec src feed u : Decision (of_feed src feed u) := _.

(** The updates with the key of one of them are those of its feed. *)
Lemma same_batch_key u updates : Forall wf_update updates -> wf_update u ->
  filter (fun v => priceUpdateBatchKey v = priceUpdateBatchKey u) updates =
  filter (of_feed (pu_SrcEID u) (pu_PriceFeed u)) updates.
Proof.
  intros Hwf Hu. induction Hwf as [|v l Hv _ IH]; [done|]. rewrite !filter_cons, IH.
  assert (priceUpdateBatchKey v = priceUpdateBatchKey u <-> of_feed (pu_SrcEID u) (pu_PriceFeed u) v) as E.
  { split; [by intros E%pendingFeedKey_inj|]. unfold of_feed, priceUpdateBatchKey. by intros [-> ->]. }
  by rewrite (decide_ext _ _ _ _ E).
Qed.

Lemma elem_of_batches updates b : Forall wf_update updates -> b ∈ priceUpdateBatches updates ->
  pb_Targets b = merge_sort target_le (filter (of_feed (pb_SrcEID b) (pb_PriceFeed b)) updates) /\
  filter (of_feed (pb_SrcEID b) (pb_PriceFeed b)) updates <> [] /\ wf_address (pb_PriceFeed b).
Proof.
  intros Hwf (b0 & -> & [k Hk]%elem_of_sorted_values)%list_elem_of_fmap. cbn [pb_SrcEID pb_PriceFeed pb_Targets].
  rewrite batches_lookup in Hk. destruct (filter _ updates) as [|u l] eqn:E; [done|]. injection Hk as <-.
  cbn [pb_SrcEID pb_PriceFeed pb_Targets].
  assert (u ∈ filter (fun v => priceUpdateBatchKey v = k) updates) as [<- Hu]%list_elem_of_filter by (rewrite E; left).
  assert (wf_update u) as Hw by (by eapply list.Forall_forall in Hwf). rewrite <- same_batch_key, E; done.
Qed.

(** the updates are grouped into one batch per source chain and feed: every batch holds
    exactly the updates of its feed, ordered by destination, every update is in some batch, and
    no feed has two, so one cycle never enqueues two transactions for a feed. *)
Theorem priceUpdateBatches_spec updates : Forall wf_update updates ->
  (forall b, b ∈ priceUpdateBatches updates -> pb_Targets b <> [] /\ Sorted target_le (pb_Targets b) /\
     pb_Targets b ≡ₚ filter (of_feed (pb_SrcEID b) (pb_PriceFeed b)) updates) /\
  (forall u, u ∈ updates -> exists b, b ∈ priceUpdateBatches updates /\ u ∈ pb_Targets b) /\
  NoDup ((fun b => (pb_SrcEID b, pb_PriceFeed b)) <$> priceUpdateBatches updates).
Proof.
  intros Hwf. split_and!.
  - intros b (-> & Hne & _)%elem_of_batches; [|done].
    pose proof (merge_sort_Permutation target_le (filter (of_feed (pb_SrcEID b) (pb_PriceFeed b)) updates)) as Hp.
    split_and!; [|apply (Sorted_merge_sort target_le)|done]. intros E. rewrite E in Hp. by apply Permutation_nil_l in Hp.
  - intros u Hu. destruct (filter (fun v => priceUpdateBatchKey v = priceUpdateBatchKey u) updates) as [|v l] eqn:E.
    { exfalso. eapply not_elem_of_nil. rewrite <- E. by apply list_elem_of_filter. }
    eexists. split; [apply list_elem_of_fmap; eexists; split; [done|]|].
    + apply elem_of_sorted_values. exists (priceUpdateBatchKey u). by rewrite batches_lookup, E.
    + cbn [pb_Targets]. rewrite (merge_sort_Permutation target_le), <- E. by apply list_elem_of_filter.
  - unfold priceUpdateBatches. rewrite <- list_fmap_compose.
    apply (NoDup_sorted_values _ _ (fun x => pendingFeedKey x.1 x.2)). intros k b. rewrite batches_lookup.
    destruct (filter _ updates) as [|u l] eqn:E; [done|]. intros [= <-]. cbn.
    assert (u ∈ filter (fun v => priceUpdateBatchKey v = k) updates) as [<- _]%list_elem_of_filter by (rewrite E; left).
    done.
Qed.
(** ** The registry's updates *)

Lemma feeModelsEqual_true a b : feeModelsEqual a b = true <-> a = b.
Proof.
  unfold feeModelsEqual. rewrite !andb_true_iff, !bool_decide_eq_true. destruct a, b; cbn. naive_solver.
Qed.

Lemma rememberFeeModel_Ok seen s d role w fee m : rememberFeeModel seen s d role w fee = Ok m ->
  (forall f, seen !! feeModelKey s d role w = Some f -> f = fee) /\ m = <[feeModelKey s d role w := fee]> seen.
Proof.
  unfold rememberFeeModel. destruct (seen !! _) as [f|] eqn:E.
  - destruct (feeModelsEqual f fee) eqn:Ef; [|done]. apply feeModelsEqual_true in Ef as ->. intros [= <-].
    split; [congruence|by rewrite insert_id].
  - intros [= <-]. split; [congruence|done].
Qed.

(** The two fee models of a pathway, under the keys of their workers. *)
Definition fee_entries (p : Pathway) (e d : FeeModel) : list (string * FeeModel) :=
  [(feeModelKey (pw_SrcEID p) (pw_DstEID p) "executor" (OpenExecutor (pw_SourceWorkers p)), e);
   (feeModelKey (pw_SrcEID p) (pw_DstEID p) "dvn" (OpenDVN (pw_SourceWorkers p)), d)].
Definition fees_parse (p : Pathway) (e d : FeeModel) : Prop :=
  feeModelFromConfig (ExecutorFee (pw_Pricing p)) = Ok e /\ feeModelFromConfig (DVNFee (pw_Pricing p)) = Ok d.
Definition agrees (fees : gmap string FeeModel) (entries : list (string * FeeModel)) : Prop :=
  forall k f f0, (k, f) ∈ entries -> fees !! k = Some f0 -> f0 = f.

Lemma addPathway_Ok seen fees p seen' fees' : addPathway seen fees p = Ok (seen', fees') ->
  exists e d, fees_parse p e d /\ agrees fees (fee_entries p e d) /\ fees ⊆ fees' /\
    (forall k f, (k, f) ∈ fee_entries p e d -> fees' !! k = Some f) /\
    seen' = match seen !! priceUpdateKey (updateOf p) with
            | Some _ => seen | None => <[priceUpdateKey (updateOf p) := updateOf p]> seen end.
Proof.
  unfold addPathway, fees_parse. destruct (feeModelFromConfig (ExecutorFee _)) as [e|]; [|done].
  destruct (feeModelFromConfig (DVNFee _)) as [d|]; [|done].
  destruct (rememberFeeModel fees _ _ _ _ e) as [fees1|] eqn:E1; [|done]. cbn.
  destruct (rememberFeeModel fees1 _ _ _ _ d) as [fees2|] eqn:E2; [|done]. cbn.
  apply rememberFeeModel_Ok in E1 as [H1 ->], E2 as [H2 ->]. intros E. exists e, d.
  assert (seen' = match seen !! priceUpdateKey (updateOf p) with
            | Some _ => seen | None => <[priceUpdateKey (updateOf p) := updateOf p]> seen end /\
          fees' = <[feeModelKey (pw_SrcEID p) (pw_DstEID p) "dvn" (OpenDVN (pw_SourceWorkers p)):=d]>
       (<[feeModelKey (pw_SrcEID p) (pw_DstEID p) "executor" (OpenExecutor (pw_SourceWorkers p)):=e]> fees)) as [-> ->].
  { destruct (seen !! _); by injection E as <- <-. }
  set (ke := feeModelKey _ _ "executor" _) in *. set (kd := feeModelKey _ _ "dvn" _) in *.
  assert (fees ⊆ <[ke:=e]> fees) as Hsub1.
  { apply map_subseteq_spec. intros k f Hk. destruct (decide (k = ke)) as [->|];
      [rewrite lookup_insert_eq; f_equal; symmetry; eauto|by rewrite lookup_insert_ne]. }
  assert (<[ke:=e]> fees ⊆ <[kd:=d]> (<[ke:=e]> fees)) as Hsub2.
  { apply map_subseteq_spec. intros k f Hk. destruct (decide (k = kd)) as [->|];
      [rewrite lookup_insert_eq; f_equal; symmetry; eauto|by rewrite lookup_insert_ne]. }
  split_and!; [done|done| |by etrans| |done].
  - intros k f f0 [[= -> ->]|[[= -> ->]|?%not_elem_of_nil]%elem_of_cons]%elem_of_cons Hk; [eauto| |done].
    apply H2. eapply lookup_weaken; [exact Hk|done].
  - intros k f [[= -> ->]|[[= -> ->]|?%not_elem_of_nil]%elem_of_cons]%elem_of_cons; [| |done].
    + eapply lookup_weaken; [|exact Hsub2]. by rewrite lookup_insert_eq.
    + by rewrite lookup_insert_eq.
Qed.

(** Every pathway's models parse and agree with the ones seen, and with each other's. *)
Lemma addPathways_fees seen fees ps seen' : addPathways seen fees ps = Ok seen' ->
  (forall p, p ∈ ps -> exists e d, fees_parse p e d /\ agrees fees (fee_entries p e d)) /\
  (forall p q e d e' d' k f f', p ∈ ps -> q ∈ ps -> fees_parse p e d -> fees_parse q e' d' ->
     (k, f) ∈ fee_entries p e d -> (k, f') ∈ fee_entries q e' d' -> f = f').
Proof.
  revert seen fees. induction ps as [|x ps IH]; intros seen fees; cbn [addPathways].
  { intros _. split; [by intros p ?%not_elem_of_nil|by intros p q e d e' d' k f f' ?%not_elem_of_nil]. }
  destruct (addPathway seen fees x) as [[seen1 fees1]|] eqn:E; [|done]. cbn. intros Hps.
  apply addPathway_Ok in E as (e & d & Hx & Hag & Hsub & Hin & _). destruct (IH _ _ Hps) as [IH1 IH2].
  assert (forall q e' d' k f f', q ∈ ps -> fees_parse q e' d' -> (k, f) ∈ fee_entries x e d ->
            (k, f') ∈ fee_entries q e' d' -> f = f') as Hcross.
  { intros q e' d' k f f' Hq [P1 P2] H1 H2. destruct (IH1 q Hq) as (e2 & d2 & [Q1 Q2] & Hag2).
    assert (e2 = e' /\ d2 = d') as [-> ->] by (split; congruence). by eapply Hag2; [|apply Hin]. }
  split.
  - intros p [-> | Hp]%elem_of_cons; [by eauto|]. destruct (IH1 p Hp) as (e2 & d2 & Hq & Hag2). exists e2, d2.
    split; [done|]. intros k f f0 Hk Hf. eapply Hag2; [done|]. by eapply lookup_weaken.
  - assert (forall y e0 d0, fees_parse x e0 d0 -> y = x -> e0 = e /\ d0 = d) as Hdet.
    { intros y e0 d0 [P1 P2] _. destruct Hx. split; congruence. }
    intros p q e1 d1 e' d' k f f' [-> | Hp]%elem_of_cons [-> | Hq]%elem_of_cons Pp Pq H1 H2.
    + destruct (Hdet x _ _ Pp eq_refl) as [-> ->], (Hdet x _ _ Pq eq_refl) as [-> ->].
      pose proof (Hin _ _ H1). pose proof (Hin _ _ H2). congruence.
    + destruct (Hdet x _ _ Pp eq_refl) as [-> ->]. by eapply (Hcross q).
    + destruct (Hdet x _ _ Pq eq_refl) as [-> ->]. symmetry. by eapply (Hcross p).
    + by eapply (IH2 p q).
Qed.

Lemma addPathways_seen seen fees ps seen' : Forall (fun p => wf_update (updateOf p)) ps ->
  map_Forall (fun k u => wf_update u /\ k = priceUpdateKey u) seen -> addPathways seen fees ps = Ok seen' ->
  map_Forall (fun k u => wf_update u /\ k = priceUpdateKey u) seen' /\
  forall u, (exists k, seen' !! k = Some u) <-> (exists k, seen !! k = Some u) \/ exists p, p ∈ ps /\ updateOf p = u.
Proof.
  intros Hwf. revert seen fees. induction Hwf as [|x ps Hx Hps IH]; intros seen fees Hseen; cbn [addPathways].
  { intros [= <-]. split; [done|]. intros u. split; [by left|]. intros [H0|(p & ?%not_elem_of_nil & _)]; done. }
  destruct (addPathway seen fees x) as [[seen1 fees1]|] eqn:E; [|done]. cbn. intros H1.
  apply addPathway_Ok in E as (_ & _ & _ & _ & _ & _ & E).
  assert (map_Forall (fun k u => wf_update u /\ k = priceUpdateKey u) seen1 /\
    forall u, (exists k, seen1 !! k = Some u) <-> (exists k, seen !! k = Some u) \/ updateOf x = u) as [Hs1 Hu1].
  { destruct (seen !! priceUpdateKey (updateOf x)) as [u0|] eqn:Ek; subst seen1.
    - destruct (Hseen _ _ Ek) as [Hu0 E0]. apply priceUpdateKey_inj in E0; [subst u0|done..].
      split; [done|]. intros u. split; [by left|]. intros [|<-]; [done|eauto].
    - split; [by apply map_Forall_insert_2|]. intros u. split.
      + intros [k Hk]. destruct (decide (k = priceUpdateKey (updateOf x))) as [->|];
          [rewrite lookup_insert_eq in Hk; right; congruence|rewrite lookup_insert_ne in Hk by done; eauto].
      + intros [[k Hk]|<-]; [exists k|eexists; by rewrite lookup_insert_eq].
        rewrite lookup_insert_ne; [done|congruence]. }
  destruct (IH _ _ Hs1 H1) as [H2 H3]. split; [done|]. intros u. rewrite H3, Hu1. set_solver.
Qed.

Lemma uniquePriceUpdates_wf registry us :
  Forall (fun p => wf_update (updateOf p)) (Pathways registry) -> uniquePriceUpdates registry = Ok us ->
  Forall wf_update us /\ NoDup us.
Proof.
  intros Hwf. unfold uniquePriceUpdates. destruct (addPathways ∅ ∅ _) as [seen|] eqn:E; [|done]. intros [= <-].
  destruct (addPathways_seen _ _ _ _ Hwf (map_Forall_empty _) E) as [Hs _]. split.
  - apply list.Forall_forall. intros u [k Hk]%elem_of_sorted_values. by apply (Hs k u).
  - rewrite <- (list_fmap_id (sorted_values seen)). apply (NoDup_sorted_values seen id priceUpdateKey).
    intros k u Hk. by apply Hs.
Qed.

(** When the registry's fee models are accepted, the bot prices exactly the (source,
    destination, feed) triples of the configured pathways, each once; every pathway's models
    parse, and two pathways of one route that share a worker give it the same model. *)
Theorem uniquePriceUpdates_spec registry us :
  Forall (fun p => wf_update (updateOf p)) (Pathways registry) -> uniquePriceUpdates registry = Ok us ->
  (forall u, u ∈ us <-> exists p, p ∈ Pathways registry /\ updateOf p = u) /\ NoDup us /\
  (forall p, p ∈ Pathways registry -> exists e d, fees_parse p e d) /\
  (forall p q, p ∈ Pathways registry -> q ∈ Pathways registry ->
     pw_SrcEID p = pw_SrcEID q -> pw_DstEID p = pw_DstEID q ->
     (OpenExecutor (pw_SourceWorkers p) = OpenExecutor (pw_SourceWorkers q) ->
      feeModelFromConfig (ExecutorFee (pw_Pricing p)) = feeModelFromConfig (ExecutorFee (pw_Pricing q))) /\
     (OpenDVN (pw_SourceWorkers p) = OpenDVN (pw_SourceWorkers q) ->
      feeModelFromConfig (DVNFee (pw_Pricing p)) = feeModelFromConfig (DVNFee (pw_Pricing q)))).
Proof.
  intros Hwf Hus. destruct (uniquePriceUpdates_wf registry us Hwf Hus) as [_ Hnd]. revert Hus.
  unfold uniquePriceUpdates. destruct (addPathways ∅ ∅ (Pathways registry)) as [seen|] eqn:E; [|done].
  intros [= <-]. destruct (addPathways_seen _ _ _ _ Hwf (map_Forall_empty _) E) as [Hs Hu].
  destruct (addPathways_fees _ _ _ _ E) as [Hparse Hagree]. split_and!.
  - intros u. rewrite elem_of_sorted_values, Hu. split; [|by right].
    intros [[k Hk]|]; [by rewrite lookup_empty in Hk|done].
  - done.
  - intros p Hp. destruct (Hparse p Hp) as (e & d & ? & _). eauto.
  - intros p q Hp Hq Es Ed. destruct (Hparse p Hp) as (e & d & Pp & _), (Hparse q Hq) as (e' & d' & Pq & _).
    destruct Pp as [P1 P2] eqn:EP, Pq as [Q1 Q2] eqn:EQ. clear EP EQ. split; intros Ew.
    + rewrite P1, Q1. f_equal. eapply (Hagree p q); [done|done|split; done|split; done| |left].
      rewrite <- Es, <- Ed, <- Ew. left.
    + rewrite P2, Q2. f_equal. eapply (Hagree p q); [done|done|split; done|split; done| |right; left].
      rewrite <- Es, <- Ed, <- Ew. right. left.
Qed.
End keys.

(** ** Calldata round trip *)

Section roundtrip.
Context `{abi : PriceAbi, laws : !PriceAbiLaws abi}.

Lemma checkEntries_Ok us seen : is_ok (checkUpdates us) = true -> NoDup (su_DstEid <$> us) ->
  Forall (fun u => su_DstEid u ∉ seen) us -> checkEntries us seen = Ok tt.
Proof.
  revert seen. induction us as [|u us IH]; [done|]. intros seen. cbn [checkUpdates checkEntries fmap list_fmap].
  intros Hok [Hnin Hnd]%NoDup_cons [Hu Hus]%Forall_cons. case_decide; [|done].
  destruct (validateSnapshot (su_Snapshot u)) as [[]|]; [|done]. cbn in *. rewrite decide_True by done.
  apply IH; [done|done|]. apply list.Forall_forall. intros v Hv.
  apply not_elem_of_union. split; [|by eapply (proj1 (list.Forall_forall _ _)) in Hus].
  intros E%elem_of_singleton. apply Hnin. rewrite <- E. apply list_elem_of_fmap. eauto.
Qed.

(** The calldata of a batch with distinct destinations decodes strictly to that batch. *)
Lemma decode_Build us data : NoDup (su_DstEid <$> us) ->
  BuildSetPriceSnapshotCalldata us = Ok data -> decodeSetPriceSnapshotCalldata data = Ok us.
Proof.
  intros Hnd. unfold BuildSetPriceSnapshotCalldata, decodeSetPriceSnapshotCalldata.
  case_decide as Hne; [|done]. destruct (checkUpdates us) as [[]|] eqn:E; [|done]. cbn. intros Hp.
  pose proof (pack_selector _ _ Hp) as Hsel. pose proof selector_length as Hl.
  rewrite decide_True, (pack_unpack _ _ Hp); [|split; [|done]]; last first.
  { rewrite <- Hsel, length_take in Hl. lia. }
  cbn. rewrite decide_True, Hp by done. cbn. rewrite decide_True by done.
  rewrite checkEntries_Ok; [done|by rewrite E|done|]. apply list.Forall_forall. set_solver.
Qed.
End roundtrip.
