(* ===== verification/PriceSources.v ===== *)
(** * The price source clients (go/internal/pricing/chainlink.go, uniswap.go,
      request_error.go, source_config.go)

    A Chainlink aggregator and a Uniswap V3 time-weighted average, each read at one pinned
    block; the error kinds that tell a wrong configuration from an unavailable source; and the
    check of all configured identities before the loops start. A client is a routine over the
    chain's reads; the pinned ABIs are the interface [SourceAbi]. *)

From S2P Require Import Prelude GoErr BigUtil Schema Outbox StateReads Quorum Registry Proc Worker PriceMath PriceSelect.
From stdpp Require Import base gmap list strings numbers pretty sorting.
From Stdlib Require Import ZArith QArith Lia Ascii.
#[local] Open Scope Z_scope.

(** ** Errors *)

(** An error of a source client: from outside, a failed request, a wrong configuration, a
    response that does not settle the configuration, or one wrapped with a message. *)
Inductive srcerr :=
| SGo (e : goerr)
| SRequest (source operation : string) (cause : goerr)
| SConfiguration (cause : srcerr)
| SInconclusive (cause : srcerr)
| SWrap (msg : string) (cause : srcerr).

Definition SText (msg : string) : srcerr := SGo (errNew msg).

(** The error as a value of the standard library: its text and what it wraps. *)
Fixpoint goerr_of (e : srcerr) : goerr :=
  match e with
  | SGo e => e
  | SRequest source operation cause =>
    errWrap (source +:+ " price request " +:+ operation +:+ " failed") cause
  | SConfiguration cause | SInconclusive cause => errWrap (Error (goerr_of cause)) (goerr_of cause)
  | SWrap msg cause => errWrap (msg +:+ ": " +:+ Error (goerr_of cause)) (goerr_of cause)
  end.

Fixpoint isPriceSourceRequestError (e : srcerr) : bool :=
  match e with
  | SGo _ => false
  | SRequest _ _ _ => true
  | SConfiguration cause | SInconclusive cause | SWrap _ cause => isPriceSourceRequestError cause
  end.

Fixpoint isPriceSourceConfigurationError (e : srcerr) : bool :=
  match e with
  | SGo _ | SRequest _ _ _ => false
  | SConfiguration _ => true
  | SInconclusive cause | SWrap _ cause => isPriceSourceConfigurationError cause
  end.

(** errors.As to the inconclusive error: its cause. *)
Fixpoint asInconclusive (e : srcerr) : option srcerr :=
  match e with
  | SGo _ | SRequest _ _ _ => None
  | SInconclusive cause => Some cause
  | SConfiguration cause | SWrap _ cause => asInconclusive cause
  end.

Definition newPriceSourceConfigurationError (e : srcerr) : srcerr :=
  if isPriceSourceConfigurationError e then e else SConfiguration e.

(** The texts along errors.Unwrap. *)
Fixpoint unwrap_texts (fuel : nat) (e : goerr) : list string :=
  match fuel with
  | O => []
  | S fuel => Error e :: match Unwrap e with Some e => unwrap_texts fuel e | None => [] end
  end.
Fixpoint err_depth (e : goerr) : nat :=
  match e with
  | mkErr _ _ _ _ _ _ w =>
    S ((fix deepest (l : list goerr) : nat :=
          match l with [] => O | x :: l => Nat.max (err_depth x) (deepest l) end) w)
  end.
Definition chain_texts (e : goerr) : list string := unwrap_texts (err_depth e) e.

Definition executionReverted : string := "execution reverted".

Definition isPriceSourceContractRevert (e : goerr) : bool :=
  match as_rpc_error e with Some (3, _) => true | _ => false end ||
  match as_data_error e with
  | Some (DataString data) =>
    let normalized := ToLower (TrimSpace data) in
    HasPrefix normalized "0x" || Contains normalized executionReverted
  | Some (DataBytes data) => bool_decide (0 < length data)%nat
  | _ => false
  end ||
  existsb (fun text => Contains (ToLower text) executionReverted) (chain_texts e).

Definition classifySourceIdentityCallError (message : string) (e : srcerr) : srcerr :=
  if errors_Is (goerr_of e) ContextCanceled || errors_Is (goerr_of e) DeadlineExceeded then e else
  if isPriceSourceRequestError e && negb (isPriceSourceContractRevert (goerr_of e)) then e else
  newPriceSourceConfigurationError (SWrap message e).

(** strings.LastIndex: the text behind the last occurrence of the marker, in the original and
    the lowered text alike. *)
Fixpoint after_last (marker lowered original : string) : option string :=
  match lowered, original with
  | String _ l, String _ o =>
    match after_last marker l o with
    | Some rest => Some rest
    | None => if String.prefix marker lowered
              then Some (String.substring (String.length marker) (String.length original) original) else None
    end
  | _, _ => None
  end.

Definition is_quote (c : ascii) : bool :=
  let n := Ascii.N_of_ascii c in bool_decide (n = 34 \/ n = 39)%N.
Fixpoint drop_quotes (s : string) : string :=
  match s with String c s' => if is_quote c then drop_quotes s' else s | EmptyString => EmptyString end.
Fixpoint drop_quotes_right (s : string) : string :=
  match s with
  | EmptyString => EmptyString
  | String c s' =>
    match drop_quotes_right s' with
    | EmptyString => if is_quote c then EmptyString else String c EmptyString
    | t => String c t
    end
  end.
Definition TrimPrefixColon (s : string) : string :=
  match s with String c s' => if decide (c = colon) then s' else s | EmptyString => s end.

Definition priceSourceContractRevertReasonMessage (message : string) : option string :=
  let trimmed := TrimSpace message in
  match after_last executionReverted (ToLower trimmed) trimmed with
  | None => None
  | Some rest =>
    let reason := TrimSpace rest in
    let reason := TrimSpace (TrimPrefixColon reason) in
    let reason := drop_quotes_right (drop_quotes reason) in
    if decide (reason = ""%string) then None else Some reason
  end.

(** ** The ABIs and the chain *)

(** The view methods, by the type of their values. *)
Inductive sview : Type -> Type :=
| ChainlinkDescription : sview string
| ChainlinkDecimals : sview Z
| ChainlinkLatestRoundData : sview (Z * Z * Z * Z * Z)
| PoolToken0 : sview Address
| PoolToken1 : sview Address
| PoolObserve (secondsAgos : list Z) : sview (list Z * list Z)
| ERC20Decimals : sview Z.

(** go-ethereum's codec: values of the declared types, or an error; UnpackRevert and the
    decoding of 0x hex texts. *)
Class SourceAbi := {
  PackView : forall R, sview R -> result string bytes;
  UnpackView : forall R, sview R -> bytes -> result string R;
  UnpackRevert : bytes -> option string;
  HexDecode : string -> option bytes }.
Arguments PackView {_ R} _.
Arguments UnpackView {_ R} _ _.

(** A header: its number (nil without one), time and hash. *)
Record SourceHeader := mkSourceHeader { sh_Number : option Z; sh_Time : Z; sh_Hash : Hash }.

Inductive squery : Type -> Type :=
| SHeader : squery (result goerr (option SourceHeader))
| SCall (to : Address) (data : bytes) (mode : address_mode) : squery (result goerr bytes)
| SCtxErr : squery (option goerr)
| SRetryWait : squery (option goerr).

Abbreviation reader := (proc squery).

Section clients.
Context `{SourceAbi}.

Definition priceSourceContractRevertReasonData (data : errdata) : option string :=
  match data with
  | DataString value =>
    match HexDecode (TrimSpace value) with
    | None => priceSourceContractRevertReasonMessage value
    | Some encoded => UnpackRevert encoded
    end
  | DataBytes encoded => UnpackRevert encoded
  | DataOther => None
  end.

Definition isPriceSourceContractRevertReason (e : goerr) (expected : string) : bool :=
  match as_data_error e with
  | Some data => bool_decide (priceSourceContractRevertReasonData data = Some expected)
  | None => false
  end ||
  existsb (fun text => bool_decide (priceSourceContractRevertReasonMessage text = Some expected)) (chain_texts e).

(** call of both clients: pack, read at the anchor, unpack. *)
Definition callView {R} (source operation : string) (target : Address) (v : sview R) (anchor : option StateAnchor)
    : reader (result srcerr R) :=
  match PackView v with
  | Err e => Ret (Err (SText e))
  | Ok data =>
    let! r := ask (SCall target data (CallAtAnchor anchor)) in
    match r with
    | Err e => Ret (Err (SRequest source operation e))
    | Ok out => Ret (match UnpackView v out with Ok a => Ok a | Err e => Err (SText e) end)
    end
  end.

(** ** Chainlink *)

Record ChainlinkClient := mkChainlink { cl_feed : Address; cl_expectedDescription : string }.

Definition NewChainlinkClient (feedAddress : Address) (expectedDescription : string) : result string ChainlinkClient :=
  check feedAddress <> 0 or "chainlink feed address is required"%string ;;
  check expectedDescription <> ""%string or "chainlink expected description is required"%string ;;
  Ok (mkChainlink feedAddress expectedDescription).

Definition chainlinkIdentity (c : ChainlinkClient) (anchor : option StateAnchor) : reader (result srcerr unit) :=
  let! r := callView "chainlink" "execute" (cl_feed c) ChainlinkDescription anchor in
  Ret (match r with
       | Err e => Err (classifySourceIdentityCallError
                         "chainlink description response is incompatible with the AggregatorV3 ABI" e)
       | Ok description =>
         if decide (description = cl_expectedDescription c) then Ok tt
         else Err (newPriceSourceConfigurationError (SText
                ("chainlink description " +:+ quoted description +:+ " does not match expected " +:+
                 quoted (cl_expectedDescription c))))
       end).

(** The checks on decimals and round data, and the price. *)
Definition chainlinkPrice (decimals : Z) (round : Z * Z * Z * Z * Z) : result srcerr SourcePrice :=
  let '(roundID, roundAnswer, _, updatedAt, answeredInRound) := round in
  check ~ (roundAnswer <= 0 \/ updatedAt <= 0) or SText "chainlink returned invalid round data" ;;
  check ~ (answeredInRound < roundID) or SText "chainlink returned incomplete round data" ;;
  check is_int64 updatedAt or SText "chainlink returned invalid updatedAt" ;;
  Ok (mkSourcePrice "chainlink" (Some (inject_Z roundAnswer / inject_Z (10 ^ decimals))%Q) (unixTime updatedAt)).

Definition chainlinkPriceUSD (c : ChainlinkClient) : reader (result srcerr SourcePrice) :=
  let! header := ask SHeader in
  match header with
  | Err e => Ret (Err (SRequest "chainlink" "header" e))
  | Ok (Some (mkSourceHeader (Some number) _ hash)) =>
    if decide (number < 0) then Ret (Err (SText "chainlink returned invalid latest block header")) else
    let anchor := Some (mkAnchor (Some number) hash) in
    let? _ := chainlinkIdentity c anchor in
    let? decimals := callView "chainlink" "execute" (cl_feed c) ChainlinkDecimals anchor in
    if decide (18 < decimals) then Ret (Err (SText "chainlink returned unsupported decimals")) else
    let? round := callView "chainlink" "execute" (cl_feed c) ChainlinkLatestRoundData anchor in
    Ret (chainlinkPrice decimals round)
  | Ok _ => Ret (Err (SText "chainlink returned invalid latest block header"))
  end.

(** ** Uniswap V3 *)

Definition minUniswapV3Tick : Z := - 887272.
Definition maxUniswapV3Tick : Z := 887272.
Definition MinUniswapTWAPWindowSeconds : Z := 30 * 60.

Record UniswapV3Client := mkUniswap {
  un_pool : Address; un_tokenIn : Address; un_tokenOut : Address; un_window : Z; un_minLiquidity : Z }.

Definition NewUniswapV3Client (pool tokenIn tokenOut : Address) (window : Z) (minLiquidity : option Z)
    : result string UniswapV3Client :=
  check pool <> 0 or "uniswap pool address is required"%string ;;
  check ~ (tokenIn = 0 \/ tokenOut = 0 \/ tokenIn = tokenOut)
    or "uniswap token addresses must be non-zero and distinct"%string ;;
  check ~ (window < MinUniswapTWAPWindowSeconds)
    or ("uniswap twap window must be at least " +:+ pretty MinUniswapTWAPWindowSeconds +:+ " seconds")%string ;;
  check ~ notPositive minLiquidity or "uniswap minimum harmonic mean liquidity must be positive"%string ;;
  Ok (mkUniswap pool tokenIn tokenOut window (default 0 minLiquidity)).

Definition readAddress (method : string) (target : Address) (v : sview Address) (anchor : option StateAnchor)
    : reader (result srcerr Address) :=
  let? address := callView "uniswap" method target v anchor in
  Ret (if decide (address = 0) then Err (SText ("uniswap " +:+ method +:+ " returned invalid address"))
       else Ok address).

Definition validatePoolTokensAt (c : UniswapV3Client) (anchor : option StateAnchor) : reader (result srcerr unit) :=
  let identity (method : string) (v : sview Address) : reader (result srcerr Address) :=
    let! r := readAddress method (un_pool c) v anchor in
    Ret (match r with
         | Ok a => Ok a
         | Err e => Err (classifySourceIdentityCallError
                           ("uniswap " +:+ method +:+ " response is incompatible with the pool ABI") e)
         end) in
  let? token0 := identity "token0" PoolToken0 in
  let? token1 := identity "token1" PoolToken1 in
  Ret (if decide ((token0 = un_tokenIn c /\ token1 = un_tokenOut c) \/
                  (token0 = un_tokenOut c /\ token1 = un_tokenIn c)) then Ok tt
       else Err (newPriceSourceConfigurationError (SText "uniswap pool tokens do not match configured token pair"))).

(** The mean tick and the harmonic mean liquidity of the two cumulatives. *)
Definition meanTick (tickDelta window : Z) : Z :=
  let mean := Z.quot tickDelta window in
  let remainder := Z.rem tickDelta window in
  if decide (tickDelta < 0 /\ remainder <> 0) then mean - 1 else mean.

Definition harmonicLiquidity (window liquidityDelta : Z) : Z :=
  Z.quot (window * (Z.shiftl 1 160 - 1)) (Z.shiftl liquidityDelta 32).

Definition observation (window : Z) (ticks secondsPerLiquidity : list Z) : result srcerr (Z * Z) :=
  match ticks with
  | [t0; t1] =>
    match secondsPerLiquidity with
    | [s0; s1] =>
      let mean := meanTick (t1 - t0) window in
      check ~ (~ is_int64 mean \/ mean < minUniswapV3Tick \/ maxUniswapV3Tick < mean)
        or SText "uniswap observe returned out-of-range mean tick" ;;
      let liquidityDelta := s1 - s0 in
      check ~ (liquidityDelta <= 0) or SText "uniswap observe returned invalid liquidity delta" ;;
      let liquidity := harmonicLiquidity window liquidityDelta in
      check ~ (liquidity <= 0) or SText "uniswap observe returned non-positive harmonic liquidity" ;;
      Ok (mean, liquidity)
    | _ => Err (SText "uniswap observe returned invalid liquidity cumulatives")
    end
  | _ => Err (SText "uniswap observe returned invalid tick cumulatives")
  end.

Definition observeAt (c : UniswapV3Client) (anchor : option StateAnchor) : reader (result srcerr (Z * Z)) :=
  let? decoded := callView "uniswap" "observe" (un_pool c) (PoolObserve [un_window c; 0]) anchor in
  Ret (observation (un_window c) decoded.1 decoded.2).

Definition readDecimalsAt (token : Address) (anchor : option StateAnchor) : reader (result srcerr Z) :=
  let? decimals := callView "uniswap" "decimals" token ERC20Decimals anchor in
  Ret (if decide (36 < decimals) then Err (SText "erc20 returned unsupported decimals") else Ok decimals).

(** ** Tick mathematics *)

(** The Q128.128 powers of 1.0001^(-1/2), one per bit of the tick. *)
Definition tickFactors : list (Z * Z) :=
  [ (0x2, 0xfff97272373d413259a46990580e213a); (0x4, 0xfff2e50f5f656932ef12357cf3c7fdcc);
    (0x8, 0xffe5caca7e10e4e61c3624eaa0941cd0); (0x10, 0xffcb9843d60f6159c9db58835c926644);
    (0x20, 0xff973b41fa98c081472e6896dfb254c0); (0x40, 0xff2ea16466c96a3843ec78b326b52861);
    (0x80, 0xfe5dee046a99a2a811c461f1969c3053); (0x100, 0xfcbe86c7900a88aedcffc83b479aa3a4);
    (0x200, 0xf987a7253ac413176f2b074cf7815e54); (0x400, 0xf3392b0822b70005940c7a398e4b70f3);
    (0x800, 0xe7159475a2c29b7443b29c7fa6e889d9); (0x1000, 0xd097f3bdfd2022b8845ad8f792aa5825);
    (0x2000, 0xa9f746462d870fdf8a65dc1f90e061e5); (0x4000, 0x70d869a156d2a1b890bb3df62baf32f7);
    (0x8000, 0x31be135f97d08fd981231505542fcfa6); (0x10000, 0x9aa508b5b7a84e1c677de54f3e99bc9);
    (0x20000, 0x5d6af8dedb81196699c329225ee604); (0x40000, 0x2216e584f5fa1ea926041bedfe98);
    (0x80000, 0x48a170391f7dc42444e8fa2) ].

Definition tickStep (absTick ratio : Z) (factor : Z * Z) : Z :=
  if decide (Z.land absTick factor.1 <> 0) then Z.shiftr (ratio * factor.2) 128 else ratio.

Definition tickRatio (absTick : Z) : Z :=
  fold_left (tickStep absTick) tickFactors
    (if decide (Z.land absTick 1 <> 0) then 0xfffcb933bd6fad37aa2d162d1a594001 else Z.shiftl 1 128).

Definition sqrtRatioAtTick (tick : Z) : result srcerr Z :=
  check ~ (tick < minUniswapV3Tick \/ maxUniswapV3Tick < tick) or SText "uniswap tick is out of range" ;;
  let absTick := if decide (tick < 0) then - tick else tick in
  let ratio := tickRatio absTick in
  let ratio := if decide (0 < tick) then Z.quot (Z.shiftl 1 256 - 1) ratio else ratio in
  let hasRemainder := bool_decide (Z.land ratio (Z.shiftl 1 32 - 1) <> 0) in
  let shifted := Z.shiftr ratio 32 in
  Ok (if hasRemainder then shifted + 1 else shifted).

(** bytes.Compare of two addresses is the order of their values. *)
Definition quoteAtTick (tick : Z) (baseAmount : option Z) (baseToken quoteToken : Address) : result srcerr Z :=
  check ~ notPositive baseAmount or SText "uniswap base amount must be positive" ;;
  match sqrtRatioAtTick tick with
  | Err e => Err e
  | Ok sqrtRatioX96 =>
    let ratioX192 := sqrtRatioX96 * sqrtRatioX96 in
    let twoX192 := Z.shiftl 1 192 in
    Ok (if decide (baseToken < quoteToken) then Z.quot (ratioX192 * default 0 baseAmount) twoX192
        else Z.quot (twoX192 * default 0 baseAmount) ratioX192)
  end.

(** The price of one whole token, from the mean tick and both decimals. *)
Definition twapPrice (c : UniswapV3Client) (time inDecimals outDecimals : Z) (observed : Z * Z) : result srcerr SourcePrice :=
  check ~ (observed.2 < un_minLiquidity c)
    or SText ("uniswap harmonic mean liquidity " +:+ pretty observed.2 +:+ " is below minimum " +:+
              pretty (un_minLiquidity c)) ;;
  match quoteAtTick observed.1 (Some (10 ^ inDecimals)) (un_tokenIn c) (un_tokenOut c) with
  | Err e => Err e
  | Ok quoteAmount =>
    check ~ (quoteAmount <= 0) or SText "uniswap twap returned non-positive quote" ;;
    Ok (mkSourcePrice "uniswap" (Some (inject_Z quoteAmount / inject_Z (10 ^ outDecimals))%Q)
          (unixTime (int64_wrap time)))
  end.

Definition uniswapPriceUSD (c : UniswapV3Client) : reader (result srcerr SourcePrice) :=
  let! header := ask SHeader in
  match header with
  | Err e => Ret (Err (SRequest "uniswap" "header" e))
  | Ok None => Ret (Err (SText "uniswap returned invalid latest block header"))
  | Ok (Some header) =>
    if decide (sh_Time header = 0) then Ret (Err (SText "uniswap returned invalid latest block header")) else
    let anchor := Some (mkAnchor (sh_Number header) (sh_Hash header)) in
    let? _ := validatePoolTokensAt c anchor in
    let? inDecimals := readDecimalsAt (un_tokenIn c) anchor in
    let? outDecimals := readDecimalsAt (un_tokenOut c) anchor in
    let? observed := observeAt c anchor in
    Ret (twapPrice c (sh_Time header) inDecimals outDecimals observed)
  end.

Definition uniswapIdentity (c : UniswapV3Client) : reader (result srcerr unit) :=
  let? _ := validatePoolTokensAt c None in
  let! r := observeAt c None in
  Ret (match r with
       | Ok _ => Ok tt
       | Err e =>
         if isPriceSourceContractRevertReason (goerr_of e) "OLD"
         then Err (newPriceSourceConfigurationError (SText
                ("uniswap pool observation history is shorter than the configured " +:+ pretty (un_window c) +:+
                 "-second twap window")))
         else Err e
       end).

(** ** The check of all identities *)

Definition sourceConfigurationValidationAttempts : nat := 3.

(** At most [attempts] runs of the validator; only an inconclusive answer is asked again, and a
    last one counts as a wrong configuration. *)
Fixpoint validateSourceConfigurationWithRetry (validator : reader (result srcerr unit)) (attempts : nat)
    : reader (result srcerr unit) :=
  match attempts with
  | O => Ret (Ok tt)
  | S attempts =>
    let! r := validator in
    match r with
    | Ok _ => Ret r
    | Err e =>
      match asInconclusive e with
      | None => Ret (Err e)
      | Some cause =>
        let! ctx := ask SCtxErr in
        match ctx with
        | Some c => Ret (Err (SGo c))
        | None =>
          if decide (attempts = 0%nat) then Ret (Err (newPriceSourceConfigurationError cause)) else
          let! waited := ask SRetryWait in
          match waited with
          | Some c => Ret (Err (SGo c))
          | None => validateSourceConfigurationWithRetry validator attempts
          end
        end
      end
    end
  end.

Record sourceConfigurationCheck := mkSourceCheck { sk_eid : Z; sk_source : string; sk_role : string }.

(** A check for every reader that has a validator, by chain, primary first. *)
Definition appendSourceConfigurationCheck (validates : string -> bool) (checks : list sourceConfigurationCheck)
    (eid : Z) (role : string) (source : ConfiguredPriceReader) : list sourceConfigurationCheck :=
  if cr_Reader source && validates (cr_Name source)
  then checks ++ [mkSourceCheck eid (cr_Name source) role] else checks.

Definition sourceConfigurationChecks (validates : string -> bool) (sources : gmap Z ChainSources)
    : list sourceConfigurationCheck :=
  fold_left (fun checks eid =>
    match sources !! eid with
    | Some cs =>
      fold_left (fun checks source => appendSourceConfigurationCheck validates checks eid "sanity" source)
        (cs_Sanity cs) (appendSourceConfigurationCheck validates checks eid "primary" (cs_Primary cs))
    | None => checks
    end) (merge_sort Z.le (map_to_list sources).*1) [].

(** The first result of every check; the context's error for the ones that are late. *)
Definition recordResults (n : nat) (arrivals : list (nat * result srcerr unit)) (requestErr : goerr)
    : list (result srcerr unit) :=
  (fun i => match list_find (fun x => x.1 = i) arrivals with
            | Some (_, (_, r)) => r
            | None => Err (SGo requestErr)
            end) <$> seq 0 n.

(** ValidateSourceConfigurations, from the results in order of arrival: the error of the
    caller's context if it is done, otherwise the wrong configurations; other failures are
    only reported. *)
Definition ValidateSourceConfigurations (validates : string -> bool) (sources : gmap Z ChainSources) (timeout : Z)
    (arrivals : list (nat * result srcerr unit)) (requestErr : goerr) (parent : option goerr)
    : list PriceSourceFailure * result srcerr unit :=
  if decide (timeout <= 0) then ([], Err (SText "price source request timeout must be positive")) else
  let checks := sourceConfigurationChecks validates sources in
  if decide (checks = []) then ([], Ok tt) else
  match parent with
  | Some e => ([], Err (SGo e))
  | None =>
    let results := recordResults (length checks) arrivals requestErr in
    let failing := omap (fun x => match x.2 with Err e => Some (x.1, e) | Ok _ => None end) (zip checks results) in
    let wrong := filter (fun x => isPriceSourceConfigurationError x.2 = true) failing in
    let other := filter (fun x => isPriceSourceConfigurationError x.2 = false) failing in
    ((fun x => mkFailure (sk_eid x.1) (sk_source x.1) (sk_role x.1)
                 (priceSourceFailureCategory (goerr_of x.2)) 0 (goerr_of x.2)) <$> other,
     if decide (wrong = []) then Ok tt
     else Err (SGo (errJoin ((fun x => errWrap (sk_source x.1 +:+ " source configuration for chain " +:+
                                                pretty (sk_eid x.1) +:+ ": " +:+ Error (goerr_of x.2))
                                          (goerr_of x.2)) <$> wrong))))
  end.
End clients.

(** ** Facts *)

(** The truncated quotient corrected for negative deltas is the floor. *)
Lemma meanTick_floor delta window : 0 < window -> meanTick delta window = delta / window.
Proof.
  intros Hw. unfold meanTick. pose proof (Z.quot_rem' delta window) as E.
  destruct (Z_lt_le_dec delta 0) as [Hn|Hp].
  - pose proof (Z.rem_bound_pos_neg delta window Hw ltac:(lia)) as Hr.
    destruct (decide (delta < 0 /\ Z.rem delta window <> 0)) as [Hd|Hd].
    + apply (Z.div_unique_pos _ _ _ (window + Z.rem delta window)); lia.
    + apply (Z.div_unique_pos _ _ _ 0); lia.
  - rewrite decide_False by lia. by apply Z.quot_div_nonneg.
Qed.

(** Every factor is below 2^128, so a step never raises the ratio, and the product over all
    twenty bits bounds every tick's ratio from below. *)
Definition tick_floor : Z := fold_left (fun r f => Z.shiftr (r * f.2) 128) tickFactors 0xfffcb933bd6fad37aa2d162d1a594001.

Lemma tickStep_bounds absTick r0 r factor : 0 <= factor.2 < 2 ^ 128 -> 0 <= r0 <= r ->
  Z.shiftr (r0 * factor.2) 128 <= tickStep absTick r factor <= r.
Proof.
  intros Hf Hr. unfold tickStep. rewrite !Z.shiftr_div_pow2 by lia.
  assert (r0 * factor.2 / 2 ^ 128 <= r * factor.2 / 2 ^ 128) by (apply Z.div_le_mono; nia).
  assert (r * factor.2 / 2 ^ 128 <= r) by (apply Z.div_le_upper_bound; nia).
  case_decide; lia.
Qed.

Lemma tickRatio_bounds absTick : tick_floor <= tickRatio absTick <= 2 ^ 128.
Proof.
  assert (forall fs r0 r, Forall (fun f => 0 <= f.2 < 2 ^ 128) fs -> 0 <= r0 <= r ->
    0 <= fold_left (fun r f => Z.shiftr (r * f.2) 128) fs r0 <= fold_left (tickStep absTick) fs r /\
    fold_left (tickStep absTick) fs r <= r) as H.
  { induction fs as [|f fs IH]; intros r0 r Hf Hr; cbn [fold_left]; [lia|]. apply Forall_cons in Hf as [Hf Hfs].
    pose proof (tickStep_bounds absTick r0 r f Hf Hr) as Hs.
    assert (0 <= Z.shiftr (r0 * f.2) 128) by (apply Z.shiftr_nonneg; nia).
    destruct (IH (Z.shiftr (r0 * f.2) 128) (tickStep absTick r f) Hfs ltac:(lia)) as [? ?]. lia. }
  assert (Forall (fun f => 0 <= f.2 < 2 ^ 128) tickFactors) as Hf by (repeat constructor; cbn; lia).
  unfold tickRatio, tick_floor. change (Z.shiftl 1 128) with (2 ^ 128). case_decide.
  - destruct (H tickFactors 0xfffcb933bd6fad37aa2d162d1a594001 0xfffcb933bd6fad37aa2d162d1a594001 Hf ltac:(lia)). lia.
  - destruct (H tickFactors 0xfffcb933bd6fad37aa2d162d1a594001 (2 ^ 128) Hf ltac:(lia)). lia.
Qed.

Lemma tick_floor_pos : 2 ^ 33 <= tick_floor.
Proof. vm_compute. discriminate. Qed.

Lemma sqrtRatioAtTick_pos tick : minUniswapV3Tick <= tick <= maxUniswapV3Tick ->
  exists r, sqrtRatioAtTick tick = Ok r /\ 0 < r < 2 ^ 224.
Proof.
  intros Ht. unfold sqrtRatioAtTick. rewrite decide_True by lia. eexists. split; [done|].
  set (absTick := if decide (tick < 0) then - tick else tick). pose proof (tickRatio_bounds absTick) as Hb.
  pose proof tick_floor_pos as Hf. change (Z.shiftl 1 256) with (2 ^ 256).
  set (ratio := if decide (0 < tick) then _ else _).
  assert (2 ^ 33 <= ratio < 2 ^ 255) as Hr.
  { unfold ratio. case_decide; [|lia]. rewrite Z.quot_div_nonneg by lia. split.
    - apply Z.div_le_lower_bound; nia.
    - apply Z.div_lt_upper_bound; nia. }
  rewrite Z.shiftr_div_pow2 by lia.
  assert (2 <= ratio / 2 ^ 32) by (apply Z.div_le_lower_bound; lia).
  assert (ratio / 2 ^ 32 < 2 ^ 223) by (apply Z.div_lt_upper_bound; lia).
  destruct (bool_decide _); lia.
Qed.

Lemma quoteAtTick_total tick base a b : minUniswapV3Tick <= tick <= maxUniswapV3Tick -> 0 < base ->
  exists sq, sqrtRatioAtTick tick = Ok sq /\ 0 < sq /\
    quoteAtTick tick (Some base) a b =
      Ok (if decide (a < b) then sq * sq * base / 2 ^ 192 else 2 ^ 192 * base / (sq * sq)).
Proof.
  intros Ht Hb. destruct (sqrtRatioAtTick_pos tick Ht) as (sq & E & Hsq). exists sq. split; [done|]. split; [lia|].
  unfold quoteAtTick. rewrite decide_True by (cbn; lia). rewrite E. change (Z.shiftl 1 192) with (2 ^ 192).
  f_equal. case_decide; apply Z.quot_div_nonneg; cbn; nia.
Qed.

(** two cumulatives of a pool are accepted exactly when the mean tick, rounded down, is a
    tick of the protocol and the harmonic mean liquidity is positive; the quote at an accepted
    tick is then defined, the square root ratio being positive, for every positive amount and
    either order of the tokens: no division by zero is possible. *)
Theorem observation_priced window t0 t1 s0 s1 base a b : 0 < window -> 0 < base ->
  let mean := (t1 - t0) / window in
  let liquidity := window * (2 ^ 160 - 1) / ((s1 - s0) * 2 ^ 32) in
  if decide (minUniswapV3Tick <= mean <= maxUniswapV3Tick /\ s0 < s1 /\ 0 < liquidity)
  then observation window [t0; t1] [s0; s1] = Ok (mean, liquidity) /\
       exists sq, sqrtRatioAtTick mean = Ok sq /\ 0 < sq /\
         quoteAtTick mean (Some base) a b =
           Ok (if decide (a < b) then sq * sq * base / 2 ^ 192 else 2 ^ 192 * base / (sq * sq))
  else is_ok (observation window [t0; t1] [s0; s1]) = false.
Proof.
  intros Hw Hb mean liquidity. unfold observation. rewrite meanTick_floor by done. fold mean.
  assert (s0 < s1 -> harmonicLiquidity window (s1 - s0) = liquidity) as Hl.
  { intros Hs. unfold harmonicLiquidity, liquidity. change (Z.shiftl 1 160) with (2 ^ 160).
    rewrite Z.shiftl_mul_pow2 by lia. apply Z.quot_div_nonneg; nia. }
  assert (minUniswapV3Tick <= mean <= maxUniswapV3Tick -> is_int64 mean) as Hi
    by (unfold minUniswapV3Tick, maxUniswapV3Tick, is_int64; lia).
  destruct (decide (minUniswapV3Tick <= mean <= maxUniswapV3Tick /\ s0 < s1 /\ 0 < liquidity)) as [(Hm & Hs & Hq)|Hn].
  - split; [|by apply quoteAtTick_total]. specialize (Hi Hm).
    rewrite decide_True by (intros [?|?]; [done|lia]). rewrite decide_True by lia. rewrite Hl, decide_True by lia. done.
  - do 2 (case_decide; [|done]). rewrite Hl by lia. case_decide; [|done]. exfalso. apply Hn. lia.
Qed.

(** ** One block per price *)

Section pinned.
Context `{SourceAbi}.

Abbreviation reads := (list (event squery)).

(** A contract is read only at the header fetched before, by its hash. *)
Definition pinned (past : reads) (e : event squery) : Prop :=
  match e with
  | EvAsk (SCall _ _ mode) _ _ => exists header db, EvAsk SHeader (Ok (Some header)) db ∈ past /\
      mode = CallAtAnchor (Some (mkAnchor (sh_Number header) (sh_Hash header)))
  | _ => True
  end.

Definition at_mode (mode : address_mode) (R : Type) (q : squery R) : Prop :=
  match q with SCall _ _ m => m = mode | _ => False end.

Lemma callView_only T {R} source op to (v : sview R) anchor :
  only (at_mode (CallAtAnchor anchor)) T (callView source op to v anchor).
Proof.
  unfold callView. destruct (PackView v); [|done]. split; [done|]. by intros [out|e].
Qed.

Lemma readAddress_only T m to v anchor : only (at_mode (CallAtAnchor anchor)) T (readAddress m to v anchor).
Proof. apply only_andThen; [apply callView_only|done]. Qed.

Lemma validatePoolTokensAt_only T c anchor : only (at_mode (CallAtAnchor anchor)) T (validatePoolTokensAt c anchor).
Proof.
  apply only_andThen; [apply only_bind; [apply readAddress_only|done]|]. intros a.
  apply only_andThen; [apply only_bind; [apply readAddress_only|done]|done].
Qed.

Lemma chainlinkIdentity_only T c anchor : only (at_mode (CallAtAnchor anchor)) T (chainlinkIdentity c anchor).
Proof. apply only_bind; [apply callView_only|done]. Qed.

(** Behind the header, a routine that reads only at its anchor is pinned. *)
Lemma pinned_after {A} (p : reader A) header past db0 db :
  only (at_mode (CallAtAnchor (Some (mkAnchor (sh_Number header) (sh_Hash header))))) (fun _ => False) p ->
  EvAsk SHeader (Ok (Some header)) db0 ∈ past ->
  safe pinned p past db (fun _ _ _ => True).
Proof.
  revert past db. induction p as [a|R c k IH|R q k IH]; intros past db Hp Hin db1 Hdb; [done|by destruct Hp|].
  destruct Hp as [Hq Hk]. intros a. split; [|apply IH; [done|set_solver]].
  destruct q; try done. cbn in Hq. exists header, db0. done.
Qed.

(** everything a Chainlink or Uniswap price is computed from is read at one block: every
    contract call is pinned to the header the client fetched before it. *)
Theorem source_reads_pinned (chainlink : ChainlinkClient) (uniswap : UniswapV3Client) (p : reader (result srcerr SourcePrice))
    db tr1 to data mode out db1 tr2 db' r :
  p = chainlinkPriceUSD chainlink \/ p = uniswapPriceUSD uniswap ->
  behaves p db (tr1 ++ EvAsk (SCall to data mode) out db1 :: tr2) db' r ->
  exists header db0, EvAsk SHeader (Ok (Some header)) db0 ∈ tr1 /\
    mode = CallAtAnchor (Some (mkAnchor (sh_Number header) (sh_Hash header))).
Proof.
  intros Hp Hb. enough (safe pinned p [] db (fun _ _ _ => True)) as Hs by exact (safe_event _ _ _ _ _ _ _ _ _ Hs Hb).
  destruct Hp as [-> | ->]; (apply safe_ask; intros db0 [[[number time hash]|]|e] _; (split; [done|]); try (by apply safe_ret)).
  - destruct number as [number|]; [|by apply safe_ret]. case_decide; [by apply safe_ret|].
    apply (pinned_after _ (mkSourceHeader (Some number) time hash) _ db0); [|set_solver].
    apply only_andThen; [apply chainlinkIdentity_only|]. intros _.
    apply only_andThen; [apply callView_only|]. intros decimals. case_decide; [done|].
    apply only_andThen; [apply callView_only|done].
  - cbn [sh_Time]. case_decide; [by apply safe_ret|].
    apply (pinned_after _ (mkSourceHeader number time hash) _ db0); [|set_solver].
    apply only_andThen; [apply validatePoolTokensAt_only|]. intros _.
    do 2 (apply only_andThen; [apply only_andThen; [apply callView_only|done]|intros ?]).
    apply only_andThen; [apply only_andThen; [apply callView_only|done]|done].
Qed.
End pinned.

(** The start-up check fails exactly when some source's own result is a wrong configuration;
    late and unavailable sources are left to the loops. *)
Lemma ValidateSourceConfigurations_spec validates sources timeout arrivals requestErr : 0 < timeout ->
  is_ok (ValidateSourceConfigurations validates sources timeout arrivals requestErr None).2 = false <->
  exists i ck j e, sourceConfigurationChecks validates sources !! i = Some ck /\
    list_find (fun x => x.1 = i) arrivals = Some (j, (i, Err e)) /\ isPriceSourceConfigurationError e = true.
Proof.
  intros Ht. unfold ValidateSourceConfigurations. rewrite decide_False by lia.
  set (checks := sourceConfigurationChecks validates sources). case_decide as Hc.
  { rewrite Hc. split; [done|]. by intros (i & ? & ? & ? & ? & _). }
  cbn [snd]. set (failing := omap _ _).
  assert (forall ck e, (ck, e) ∈ failing <-> exists i, checks !! i = Some ck /\
    recordResults (length checks) arrivals requestErr !! i = Some (Err e)) as Hf.
  { intros ck e. unfold failing. rewrite list_elem_of_omap. split.
    - intros ([c r] & [i Hi]%list_elem_of_lookup & E). cbn in E. apply lookup_zip_with_Some in Hi as (c' & r' & [= -> ->] & H1 & H2).
      destruct r'; [done|]. injection E as -> ->. eauto.
    - intros (i & H1 & H2). exists (ck, Err e). split; [|done]. apply list_elem_of_lookup. exists i.
      apply lookup_zip_with_Some. eauto. }
  assert (forall i e, recordResults (length checks) arrivals requestErr !! i = Some (Err e) -> isPriceSourceConfigurationError e = true ->
    exists j, list_find (fun x => x.1 = i) arrivals = Some (j, (i, Err e))) as Hr.
  { intros i e. unfold recordResults. rewrite list_lookup_fmap, fmap_Some. intros (i' & [-> Hl]%lookup_seq & E) He.
    cbn in E. destruct (list_find (fun x => x.1 = i) arrivals) as [[j [i2 r]]|] eqn:Ef; [|injection E as ->; done].
    subst r. apply list_find_Some in Ef as (? & Ei & _). cbn in Ei. subst i2. by exists j. }
  destruct (decide (filter (fun x => isPriceSourceConfigurationError x.2 = true) failing = [])) as [Hn|Hn]; (split; [|]).
  - done.
  - intros (i & ck & j & e & H1 & H2 & H3). exfalso. eapply not_elem_of_nil. rewrite <- Hn.
    apply list_elem_of_filter. split; [|apply Hf; exists i; split; [done|]; unfold recordResults;
      rewrite list_lookup_fmap, lookup_seq_lt by (by eapply lookup_lt_Some); cbn; by rewrite H2]. done.
  - intros _. destruct (filter _ failing) as [|[ck e] l] eqn:Ef; [done|].
    assert ((ck, e) ∈ filter (fun x => isPriceSourceConfigurationError x.2 = true) failing) as [He Hin]%list_elem_of_filter
      by (rewrite Ef; left).
    apply Hf in Hin as (i & H1 & H2). destruct (Hr i e H2 He) as [j Hj]. by exists i, ck, j, e.
  - done.
Qed.
