(* ===== verification/Pricing.v ===== *)
(** * The price bot (Bot of go/internal/pricing/pricing.go)

    The bot keeps the price snapshots of the configured feeds fresh: a periodic evaluation
    ([EnqueueOnce]) and a check for gas spikes ([EnqueueOnGasSpike]). It is a routine over the
    store and the outside (price sources, gas readers, the quorum client of the source chain,
    the clock, the context) that threads the bot's own fields, which an error does not roll
    back. Nil maps of the code are empty ones here. *)

From S2P Require Import Prelude GoErr BigUtil Schema Outbox Attempts Jobs Store StateReads Quorum QuorumLogs Registry Proc Worker PriceMath PriceSelect PriceUpdates.
From stdpp Require Import base gmap list strings numbers pretty.
From Stdlib Require Import ZArith QArith Lia.
#[local] Open Scope Z_scope.

(** ** Questions *)

(** What the select of Run receives. *)
Inductive tick := TickDone (e : goerr) | TickInterval | TickGas.

(** [PSources]: the answers of the configured readers in order of arrival, and the error of the
    request context that ends the wait. [PDone] waits for the end of the context. *)
Inductive pquery : Type -> Type :=
| PSources (eid : Z) (configured : list ConfiguredPriceReader) : pquery (list (nat * answer) * goerr)
| PGas (eid : Z) : pquery (result goerr (option Z))
| PNow : pquery Z
| PHead (eid : Z) : pquery (result client_err (option Z * Hash))
| PCall (eid : Z) (to : Address) (data : bytes) (mode : address_mode) : pquery (result client_err bytes)
| PCtxErr : pquery (option goerr)
| PDone : pquery goerr
| PTick : pquery tick.

(** ** Errors and state *)

Inductive perr :=
| PDB (e : dberr)
| PClient (e : client_err)
| PSource (e : goerr)
| PCtx (e : goerr)
| PText (msg : string)
| PWrap (msg : string) (e : perr)
| PJoin (errs : list perr)
| errPendingRaceLost.

Record writtenPrice := mkWritten { wp_price : option Z; wp_writtenAt : Z }.

(** The mutable fields of Bot, and the memo of the priceCycle in use. [cycleWritten] has [None]
    for a snapshot that does not exist. *)
Record BotState := mkBotState {
  lastGasPrices : gmap string Z;
  cycleWritten : gmap string (option writtenPrice);
  cycleAnchors : gmap Z (result perr (option StateAnchor));
  pendingFeeds : gset string;
  nativeUSD : gmap Z (result perr (option Q));
  gasWei : gmap Z (result perr Z) }.
#[export] Instance BotState_eta : Eta BotState :=
  fun s => mkBotState (lastGasPrices s) (cycleWritten s) (cycleAnchors s) (pendingFeeds s) (nativeUSD s) (gasWei s).
#[local] Open Scope worker_scope.

Definition bot (A : Type) : Type := BotState -> proc pquery (BotState * result perr A).

#[export] Instance bot_ret : MRet bot := fun _ a s => Ret (s, Ok a).
#[export] Instance bot_bind : MBind bot := fun _ _ k m s =>
  proc_bind (m s) (fun x => match x.2 with Ok a => k a x.1 | Err e => Ret (x.1, Err e) end).

Definition fails {A} (e : perr) : bot A := fun s => Ret (s, Err e).
Definition liftB {A} (r : result perr A) : bot A := fun s => Ret (s, r).
Definition text {A} (r : result string A) : result perr A :=
  match r with Ok a => Ok a | Err msg => Err (PText msg) end.
Definition wrapErr {A} (msg : string) (r : result perr A) : result perr A :=
  match r with Ok a => Ok a | Err e => Err (PWrap msg e) end.
(** The value and the error, for the caller to look at. *)
Definition attempt {A} (m : bot A) : bot (result perr A) :=
  fun s => proc_bind (m s) (fun x => Ret (x.1, Ok x.2)).
Definition fields : bot BotState := fun s => Ret (s, Ok s).
Definition setFields (f : BotState -> BotState) : bot unit := fun s => Ret (f s, Ok tt).
Definition askB {R} (q : pquery R) : bot R := fun s => proc_bind (ask q) (fun r => Ret (s, Ok r)).
Definition queryClient {R} (q : pquery (result client_err R)) : bot R :=
  fun s => proc_bind (ask q) (fun r => Ret (s, match r with Ok a => Ok a | Err e => Err (PClient e) end)).
Definition callStore {R} (c : store_call R) : bot (result dberr R) :=
  fun s => proc_bind (store c) (fun r => Ret (s, Ok r)).

Definition cListPendingPricingTxs (eid : Z) : store_call (list (Z * OutboxRow)) :=
  readCall (fun _ => ListPendingPricingTxs eid).
Definition cEnqueuePricingSnapshotTx (request : TxRequest) : store_call Z :=
  opCall (fun _ => OpEnqueuePricing request)
    (fun env db => EnqueuePricingSnapshotTx request (ce_now env) db) (fun _ _ => eq_refl).

(** The fields New and NewWithDependencies set once. *)
Record BotConfig := mkBotConfig {
  bc_registry : Registry; bc_settings : Settings; bc_sources : gmap Z ChainSources }.

(** NewWithDependencies of a store, registry and reader that are not nil: disabled, a bot
    without dependencies. *)
Definition NewWithDependencies (registry : Registry) (settings : Settings)
    (sources : gmap Z ChainSources) : result string (option BotConfig * BotState) :=
  let empty := mkBotState ∅ ∅ ∅ ∅ ∅ ∅ in
  if negb (st_Enabled settings) then Ok (None, empty) else
  match validateSettings settings with
  | Err e => Err e
  | Ok _ => Ok (Some (mkBotConfig registry settings sources), empty)
  end.

Section bot.
Context `{PriceAbi} (b : BotConfig).
Let settings := bc_settings b.

(** ** The stored snapshot *)

Definition snapshotAnchor (srcEID : Z) : bot (option StateAnchor) :=
  let remember (r : result perr (option StateAnchor)) : bot (option StateAnchor) :=
    _ ← setFields (fun s => s <| cycleAnchors := <[srcEID := r]> (cycleAnchors s) |>); liftB r in
  s ← fields;
  match cycleAnchors s !! srcEID with
  | Some state => liftB state
  | None =>
    match Get (bc_registry b) srcEID with
    | Err e => remember (Err (PText e))
    | Ok srcChain =>
      match ch_RPC srcChain with
      | None => remember (Ok None)
      | Some _ =>
        head ← attempt (queryClient (PHead srcEID));
        match head with
        | Err e => remember (Err e)
        | Ok (None, _) => remember (Ok None)
        | Ok (Some number, hash) => remember (Ok (Some (AnchorFromHead (number, hash))))
        end
      end
    end
  end.

Definition readPriceSnapshot (srcEID : Z) (priceFeed : Address) (dstEID : Z) (anchor : option StateAnchor)
    : bot PriceSnapshot :=
  calldata ← liftB (text (PackStored dstEID));
  result ← queryClient (PCall srcEID priceFeed calldata (CallAtAnchor anchor));
  liftB (text (UnpackStored result)).

(** onChainPriceSnapshotReader.PriceSnapshotAt *)
Definition PriceSnapshotAt (srcEID : Z) (priceFeed : Address) (dstEID : Z) (anchor : option StateAnchor)
    : bot PriceSnapshot :=
  srcChain ← liftB (text (Get (bc_registry b) srcEID));
  match ch_RPC srcChain with
  | None => fails (PText ("pricing snapshot RPC for chain " +:+ pretty srcEID +:+ " is not configured"))
  | Some _ =>
    r ← attempt (readPriceSnapshot srcEID priceFeed dstEID anchor);
    liftB (wrapErr ("read price snapshot for " +:+ pretty srcEID +:+ " -> " +:+ pretty dstEID) r)
  end.

Definition loadWrittenPrice (update : pricedUpdate) : bot (option writtenPrice) :=
  let key := priceUpdateKey update in
  let remember (w : option writtenPrice) : bot (option writtenPrice) :=
    _ ← setFields (fun s => s <| cycleWritten := <[key := w]> (cycleWritten s) |>); mret w in
  s ← fields;
  match cycleWritten s !! key with
  | Some state => mret state
  | None =>
    anchor ← snapshotAnchor (pu_SrcEID update);
    snapshot ← PriceSnapshotAt (pu_SrcEID update) (pu_PriceFeed update) (pu_DstEID update) anchor;
    if decide (ps_UpdatedAt snapshot = 0 /\ ps_DstGasPriceInSrcToken snapshot = Some 0) then remember None else
    _ ← liftB (wrapErr ("on-chain price snapshot for " +:+ pretty (pu_SrcEID update) +:+ " -> " +:+
                       pretty (pu_DstEID update) +:+ " is invalid") (text (validateSnapshot snapshot)));
    remember (Some (mkWritten (Clone (ps_DstGasPriceInSrcToken snapshot))
                      (unixTime (int64_of_uint64 (ps_UpdatedAt snapshot)))))
  end.

(** The deviation and heartbeat gate. *)
Definition shouldWriteSnapshot (update : pricedUpdate) (snapshot : PriceSnapshot) : bot bool :=
  written ← loadWrittenPrice update;
  match written with
  | None => mret true
  | Some previous =>
    let deviation := PriceChangeBps (wp_price previous) (ps_DstGasPriceInSrcToken snapshot) in
    now ← askB PNow;
    let elapsed := timeSub now (wp_writtenAt previous) in
    let elapsed := if decide (elapsed < 0) then 0 else elapsed in
    mret (bool_decide (st_MinUpdateDeviation settings <= deviation \/ st_Heartbeat settings <= elapsed))
  end.

Fixpoint primeSnapshotBaselines (updates : list pricedUpdate) : bot unit :=
  match updates with
  | [] => mret tt
  | update :: rest => _ ← attempt (loadWrittenPrice update); primeSnapshotBaselines rest
  end.

(** ** Market and gas inputs *)

(** ChainNativePrice with the bot's policy; the reported failures are logged. *)
Definition ChainNativePrice (eid : Z) : bot (option Q) :=
  let source {A} (r : result goerr A) : result perr A :=
    match r with Ok a => Ok a | Err e => Err (PSource e) end in
  sources ← liftB (source (checkSources (bc_sources b) eid (st_SourceRequestTimeout settings)));
  let configured := cs_Primary sources :: cs_Sanity sources in
  arrived ← askB (PSources eid configured);
  let completed := collect configured arrived.1 arrived.2 ∅ in
  now ← askB PNow;
  liftB (source (selectFrom eid sources completed now (st_MaxDeviation settings)).2).

(** priceCycle.nativePrice and priceCycle.gasPrice: failures are remembered too. *)
Definition nativePrice (eid : Z) : bot (option Q) :=
  s ← fields;
  match nativeUSD s !! eid with
  | Some result => liftB result
  | None =>
    r ← attempt (ChainNativePrice eid);
    _ ← setFields (fun s => s <| nativeUSD := <[eid := r]> (nativeUSD s) |>);
    liftB r
  end.

Definition currentDstGasPrice (dstEID : Z) : bot Z :=
  match bc_sources b !! dstEID with
  | Some dstSources =>
    if cs_Gas dstSources then
      r ← askB (PGas dstEID);
      match r with
      | Err e => fails (PSource e)
      | Ok price =>
        if decide (notPositive price)
        then fails (PText ("pricing gas source for chain " +:+ pretty dstEID +:+ " returned non-positive gas price"))
        else mret (default 0 price)
      end
    else fails (PText ("pricing gas source for chain " +:+ pretty dstEID +:+ " is not configured"))
  | None => fails (PText ("pricing gas source for chain " +:+ pretty dstEID +:+ " is not configured"))
  end.

Definition cycleGasPrice (eid : Z) : bot Z :=
  s ← fields;
  match gasWei s !! eid with
  | Some result => liftB result
  | None =>
    r ← attempt (currentDstGasPrice eid);
    _ ← setFields (fun s => s <| gasWei := <[eid := r]> (gasWei s) |>);
    liftB r
  end.

Definition newPriceCycle (knownGas : gmap Z Z) : bot unit :=
  setFields (fun s => s <| nativeUSD := ∅ |> <| gasWei := Ok <$> knownGas |>).

Definition currentDstDataFeePerByte (dstEID : Z) : result string (option Z) :=
  match bc_sources b !! dstEID with
  | Some (mkChainSources _ _ _ (Some fee) _) =>
    check ~ (fee < 0) or ("pricing data fee source for chain " +:+ pretty dstEID +:+ " returned negative data fee")%string ;;
    Ok (Clone (Some fee))
  | _ => Err ("pricing data fee source for chain " +:+ pretty dstEID +:+ " is not configured")
  end.

Definition cyclePathwayPrices (srcEID dstEID : Z) : bot (option Q * option Q) :=
  match bc_sources b !! srcEID, bc_sources b !! dstEID with
  | Some src, Some dst =>
    if decide (cs_NativeAssetID src <> ""%string /\ cs_NativeAssetID src = cs_NativeAssetID dst)
    then mret (Some 1%Q, Some 1%Q) else
    srcPrice ← nativePrice srcEID;
    dstPrice ← nativePrice dstEID;
    mret (CloneRat srcPrice, CloneRat dstPrice)
  | _, _ => fails (PText ("pricing sources for pathway " +:+ pretty srcEID +:+ " -> " +:+ pretty dstEID +:+
                          " are not configured"))
  end.

(** The same without the memo of a cycle. *)
Definition PathwayNativePrices (srcEID dstEID : Z) : bot (option Q * option Q) :=
  let missing eid := fails (PText ("pricing sources for chain " +:+ pretty eid +:+ " are not configured")) in
  match bc_sources b !! srcEID with
  | None => missing srcEID
  | Some src =>
    match bc_sources b !! dstEID with
    | None => missing dstEID
    | Some dst =>
      if decide (cs_NativeAssetID src <> ""%string /\ cs_NativeAssetID src = cs_NativeAssetID dst)
      then mret (Some 1%Q, Some 1%Q) else
      srcPrice ← ChainNativePrice srcEID;
      dstPrice ← ChainNativePrice dstEID;
      mret (srcPrice, dstPrice)
    end
  end.

(** ** One feed's batch *)

(** One entry of the transaction, with the gas price it was computed from. *)
Record entry := mkEntry { en_target : pricedUpdate; en_update : PriceSnapshotUpdate; en_gas : Z }.

(** The body of the loop over the targets: [None] when the gate suppresses the write. *)
Definition evaluateTarget (target : pricedUpdate) : bot (option entry) :=
  dstChain ← liftB (text (Get (bc_registry b) (pu_DstEID target)));
  prices ← cyclePathwayPrices (pu_SrcEID target) (pu_DstEID target);
  dstGasPrice ← cycleGasPrice (pu_DstEID target);
  dstDataFeePerByte ← liftB (text (currentDstDataFeePerByte (pu_DstEID target)));
  now ← askB PNow;
  snapshot ← liftB (text (BuildPriceSnapshot (mkPriceInputs prices.1 prices.2 (Some dstGasPrice) dstDataFeePerByte
                           (timeUnix now mod 2 ^ 64) (Z.quot (st_StaleAfter settings) 1000000000))));
  write ← shouldWriteSnapshot target snapshot;
  mret (if write : bool then Some (mkEntry target (mkSnapshotUpdate (ch_EID dstChain) snapshot) dstGasPrice) else None).

Fixpoint evaluateTargets (targets : list pricedUpdate) : bot (list entry) :=
  match targets with
  | [] => mret []
  | target :: rest =>
    e ← evaluateTarget target;
    entries ← evaluateTargets rest;
    mret (match e with Some e => e :: entries | None => entries end)
  end.

Definition rememberPendingFeed (srcEID : Z) (priceFeed : Address) (s : BotState) : BotState :=
  s <| pendingFeeds := {[pendingFeedKey srcEID priceFeed]} ∪ pendingFeeds s |>.

(** The gas-spike baselines of the enqueued targets. *)
Definition advanceGas (entries : list entry) (s : BotState) : BotState :=
  s <| lastGasPrices := fold_left (fun m e => <[priceUpdateKey (en_target e) := en_gas e]> m) entries
                          (lastGasPrices s) |>.

Definition enqueuePriceUpdateBatch (batch : pricedUpdateBatch) : bot (Z * list pricedUpdate) :=
  srcChain ← liftB (text (Get (bc_registry b) (pb_SrcEID batch)));
  entries ← evaluateTargets (pb_Targets batch);
  if decide (entries = []) then mret (0, []) else
  tx ← liftB (text (BuildSetPriceSnapshotTx (ch_EID srcChain) (pb_PriceFeed batch) (st_SignerID settings)
                     (en_update <$> entries)));
  r ← callStore (cEnqueuePricingSnapshotTx tx);
  match r with
  | Err ErrTxSendScopeInactive => mret (0, [])
  | Err ErrPricingPendingExists => fails errPendingRaceLost
  | Err e => fails (PDB e)
  | Ok id =>
    _ ← setFields (fun s => rememberPendingFeed (ch_EID srcChain) (pb_PriceFeed batch) (advanceGas entries s));
    mret (id, en_target <$> entries)
  end.

(** ** Pending feeds *)

Fixpoint pendingRows (srcEID : Z) (rows : list (Z * OutboxRow)) (pending : gset string) : bot (gset string) :=
  match rows with
  | [] => mret pending
  | (id, row) :: rest =>
    _ ← liftB (wrapErr ("pending pricing tx " +:+ pretty id +:+ " on chain " +:+ pretty srcEID +:+ " is undecodable")
               (text (decodeSetPriceSnapshotCalldata (o_calldata row))));
    pendingRows srcEID rest ({[pendingFeedKey srcEID (BytesToAddress (o_to_address row))]} ∪ pending)
  end.

Fixpoint pendingOf (srcEIDs : list Z) (pending : gset string) : bot (gset string) :=
  match srcEIDs with
  | [] => mret pending
  | srcEID :: rest =>
    r ← callStore (cListPendingPricingTxs srcEID);
    match r with
    | Err e => fails (PDB e)
    | Ok rows => pending ← pendingRows srcEID rows pending; pendingOf rest pending
    end
  end.

(** The source chains of the updates, in some order. *)
Definition loadPendingUpdateKeys (updates : list pricedUpdate) : bot (gset string) :=
  pendingOf (elements (list_to_set (pu_SrcEID <$> updates) : gset Z)) ∅.

Definition filterPendingUpdates (updates : list pricedUpdate) (pending : gset string) : list pricedUpdate :=
  filter (fun u => pendingFeedKey (pu_SrcEID u) (pu_PriceFeed u) ∉ pending) updates.

(** ** The periodic evaluation *)

Definition feedError (batch : pricedUpdateBatch) (e : perr) : perr :=
  PWrap ("feed " +:+ pretty (pb_SrcEID batch) +:+ ":" +:+ AddressHex (pb_PriceFeed batch)) e.

Definition resetCycle : bot unit := setFields (fun s => s <| cycleWritten := ∅ |> <| cycleAnchors := ∅ |>).

(** The batches in order: a failing feed is skipped, a cancelled context ends the cycle. *)
Fixpoint enqueueBatches (batches : list pricedUpdateBatch) (batchErrs : list perr) (succeeded : nat)
    : bot (list perr * nat) :=
  match batches with
  | [] => mret (batchErrs, succeeded)
  | batch :: rest =>
    r ← attempt (enqueuePriceUpdateBatch batch);
    match r with
    | Err errPendingRaceLost =>
      _ ← setFields (rememberPendingFeed (pb_SrcEID batch) (pb_PriceFeed batch));
      enqueueBatches rest batchErrs (S succeeded)
    | Err e =>
      ctx ← askB PCtxErr;
      match ctx with
      | Some c => fails (PJoin (batchErrs ++ [PCtx c]))
      | None => enqueueBatches rest (batchErrs ++ [feedError batch e]) succeeded
      end
    | Ok _ => enqueueBatches rest batchErrs (S succeeded)
    end
  end.

Definition EnqueueOnce : bot unit :=
  if negb (st_Enabled settings) then mret tt else
  updates ← liftB (text (uniquePriceUpdates (bc_registry b)));
  if decide (updates = []) then mret tt else
  _ ← resetCycle;
  pending ← loadPendingUpdateKeys updates;
  _ ← primeSnapshotBaselines updates;
  _ ← setFields (fun s => s <| pendingFeeds := pending |>);
  let updates := filterPendingUpdates updates pending in
  if decide (updates = []) then mret tt else
  _ ← newPriceCycle ∅;
  r ← enqueueBatches (priceUpdateBatches updates) [] 0;
  if decide (r.1 <> [] /\ r.2 = 0%nat) then fails (PJoin r.1) else mret tt.

(** ** The gas-spike check *)

Fixpoint readDestinationGasPrices (updates : list pricedUpdate) (prices : gmap Z Z) (failed : gset Z)
    : bot (gmap Z Z) :=
  match updates with
  | [] => mret prices
  | update :: rest =>
    if decide (is_Some (prices !! pu_DstEID update) \/ pu_DstEID update ∈ failed)
    then readDestinationGasPrices rest prices failed else
    r ← attempt (currentDstGasPrice (pu_DstEID update));
    match r with
    | Err _ => readDestinationGasPrices rest prices ({[pu_DstEID update]} ∪ failed)
    | Ok price => readDestinationGasPrices rest (<[pu_DstEID update := price]> prices) failed
    end
  end.

(** The loop that picks the spikes: baselines seeded, markers carried over, spikes with the gas
    price they react to. *)
Record spikeScan := mkScan {
  sn_baselines : gmap string Z; sn_carried : gset string; sn_spikes : list (pricedUpdate * Z) }.

Definition scanUpdate (gasPrices : gmap Z Z) (previousPending pending : gset string) (scan : spikeScan)
    (update : pricedUpdate) : spikeScan :=
  let key := priceUpdateKey update in
  let feedKey := pendingFeedKey (pu_SrcEID update) (pu_PriceFeed update) in
  match gasPrices !! pu_DstEID update with
  | None =>
    if decide (feedKey ∈ previousPending)
    then mkScan (sn_baselines scan) ({[feedKey]} ∪ sn_carried scan) (sn_spikes scan) else scan
  | Some current =>
    if decide (feedKey ∈ pending) then scan else
    let previous := sn_baselines scan !! key in
    if decide (previous = None /\ feedKey ∉ previousPending)
    then mkScan (<[key := current]> (sn_baselines scan)) (sn_carried scan) (sn_spikes scan) else
    if decide (feedKey ∉ previousPending /\ GasIncreaseBps previous (Some current) < st_GasSpikeBps settings)
    then scan
    else mkScan (sn_baselines scan) (sn_carried scan) (sn_spikes scan ++ [(update, current)])
  end.

(** The batches of the spikes: the feeds that lost the race, the ones that failed, the errors. *)
Fixpoint enqueueSpikes (batches : list pricedUpdateBatch) (raceLost failed : gset string) (batchErrs : list perr)
    : bot (gset string * gset string * list perr) :=
  match batches with
  | [] => mret (raceLost, failed, batchErrs)
  | batch :: rest =>
    let feedKey := pendingFeedKey (pb_SrcEID batch) (pb_PriceFeed batch) in
    r ← attempt (enqueuePriceUpdateBatch batch);
    match r with
    | Err errPendingRaceLost =>
      _ ← setFields (rememberPendingFeed (pb_SrcEID batch) (pb_PriceFeed batch));
      enqueueSpikes rest ({[feedKey]} ∪ raceLost) failed batchErrs
    | Err e =>
      ctx ← askB PCtxErr;
      match ctx with
      | Some c => fails (PJoin (batchErrs ++ [PCtx c]))
      | None => enqueueSpikes rest raceLost ({[feedKey]} ∪ failed) (batchErrs ++ [feedError batch e])
      end
    | Ok _ => enqueueSpikes rest raceLost failed batchErrs
    end
  end.

(** The baselines advance to the gas level reacted to, except for feeds that lost the race or
    failed. *)
Definition settleSpikes (spikes : list (pricedUpdate * Z)) (raceLost failed : gset string) (s : BotState) : BotState :=
  s <| lastGasPrices := fold_left (fun m x =>
    let feedKey := pendingFeedKey (pu_SrcEID x.1) (pu_PriceFeed x.1) in
    if decide (feedKey ∈ raceLost \/ feedKey ∈ failed) then m else <[priceUpdateKey x.1 := x.2]> m)
    spikes (lastGasPrices s) |>.

Definition EnqueueOnGasSpike : bot unit :=
  if negb (st_Enabled settings) then mret tt else
  updates ← liftB (text (uniquePriceUpdates (bc_registry b)));
  if decide (updates = []) then mret tt else
  gasPrices ← readDestinationGasPrices updates ∅ ∅;
  pending ← loadPendingUpdateKeys updates;
  s ← fields;
  let scan := fold_left (scanUpdate gasPrices (pendingFeeds s) pending) updates (mkScan (lastGasPrices s) ∅ []) in
  let spikes := sn_spikes scan in
  _ ← setFields (fun s => s <| lastGasPrices := sn_baselines scan |>
                            <| pendingFeeds := pending ∪ sn_carried scan |>);
  _ ← (if decide (spikes = []) then mret tt else resetCycle);
  let batches := priceUpdateBatches spikes.*1 in
  _ ← newPriceCycle gasPrices;
  r ← enqueueSpikes batches ∅ ∅ [];
  let '(raceLost, failed, batchErrs) := r in
  _ ← setFields (settleSpikes spikes raceLost failed);
  if decide (batchErrs <> [] /\ length batchErrs = length batches) then fails (PJoin batchErrs) else mret tt.

(** ** The loop *)

(** At most [n] ticks of Run's loop; its first evaluation comes before. *)
Fixpoint runTicks (n : nat) : bot unit :=
  match n with
  | O => mret tt
  | S n =>
    t ← askB PTick;
    match t with
    | TickDone e => fails (PCtx e)
    | TickInterval => _ ← EnqueueOnce; runTicks n
    | TickGas => _ ← EnqueueOnGasSpike; runTicks n
    end
  end.

Definition Run (n : nat) : bot unit :=
  if negb (st_Enabled settings) then e ← askB PDone; fails (PCtx e) else
  _ ← EnqueueOnce; runTicks n.
End bot.
