(* ===== verification/BotLogic.v ===== *)
(** * A program logic for the bot's monad

    [spec] keeps an invariant of the fields and states what an answered value means, given the
    events so far; with what it says of the market prices, which the price bot and the fee
    reconciler read the same way. *)

From S2P Require Import Prelude GoErr BigUtil Schema Outbox Attempts Jobs Store StateReads Quorum QuorumLogs Registry Proc Worker PriceMath PriceSelect PriceUpdates Pricing.
From stdpp Require Import base gmap list strings numbers pretty sorting.
From Stdlib Require Import ZArith QArith Lia.
#[local] Open Scope Z_scope.
#[local] Open Scope worker_scope.

Abbreviation past_t := (list (event pquery)).

Definition told (past : past_t) {R} (q : pquery R) (a : R) : Prop := exists db, EvAsk q a db ∈ past.

Lemma prefix_trans (x y z : past_t) : x `prefix_of` y -> y `prefix_of` z -> x `prefix_of` z.
Proof. intros. by etrans. Qed.

Lemma told_mono past past' {R} (q : pquery R) a : past `prefix_of` past' -> told past q a -> told past' q a.
Proof. intros [l ->] [db Hdb]. exists db. set_solver. Qed.

Definition stable (I : past_t -> BotState -> Prop) : Prop :=
  forall past past' s, past `prefix_of` past' -> I past s -> I past' s.

(** ** The logic *)

Section logic.
(** What must hold of every event, given the past; nothing is asked of questions. *)
Context (P : past_t -> event pquery -> Prop) (P_ask : forall past R (q : pquery R) a db, P past (EvAsk q a db)).

(** From a past that extends [past0] and fields that satisfy [I], the routine is safe, keeps
    [I], and answers a value that satisfies [R]. *)
Definition spec (I : past_t -> BotState -> Prop) (past0 : past_t) {A} (m : bot A) (R : A -> past_t -> Prop) : Prop :=
  forall s past db, past0 `prefix_of` past -> I past s ->
  safe P (m s) past db (fun x past' _ => past `prefix_of` past' /\ I past' x.1 /\
    match x.2 with Ok a => R a past' | Err _ => True end).

(** The same without a post-condition. *)
Definition runs (I : past_t -> BotState -> Prop) (past0 : past_t) {A} (m : bot A) : Prop :=
  forall s past db, past0 `prefix_of` past -> I past s -> safe P (m s) past db (fun _ _ _ => True).

Section rules.
Context (I : past_t -> BotState -> Prop) (I_stable : stable I).

Lemma spec_lift past0 {A} (r : result perr A) (R : A -> past_t -> Prop) :
  (forall a past, r = Ok a -> past0 `prefix_of` past -> R a past) -> spec I past0 (liftB r) R.
Proof. intros HR s past db Hp HI. apply safe_ret. intros _ _. split_and!; [done|done|]. destruct r; cbn; eauto. Qed.

Lemma spec_ret past0 {A} (a : A) (R : A -> past_t -> Prop) :
  (forall past, past0 `prefix_of` past -> R a past) -> spec I past0 (mret a) R.
Proof. intros HR. apply (spec_lift _ (Ok a)). naive_solver. Qed.

Lemma spec_fails past0 {A} e (R : A -> past_t -> Prop) : spec I past0 (fails e) R.
Proof. by apply (spec_lift _ (Err e)). Qed.

Lemma spec_bind past0 {A B} (m : bot A) (k : A -> bot B) R1 R :
  spec I past0 m R1 -> (forall a past1, past0 `prefix_of` past1 -> R1 a past1 -> spec I past1 (k a) R) ->
  spec I past0 (m ≫= k) R.
Proof.
  intros Hm Hk s past db Hp HI. apply safe_bind. eapply safe_mono; [|by apply Hm].
  intros [s' [a|e]] past' db' (Hpre & HI' & HR); cbn [fst snd] in *.
  - eapply safe_mono; [|apply (Hk a past'); [by etrans|done|done|done]].
    intros x past2 db2 (? & ? & ?). split; [by etrans|done].
  - apply safe_ret. done.
Qed.

Lemma spec_weaken past0 {A} (m : bot A) (R1 R : A -> past_t -> Prop) :
  spec I past0 m R1 -> (forall a past, past0 `prefix_of` past -> R1 a past -> R a past) -> spec I past0 m R.
Proof.
  intros Hm HR s past db Hp HI. eapply safe_mono; [|by apply Hm].
  intros [s' [a|e]] past' db' (Hpre & HI' & H); cbn [fst snd] in *; (split_and!; [done|done|]); [|done].
  apply HR; [by etrans|done].
Qed.

Lemma spec_attempt past0 {A} (m : bot A) (R : A -> past_t -> Prop) :
  spec I past0 m R -> spec I past0 (attempt m) (fun r past => match r with Ok a => R a past | Err _ => True end).
Proof.
  intros Hm s past db Hp HI. apply safe_bind. eapply safe_mono; [|by apply Hm].
  intros [s' r] past' db' (? & ? & HR). apply safe_ret. cbn [fst snd] in *. done.
Qed.

Lemma spec_fields past0 : spec I past0 fields (fun s past => past0 `prefix_of` past /\ I past s).
Proof. intros s past db Hp HI. by apply safe_ret. Qed.

Lemma spec_set past0 f : (forall past s, past0 `prefix_of` past -> I past s -> I past (f s)) ->
  spec I past0 (setFields f) (fun _ _ => True).
Proof. intros Hf s past db Hp HI. apply safe_ret. intros _ _. split_and!; [done| |done]. by apply Hf. Qed.

Lemma spec_askB past0 {R} (q : pquery R) : spec I past0 (askB q) (fun a past => told past q a).
Proof.
  intros s past db Hp HI. apply safe_ask. intros db0 a _. split; [apply P_ask|]. apply safe_ret. intros _ _.
  split_and!; [by apply prefix_app_r| |].
  - eapply I_stable; [|done]. by apply prefix_app_r.
  - exists db0. set_solver.
Qed.

Lemma spec_queryClient past0 {R} (q : pquery (result client_err R)) :
  spec I past0 (queryClient q) (fun a past => told past q (Ok a)).
Proof.
  intros s past db Hp HI. apply safe_ask. intros db0 a _. split; [apply P_ask|]. apply safe_ret. intros _ _.
  split_and!; [by apply prefix_app_r| |].
  - eapply I_stable; [|done]. by apply prefix_app_r.
  - destruct a; cbn; [|done]. exists db0. set_solver.
Qed.

Lemma spec_callStore past0 {R} (c : store_call R) (Q : result dberr R -> past_t -> Prop) :
  (forall env past db, past0 `prefix_of` past -> P past (EvStore (sc_op c env) db)) ->
  (forall env past db0 db1 res, outcome c env db0 db1 res -> Q res (past ++ [EvStore (sc_op c env) db0])) ->
  spec I past0 (callStore c) Q.
Proof.
  intros HP HQ s past db Hp HI. apply safe_store. intros db0 db1 env res _. split; [by apply HP|]. intros Ho.
  apply safe_ret. intros _ _. split_and!; [by apply prefix_app_r| |by eapply HQ].
  eapply I_stable; [|done]. by apply prefix_app_r.
Qed.

Lemma spec_runs past0 {A} (m : bot A) R : spec I past0 m R -> runs I past0 m.
Proof. intros H s past db Hp HI. eapply safe_mono; [|by apply H]. done. Qed.

Lemma runs_bind past0 {A B} (m : bot A) (k : A -> bot B) R :
  spec I past0 m R -> (forall a past1, past0 `prefix_of` past1 -> R a past1 -> runs I past1 (k a)) ->
  runs I past0 (m ≫= k).
Proof.
  intros Hm Hk s past db Hp HI. apply safe_bind. eapply safe_mono; [|by apply Hm].
  intros [s' [a|e]] past' db' (Hpre & HI' & HR); cbn [fst snd] in *; [|by apply safe_ret].
  apply (Hk a past'); [by etrans|done|done|done].
Qed.

Lemma runs_set (I' : past_t -> BotState -> Prop) past0 f {B} (k : unit -> bot B) :
  (forall past s, past0 `prefix_of` past -> I past s -> I' past (f s)) -> runs I' past0 (k tt) ->
  runs I past0 (setFields f ≫= k).
Proof. intros Hf Hk s past db Hp HI. apply (Hk (f s)); [done|]. by apply Hf. Qed.
End rules.
End logic.

(** ** Market prices *)

Section market.
Context (b : BotConfig).

(** The chain's USD price: its sources were asked, and the selection policy accepted their
    answers at a time the clock gave. *)
Definition native_read (past : past_t) (eid : Z) (price : option Q) : Prop :=
  exists sources arrived now, bc_sources b !! eid = Some sources /\
  told past (PSources eid (cs_Primary sources :: cs_Sanity sources)) arrived /\ told past PNow now /\
  (selectFrom eid sources (collect (cs_Primary sources :: cs_Sanity sources) arrived.1 arrived.2 ∅) now
     (st_MaxDeviation (bc_settings b))).2 = Ok price.

(** Chains that share their native asset convert one to one. *)
Definition prices_read (past : past_t) (srcEID dstEID : Z) (prices : option Q * option Q) : Prop :=
  (prices = (Some 1%Q, Some 1%Q) /\ exists src dst, bc_sources b !! srcEID = Some src /\
     bc_sources b !! dstEID = Some dst /\ cs_NativeAssetID src <> ""%string /\
     cs_NativeAssetID src = cs_NativeAssetID dst) \/
  (native_read past srcEID prices.1 /\ native_read past dstEID prices.2).

Lemma native_mono past past' eid q : past `prefix_of` past' -> native_read past eid q -> native_read past' eid q.
Proof. intros Hp (s & a & n & ? & ? & ? & ?). exists s, a, n. split_and!; eauto using told_mono. Qed.

Lemma prices_mono past past' s d p : past `prefix_of` past' -> prices_read past s d p -> prices_read past' s d p.
Proof. intros Hp [H|[H1 H2]]; [by left|right]. eauto using native_mono. Qed.

Context (P : past_t -> event pquery -> Prop) (P_ask : forall past R (q : pquery R) a db, P past (EvAsk q a db)).
Context (I : past_t -> BotState -> Prop) (I_stable : stable I).

Tactic Notation "bind" ident(x) ident(Hx) := eapply spec_bind; [|intros x ? ? Hx; cbn beta in Hx].

Lemma spec_ChainNativePrice past0 eid :
  spec P I past0 (ChainNativePrice b eid) (fun q past => native_read past eid q).
Proof.
  unfold ChainNativePrice. bind sources Hs.
  { apply (spec_lift P I _ _ (fun sources _ => bc_sources b !! eid = Some sources)). unfold checkSources.
    intros sources past. destruct (bc_sources b !! eid) as [cs|]; [|done]. do 2 (case_decide; [done|]).
    destruct (checkReaders _ _ _); [done|]. by intros [= ->]. }
  bind arrived Ha; [apply spec_askB; auto|]. bind now Hn; [apply spec_askB; auto|]. apply spec_lift.
  intros q past E Hp. exists sources, arrived, now. split_and!; [done|eapply told_mono; [|exact Ha]; by etrans|by eapply told_mono|].
  by destruct (selectFrom _ _ _ _ _).2; [injection E as ->|].
Qed.

Lemma spec_PathwayNativePrices past0 srcEID dstEID :
  spec P I past0 (PathwayNativePrices b srcEID dstEID) (fun prices past => prices_read past srcEID dstEID prices).
Proof.
  unfold PathwayNativePrices. destruct (bc_sources b !! srcEID) as [src|] eqn:Es; [|apply spec_fails].
  destruct (bc_sources b !! dstEID) as [dst|] eqn:Ed; [|apply spec_fails]. case_decide as Hn.
  - apply spec_ret. intros past Hp. left. split; [done|]. exists src, dst. tauto.
  - bind srcPrice Hs; [apply spec_ChainNativePrice|]. bind dstPrice Hd; [apply spec_ChainNativePrice|].
    apply spec_ret. intros past Hp. right. split; [eapply native_mono; [|exact Hs]; by etrans|by eapply native_mono].
Qed.
End market.
