(* ===== verification/PricingProofs.v ===== *)
(** * The price bot's transactions are justified

    The invariant of the bot's fields that ties every remembered price to the answer it came
    from, kept by every routine of [Pricing] in the logic of [BotLogic]. *)

From S2P Require Import Prelude GoErr BigUtil Schema Outbox Attempts Jobs Store StateReads Quorum QuorumLogs Registry Proc Worker PriceMath PriceSelect PriceUpdates Pricing BotLogic.
From stdpp Require Import base gmap list strings numbers pretty sorting.
From Stdlib Require Import ZArith QArith Lia.
#[local] Open Scope Z_scope.
#[local] Open Scope worker_scope.

Section justified.
Context `{abi : PriceAbi} (b : BotConfig).
Let settings := bc_settings b.

(** ** What the past shows *)

Abbreviation native_read := (BotLogic.native_read b).
Abbreviation prices_read := (BotLogic.prices_read b).
Abbreviation native_mono := (BotLogic.native_mono b).
Abbreviation prices_mono := (BotLogic.prices_mono b).

Definition gas_read (past : past_t) (eid : Z) (gas : Z) : Prop :=
  told past (PGas eid) (Ok (Some gas)) /\ 0 < gas.

(** The snapshot stored on the source chain was read: it is the empty one, or a valid one. *)
Definition baseline (past : past_t) (u : pricedUpdate) (w : option writtenPrice) : Prop :=
  exists calldata mode bytes snapshot, PackStored (pu_DstEID u) = Ok calldata /\
  told past (PCall (pu_SrcEID u) (pu_PriceFeed u) calldata mode) (Ok bytes) /\ UnpackStored bytes = Ok snapshot /\
  match w with
  | None => ps_UpdatedAt snapshot = 0 /\ ps_DstGasPriceInSrcToken snapshot = Some 0
  | Some previous => validateSnapshot snapshot = Ok tt /\ wp_price previous = ps_DstGasPriceInSrcToken snapshot /\
      wp_writtenAt previous = unixTime (int64_of_uint64 (ps_UpdatedAt snapshot))
  end.

(** Nothing is stored yet, the price moved enough, or the heartbeat passed. *)
Definition gate_open (past : past_t) (w : option writtenPrice) (snapshot : PriceSnapshot) : Prop :=
  match w with
  | None => True
  | Some previous => exists now, told past PNow now /\
      (st_MinUpdateDeviation settings <= PriceChangeBps (wp_price previous) (ps_DstGasPriceInSrcToken snapshot) \/
       st_Heartbeat settings <= Z.max 0 (timeSub now (wp_writtenAt previous)))
  end.

Definition entry_justified (past : past_t) (target : pricedUpdate) (update : PriceSnapshotUpdate) : Prop :=
  exists dstChain prices gas fee now w,
  Get (bc_registry b) (pu_DstEID target) = Ok dstChain /\ su_DstEid update = ch_EID dstChain /\
  prices_read past (pu_SrcEID target) (pu_DstEID target) prices /\ gas_read past (pu_DstEID target) gas /\
  currentDstDataFeePerByte b (pu_DstEID target) = Ok fee /\ told past PNow now /\
  BuildPriceSnapshot (mkPriceInputs prices.1 prices.2 (Some gas) fee (timeUnix now mod 2 ^ 64)
    (Z.quot (st_StaleAfter settings) 1000000000)) = Ok (su_Snapshot update) /\
  baseline past target w /\ gate_open past w (su_Snapshot update).

(** At some earlier moment the tables held no pending pricing row of the feed. *)
Definition scanned (past : past_t) (srcEID : Z) (feed : Address) : Prop :=
  exists db, EvStore None db ∈ past /\
  forall id o, tx_outbox db !! id = Some o -> pricing_pending srcEID o -> BytesToAddress (o_to_address o) <> feed.

Definition tx_justified (past : past_t) (request : TxRequest) : Prop :=
  exists srcChain srcEID feed entries calldata,
  Get (bc_registry b) srcEID = Ok srcChain /\ entries <> [] /\
  BuildSetPriceSnapshotCalldata (snd <$> entries) = Ok calldata /\ NoDup (fst <$> entries) /\
  request = mkTxRequest (ch_EID srcChain) TxPurposePricingSetPriceSnapshot [] feed calldata (Some 0)
              (st_SignerID settings) /\
  scanned past srcEID feed /\
  forall target update, (target, update) ∈ entries ->
    pu_SrcEID target = srcEID /\ pu_PriceFeed target = feed /\ entry_justified past target update.

(** The bot writes nothing but snapshot transactions, and only justified ones. *)
Definition PriceP (past : past_t) (e : event pquery) : Prop :=
  match e with
  | EvStore (Some op) _ => exists request, op = OpEnqueuePricing request /\ tx_justified past request
  | _ => True
  end.

(** ** Facts stay true *)

Lemma gas_mono past past' eid g : past `prefix_of` past' -> gas_read past eid g -> gas_read past' eid g.
Proof. intros Hp [H1 H2]. split; eauto using told_mono. Qed.

Lemma baseline_mono past past' u w : past `prefix_of` past' -> baseline past u w -> baseline past' u w.
Proof. intros Hp (c & m & y & s & ? & ? & ? & ?). exists c, m, y, s. split_and!; eauto using told_mono. Qed.

Lemma gate_mono past past' w s : past `prefix_of` past' -> gate_open past w s -> gate_open past' w s.
Proof. intros Hp. destruct w as [p|]; [|done]. intros (now & ? & ?). exists now. eauto using told_mono. Qed.

Lemma entry_mono past past' t u : past `prefix_of` past' -> entry_justified past t u -> entry_justified past' t u.
Proof.
  intros Hp (c & p & g & f & n & w & H). destruct_and! H. exists c, p, g, f, n, w.
  split_and!; eauto using told_mono, BotLogic.prices_mono, gas_mono, baseline_mono, gate_mono.
Qed.

Lemma scanned_mono past past' s f : past `prefix_of` past' -> scanned past s f -> scanned past' s f.
Proof. intros [l ->] (db & Hin & H). exists db. split; [set_solver|done]. Qed.

(** ** The logic *)

Lemma PriceP_ask past {R} (q : pquery R) a db : PriceP past (EvAsk q a db).
Proof. done. Qed.

Abbreviation spec := (BotLogic.spec PriceP).
Abbreviation runs := (BotLogic.runs PriceP).
Abbreviation spec_lift := (BotLogic.spec_lift PriceP).
Abbreviation spec_ret := (BotLogic.spec_ret PriceP).
Abbreviation spec_fails := (BotLogic.spec_fails PriceP).
Abbreviation spec_bind := (BotLogic.spec_bind PriceP).
Abbreviation spec_attempt := (BotLogic.spec_attempt PriceP).
Abbreviation spec_fields := (BotLogic.spec_fields PriceP).
Abbreviation spec_set := (BotLogic.spec_set PriceP).
Abbreviation spec_callStore := (BotLogic.spec_callStore PriceP).
Abbreviation spec_runs := (BotLogic.spec_runs PriceP).
Abbreviation runs_bind := (BotLogic.runs_bind PriceP).
Abbreviation runs_set := (BotLogic.runs_set PriceP).
Abbreviation spec_askB := (BotLogic.spec_askB PriceP (@PriceP_ask)).
Abbreviation spec_queryClient := (BotLogic.spec_queryClient PriceP (@PriceP_ask)).

(** ** The fields *)

Context (hex_inj : forall x y, wf_address x -> wf_address y -> AddressHex x = AddressHex y -> x = y)
  (hex_colon : forall x, wf_address x -> no_char colon (AddressHex x)).

(** Remembered baselines were read, and remembered prices and gas were answered. *)
Definition written_ok (past : past_t) (s : BotState) : Prop :=
  forall k w, cycleWritten s !! k = Some w -> exists u, wf_update u /\ k = priceUpdateKey u /\ baseline past u w.
Definition market_ok (past : past_t) (s : BotState) : Prop :=
  (forall eid q, nativeUSD s !! eid = Some (Ok q) -> native_read past eid q) /\
  (forall eid g, gasWei s !! eid = Some (Ok g) -> gas_read past eid g).
Definition fields_ok (written market : bool) (past : past_t) (s : BotState) : Prop :=
  (written = true -> written_ok past s) /\ (market = true -> market_ok past s).

Lemma fields_stable w m : stable (fields_ok w m).
Proof.
  intros past past' s Hp [Hw Hm]. split.
  - intros Ew k x Hk. destruct (Hw Ew k x Hk) as (u & ? & ? & ?). eauto using baseline_mono.
  - intros Em. destruct (Hm Em) as [H1 H2]. split; eauto using BotLogic.native_mono, gas_mono.
Qed.
#[local] Hint Resolve fields_stable : core.

(** A change of fields that the invariant does not mention. *)
Lemma fields_frame w m past s s' : cycleWritten s' = cycleWritten s -> nativeUSD s' = nativeUSD s ->
  gasWei s' = gasWei s -> fields_ok w m past s -> fields_ok w m past s'.
Proof. unfold fields_ok, written_ok, market_ok. intros -> -> ->. done. Qed.

Tactic Notation "bind" ident(x) ident(Hx) := eapply spec_bind; [|intros x ? ? Hx; cbn beta in Hx].

Lemma spec_snapshotAnchor w m past0 src : spec (fields_ok w m) past0 (snapshotAnchor b src) (fun _ _ => True).
Proof.
  assert (forall r past1, spec (fields_ok w m) past1
    (_ ← setFields (fun s => s <| cycleAnchors := <[src := r]> (cycleAnchors s) |>); liftB r) (fun _ _ => True)) as Hr.
  { intros r past1. bind x Hx; [apply spec_set; intros; by eapply fields_frame|by apply spec_lift]. }
  unfold snapshotAnchor. bind s Hs; [apply spec_fields|]. destruct (cycleAnchors _ !! _); [by apply spec_lift|].
  destruct (Get _ _) as [c|]; [|apply Hr]. destruct (ch_RPC c); [|apply Hr].
  bind head Hh; [apply spec_attempt, spec_queryClient; auto|]. destruct head as [[[n|] h]|e]; apply Hr.
Qed.

Definition snapshot_read (past : past_t) (u : pricedUpdate) (snapshot : PriceSnapshot) : Prop :=
  exists calldata mode bytes, PackStored (pu_DstEID u) = Ok calldata /\
  told past (PCall (pu_SrcEID u) (pu_PriceFeed u) calldata mode) (Ok bytes) /\ UnpackStored bytes = Ok snapshot.

Lemma spec_PriceSnapshotAt w m past0 u anchor :
  spec (fields_ok w m) past0 (PriceSnapshotAt b (pu_SrcEID u) (pu_PriceFeed u) (pu_DstEID u) anchor)
    (fun snapshot past => snapshot_read past u snapshot).
Proof.
  unfold PriceSnapshotAt. bind c Hc; [by apply (spec_lift _ _ _ (fun _ _ => True))|]. destruct (ch_RPC c); [|apply spec_fails].
  bind r Hr.
  - apply (spec_attempt _ _ _ (fun snap past => snapshot_read past u snap)). unfold readPriceSnapshot.
    bind data Hd; [apply (spec_lift _ _ _ (fun a _ => PackStored (pu_DstEID u) = Ok a)); by destruct (PackStored _); intros ? ? [= ->]|].
    bind y Hy; [apply spec_queryClient; auto|]. apply spec_lift. intros snap past E Hp.
    exists data, (CallAtAnchor anchor), y. split_and!; [done|by eapply told_mono|].
    by destruct (UnpackStored y); [injection E as ->|].
  - apply spec_lift. intros snap past E Hp. destruct r as [sn|]; [|done]. injection E as ->.
    destruct Hr as (c' & mo & y & ? & ? & ?). exists c', mo, y. split_and!; [done|by eapply told_mono|done].
Qed.

Lemma spec_loadWrittenPrice m past0 u : wf_update u ->
  spec (fields_ok true m) past0 (loadWrittenPrice b u) (fun w past => baseline past u w).
Proof.
  intros Hu.
  assert (forall w past1, baseline past1 u w -> spec (fields_ok true m) past1
    (_ ← setFields (fun s => s <| cycleWritten := <[priceUpdateKey u := w]> (cycleWritten s) |>); mret w)
    (fun w past => baseline past u w)) as Hr.
  { intros w past1 Hb. bind x Hx; [apply spec_set|apply spec_ret; intros; eapply baseline_mono; [|exact Hb]; by etrans].
    intros past s Hp [Hw Hm]. split; [intros _ k x|exact Hm].
    change (<[priceUpdateKey u := w]> (cycleWritten s) !! k = Some x -> exists v, wf_update v /\ k = priceUpdateKey v /\ baseline past v x).
    intros Hk.
    destruct (decide (k = priceUpdateKey u)) as [->|Hne]; [|rewrite lookup_insert_ne in Hk by done; by apply Hw].
    rewrite lookup_insert_eq in Hk. injection Hk as <-. exists u. split_and!; [done|done|by eapply baseline_mono]. }
  unfold loadWrittenPrice. bind s Hs; [apply spec_fields|]. destruct Hs as [_ [Hw _]].
  destruct (cycleWritten s !! priceUpdateKey u) as [w|] eqn:E.
  - apply spec_ret. intros past Hp. destruct (Hw eq_refl _ _ E) as (v & Hv & Ek & Hb).
    apply priceUpdateKey_inj in Ek; [subst v|done..]. by eapply baseline_mono.
  - bind anchor Ha; [apply spec_snapshotAnchor|]. bind snapshot Hsn; [apply spec_PriceSnapshotAt|].
    destruct Hsn as (c & mo & y & Hc & Hy & Hs). case_decide as Hz.
    + apply Hr. exists c, mo, y, snapshot. done.
    + bind x Hv; [apply (spec_lift _ _ _ (fun _ _ => validateSnapshot snapshot = Ok tt));
             by destruct (validateSnapshot snapshot) as [[]|]|].
      apply Hr. exists c, mo, y, snapshot. split_and!; [done|by eapply told_mono|done..].
Qed.

Lemma spec_shouldWriteSnapshot m past0 u snapshot : wf_update u ->
  spec (fields_ok true m) past0 (shouldWriteSnapshot b u snapshot)
    (fun write past => write = true -> exists w, baseline past u w /\ gate_open past w snapshot).
Proof.
  intros Hu. unfold shouldWriteSnapshot. bind w Hw; [by apply spec_loadWrittenPrice|]. destruct w as [previous|].
  - bind now Hn; [apply spec_askB; auto|]. apply spec_ret. intros past Hp Hb%bool_decide_eq_true. exists (Some previous).
    split; [eapply baseline_mono; [|exact Hw]; by etrans|]. exists now. split; [by eapply told_mono|].
    destruct Hb as [Hb|Hb]; [by left|right]. fold settings in Hb.
    destruct (decide (timeSub now (wp_writtenAt previous) < 0)); lia.
  - apply spec_ret. intros past Hp _. exists None. split; [by eapply baseline_mono|done].
Qed.

Lemma spec_prime m past0 us : Forall wf_update us ->
  spec (fields_ok true m) past0 (primeSnapshotBaselines b us) (fun _ _ => True).
Proof.
  intros Hus. revert past0. induction Hus as [|u us Hu _ IH]; intros past0; cbn [primeSnapshotBaselines].
  - by apply spec_ret.
  - bind x Hx; [by apply spec_attempt, spec_loadWrittenPrice|]. apply IH.
Qed.

(** ** Market inputs *)

Lemma spec_nativePrice w past0 eid :
  spec (fields_ok w true) past0 (nativePrice b eid) (fun q past => native_read past eid q).
Proof.
  unfold nativePrice. bind s Hs; [apply spec_fields|]. destruct Hs as [_ [_ Hm]].
  destruct (nativeUSD s !! eid) as [r|] eqn:E.
  - apply spec_lift. intros q past -> Hp. eapply native_mono; [exact Hp|]. by apply (Hm eq_refl).
  - bind r Hr; [apply spec_attempt, (spec_ChainNativePrice b PriceP (@PriceP_ask)); auto|]. bind x Hx; [apply spec_set|].
    + intros past s0 Hp [Hw Hm0]. split; [exact Hw|]. intros _. destruct (Hm0 eq_refl) as [H1 H2]. split; [|exact H2].
      intros e q. change (<[eid := r]> (nativeUSD s0) !! e = Some (Ok q) -> native_read past e q).
      destruct (decide (e = eid)) as [->|Hne]; [|rewrite lookup_insert_ne by done; apply H1].
      rewrite lookup_insert_eq. intros [= ->]. by eapply native_mono.
    + apply spec_lift. intros q past -> Hp. eapply native_mono; [|exact Hr]. by etrans.
Qed.

Lemma spec_currentDstGasPrice w m past0 eid :
  spec (fields_ok w m) past0 (currentDstGasPrice b eid) (fun g past => gas_read past eid g).
Proof.
  unfold currentDstGasPrice. destruct (bc_sources b !! eid) as [cs|]; [|apply spec_fails].
  destruct (cs_Gas cs); [|apply spec_fails]. bind r Hr; [apply spec_askB; auto|].
  destruct r as [[g|]|]; [|apply spec_fails..]. destruct (decide (notPositive (Some g))) as [|Hg]; [apply spec_fails|].
  apply spec_ret. intros past Hp. split; [by eapply told_mono|]. cbn in Hg. cbn. lia.
Qed.

Lemma spec_cycleGasPrice w past0 eid :
  spec (fields_ok w true) past0 (cycleGasPrice b eid) (fun g past => gas_read past eid g).
Proof.
  unfold cycleGasPrice. bind s Hs; [apply spec_fields|]. destruct Hs as [_ [_ Hm]].
  destruct (gasWei s !! eid) as [r|] eqn:E.
  - apply spec_lift. intros g past -> Hp. eapply gas_mono; [exact Hp|]. by apply (Hm eq_refl).
  - bind r Hr; [apply spec_attempt, spec_currentDstGasPrice|]. bind x Hx; [apply spec_set|].
    + intros past s0 Hp [Hw Hm0]. split; [exact Hw|]. intros _. destruct (Hm0 eq_refl) as [H1 H2]. split; [exact H1|].
      intros e g. change (<[eid := r]> (gasWei s0) !! e = Some (Ok g) -> gas_read past e g).
      destruct (decide (e = eid)) as [->|Hne]; [|rewrite lookup_insert_ne by done; apply H2].
      rewrite lookup_insert_eq. intros [= ->]. by eapply gas_mono.
    + apply spec_lift. intros g past -> Hp. eapply gas_mono; [|exact Hr]. by etrans.
Qed.

Lemma spec_cyclePathwayPrices w past0 s d :
  spec (fields_ok w true) past0 (cyclePathwayPrices b s d) (fun prices past => prices_read past s d prices).
Proof.
  unfold cyclePathwayPrices. destruct (bc_sources b !! s) as [src|] eqn:Es; [|apply spec_fails].
  destruct (bc_sources b !! d) as [dst|] eqn:Ed; [|apply spec_fails]. case_decide as Ha.
  - apply spec_ret. intros past Hp. left. split; [done|]. exists src, dst. naive_solver.
  - bind p Hpr; [apply spec_nativePrice|]. bind q Hq; [apply spec_nativePrice|]. apply spec_ret. intros past Hp.
    right. split; [eapply native_mono; [|exact Hpr]; by etrans|by eapply native_mono].
Qed.

(** ** Batches *)

Lemma spec_evaluateTarget past0 target : wf_update target ->
  spec (fields_ok true true) past0 (evaluateTarget b target) (fun e past =>
    forall x, e = Some x -> en_target x = target /\ entry_justified past target (en_update x)).
Proof.
  intros Ht. unfold evaluateTarget.
  bind c Hc; [apply (spec_lift _ _ _ (fun c _ => Get (bc_registry b) (pu_DstEID target) = Ok c));
              by destruct (Get _ _); intros ? ? [= ->]|].
  bind prices Hp; [apply spec_cyclePathwayPrices|]. bind gas Hg; [apply spec_cycleGasPrice|].
  bind fee Hf; [apply (spec_lift _ _ _ (fun f _ => currentDstDataFeePerByte b (pu_DstEID target) = Ok f));
              by destruct (currentDstDataFeePerByte _ _); intros ? ? [= ->]|].
  bind now Hn; [apply spec_askB; auto|].
  bind snapshot Hs; [apply (spec_lift _ _ _ (fun sn _ => BuildPriceSnapshot
      (mkPriceInputs prices.1 prices.2 (Some gas) fee (timeUnix now mod 2 ^ 64)
        (Z.quot (st_StaleAfter settings) 1000000000)) = Ok sn)); intros ? ?; unfold text;
      fold settings; by destruct (BuildPriceSnapshot _); intros [= ->]|].
  bind write Hw; [by apply spec_shouldWriteSnapshot|]. apply spec_ret. intros past Hpre x E.
  destruct write; [|done]. injection E as <-. split; [done|].
  destruct (Hw eq_refl) as (wp & Hb & Hgate). exists c, prices, gas, fee, now, wp. cbn [en_update su_DstEid su_Snapshot].
  split_and!; try done.
  - eapply prices_mono; [|exact Hp]. eauto 8 using prefix_trans.
  - eapply gas_mono; [|exact Hg]. eauto 8 using prefix_trans.
  - eapply told_mono; [|exact Hn]. eauto 8 using prefix_trans.
  - by eapply baseline_mono.
  - by eapply gate_mono.
Qed.

Lemma spec_evaluateTargets past0 targets : Forall wf_update targets ->
  spec (fields_ok true true) past0 (evaluateTargets b targets) (fun entries past =>
    (en_target <$> entries) `sublist_of` targets /\
    forall x, x ∈ entries -> entry_justified past (en_target x) (en_update x)).
Proof.
  intros Ht. revert past0. induction Ht as [|t ts Ht _ IH]; intros past0; cbn [evaluateTargets].
  { apply spec_ret. intros past _. split; [done|]. by intros x ?%not_elem_of_nil. }
  bind e He; [by apply spec_evaluateTarget|]. bind es Hes; [apply IH|]. apply spec_ret. intros past Hp.
  destruct Hes as [Hsub Hes].
  assert (forall x, x ∈ es -> entry_justified past (en_target x) (en_update x)) as Hin by eauto using entry_mono.
  destruct e as [e|]; [|split; [by apply sublist_cons|done]]. destruct (He e eq_refl) as [Et Hj].
  split; [cbn; rewrite Et; by apply sublist_skip|]. intros x [-> | Hx]%elem_of_cons; [rewrite Et|auto].
  eapply entry_mono; [|exact Hj]. by etrans.
Qed.

(** A batch of one feed whose pending rows were scanned. *)
Definition batch_ok (past : past_t) (batch : pricedUpdateBatch) : Prop :=
  scanned past (pb_SrcEID batch) (pb_PriceFeed batch) /\ NoDup (pb_Targets batch) /\
  Forall (fun u => wf_update u /\ of_feed (pb_SrcEID batch) (pb_PriceFeed batch) u) (pb_Targets batch).

Lemma batch_mono past past' x : past `prefix_of` past' -> batch_ok past x -> batch_ok past' x.
Proof. intros Hp (H1 & H2 & H3). split_and!; eauto using scanned_mono. Qed.

Lemma BuildTx_Ok src feed signer us tx : BuildSetPriceSnapshotTx src feed signer us = Ok tx ->
  exists calldata, BuildSetPriceSnapshotCalldata us = Ok calldata /\
    tx = mkTxRequest src TxPurposePricingSetPriceSnapshot [] feed calldata (Some 0) signer.
Proof.
  unfold BuildSetPriceSnapshotTx. do 3 (case_decide; [|done]).
  destruct (BuildSetPriceSnapshotCalldata us) as [calldata|]; [|done]. intros [= <-]. eauto.
Qed.

Lemma spec_enqueueBatch past0 batch : batch_ok past0 batch ->
  spec (fields_ok true true) past0 (enqueuePriceUpdateBatch b batch) (fun _ _ => True).
Proof.
  intros (Hscan & Hnd & Ht). unfold enqueuePriceUpdateBatch.
  bind c Hc; [apply (spec_lift _ _ _ (fun c _ => Get (bc_registry b) (pb_SrcEID batch) = Ok c));
              by destruct (Get _ _); intros ? ? [= ->]|].
  bind entries He; [apply spec_evaluateTargets; eapply list.Forall_impl; [exact Ht|by intros ? [? _]]|].
  case_decide as Hne; [by apply spec_ret|].
  bind tx Htx; [apply (spec_lift _ _ _ (fun tx _ => BuildSetPriceSnapshotTx (ch_EID c) (pb_PriceFeed batch)
      (st_SignerID settings) (en_update <$> entries) = Ok tx)); intros ? ?; unfold text; fold settings;
      by destruct (BuildSetPriceSnapshotTx _ _ _ _); intros [= ->]|].
  bind r Hr; [apply (spec_callStore _ (fields_stable true true) _ _ (fun _ _ => True)); [|done]|].
  - intros env past db Hp. exists tx. split; [done|]. apply BuildTx_Ok in Htx as (calldata & Hpack & ->).
    destruct He as [Hsub He].
    exists c, (pb_SrcEID batch), (pb_PriceFeed batch), ((fun e => (en_target e, en_update e)) <$> entries), calldata.
    split_and!; [done|by intros ?%fmap_nil_inv|by rewrite <- list_fmap_compose| |done| |].
    + rewrite <- list_fmap_compose. by eapply sublist_NoDup.
    + eapply scanned_mono; [|exact Hscan]. eauto 8 using prefix_trans.
    + intros target update (x & [= -> ->] & Hx)%list_elem_of_fmap.
      eapply list.Forall_forall in Ht as [_ [Hsrc Hfeed]]; [|eapply elem_of_sublist; [|exact Hsub]; by apply list_elem_of_fmap_2].
      split_and!; [done|done|]. eapply entry_mono; [|by apply He]. eauto 8 using prefix_trans.
  - destruct r as [id|e].
    + bind x Hx; [apply spec_set; intros; by eapply fields_frame|by apply spec_ret].
    + destruct e; try apply spec_fails. by apply spec_ret.
Qed.

(** ** Pending feeds *)

Lemma spec_pendingRows w m past0 src rows pending :
  spec (fields_ok w m) past0 (pendingRows src rows pending) (fun pending' _ => pending ⊆ pending' /\
    forall id o, (id, o) ∈ rows -> pendingFeedKey src (BytesToAddress (o_to_address o)) ∈ pending').
Proof.
  revert past0 pending. induction rows as [|[id o] rows IH]; intros past0 pending; cbn [pendingRows].
  { apply spec_ret. intros _ _. split; [done|]. by intros ? ? ?%not_elem_of_nil. }
  bind x Hx; [by apply (spec_lift _ _ _ (fun _ _ => True))|].
  eapply spec_weaken; [apply IH|]. intros p' past' _ [H1 H2]. split; [set_solver|].
  intros id' o' [[= -> ->]|Hin]%elem_of_cons; [set_solver|eauto].
Qed.

Lemma spec_listPending w m past0 src :
  spec (fields_ok w m) past0 (callStore (cListPendingPricingTxs src)) (fun r past => forall rows, r = Ok rows ->
    exists db, EvStore None db ∈ past /\
      forall id o, tx_outbox db !! id = Some o -> pricing_pending src o -> (id, o) ∈ rows).
Proof.
  apply spec_callStore; [auto|done|]. intros env past db0 db1 res Ho rows ->. exists db0. split; [set_solver|].
  intros id o Hid Hpend. destruct Ho as [E|(msg & ? & _)]; [|done]. injection E as _ E.
  unfold ListPendingPricingTxs in E. case_decide; [|done]. injection E as <-.
  rewrite (merge_sort_Permutation id_le). by apply elem_of_select_outbox.
Qed.

Lemma spec_pendingOf w m past0 srcs pending :
  spec (fields_ok w m) past0 (pendingOf srcs pending) (fun pending' past => pending ⊆ pending' /\
    forall src feed, src ∈ srcs -> pendingFeedKey src feed ∉ pending' -> scanned past src feed).
Proof.
  revert past0 pending. induction srcs as [|src srcs IH]; intros past0 pending; cbn [pendingOf].
  { apply spec_ret. intros past _. split; [done|]. by intros ? ? ?%not_elem_of_nil. }
  bind r Hr; [apply spec_listPending|]. destruct r as [rows|]; [|apply spec_fails].
  destruct (Hr rows eq_refl) as (db0 & Hin & Hrows). bind pending1 Hp1; [apply spec_pendingRows|]. destruct Hp1 as [Hsub1 Hkeys].
  eapply spec_weaken; [apply IH|]. intros p' past' Hpre [H1 H2]. split; [set_solver|]. intros src' feed [-> | Hs]%elem_of_cons Hnot; [|eauto].
  exists db0. split.
  - assert (past1 `prefix_of` past') as [l ->] by eauto 8 using prefix_trans. set_solver.
  - intros id o Hid Hpend E. apply Hnot. rewrite <- E. apply H1, (Hkeys id o). eauto.
Qed.

Lemma spec_loadPending w m past0 us :
  spec (fields_ok w m) past0 (loadPendingUpdateKeys us) (fun pending past => forall u, u ∈ us ->
    pendingFeedKey (pu_SrcEID u) (pu_PriceFeed u) ∉ pending -> scanned past (pu_SrcEID u) (pu_PriceFeed u)).
Proof.
  eapply spec_weaken; [apply spec_pendingOf|]. intros p' past' _ [_ HR].
  intros u Hu. apply HR. apply elem_of_elements, elem_of_list_to_set, list_elem_of_fmap. eauto.
Qed.

(** ** Evaluations *)

Lemma batches_ok past us : Forall wf_update us -> NoDup us ->
  (forall u, u ∈ us -> scanned past (pu_SrcEID u) (pu_PriceFeed u)) ->
  Forall (batch_ok past) (priceUpdateBatches us).
Proof.
  intros Hwf Hnd Hs. apply list.Forall_forall. intros x (Et & Hne & _)%elem_of_batches; [|done..].
  assert (forall u, u ∈ filter (of_feed (pb_SrcEID x) (pb_PriceFeed x)) us -> u ∈ us /\ of_feed (pb_SrcEID x) (pb_PriceFeed x) u) as Hf.
  { by intros u [? ?]%list_elem_of_filter. }
  split_and!; [|rewrite Et, (merge_sort_Permutation target_le); by apply NoDup_filter|].
  - destruct (filter _ us) as [|u l]; [done|]. destruct (Hf u) as [Hu [<- <-]]; [left|]. by apply Hs.
  - rewrite Et. apply list.Forall_forall. intros u. rewrite (merge_sort_Permutation target_le). intros [Hu ?]%Hf.
    split; [|done]. by eapply (proj1 (list.Forall_forall _ _)) in Hwf.
Qed.

Lemma spec_enqueueBatches past0 batches errs n : Forall (batch_ok past0) batches ->
  spec (fields_ok true true) past0 (enqueueBatches b batches errs n) (fun _ _ => True).
Proof.
  intros Hb. revert past0 errs n Hb. induction batches as [|x batches IH]; intros past0 errs n Hb; cbn [enqueueBatches].
  { by apply spec_ret. }
  apply Forall_cons in Hb as [Hx Hb].
  assert (forall past1, past0 `prefix_of` past1 -> Forall (batch_ok past1) batches) as Hb1.
  { intros past1 Hp. eapply list.Forall_impl; [exact Hb|]. eauto using batch_mono. }
  bind r Hr; [by apply spec_attempt, spec_enqueueBatch|]. destruct r as [v|e]; [by apply IH; eauto|].
  assert (forall past1 e, past0 `prefix_of` past1 -> spec (fields_ok true true) past1 (ctx ← askB PCtxErr;
      match ctx with
      | Some c => fails (PJoin (errs ++ [PCtx c]))
      | None => enqueueBatches b batches (errs ++ [feedError x e]) n
      end) (fun _ _ => True)) as Herr.
  { intros past2 e' Hp. bind ctx Hctx; [apply spec_askB; auto|]. destruct ctx; [apply spec_fails|].
    apply IH, Hb1. eauto using prefix_trans. }
  destruct e; [by apply Herr..|]. bind y Hy; [apply spec_set; intros; by eapply fields_frame|].
  apply IH, Hb1. eauto using prefix_trans.
Qed.

Lemma spec_enqueueSpikes past0 batches lost failed errs : Forall (batch_ok past0) batches ->
  spec (fields_ok true true) past0 (enqueueSpikes b batches lost failed errs) (fun _ _ => True).
Proof.
  intros Hb. revert past0 lost failed errs Hb.
  induction batches as [|x batches IH]; intros past0 lost failed errs Hb; cbn [enqueueSpikes].
  { by apply spec_ret. }
  apply Forall_cons in Hb as [Hx Hb].
  assert (forall past1, past0 `prefix_of` past1 -> Forall (batch_ok past1) batches) as Hb1.
  { intros past1 Hp. eapply list.Forall_impl; [exact Hb|]. eauto using batch_mono. }
  bind r Hr; [by apply spec_attempt, spec_enqueueBatch|]. destruct r as [v|e]; [by apply IH; eauto|].
  assert (forall past1 e, past0 `prefix_of` past1 -> spec (fields_ok true true) past1 (ctx ← askB PCtxErr;
      match ctx with
      | Some c => fails (PJoin (errs ++ [PCtx c]))
      | None => enqueueSpikes b batches lost ({[pendingFeedKey (pb_SrcEID x) (pb_PriceFeed x)]} ∪ failed)
                  (errs ++ [feedError x e])
      end) (fun _ _ => True)) as Herr.
  { intros past2 e' Hp. bind ctx Hctx; [apply spec_askB; auto|]. destruct ctx; [apply spec_fails|].
    apply IH, Hb1. eauto using prefix_trans. }
  destruct e; [by apply Herr..|]. bind y Hy; [apply spec_set; intros; by eapply fields_frame|].
  apply IH, Hb1. eauto using prefix_trans.
Qed.

Lemma spec_readGas w m past0 us prices failed :
  (forall eid g, prices !! eid = Some g -> gas_read past0 eid g) ->
  spec (fields_ok w m) past0 (readDestinationGasPrices b us prices failed)
    (fun prices past => forall eid g, prices !! eid = Some g -> gas_read past eid g).
Proof.
  revert past0 prices failed. induction us as [|u us IH]; intros past0 prices failed Hg; cbn [readDestinationGasPrices].
  { apply spec_ret. eauto using gas_mono. }
  case_decide; [by apply IH|]. bind r Hr; [apply spec_attempt, spec_currentDstGasPrice|]. destruct r as [g|]; apply IH.
  - intros eid g'. destruct (decide (eid = pu_DstEID u)) as [->|Hne].
    + rewrite lookup_insert_eq. by intros [= <-].
    + rewrite lookup_insert_ne by done. eauto using gas_mono.
  - eauto using gas_mono.
Qed.

Lemma scan_spikes gas prev pending us scan x : x ∈ sn_spikes (fold_left (scanUpdate b gas prev pending) us scan) ->
  x ∈ sn_spikes scan \/ (x.1 ∈ us /\ pendingFeedKey (pu_SrcEID x.1) (pu_PriceFeed x.1) ∉ pending).
Proof.
  revert scan. induction us as [|u us IH]; intros scan; [by left|]. cbn [fold_left]. intros [Hx|[? ?]]%IH.
  - unfold scanUpdate in Hx. destruct (gas !! pu_DstEID u); [|case_decide; by left].
    destruct (decide (_ ∈ pending)); [by left|]. do 2 (case_decide; [by left|]). cbn [sn_spikes] in Hx.
    apply elem_of_app in Hx as [| ->%list_elem_of_singleton]; [by left|]. right. split; [left|done].
  - right. split; [by right|done].
Qed.

Lemma scan_sublist gas prev pending us base : 
  (sn_spikes (fold_left (scanUpdate b gas prev pending) us (mkScan base ∅ []))).*1 `sublist_of` us.
Proof.
  assert (forall scan, exists l, (sn_spikes (fold_left (scanUpdate b gas prev pending) us scan)).*1 =
    (sn_spikes scan).*1 ++ l /\ l `sublist_of` us) as H; [|destruct (H (mkScan base ∅ [])) as (l & -> & ?); done].
  induction us as [|u us IH]; intros scan; [exists []; by rewrite app_nil_r|]. cbn [fold_left].
  destruct (IH (scanUpdate b gas prev pending scan u)) as (l & -> & Hl).
  assert (sn_spikes (scanUpdate b gas prev pending scan u) = sn_spikes scan \/
          exists g, sn_spikes (scanUpdate b gas prev pending scan u) = sn_spikes scan ++ [(u, g)]) as [E|[g E]].
  { unfold scanUpdate. destruct (gas !! pu_DstEID u); repeat case_decide; cbn; eauto. }
  - rewrite E. exists l. split; [done|by apply sublist_cons].
  - rewrite E, fmap_app, <- app_assoc. exists (u :: l). split; [done|by apply sublist_skip].
Qed.

(** ** The whole bot *)

Context (pathways_wf : Forall (fun p => wf_update (updateOf p)) (Pathways (bc_registry b))).

Lemma scanned_subset past us (P : pricedUpdate -> Prop) :
  (forall u, u ∈ us -> P u -> scanned past (pu_SrcEID u) (pu_PriceFeed u)) ->
  forall l, (forall u, u ∈ l -> u ∈ us /\ P u) -> NoDup l -> Forall wf_update us ->
  Forall (batch_ok past) (priceUpdateBatches l).
Proof.
  intros Hs l Hl Hnd Hwf. apply batches_ok; [|done|].
  - apply list.Forall_forall. intros u [Hu _]%Hl. by eapply (proj1 (list.Forall_forall _ _)) in Hwf.
  - intros u [Hu HP]%Hl. by apply Hs.
Qed.

Ltac next x Hx := eapply runs_bind; [|intros x ? ? Hx; cbn beta in Hx].

Lemma runs_EnqueueOnce past0 : runs (fields_ok false false) past0 (EnqueueOnce b).
Proof.
  unfold EnqueueOnce. destruct (negb _); [by eapply spec_runs, (spec_ret _ _ _ (fun _ _ => True))|].
  next us Hus; [apply (spec_lift _ _ _ (fun us _ => uniquePriceUpdates (bc_registry b) = Ok us));
                by destruct (uniquePriceUpdates _); intros ? ? [= ->]|].
  destruct (uniquePriceUpdates_wf hex_inj hex_colon _ us pathways_wf Hus) as [Hwf Hnd]. case_decide; [by eapply spec_runs, (spec_ret _ _ _ (fun _ _ => True))|].
  apply (runs_set _ (fields_ok true false)); [by intros past s _ _; split; [intros _ k x Hk|]|].
  next pending Hp; [apply spec_loadPending|]. next x Hx; [by apply spec_prime|].
  apply (runs_set _ (fields_ok true false)); [intros; by eapply fields_frame|].
  case_decide; [by eapply spec_runs, (spec_ret _ _ _ (fun _ _ => True))|].
  apply (runs_set _ (fields_ok true true)).
  { intros past s _ [Hw _]. split; [exact Hw|]. intros _. split; intros ? ? Hk; done. }
  next r Hr.
  - apply spec_enqueueBatches. eapply (scanned_subset _ us (fun u => pendingFeedKey (pu_SrcEID u) (pu_PriceFeed u) ∉ pending)).
    + intros u Hu Hn. eapply scanned_mono; [|by apply Hp]. done.
    + intros u [? ?]%list_elem_of_filter. done.
    + by apply NoDup_filter.
    + done.
  - case_decide; [eapply spec_runs, (spec_fails _ _ _ (fun _ _ => True))|by eapply spec_runs, (spec_ret _ _ _ (fun _ _ => True))].
Qed.

Lemma runs_EnqueueOnGasSpike past0 : runs (fields_ok false false) past0 (EnqueueOnGasSpike b).
Proof.
  unfold EnqueueOnGasSpike. destruct (negb _); [by eapply spec_runs, (spec_ret _ _ _ (fun _ _ => True))|].
  next us Hus; [apply (spec_lift _ _ _ (fun us _ => uniquePriceUpdates (bc_registry b) = Ok us));
                by destruct (uniquePriceUpdates _); intros ? ? [= ->]|].
  destruct (uniquePriceUpdates_wf hex_inj hex_colon _ us pathways_wf Hus) as [Hwf Hnd]. case_decide; [by eapply spec_runs, (spec_ret _ _ _ (fun _ _ => True))|].
  next gas Hg; [by apply spec_readGas|]. next pending Hp; [apply spec_loadPending|]. next s Hs; [apply spec_fields|].
  set (scan := fold_left _ us _). apply (runs_set _ (fields_ok false false)); [done|].
  assert (forall x, x ∈ sn_spikes scan -> x.1 ∈ us /\ pendingFeedKey (pu_SrcEID x.1) (pu_PriceFeed x.1) ∉ pending) as Hscan.
  { intros x [?%not_elem_of_nil|]%scan_spikes; done. }
  assert ((sn_spikes scan).*1 `sublist_of` us) as Hsub by apply scan_sublist.
  clearbody scan.
  assert (forall w past1, past4 `prefix_of` past1 ->
    spec (fields_ok w true) past1 (enqueueSpikes b (priceUpdateBatches (sn_spikes scan).*1) ∅ ∅ []) (fun _ _ => True) ->
    runs (fields_ok w false) past1 (newPriceCycle gas ≫= fun _ =>
      enqueueSpikes b (priceUpdateBatches (sn_spikes scan).*1) ∅ ∅ [] ≫= fun '(raceLost, failed, batchErrs) =>
      setFields (settleSpikes (sn_spikes scan) raceLost failed) ≫= fun _ =>
      if decide (batchErrs <> [] /\ length batchErrs = length (priceUpdateBatches (sn_spikes scan).*1))
      then fails (PJoin batchErrs) else mret tt)) as Hrest.
  { intros w past1' Hpre Hsp. apply (runs_set _ (fields_ok w true)).
    - intros past s0 Hp0 [Hw _]. split; [exact Hw|]. intros _. split; [done|]. intros eid g.
      change ((Ok <$> gas : gmap Z (result perr Z)) !! eid = Some (Ok g) -> gas_read past eid g).
      rewrite lookup_fmap, fmap_Some. intros (g' & Hg' & [= ->]). eapply gas_mono; [|by apply Hg]. eauto 8 using prefix_trans.
    - next r Hr; [exact Hsp|]. destruct r as [[lost failed] errs].
      apply (runs_set _ (fields_ok w true)); [intros; by eapply fields_frame|].
      case_decide; [eapply spec_runs, (spec_fails _ _ _ (fun _ _ => True))|by eapply spec_runs, (spec_ret _ _ _ (fun _ _ => True))]. }
  case_decide as Hnil.
  - next x Hx; [by apply (spec_ret _ _ _ (fun _ _ => True))|]. apply Hrest; [done|]. rewrite Hnil. by apply spec_ret.
  - apply (runs_set _ (fields_ok true false)); [by intros past s0 _ _; split; [intros _ k x Hk|]|].
    apply Hrest; [done|]. apply spec_enqueueSpikes.
    eapply (scanned_subset _ us (fun u => pendingFeedKey (pu_SrcEID u) (pu_PriceFeed u) ∉ pending)); [|by intros u (x & -> & ?%Hscan)%list_elem_of_fmap|by eapply sublist_NoDup|done].
    intros u Hu Hn. eapply scanned_mono; [|by apply Hp]. done.
Qed.

Lemma runs_any past0 {A B} (m : bot A) (k : A -> bot B) :
  runs (fields_ok false false) [] m -> (forall a, runs (fields_ok false false) [] (k a)) ->
  runs (fields_ok false false) past0 (m ≫= k).
Proof.
  intros Hm Hk s past db _ HI. apply safe_bind. eapply safe_mono; [|by apply Hm; [apply prefix_nil|]].
  intros [s' [a|e]] past' db' _; cbn [fst snd]; [|by apply safe_ret]. apply Hk; [apply prefix_nil|done].
Qed.

Lemma runs_Run n past0 : runs (fields_ok false false) past0 (Run b n).
Proof.
  assert (forall past1, runs (fields_ok false false) past1 (runTicks b n)) as Hticks.
  { induction n as [|n IH]; intros past1; cbn [runTicks]; [by eapply spec_runs, (spec_ret _ _ _ (fun _ _ => True))|].
    next t Ht; [apply spec_askB; auto|]. destruct t; [eapply spec_runs, (spec_fails _ _ _ (fun _ _ => True))|..].
    - apply runs_any; [apply runs_EnqueueOnce|intros _; apply IH].
    - apply runs_any; [apply runs_EnqueueOnGasSpike|intros _; apply IH]. }
  unfold Run. destruct (negb _).
  - next e He; [apply spec_askB; auto|]. eapply spec_runs, (spec_fails _ _ _ (fun _ _ => True)).
  - apply runs_any; [apply runs_EnqueueOnce|intros _; apply Hticks].
Qed.

(** C7: whatever the sources, chains, clocks and other workers answer, and whatever state the
    bot starts in, every store write of the bot is a snapshot transaction, and each of its
    entries is justified by what the bot was told before it: both USD prices passed the source
    policy (or the chains share their native asset), the gas price was read and is positive, the
    snapshot is the conversion of these at a time the clock gave, the snapshot stored on the
    source chain was read and the deviation or heartbeat gate is open against it, and a scan of
    the pending rows found none for the feed. *)
Theorem price_txs_justified n s db tr1 op db1 tr2 db' r :
  behaves (Run b n s) db (tr1 ++ EvStore (Some op) db1 :: tr2) db' r ->
  exists request, op = OpEnqueuePricing request /\ tx_justified tr1 request.
Proof.
  intros Hb. eapply (safe_event PriceP) in Hb; [exact Hb|]. eapply (runs_Run n [] s); [done|]. by split.
Qed.

(** The registry stores every chain under its endpoint id. *)
Definition registry_keyed (r : Registry) : Prop := forall eid c, Get r eid = Ok c -> ch_EID c = eid.

Lemma justified_distinct past request : registry_keyed (bc_registry b) -> tx_justified past request ->
  exists us, us <> [] /\ BuildSetPriceSnapshotCalldata us = Ok (Calldata request) /\ NoDup (su_DstEid <$> us).
Proof.
  intros Hreg (c & src & feed & entries & calldata & _ & Hne & Hbuild & Hnd & -> & _ & Hj).
  exists (snd <$> entries). split_and!; [by intros ?%fmap_nil_inv|done|].
  assert (forall l, l ⊆ entries -> su_DstEid <$> (snd <$> l) = pu_DstEID <$> (fst <$> l)) as E.
  { induction l as [|[t u] l IH]; intros Hl; [done|]. cbn. rewrite IH by set_solver. f_equal.
    destruct (Hj t u) as (_ & _ & dst & _ & _ & _ & _ & _ & Hget & -> & _); [set_solver|]. by apply Hreg. }
  rewrite E by done. apply NoDup_fmap_2_strong; [|done].
  intros t t' ([t1 u1] & -> & H1)%list_elem_of_fmap ([t2 u2] & -> & H2)%list_elem_of_fmap Ed. cbn in *.
  destruct (Hj t1 u1 H1) as (? & ? & _), (Hj t2 u2 H2) as (? & ? & _). destruct t1, t2; cbn in *. congruence.
Qed.

(** The calldata of every snapshot transaction the bot writes decodes strictly (canonical
    encoding, valid snapshots, no zero and no repeated destination), so a row of its own never
    makes the pending scan of a later cycle fail. *)
Theorem price_txs_decodable (laws : PriceAbiLaws abi) n s db tr1 request db1 tr2 db' r :
  registry_keyed (bc_registry b) ->
  behaves (Run b n s) db (tr1 ++ EvStore (Some (OpEnqueuePricing request)) db1 :: tr2) db' r ->
  exists us, us <> [] /\ decodeSetPriceSnapshotCalldata (Calldata request) = Ok us.
Proof.
  intros Hreg Hb. eapply (safe_event PriceP) in Hb as (rq & [= <-] & Hj); [|eapply (runs_Run n [] s); [done|by split]].
  destruct (justified_distinct _ _ Hreg Hj) as (us & Hne & Hbuild & Hnd). exists us. split; [done|]. by apply decode_Build.
Qed.
End justified.

Lemma NewRegistry_keyed `{AddressText} chains pathways : registry_keyed (NewRegistry chains pathways).
Proof.
  intros eid c. pose proof (Get_NewRegistry chains pathways eid) as Hg.
  destruct (last (filter (fun c => ccf_EID c = eid) chains)) as [cfg|] eqn:E.
  - rewrite Hg. intros [= <-]. cbn. assert (cfg ∈ filter (fun c => ccf_EID c = eid) chains) as Hin.
    { apply last_Some_elem_of in E. done. }
    by apply list_elem_of_filter in Hin as [-> _].
  - by destruct (Get _ _).
Qed.

(** ** Gas spikes *)

Section spikes.
Context `{abi : PriceAbi} (b : BotConfig).
Context (hex_inj : forall x y, wf_address x -> wf_address y -> AddressHex x = AddressHex y -> x = y)
  (hex_colon : forall x, wf_address x -> no_char colon (AddressHex x)).
Context (gasPrices : gmap Z Z) (previousPending pending : gset string).

Abbreviation feedKeyOf u := (pendingFeedKey (pu_SrcEID u) (pu_PriceFeed u)).

(** Re-evaluated now: the gas price is known, the feed is not pending, and it was pending on the
    previous check or its gas price rose past the threshold over the baseline. *)
Definition spiking (baselines : gmap string Z) (u : pricedUpdate) (gas : Z) : Prop :=
  gasPrices !! pu_DstEID u = Some gas /\ feedKeyOf u ∉ pending /\
  (feedKeyOf u ∈ previousPending \/
   exists baseline, baselines !! priceUpdateKey u = Some baseline /\
     st_GasSpikeBps (bc_settings b) <= GasIncreaseBps (Some baseline) (Some gas)).

Abbreviation scan1 := (scanUpdate b gasPrices previousPending pending).

Lemma scanUpdate_baseline scan u k : k <> priceUpdateKey u ->
  sn_baselines (scan1 scan u) !! k = sn_baselines scan !! k.
Proof.
  intros Hk. unfold scanUpdate. destruct (gasPrices !! _); repeat case_decide; cbn; try done. by rewrite lookup_insert_ne.
Qed.

Lemma scanUpdate_spikes scan u x : x ∈ sn_spikes (scan1 scan u) <->
  x ∈ sn_spikes scan \/ (x.1 = u /\ spiking (sn_baselines scan) u x.2).
Proof.
  unfold scanUpdate, spiking. destruct (gasPrices !! pu_DstEID u) as [g|]; [|case_decide; cbn; naive_solver].
  destruct (decide (feedKeyOf u ∈ pending)); [naive_solver|].
  destruct (decide (feedKeyOf u ∈ previousPending)) as [Hp|Hp].
  - rewrite !decide_False by tauto. cbn. rewrite elem_of_app, list_elem_of_singleton. destruct x; cbn. naive_solver.
  - destruct (sn_baselines scan !! priceUpdateKey u) as [p|]; [|rewrite decide_True by done; cbn; naive_solver].
    rewrite decide_False by naive_solver. case_decide as Hi.
    + split; [by left|]. intros [|(_ & [= Eg] & _ & [|(q & [= <-] & ?)])]; [done|done|]. rewrite Eg in Hi. lia.
    + cbn. rewrite elem_of_app, list_elem_of_singleton. destruct x as [v g']; cbn. split.
      * intros [|[= -> ->]]; [by left|right]. split_and!; try done. right. exists p. split; [done|].
        by destruct (Z_lt_le_dec (GasIncreaseBps (Some p) (Some g)) (st_GasSpikeBps (bc_settings b))); [tauto|].
      * intros [|(-> & [= ->] & _)]; [by left|by right].
Qed.

(** a gas-spike check re-evaluates exactly the updates whose destination gas price could be
    read, whose feed is not pending, and whose feed either was pending on the previous check
    (so that a drained feed is always re-evaluated) or saw the gas price rise past the threshold
    over its baseline; the marker of a previously pending feed is kept when the gas price of one
    of its destinations could not be read. *)
Theorem gas_spike_scan us baselines : Forall wf_update us -> NoDup us ->
  let scan := fold_left scan1 us (mkScan baselines ∅ []) in
  (forall u gas, (u, gas) ∈ sn_spikes scan <-> u ∈ us /\ spiking baselines u gas) /\
  (forall f, f ∈ sn_carried scan <-> f ∈ previousPending /\
     exists u, u ∈ us /\ f = feedKeyOf u /\ gasPrices !! pu_DstEID u = None).
Proof.
  intros Hwf Hnd scan. split.
  - assert (forall scan0 x, x ∈ sn_spikes (fold_left scan1 us scan0) <->
      x ∈ sn_spikes scan0 \/ (x.1 ∈ us /\ spiking (sn_baselines scan0) x.1 x.2)) as H.
    { clear scan. induction us as [|u us IH]; intros scan0 x; cbn [fold_left]; [set_solver|].
      apply Forall_cons in Hwf as [Hu Hus]. apply NoDup_cons in Hnd as [Hnin Hnd].
      rewrite IH, scanUpdate_spikes, elem_of_cons by done.
      assert (x.1 ∈ us -> spiking (sn_baselines (scan1 scan0 u)) x.1 x.2 <-> spiking (sn_baselines scan0) x.1 x.2) as E.
      { intros Hx. unfold spiking. rewrite scanUpdate_baseline; [done|]. intros Ek.
        apply priceUpdateKey_inj in Ek; [by subst|done|done|by eapply list.Forall_forall in Hus|done]. }
      split.
      - intros [[?|[<- ?]]|[? ?]]; [by left|by right; auto|right; split; [by right|by apply E]].
      - intros [?|[[<- | ?] ?]]; [by left; left|by left; right|right; split; [done|by apply E]]. }
    intros u gas. unfold scan. rewrite H. cbn. set_solver.
  - assert (forall scan0 f, f ∈ sn_carried (fold_left scan1 us scan0) <-> f ∈ sn_carried scan0 \/
      (f ∈ previousPending /\ exists u, u ∈ us /\ f = feedKeyOf u /\ gasPrices !! pu_DstEID u = None)) as H.
    { clear. induction us as [|u us IH]; intros scan0 f; cbn [fold_left]; [set_solver|]. rewrite IH.
      assert (f ∈ sn_carried (scan1 scan0 u) <-> f ∈ sn_carried scan0 \/
        (f ∈ previousPending /\ f = feedKeyOf u /\ gasPrices !! pu_DstEID u = None)) as ->.
      { unfold scanUpdate. destruct (gasPrices !! _); repeat case_decide; cbn; set_solver. }
      set_solver. }
    intros f. unfold scan. rewrite H. cbn. set_solver.
Qed.
End spikes.
