(* ===== verification/PricingSample.v ===== *)
(** * A concrete world for the price bot

    The ABI encoding of a snapshot batch, two chains with a feed on the first, and sources that
    answer; the theorems about the bot are applied to a run that writes the first snapshot. *)

From S2P Require Import Prelude GoErr BigUtil Schema SendScope Outbox Jobs Store StateReads Quorum QuorumLogs Registry Proc Worker PriceMath PriceSelect PriceUpdates PriceSources Pricing PricingProofs.
From stdpp Require Import base gmap list strings numbers sorting.
From Stdlib Require Import ZArith QArith Lia.
#[local] Open Scope Z_scope.

(** ** The encoding: five words per update behind offset and length *)

Definition word (z : Z) : bytes := be_split 32 z.
Definition is_word (z : Z) : Prop := 0 <= z < 256 ^ 32.

Definition encode_update (u : PriceSnapshotUpdate) : bytes :=
  word (su_DstEid u) ++ word (default 0 (ps_DstGasPriceInSrcToken (su_Snapshot u))) ++
  word (default 0 (ps_DstDataFeePerByteInSrcToken (su_Snapshot u))) ++
  word (ps_UpdatedAt (su_Snapshot u)) ++ word (ps_StaleAfter (su_Snapshot u)).

Definition encodable (u : PriceSnapshotUpdate) : Prop :=
  is_word (su_DstEid u) /\
  (ps_DstGasPriceInSrcToken (su_Snapshot u) <> None /\ is_word (default 0 (ps_DstGasPriceInSrcToken (su_Snapshot u)))) /\
  (ps_DstDataFeePerByteInSrcToken (su_Snapshot u) <> None /\
   is_word (default 0 (ps_DstDataFeePerByteInSrcToken (su_Snapshot u)))) /\
  is_word (ps_UpdatedAt (su_Snapshot u)) /\ is_word (ps_StaleAfter (su_Snapshot u)).
#[export] Instance encodable_dec u : Decision (encodable u).
Proof. unfold encodable, is_word. apply _. Defined.

Definition read_word (n : nat) (data : bytes) : Z := be_combine (take 32 (drop (32 * n) data)).
Definition decode_stored (data : bytes) : PriceSnapshot :=
  mkPriceSnapshot (Some (read_word 0 data)) (Some (read_word 1 data)) (read_word 2 data) (read_word 3 data).

Fixpoint decode_updates (n : nat) (data : bytes) : list PriceSnapshotUpdate :=
  match n with
  | O => []
  | S n => mkSnapshotUpdate (read_word 0 data) (decode_stored (drop 32 data)) :: decode_updates n (drop 160 data)
  end.

Definition sample_selector : bytes := be_split 4 3735928559.

#[export] Instance sample_price_abi : PriceAbi := {|
  price_address_text := sample_hex;
  setPriceSnapshotID := sample_selector;
  PackSet := fun us =>
    if decide (Forall encodable us /\ Z.of_nat (length us) < 2 ^ 64)
    then Ok (sample_selector ++ word 32 ++ word (Z.of_nat (length us)) ++ (us ≫= encode_update))
    else Err "abi: cannot encode"%string;
  UnpackSet := fun data => Ok (decode_updates (Z.to_nat (read_word 1 data)) (drop 64 data));
  PackStored := fun dst => Ok (be_split 4 1 ++ word dst);
  UnpackStored := fun data => Ok (decode_stored data) |}.

Lemma length_word z : length (word z) = 32%nat.
Proof. apply length_be_split. Qed.

Lemma read_word_0 z data : is_word z -> read_word 0 (word z ++ data) = z.
Proof.
  intros Hz. unfold read_word. change (drop (32 * 0) ?l) with l. rewrite take_app_length' by (by rewrite length_word).
  by apply be_combine_split_small.
Qed.

Lemma read_word_S n z data : read_word (S n) (word z ++ data) = read_word n data.
Proof.
  unfold read_word. replace (32 * S n)%nat with (length (word z) + 32 * n)%nat by (rewrite length_word; lia).
  by rewrite <- drop_drop, drop_app_length.
Qed.

Lemma drop_word n z data : drop (32 + n) (word z ++ data) = drop n data.
Proof. replace (32 + n)%nat with (length (word z) + n)%nat by (by rewrite length_word). by rewrite <- drop_drop, drop_app_length. Qed.

Lemma drop_32 z data : drop 32 (word z ++ data) = data.
Proof. apply (drop_word 0). Qed.

Lemma decode_encode us data : Forall encodable us ->
  decode_updates (length us) ((us ≫= encode_update) ++ data) = us.
Proof.
  induction 1 as [|[dst [gas fee at_ stale]] us (Hd & [Hg1 Hg] & [Hf1 Hf] & Hu & Hs) _ IH]; [done|].
  cbn [length decode_updates mbind list_bind]. unfold encode_update in *. cbn in Hd, Hg, Hf, Hu, Hs, Hg1, Hf1.
  cbn [su_DstEid su_Snapshot ps_DstGasPriceInSrcToken ps_DstDataFeePerByteInSrcToken ps_UpdatedAt ps_StaleAfter].
  destruct gas as [gas|], fee as [fee|]; [|done..]. cbn in Hg, Hf. cbn [default from_option id].
  rewrite <- !app_assoc. rewrite drop_32, (drop_word 128), (drop_word 96), (drop_word 64), (drop_word 32), drop_32, IH.
  unfold decode_stored. rewrite !read_word_S, !read_word_0 by done. done.
Qed.

#[export] Instance sample_price_laws : PriceAbiLaws sample_price_abi.
Proof.
  assert (forall us data, PackSet us = Ok data -> Forall encodable us /\ Z.of_nat (length us) < 2 ^ 64 /\
    data = sample_selector ++ word 32 ++ word (Z.of_nat (length us)) ++ (us ≫= encode_update)) as Hpack.
  { intros us data. cbn. case_decide as H; [|done]. intros [= <-]. tauto. }
  split.
  - intros us data (_ & _ & ->)%Hpack. by rewrite take_app_length'.
  - done.
  - intros us data (He & Hl & ->)%Hpack. cbn [UnpackSet sample_price_abi]. rewrite drop_app_length' by done.
    rewrite read_word_S, read_word_0 by (unfold is_word; lia). rewrite Nat2Z.id.
    change 64%nat with (32 + (32 + 0))%nat. rewrite !drop_word, drop_0.
    rewrite <- (app_nil_r (us ≫= encode_update)). by rewrite decode_encode.
Qed.

(** ** The world *)

Definition price_settings : Settings :=
  mkSettings true "pricing" 60000000000 3600000000000 500 100 1800000000000 5000000000 2000.
Definition price_sources : gmap Z ChainSources :=
  let cs asset := mkChainSources (mkReader "chainlink" true 3600000000000) [mkReader "uniswap" true 3600000000000]
                    true (Some 16) asset in
  {[ 101 := cs "eth"; 102 := cs "pol" ]}%string.
Definition sample_bot : BotConfig := mkBotConfig sample_registry price_settings price_sources.
Definition fresh_state : BotState := mkBotState ∅ ∅ ∅ ∅ ∅ ∅.

Definition price_now : Z := 1700000000 * 1000000000.
(** A dollar price of the native tokens: 2000 and 2010 on one chain, 1/2 and 51/100 on the other. *)
Definition price_answers (eid : Z) : list (nat * answer) :=
  let at_ := price_now - 10000000000 in
  if decide (eid = 101)
  then [(1%nat, Ok (mkSourcePrice "uniswap" (Some (2010 # 1)) at_)); (0%nat, Ok (mkSourcePrice "chainlink" (Some (2000 # 1)) at_))]
  else [(0%nat, Ok (mkSourcePrice "chainlink" (Some (1 # 2)) at_)); (1%nat, Ok (mkSourcePrice "uniswap" (Some (51 # 100)) at_))].

Definition price_world (R : Type) (q : pquery R) : R :=
  match q with
  | PSources eid _ => (price_answers eid, errNew "context deadline exceeded")
  | PGas _ => Ok (Some 30000000000)
  | PNow => price_now
  | PHead _ => Ok (Some 200, 77)
  | PCall _ _ _ _ => Ok (word 0 ++ word 0 ++ word 0 ++ word 0)
  | PCtxErr => None
  | PDone => errNew "context canceled"
  | PTick => TickGas
  end.

Definition price_tables : DB :=
  mkDB {[ 101 := Schema.mkChain true false; 102 := Schema.mkChain true false ]} ∅ ∅ ∅ ∅ ∅ ∅ ∅ ∅ ∅ ∅ 1 1.
Definition price_env (db : DB) : callenv := mkEnv 30 30 db "".
Definition price_run := simulate (Run sample_bot 1 fresh_state) price_env price_world price_tables.

Definition price_request_of (e : option (event pquery)) : option TxRequest :=
  match e with Some (EvStore (Some (OpEnqueuePricing r)) _) => Some r | _ => None end.
Definition first_request : TxRequest :=
  match price_request_of (price_run.1.1 !! 9%nat) with Some r => r | None => mkTxRequest 0 "" [] 0 [] None "" end.
Definition price_tables_at (k : nat) : DB :=
  match price_run.1.1 !! k with Some e => event_db e | None => price_tables end.

Lemma price_run_behaves :
  behaves (Run sample_bot 1 fresh_state) price_tables price_run.1.1 price_run.1.2 (Some price_run.2).
Proof. unfold price_run. apply simulate_behaves. Qed.

Lemma price_run_split op :
  price_run.1.1 !! 9%nat = Some (EvStore (Some op) (price_tables_at 9)) ->
  behaves (Run sample_bot 1 fresh_state) price_tables
    (take 9 price_run.1.1 ++ EvStore (Some op) (price_tables_at 9) :: drop 10 price_run.1.1) price_run.1.2 (Some price_run.2).
Proof. intros E. rewrite (take_drop_middle _ _ _ E). apply price_run_behaves. Qed.

Lemma sample_hex_colon x : wf_address x -> no_char colon (sample_hex x).
Proof. intros _. apply no_char_app. split; [by repeat split|apply hex_colon]. Qed.

Lemma sample_pathways : Pathways (bc_registry sample_bot) = [sample_pathway].
Proof. vm_compute. reflexivity. Qed.

Lemma sample_pathways_wf : Forall (fun p => wf_update (updateOf p)) (Pathways (bc_registry sample_bot)).
Proof. rewrite sample_pathways. repeat constructor; cbn; lia. Qed.

Lemma OpEnqueuePricing_inj r r' : OpEnqueuePricing r = OpEnqueuePricing r' -> r = r'.
Proof. by intros [= ->]. Qed.

Lemma price_txs_justified_witness :
  price_run.1.1 !! 9%nat = Some (EvStore (Some (OpEnqueuePricing first_request)) (price_tables_at 9)) /\
  tx_justified sample_bot (take 9 price_run.1.1) first_request.
Proof.
  assert (price_run.1.1 !! 9%nat = Some (EvStore (Some (OpEnqueuePricing first_request)) (price_tables_at 9))) as E
    by (vm_compute; reflexivity).
  split; [exact E|].
  destruct (price_txs_justified (abi := sample_price_abi) sample_bot sample_hex_inj sample_hex_colon sample_pathways_wf 1 fresh_state _ _ _ _ _ _ _
    (price_run_split _ E)) as (request & Eq & Hj).
  rewrite (OpEnqueuePricing_inj _ _ Eq). exact Hj.
Defined.

Lemma price_txs_decodable_witness :
  exists us, us <> [] /\ decodeSetPriceSnapshotCalldata (Calldata first_request) = Ok us.
Proof.
  assert (price_run.1.1 !! 9%nat = Some (EvStore (Some (OpEnqueuePricing first_request)) (price_tables_at 9))) as E
    by (vm_compute; reflexivity).
  exact (price_txs_decodable (abi := sample_price_abi) sample_bot sample_hex_inj sample_hex_colon sample_pathways_wf sample_price_laws 1 fresh_state
    _ _ _ _ _ _ _ (NewRegistry_keyed _ _) (price_run_split _ E)).
Defined.

(** ** Pure parts *)

Definition update_a : pricedUpdate := mkPricedUpdate 101 102 43.
Definition update_b : pricedUpdate := mkPricedUpdate 101 103 43.

Lemma updates_wf : Forall wf_update [update_b; update_a].
Proof. repeat constructor; cbn; lia. Qed.

(** The gas price of 102 doubled; the feed of 103 has just drained. *)
Lemma gas_spike_scan_witness :
  (update_a, 200) ∈ sn_spikes (fold_left (scanUpdate sample_bot {[102 := 200]} ∅ ∅) [update_b; update_a]
     (mkScan {[priceUpdateKey update_a := 100]} ∅ [])).
Proof.
  destruct (gas_spike_scan (abi := sample_price_abi) sample_bot sample_hex_inj sample_hex_colon {[102 := 200]} ∅ ∅ [update_b; update_a]
    {[priceUpdateKey update_a := 100]} updates_wf) as [Hs _]; [apply (bool_decide_eq_true_1 _); vm_compute; reflexivity|].
  apply Hs. split; [right; left|]. split_and!; [reflexivity|set_solver|]. right. exists 100.
  split; [apply lookup_singleton_eq|]. vm_compute. discriminate.
Defined.

Lemma priceUpdateBatches_spec_witness :
  exists batch, batch ∈ priceUpdateBatches [update_b; update_a] /\ update_a ∈ pb_Targets batch.
Proof.
  destruct (priceUpdateBatches_spec sample_hex_inj sample_hex_colon [update_b; update_a] updates_wf) as (_ & Hin & _).
  apply Hin. right. left.
Defined.

Lemma BuildPriceSnapshot_spec_witness :
  BuildPriceSnapshot (mkPriceInputs (Some (3 # 1)) (Some (2 # 1)) (Some 100) (Some 1) 5 60) =
    Ok (mkPriceSnapshot (Some 67) (Some 1) 5 60) /\ covers 100 67 (3 # 1) (2 # 1).
Proof.
  destruct (BuildPriceSnapshot_spec (3 # 1) (2 # 1) 100 1 5 60) as (g & f & Hg & Hf & _ & _ & Hm);
    [reflexivity|reflexivity|lia|lia|lia|vm_compute; split; [reflexivity|discriminate]|].
  assert (BuildPriceSnapshot (mkPriceInputs (Some (3 # 1)) (Some (2 # 1)) (Some 100) (Some 1) 5 60) =
    Ok (mkPriceSnapshot (Some 67) (Some 1) 5 60)) as E by (vm_compute; reflexivity).
  rewrite E in Hm. destruct Hm as (Eq & _ & _). injection Eq as Eg _. split; [exact E|]. rewrite Eg. exact Hg.
Defined.

Definition sample_completed : gmap string answer :=
  collect [mkReader "chainlink" true 3600000000000; mkReader "uniswap" true 3600000000000] (price_answers 101)
    (errNew "context deadline exceeded") ∅.

Lemma selectFrom_spec_witness :
  exists p, healthy sample_completed (mkReader "chainlink" true 3600000000000) price_now p (2000 # 1).
Proof.
  destruct (selectFrom_spec 101 (mkChainSources (mkReader "chainlink" true 3600000000000)
    [mkReader "uniswap" true 3600000000000] true (Some 16) "eth") sample_completed price_now 500) as [Hs _];
    [vm_compute; reflexivity|].
  apply (Hs (2000 # 1)). vm_compute. reflexivity.
Defined.

(** ** A Chainlink read *)

Definition sample_view {R} (v : sview R) : R :=
  match v with
  | ChainlinkDescription => "ETH / USD"%string
  | ChainlinkDecimals => 8
  | ChainlinkLatestRoundData => (5, 200000000000, 0, 1699999990, 5)
  | PoolToken0 => 1
  | PoolToken1 => 2
  | PoolObserve _ => ([0; -1801], [0; 5])
  | ERC20Decimals => 18
  end.
#[export] Instance sample_source_abi : SourceAbi := {|
  PackView := fun _ _ => Ok [];
  UnpackView := fun _ v _ => Ok (sample_view v);
  UnpackRevert := fun _ => None;
  HexDecode := fun _ => None |}.

Definition sample_chainlink : ChainlinkClient := mkChainlink 71 "ETH / USD".
Definition sample_uniswap : UniswapV3Client := mkUniswap 72 1 2 1800 1.
Definition source_world (R : Type) (q : squery R) : R :=
  match q with
  | SHeader => Ok (Some (mkSourceHeader (Some 200) 1699999999 77))
  | SCall _ _ _ => Ok []
  | SCtxErr => None
  | SRetryWait => None
  end.
Definition chainlink_run := simulate (chainlinkPriceUSD sample_chainlink) price_env source_world price_tables.

Lemma chainlink_price : chainlink_run.2 = Ok (mkSourcePrice "chainlink" (Some (200000000000 # 100000000)) (1699999990 * 1000000000)).
Proof. vm_compute. reflexivity. Qed.

Lemma uniswap_price :
  is_ok (simulate (uniswapPriceUSD sample_uniswap) price_env source_world price_tables).2 = true.
Proof. vm_compute. reflexivity. Qed.

Lemma chainlink_run_behaves :
  behaves (chainlinkPriceUSD sample_chainlink) price_tables chainlink_run.1.1 chainlink_run.1.2 (Some chainlink_run.2).
Proof. unfold chainlink_run. apply simulate_behaves. Qed.

Lemma source_reads_pinned_witness :
  exists header db0, EvAsk SHeader (Ok (Some header)) db0 ∈ take 1 chainlink_run.1.1 /\
    AtHash 77 = CallAtAnchor (Some (mkAnchor (sh_Number header) (sh_Hash header))).
Proof.
  assert (chainlink_run.1.1 !! 1%nat = Some (EvAsk (SCall 71 [] (AtHash 77)) (Ok []) price_tables)) as E
    by (vm_compute; reflexivity).
  pose proof chainlink_run_behaves as Hb. rewrite <- (take_drop_middle _ _ _ E) in Hb.
  exact (source_reads_pinned sample_chainlink sample_uniswap _ _ _ _ _ _ _ _ _ _ _ (or_introl eq_refl) Hb).
Defined.

Lemma observation_priced_witness : observation 1800 [0; -1801] [0; 5] = Ok (-2, 1800 * (2 ^ 160 - 1) / (5 * 2 ^ 32)).
Proof.
  pose proof (observation_priced 1800 0 (-1801) 0 5 1 1 2 ltac:(lia) ltac:(lia)) as Ho. cbv zeta in Ho.
  destruct (decide _) as [_|n]; [exact (proj1 Ho)|]. exfalso. apply n. vm_compute. repeat split; discriminate || reflexivity.
Defined.
