(* ===== verification/StringOrder.v ===== *)
(** * The order of Go's sort.Strings

    Byte-wise comparison of strings is a total order, so sorting forgets the order of its
    input. *)

From S2P Require Import Prelude.
From stdpp Require Import base list strings numbers sorting.
From Stdlib Require Import ZArith Lia Ascii.

(** sort.Strings: by bytes *)
Definition str_le (a b : string) : Prop := String.leb a b = true.
#[export] Instance str_le_dec a b : Decision (str_le a b) := decide (String.leb a b = true).
Definition sortStrings (l : list string) : list string := merge_sort str_le l.

#[export] Instance str_le_antisymm : AntiSymm (=) str_le.
Proof. intros a b. apply String.leb_antisym. Qed.
#[export] Instance str_le_total : Total str_le.
Proof. intros a b. apply String.leb_total. Qed.

Lemma str_le_cons c a d b :
  str_le (String c a) (String d b) <-> (N_of_ascii c < N_of_ascii d)%N \/ (c = d /\ str_le a b).
Proof.
  unfold str_le, String.leb. cbn [String.compare].
  pose proof (Ascii.compare_eq_iff c d) as He. unfold Ascii.compare in *.
  destruct (N.compare_spec (N_of_ascii c) (N_of_ascii d)) as [E|E|E].
  - rewrite (He eq_refl) in *. split; [by right|]. intros [?|[_ ?]]; [lia|done].
  - split; [by left|done].
  - split; [done|]. intros [?|[-> _]]; lia.
Qed.

#[export] Instance str_le_trans : Transitive str_le.
Proof.
  intros a. induction a as [|c a IH]; intros [|d b] [|e x]; try done.
  rewrite !str_le_cons. intros [?|[-> H1]] [?|[-> H2]]; [left; lia|by left|by left|right]. eauto.
Qed.

(** Sorting forgets the order of its input. *)
Lemma sortStrings_perm l1 l2 : l1 ≡ₚ l2 -> sortStrings l1 = sortStrings l2.
Proof.
  intros Hp. unfold sortStrings. eapply (Sorted_unique str_le); [apply Sorted_merge_sort, _..|].
  by rewrite !merge_sort_Permutation.
Qed.

Lemma elem_of_sortStrings x l : x ∈ sortStrings l <-> x ∈ l.
Proof. unfold sortStrings. by rewrite merge_sort_Permutation. Qed.
