(* ===== verification/Stats.v ===== *)
(** * Operational queries (go/internal/db/stats.go, drain.go, fee_accounting.go)

    The read-only summaries of the tables that metrics, readiness and drain checks use.
    A [GROUP BY] is a map from the group's key to its rows; its groups are listed in the
    order of the map ([ORDER BY] is for presentation). The columns that no other operation
    reads (names and creation times) are a parameter. *)

From S2P Require Import Prelude BigUtil Schema SendScope Outbox Attempts Jobs.
From stdpp Require Import base gmap list strings numbers sorting.
From Stdlib Require Import ZArith Lia.
#[local] Open Scope Z_scope.

(** ** Grouping *)

Definition group_by {A K} `{Countable K} (key : A -> K) (rows : list A) : gmap K (list A) :=
  foldr (fun x m => <[key x := x :: default [] (m !! key x)]> m) ∅ rows.

Definition groups {A K} `{Countable K} (key : A -> K) (rows : list A) : list (K * list A) :=
  map_to_list (group_by key rows).

Definition count {A} (rows : list A) : Z := Z.of_nat (length rows).
Definition sum {A} (f : A -> Z) (rows : list A) : Z := foldr (fun x acc => f x + acc) 0 rows.

(** floor(extract(epoch FROM now() - min(t))), 0 when it is negative or there is no row *)
Definition oldest {A} (t : A -> timestamp) (rows : list A) : option timestamp :=
  foldr (fun x m => Some (match m with Some y => Z.min (t x) y | None => t x end)) None rows.
Definition age_seconds (now : timestamp) (t : option timestamp) : Z :=
  match t with Some t => Z.max 0 ((now - t) / 1000000) | None => 0 end.

(** ** Columns *)

(** chains.name, tx_outbox.created_at and tx_attempts.created_at, by primary key. *)
Record columns := mkColumns {
  chain_name : Z -> string; outbox_created_at : Z -> timestamp; attempt_created_at : Z -> timestamp }.

Definition chain_enabled (db : DB) (eid : Z) : bool :=
  match chains db !! eid with Some c => c_enabled c | None => false end.

(** statsEnabledPacketScopeSQL: the packet's pathway is enabled, and no endpoint chain is
    disabled. *)
Definition statsEnabledPacketScope (db : DB) (p : PacketRow) : Prop :=
  map_Exists (fun _ pw => pw_src_eid pw = p_src_eid p /\ pw_dst_eid pw = p_dst_eid p /\
    pw_src_oapp pw = p_sender p /\ pw_dst_oapp pw = p_receiver p /\ pw_enabled pw = true) (pathways db) /\
  ~ map_Exists (fun eid c => (eid = p_src_eid p \/ eid = p_dst_eid p) /\ c_enabled c = false) (chains db).
#[export] Instance statsEnabledPacketScope_dec db p : Decision (statsEnabledPacketScope db p) := _.

(** ** Statistics *)

Record ChainStat := mkChainStat { cs_EID : Z; cs_Name : string; cs_Enabled : bool; cs_Paused : bool }.
Record PathwayStat := mkPathwayStat { ps_SrcEID : Z; ps_DstEID : Z; ps_Enabled : bool; ps_Paused : bool }.
Record PacketStat := mkPacketStat { pk_SrcEID : Z; pk_DstEID : Z; pk_Status : string; pk_Count : Z }.
Record StatusStat := mkStatusStat { ss_Status : string; ss_Count : Z }.
Record TxOutboxStat := mkTxOutboxStat { to_ChainEID : Z; to_Status : TxStatus; to_RetryState : string; to_Count : Z }.
(** The synthetic reasons and the stored one. *)
Inductive held_stat_reason := HeldBy (reason : option HeldReason) | HeldRepriceExhausted | HeldCancelRequested.
#[export] Instance held_stat_reason_eq_dec : EqDecision held_stat_reason.
Proof. solve_decision. Defined.
Record TxOutboxHeldStat := mkHeldStat {
  hs_ChainEID : Z; hs_SignerID : string; hs_HeldReason : held_stat_reason; hs_Count : Z; hs_OldestAgeSeconds : Z }.
Record TxOutboxOrphanedStat := mkOrphanedStat {
  or_ChainEID : Z; or_SignerID : string; or_Status : TxStatus; or_Count : Z; or_OldestAgeSeconds : Z }.
Record TxReceiptGasCostStat := mkGasCostStat { gc_ChainEID : Z; gc_Purpose : string; gc_GasCostDstWei : Z }.
Record WorkerFeeStat := mkFeeStat {
  fs_Role : string; fs_SrcEID : Z; fs_DstEID : Z; fs_RevenueSrcWei : Z; fs_ActualGasCostSrcWei : Z;
  fs_GrossMarginSrcWei : Z; fs_NegativeMarginJobs : Z; fs_UnpricedReceipts : Z }.
Record IndexerCursorStat := mkCursorStat { ic_ChainEID : Z; ic_Stream : string; ic_LastBlock : Z }.
Record PricingPendingStat := mkPendingStat { pp_ChainEID : Z; pp_Count : Z; pp_OldestAgeSeconds : Z }.

Definition chainStats (col : columns) (db : DB) : list ChainStat :=
  (fun x => mkChainStat x.1 (chain_name col x.1) (c_enabled x.2) (c_paused x.2)) <$> map_to_list (chains db).

Definition pathwayStats (db : DB) : list PathwayStat :=
  (fun x => mkPathwayStat (pw_src_eid x.2) (pw_dst_eid x.2) (pw_enabled x.2) (pw_paused x.2)) <$> map_to_list (pathways db).

Definition packetStats (db : DB) : list PacketStat :=
  let rows := filter (fun x => statsEnabledPacketScope db x.2) (map_to_list (packets db)) in
  (fun g => mkPacketStat g.1.1.1 g.1.1.2 g.1.2 (count g.2)) <$>
    groups (fun x => (p_src_eid x.2, p_dst_eid x.2, p_status x.2)) rows.

(** The statuses of the jobs whose packet is in an enabled scope. *)
Definition statuses_in_scope {J} (status : J -> string) (jobs : gmap bytes J) (db : DB) : list string :=
  omap (fun x => p ← packets db !! x.1; if decide (statsEnabledPacketScope db p) then Some (status x.2) else None)
    (map_to_list jobs).
Definition statusStats (statuses : list string) : list StatusStat :=
  (fun g => mkStatusStat g.1 (count g.2)) <$> groups (fun s => s) statuses.

Definition TxOutboxRetryStateRetrying : string := "retrying".
Definition TxOutboxRetryStateSuperseded : string := "superseded".
Definition TxOutboxRetryStateExhausted : string := "exhausted".

(** The CASE of txOutboxStats. *)
Definition retry_state (db : DB) (id : Z) (o : OutboxRow) : string :=
  if decide (o_status o <> TxStatusFailed) then ""
  else if decide (exists_outbox db (fun child => o_retry_of_id child = Some id)) then TxOutboxRetryStateSuperseded
  else match o_failure_kind o with
  | None => TxOutboxRetryStateSuperseded
  | Some kind =>
    if decide (kind = TxFailureCanceled \/ kind = TxFailureNonceConsumedExternally) then TxOutboxRetryStateSuperseded
    else if decide (o_purpose o = TxPurposePricingSetPriceSnapshot /\
                    (o_nonce o = None \/ o_receipt_outcome o <> None \/ kind = TxFailureReceiptFailed))
      then TxOutboxRetryStateSuperseded
    else if decide (o_attempts o < TxAutoRetryMaxAttempts /\ o_next_retry_at o <> None) then TxOutboxRetryStateRetrying
    else TxOutboxRetryStateExhausted
  end.

(** A row with a packet follows the packet's scope, another one its chain. *)
Definition outbox_in_scope (db : DB) (o : OutboxRow) : Prop :=
  match guid ← o_guid o; packets db !! guid with
  | Some p => statsEnabledPacketScope db p
  | None => chain_enabled db (o_chain_eid o) = true
  end.
#[export] Instance outbox_in_scope_dec db o : Decision (outbox_in_scope db o).
Proof. unfold outbox_in_scope. case_match; apply _. Defined.

#[export] Instance TxStatus_countable : Countable TxStatus :=
  inj_countable' (fun s => match s with
    | TxStatusQueued => 0 | TxStatusNonceAssigned => 1 | TxStatusSigned => 2 | TxStatusBroadcast => 3
    | TxStatusConfirmed => 4 | TxStatusFailed => 5 | TxStatusHeld => 6 end)
  (fun z => match z with 0 => TxStatusQueued | 1 => TxStatusNonceAssigned | 2 => TxStatusSigned | 3 => TxStatusBroadcast
    | 4 => TxStatusConfirmed | 5 => TxStatusFailed | _ => TxStatusHeld end) ltac:(by intros []).
#[export] Instance HeldReason_countable : Countable HeldReason :=
  inj_countable' (fun s => match s with
    | HeldNonceReconcileRequired => 0 | HeldRepriceRequired => 1 | HeldManual => 2 | HeldBroadcastExhausted => 3
    | HeldNonceConsumedExternally => 4 end)
  (fun z => match z with 0 => HeldNonceReconcileRequired | 1 => HeldRepriceRequired | 2 => HeldManual
    | 3 => HeldBroadcastExhausted | _ => HeldNonceConsumedExternally end) ltac:(by intros []).
#[export] Instance held_stat_reason_countable : Countable held_stat_reason :=
  inj_countable' (fun r => match r with HeldBy h => inl h | HeldRepriceExhausted => inr false | HeldCancelRequested => inr true end)
  (fun x => match x with inl h => HeldBy h | inr false => HeldRepriceExhausted | inr true => HeldCancelRequested end) ltac:(by intros []).

Definition txOutboxStats (db : DB) : list TxOutboxStat :=
  let rows := select_outbox db (fun x => outbox_in_scope db x.2) in
  (fun g => mkTxOutboxStat g.1.1.1 g.1.1.2 g.1.2 (count g.2)) <$>
    groups (fun x => (o_chain_eid x.2, o_status x.2, retry_state db x.1 x.2)) rows.

(** LEFT JOIN tx_attempts act ON act.id = o.active_attempt_id *)
Definition joined_attempt (db : DB) (o : OutboxRow) : option (Z * AttemptRow) :=
  aid ← o_active_attempt_id o; a ← tx_attempts db !! aid; Some (aid, a).
Definition cancel_active (db : DB) (o : OutboxRow) : Prop :=
  (fun x => a_kind x.2) <$> joined_attempt db o = Some TxAttemptCancel.
#[export] Instance cancel_active_dec db o : Decision (cancel_active db o).
Proof. unfold cancel_active. apply _. Defined.

Definition held_reason_stat (db : DB) (id : Z) (o : OutboxRow) : held_stat_reason :=
  if decide (o_held_reason o = Some HeldRepriceRequired /\ (o_cancel_requested_at o = None \/ cancel_active db o) /\
             TxMaxReplacements <= count_kind db id (if decide (cancel_active db o) then TxAttemptCancel else TxAttemptReplacement))
  then HeldRepriceExhausted else HeldBy (o_held_reason o).

(** A reprice hold ages from the last signed attempt, any other hold from its last change. *)
Definition held_since (col : columns) (db : DB) (o : OutboxRow) : timestamp :=
  if decide (o_held_reason o = Some HeldRepriceRequired)
  then match joined_attempt db o with Some x => attempt_created_at col x.1 | None => o_updated_at o end
  else o_updated_at o.

Definition cancel_pending (o : OutboxRow) : Prop :=
  o_cancel_requested_at o <> None /\ o_status o <> TxStatusConfirmed /\ o_status o <> TxStatusFailed.
#[export] Instance cancel_pending_dec o : Decision (cancel_pending o) := _.

Definition held_rows (db : DB) : list (Z * OutboxRow) := select_outbox db (fun x => o_status x.2 = TxStatusHeld).
Definition cancel_rows (db : DB) : list (Z * OutboxRow) := select_outbox db (fun x => cancel_pending x.2).

Definition txOutboxHeldStats (col : columns) (now : timestamp) (db : DB) : list TxOutboxHeldStat :=
  ((fun g => mkHeldStat g.1.1.1 g.1.1.2 g.1.2 (count g.2) (age_seconds now (oldest (fun x => held_since col db x.2) g.2))) <$>
    groups (fun x => (o_chain_eid x.2, o_signer_id x.2, held_reason_stat db x.1 x.2)) (held_rows db)) ++
  ((fun g => mkHeldStat g.1.1 g.1.2 HeldCancelRequested (count g.2)
      (age_seconds now (oldest (fun x => default 0 (o_cancel_requested_at x.2)) g.2))) <$>
    groups (fun x => (o_chain_eid x.2, o_signer_id x.2)) (cancel_rows db)).

Definition orphaned (db : DB) (o : OutboxRow) : Prop :=
  (o_status o = TxStatusSigned \/ o_status o = TxStatusBroadcast) /\ o_active_attempt_id o = None /\
  chain_enabled db (o_chain_eid o) = true.
#[export] Instance orphaned_dec db o : Decision (orphaned db o) := _.

Definition txOutboxOrphanedStats (now : timestamp) (db : DB) : list TxOutboxOrphanedStat :=
  (fun g => mkOrphanedStat g.1.1.1 g.1.1.2 g.1.2 (count g.2) (age_seconds now (oldest (fun x => o_updated_at x.2) g.2))) <$>
    groups (fun x => (o_chain_eid x.2, o_signer_id x.2, o_status x.2)) (select_outbox db (fun x => orphaned db x.2)).

Definition txReceiptGasCostStats (db : DB) : list TxReceiptGasCostStat :=
  (fun g => mkGasCostStat g.1.1 g.1.2 (sum (fun x => default 0 (o_receipt_gas_cost_dst_wei x.2)) g.2)) <$>
    groups (fun x => (o_chain_eid x.2, o_purpose x.2)) (select_outbox db (fun x => o_receipt_gas_cost_dst_wei x.2 <> None)).

Definition indexerCursorStats (db : DB) : list IndexerCursorStat :=
  (fun x => mkCursorStat x.1.1 x.1.2 x.2) <$> map_to_list (indexer_cursors db).

Definition pricing_stalled_scope (db : DB) (o : OutboxRow) : Prop :=
  pricing_pending (o_chain_eid o) o /\ chain_enabled db (o_chain_eid o) = true.
#[export] Instance pricing_stalled_scope_dec db o : Decision (pricing_stalled_scope db o) := _.

Definition pricingPendingStats (col : columns) (now : timestamp) (db : DB) : list PricingPendingStat :=
  (fun g => mkPendingStat g.1 (count g.2) (age_seconds now (oldest (fun x => outbox_created_at col x.1) g.2))) <$>
    groups (fun x => o_chain_eid x.2) (select_outbox db (fun x => pricing_stalled_scope db x.2)).

(** ** Fee accounting *)

Definition workerRoleExecutor : string := "executor".
Definition workerRoleDVN : string := "dvn".
Definition worker_purposes : list string :=
  [txPurposeExecutorCommitVerification; txPurposeExecutorLzReceive; txPurposeDVNVerify].
(** CASE WHEN purpose IN ($1, $2) THEN $4 ELSE $5 END *)
Definition role_of_purpose (purpose : string) : string :=
  if decide (purpose = txPurposeExecutorCommitVerification \/ purpose = txPurposeExecutorLzReceive)
  then workerRoleExecutor else workerRoleDVN.

(** role, src_eid, dst_eid, guid *)
Definition job_key : Type := string * Z * Z * bytes.

Record job_fee := mkJobFee { jf_key : job_key; jf_revenue : Z }.
Definition fees_of {J} (role : string) (fee : J -> option Z) (jobs : gmap bytes J) (db : DB) : list job_fee :=
  omap (fun x => p ← packets db !! x.1;
          Some (mkJobFee (role, p_src_eid p, p_dst_eid p, x.1) (default 0 (fee x.2)))) (map_to_list jobs).
Definition job_fees (db : DB) : list job_fee :=
  fees_of workerRoleExecutor e_assigned_fee (executor_jobs db) db ++ fees_of workerRoleDVN d_assigned_fee (dvn_jobs db) db.

(** The mined worker transactions with the job they belong to. *)
Definition worker_receipts (db : DB) : list (job_key * OutboxRow) :=
  omap (fun x => let o := x.2 in
          guid ← o_guid o; p ← packets db !! guid;
          if decide (o_purpose o ∈ worker_purposes /\ o_receipt_gas_cost_dst_wei o <> None)
          then Some ((role_of_purpose (o_purpose o), p_src_eid p, p_dst_eid p, guid), o) else None)
    (map_to_list (tx_outbox db)).

Definition priced_cost (rows : list (job_key * OutboxRow)) : Z :=
  sum (fun x => default 0 (o_receipt_gas_cost_src_wei x.2)) rows.
Definition unpriced (rows : list (job_key * OutboxRow)) : Z :=
  count (filter (fun x => o_receipt_gas_cost_src_wei x.2 = None) rows).

Record job_margin := mkMargin { jm_key : job_key; jm_revenue : Z; jm_cost : Z; jm_unpriced : Z }.
Definition job_margins (db : DB) : list job_margin :=
  let costs := group_by fst (worker_receipts db) in
  (fun jf => let rows := default [] (costs !! jf_key jf) in
     mkMargin (jf_key jf) (jf_revenue jf) (priced_cost rows) (unpriced rows)) <$> job_fees db.

Definition workerFeeStats (db : DB) : list WorkerFeeStat :=
  (fun g => mkFeeStat g.1.1.1 g.1.1.2 g.1.2 (sum jm_revenue g.2) (sum jm_cost g.2)
     (sum (fun j => jm_revenue j - jm_cost j) g.2) (count (filter (fun j => jm_revenue j < jm_cost j) g.2))
     (sum jm_unpriced g.2)) <$>
  groups (fun j => (jm_key j).1) (job_margins db).

Record UnpricedWorkerReceiptCost := mkUnpriced {
  uw_ID : Z; uw_Role : string; uw_SrcEID : Z; uw_DstEID : Z; uw_ChainEID : Z; uw_Purpose : string;
  uw_GUID : Hash; uw_GasCostDstWei : option Z }.

Definition unpriced_row (db : DB) (x : Z * OutboxRow) : option (bytes * UnpricedWorkerReceiptCost * timestamp) :=
  let o := x.2 in
  guid ← o_guid o; p ← packets db !! guid;
  if decide (o_purpose o ∈ worker_purposes /\ o_receipt_gas_cost_dst_wei o <> None /\ o_receipt_gas_cost_src_wei o = None)
  then Some (guid, mkUnpriced x.1 (role_of_purpose (o_purpose o)) (p_src_eid p) (p_dst_eid p) (o_chain_eid o) (o_purpose o)
               (BytesToHash guid) (o_receipt_gas_cost_dst_wei o), default 0 (o_receipt_observed_at o))
  else None.
(** ORDER BY tx.receipt_observed_at, tx.id *)
Definition observed_le (x y : bytes * UnpricedWorkerReceiptCost * timestamp) : Prop :=
  x.2 < y.2 \/ x.2 = y.2 /\ uw_ID x.1.2 <= uw_ID y.1.2.
#[export] Instance observed_le_dec : RelDecision observed_le.
Proof. intros x y. unfold observed_le. apply _. Defined.

Definition ListUnpricedWorkerReceiptCosts (limit : Z) (db : DB) : result dberr (list UnpricedWorkerReceiptCost) :=
  check 0 < limit or Errorf "unpriced receipt cost limit must be positive" ;;
  let rows := take (Z.to_nat limit) (merge_sort observed_le (omap (unpriced_row db) (map_to_list (tx_outbox db)))) in
  check Forall (fun x => length x.1.1 = HashLength) rows or Errorf "unpriced receipt guid has a wrong length" ;;
  Ok ((fun x => x.1.2) <$> rows).

(** ** Draining a pathway *)

Record StatusCount (S : Type) := mkStatusCount { sc_Status : S; sc_Count : Z }.
Arguments mkStatusCount {S} _ _.
Arguments sc_Status {S} _.
Arguments sc_Count {S} _.

Record DrainStatus := mkDrainStatus {
  dr_SrcEID : Z; dr_DstEID : Z; dr_Ready : bool; dr_PacketsTotal : Z;
  dr_ExecutorPending : list (StatusCount string); dr_DVNPending : list (StatusCount string);
  dr_OutboxPending : list (StatusCount TxStatus); dr_VerifiedButUndeliveredCount : Z }.

Definition on_pathway (db : DB) (srcEID dstEID : Z) (guid : bytes) : Prop :=
  match packets db !! guid with Some p => p_src_eid p = srcEID /\ p_dst_eid p = dstEID | None => False end.
#[export] Instance on_pathway_dec db s d g : Decision (on_pathway db s d g).
Proof. unfold on_pathway. case_match; apply _. Defined.

Definition row_on_pathway (db : DB) (srcEID dstEID : Z) (o : OutboxRow) : Prop :=
  match o_guid o with Some guid => on_pathway db srcEID dstEID guid | None => False end.
#[export] Instance row_on_pathway_dec db s d o : Decision (row_on_pathway db s d o).
Proof. unfold row_on_pathway. case_match; apply _. Defined.

Definition statusCounts {S} `{Countable S} (statuses : list S) : list (StatusCount S) :=
  (fun g => mkStatusCount g.1 (count g.2)) <$> groups (fun s => s) statuses.

Definition executor_statuses (db : DB) (srcEID dstEID : Z) : list string :=
  (fun x => e_status x.2) <$> filter (fun x => on_pathway db srcEID dstEID x.1) (map_to_list (executor_jobs db)).
Definition dvn_statuses (db : DB) (srcEID dstEID : Z) : list string :=
  (fun x => d_status x.2) <$> filter (fun x => on_pathway db srcEID dstEID x.1) (map_to_list (dvn_jobs db)).
Definition outbox_statuses (db : DB) (srcEID dstEID : Z) : list TxStatus :=
  (fun x => o_status x.2) <$> select_outbox db (fun x => row_on_pathway db srcEID dstEID x.2).

Definition undelivered_statuses : list string :=
  [ExecutorCommitted; ExecutorExecutable; ExecutorLzReceiveTxEnqueued; ExecutorLzReceiveFailed].

Definition CheckDrainStatus (srcEID dstEID : Z) (db : DB) : result dberr DrainStatus :=
  check ~ (srcEID = 0 \/ dstEID = 0) or Errorf "source and destination eids are required" ;;
  check srcEID <> dstEID or Errorf "source and destination eids must differ" ;;
  let executorPending := statusCounts (filter (fun s => s <> ExecutorDelivered) (executor_statuses db srcEID dstEID)) in
  let dvnPending := statusCounts (filter (fun s => s ∉ [DVNWouldVerify; DVNVerified]) (dvn_statuses db srcEID dstEID)) in
  let outboxPending := statusCounts (filter (fun s => s <> TxStatusConfirmed) (outbox_statuses db srcEID dstEID)) in
  Ok (mkDrainStatus srcEID dstEID (bool_decide (executorPending = [] /\ dvnPending = [] /\ outboxPending = []))
        (count (filter (fun x => p_src_eid x.2 = srcEID /\ p_dst_eid x.2 = dstEID) (map_to_list (packets db))))
        executorPending dvnPending outboxPending
        (count (filter (fun s => s ∈ undelivered_statuses) (executor_statuses db srcEID dstEID)))).

(** ** The snapshot *)

Record StatsSnapshot := mkSnapshot {
  sn_Chains : list ChainStat; sn_Pathways : list PathwayStat; sn_Packets : list PacketStat;
  sn_ExecutorJobs : list StatusStat; sn_DVNJobs : list StatusStat; sn_TxOutbox : list TxOutboxStat;
  sn_TxOutboxHeld : list TxOutboxHeldStat; sn_TxOutboxOrphaned : list TxOutboxOrphanedStat;
  sn_TxReceiptGasCosts : list TxReceiptGasCostStat; sn_WorkerFees : list WorkerFeeStat;
  sn_IndexerCursors : list IndexerCursorStat; sn_PricingPending : list PricingPendingStat }.

(** Stats when its queries all answer from the same tables. *)
Definition Stats (col : columns) (now : timestamp) (db : DB) : StatsSnapshot :=
  mkSnapshot (chainStats col db) (pathwayStats db) (packetStats db)
    (statusStats (statuses_in_scope e_status (executor_jobs db) db))
    (statusStats (statuses_in_scope d_status (dvn_jobs db) db)) (txOutboxStats db)
    (txOutboxHeldStats col now db) (txOutboxOrphanedStats now db) (txReceiptGasCostStats db)
    (workerFeeStats db) (indexerCursorStats db) (pricingPendingStats col now db).
