(* ===== verification/StatsProofs.v ===== *)
(** * The operational queries

    Grouping, and what the drain check, the fee statistics and the query of orphaned rows
    report of the tables. *)

From S2P Require Import Prelude BigUtil Schema SendScope Outbox Attempts Jobs StoreInv Store Stats.
From stdpp Require Import base gmap list strings numbers sorting.
From Stdlib Require Import ZArith Lia.
#[local] Open Scope Z_scope.

(** ** Groups *)

Lemma group_by_lookup {A K} `{Countable K} (key : A -> K) rows k :
  default [] (group_by key rows !! k) = filter (fun x => key x = k) rows /\
  (group_by key rows !! k = None <-> filter (fun x => key x = k) rows = []).
Proof.
  induction rows as [|x rows [IH1 IH2]]; [done|]. cbn [group_by foldr]. fold (group_by key rows).
  rewrite filter_cons. destruct (decide (key x = k)) as [<-|Hk].
  - rewrite lookup_insert_eq. cbn. split; [by rewrite <- IH1|done].
  - rewrite lookup_insert_ne by done. done.
Qed.

Lemma elem_of_groups {A K} `{Countable K} (key : A -> K) rows k g :
  (k, g) ∈ groups key rows <-> g = filter (fun x => key x = k) rows /\ g <> [].
Proof.
  unfold groups. rewrite elem_of_map_to_list. destruct (group_by_lookup key rows k) as [H1 H2]. split.
  - intros E. rewrite E in H1, H2. cbn in H1. split; [done|]. intros ->. by rewrite <- H1 in H2; destruct H2 as [_ H2]; specialize (H2 eq_refl).
  - intros [-> Hne]. destruct (group_by key rows !! k) as [g|]; [by rewrite <- H1|]. by destruct Hne; apply H2.
Qed.

(** A property of some row of some group is one of some row. *)
Lemma exists_group {A K} `{Countable K} (key : A -> K) rows (P : K -> A -> Prop) :
  (exists k g, (k, g) ∈ groups key rows /\ exists x, x ∈ g /\ P k x) <-> exists x, x ∈ rows /\ P (key x) x.
Proof.
  split.
  - intros (k & g & [-> _]%elem_of_groups & x & [<- Hx]%list_elem_of_filter & HP). eauto.
  - intros (x & Hx & HP). exists (key x), (filter (fun y => key y = key x) rows). split.
    + apply elem_of_groups. split; [done|]. intros E. assert (x ∈ filter (fun y => key y = key x) rows) as Hin
        by (by apply list_elem_of_filter). rewrite E in Hin. by apply elem_of_nil in Hin.
    + exists x. split; [by apply list_elem_of_filter|done].
Qed.

Lemma group_count {A K} `{Countable K} (key : A -> K) rows k g : (k, g) ∈ groups key rows -> count g <> 0.
Proof. intros [_ Hne]%elem_of_groups. unfold count. destruct g; cbn; [done|lia]. Qed.

Lemma group_some {A K} `{Countable K} (key : A -> K) rows k g : (k, g) ∈ groups key rows -> exists x, x ∈ g.
Proof. intros [_ Hne]%elem_of_groups. destruct g as [|x g]; [done|]. exists x. by left. Qed.

(** A statistic whose condition is on its key holds for a group exactly when a row has it. *)
Lemma exists_key {A K} `{Countable K} (key : A -> K) rows (P : K -> Prop) :
  (exists k g, (k, g) ∈ groups key rows /\ P k) <-> exists x, x ∈ rows /\ P (key x).
Proof.
  rewrite <- (exists_group key rows (fun k _ => P k)). split.
  - intros (k & g & Hg & HP). destruct (group_some _ _ _ _ Hg) as [x Hx]. eauto 10.
  - intros (k & g & Hg & x & _ & HP). eauto.
Qed.

Lemma oldest_age {A} (t : A -> timestamp) now g limit : 0 <= limit ->
  limit < age_seconds now (oldest t g) <-> exists x, x ∈ g /\ limit < (now - t x) / 1000000.
Proof.
  intros Hl. induction g as [|x g IH]; cbn [oldest foldr age_seconds].
  - split; [lia|]. intros (x & Hx%elem_of_nil & _). done.
  - fold (oldest t g). setoid_rewrite elem_of_cons.
    assert ((exists y, (y = x \/ y ∈ g) /\ limit < (now - t y) / 1000000) <->
      limit < (now - t x) / 1000000 \/ exists y, y ∈ g /\ limit < (now - t y) / 1000000) as -> by naive_solver.
    rewrite <- IH. destruct (oldest t g) as [m|]; cbn; [|lia].
    destruct (Z.le_ge_cases (t x) m) as [Hle|Hge].
    + rewrite Z.min_l by done. pose proof (Z.div_le_mono (now - m) (now - t x) 1000000). lia.
    + rewrite Z.min_r by lia. pose proof (Z.div_le_mono (now - t x) (now - m) 1000000). lia.
Qed.

Lemma omap_nil {A B} (f : A -> option B) l : omap f l = [] <-> forall x, x ∈ l -> f x = None.
Proof.
  induction l as [|x l IH]; cbn.
  - split; [intros _ x Hx%elem_of_nil; done|done].
  - split.
    + intros E y [->|Hy]%elem_of_cons; destruct (f x); try done. by apply IH.
    + intros Hf. rewrite (Hf x) by (by left). apply IH. intros y Hy. apply Hf. by right.
Qed.

(** No issue among the ones a condition raises. *)
Lemma omap_if_nil {A B} (P : A -> Prop) `{forall x, Decision (P x)} (f : A -> B) l :
  omap (fun x => if decide (P x) then Some (f x) else None) l = [] <-> ~ exists x, x ∈ l /\ P x.
Proof.
  rewrite omap_nil. split.
  - intros Hn (x & Hx & HP). specialize (Hn x Hx). by rewrite decide_True in Hn.
  - intros Hn x Hx. rewrite decide_False; [done|]. intros HP. eauto.
Qed.

(** ** Sums over groups *)

#[export] Instance sum_proper {A} (f : A -> Z) : Proper ((≡ₚ) ==> (=)) (sum f).
Proof. intros l l' H. induction H; unfold sum in *; cbn; lia. Qed.

Lemma sum_cons {A} (f : A -> Z) x l : sum f (x :: l) = f x + sum f l.
Proof. done. Qed.

Lemma sum_fmap {A B} (f : B -> Z) (g : A -> B) l : sum f (g <$> l) = sum (fun x => f (g x)) l.
Proof. induction l as [|x l IH]; cbn; [done|]. f_equal. done. Qed.

Lemma sum_ext {A} (f g : A -> Z) l : (forall x, x ∈ l -> f x = g x) -> sum f l = sum g l.
Proof.
  induction l as [|x l IH]; intros E; cbn; [done|]. rewrite (E x) by (by left). f_equal. apply IH. intros y Hy. apply E. by right.
Qed.

Lemma sum_minus {A} (f g : A -> Z) l : sum (fun x => f x - g x) l = sum f l - sum g l.
Proof. induction l as [|x l IH]; unfold sum in *; cbn in *; lia. Qed.

Lemma sum_plus {A} (f g : A -> Z) l : sum (fun x => f x + g x) l = sum f l + sum g l.
Proof. induction l as [|x l IH]; unfold sum in *; cbn in *; lia. Qed.

Lemma sum_filter {A} (f : A -> Z) (P : A -> Prop) `{forall x, Decision (P x)} l :
  sum f (filter P l) = sum (fun x => if decide (P x) then f x else 0) l.
Proof. induction l as [|x l IH]; [done|]. rewrite filter_cons. unfold sum in *. cbn. case_decide; cbn in *; lia. Qed.

(** Grouping neither drops nor repeats a row. *)
Lemma sum_groups {A K} `{Countable K} (key : A -> K) (f : A -> Z) rows :
  sum (fun g => sum f g.2) (groups key rows) = sum f rows.
Proof.
  unfold groups. induction rows as [|x rows IH]; [done|]. cbn [group_by foldr sum]. fold (group_by key rows). fold (sum f rows).
  rewrite <- IH. clear IH. set (m := group_by key rows). destruct (m !! key x) as [g|] eqn:E; cbn [default].
  - rewrite <- insert_delete_eq, map_to_list_insert by apply lookup_delete_eq.
    rewrite <- (map_to_list_delete m (key x) g) by done. cbn. unfold sum. lia.
  - rewrite map_to_list_insert by done. cbn. unfold sum. lia.
Qed.

(** ** Rows that lost their attempt *)

(** the query of orphaned rows is empty on every reachable database: signing and cancelling write the status and the active
    attempt together, so only an operation outside the model (a migration) can produce what readiness pages for. *)
Theorem no_orphaned_rows now db : reachable db -> txOutboxOrphanedStats now db = [].
Proof.
  intros Hr. unfold txOutboxOrphanedStats. destruct (select_outbox db (fun x => orphaned db x.2)) as [|[id o] rows] eqn:E; [done|].
  assert ((id, o) ∈ select_outbox db (fun x => orphaned db x.2)) as [Ho (Hs & Ha & _)]%elem_of_select_outbox
    by (rewrite E; by left).
  by destruct (row_active _ _ _ _ (inv_rows db (reachable_inv db Hr) id o Ho) Hs).
Qed.

Lemma no_orphaned_rows_witness : txOutboxOrphanedStats 100 db2 = [] /\ o_status (row_of db2 2) = TxStatusSigned.
Proof. split; [apply (no_orphaned_rows 100 db2 db2_reachable)|vm_compute; reflexivity]. Defined.

(** ** Draining *)

Lemma statusCounts_nil {S} `{Countable S} (l : list S) : statusCounts l = [] <-> l = [].
Proof.
  unfold statusCounts. split; [|by intros ->]. intros E%fmap_nil_inv. destruct l as [|s l]; [done|].
  destruct (proj2 (exists_key (fun s : S => s) (s :: l) (fun _ => True))) as (k & g & Hg & _); [exists s; split; [by left|done]|].
  rewrite E in Hg. by apply elem_of_nil in Hg.
Qed.

Lemma filter_nil_iff {A} (P : A -> Prop) `{forall x, Decision (P x)} l : filter P l = [] <-> forall x, x ∈ l -> ~ P x.
Proof.
  split.
  - intros E x Hx HP. assert (x ∈ filter P l) as Hin by (by apply list_elem_of_filter). rewrite E in Hin. by apply elem_of_nil in Hin.
  - intros Hn. destruct (filter P l) as [|x r] eqn:E; [done|]. assert (x ∈ filter P l) as [HP Hx]%list_elem_of_filter by (rewrite E; by left).
    by destruct (Hn x Hx).
Qed.

(** The packet of a guid was sent from one chain to the other. *)
Definition between (db : DB) (srcEID dstEID : Z) (guid : bytes) : Prop :=
  exists p, packets db !! guid = Some p /\ p_src_eid p = srcEID /\ p_dst_eid p = dstEID.
Lemma on_pathway_between db srcEID dstEID guid : on_pathway db srcEID dstEID guid <-> between db srcEID dstEID guid.
Proof.
  unfold on_pathway, between. destruct (packets db !! guid) as [p|]; [|by split; [|intros (p & [=] & _)]].
  split; [by exists p|]. by intros (q & [= <-] & Hq).
Qed.
#[export] Instance between_dec db srcEID dstEID guid : Decision (between db srcEID dstEID guid).
Proof. refine (cast_if (decide (on_pathway db srcEID dstEID guid))); by rewrite <- on_pathway_between. Defined.

Section drain.
Context (db : DB) (srcEID dstEID : Z).

(** No worker has anything left to do for the packets of the pathway. *)
Record drained : Prop := {
  dn_executor : forall guid e, between db srcEID dstEID guid -> executor_jobs db !! guid = Some e -> e_status e = ExecutorDelivered;
  dn_dvn : forall guid d, between db srcEID dstEID guid -> dvn_jobs db !! guid = Some d ->
    d_status d = DVNWouldVerify \/ d_status d = DVNVerified;
  dn_outbox : forall id o guid, tx_outbox db !! id = Some o -> o_guid o = Some guid -> between db srcEID dstEID guid ->
    o_status o = TxStatusConfirmed }.

Lemma elem_of_executor_statuses s : s ∈ executor_statuses db srcEID dstEID <->
  exists guid e, between db srcEID dstEID guid /\ executor_jobs db !! guid = Some e /\ e_status e = s.
Proof.
  unfold executor_statuses. rewrite list_elem_of_fmap. setoid_rewrite list_elem_of_filter.
  setoid_rewrite on_pathway_between. split.
  - intros ([guid e] & -> & Hp & He%elem_of_map_to_list). eauto.
  - intros (guid & e & Hp & He & <-). exists (guid, e). rewrite elem_of_map_to_list. done.
Qed.

Lemma elem_of_dvn_statuses s : s ∈ dvn_statuses db srcEID dstEID <->
  exists guid d, between db srcEID dstEID guid /\ dvn_jobs db !! guid = Some d /\ d_status d = s.
Proof.
  unfold dvn_statuses. rewrite list_elem_of_fmap. setoid_rewrite list_elem_of_filter.
  setoid_rewrite on_pathway_between. split.
  - intros ([guid e] & -> & Hp & He%elem_of_map_to_list). eauto.
  - intros (guid & e & Hp & He & <-). exists (guid, e). rewrite elem_of_map_to_list. done.
Qed.

Lemma elem_of_outbox_statuses s : s ∈ outbox_statuses db srcEID dstEID <->
  exists id o guid, tx_outbox db !! id = Some o /\ o_guid o = Some guid /\ between db srcEID dstEID guid /\ o_status o = s.
Proof.
  unfold outbox_statuses. rewrite list_elem_of_fmap. split.
  - intros ([id o] & -> & [Ho Hp]%elem_of_select_outbox). unfold row_on_pathway in Hp. cbn in Hp.
    destruct (o_guid o) as [guid|] eqn:Hg; [|done]. apply on_pathway_between in Hp. eauto 10.
  - intros (id & o & guid & Ho & Hg & Hp%on_pathway_between & <-). exists (id, o). split; [done|].
    apply elem_of_select_outbox. split; [done|]. unfold row_on_pathway. cbn. by rewrite Hg.
Qed.

Lemma drained_iff :
  filter (fun s => s <> ExecutorDelivered) (executor_statuses db srcEID dstEID) = [] /\
  filter (fun s => s ∉ [DVNWouldVerify; DVNVerified]) (dvn_statuses db srcEID dstEID) = [] /\
  filter (fun s => s <> TxStatusConfirmed) (outbox_statuses db srcEID dstEID) = [] <-> drained.
Proof.
  rewrite !filter_nil_iff. setoid_rewrite elem_of_executor_statuses. setoid_rewrite elem_of_dvn_statuses.
  setoid_rewrite elem_of_outbox_statuses. split.
  - intros (He & Hd & Ho). split.
    + intros guid e Hp Hj. apply dec_stable, He. eauto.
    + intros guid d Hp Hj. assert (d_status d ∈ [DVNWouldVerify; DVNVerified]) as Hin by (apply dec_stable, Hd; eauto). set_solver.
    + intros id o guid Hj Hg Hp. apply dec_stable, Ho. eauto 10.
  - intros [He Hd Ho]. split_and!.
    + intros s (guid & e & Hp & Hj & <-) Hn. by apply Hn, (He guid e).
    + intros s (guid & d & Hp & Hj & <-) Hn. destruct (Hd guid d Hp Hj) as [E|E]; rewrite E in Hn; set_solver.
    + intros s (id & o & guid & Hj & Hg & Hp & <-) Hn. by apply Hn, (Ho id o guid).
Qed.

Lemma CheckDrainStatus_inv st : CheckDrainStatus srcEID dstEID db = Ok st ->
  (dr_Ready st = true <-> drained) /\
  dr_VerifiedButUndeliveredCount st = count (filter (fun s => s ∈ undelivered_statuses) (executor_statuses db srcEID dstEID)).
Proof.
  unfold CheckDrainStatus. intros E. do 2 (case_decide; [|done]). injection E as <-.
  cbn [dr_Ready dr_VerifiedButUndeliveredCount]. split; [|done].
  rewrite bool_decide_eq_true, !statusCounts_nil. apply drained_iff.
Qed.

(** C38: the drain check answers for every two distinct endpoints, and "ready" exactly when every executor job of the packets
    between them is delivered, every DVN job is verified or marked WOULD_VERIFY (the last state of shadow mode), and every transaction sent for
    them is confirmed; then no packet is left verified and undelivered. *)
Theorem CheckDrainStatus_spec : 0 < srcEID -> 0 < dstEID -> srcEID <> dstEID ->
  exists st, CheckDrainStatus srcEID dstEID db = Ok st /\ (dr_Ready st = true <-> drained) /\
             (dr_Ready st = true -> dr_VerifiedButUndeliveredCount st = 0).
Proof.
  intros Hs Hd Hne. destruct (CheckDrainStatus srcEID dstEID db) as [st|] eqn:E.
  - exists st. split; [done|]. destruct (CheckDrainStatus_inv st E) as [Hr ->]. split; [done|]. intros [He _ _]%Hr.
    rewrite (proj2 (filter_nil_iff _ _)); [done|]. intros s (guid & e & Hp & Hj & <-)%elem_of_executor_statuses Hin.
    rewrite (He guid e Hp Hj) in Hin. vm_compute in Hin. set_solver.
  - exfalso. unfold CheckDrainStatus in E. by rewrite !decide_True in E by lia.
Qed.
End drain.

Lemma CheckDrainStatus_spec_witness : exists st, CheckDrainStatus 8 7 db3 = Ok st /\ (dr_Ready st = true <-> drained db3 8 7) /\
  (dr_Ready st = true -> dr_VerifiedButUndeliveredCount st = 0).
Proof. apply (CheckDrainStatus_spec db3 8 7); lia. Defined.

(** C39: a transaction that was retried keeps its pathway from draining for ever: the failed parent of a retry child stays failed,
    and the drain check counts it whatever became of the child and of the job. *)
Theorem retried_pathway_never_drains db db' srcEID dstEID p po i o guid st :
  reachable db -> rtc step db db' -> tx_outbox db !! p = Some po -> o_guid po = Some guid ->
  tx_outbox db !! i = Some o -> o_retry_of_id o = Some p ->
  on_pathway db' srcEID dstEID guid -> CheckDrainStatus srcEID dstEID db' = Ok st -> dr_Ready st = false.
Proof.
  intros Hr Hs Hp Hg Ho Hc Hon E. destruct (steps_inv db db' (reachable_inv db Hr) Hs) as [Hi Hev].
  destruct (ev_rows _ _ Hev _ _ Hp) as (po' & Hp' & Ep). destruct (ev_rows _ _ Hev _ _ Ho) as (o' & Ho' & Eo).
  destruct (inv_child db' Hi i o' p Ho') as (q & Hq & Hfail & _); [by rewrite (re_retry _ _ Eo)|]. simplify_eq.
  apply not_true_is_false. intros [_ _ Hconf]%(CheckDrainStatus_inv _ _ _ _ E).
  assert (o_status po' = TxStatusConfirmed) as Hc'; [|congruence].
  apply (Hconf p po' guid); [done|by rewrite (re_guid _ _ Ep)|by apply on_pathway_between].
Qed.

Lemma retried_pathway_never_drains_witness : exists st, CheckDrainStatus 8 7 db3 = Ok st /\ dr_Ready st = false.
Proof.
  destruct (CheckDrainStatus 8 7 db3) as [st|] eqn:E; [|by vm_compute in E]. exists st. split; [reflexivity|].
  apply (retried_pathway_never_drains db3 db3 8 7 1 (row_of db3 1) 2 (row_of db3 2) (HashBytes 5) st db3_reachable);
    [reflexivity|vm_compute; reflexivity..| |exact E]. vm_compute. split; reflexivity.
Defined.

(** ** Fees *)

Lemma sum_zero {A} (f : A -> Z) l : (forall x, x ∈ l -> f x = 0) -> sum f l = 0.
Proof. intros E. rewrite (sum_ext f (fun _ => 0)) by done. clear E. induction l; unfold sum in *; cbn in *; lia. Qed.

(** A key of a duplicate-free list picks its value once. *)
Lemma sum_pick {K} `{EqDecision K} (k : K) v ks : NoDup ks ->
  sum (fun k' => if decide (k = k') then v else 0) ks = if decide (k ∈ ks) then v else 0.
Proof.
  induction ks as [|k' ks IH]; intros Hnd; [done|]. apply NoDup_cons in Hnd as [Hn Hnd]. cbn.
  fold (sum (fun k' => if decide (k = k') then v else 0) ks).
  destruct (decide (k = k')) as [<-|Hne].
  - rewrite (decide_True (P := k ∈ k :: ks)) by (by left). rewrite sum_zero; [lia|]. intros x Hx. rewrite decide_False; [done|].
    by intros <-.
  - rewrite IH by done. destruct (decide (k ∈ ks)) as [Hk|Hk]; [rewrite decide_True by (by right)|rewrite decide_False by set_solver]; lia.
Qed.

(** Joining rows to the keys they name counts each row with a key once. *)
Lemma sum_join {A K} `{Countable K} (key : A -> K) (f : A -> Z) rows ks : NoDup ks ->
  sum (fun k => sum f (filter (fun x => key x = k) rows)) ks = sum f (filter (fun x => key x ∈ ks) rows).
Proof.
  intros Hnd. rewrite sum_filter. induction rows as [|x rows IH].
  - by apply sum_zero.
  - rewrite (sum_cons _ x rows), <- IH, <- (sum_pick (key x) (f x)) by done.
    rewrite <- sum_plus. apply sum_ext. intros k _. rewrite filter_cons. by case_decide.
Qed.

Lemma job_fee_keys db : NoDup (jf_key <$> job_fees db).
Proof.
  assert (forall J role fee (jobs : gmap bytes J), NoDup (jf_key <$> fees_of role fee jobs db)) as Hnd.
  { intros J role fee jobs. apply (NoDup_fmap_1 snd). rewrite <- list_fmap_compose. unfold fees_of.
    pose proof (NoDup_fst_map_to_list jobs) as Hk. induction (map_to_list jobs) as [|[guid j] l IH]; [constructor|].
    cbn in Hk. apply NoDup_cons in Hk as [Hnew Hk]. cbn. destruct (packets db !! guid); [|by apply IH]. cbn.
    constructor; [|by apply IH]. rewrite list_elem_of_fmap. intros (x & -> & ([g' j'] & Hin & E)%list_elem_of_omap). cbn in *.
    destruct (packets db !! g'); [|done]. injection E as <-. cbn in *. apply Hnew, list_elem_of_fmap. by exists (g', j'). }
  unfold job_fees. rewrite fmap_app. apply NoDup_app. split_and!; [apply Hnd| |apply Hnd].
  assert (forall J role fee (jobs : gmap bytes J) k, k ∈ (jf_key <$> fees_of role fee jobs db) -> k.1.1.1 = role) as Hrole.
  { intros J role fee jobs k (x & -> & ([g j] & _ & E)%list_elem_of_omap)%list_elem_of_fmap. cbn in E.
    by destruct (packets db !! g); [injection E as <-|]. }
  intros k H1%Hrole H2%Hrole. by rewrite H1 in H2.
Qed.

(** *** What the tables hold for a role *)

(** The fees of the jobs of a role, by packet. *)
Definition executor_fees (db : DB) : gmap bytes Z := (fun e => default 0 (e_assigned_fee e)) <$> executor_jobs db.
Definition dvn_fees (db : DB) : gmap bytes Z := (fun d => default 0 (d_assigned_fee d)) <$> dvn_jobs db.

Section role.
Context (db : DB) (fees : gmap bytes Z) (purposes : list string).

(** A mined transaction of the role for a packet. *)
Definition mined_for (guid : bytes) (o : OutboxRow) : Prop :=
  o_guid o = Some guid /\ o_purpose o ∈ purposes /\ o_receipt_gas_cost_dst_wei o <> None.
#[export] Instance mined_for_dec guid o : Decision (mined_for guid o).
Proof. unfold mined_for. apply _. Defined.
(** One for a job of the role between two chains. *)
Definition mined_between (srcEID dstEID : Z) (o : OutboxRow) : Prop :=
  exists guid, mined_for guid o /\ between db srcEID dstEID guid /\ is_Some (fees !! guid).
#[export] Instance mined_between_dec srcEID dstEID o : Decision (mined_between srcEID dstEID o).
Proof.
  destruct (o_guid o) as [guid|] eqn:Hg.
  - refine (cast_if (decide (mined_for guid o /\ between db srcEID dstEID guid /\ is_Some (fees !! guid)))).
    + by exists guid.
    + intros (g & Hm & Hb). destruct Hm as [E Hm]. rewrite Hg in E. injection E as <-. by destruct n.
  - right. intros (g & [E _] & _). congruence.
Defined.

(** The jobs between two chains, and the priced cost of their mined transactions in source wei. *)
Definition jobs_between (srcEID dstEID : Z) : list (bytes * Z) := filter (fun x => between db srcEID dstEID x.1) (map_to_list fees).
Definition cost_of (o : OutboxRow) : Z := default 0 (o_receipt_gas_cost_src_wei o).
Definition job_cost (guid : bytes) : Z :=
  sum (fun x => cost_of x.2) (filter (fun x => mined_for guid x.2) (map_to_list (tx_outbox db))).
Definition txs_between (srcEID dstEID : Z) : list (Z * OutboxRow) :=
  filter (fun x => mined_between srcEID dstEID x.2) (map_to_list (tx_outbox db)).

(** A statistic that is what the tables hold. *)
Record holds_for (st : WorkerFeeStat) : Prop := {
  ex_revenue : fs_RevenueSrcWei st = sum snd (jobs_between (fs_SrcEID st) (fs_DstEID st));
  ex_cost : fs_ActualGasCostSrcWei st = sum (fun x => cost_of x.2) (txs_between (fs_SrcEID st) (fs_DstEID st));
  ex_margin : fs_GrossMarginSrcWei st = fs_RevenueSrcWei st - fs_ActualGasCostSrcWei st;
  ex_negative : fs_NegativeMarginJobs st =
    count (filter (fun x => x.2 < job_cost x.1) (jobs_between (fs_SrcEID st) (fs_DstEID st)));
  ex_unpriced : fs_UnpricedReceipts st =
    count (filter (fun x => o_receipt_gas_cost_src_wei x.2 = None) (txs_between (fs_SrcEID st) (fs_DstEID st))) }.
End role.

Lemma count_sum {A} (P : A -> Prop) `{forall x, Decision (P x)} l :
  count (filter P l) = sum (fun x => if decide (P x) then 1 else 0) l.
Proof.
  induction l as [|x l IH]; [done|]. rewrite filter_cons. unfold count, sum in *. cbn. case_decide; cbn [length]; lia.
Qed.
Lemma sum_app {A} (f : A -> Z) l1 l2 : sum f (l1 ++ l2) = sum f l1 + sum f l2.
Proof. induction l1 as [|x l1 IH]; unfold sum in *; cbn in *; lia. Qed.
Lemma sum_omap {A B} (g : A -> option B) (f : B -> Z) l :
  sum f (omap g l) = sum (fun x => match g x with Some y => f y | None => 0 end) l.
Proof. induction l as [|x l IH]; [done|]. cbn. unfold sum in *. destruct (g x); cbn; lia. Qed.

(** The query's job fees of a role are the jobs between the chains of its key. *)
Lemma sum_fees {J} (role role' : string) (fee : J -> option Z) (jobs : gmap bytes J) (db : DB) (s d : Z) (f : job_fee -> Z) :
  sum f (filter (fun jf => (jf_key jf).1 = (role', s, d)) (fees_of role fee jobs db)) =
  if decide (role = role')
  then sum (fun x => f (mkJobFee (role, s, d, x.1) x.2)) (jobs_between db ((fun j => default 0 (fee j)) <$> jobs) s d) else 0.
Proof.
  rewrite sum_filter. unfold fees_of, jobs_between. rewrite sum_omap, map_to_list_fmap, sum_filter, sum_fmap.
  case_decide as Hr; [subst role'; apply sum_ext|apply sum_zero]; intros [guid j] _; cbn;
    destruct (packets db !! guid) as [p|] eqn:Hp; cbn; try done.
  - destruct (decide (between db s d guid)) as [(q & Hq & <- & <-)|Hn].
    + rewrite Hp in Hq. injection Hq as <-. by rewrite decide_True.
    + rewrite decide_False; [done|]. intros [= <- <-]. destruct Hn. by exists p.
  - rewrite decide_False; [done|]. intros (q & Hq & _). congruence.
  - rewrite decide_False; [done|]. congruence.
Qed.

(** Its receipts, summed over chosen job keys, are the mined transactions of those jobs. *)
Lemma sum_receipts (db : DB) (ks : job_key -> Prop) `{forall k, Decision (ks k)} (Q : OutboxRow -> Prop) `{forall o, Decision (Q o)} (f : OutboxRow -> Z) :
  (forall o, Q o <-> exists guid p, o_guid o = Some guid /\ packets db !! guid = Some p /\ o_purpose o ∈ worker_purposes /\
     o_receipt_gas_cost_dst_wei o <> None /\ ks (role_of_purpose (o_purpose o), p_src_eid p, p_dst_eid p, guid)) ->
  sum (fun x => f x.2) (filter (fun x => ks x.1) (worker_receipts db)) =
  sum (fun x => f x.2) (filter (fun x => Q x.2) (map_to_list (tx_outbox db))).
Proof.
  intros HQ. rewrite !sum_filter. unfold worker_receipts. rewrite sum_omap. apply sum_ext. intros [id o] _. cbn.
  destruct (o_guid o) as [guid|] eqn:Hg; cbn.
  2:{ rewrite decide_False; [done|]. rewrite HQ. intros (g & p & [=] & _). congruence. }
  destruct (packets db !! guid) as [p|] eqn:Hp; cbn.
  2:{ rewrite decide_False; [done|]. rewrite HQ. intros (g & p & E & Ep & _). congruence. }
  case_decide as Hm; cbn.
  2:{ rewrite decide_False; [done|]. rewrite HQ. intros (g & q & E & Ep & Hw & Hd & _). tauto. }
  apply decide_ext. rewrite HQ. split; [intros Hk; exists guid, p; split_and!; (done || apply Hm)|].
  intros (g & q & E & Ep & _ & _ & Hk). rewrite Hg in E. injection E as <-. rewrite Hp in Ep. by injection Ep as <-.
Qed.

(** The two roles: their name, their jobs' fees and the purposes of their transactions. *)
Definition is_role (db : DB) (role : string) (fees : gmap bytes Z) (purposes : list string) : Prop :=
  (role = "executor"%string /\ fees = executor_fees db /\ purposes = [txPurposeExecutorCommitVerification; txPurposeExecutorLzReceive]) \/
  (role = "dvn"%string /\ fees = dvn_fees db /\ purposes = [txPurposeDVNVerify]).

Section fee_stats.
Context (db : DB) (role : string) (fees : gmap bytes Z) (purposes : list string) (Hrole : is_role db role fees purposes) (s d : Z).

Lemma sum_role (f : job_fee -> Z) :
  sum f (filter (fun jf => (jf_key jf).1 = (role, s, d)) (job_fees db)) =
  sum (fun x => f (mkJobFee (role, s, d, x.1) x.2)) (jobs_between db fees s d).
Proof.
  unfold job_fees. rewrite filter_app, sum_app, !sum_fees.
  destruct Hrole as [(-> & -> & _)|(-> & -> & _)].
  - rewrite decide_True, decide_False by done. unfold executor_fees, workerRoleExecutor. lia.
  - rewrite decide_False, decide_True by done. unfold dvn_fees, workerRoleDVN. lia.
Qed.

Lemma role_purposes o : o_purpose o ∈ purposes <-> o_purpose o ∈ worker_purposes /\ role_of_purpose (o_purpose o) = role.
Proof.
  unfold worker_purposes, role_of_purpose. destruct Hrole as [(-> & _ & ->)|(-> & _ & ->)]; rewrite !elem_of_cons; case_decide as Hp;
    pose proof (not_elem_of_nil (o_purpose o)).
  - tauto.
  - split; [tauto|]. by intros [_ ?].
  - split; [|by intros [_ ?]]. intros [E|]; [|done]. rewrite E in Hp. destruct Hp; done.
  - tauto.
Qed.

Lemma elem_of_jobs_between guid : guid ∈ (jobs_between db fees s d).*1 <-> between db s d guid /\ is_Some (fees !! guid).
Proof.
  unfold jobs_between. rewrite list_elem_of_fmap. setoid_rewrite list_elem_of_filter. split.
  - intros ([g v] & -> & Hb & Hv%elem_of_map_to_list). cbn in *. split; [done|]. by exists v.
  - intros [Hb [v Hv]]. exists (guid, v). by rewrite elem_of_map_to_list.
Qed.

(** The rows of one job, and of all of them. *)
Lemma job_receipts guid (f : OutboxRow -> Z) : between db s d guid ->
  sum (fun x => f x.2) (filter (fun x => x.1 = (role, s, d, guid)) (worker_receipts db)) =
  sum (fun x => f x.2) (filter (fun x => mined_for purposes guid x.2) (map_to_list (tx_outbox db))).
Proof.
  intros (p & Hp & Hs & Hd). rewrite <- (sum_receipts db (fun k => k = (role, s, d, guid)) (mined_for purposes guid) f).
  { done. }
  intros o. unfold mined_for. rewrite role_purposes. split.
  - intros (Hg & [Hw Hr] & Hm). exists guid, p. by rewrite Hr, Hs, Hd.
  - intros (g & q & Hg & Hq & Hw & Hm & [= Hr _ _ ->]). done.
Qed.

Lemma all_receipts (f : OutboxRow -> Z) :
  sum (fun x => sum (fun y => f y.2) (filter (fun y => y.1 = (role, s, d, x.1)) (worker_receipts db))) (jobs_between db fees s d) =
  sum (fun x => f x.2) (txs_between db fees purposes s d).
Proof.
  pose (key := fun x : bytes * Z => (role, s, d, x.1)).
  change (sum (fun x => (fun k => sum (fun y => f y.2) (filter (fun y => y.1 = k) (worker_receipts db))) (key x))
    (jobs_between db fees s d) = sum (fun x => f x.2) (txs_between db fees purposes s d)).
  rewrite <- (sum_fmap _ key), (sum_join fst).
  2:{ assert (key <$> jobs_between db fees s d = (fun g => (role, s, d, g)) <$> (jobs_between db fees s d).*1) as ->
        by (by rewrite <- list_fmap_compose).
      apply NoDup_fmap_2; [by intros ?? [= ->]|]. eapply sublist_NoDup; [apply (NoDup_fst_map_to_list fees)|].
      apply fmap_sublist, sublist_filter. }
  unfold txs_between.
  rewrite <- (sum_receipts db (fun k => k ∈ (key <$> jobs_between db fees s d)) (mined_between db fees purposes s d) f).
  { by apply (f_equal (sum _)), list_filter_iff. }
  intros o. assert (forall k, k ∈ (key <$> jobs_between db fees s d) <->
    k.1 = (role, s, d) /\ between db s d k.2 /\ is_Some (fees !! k.2)) as Hin.
  { intros [k g]. rewrite <- elem_of_jobs_between, !list_elem_of_fmap. unfold key. cbn. naive_solver. }
  setoid_rewrite Hin. unfold mined_between, mined_for. setoid_rewrite role_purposes. cbn [fst snd]. split.
  - intros (g & (Hg & [Hw Hr] & Hm) & (p & Hp & Hs & Hd) & Hf). exists g, p. rewrite Hr, Hs, Hd. split_and!; try done. by exists p.
  - intros (g & p & Hg & Hp & Hw & Hm & [= Hr _ _] & Hb & Hf). by exists g.
Qed.

(** A sum over the margins of a key. *)
Lemma sum_margins (f : job_margin -> Z) :
  sum f (filter (fun j => (jm_key j).1 = (role, s, d)) (job_margins db)) =
  sum (fun x => let rows := filter (fun y => y.1 = (role, s, d, x.1)) (worker_receipts db) in
                f (mkMargin (role, s, d, x.1) x.2 (priced_cost rows) (unpriced rows))) (jobs_between db fees s d).
Proof.
  unfold job_margins. rewrite sum_filter, sum_fmap. cbn [jm_key].
  rewrite <- (sum_filter (fun jf => f (mkMargin (jf_key jf) (jf_revenue jf) _ _)) (fun jf => (jf_key jf).1 = (role, s, d))), sum_role.
  apply sum_ext. intros x _. cbn [jf_key jf_revenue].
  by destruct (group_by_lookup fst (worker_receipts db) (role, s, d, x.1)) as [-> _].
Qed.

Lemma stat_exact g : g = filter (fun j => (jm_key j).1 = (role, s, d)) (job_margins db) ->
  holds_for db fees purposes (mkFeeStat role s d (sum jm_revenue g) (sum jm_cost g) (sum (fun j => jm_revenue j - jm_cost j) g)
    (count (filter (fun j => jm_revenue j < jm_cost j) g)) (sum jm_unpriced g)).
Proof.
  intros ->. split; cbn [fs_SrcEID fs_DstEID fs_RevenueSrcWei fs_ActualGasCostSrcWei fs_GrossMarginSrcWei fs_NegativeMarginJobs
    fs_UnpricedReceipts].
  - by rewrite sum_margins.
  - rewrite sum_margins, <- all_receipts. by apply sum_ext.
  - apply sum_minus.
  - rewrite !count_sum, sum_margins. cbn [jm_revenue jm_cost]. apply sum_ext. intros x Hx.
    assert (priced_cost (filter (fun y => y.1 = (role, s, d, x.1)) (worker_receipts db)) = job_cost db purposes x.1) as ->; [|done].
    unfold priced_cost, job_cost. apply (job_receipts x.1 cost_of). apply elem_of_jobs_between. by apply list_elem_of_fmap_2.
  - rewrite sum_margins, count_sum. cbn [jm_unpriced].
    etrans; [|etrans; [apply (all_receipts (fun o => if decide (o_receipt_gas_cost_src_wei o = None) then 1 else 0))|]];
      apply sum_ext; intros x _; [|by apply decide_ext].
    unfold unpriced. rewrite count_sum. apply sum_ext. intros y _. by apply decide_ext.
Qed.
End fee_stats.

Lemma job_fee_role db jf : jf ∈ job_fees db -> exists role src dst guid fees purposes, jf_key jf = (role, src, dst, guid) /\
  is_role db role fees purposes.
Proof.
  assert (forall J role (fee : J -> option Z) (jobs : gmap bytes J), jf ∈ fees_of role fee jobs db ->
    exists src dst guid, jf_key jf = (role, src, dst, guid)) as Hk.
  { intros J role fee jobs ([g j] & _ & E)%list_elem_of_omap. cbn in E.
    destruct (packets db !! g) as [p|]; [|done]. injection E as <-. cbn. by eexists _, _, _. }
  unfold job_fees. rewrite elem_of_app. intros [(s & d & g & E)%Hk|(s & d & g & E)%Hk].
  - eexists _, s, d, g, _, _. split; [exact E|]. by left.
  - eexists _, s, d, g, _, _. split; [exact E|]. by right.
Qed.

(** A job with a packet is in a statistic. *)
Lemma job_in_stat db role fees purposes guid p : is_role db role fees purposes -> is_Some (fees !! guid) ->
  packets db !! guid = Some p -> exists st, st ∈ workerFeeStats db /\ fs_Role st = role /\ fs_SrcEID st = p_src_eid p /\
    fs_DstEID st = p_dst_eid p.
Proof.
  intros Hr Hf Hp. set (k := (role, p_src_eid p, p_dst_eid p)).
  assert (exists jf, jf ∈ job_fees db /\ (jf_key jf).1 = k) as (jf & Hjf & Hk).
  { assert (sum (fun _ => 1) (filter (fun jf => (jf_key jf).1 = k) (job_fees db)) <> 0) as Hn.
    { unfold k. rewrite (sum_role db role fees purposes Hr). intros Hz.
      assert (guid ∈ (jobs_between db fees (p_src_eid p) (p_dst_eid p)).*1) as (x & _ & Hx)%list_elem_of_fmap.
      { apply elem_of_jobs_between. split; [by exists p|done]. }
      destruct (jobs_between db fees _ _) as [|y l]; [by apply elem_of_nil in Hx|]. revert Hz.
      assert (forall l : list (bytes * Z), 0 <= sum (fun _ => 1) l) as Hpos by (intros l'; induction l'; unfold sum in *; cbn; lia).
      rewrite sum_cons. specialize (Hpos l). lia. }
    destruct (filter (fun jf => (jf_key jf).1 = k) (job_fees db)) as [|jf l] eqn:E; [done|].
    assert (jf ∈ filter (fun jf => (jf_key jf).1 = k) (job_fees db)) as [Hk Hin]%list_elem_of_filter by (rewrite E; by left). eauto. }
  destruct (proj2 (exists_key (fun j => (jm_key j).1) (job_margins db) (fun k' => k' = k))) as (k' & g & Hg & ->).
  { eexists. split; [unfold job_margins; by apply list_elem_of_fmap_2|]. done. }
  eexists. split; [unfold workerFeeStats; apply list_elem_of_fmap_2, Hg|]. done.
Qed.

(** C40: the fee statistics are what the tables hold. Each is of one of the two roles and reports, for the jobs of that role
    whose packet goes between its two chains: their assigned fees, the priced gas (in source wei) of the mined transactions of
    the role's purposes sent for those jobs, each counted once, the margin, the number of jobs that cost more than they earn and
    the number of those transactions not priced yet. Every job with a packet is in a statistic, and no two statistics have the
    same role and chains. *)
Theorem workerFeeStats_exact db :
  (forall st, st ∈ workerFeeStats db -> exists fees purposes, is_role db (fs_Role st) fees purposes /\ holds_for db fees purposes st) /\
  (forall role fees purposes guid p, is_role db role fees purposes -> is_Some (fees !! guid) -> packets db !! guid = Some p ->
     exists st, st ∈ workerFeeStats db /\ fs_Role st = role /\ fs_SrcEID st = p_src_eid p /\ fs_DstEID st = p_dst_eid p) /\
  NoDup ((fun st => (fs_Role st, fs_SrcEID st, fs_DstEID st)) <$> workerFeeStats db).
Proof.
  split_and!; [|intros; by eapply job_in_stat|].
  - intros st ([k g] & -> & Hg)%list_elem_of_fmap. destruct (group_some _ _ _ _ Hg) as [j Hj].
    apply elem_of_groups in Hg as [Eg _]. rewrite Eg in Hj. apply list_elem_of_filter in Hj as [Hk (jf & -> & Hjf)%list_elem_of_fmap].
    destruct (job_fee_role db jf Hjf) as (role & s & d & guid & fees & purposes & Ek & Hr). cbn in Hk. rewrite Ek in Hk. cbn in Hk.
    subst k. exists fees, purposes. split; [done|]. by apply stat_exact.
  - unfold workerFeeStats. rewrite <- list_fmap_compose.
    assert ((fun g : string * Z * Z * list job_margin => (g.1.1.1, g.1.1.2, g.1.2)) <$> groups (fun j => (jm_key j).1) (job_margins db) =
      (groups (fun j => (jm_key j).1) (job_margins db)).*1) as E by (apply list_fmap_ext; by intros ? [[[r s] d] g] _).
    unfold compose. cbn. rewrite E. apply NoDup_fst_map_to_list.
Qed.
