(* ===== verification/Readiness.v ===== *)
(** * Readiness (go/internal/readiness/readiness.go)

    The verdict on a statistics snapshot: one issue per condition that needs an operator. *)

From S2P Require Import Prelude Schema PriceSelect Stats.
From stdpp Require Import base gmap list strings numbers pretty.
From Stdlib Require Import ZArith Lia.
#[local] Open Scope Z_scope.

Definition executorSourceStream : string := "executor_source".
Definition executorDestStream : string := "executor_destination".
Definition dvnSourceStream : string := "dvn_source".
Definition dvnDestStream : string := "dvn_destination".
Definition pricingPendingStallSeconds : Z := 5 * 60.
Definition cancelHeldStallSeconds : Z := 15 * 60.
Definition repriceHeldStallSeconds : Z := 15 * 60.

Record Services := mkReadyServices { rs_ExecutorEnabled : bool; rs_DVNEnabled : bool }.
Record Issue := mkIssue { is_Code : string; is_Message : string }.
Record Report := mkReport { rp_Ready : bool; rp_Issues : list Issue; rp_Stats : StatsSnapshot }.

Section evaluate.
Context (snapshot : StatsSnapshot) (services : Services).
#[local] Open Scope string_scope.
#[local] Open Scope Z_scope.

Definition activeChains : gset Z := list_to_set (cs_EID <$> filter (fun c => cs_Enabled c = true) (sn_Chains snapshot)).

Definition chainIssues : list Issue :=
  omap (fun c => if cs_Enabled c && cs_Paused c
                 then Some (mkIssue "chain_paused" ("chain " +:+ pretty (cs_EID c) +:+ " (" +:+ cs_Name c +:+ ") is paused"))
                 else None) (sn_Chains snapshot).

Definition activePathway (p : PathwayStat) : Prop :=
  ps_Enabled p = true /\ ps_SrcEID p ∈ activeChains /\ ps_DstEID p ∈ activeChains.
#[local] Instance activePathway_dec p : Decision (activePathway p) := _.

(** requireCursor of each enabled role *)
Definition cursorsOf (p : PathwayStat) : list (Z * string) :=
  (if rs_ExecutorEnabled services then [(ps_SrcEID p, executorSourceStream); (ps_DstEID p, executorDestStream)] else []) ++
  (if rs_DVNEnabled services then [(ps_SrcEID p, dvnSourceStream); (ps_DstEID p, dvnDestStream)] else []).
Definition requiredCursors : gset (Z * string) :=
  list_to_set (filter activePathway (sn_Pathways snapshot) ≫= cursorsOf).

Definition pathwayIssues : list Issue :=
  omap (fun p => if decide (activePathway p /\ ps_Paused p = true)
                 then Some (mkIssue "pathway_paused" ("pathway " +:+ pretty (ps_SrcEID p) +:+ " -> " +:+ pretty (ps_DstEID p) +:+ " is paused"))
                 else None) (sn_Pathways snapshot).

Definition outboxIssues : list Issue :=
  omap (fun o => if decide (to_Status o = TxStatusFailed /\ to_Count o <> 0 /\ to_RetryState o = TxOutboxRetryStateExhausted /\
                            to_ChainEID o ∈ activeChains)
                 then Some (mkIssue "failed_outbox" ("chain " +:+ pretty (to_ChainEID o) +:+ " has " +:+ pretty (to_Count o) +:+
                              " exhausted failed tx_outbox rows"))
                 else None) (sn_TxOutbox snapshot).

Definition reason_text (r : held_stat_reason) : string :=
  match r with
  | HeldRepriceExhausted => "reprice_exhausted"
  | HeldCancelRequested => "cancel_requested"
  | HeldBy (Some HeldManual) => "manual"
  | HeldBy (Some HeldNonceConsumedExternally) => "nonce_consumed_externally"
  | HeldBy (Some HeldBroadcastExhausted) => "broadcast_exhausted"
  | HeldBy (Some HeldRepriceRequired) => "reprice_required"
  | HeldBy (Some HeldNonceReconcileRequired) => "nonce_reconcile_required"
  | HeldBy None => ""
  end.

(** The switch on the reason of a hold. *)
Definition heldIssue (h : TxOutboxHeldStat) : option string :=
  let lane := "chain " +:+ pretty (hs_ChainEID h) +:+ " signer " +:+ hs_SignerID h +:+ " has " +:+ pretty (hs_Count h) in
  match hs_HeldReason h with
  | HeldRepriceExhausted | HeldBy (Some HeldManual) | HeldBy (Some HeldNonceConsumedExternally)
  | HeldBy (Some HeldBroadcastExhausted) =>
    Some (lane +:+ " held(" +:+ reason_text (hs_HeldReason h) +:+ ") tx_outbox rows blocking the nonce lane")
  | HeldCancelRequested =>
    if decide (cancelHeldStallSeconds < hs_OldestAgeSeconds h)
    then Some (lane +:+ " pending cancel(s) stalled for " +:+ pretty (hs_OldestAgeSeconds h) +:+ "s, likely blocked by the fee cap")
    else None
  | HeldBy (Some HeldRepriceRequired) =>
    if decide (repriceHeldStallSeconds < hs_OldestAgeSeconds h)
    then Some (lane +:+ " held(reprice_required) tx_outbox rows stalled for " +:+ pretty (hs_OldestAgeSeconds h) +:+
               "s, likely blocked by the fee cap")
    else None
  | HeldBy _ => None
  end.

Definition heldIssues : list Issue :=
  omap (fun h => if decide (hs_Count h <> 0 /\ hs_ChainEID h ∈ activeChains)
                 then mkIssue "held_signer_lane" <$> heldIssue h else None) (sn_TxOutboxHeld snapshot).

Definition status_text (s : TxStatus) : string :=
  match s with
  | TxStatusQueued => "queued" | TxStatusNonceAssigned => "nonce_assigned" | TxStatusSigned => "signed"
  | TxStatusBroadcast => "broadcast" | TxStatusConfirmed => "confirmed" | TxStatusFailed => "failed" | TxStatusHeld => "held"
  end.

Definition orphanedIssues : list Issue :=
  omap (fun o => if decide (or_Count o <> 0 /\ or_ChainEID o ∈ activeChains)
                 then Some (mkIssue "orphaned_outbox_row" ("chain " +:+ pretty (or_ChainEID o) +:+ " signer " +:+ or_SignerID o +:+
                   " has " +:+ pretty (or_Count o) +:+ " " +:+ status_text (or_Status o) +:+
                   " tx_outbox row(s) with no active attempt, oldest " +:+ pretty (or_OldestAgeSeconds o) +:+
                   "s old; durable send state was lost and the lane needs `txretry -action cancel-nonce`"))
                 else None) (sn_TxOutboxOrphaned snapshot).

Definition pricingIssues : list Issue :=
  omap (fun p => if decide (pp_Count p <> 0 /\ pp_ChainEID p ∈ activeChains /\ pricingPendingStallSeconds < pp_OldestAgeSeconds p)
                 then Some (mkIssue "pricing_pending_stalled" ("chain " +:+ pretty (pp_ChainEID p) +:+ " has " +:+ pretty (pp_Count p) +:+
                   " pending pricing tx(s), oldest " +:+ pretty (pp_OldestAgeSeconds p) +:+ "s old, gating price writes while the snapshot ages"))
                 else None) (sn_PricingPending snapshot).

Definition packetIssues : list Issue :=
  omap (fun p => if decide (pk_Status p = ExecutorManualReview /\ pk_Count p <> 0 /\ pk_SrcEID p ∈ activeChains /\ pk_DstEID p ∈ activeChains)
                 then Some (mkIssue "packet_manual_review" ("pathway " +:+ pretty (pk_SrcEID p) +:+ " -> " +:+ pretty (pk_DstEID p) +:+
                   " has " +:+ pretty (pk_Count p) +:+ " packets requiring manual review"))
                 else None) (sn_Packets snapshot).

(** A status with the issue it raises. *)
Definition jobIssues (table : list (string * (string * string))) (prefix : string) (jobs : list StatusStat) : list Issue :=
  omap (fun j => if decide (ss_Count j = 0) then None else
                 x ← list_find (fun y => y.1 = ss_Status j) table;
                 Some (mkIssue x.2.2.1 (prefix +:+ pretty (ss_Count j) +:+ x.2.2.2))) jobs.

Definition executor_table : list (string * (string * string)) :=
  [(ExecutorLzReceiveFailed, ("executor_lz_receive_failed", " failed lzReceive jobs"));
   (ExecutorManualReview, ("executor_manual_review", " jobs requiring manual review"))].
Definition dvn_table : list (string * (string * string)) :=
  [(DVNQuorumConflict, ("dvn_quorum_conflict", " quorum conflict jobs"));
   (DVNReorgDetected, ("dvn_reorg_detected", " jobs waiting for reorg rollback"));
   (DVNManualReview, ("dvn_manual_review", " jobs requiring manual review"))].

Definition executorIssues : list Issue :=
  if rs_ExecutorEnabled services then jobIssues executor_table "executor has " (sn_ExecutorJobs snapshot) else [].
Definition dvnIssues : list Issue :=
  if rs_DVNEnabled services then jobIssues dvn_table "dvn has " (sn_DVNJobs snapshot) else [].

Definition cursorProgress : gmap (Z * string) Z :=
  fold_left (fun m cursor => if decide (ic_ChainEID cursor ∈ activeChains)
                             then <[(ic_ChainEID cursor, ic_Stream cursor) := ic_LastBlock cursor]> m else m)
    (sn_IndexerCursors snapshot) ∅.

Definition cursorIssues : list Issue :=
  omap (fun x => match cursorProgress !! x with
                 | None => Some (mkIssue "indexer_cursor_missing" ("chain " +:+ pretty x.1 +:+ " is missing indexer cursor " +:+ quoted x.2))
                 | Some lastBlock =>
                   if decide (lastBlock = 0)
                   then Some (mkIssue "indexer_cursor_unstarted" ("chain " +:+ pretty x.1 +:+ " indexer cursor " +:+ quoted x.2 +:+ " has not advanced"))
                   else None
                 end) (elements requiredCursors).

Definition EvaluateWithServices : Report :=
  let issues := (chainIssues ++ pathwayIssues ++ outboxIssues ++ heldIssues ++ orphanedIssues ++ pricingIssues ++
                 packetIssues ++ executorIssues ++ dvnIssues ++ cursorIssues)%list in
  mkReport (bool_decide (issues = [])) issues snapshot.
End evaluate.

Definition Evaluate (snapshot : StatsSnapshot) : Report := EvaluateWithServices snapshot (mkReadyServices true true).
