(* ===== verification/ReadinessProofs.v ===== *)
(** * What readiness means for the tables

    [db_ready] states the verdict of readiness on the tables themselves. *)

From S2P Require Import Prelude BigUtil Schema SendScope Outbox Attempts Jobs Store StoreInv PriceSelect Stats StatsProofs Readiness.
From stdpp Require Import base gmap list strings numbers sorting.
From Stdlib Require Import ZArith Lia.
#[local] Open Scope Z_scope.

(** ** The tables readiness accepts *)

Section ready.
Context (col : columns) (now : timestamp) (db : DB) (services : Services).
#[local] Abbreviation snapshot := (Stats col now db).

Definition age (t : timestamp) : Z := (now - t) / 1000000.

(** *** Where the process works *)

Definition on (eid : Z) : Prop := exists c, chains db !! eid = Some c /\ c_enabled c = true.

(** A pathway between enabled chains. *)
Definition live_pathway (pw : PathwayRow) : Prop := pw_enabled pw = true /\ on (pw_src_eid pw) /\ on (pw_dst_eid pw).

(** A packet of an enabled pathway, neither end of which is a disabled chain. *)
Definition served (p : PacketRow) : Prop :=
  (exists id pw, pathways db !! id = Some pw /\ pw_enabled pw = true /\
     pw_src_eid pw = p_src_eid p /\ pw_dst_eid pw = p_dst_eid p /\
     pw_src_oapp pw = p_sender p /\ pw_dst_oapp pw = p_receiver p) /\
  forall eid c, chains db !! eid = Some c -> eid = p_src_eid p \/ eid = p_dst_eid p -> c_enabled c = true.

(** The packet a row was sent for. *)
Definition packet_of (o : OutboxRow) (p : PacketRow) : Prop :=
  exists guid, o_guid o = Some guid /\ packets db !! guid = Some p.

(** *** What an operator must look at *)

(** A failed row nothing takes up again: it has no retry child, failed for a reason that is neither a
    cancel nor a nonce used elsewhere, is no pricing row whose nonce is free or whose receipt is in,
    and has no automatic retry left. *)
Definition out_of_retries (id : Z) (o : OutboxRow) : Prop :=
  o_status o = TxStatusFailed /\
  (forall cid child, tx_outbox db !! cid = Some child -> o_retry_of_id child <> Some id) /\
  exists kind, o_failure_kind o = Some kind /\
    kind <> TxFailureCanceled /\ kind <> TxFailureNonceConsumedExternally /\
    (o_purpose o = TxPurposePricingSetPriceSnapshot ->
       o_nonce o <> None /\ o_receipt_outcome o = None /\ kind <> TxFailureReceiptFailed) /\
    (5 <= o_attempts o \/ o_next_retry_at o = None).

(** The attempt a row sends. *)
Definition sends (o : OutboxRow) (aid : Z) (a : AttemptRow) : Prop :=
  o_active_attempt_id o = Some aid /\ tx_attempts db !! aid = Some a.
Definition sends_cancel (o : OutboxRow) : Prop := exists aid a, sends o aid a /\ a_kind a = TxAttemptCancel.

(** At least five attempts of a kind were signed for a row. *)
Definition used_up (id : Z) (kind : TxAttemptKind) : Prop :=
  exists ids : gset Z, size ids = 5%nat /\
    forall aid, aid ∈ ids -> exists a, tx_attempts db !! aid = Some a /\ a_outbox_id a = id /\ a_kind a = kind.

(** A row waiting for a higher fee that will get no further replacement. *)
Definition reprice_exhausted (id : Z) (o : OutboxRow) : Prop :=
  (sends_cancel o /\ used_up id TxAttemptCancel) \/
  (~ sends_cancel o /\ o_cancel_requested_at o = None /\ used_up id TxAttemptReplacement).

(** A reprice hold ages from the attempt it sends, or from its last change. *)
Definition hold_age (o : OutboxRow) (t : timestamp) : Prop :=
  (exists aid a, sends o aid a /\ t = attempt_created_at col aid) \/
  ((forall aid a, ~ sends o aid a) /\ t = o_updated_at o).

(** A hold an operator need not look at (yet). *)
Definition hold_ok (id : Z) (o : OutboxRow) : Prop :=
  match o_held_reason o with
  | Some HeldManual | Some HeldNonceConsumedExternally | Some HeldBroadcastExhausted => False
  | Some HeldRepriceRequired => ~ reprice_exhausted id o /\ forall t, hold_age o t -> age t <= 900
  | Some HeldNonceReconcileRequired | None => True
  end.

(** A pricing transaction that is not settled, or failed in a way that is retried. *)
Definition pricing_open (o : OutboxRow) : Prop :=
  o_purpose o = TxPurposePricingSetPriceSnapshot /\
  ((o_status o <> TxStatusConfirmed /\ o_status o <> TxStatusFailed) \/
   o_status o = TxStatusFailed /\ o_nonce o <> None /\ o_receipt_outcome o = None /\
   o_failure_kind o <> Some TxFailureCanceled /\ o_failure_kind o <> Some TxFailureNonceConsumedExternally /\
   o_failure_kind o <> Some TxFailureReceiptFailed).

(** A stream of a chain that advanced. *)
Definition started (x : Z * string) : Prop := exists n, indexer_cursors db !! x = Some n /\ n <> 0.

Record db_ready : Prop := {
  dy_chains : forall eid c, chains db !! eid = Some c -> c_enabled c = true -> c_paused c = false;
  dy_pathways : forall id pw, pathways db !! id = Some pw -> live_pathway pw -> pw_paused pw = false;
  dy_executor_cursors : rs_ExecutorEnabled services = true -> forall id pw, pathways db !! id = Some pw -> live_pathway pw ->
    started (pw_src_eid pw, "executor_source"%string) /\ started (pw_dst_eid pw, "executor_destination"%string);
  dy_dvn_cursors : rs_DVNEnabled services = true -> forall id pw, pathways db !! id = Some pw -> live_pathway pw ->
    started (pw_src_eid pw, "dvn_source"%string) /\ started (pw_dst_eid pw, "dvn_destination"%string);
  dy_failed : forall id o, tx_outbox db !! id = Some o -> on (o_chain_eid o) ->
    (forall p, packet_of o p -> served p) -> ~ out_of_retries id o;
  dy_held : forall id o, tx_outbox db !! id = Some o -> o_status o = TxStatusHeld -> on (o_chain_eid o) -> hold_ok id o;
  dy_cancels : forall id o t, tx_outbox db !! id = Some o -> o_cancel_requested_at o = Some t ->
    o_status o <> TxStatusConfirmed -> o_status o <> TxStatusFailed -> on (o_chain_eid o) -> age t <= 900;
  dy_orphaned : forall id o, tx_outbox db !! id = Some o -> on (o_chain_eid o) ->
    o_status o = TxStatusSigned \/ o_status o = TxStatusBroadcast -> o_active_attempt_id o <> None;
  dy_pricing : forall id o, tx_outbox db !! id = Some o -> on (o_chain_eid o) -> pricing_open o ->
    age (outbox_created_at col id) <= 300;
  dy_packets : forall guid p, packets db !! guid = Some p -> served p -> on (p_src_eid p) -> on (p_dst_eid p) ->
    p_status p <> ExecutorManualReview;
  dy_executor : rs_ExecutorEnabled services = true -> forall guid p e, packets db !! guid = Some p -> served p ->
    executor_jobs db !! guid = Some e -> e_status e <> ExecutorLzReceiveFailed /\ e_status e <> ExecutorManualReview;
  dy_dvn : rs_DVNEnabled services = true -> forall guid p d, packets db !! guid = Some p -> served p ->
    dvn_jobs db !! guid = Some d ->
    d_status d <> DVNQuorumConflict /\ d_status d <> DVNReorgDetected /\ d_status d <> DVNManualReview }.

(** ** The queries' predicates say the same *)

Lemma chain_enabled_on eid : chain_enabled db eid = true <-> on eid.
Proof. unfold chain_enabled, on. destruct (chains db !! eid); naive_solver. Qed.

Lemma scope_served p : statsEnabledPacketScope db p <-> served p.
Proof.
  unfold statsEnabledPacketScope, served, map_Exists. f_equiv; [naive_solver|]. split.
  - intros Hn eid c Hc He. destruct (c_enabled c) eqn:E; [done|]. destruct Hn. eauto.
  - intros Hall (eid & c & Hc & He & E). by rewrite (Hall eid c Hc He) in E.
Qed.

Lemma row_scope o : on (o_chain_eid o) -> outbox_in_scope db o <-> forall p, packet_of o p -> served p.
Proof.
  intros Hon. unfold outbox_in_scope, packet_of. destruct (o_guid o) as [guid|]; cbn.
  - destruct (packets db !! guid) as [p|] eqn:Hp; cbn.
    + rewrite scope_served. split; [intros Hs q (g & [= <-] & Hq); congruence|]. intros Hall. apply Hall. by exists guid.
    + rewrite chain_enabled_on. split; [|done]. intros _ q (g & [= <-] & Hq). congruence.
  - rewrite chain_enabled_on. split; [|done]. by intros _ q (g & [=] & _).
Qed.

Lemma retry_exhausted id o :
  o_status o = TxStatusFailed -> retry_state db id o = TxOutboxRetryStateExhausted <-> out_of_retries id o.
Proof.
  intros Hf. unfold retry_state, out_of_retries, exists_outbox. rewrite decide_False by tauto.
  case_decide as Hch.
  { split; [done|]. intros (_ & Hno & _). destruct Hch as (cid & child & Hc & Hr). by destruct (Hno cid child Hc). }
  destruct (o_failure_kind o) as [kind|]; [|split; [done|]; intros (_ & _ & k & [=] & _)].
  case_decide as Hk; [split; [done|]; intros (_ & _ & k & [= <-] & ? & ? & _); tauto|].
  case_decide as Hp.
  { split; [done|]. intros (_ & _ & k & [= <-] & _ & _ & Hpr & _). destruct (Hpr (proj1 Hp)) as (? & ? & ?). tauto. }
  case_decide as Hr.
  { split; [done|]. intros (_ & _ & k & [= <-] & _ & _ & _ & [?|?]); [unfold TxAutoRetryMaxAttempts in Hr; lia|tauto]. }
  split; [intros _|done]. split_and!; [done| |].
  - intros cid child Hc E. destruct Hch. eauto.
  - exists kind. split_and!; [done|tauto|tauto| |].
    + intros Epr. split_and!; [|apply dec_stable|]; tauto.
    + unfold TxAutoRetryMaxAttempts in Hr. destruct (decide (o_attempts o < 5)); [right; apply dec_stable; tauto|lia].
Qed.

Lemma cancel_active_sends o : cancel_active db o <-> sends_cancel o.
Proof.
  unfold cancel_active, joined_attempt, sends_cancel, sends. destruct (o_active_attempt_id o) as [aid|]; cbn.
  2:{ split; [done|]. by intros (aid & a & [[=] _] & _). }
  destruct (tx_attempts db !! aid) as [a|] eqn:Ha; cbn; split; try done.
  - intros [= Hk]. by exists aid, a.
  - intros (aid' & a' & [[= <-] Ha'] & Hk). congruence.
  - intros (aid' & a' & [[= <-] Ha'] & Hk). congruence.
Qed.

Lemma count_used_up id kind : TxMaxReplacements <= count_kind db id kind <-> used_up id kind.
Proof.
  unfold count_kind, used_up, TxMaxReplacements. set (l := select_attempts db _).
  assert (NoDup l.*1) as Hnd.
  { unfold l, select_attempts. rewrite (merge_sort_Permutation id_le). eapply sublist_NoDup; [apply (NoDup_fst_map_to_list (tx_attempts db))|].
    apply fmap_sublist, sublist_filter. }
  assert (forall aid, aid ∈ l.*1 <-> exists a, tx_attempts db !! aid = Some a /\ a_outbox_id a = id /\ a_kind a = kind) as Hin.
  { intros aid. rewrite list_elem_of_fmap. split.
    - intros ([k a] & -> & Ha%elem_of_select_attempts). exists a. apply Ha.
    - intros (a & Ha). exists (aid, a). split; [done|]. by apply elem_of_select_attempts. }
  split.
  - intros Hle. exists (list_to_set (take 5 l.*1)). split.
    + rewrite size_list_to_set by (eapply sublist_NoDup; [exact Hnd|apply sublist_take]).
      rewrite length_take, length_fmap. lia.
    + intros aid Hx. rewrite elem_of_list_to_set in Hx. apply Hin. apply elem_of_take in Hx as (k & Hk & _).
      by eapply list_elem_of_lookup_2.
  - intros (ids & Hsz & Hids). assert (ids ⊆ list_to_set (C := gset Z) l.*1) as Hsub.
    { intros aid Hx. rewrite elem_of_list_to_set. apply Hin, Hids, Hx. }
    apply subseteq_size in Hsub. rewrite size_list_to_set, length_fmap in Hsub by done. lia.
Qed.

Lemma reprice_stat id o : o_held_reason o = Some HeldRepriceRequired ->
  held_reason_stat db id o = HeldRepriceExhausted <-> reprice_exhausted id o.
Proof.
  intros Hr. unfold held_reason_stat, reprice_exhausted.
  destruct (decide (cancel_active db o)) as [Hc|Hc]; rewrite cancel_active_sends in Hc.
  - case_decide as Hd; rewrite count_used_up, cancel_active_sends in Hd; (split; [|done || tauto]); [tauto|done].
  - case_decide as Hd; rewrite count_used_up, cancel_active_sends in Hd; (split; [|done || tauto]); [tauto|done].
Qed.

Lemma held_since_age o : o_held_reason o = Some HeldRepriceRequired -> forall t, hold_age o t <-> t = held_since col db o.
Proof.
  intros Hr t. unfold hold_age, held_since, joined_attempt, sends. rewrite decide_True by done.
  destruct (o_active_attempt_id o) as [aid|]; cbn.
  2:{ split; [by intros [(aid & a & [[=] _] & _)|[_ ->]]|]. intros ->. right. split; [|done]. by intros aid a [[=] _]. }
  destruct (tx_attempts db !! aid) as [a|] eqn:Ha; cbn; split.
  - intros [(aid' & a' & [[= <-] _] & ->)|[Hno _]]; [done|]. by destruct (Hno aid a).
  - intros ->. left. by exists aid, a.
  - intros [(aid' & a' & [[= <-] Ha'] & _)|[_ ->]]; [congruence|done].
  - intros ->. right. split; [|done]. intros aid' a' [[= <-] Ha']. congruence.
Qed.

(** What the held statistics make of a hold. *)
Definition hold_stat_ok (id : Z) (o : OutboxRow) : Prop :=
  match held_reason_stat db id o with
  | HeldRepriceExhausted | HeldBy (Some HeldManual) | HeldBy (Some HeldNonceConsumedExternally)
  | HeldBy (Some HeldBroadcastExhausted) => False
  | HeldBy (Some HeldRepriceRequired) => age (held_since col db o) <= repriceHeldStallSeconds
  | _ => True
  end.

#[local] Instance hold_stat_ok_dec id o : Decision (hold_stat_ok id o).
Proof. unfold hold_stat_ok. repeat case_match; apply _. Defined.

Lemma hold_stat id o : hold_stat_ok id o <-> hold_ok id o.
Proof.
  unfold hold_stat_ok, hold_ok. destruct (decide (o_held_reason o = Some HeldRepriceRequired)) as [Hr|Hr].
  - pose proof (reprice_stat id o Hr) as Hx. rewrite Hr. setoid_rewrite (held_since_age o Hr).
    unfold held_reason_stat in *. case_decide; rewrite ?Hr in *; [tauto|].
    assert (~ reprice_exhausted id o) by (rewrite <- Hx; done). unfold repriceHeldStallSeconds. naive_solver.
  - unfold held_reason_stat. rewrite decide_False by tauto. by destruct (o_held_reason o) as [[]|].
Qed.

Lemma pricing_scope o : pricing_stalled_scope db o <-> on (o_chain_eid o) /\ pricing_open o.
Proof.
  unfold pricing_stalled_scope, pricing_pending, txRetryableLegacyPricing, pricing_open. rewrite chain_enabled_on.
  assert (default ""%string (o_failure_kind o) ∉ [TxFailureCanceled; TxFailureNonceConsumedExternally; TxFailureReceiptFailed] <->
    o_failure_kind o <> Some TxFailureCanceled /\ o_failure_kind o <> Some TxFailureNonceConsumedExternally /\
    o_failure_kind o <> Some TxFailureReceiptFailed) as ->.
  2:{ assert (o_status o ∈ txPricingPendingStatuses <-> o_status o <> TxStatusConfirmed /\ o_status o <> TxStatusFailed) as ->
        by (unfold txPricingPendingStatuses; destruct (o_status o); set_solver).
      tauto. }
  destruct (o_failure_kind o) as [kind|]; cbn; [rewrite !not_elem_of_cons; pose proof (not_elem_of_nil kind); naive_solver|].
  split; [done|]. intros _. by vm_compute; set_solver.
Qed.

Lemma active_chain eid : eid ∈ activeChains snapshot <-> chain_enabled db eid = true.
Proof.
  unfold activeChains, chain_enabled. cbn [sn_Chains Stats]. rewrite elem_of_list_to_set, list_elem_of_fmap.
  setoid_rewrite list_elem_of_filter. unfold chainStats. setoid_rewrite list_elem_of_fmap. split.
  - intros (s & -> & He & [k c] & -> & Hc%elem_of_map_to_list). cbn in *. by rewrite Hc.
  - destruct (chains db !! eid) as [c|] eqn:E; [|done]. intros He. eexists. split; [|split; [|exists (eid, c); split; [done|by apply elem_of_map_to_list]]]; done.
Qed.

Lemma chain_issues : chainIssues snapshot = [] <->
  forall eid c, chains db !! eid = Some c -> c_enabled c = true -> c_paused c = false.
Proof.
  unfold chainIssues. rewrite omap_nil. cbn [sn_Chains Stats]. unfold chainStats. setoid_rewrite list_elem_of_fmap. split.
  - intros Hn eid c Hc He. specialize (Hn _ (ex_intro _ (eid, c) (conj eq_refl (proj2 (elem_of_map_to_list _ _ _) Hc)))).
    cbn in Hn. rewrite He in Hn. by destruct (c_paused c).
  - intros Hok x ([eid c] & -> & Hc%elem_of_map_to_list). cbn. destruct (c_enabled c) eqn:He; [|done].
    by rewrite (Hok eid c Hc He).
Qed.

Lemma active_pathway pw :
  activePathway snapshot (mkPathwayStat (pw_src_eid pw) (pw_dst_eid pw) (pw_enabled pw) (pw_paused pw)) <-> live_pathway pw.
Proof. unfold activePathway, live_pathway. cbn [ps_Enabled ps_SrcEID ps_DstEID]. by rewrite !active_chain, !chain_enabled_on. Qed.

Lemma exists_pathway (P : PathwayStat -> Prop) :
  (exists x, x ∈ sn_Pathways snapshot /\ P x) <->
  exists id pw, pathways db !! id = Some pw /\ P (mkPathwayStat (pw_src_eid pw) (pw_dst_eid pw) (pw_enabled pw) (pw_paused pw)).
Proof.
  cbn [sn_Pathways Stats]. unfold pathwayStats. setoid_rewrite list_elem_of_fmap. split.
  - intros (x & ([id pw] & -> & Hp%elem_of_map_to_list) & HP). eauto.
  - intros (id & pw & Hp & HP). eexists. split; [exists (id, pw); split; [done|by apply elem_of_map_to_list]|done].
Qed.

Lemma pathway_issues : pathwayIssues snapshot = [] <->
  forall id pw, pathways db !! id = Some pw -> live_pathway pw -> pw_paused pw = false.
Proof.
  unfold pathwayIssues. rewrite (omap_if_nil (fun p => activePathway snapshot p /\ ps_Paused p = true)), exists_pathway.
  setoid_rewrite active_pathway. cbn [ps_Paused]. split.
  - intros Hn id pw Hp Hl. destruct (pw_paused pw) eqn:E; [|done]. destruct Hn. eauto.
  - intros Hok (id & pw & Hp & Hl & E). by rewrite (Hok id pw Hp Hl) in E.
Qed.

Lemma outbox_issues : outboxIssues snapshot = [] <->
  forall id o, tx_outbox db !! id = Some o -> o_status o = TxStatusFailed -> outbox_in_scope db o ->
    chain_enabled db (o_chain_eid o) = true -> retry_state db id o <> TxOutboxRetryStateExhausted.
Proof.
  unfold outboxIssues. rewrite (omap_if_nil (fun o => to_Status o = TxStatusFailed /\ to_Count o <> 0 /\
    to_RetryState o = TxOutboxRetryStateExhausted /\ to_ChainEID o ∈ activeChains snapshot)). setoid_rewrite active_chain.
  cbn [sn_TxOutbox Stats]. unfold txOutboxStats. set (rows := select_outbox _ _). split.
  - intros Hn id o Ho Hs Hsc Hc Hr. apply Hn.
    destruct (proj2 (exists_key (fun x => (o_chain_eid x.2, o_status x.2, retry_state db x.1 x.2)) rows
      (fun k => k = (o_chain_eid o, TxStatusFailed, TxOutboxRetryStateExhausted)))) as (k & g & Hg & ->).
    { exists (id, o). split; [by apply elem_of_select_outbox|]. cbn. congruence. }
    eexists. split; [by apply list_elem_of_fmap_2, Hg|]. cbn. split_and!; try done. by eapply group_count.
  - intros Hok (x & ([k g] & -> & Hg)%list_elem_of_fmap & Hs & _ & Hr & Hc). cbn in *.
    destruct (proj1 (exists_key (fun x => (o_chain_eid x.2, o_status x.2, retry_state db x.1 x.2)) rows (fun k' => k' = k)))
      as ([id o] & [Ho Hsc]%elem_of_select_outbox & <-); [by eauto|]. cbn in *. by eapply Hok.
Qed.

Lemma orphaned_issues : orphanedIssues snapshot = [] <-> forall id o, tx_outbox db !! id = Some o -> ~ orphaned db o.
Proof.
  unfold orphanedIssues. rewrite (omap_if_nil (fun o => or_Count o <> 0 /\ or_ChainEID o ∈ activeChains snapshot)).
  setoid_rewrite active_chain. cbn [sn_TxOutboxOrphaned Stats]. unfold txOutboxOrphanedStats. set (rows := select_outbox _ _).
  split.
  - intros Hn id o Ho Hor. apply Hn.
    destruct (proj2 (exists_key (fun x => (o_chain_eid x.2, o_signer_id x.2, o_status x.2)) rows
      (fun k => k = (o_chain_eid o, o_signer_id o, o_status o)))) as (k & g & Hg & ->).
    { exists (id, o). split; [by apply elem_of_select_outbox|done]. }
    eexists. split; [by apply list_elem_of_fmap_2, Hg|]. cbn. split; [by eapply group_count|apply Hor].
  - intros Hok (x & ([k g] & -> & Hg)%list_elem_of_fmap & _). destruct (group_some _ _ _ _ Hg) as [[id o] Hx].
    apply elem_of_groups in Hg as [-> _]. apply list_elem_of_filter in Hx as [_ [Ho Hor]%elem_of_select_outbox].
    by eapply Hok.
Qed.

Lemma pricing_issues : pricingIssues snapshot = [] <->
  forall id o, tx_outbox db !! id = Some o -> pricing_stalled_scope db o ->
    age (outbox_created_at col id) <= pricingPendingStallSeconds.
Proof.
  unfold pricingIssues. rewrite (omap_if_nil (fun p => pp_Count p <> 0 /\ pp_ChainEID p ∈ activeChains snapshot /\
    pricingPendingStallSeconds < pp_OldestAgeSeconds p)). setoid_rewrite active_chain.
  cbn [sn_PricingPending Stats]. unfold pricingPendingStats. set (rows := select_outbox _ _).
  assert (0 <= pricingPendingStallSeconds) as H0 by done. split.
  - intros Hn id o Ho Hsc. apply Z.nlt_ge. intros Hlt. apply Hn.
    destruct (proj2 (exists_group (fun x : Z * OutboxRow => o_chain_eid x.2) rows
      (fun k x => k = o_chain_eid o /\ pricingPendingStallSeconds < age (outbox_created_at col x.1)))) as (k & g & Hg & x & Hx & -> & Hax).
    { exists (id, o). split; [by apply elem_of_select_outbox|done]. }
    eexists. split; [by apply list_elem_of_fmap_2, Hg|]. cbn. split_and!; [by eapply group_count|apply Hsc|].
    apply oldest_age; [done|]. eauto.
  - intros Hok (x & ([k g] & -> & Hg)%list_elem_of_fmap & _ & _ & (y & Hy & Ha)%oldest_age); [|done]. destruct y as [id o].
    apply elem_of_groups in Hg as [-> _]. apply list_elem_of_filter in Hy as [_ [Ho Hsc]%elem_of_select_outbox].
    specialize (Hok id o Ho Hsc). unfold age in Hok. cbn in *. lia.
Qed.

Definition raises (h : TxOutboxHeldStat) : Prop := heldIssue h <> None.

Lemma held_issues_split : heldIssues snapshot = [] <->
  ~ exists h, h ∈ txOutboxHeldStats col now db /\ hs_Count h <> 0 /\ chain_enabled db (hs_ChainEID h) = true /\ raises h.
Proof.
  unfold heldIssues, raises. rewrite omap_nil. cbn [sn_TxOutboxHeld Stats]. split.
  - intros Hn (h & Hh & Hc & Ha & Hr). specialize (Hn h Hh). rewrite decide_True in Hn by (by rewrite active_chain).
    by destruct (heldIssue h).
  - intros Hn h Hh. case_decide as Hd; [|done]. rewrite active_chain in Hd. destruct (heldIssue h) eqn:E; [|done].
    destruct Hn. exists h. split_and!; try done; [apply Hd..|by rewrite E].
Qed.

Lemma held_row_raises k g : (k, g) ∈ groups (fun x => (o_chain_eid x.2, o_signer_id x.2, held_reason_stat db x.1 x.2)) (held_rows db) ->
  raises (mkHeldStat k.1.1 k.1.2 k.2 (count g) (age_seconds now (oldest (fun x => held_since col db x.2) g))) <->
  exists x, x ∈ g /\ ~ hold_stat_ok x.1 x.2.
Proof.
  intros Hg. destruct (group_some _ _ _ _ Hg) as [x0 Hx0]. apply elem_of_groups in Hg as [Eg _].
  assert (forall x, x ∈ g -> held_reason_stat db x.1 x.2 = k.2) as Hr.
  { intros x Hx. rewrite Eg in Hx. apply list_elem_of_filter in Hx as [<- _]. done. }
  assert (forall x, x ∈ g -> hold_stat_ok x.1 x.2 <-> match k.2 with
    | HeldRepriceExhausted | HeldBy (Some HeldManual) | HeldBy (Some HeldNonceConsumedExternally)
    | HeldBy (Some HeldBroadcastExhausted) => False
    | HeldBy (Some HeldRepriceRequired) => age (held_since col db x.2) <= repriceHeldStallSeconds
    | _ => True end) as Hok by (intros x Hx; unfold hold_stat_ok; by rewrite (Hr x Hx)).
  unfold raises, heldIssue. cbn [hs_HeldReason hs_OldestAgeSeconds].
  pose proof (Hr x0 Hx0) as Hr0. pose proof (Hok x0 Hx0) as Hok0.
  destruct k as [[eid sid] [[[]|]| |]]; cbn [snd] in *;
    try (split; [intros _; exists x0; tauto|done]);
    try (split; [done|intros (x & Hx & Hn); destruct Hn; by apply Hok]).
  - case_decide as Hd; rewrite oldest_age in Hd by done.
    + split; [intros _|done]. destruct Hd as (x & Hx & Ha). exists x. split; [done|]. rewrite Hok by done. unfold age. lia.
    + split; [done|]. intros (x & Hx & Hn). destruct Hd. exists x. split; [done|]. rewrite Hok in Hn by done.
      unfold age in Hn. lia.
  - unfold held_reason_stat in Hr0. by case_decide.
Qed.

Lemma cancel_row_raises k g :
  raises (mkHeldStat k.1 k.2 HeldCancelRequested (count g)
    (age_seconds now (oldest (fun x : Z * OutboxRow => default 0 (o_cancel_requested_at x.2)) g))) <->
  exists x, x ∈ g /\ cancelHeldStallSeconds < age (default 0 (o_cancel_requested_at x.2)).
Proof.
  unfold raises, heldIssue, age. cbn [hs_HeldReason hs_OldestAgeSeconds].
  rewrite <- (oldest_age (fun x : Z * OutboxRow => default 0 (o_cancel_requested_at x.2))) by done.
  case_decide; naive_solver.
Qed.

Lemma held_issues : heldIssues snapshot = [] <->
  (forall id o, tx_outbox db !! id = Some o -> o_status o = TxStatusHeld -> chain_enabled db (o_chain_eid o) = true -> hold_stat_ok id o) /\
  (forall id o, tx_outbox db !! id = Some o -> cancel_pending o -> chain_enabled db (o_chain_eid o) = true ->
    age (default 0 (o_cancel_requested_at o)) <= cancelHeldStallSeconds).
Proof.
  rewrite held_issues_split. unfold txOutboxHeldStats. split.
  - intros Hn. split.
    + intros id o Ho Hs Hc. apply dec_stable. intros Hbad. apply Hn.
      destruct (proj2 (exists_group (fun x => (o_chain_eid x.2, o_signer_id x.2, held_reason_stat db x.1 x.2)) (held_rows db)
        (fun k x => k.1.1 = o_chain_eid o /\ ~ hold_stat_ok x.1 x.2))) as (k & g & Hg & x & Hx & Ek & Hx').
      { exists (id, o). split; [by apply elem_of_select_outbox|done]. }
      eexists. split; [apply elem_of_app; left; by apply list_elem_of_fmap_2, Hg|]. cbn [hs_Count hs_ChainEID fst snd].
      split_and!; [by eapply group_count|by rewrite Ek|]. apply held_row_raises; eauto.
    + intros id o Ho Hp Hc. apply Z.nlt_ge. intros Hlt. apply Hn.
      destruct (proj2 (exists_group (fun x : Z * OutboxRow => (o_chain_eid x.2, o_signer_id x.2)) (cancel_rows db)
        (fun k x => k.1 = o_chain_eid o /\ cancelHeldStallSeconds < age (default 0 (o_cancel_requested_at x.2))))) as (k & g & Hg & x & Hx & Ek & Hx').
      { exists (id, o). split; [by apply elem_of_select_outbox|done]. }
      eexists. split; [apply elem_of_app; right; by apply list_elem_of_fmap_2, Hg|]. cbn [hs_Count hs_ChainEID fst snd].
      split_and!; [by eapply group_count|by rewrite Ek|]. apply cancel_row_raises. eauto.
  - intros [Hh Hca] (h & [([k g] & -> & Hg)%list_elem_of_fmap|([k g] & -> & Hg)%list_elem_of_fmap]%elem_of_app & _ & Hen & Hr);
      cbn [hs_ChainEID fst snd] in *.
    + apply held_row_raises in Hr as (x & Hx & Hbad); [|done]. apply Hbad. apply elem_of_groups in Hg as [-> _].
      apply list_elem_of_filter in Hx as [<- Hx]. destruct x as [id o]. apply elem_of_select_outbox in Hx as [Ho Hs]. by apply Hh.
    + apply cancel_row_raises in Hr as (x & Hx & Ha). apply elem_of_groups in Hg as [-> _].
      apply list_elem_of_filter in Hx as [<- Hx]. destruct x as [id o]. apply elem_of_select_outbox in Hx as [Ho Hs].
      specialize (Hca id o Ho Hs Hen). cbn in *. lia.
Qed.

Lemma packet_issues : packetIssues snapshot = [] <->
  forall guid p, packets db !! guid = Some p -> statsEnabledPacketScope db p ->
    chain_enabled db (p_src_eid p) = true -> chain_enabled db (p_dst_eid p) = true -> p_status p <> ExecutorManualReview.
Proof.
  unfold packetIssues. rewrite (omap_if_nil (fun p => pk_Status p = ExecutorManualReview /\ pk_Count p <> 0 /\
    pk_SrcEID p ∈ activeChains snapshot /\ pk_DstEID p ∈ activeChains snapshot)). setoid_rewrite active_chain.
  cbn [sn_Packets Stats]. unfold packetStats. set (rows := filter _ _). set (key := fun x : bytes * PacketRow => _).
  assert (forall guid p, (guid, p) ∈ rows <-> packets db !! guid = Some p /\ statsEnabledPacketScope db p) as Hrows.
  { intros guid p. unfold rows. rewrite list_elem_of_filter, elem_of_map_to_list. cbn. tauto. }
  split.
  - intros Hn guid p Hp Hsc Hs Hd Hm. apply Hn.
    destruct (proj2 (exists_key key rows (fun k => k = (p_src_eid p, p_dst_eid p, ExecutorManualReview)))) as (k & g & Hg & ->).
    { exists (guid, p). split; [by apply Hrows|]. unfold key. cbn. congruence. }
    eexists. split; [by apply list_elem_of_fmap_2, Hg|]. cbn. split_and!; try done. by eapply group_count.
  - intros Hok (x & ([k g] & -> & Hg)%list_elem_of_fmap & Hm & _ & Hs & Hd). cbn in *.
    destruct (proj1 (exists_key key rows (fun k' => k' = k))) as ([guid p] & [Hp Hsc]%Hrows & <-); [by eauto|].
    cbn in *. by eapply Hok.
Qed.

Lemma job_issues table prefix {J} (status : J -> string) jobs :
  jobIssues table prefix (statusStats (statuses_in_scope status jobs db)) = [] <->
  forall guid p j, packets db !! guid = Some p -> statsEnabledPacketScope db p -> jobs !! guid = Some j -> status j ∉ table.*1.
Proof.
  assert (forall s, s ∈ statuses_in_scope status jobs db <->
    exists guid p j, packets db !! guid = Some p /\ statsEnabledPacketScope db p /\ jobs !! guid = Some j /\ status j = s) as Hs.
  { intros s. unfold statuses_in_scope. rewrite list_elem_of_omap. split.
    - intros ([guid j] & Hj%elem_of_map_to_list & E). cbn in E. destruct (packets db !! guid) as [p|] eqn:Hp; [|done].
      cbn in E. case_decide as Hsc; [|done]. injection E as <-. eauto 10.
    - intros (guid & p & j & Hp & Hsc & Hj & <-). exists (guid, j). split; [by apply elem_of_map_to_list|]. cbn.
      rewrite Hp. cbn. by rewrite decide_True. }
  unfold jobIssues, statusStats. rewrite omap_nil. split.
  - intros Hn guid p j Hp Hsc Hj Hin. destruct (proj2 (exists_key (fun s => s) (statuses_in_scope status jobs db)
      (fun k => k = status j))) as (k & g & Hg & ->); [exists (status j); split; [apply Hs; eauto 10|done]|].
    specialize (Hn _ (list_elem_of_fmap_2 _ _ _ Hg)). cbn in Hn. rewrite decide_False in Hn by (by eapply group_count).
    destruct (list_find _ table) as [[i x]|] eqn:E; [done|]. apply list_find_None in E. rewrite list.Forall_forall in E.
    apply list_elem_of_fmap in Hin as (x & Ex & Hx). by eapply E.
  - intros Hok x ([s g] & -> & Hg)%list_elem_of_fmap. cbn. case_decide; [done|].
    destruct (group_some _ _ _ _ Hg) as [s' Hs']. apply elem_of_groups in Hg as [-> _].
    apply list_elem_of_filter in Hs' as [-> (guid & p & j & Hp & Hsc & Hj & <-)%Hs].
    destruct (list_find _ table) as [[i x]|] eqn:E; [|done]. apply list_find_Some in E as (Hx & Ex & _).
    destruct (Hok guid p j Hp Hsc Hj). apply list_elem_of_fmap. exists x. split; [done|]. by eapply list_elem_of_lookup_2.
Qed.

(** The progress of a stream of an active chain is its cursor row. *)
Lemma progress_lookup eid stream : chain_enabled db eid = true ->
  cursorProgress snapshot !! (eid, stream) = indexer_cursors db !! (eid, stream).
Proof.
  intros Hc. unfold cursorProgress. cbn [sn_IndexerCursors Stats]. unfold indexerCursorStats.
  set (step := fun m cursor => _).
  assert (forall l (m : gmap (Z * string) Z), NoDup l.*1 -> (forall k, k ∈ l.*1 -> m !! k = None) ->
    fold_left step ((fun x => mkCursorStat x.1.1 x.1.2 x.2) <$> l) m !! (eid, stream) =
    match (list_to_map l : gmap (Z * string) Z) !! (eid, stream) with Some n => Some n | None => m !! (eid, stream) end) as Hf.
  { induction l as [|[[e s] n] l IH]; intros m Hnd Hm; [done|]. cbn [fmap list_fmap fold_left fst snd] in Hnd |- *.
    apply NoDup_cons in Hnd as [Hnew Hnd]. rewrite IH; [|done|].
    - rewrite list_to_map_cons. unfold step. cbn [ic_ChainEID ic_Stream ic_LastBlock].
      destruct (decide ((e, s) = (eid, stream))) as [[= -> ->]|Hne].
      + rewrite decide_True by (by rewrite active_chain). rewrite !lookup_insert_eq. by rewrite not_elem_of_list_to_map_1.
      + rewrite (lookup_insert_ne (list_to_map l)) by done. case_decide; [|done]. by rewrite lookup_insert_ne.
    - intros k Hk. unfold step. cbn [ic_ChainEID ic_Stream ic_LastBlock]. case_decide.
      + rewrite lookup_insert_ne by (intros E; by rewrite E in Hnew). apply Hm. cbn. by right.
      + apply Hm. cbn. by right. }
  rewrite Hf; [|apply NoDup_fst_map_to_list|done]. rewrite list_to_map_to_list. by destruct (indexer_cursors db !! _).
Qed.

Lemma cursor_issues : cursorIssues snapshot services = [] <->
  forall id pw, pathways db !! id = Some pw -> live_pathway pw ->
    Forall started (cursorsOf services (mkPathwayStat (pw_src_eid pw) (pw_dst_eid pw) (pw_enabled pw) (pw_paused pw))).
Proof.
  assert (forall x, x ∈ requiredCursors snapshot services <-> exists id pw, pathways db !! id = Some pw /\ live_pathway pw /\
    x ∈ cursorsOf services (mkPathwayStat (pw_src_eid pw) (pw_dst_eid pw) (pw_enabled pw) (pw_paused pw))) as Hreq.
  { intros x. unfold requiredCursors. rewrite elem_of_list_to_set, list_elem_of_bind. setoid_rewrite list_elem_of_filter.
    setoid_rewrite <- active_pathway. rewrite <- (exists_pathway (fun p => activePathway snapshot p /\ x ∈ cursorsOf services p)).
    naive_solver. }
  assert (forall x, x ∈ requiredCursors snapshot services -> cursorProgress snapshot !! x = indexer_cursors db !! x) as Hp.
  { intros [eid stream] (id & pw & _ & (_ & Hs%chain_enabled_on & Hd%chain_enabled_on) & Hx)%Hreq. apply progress_lookup. unfold cursorsOf in Hx.
    cbn [ps_SrcEID ps_DstEID] in Hx. destruct (rs_ExecutorEnabled services), (rs_DVNEnabled services); set_solver. }
  unfold cursorIssues. rewrite omap_nil. setoid_rewrite elem_of_elements. split.
  - intros Hn id pw Hpw Hl. apply list.Forall_forall. intros x Hx. assert (x ∈ requiredCursors snapshot services) as Hr
      by (apply Hreq; eauto). specialize (Hn x Hr). rewrite Hp in Hn by done. unfold started.
    destruct (indexer_cursors db !! x) as [n|]; [|done]. case_decide; [done|]. eauto.
  - intros Hok x Hr. rewrite Hp by done. apply Hreq in Hr as (id & pw & Hpw & Hl & Hx).
    specialize (Hok id pw Hpw Hl). rewrite list.Forall_forall in Hok. destruct (Hok x Hx) as (n & -> & Hn). by rewrite decide_False.
Qed.

Lemma cursor_issues_roles : cursorIssues snapshot services = [] <->
  (rs_ExecutorEnabled services = true -> forall id pw, pathways db !! id = Some pw -> live_pathway pw ->
    started (pw_src_eid pw, executorSourceStream) /\ started (pw_dst_eid pw, executorDestStream)) /\
  (rs_DVNEnabled services = true -> forall id pw, pathways db !! id = Some pw -> live_pathway pw ->
    started (pw_src_eid pw, dvnSourceStream) /\ started (pw_dst_eid pw, dvnDestStream)).
Proof.
  rewrite cursor_issues. unfold cursorsOf. cbn [ps_SrcEID ps_DstEID].
  destruct (rs_ExecutorEnabled services), (rs_DVNEnabled services); cbn [app]; repeat setoid_rewrite list.Forall_cons;
    setoid_rewrite list.Forall_nil; naive_solver.
Qed.

Lemma executor_table_status s : s ∉ executor_table.*1 <-> s <> ExecutorLzReceiveFailed /\ s <> ExecutorManualReview.
Proof. unfold executor_table. cbn. rewrite !not_elem_of_cons. pose proof (not_elem_of_nil s). tauto. Qed.
Lemma dvn_table_status s : s ∉ dvn_table.*1 <-> s <> DVNQuorumConflict /\ s <> DVNReorgDetected /\ s <> DVNManualReview.
Proof. unfold dvn_table. cbn. rewrite !not_elem_of_cons. pose proof (not_elem_of_nil s). tauto. Qed.

Lemma executor_issues : executorIssues snapshot services = [] <->
  (rs_ExecutorEnabled services = true -> forall guid p e, packets db !! guid = Some p ->
    statsEnabledPacketScope db p -> executor_jobs db !! guid = Some e ->
    e_status e <> ExecutorLzReceiveFailed /\ e_status e <> ExecutorManualReview).
Proof.
  unfold executorIssues. destruct (rs_ExecutorEnabled services); [|by split]. cbn [sn_ExecutorJobs Stats].
  rewrite job_issues. setoid_rewrite executor_table_status. by split; [intros Hok _|intros Hok; apply Hok].
Qed.

Lemma dvn_issues : dvnIssues snapshot services = [] <->
  (rs_DVNEnabled services = true -> forall guid p d, packets db !! guid = Some p ->
    statsEnabledPacketScope db p -> dvn_jobs db !! guid = Some d ->
    d_status d <> DVNQuorumConflict /\ d_status d <> DVNReorgDetected /\ d_status d <> DVNManualReview).
Proof.
  unfold dvnIssues. destruct (rs_DVNEnabled services); [|by split]. cbn [sn_DVNJobs Stats].
  rewrite job_issues. setoid_rewrite dvn_table_status. by split; [intros Hok _|intros Hok; apply Hok].
Qed.

(** C10: readiness answers "ready" on the statistics of a database exactly when its tables need no operator, stated on their
    columns: enabled chains and live pathways are not paused, every stream of an enabled role has a cursor that advanced, no
    failed row of a served packet is out of retries, no lane is held for good, out of replacements or past its stall limit, no
    row lost its durable attempt, no pricing transaction gates price writes for too long, and no packet or job of an enabled
    pathway waits for review. *)
Theorem ready_iff : rp_Ready (EvaluateWithServices snapshot services) = true <-> db_ready.
Proof.
  unfold EvaluateWithServices. cbn [rp_Ready]. rewrite bool_decide_eq_true, !app_nil.
  rewrite chain_issues, pathway_issues, outbox_issues, held_issues, orphaned_issues, pricing_issues, packet_issues,
    executor_issues, dvn_issues, cursor_issues_roles.
  repeat setoid_rewrite chain_enabled_on. repeat setoid_rewrite scope_served. setoid_rewrite hold_stat.
  setoid_rewrite pricing_scope. split.
  - intros (H1 & H2 & H3 & [H4 H5] & H6 & H7 & H8 & H9 & H10 & H11 & H12). constructor; try done.
    + intros id o Ho Hon Hp Hout. pose proof (proj1 Hout) as Hf. apply (H3 id o Ho Hf); [by apply row_scope|done|].
      by apply retry_exhausted.
    + intros id o t Ho Ht Hnc Hnf Hon. specialize (H5 id o Ho). rewrite Ht in H5. apply H5; [|done]. unfold cancel_pending. by rewrite Ht.
    + intros id o Ho Hon Hs Ha. apply (H6 id o Ho). unfold orphaned. by rewrite chain_enabled_on.
    + intros id o Ho Hon Hpr. by apply (H7 id o Ho).
  - intros []. split_and!; try done.
    + intros id o Ho Hf Hsc Hon Hx. apply (dy_failed0 id o Ho Hon); [by apply row_scope|by apply retry_exhausted].
    + intros id o Ho (Hc & Hnc & Hnf) Hon. destruct (o_cancel_requested_at o) as [t|] eqn:Ht; [|done]. by eapply dy_cancels0.
    + intros id o Ho (Hs & Ha & Hon). apply chain_enabled_on in Hon. by apply (dy_orphaned0 id o Ho).
    + intros id o Ho [Hon Hpr]. by apply (dy_pricing0 id o Ho).
Qed.
End ready.
