(* ===== verification/FeeAccounting.v ===== *)
(** * Fee accounting (go/internal/feeaccounting/reconciler.go)

    The reconciler prices the gas of mined worker transactions in the source chain's native
    token, with the price sources and the selection policy of the price bot. *)

From S2P Require Import Prelude GoErr BigUtil Schema Outbox Attempts Jobs Store Proc Registry PriceMath PriceSelect Pricing Stats.
From stdpp Require Import base gmap list strings numbers.
From Stdlib Require Import ZArith QArith Lia.
#[local] Open Scope Z_scope.
#[local] Open Scope worker_scope.

Definition defaultInterval : Z := Minute.
Definition defaultLimit : Z := 100.

Record PriceSelectionPolicy := mkSelection { sp_MaxDeviationBps : Z; sp_SourceRequestTimeout : Z }.
Record FeeSettings := mkFeeSettings { fa_Interval : Z; fa_Limit : Z; fa_PriceSelection : PriceSelectionPolicy }.
Record Reconciler := mkReconciler { rc_sources : gmap Z ChainSources; rc_settings : FeeSettings }.

Definition normalizeSettings (settings : FeeSettings) : FeeSettings :=
  mkFeeSettings (if decide (fa_Interval settings <= 0) then defaultInterval else fa_Interval settings)
    (if decide (fa_Limit settings <= 0) then defaultLimit else fa_Limit settings) (fa_PriceSelection settings).

(** New of a store that is not nil. *)
Definition newReconciler (sources : gmap Z ChainSources) (settings : FeeSettings) : Reconciler :=
  mkReconciler sources (normalizeSettings settings).

(** The sources and the policy, as the price reader of [Pricing] takes them. *)
Definition priceReader (r : Reconciler) : BotConfig :=
  mkBotConfig (mkRegistry ∅ ∅) (mkSettings true "" 0 0 (sp_MaxDeviationBps (fa_PriceSelection (rc_settings r))) 0 0
    (sp_SourceRequestTimeout (fa_PriceSelection (rc_settings r))) 0) (rc_sources r).

Definition cListUnpriced (limit : Z) : store_call (list UnpricedWorkerReceiptCost) :=
  readCall (fun _ => ListUnpricedWorkerReceiptCosts limit).
Definition cMarkPriced (id : Z) (cost : option Z) : store_call unit :=
  opCall (fun _ => OpCostPriced id cost) (fun env db => MarkTxReceiptCostPriced id cost (ce_now env) db) (fun _ _ => eq_refl).

Section reconciler.
Context (r : Reconciler).

Definition priceReceiptCost (cost : UnpricedWorkerReceiptCost) : bot Z :=
  if decide (negativeOrNil (uw_GasCostDstWei cost)) then fails (PText "receipt destination gas cost must be non-negative")
  else if decide (uw_ChainEID cost <> uw_DstEID cost)
    then fails (PText "receipt chain eid does not match packet destination eid")
  else prices ← PathwayNativePrices (priceReader r) (uw_SrcEID cost) (uw_DstEID cost);
    liftB (text (ConvertDstWeiToSrcWei (uw_GasCostDstWei cost) prices.1 prices.2)).

(** The loop over the batch: what was processed, and the error that ended it. A receipt that
    cannot be priced is deferred. *)
Fixpoint processCosts (costs : list UnpricedWorkerReceiptCost) (processed : Z) : bot (Z * option perr) :=
  match costs with
  | [] => mret (processed, None)
  | cost :: rest =>
    ctx ← askB PCtxErr;
    match ctx with
    | Some e => mret (processed, Some (PCtx e))
    | None =>
      priced ← attempt (priceReceiptCost cost);
      match priced with
      | Err _ => processCosts rest processed
      | Ok gasCostSrcWei =>
        marked ← callStore (cMarkPriced (uw_ID cost) (Some gasCostSrcWei));
        match marked with
        | Err e => mret (processed, Some (PDB e))
        | Ok _ => processCosts rest (processed + 1)
        end
      end
    end
  end.

Definition ProcessCostsOnce : bot (Z * option perr) :=
  costs ← callStore (cListUnpriced (fa_Limit (rc_settings r)));
  match costs with
  | Err e => mret (0, Some (PDB e))
  | Ok costs => processCosts costs 0
  end.

Definition processOrFail : bot unit :=
  x ← ProcessCostsOnce; match x.2 with Some e => fails e | None => mret tt end.

(** At most [n] ticks of Run's loop; the interval ticker is its only one. *)
Fixpoint reconcileTicks (n : nat) : bot unit :=
  match n with
  | O => mret tt
  | S n =>
    t ← askB PTick;
    match t with
    | TickDone e => fails (PCtx e)
    | _ => _ ← processOrFail; reconcileTicks n
    end
  end.

Definition RunReconciler (n : nat) : bot unit := _ ← processOrFail; reconcileTicks n.
End reconciler.
