(* ===== verification/FeeAccountingProofs.v ===== *)
(** * Every priced cost follows from accepted prices *)

From S2P Require Import Prelude GoErr BigUtil Schema Outbox Attempts Jobs Store Proc Registry PriceMath PriceSelect Pricing BotLogic Stats FeeAccounting.
From stdpp Require Import base gmap list strings numbers sorting.
From Stdlib Require Import ZArith QArith Lia.
#[local] Open Scope Z_scope.
#[local] Open Scope worker_scope.

Section justified.
Context (r : Reconciler).

(** An earlier read of the tables showed the mined transaction [id] of a packet from [srcEID] to
    [dstEID], sent on the destination chain, with its gas cost and no price. *)
Definition owed (past : past_t) (id srcEID dstEID dstWei : Z) : Prop :=
  exists db o guid p, EvStore None db ∈ past /\ tx_outbox db !! id = Some o /\ o_guid o = Some guid /\
  packets db !! guid = Some p /\ p_src_eid p = srcEID /\ p_dst_eid p = dstEID /\ o_chain_eid o = dstEID /\
  o_purpose o ∈ worker_purposes /\ o_receipt_gas_cost_dst_wei o = Some dstWei /\ o_receipt_gas_cost_src_wei o = None /\
  0 <= dstWei.

(** The mark of one cost: owed, and converted at prices the source policy accepted. *)
Definition FeeP (past : past_t) (e : event pquery) : Prop :=
  match e with
  | EvStore (Some op) _ => exists id srcEID dstEID dstWei srcWei src dst,
      op = OpCostPriced id (Some srcWei) /\ owed past id srcEID dstEID dstWei /\
      prices_read (priceReader r) past srcEID dstEID (Some src, Some dst) /\
      (0 < src)%Q /\ (0 < dst)%Q /\ covers dstWei srcWei src dst
  | _ => True
  end.

Lemma FeeP_ask past R (q : pquery R) a db : FeeP past (EvAsk q a db).
Proof. done. Qed.

Definition anyState (past : past_t) (s : BotState) : Prop := True.
Lemma any_stable : stable anyState.
Proof. done. Qed.
#[local] Hint Resolve any_stable FeeP_ask : core.
Abbreviation ok := (spec FeeP anyState).
Tactic Notation "bind" ident(x) ident(Hx) := eapply spec_bind; [|intros x ? ? Hx; cbn beta in Hx].

(** ** Listing *)

(** The listed cost is a row of the tables that were read. *)
Definition cost_listed (past : past_t) (c : UnpricedWorkerReceiptCost) : Prop :=
  exists db o guid p, EvStore None db ∈ past /\ tx_outbox db !! uw_ID c = Some o /\ o_guid o = Some guid /\
  packets db !! guid = Some p /\ p_src_eid p = uw_SrcEID c /\ p_dst_eid p = uw_DstEID c /\ o_chain_eid o = uw_ChainEID c /\
  o_purpose o ∈ worker_purposes /\ o_receipt_gas_cost_dst_wei o = uw_GasCostDstWei c /\ o_receipt_gas_cost_src_wei o = None.

Lemma cost_listed_mono past past' c : past `prefix_of` past' -> cost_listed past c -> cost_listed past' c.
Proof. intros [l ->] (db & o & g & p & Hin & H). exists db, o, g, p. split; [set_solver|done]. Qed.

Lemma listing limit db costs c : ListUnpricedWorkerReceiptCosts limit db = Ok costs -> c ∈ costs ->
  exists x, x ∈ map_to_list (tx_outbox db) /\ exists g t, unpriced_row db x = Some (g, c, t).
Proof.
  unfold ListUnpricedWorkerReceiptCosts. do 2 (case_decide; [|done]). intros [= <-] (y & -> & Hy)%list_elem_of_fmap.
  destruct y as [[g c] t]. apply elem_of_take in Hy as (i & Hi & _). apply list_elem_of_lookup_2 in Hi.
  rewrite merge_sort_Permutation in Hi. apply list_elem_of_omap in Hi as (x & Hx & E). eauto.
Qed.

Lemma listed_row limit past db costs c : ListUnpricedWorkerReceiptCosts limit db = Ok costs -> c ∈ costs ->
  cost_listed (past ++ [EvStore None db]) c.
Proof.
  intros E Hc. destruct (listing _ _ _ _ E Hc) as ([id o] & Ho%elem_of_map_to_list & g & t & Hu).
  unfold unpriced_row in Hu. cbn in Hu. destruct (o_guid o) as [guid|] eqn:Eg; [|done]. cbn in Hu.
  destruct (packets db !! guid) as [p|] eqn:Ep; [|done]. cbn in Hu. case_decide as Hd; [|done]. injection Hu as <- <- <-.
  exists db, o, guid, p. cbn. destruct Hd as (? & ? & ?). split_and!; try done. set_solver.
Qed.

Lemma spec_list past0 limit :
  ok past0 (callStore (cListUnpriced limit)) (fun res past => match res with Ok costs => Forall (cost_listed past) costs | Err _ => True end).
Proof.
  apply spec_callStore; [auto|done|]. intros env past db0 db1 res [E|(msg & -> & _)]; [|done]. cbn in E.
  injection E as <- <-. destruct (ListUnpricedWorkerReceiptCosts limit db0) as [costs|] eqn:El; [|done].
  apply list.Forall_forall. intros c Hc. by eapply listed_row.
Qed.

(** ** Pricing *)

Definition priced (past : past_t) (c : UnpricedWorkerReceiptCost) (srcWei : Z) : Prop :=
  exists src dst dstWei, uw_GasCostDstWei c = Some dstWei /\ 0 <= dstWei /\ uw_ChainEID c = uw_DstEID c /\
  prices_read (priceReader r) past (uw_SrcEID c) (uw_DstEID c) (Some src, Some dst) /\ (0 < src)%Q /\ (0 < dst)%Q /\
  covers dstWei srcWei src dst.

Lemma Convert_covers dstWei prices w : ConvertDstWeiToSrcWei dstWei prices.1 prices.2 = Ok w ->
  exists wei src dst, dstWei = Some wei /\ 0 <= wei /\ prices = (Some src, Some dst) /\ (0 < src)%Q /\ (0 < dst)%Q /\ covers wei w src dst.
Proof.
  destruct prices as [src dst]. unfold ConvertDstWeiToSrcWei. cbn [fst snd]. do 3 (case_decide; [|done]). intros [= <-].
  destruct dstWei as [wei|]; [|done]. destruct src as [src|]; [|done]. destruct dst as [dst|]; [|done].
  cbn [notPositiveRat negativeOrNil] in *. assert (0 < src)%Q as Hs by (apply ratSign_pos; lia). assert (0 < dst)%Q as Hd by (apply ratSign_pos; lia).
  exists wei, src, dst. split_and!; try done; [lia|]. rewrite ceilRat_ceiling. by apply ceil_covers.
Qed.

Lemma spec_price past0 c : ok past0 (priceReceiptCost r c) (fun w past => priced past c w).
Proof.
  unfold priceReceiptCost. case_decide; [apply spec_fails|]. case_decide as Heid; [apply spec_fails|].
  bind prices Hp; [apply spec_PathwayNativePrices; auto|]. apply spec_lift.
  intros w past E Hpre. destruct (ConvertDstWeiToSrcWei _ _ _) as [w'|] eqn:Ec; [|done]. injection E as ->.
  destruct (Convert_covers _ _ _ Ec) as (wei & src & dst & Ew & Hw & -> & Hs & Hd & Hcov).
  exists src, dst, wei. split_and!; try done. by eapply prices_mono.
Qed.

Lemma spec_mark past0 c w : cost_listed past0 c -> priced past0 c w ->
  ok past0 (callStore (cMarkPriced (uw_ID c) (Some w))) (fun _ _ => True).
Proof.
  intros (db & o & g & p & Hin & Ho & Hg & Hp & Hs & Hd & Hc & Hpu & Hco & Hun) (src & dst & dstWei & Ew & Hw & Heid & Hr & Hps & Hpd & Hcov).
  apply spec_callStore; [auto| |done]. intros env past db' Hpre.
  exists (uw_ID c), (uw_SrcEID c), (uw_DstEID c), dstWei, w, src, dst. split_and!; try done; [|by eapply prices_mono].
  exists db, o, g, p. split_and!; try done; [|congruence..]. destruct Hpre as [l ->]. set_solver.
Qed.

Lemma spec_costs past0 costs n : Forall (cost_listed past0) costs -> ok past0 (processCosts r costs n) (fun _ _ => True).
Proof.
  revert past0 n. induction costs as [|c costs IH]; intros past0 n Hl; cbn [processCosts]; [by apply spec_ret|].
  apply Forall_cons in Hl as [Hc Hl].
  assert (forall past m, past0 `prefix_of` past -> ok past (processCosts r costs m) (fun _ _ => True)) as Hrest.
  { intros past m Hpre. apply IH. eapply list.Forall_impl; [exact Hl|]. intros x. by apply cost_listed_mono. }
  bind ctx Hctx; [apply spec_askB; auto|]. destruct ctx; [by apply spec_ret|].
  bind w Hw; [apply spec_attempt, spec_price|]. destruct w as [w|]; [|apply Hrest; by etrans].
  bind marked Hm; [apply spec_mark; [eapply cost_listed_mono; [|done]; by etrans|done]|].
  destruct marked; [|by apply spec_ret]. apply Hrest. etrans; [|done]. by etrans.
Qed.

Lemma spec_process past0 : ok past0 (processOrFail r) (fun _ _ => True).
Proof.
  unfold processOrFail, ProcessCostsOnce. eapply spec_bind with (R1 := fun _ _ => True).
  - bind costs Hc; [apply spec_list|]. destruct costs; [by apply spec_costs|by apply spec_ret].
  - intros x past _ _. destruct x.2; [apply spec_fails|by apply spec_ret].
Qed.

Lemma spec_RunReconciler past0 n : ok past0 (RunReconciler r n) (fun _ _ => True).
Proof.
  unfold RunReconciler. bind x Hx; [apply spec_process|]. clear. revert past1. induction n as [|n IH]; intros past1; cbn [reconcileTicks].
  - by apply spec_ret.
  - bind t Ht; [apply spec_askB; auto|]. destruct t; [apply spec_fails|..]; (bind y Hy; [apply spec_process|apply IH]).
Qed.

(** C8: whatever the sources, the clock and the other workers answer, the only writes of the fee reconciler are cost marks, and
    each one is justified: an earlier read showed the mined, unpriced transaction of a packet on its destination chain, both
    native prices passed the source policy before (or the chains share their asset), and the source wei recorded is the
    conversion of the gas cost at these prices, rounded up by less than one wei. *)
Theorem cost_marks_justified n s db tr1 op db1 tr2 db' res :
  behaves (RunReconciler r n s) db (tr1 ++ EvStore (Some op) db1 :: tr2) db' res ->
  exists id srcEID dstEID dstWei srcWei src dst,
    op = OpCostPriced id (Some srcWei) /\ owed tr1 id srcEID dstEID dstWei /\
    prices_read (priceReader r) tr1 srcEID dstEID (Some src, Some dst) /\
    (0 < src)%Q /\ (0 < dst)%Q /\ covers dstWei srcWei src dst.
Proof.
  intros Hb. eapply (safe_event FeeP) in Hb; [exact Hb|].
  eapply safe_mono; [|by apply (spec_RunReconciler [] n s [] db)]. done.
Qed.
End justified.

(** ** A concrete run

    The reverted transaction of [db3] ran on chain 7 (native token at half a dollar) for a packet
    of chain 8 (native token at 2000 dollars). *)

Definition fee_sources : gmap Z ChainSources :=
  let cs asset := mkChainSources (mkReader "chainlink" true 3600000000000) [] true None asset in
  {[ 7 := cs "pol"; 8 := cs "eth" ]}%string.
Definition sample_reconciler : Reconciler := newReconciler fee_sources (mkFeeSettings 0 0 (mkSelection 500 5000000000)).

Definition fee_now : Z := 1700000000 * 1000000000.
Definition fee_world (R : Type) (q : pquery R) : R :=
  match q with
  | PSources eid _ => ([(0%nat, Ok (mkSourcePrice "chainlink" (Some (if decide (eid = 8)%Z then 2000 # 1 else 1 # 2)%Q) fee_now))],
                       errNew "context deadline exceeded")
  | PGas _ => Ok None
  | PNow => fee_now
  | PHead _ => Ok (None, 0)
  | PCall _ _ _ _ => Ok []
  | PCtxErr => None
  | PDone => errNew "context canceled"
  | PTick => TickDone (errNew "context canceled")
  end.
Definition fee_run := simulate (RunReconciler sample_reconciler 1 (mkBotState ∅ ∅ ∅ ∅ ∅ ∅))
  (fun db => mkEnv 300000000 300000000 db "") fee_world db3.

Lemma fee_run_behaves : behaves (RunReconciler sample_reconciler 1 (mkBotState ∅ ∅ ∅ ∅ ∅ ∅)) db3 fee_run.1.1 fee_run.1.2 (Some fee_run.2).
Proof. unfold fee_run. apply simulate_behaves. Qed.

Lemma cost_marks_justified_witness :
  exists id srcEID dstEID dstWei srcWei src dst,
    OpCostPriced 1 (Some 1) = OpCostPriced id (Some srcWei) /\ owed (take 6 fee_run.1.1) id srcEID dstEID dstWei /\
    prices_read (priceReader sample_reconciler) (take 6 fee_run.1.1) srcEID dstEID (Some src, Some dst) /\
    (0 < src)%Q /\ (0 < dst)%Q /\ covers dstWei srcWei src dst.
Proof.
  assert (fee_run.1.1 !! 6%nat = Some (EvStore (Some (OpCostPriced 1 (Some 1))) db3)) as E by (vm_compute; reflexivity).
  apply (cost_marks_justified sample_reconciler 1 (mkBotState ∅ ∅ ∅ ∅ ∅ ∅) db3 (take 6 fee_run.1.1) (OpCostPriced 1 (Some 1)) db3
    (drop 7 fee_run.1.1) fee_run.1.2 (Some fee_run.2)).
  rewrite (take_drop_middle _ _ _ E). apply fee_run_behaves.
Defined.
