(* ===== verification/Config.v ===== *)
(** * The startup configuration (go/internal/config/config.go)

    The records the YAML file decodes into, the defaults [load] fills in and every check of
    [ValidateConfig]. Decoding the file is the YAML library's; the checks run on what it decoded.

    A Go map is ranged over in an unspecified order: [range] is a parameter that lists a
    map's entries in some order, and everything proved holds for every such order. *)

From S2P Require Import Prelude GoErr BigUtil StateReads Registry PriceMath PriceSelect PriceSources.
From stdpp Require Import base gmap list strings numbers pretty.
From Stdlib Require Import ZArith Lia Ascii.
#[local] Open Scope Z_scope.

(** ** Constants *)

Definition ChainFamilyEVM : string := "evm".
Definition defaultIndexerPollIntervalSeconds : Z := 5.
Definition defaultTxManagerStaleBroadcastReplacementAfterSeconds : Z := 900.
(** uint64(math.MaxInt64 / int64(time.Second)) *)
Definition maxDurationSeconds : Z := (2 ^ 63 - 1) / 1000000000.

(** ** Records *)

(** *bool: nil when the file omits it. *)
Record ServicesConfig := mkServices { sv_Executor : option bool; sv_DVN : option bool }.

Record PricingTxPolicyConfig := mkTxPolicy {
  tp_MaxFeePerGasWei : string; tp_MaxPriorityFeePerGasWei : string; tp_MinNativeBalanceWei : string }.

Record CoinMarketCapPricingConfig := mkCMC { cmc_ID : Z; cmc_MaxAgeSeconds : Z }.
Record CoinGeckoPricingConfig := mkCG { cg_ID : string; cg_MaxAgeSeconds : Z }.
Record ChainlinkPricingConfig := mkCL {
  clc_FeedAddress : Address; clc_ExpectedDescription : string; clc_MaxAgeSeconds : Z }.
Record UniswapPricingConfig := mkUni {
  uc_PoolAddress : Address; uc_TokenIn : Address; uc_TokenOut : Address; uc_TWAPWindowSeconds : Z;
  uc_MaxBlockAgeSeconds : Z; uc_MinHarmonicMeanLiquidity : string }.

Record PricingChainConfig := mkPricingChain {
  pc_EID : Z; pc_TxPolicy : PricingTxPolicyConfig; pc_NativeAssetID : string;
  pc_DataFeePerByteWei : string; pc_PrimarySource : string; pc_SanitySources : list string;
  pc_CoinMarketCap : CoinMarketCapPricingConfig; pc_CoinGecko : CoinGeckoPricingConfig;
  pc_Chainlink : ChainlinkPricingConfig; pc_Uniswap : UniswapPricingConfig }.

Record PricingConfig := mkPricing {
  pr_Enabled : bool; pr_Signer : Address; pr_IntervalSeconds : Z; pr_StaleAfterSeconds : Z;
  pr_MaxDeviationBps : Z; pr_MinUpdateDeviationBps : Z; pr_HeartbeatSeconds : Z;
  pr_SourceRequestTimeoutSeconds : Z; pr_GasSpikeBps : Z; pr_CoinMarketCapBaseURL : string;
  pr_CoinMarketCapAPIKeyEnv : string; pr_CoinGeckoBaseURL : string; pr_CoinGeckoAPIKeyEnv : string;
  pr_Chains : list PricingChainConfig }.
#[export] Instance eta_PricingConfig : Eta PricingConfig := fun c =>
  mkPricing (pr_Enabled c) (pr_Signer c) (pr_IntervalSeconds c) (pr_StaleAfterSeconds c)
    (pr_MaxDeviationBps c) (pr_MinUpdateDeviationBps c) (pr_HeartbeatSeconds c)
    (pr_SourceRequestTimeoutSeconds c) (pr_GasSpikeBps c) (pr_CoinMarketCapBaseURL c)
    (pr_CoinMarketCapAPIKeyEnv c) (pr_CoinGeckoBaseURL c) (pr_CoinGeckoAPIKeyEnv c) (pr_Chains c).

Record KeystoreSignerConfig := mkKeystore {
  ks_Path : string; ks_PasswordEnv : string; ks_PasswordFile : string }.
Record KMSSignerConfig := mkKMS {
  kms_KeyID : string; kms_Region : string; kms_Address : Address; kms_Endpoint : string }.
Record SignerConfig := mkSignerConfig {
  sg_ID : Address; sg_Type : string; sg_Keystore : KeystoreSignerConfig; sg_KMS : KMSSignerConfig }.

Record Config := mkConfig {
  cf_DatabaseURL : string; cf_ListenAddress : string; cf_Services : ServicesConfig;
  cf_StaleBroadcastReplacementAfterSeconds : Z; cf_Pricing : PricingConfig;
  cf_Signers : list SignerConfig; cf_Chains : list ChainConfig; cf_Pathways : list PathwayConfig }.
#[export] Instance eta_Config : Eta Config := fun c =>
  mkConfig (cf_DatabaseURL c) (cf_ListenAddress c) (cf_Services c)
    (cf_StaleBroadcastReplacementAfterSeconds c) (cf_Pricing c) (cf_Signers c) (cf_Chains c) (cf_Pathways c).

#[export] Instance eta_ChainConfig : Eta ChainConfig := fun c =>
  mkChainConfig (ccf_EID c) (ccf_Name c) (ccf_Family c) (ccf_ChainID c) (ccf_EndpointAddress c)
    (ccf_Confirmations c) (ccf_StartBlockNumber c) (ccf_IndexerQueryBlockRange c)
    (ccf_IndexerPollIntervalSeconds c) (ccf_LegacyTransactions c) (ccf_RPCURLs c) (ccf_Executor c) (ccf_DVN c).
#[export] Instance eta_Pathway : Eta Pathway := fun p =>
  mkPathway (pw_SrcEID p) (pw_DstEID p) (pw_SrcOApp p) (pw_DstOApp p) (pw_SendLib p) (pw_ReceiveLib p)
    (pw_SourceWorkers p) (pw_DestinationOpenDVN p) (pw_SendRequiredDVNs p) (pw_ReceiveRequiredDVNs p)
    (pw_DVNMode p) (pw_Pricing p) (pw_Enabled p) (pw_MaxMessageSize p) (pw_MinLzReceiveGas p) (pw_MaxLzReceiveGas p).

Definition EnabledOrDefault (enabled : option bool) (defaultEnabled : bool) : bool :=
  default defaultEnabled enabled.
Definition ExecutorEnabled (c : Config) : bool := EnabledOrDefault (sv_Executor (cf_Services c)) true.
Definition DVNEnabled (c : Config) : bool := EnabledOrDefault (sv_DVN (cf_Services c)) true.

(** ** Defaults *)

Definition orDefault (value dflt : Z) : Z := if decide (value = 0) then dflt else value.

Definition pricingDefaults (p : PricingConfig) : PricingConfig :=
  if negb (pr_Enabled p) then p else
  let p := p <| pr_IntervalSeconds := orDefault (pr_IntervalSeconds p) 300 |> in
  let p := p <| pr_StaleAfterSeconds := orDefault (pr_StaleAfterSeconds p) 1800 |> in
  let p := p <| pr_MaxDeviationBps := orDefault (pr_MaxDeviationBps p) 500 |> in
  let p := p <| pr_MinUpdateDeviationBps := orDefault (pr_MinUpdateDeviationBps p) 50 |> in
  let p := p <| pr_HeartbeatSeconds := orDefault (pr_HeartbeatSeconds p) (pr_StaleAfterSeconds p / 2) |> in
  let p := p <| pr_SourceRequestTimeoutSeconds := orDefault (pr_SourceRequestTimeoutSeconds p) 10 |> in
  p <| pr_GasSpikeBps := orDefault (pr_GasSpikeBps p) 1000 |>.

Definition chainDefaults (chain : ChainConfig) : ChainConfig :=
  let chain := chain <| ccf_IndexerQueryBlockRange := orDefault (ccf_IndexerQueryBlockRange chain) 500 |> in
  chain <| ccf_IndexerPollIntervalSeconds :=
             orDefault (ccf_IndexerPollIntervalSeconds chain) defaultIndexerPollIntervalSeconds |>.

Definition pathwayDefaults (p : PathwayConfig) : PathwayConfig :=
  if decide (pw_DVNMode p = ""%string) then p <| pw_DVNMode := DVNModeShadow |> else p.

(** The steps of [load] between decoding and validation; [env] is DATABASE_URL. *)
Definition applyDefaults (applyEnv : bool) (env : string) (c : Config) : Config :=
  let c := if applyEnv && bool_decide (env <> ""%string) then c <| cf_DatabaseURL := env |> else c in
  let c := if decide (cf_ListenAddress c = ""%string) then c <| cf_ListenAddress := ":9090"%string |> else c in
  let c := c <| cf_StaleBroadcastReplacementAfterSeconds :=
                  orDefault (cf_StaleBroadcastReplacementAfterSeconds c)
                    defaultTxManagerStaleBroadcastReplacementAfterSeconds |> in
  let c := c <| cf_Pricing := pricingDefaults (cf_Pricing c) |> in
  let c := c <| cf_Chains := chainDefaults <$> cf_Chains c |> in
  c <| cf_Pathways := pathwayDefaults <$> cf_Pathways c |>.

(** ** Strings *)

Definition is_upper (c : ascii) : bool := let n := N_of_ascii c in bool_decide (65 <= n /\ n <= 90)%N.
Definition is_digit (c : ascii) : bool := let n := N_of_ascii c in bool_decide (48 <= n /\ n <= 57)%N.
Definition underscore : ascii := "_"%char.

(** ^[A-Z_][A-Z0-9_]*$ *)
Definition IsValidEnvironmentVariableName (value : string) : bool :=
  match value with
  | EmptyString => false
  | String c s => (is_upper c || bool_decide (c = underscore)) &&
                  all_chars (fun c => is_upper c || is_digit c || bool_decide (c = underscore)) s
  end.

(** filepath.IsAbs on Unix *)
Definition IsAbs (path : string) : bool := HasPrefix path "/".

(** strings.TrimRight(s, cut) for a one-character cut set *)
Fixpoint TrimRightChar (cut : ascii) (s : string) : string :=
  match s with
  | EmptyString => EmptyString
  | String c s' =>
    match TrimRightChar cut s' with
    | EmptyString => if decide (c = cut) then EmptyString else String c EmptyString
    | t => String c t
    end
  end.

Definition EqualFold (a b : string) : bool := bool_decide (ToLower a = ToLower b).
Definition nul : string := String zero EmptyString.

(** The fields of a *url.URL the checks look at. *)
Record URL := mkURL {
  u_Scheme : string; u_Opaque : string; u_Host : string; u_Hostname : string;
  u_RawQuery : string; u_Fragment : string; u_ForceQuery : bool }.

(** What the checks use of the runtime: net/url's Parse ([None]: an error) and the order in
    which a map is ranged over. *)
Class ConfigRuntime := {
  url_Parse : string -> option URL;
  range : forall {A : Type}, list A -> list A;
  range_perm : forall {A : Type} (l : list A), range l ≡ₚ l }.

(** [for _, x := range l { s, err = f(s, x); if err != nil { return err } }] *)
Fixpoint eachM {S A : Type} (f : S -> A -> result string S) (s : S) (l : list A) : result string S :=
  match l with
  | [] => Ok s
  | x :: l => s ← f s x; eachM f s l
  end.

Fixpoint checkEach {A : Type} (f : nat -> A -> result string unit) (i : nat) (l : list A) : result string unit :=
  match l with
  | [] => Ok tt
  | x :: l => _ ← f i x; checkEach f (S i) l
  end.

Definition sub64 (a b : Z) : Z := (a - b) mod 2 ^ 64.

Section validate.
Context `{AddressText, ConfigRuntime}.
#[local] Open Scope string_scope.
#[local] Open Scope Z_scope.

Definition IsZero (a : Address) : Prop := a = 0.
#[local] Instance IsZero_dec a : Decision (IsZero a) := decide (a = 0).

Definition validateDurationSeconds (field : string) (seconds : Z) : result string unit :=
  check seconds <= maxDurationSeconds
    or (field +:+ " must be at most " +:+ pretty maxDurationSeconds)%string ;;
  Ok tt.

(** ** Transaction policies *)

Definition validateTxFeePolicy (prefix maxFeePerGasWei maxPriorityFeePerGasWei : string) : result string unit :=
  check maxFeePerGasWei <> ""%string or (prefix +:+ ".max_fee_per_gas_wei is required")%string ;;
  maxFee ← ParsePositiveDecimal (prefix +:+ ".max_fee_per_gas_wei") maxFeePerGasWei;
  if decide (maxPriorityFeePerGasWei = ""%string) then Ok tt else
  priorityFee ← ParsePositiveDecimal (prefix +:+ ".max_priority_fee_per_gas_wei") maxPriorityFeePerGasWei;
  check priorityFee <= maxFee
    or (prefix +:+ ".max_priority_fee_per_gas_wei must not exceed max_fee_per_gas_wei")%string ;;
  Ok tt.

Definition validateOptionalTxFeePolicy (prefix maxFeePerGasWei maxPriorityFeePerGasWei : string)
    : result string unit :=
  if decide (maxFeePerGasWei = ""%string /\ maxPriorityFeePerGasWei = ""%string) then Ok tt
  else validateTxFeePolicy prefix maxFeePerGasWei maxPriorityFeePerGasWei.

Definition validateTxSubmissionPolicy
    (prefix maxFeePerGasWei maxPriorityFeePerGasWei minNativeBalanceWei : string) : result string unit :=
  _ ← validateTxFeePolicy prefix maxFeePerGasWei maxPriorityFeePerGasWei;
  check minNativeBalanceWei <> ""%string or (prefix +:+ ".min_native_balance_wei is required")%string ;;
  _ ← ParsePositiveDecimal (prefix +:+ ".min_native_balance_wei") minNativeBalanceWei;
  Ok tt.

Definition validateOptionalTxSubmissionPolicy
    (prefix maxFeePerGasWei maxPriorityFeePerGasWei minNativeBalanceWei : string) : result string unit :=
  if decide (maxFeePerGasWei = ""%string /\ maxPriorityFeePerGasWei = ""%string /\ minNativeBalanceWei = ""%string)
  then Ok tt else
  _ ← validateOptionalTxFeePolicy prefix maxFeePerGasWei maxPriorityFeePerGasWei;
  if decide (minNativeBalanceWei <> ""%string)
  then _ ← ParsePositiveDecimal (prefix +:+ ".min_native_balance_wei") minNativeBalanceWei; Ok tt
  else Ok tt.

Definition validateExecutorTxRole (chainName : string) (role : TxRoleConfig) (signers : gset string)
    : result string unit :=
  check ~ IsZero (rcf_Signer role) or ("chain " +:+ chainName +:+ " tx_roles.executor.signer is required")%string ;;
  check AddressHex (rcf_Signer role) ∈ signers
    or ("chain " +:+ chainName +:+ " tx_roles.executor.signer must reference a configured signer")%string ;;
  validateTxSubmissionPolicy ("chain " +:+ chainName +:+ " tx_roles.executor")
    (rcf_MaxFeePerGasWei role) (rcf_MaxPriorityFeePerGasWei role) (rcf_MinNativeBalanceWei role).

Definition validateOptionalDVNTxRole (chainName : string) (role : TxRoleConfig) : result string unit :=
  validateOptionalTxSubmissionPolicy ("chain " +:+ chainName +:+ " tx_roles.dvn")
    (rcf_MaxFeePerGasWei role) (rcf_MaxPriorityFeePerGasWei role) (rcf_MinNativeBalanceWei role).

Definition validateRequiredDVNTxRole (chainName : string) (role : TxRoleConfig) (signers : gset string)
    : result string unit :=
  check ~ IsZero (rcf_Signer role)
    or ("chain " +:+ chainName +:+ " tx_roles.dvn.signer is required for active dvn pathways")%string ;;
  check AddressHex (rcf_Signer role) ∈ signers
    or ("chain " +:+ chainName +:+ " tx_roles.dvn.signer must reference a configured signer")%string ;;
  validateTxSubmissionPolicy ("chain " +:+ chainName +:+ " tx_roles.dvn")
    (rcf_MaxFeePerGasWei role) (rcf_MaxPriorityFeePerGasWei role) (rcf_MinNativeBalanceWei role).

(** ** Secrets and URLs *)

Definition validateOptionalEnvironmentVariableName (field value : string) : result string unit :=
  if decide (value = ""%string) then Ok tt else
  check IsValidEnvironmentVariableName value = true
    or (field +:+ " must be an uppercase environment variable name")%string ;;
  Ok tt.

Definition validateOptionalAbsoluteFilePath (field value : string) : result string unit :=
  if decide (value = ""%string) then Ok tt else
  check ~ (TrimSpace value <> value \/ Contains value nul = true \/ IsAbs value = false)
    or (field +:+ " must be an absolute file path without surrounding whitespace or NUL bytes")%string ;;
  Ok tt.

Definition validateSecretReferences (c : Config) : result string unit :=
  _ ← checkEach (fun index signer =>
        _ ← validateOptionalEnvironmentVariableName
              ("signers[" +:+ pretty index +:+ "].keystore.password_env") (ks_PasswordEnv (sg_Keystore signer));
        validateOptionalAbsoluteFilePath
          ("signers[" +:+ pretty index +:+ "].keystore.password_file") (ks_PasswordFile (sg_Keystore signer)))
        0%nat (cf_Signers c);
  _ ← validateOptionalEnvironmentVariableName "pricing.coinmarketcap_api_key_env"
        (pr_CoinMarketCapAPIKeyEnv (cf_Pricing c));
  validateOptionalEnvironmentVariableName "pricing.coingecko_api_key_env" (pr_CoinGeckoAPIKeyEnv (cf_Pricing c)).

Definition validateRPCURL (raw : string) : result string unit :=
  check raw <> ""%string or "value is required"%string ;;
  check TrimSpace raw = raw or "value must not contain leading or trailing whitespace"%string ;;
  match url_Parse raw with
  | None => Err "value is malformed"%string
  | Some parsed =>
    if decide (u_Scheme parsed ∈ ["http"; "https"; "ws"; "wss"]%string) then
      check u_Host parsed <> ""%string or (u_Scheme parsed +:+ " url must include a host")%string ;; Ok tt
    else if decide (u_Scheme parsed = ""%string) then
      check IsAbs raw = true or "ipc path must be absolute"%string ;; Ok tt
    else Err ("unsupported scheme " +:+ quoted (u_Scheme parsed))%string
  end.

Definition validateMarketDataBaseURL (field raw : string) : result string unit :=
  if decide (raw = ""%string) then Ok tt else
  let normalized := TrimRightChar "/"%char raw in
  let bad := Err (field +:+ " must be an absolute HTTPS URL without query or fragment")%string in
  match url_Parse normalized with
  | None => bad
  | Some parsed =>
    if decide (TrimSpace raw <> raw \/ u_Opaque parsed <> ""%string \/ u_Hostname parsed = ""%string \/
               u_RawQuery parsed <> ""%string \/ u_Fragment parsed <> ""%string \/ u_ForceQuery parsed = true \/
               EqualFold (u_Scheme parsed) "https" = false)
    then bad else Ok tt
  end.

(** ** Signers *)

Definition validateSigner (seen : gset string) (signer : SignerConfig) : result string (gset string) :=
  check ~ IsZero (sg_ID signer) or "signer id is required"%string ;;
  let id := AddressHex (sg_ID signer) in
  check id ∉ seen or ("duplicate signer id " +:+ id)%string ;;
  _ ← (if decide (sg_Type signer = "keystore"%string) then
         check ks_Path (sg_Keystore signer) <> ""%string or ("signer " +:+ id +:+ " keystore.path is required")%string ;;
         let sources := length (filter (fun value => value <> ""%string)
                          [ks_PasswordEnv (sg_Keystore signer); ks_PasswordFile (sg_Keystore signer)]) in
         check sources = 1%nat
           or ("signer " +:+ id +:+ " must configure exactly one keystore password source")%string ;;
         Ok tt
       else if decide (sg_Type signer = "kms"%string) then
         check ~ IsZero (kms_Address (sg_KMS signer)) or ("signer " +:+ id +:+ " kms.address is required")%string ;;
         check AddressHex (kms_Address (sg_KMS signer)) = id
           or ("signer " +:+ id +:+ " kms.address must match id")%string ;;
         check kms_KeyID (sg_KMS signer) <> ""%string or ("signer " +:+ id +:+ " kms.key_id is required")%string ;;
         check kms_Region (sg_KMS signer) <> ""%string or ("signer " +:+ id +:+ " kms.region is required")%string ;;
         Ok tt
       else Err ("unsupported signer type " +:+ quoted (sg_Type signer))%string);
  Ok ({[id]} ∪ seen).

Definition validateSigners (c : Config) : result string (gset string) := eachM validateSigner ∅ (cf_Signers c).

(** ** Chains *)

(** [seen] and [chains] have the same keys; [chains] is both. *)
Definition validateChain (c : Config) (signers : gset string) (chains : gmap Z ChainConfig) (chain : ChainConfig)
    : result string (gmap Z ChainConfig) :=
  let name := ccf_Name chain in
  check ccf_EID chain <> 0 or "chain eid is required"%string ;;
  check name <> ""%string or ("chain " +:+ pretty (ccf_EID chain) +:+ " name is required")%string ;;
  check ccf_Family chain <> ""%string
    or ("chain " +:+ name +:+ " family is required")%string ;;
  check ccf_Family chain = ChainFamilyEVM
    or ("chain " +:+ name +:+ " family must be " +:+ quoted ChainFamilyEVM +:+ " in phase 1")%string ;;
  check 0 < ccf_ChainID chain or ("chain " +:+ name +:+ " chain_id is required")%string ;;
  check ~ IsZero (ccf_EndpointAddress chain) or ("chain " +:+ name +:+ " endpoint_address is required")%string ;;
  _ ← (if ExecutorEnabled c then validateExecutorTxRole name (ccf_Executor chain) signers else Ok tt);
  _ ← (if DVNEnabled c then validateOptionalDVNTxRole name (ccf_DVN chain) else Ok tt);
  check ccf_Confirmations chain <> 0 or ("chain " +:+ name +:+ " confirmations is required")%string ;;
  check ccf_IndexerQueryBlockRange chain <> 0
    or ("chain " +:+ name +:+ " indexer_query_block_range is required")%string ;;
  check ccf_IndexerPollIntervalSeconds chain <> 0
    or ("chain " +:+ name +:+ " indexer_poll_interval_seconds is required")%string ;;
  _ ← validateDurationSeconds ("chain " +:+ name +:+ " indexer_poll_interval_seconds")
        (ccf_IndexerPollIntervalSeconds chain);
  check ccf_RPCURLs chain <> [] or ("chain " +:+ name +:+ " must configure at least one rpc url")%string ;;
  _ ← checkEach (fun i rpcURL =>
        match validateRPCURL rpcURL with
        | Err e => Err ("chain " +:+ name +:+ " rpc_urls[" +:+ pretty i +:+ "] is invalid: " +:+ e)%string
        | Ok _ => Ok tt
        end) 0%nat (ccf_RPCURLs chain);
  check chains !! ccf_EID chain = None or ("duplicate chain eid " +:+ pretty (ccf_EID chain))%string ;;
  Ok (<[ccf_EID chain := chain]> chains).

(** ** Price sources *)

Definition coinMarketCapPricingConfigured (source : CoinMarketCapPricingConfig) : Prop :=
  cmc_ID source <> 0 \/ cmc_MaxAgeSeconds source <> 0.
Definition coinGeckoPricingConfigured (source : CoinGeckoPricingConfig) : Prop :=
  cg_ID source <> ""%string \/ cg_MaxAgeSeconds source <> 0.
Definition chainlinkPricingConfigured (source : ChainlinkPricingConfig) : Prop :=
  ~ IsZero (clc_FeedAddress source) \/ clc_ExpectedDescription source <> ""%string \/ clc_MaxAgeSeconds source <> 0.
Definition uniswapPricingConfigured (source : UniswapPricingConfig) : Prop :=
  ~ IsZero (uc_PoolAddress source) \/ ~ IsZero (uc_TokenIn source) \/ ~ IsZero (uc_TokenOut source) \/
  uc_TWAPWindowSeconds source <> 0 \/ uc_MaxBlockAgeSeconds source <> 0 \/
  uc_MinHarmonicMeanLiquidity source <> ""%string.
#[local] Instance cmc_dec s : Decision (coinMarketCapPricingConfigured s) := _.
#[local] Instance cg_dec s : Decision (coinGeckoPricingConfigured s) := _.
#[local] Instance cl_dec s : Decision (chainlinkPricingConfigured s) := _.
#[local] Instance uni_dec s : Decision (uniswapPricingConfigured s) := _.

Definition pricingChainHasMarketSources (chain : PricingChainConfig) : bool :=
  bool_decide (pc_PrimarySource chain <> ""%string \/ pc_SanitySources chain <> [] \/
    coinMarketCapPricingConfigured (pc_CoinMarketCap chain) \/ coinGeckoPricingConfigured (pc_CoinGecko chain) \/
    chainlinkPricingConfigured (pc_Chainlink chain) \/ uniswapPricingConfigured (pc_Uniswap chain)).

Definition pricing_chain (eid : Z) (rest : string) : string := "pricing chain " +:+ pretty eid +:+ rest.

Definition validatePricingChainBase (chain : PricingChainConfig) : result string unit :=
  let eid := pc_EID chain in
  check pc_DataFeePerByteWei chain <> ""%string or pricing_chain eid " data_fee_per_byte_wei is required" ;;
  _ ← ParseNonNegativeDecimal (pricing_chain eid " data_fee_per_byte_wei") (pc_DataFeePerByteWei chain);
  check pc_NativeAssetID chain <> ""%string or pricing_chain eid " native_asset_id is required" ;;
  check TrimSpace (pc_NativeAssetID chain) = pc_NativeAssetID chain
    or pricing_chain eid " native_asset_id must not contain leading or trailing whitespace" ;;
  check pc_NativeAssetID chain = ToLower (pc_NativeAssetID chain)
    or pricing_chain eid " native_asset_id must be lowercase" ;;
  Ok tt.

Definition pricingMarketSourceRequirements (pathways : list PathwayConfig)
    (pricingChains : gmap Z PricingChainConfig) : gset Z :=
  fold_left (fun required pathway =>
    match pricingChains !! pw_SrcEID pathway, pricingChains !! pw_DstEID pathway with
    | Some srcChain, Some dstChain =>
      if decide (pc_NativeAssetID srcChain = pc_NativeAssetID dstChain) then required
      else {[pw_SrcEID pathway; pw_DstEID pathway]} ∪ required
    | _, _ => required
    end) pathways ∅.

Definition validatePrimaryPricingSourceName (eid : Z) (source : string) : result string unit :=
  if decide (source ∈ ["coinmarketcap"; "coingecko"; "chainlink"]%string) then Ok tt
  else if decide (source = ""%string) then Err (pricing_chain eid " primary_source is required")
  else Err (pricing_chain eid (" primary_source has unsupported source " +:+ quoted source)).

Definition validateSanityPricingSourceName (eid : Z) (field source : string) : result string unit :=
  if decide (source ∈ ["coinmarketcap"; "coingecko"; "chainlink"; "uniswap"]%string) then Ok tt
  else if decide (source = ""%string) then Err (pricing_chain eid (" " +:+ field +:+ " is required"))
  else Err (pricing_chain eid (" " +:+ field +:+ " has unsupported source " +:+ quoted source)).

Definition validateChainlinkPricingSource (chain : PricingChainConfig) : result string unit :=
  let eid := pc_EID chain in let source := pc_Chainlink chain in
  check ~ IsZero (clc_FeedAddress source) or pricing_chain eid " chainlink.feed_address is required" ;;
  check TrimSpace (clc_ExpectedDescription source) <> ""%string
    or pricing_chain eid " chainlink.expected_description is required" ;;
  check TrimSpace (clc_ExpectedDescription source) = clc_ExpectedDescription source
    or pricing_chain eid " chainlink.expected_description must not contain leading or trailing whitespace" ;;
  check clc_MaxAgeSeconds source <> 0 or pricing_chain eid " chainlink.max_age_seconds is required" ;;
  validateDurationSeconds (pricing_chain eid " chainlink.max_age_seconds") (clc_MaxAgeSeconds source).

Definition validateUniswapPricingSource (chain : PricingChainConfig) : result string unit :=
  let eid := pc_EID chain in let source := pc_Uniswap chain in
  _ ← checkEach (fun _ '(label, value) =>
        check ~ IsZero value or pricing_chain eid (" " +:+ label +:+ " is required") ;; Ok tt) 0%nat
        (range [("uniswap.pool_address"%string, uc_PoolAddress source);
                ("uniswap.token_in"%string, uc_TokenIn source); ("uniswap.token_out"%string, uc_TokenOut source)]);
  check uc_TokenIn source <> uc_TokenOut source
    or pricing_chain eid " uniswap token_in and token_out must differ" ;;
  check uc_TWAPWindowSeconds source <> 0 or pricing_chain eid " uniswap.twap_window_seconds is required" ;;
  check MinUniswapTWAPWindowSeconds <= uc_TWAPWindowSeconds source
    or pricing_chain eid (" uniswap.twap_window_seconds must be at least " +:+ pretty MinUniswapTWAPWindowSeconds) ;;
  check uc_TWAPWindowSeconds source <= 2 ^ 32 - 1
    or pricing_chain eid " uniswap.twap_window_seconds exceeds uint32" ;;
  check uc_MaxBlockAgeSeconds source <> 0 or pricing_chain eid " uniswap.max_block_age_seconds is required" ;;
  _ ← validateDurationSeconds (pricing_chain eid " uniswap.max_block_age_seconds") (uc_MaxBlockAgeSeconds source);
  check uc_MinHarmonicMeanLiquidity source <> ""%string
    or pricing_chain eid " uniswap.min_harmonic_mean_liquidity is required" ;;
  _ ← ParsePositiveDecimal (pricing_chain eid " uniswap.min_harmonic_mean_liquidity")
        (uc_MinHarmonicMeanLiquidity source);
  Ok tt.

Definition validateConfiguredPricingSource (chain : PricingChainConfig) (source coinMarketCapAPIKeyEnv : string)
    : result string unit :=
  let eid := pc_EID chain in
  if decide (source = "coinmarketcap"%string) then
    check coinMarketCapAPIKeyEnv <> ""%string
      or pricing_chain eid " coinmarketcap_api_key_env is required when coinmarketcap is used" ;;
    check cmc_ID (pc_CoinMarketCap chain) <> 0 or pricing_chain eid " coinmarketcap.id is required" ;;
    check cmc_MaxAgeSeconds (pc_CoinMarketCap chain) <> 0
      or pricing_chain eid " coinmarketcap.max_age_seconds is required" ;;
    validateDurationSeconds (pricing_chain eid " coinmarketcap.max_age_seconds")
      (cmc_MaxAgeSeconds (pc_CoinMarketCap chain))
  else if decide (source = "coingecko"%string) then
    check cg_ID (pc_CoinGecko chain) <> ""%string or pricing_chain eid " coingecko.id is required" ;;
    check cg_MaxAgeSeconds (pc_CoinGecko chain) <> 0 or pricing_chain eid " coingecko.max_age_seconds is required" ;;
    validateDurationSeconds (pricing_chain eid " coingecko.max_age_seconds") (cg_MaxAgeSeconds (pc_CoinGecko chain))
  else if decide (source = "chainlink"%string) then validateChainlinkPricingSource chain
  else if decide (source = "uniswap"%string) then validateUniswapPricingSource chain
  else Ok tt.

Definition validatePricingChainSources (chain : PricingChainConfig) (coinMarketCapAPIKeyEnv : string)
    : result string unit :=
  let eid := pc_EID chain in
  _ ← validatePrimaryPricingSourceName eid (pc_PrimarySource chain);
  seen ← eachM (fun (s : gset string * nat) source =>
           let '(seen, idx) := s in
           _ ← validateSanityPricingSourceName eid ("sanity_sources[" +:+ pretty idx +:+ "]") source;
           check source ∉ seen
             or pricing_chain eid (" source " +:+ quoted source +:+ " is configured more than once") ;;
           Ok ({[source]} ∪ seen, S idx))
           ({[pc_PrimarySource chain]}, 0%nat) (pc_SanitySources chain);
  _ ← checkEach (fun _ source => validateConfiguredPricingSource chain source coinMarketCapAPIKeyEnv) 0%nat
        (range (elements seen.1));
  checkEach (fun _ '(source, configured) =>
    check ~ (configured = true /\ source ∉ seen.1)
      or pricing_chain eid (" source " +:+ quoted source +:+ " is configured but not referenced") ;; Ok tt) 0%nat
    (range [("coinmarketcap"%string, bool_decide (coinMarketCapPricingConfigured (pc_CoinMarketCap chain)));
            ("coingecko"%string, bool_decide (coinGeckoPricingConfigured (pc_CoinGecko chain)));
            ("chainlink"%string, bool_decide (chainlinkPricingConfigured (pc_Chainlink chain)));
            ("uniswap"%string, bool_decide (uniswapPricingConfigured (pc_Uniswap chain)))]).

(** ** Pricing *)

(** The checks on the bot's own settings. *)
Definition validatePricingSettings (p : PricingConfig) (signers : gset string) : result string unit :=
  check ~ IsZero (pr_Signer p) or "pricing signer is required"%string ;;
  check AddressHex (pr_Signer p) ∈ signers or "pricing signer must reference a configured signer"%string ;;
  check pr_IntervalSeconds p <> 0 or "pricing interval_seconds is required"%string ;;
  _ ← validateDurationSeconds "pricing interval_seconds" (pr_IntervalSeconds p);
  check pr_StaleAfterSeconds p <> 0 or "pricing stale_after_seconds is required"%string ;;
  _ ← validateDurationSeconds "pricing stale_after_seconds" (pr_StaleAfterSeconds p);
  check pr_StaleAfterSeconds p <= MaxPriceSnapshotStaleAfterSeconds
    or ("pricing stale_after_seconds exceeds OpenPriceFeed maximum " +:+ pretty MaxPriceSnapshotStaleAfterSeconds)%string ;;
  check pr_MaxDeviationBps p <> 0 or "pricing max_deviation_bps is required"%string ;;
  check pr_MinUpdateDeviationBps p <> 0 or "pricing min_update_deviation_bps is required"%string ;;
  check pr_MinUpdateDeviationBps p <= 10000 or "pricing min_update_deviation_bps exceeds 10000"%string ;;
  check pr_HeartbeatSeconds p <> 0 or "pricing heartbeat_seconds is required"%string ;;
  _ ← validateDurationSeconds "pricing heartbeat_seconds" (pr_HeartbeatSeconds p);
  check pr_HeartbeatSeconds p < pr_StaleAfterSeconds p
    or "pricing heartbeat_seconds must be less than stale_after_seconds"%string ;;
  check pr_IntervalSeconds p < sub64 (pr_StaleAfterSeconds p) (pr_HeartbeatSeconds p)
    or "pricing heartbeat_seconds plus interval_seconds must be less than stale_after_seconds"%string ;;
  check MinPricingFreshnessMarginSeconds <=
        sub64 (sub64 (pr_StaleAfterSeconds p) (pr_HeartbeatSeconds p)) (pr_IntervalSeconds p)
    or ("pricing stale_after_seconds must exceed heartbeat_seconds plus interval_seconds by at least " +:+
        pretty MinPricingFreshnessMarginSeconds +:+ " seconds")%string ;;
  check pr_SourceRequestTimeoutSeconds p <> 0 or "pricing source_request_timeout_seconds is required"%string ;;
  _ ← validateDurationSeconds "pricing source_request_timeout_seconds" (pr_SourceRequestTimeoutSeconds p);
  check pr_GasSpikeBps p <> 0 or "pricing gas_spike_bps is required"%string ;;
  Ok tt.

(** [seen] and [pricingChains] have the same keys. *)
Definition validatePricingChain (chains : gset Z) (pricingChains : gmap Z PricingChainConfig)
    (chain : PricingChainConfig) : result string (gmap Z PricingChainConfig) :=
  let eid := pc_EID chain in
  check eid ∈ chains or ("pricing chain eid " +:+ pretty eid +:+ " is not configured")%string ;;
  check pricingChains !! eid = None or ("duplicate pricing chain eid " +:+ pretty eid)%string ;;
  _ ← validatePricingChainBase chain;
  _ ← validateTxSubmissionPolicy (pricing_chain eid " tx_policy") (tp_MaxFeePerGasWei (pc_TxPolicy chain))
        (tp_MaxPriorityFeePerGasWei (pc_TxPolicy chain)) (tp_MinNativeBalanceWei (pc_TxPolicy chain));
  Ok (<[eid := chain]> pricingChains).

Definition validatePricing (c : Config) (chains : gset Z) (signers : gset string) : result string unit :=
  let p := cf_Pricing c in
  if negb (pr_Enabled p) then Ok tt else
  _ ← validatePricingSettings p signers;
  pricingChains ← eachM (validatePricingChain chains) ∅ (pr_Chains p);
  check size pricingChains = size chains or "pricing must configure every chain when enabled"%string ;;
  let requiresMarketSources := pricingMarketSourceRequirements (cf_Pathways c) pricingChains in
  checkEach (fun _ chain =>
    if decide (pc_EID chain ∉ requiresMarketSources) then
      check pricingChainHasMarketSources chain = false
        or pricing_chain (pc_EID chain)
             " market sources must be omitted when no cross-asset pathway uses the chain" ;; Ok tt
    else validatePricingChainSources chain (pr_CoinMarketCapAPIKeyEnv p)) 0%nat (pr_Chains p).

(** ** Pathways *)

Definition validateRequiredDVNSet (label : string) (dvns : list Address) (openDVN : Address) : result string unit :=
  check ~ (length dvns < 2)%nat
    or (label +:+ " must list the pathway's OpenDVN plus at least one independently operated DVN")%string ;;
  r ← eachM (fun (s : gset Address * bool * nat) dvn =>
        let '(seen, containsOpenDVN, i) := s in
        check ~ IsZero dvn or (label +:+ "[" +:+ pretty i +:+ "] is required")%string ;;
        check dvn ∉ seen or (label +:+ "[" +:+ pretty i +:+ "] duplicates " +:+ AddressHex dvn)%string ;;
        Ok ({[dvn]} ∪ seen, (if decide (dvn = openDVN) then true else containsOpenDVN), S i))
        (∅, false, 0%nat) dvns;
  check r.1.2 = true or (label +:+ " must include the pathway's OpenDVN " +:+ AddressHex openDVN)%string ;;
  Ok tt.

Definition validateWorkerFeeModel (prefix : string) (model : WorkerFeeModelConfig) : result string unit :=
  check FixedFeeWei model <> ""%string or (prefix +:+ ".fixed_fee_wei is required")%string ;;
  _ ← ParseNonNegativeDecimal (prefix +:+ ".fixed_fee_wei") (FixedFeeWei model);
  check DataSizeOverheadBytes model <> None or (prefix +:+ ".data_size_overhead_bytes is required")%string ;;
  check MarginBps model <= 10000 or (prefix +:+ ".margin_bps exceeds 10000")%string ;;
  Ok tt.

Definition pathwayLabel (p : PathwayConfig) (rest : string) : string :=
  "pathway " +:+ pretty (pw_SrcEID p) +:+ " -> " +:+ pretty (pw_DstEID p) +:+ " " +:+ rest.

Definition validatePathwayPricing (pathway : PathwayConfig) : result string unit :=
  let prefix := pathwayLabel pathway "pricing" in
  _ ← validateWorkerFeeModel (prefix +:+ ".executor_fee") (ExecutorFee (pw_Pricing pathway));
  validateWorkerFeeModel (prefix +:+ ".dvn_fee") (DVNFee (pw_Pricing pathway)).

(** The state of the loop: the keys seen and the destinations of active DVN pathways. *)
Definition validatePathway (c : Config) (chains : gmap Z ChainConfig) (s : gset string * gset Z)
    (pathway : PathwayConfig) : result string (gset string * gset Z) :=
  let '(pathways, activeDVNDestinations) := s in
  let label := pathwayLabel pathway in
  let src := pw_SrcEID pathway in let dst := pw_DstEID pathway in
  let confirmations eid := from_option ccf_Confirmations 0 (chains !! eid) in
  check chains !! src <> None or ("pathway source eid " +:+ pretty src +:+ " is not configured")%string ;;
  check chains !! dst <> None or ("pathway destination eid " +:+ pretty dst +:+ " is not configured")%string ;;
  check src <> dst or label "must cross chains" ;;
  check ~ (confirmations src < confirmations dst)
    or label ("source chain confirmations " +:+ pretty (confirmations src) +:+
              " are below destination chain confirmations " +:+ pretty (confirmations dst)) ;;
  _ ← checkEach (fun _ '(field, value) => check ~ IsZero value or label (field +:+ " is required") ;; Ok tt) 0%nat
        (range [("src_oapp"%string, pw_SrcOApp pathway); ("dst_oapp"%string, pw_DstOApp pathway);
                ("send_lib"%string, pw_SendLib pathway); ("receive_lib"%string, pw_ReceiveLib pathway);
                ("source_workers.open_executor"%string, OpenExecutor (pw_SourceWorkers pathway));
                ("source_workers.open_dvn"%string, OpenDVN (pw_SourceWorkers pathway));
                ("source_workers.price_feed"%string, PriceFeed (pw_SourceWorkers pathway));
                ("destination_workers.open_dvn"%string, pw_DestinationOpenDVN pathway)]);
  _ ← validateRequiredDVNSet (label "send_required_dvns") (pw_SendRequiredDVNs pathway)
        (OpenDVN (pw_SourceWorkers pathway));
  _ ← validateRequiredDVNSet (label "receive_required_dvns") (pw_ReceiveRequiredDVNs pathway)
        (pw_DestinationOpenDVN pathway);
  active ← (if decide (pw_DVNMode pathway = DVNModeShadow) then Ok activeDVNDestinations
            else if decide (pw_DVNMode pathway = DVNModeActive) then Ok ({[dst]} ∪ activeDVNDestinations)
            else Err (label ("unsupported dvn mode " +:+ quoted (pw_DVNMode pathway))));
  check pw_MaxMessageSize pathway <> 0 or label "max_message_size is required" ;;
  check pw_MaxMessageSize pathway <= 2 ^ 31 - 1 or label "max_message_size exceeds database integer limit" ;;
  check pw_MaxLzReceiveGas pathway <> 0 or label "max_lz_receive_gas is required" ;;
  check pw_MinLzReceiveGas pathway <= pw_MaxLzReceiveGas pathway
    or label "min_lz_receive_gas exceeds max_lz_receive_gas" ;;
  _ ← (if pr_Enabled (cf_Pricing c) then validatePathwayPricing pathway else Ok tt);
  let key := pathwayKey src dst (pw_SrcOApp pathway) (pw_DstOApp pathway) in
  check key ∉ pathways or ("duplicate pathway " +:+ key)%string ;;
  Ok ({[key]} ∪ pathways, active).

(** ** The whole configuration *)

Definition ValidateConfig (c : Config) : result string unit :=
  _ ← validateSecretReferences c;
  _ ← validateMarketDataBaseURL "pricing coinmarketcap_base_url" (pr_CoinMarketCapBaseURL (cf_Pricing c));
  _ ← validateMarketDataBaseURL "pricing coingecko_base_url" (pr_CoinGeckoBaseURL (cf_Pricing c));
  check cf_DatabaseURL c <> ""%string or "database_url is required"%string ;;
  check cf_StaleBroadcastReplacementAfterSeconds c <> 0
    or "tx_manager.stale_broadcast_replacement_after_seconds is required"%string ;;
  _ ← validateDurationSeconds "tx_manager.stale_broadcast_replacement_after_seconds"
        (cf_StaleBroadcastReplacementAfterSeconds c);
  check cf_Chains c <> [] or "at least one chain is required"%string ;;
  signers ← validateSigners c;
  chains ← eachM (validateChain c signers) ∅ (cf_Chains c);
  _ ← validatePricing c (dom chains) signers;
  r ← eachM (validatePathway c chains) (∅, ∅) (cf_Pathways c);
  if DVNEnabled c then
    checkEach (fun _ eid =>
      match chains !! eid with
      | Some chain => validateRequiredDVNTxRole (ccf_Name chain) (ccf_DVN chain) signers
      | None => validateRequiredDVNTxRole "" (mkTxRoleConfig 0 "" "" "") signers
      end) 0%nat (range (elements r.2))
  else Ok tt.

(** What [load] returns for the decoded file. *)
Definition loadDecoded (applyEnv : bool) (env : string) (decoded : Config) : Config * result string unit :=
  let cfg := applyDefaults applyEnv env decoded in (cfg, ValidateConfig cfg).

End validate.
