(* ===== verification/ConfigProofs.v ===== *)
(** * What a validated configuration guarantees

    [Validate_iff] states what ValidateConfig accepts without its loops, maps and their ranges:
    the checks of each entry, and which entries must be distinct or refer to each other. *)

From S2P Require Import Prelude GoErr BigUtil StateReads Registry PriceMath PriceSelect PriceSources Config.
From stdpp Require Import base gmap list strings numbers pretty.
From Stdlib Require Import ZArith Lia Ascii.
#[local] Open Scope Z_scope.

(** ** Sequences of checks *)

Lemma check_Ok {E A} P `{Decision P} (e : E) (k : result E A) a : (check P or e ;; k) = Ok a <-> P /\ k = Ok a.
Proof. case_decide; naive_solver. Qed.

Lemma Ok_tt {E} (a : unit) : (Ok tt : result E unit) = Ok a <-> True.
Proof. by destruct a. Qed.

Lemma bind_Ok {E A B} (m : result E A) (k : A -> result E B) b :
  (m ≫= k) = Ok b <-> exists a, m = Ok a /\ k a = Ok b.
Proof. destruct m; cbn; naive_solver. Qed.

Lemma bind_unit_Ok {E B} (m : result E unit) (k : unit -> result E B) b :
  (m ≫= k) = Ok b <-> m = Ok tt /\ k tt = Ok b.
Proof. destruct m as [[]|]; cbn; naive_solver. Qed.

Lemma fmap_unit_Ok {E A} (m : result E A) : (_ ← m; Ok tt) = (Ok tt : result E unit) <-> exists a, m = Ok a.
Proof. destruct m; cbn; naive_solver. Qed.

Lemma if_Ok {E A} (b : bool) (m : result E A) a0 :
  (if b then m else Ok a0) = Ok a0 <-> (b = true -> m = Ok a0).
Proof. destruct b; naive_solver. Qed.

Lemma checkEach_Ok {A} (f : nat -> A -> result string unit) (P : A -> Prop) :
  (forall i x, f i x = Ok tt <-> P x) -> forall l i, checkEach f i l = Ok tt <-> Forall P l.
Proof.
  intros Hf. induction l as [|x l IH]; intros i; cbn [checkEach].
  - split; [constructor|done].
  - rewrite bind_unit_Ok, Forall_cons, Hf, IH. done.
Qed.

Lemma checkEach_range_Ok `{ConfigRuntime} {A} (f : nat -> A -> result string unit) (P : A -> Prop) :
  (forall i x, f i x = Ok tt <-> P x) -> forall l i, checkEach f i (range l) = Ok tt <-> Forall P l.
Proof. intros Hf l i. rewrite (checkEach_Ok f P Hf). by rewrite range_perm. Qed.

(** A loop that collects entries with distinct keys. *)
Lemma eachM_keyed {S A K} (f : S -> A -> result string S) (P : A -> Prop) (key : A -> K)
    (has : S -> K -> Prop) (add : S -> A -> S) :
  (forall s x s', f s x = Ok s' <-> P x /\ ~ has s (key x) /\ s' = add s x) ->
  (forall s x k, has (add s x) k <-> k = key x \/ has s k) ->
  forall l s s', eachM f s l = Ok s' <->
    Forall P l /\ NoDup (key <$> l) /\ Forall (fun x => ~ has s (key x)) l /\ s' = fold_left add l s.
Proof.
  intros Hf Hadd. induction l as [|x l IH]; intros s s'; cbn [eachM].
  - cbn. split; [intros [= ->]; repeat split; constructor|by intros (_ & _ & _ & ->)].
  - rewrite bind_Ok. setoid_rewrite Hf. setoid_rewrite IH. cbn [fold_left fmap list_fmap].
    rewrite NoDup_cons, !Forall_cons. split.
    + intros (s1 & (Hx & Hn & ->) & Hl & Hnd & Hno & ->). setoid_rewrite Hadd in Hno.
      rewrite list.Forall_forall in Hno.
      refine (conj (conj Hx Hl) (conj (conj _ Hnd) (conj (conj Hn _) eq_refl))).
      * intros (y & E & Hy)%list_elem_of_fmap. apply (Hno y Hy). by left.
      * apply list.Forall_forall. intros y Hy Hh. apply (Hno y Hy). by right.
    + intros ((Hx & Hl) & (Hni & Hnd) & (Hn & Hno) & ->). eexists.
      refine (conj (conj Hx (conj Hn eq_refl)) (conj Hl (conj Hnd (conj _ eq_refl)))).
      rewrite list.Forall_forall in Hno |- *. intros y Hy [E|Hh]%Hadd; [|by eapply Hno].
      apply Hni. rewrite <- E. by apply list_elem_of_fmap_2.
Qed.

(** The map such a loop builds. *)
Lemma keyed_fold_lookup {A B K} `{Countable K} (key : A -> K) (val : A -> B) (l : list A) k y : NoDup (key <$> l) ->
  (fold_left (fun m x => <[key x := val x]> m) l ∅ : gmap K B) !! k = Some y <-> exists x, x ∈ l /\ key x = k /\ y = val x.
Proof.
  induction l as [|z l IH] using rev_ind; intros Hnd; [split; [done|by intros (x & ?%elem_of_nil & _)]|].
  rewrite fmap_app in Hnd. apply NoDup_app in Hnd as (Hl & Hd & _).
  rewrite fold_left_app. setoid_rewrite elem_of_app. setoid_rewrite list_elem_of_singleton. cbn [fold_left].
  destruct (decide (key z = k)) as [<-|Hk].
  - rewrite lookup_insert_eq. split; [intros [= <-]; eauto|].
    intros (x & [Hx| ->] & E & ->); [|done].
    destruct (Hd (key x)); [by apply list_elem_of_fmap_2|rewrite E; by constructor].
  - rewrite lookup_insert_ne, IH by done. split; [naive_solver|]. intros (x & [Hx| ->] & E & ->); [eauto|done].
Qed.

Lemma keyed_map_lookup {A} (key : A -> Z) (l : list A) k x : NoDup (key <$> l) ->
  (fold_left (fun m x => <[key x := x]> m) l ∅ : gmap Z A) !! k = Some x <-> x ∈ l /\ key x = k.
Proof. intros Hnd. rewrite (keyed_fold_lookup key (fun x => x)) by done. naive_solver. Qed.

Lemma keyed_unique {A} (key : A -> Z) (l : list A) : NoDup (key <$> l) ->
  forall x y, x ∈ l -> y ∈ l -> key x = key y <-> x = y.
Proof.
  intros Hnd x y [i Hi]%list_elem_of_lookup [j Hj]%list_elem_of_lookup. split; [|by intros ->]. intros E.
  assert (i = j) as ->; [|congruence]. apply (NoDup_lookup _ i j (key x) Hnd); rewrite list_lookup_fmap.
  - by rewrite Hi.
  - rewrite Hj, E. done.
Qed.

Lemma keyed_map_size {A} (key : A -> Z) (l : list A) : NoDup (key <$> l) ->
  size (fold_left (fun m x => <[key x := x]> m) l ∅ : gmap Z A) = length l.
Proof.
  intros Hnd. assert (fold_left (fun m x => <[key x := x]> m) l (∅ : gmap Z A) = list_to_map ((fun x => (key x, x)) <$> l)) as ->.
  - apply map_eq. intros k. apply option_eq. intros x. rewrite keyed_map_lookup by done.
    rewrite <- elem_of_list_to_map by (rewrite <- list_fmap_compose; done).
    rewrite list_elem_of_fmap. naive_solver.
  - rewrite map_size_list_to_map by (rewrite <- list_fmap_compose; done). apply length_fmap.
Qed.

(** ** Decimal fields *)

Definition positive_decimal (s : string) : Prop := exists z, parseDecimal s = Some z /\ 0 < z.
Definition nonnegative_decimal (s : string) : Prop := exists z, parseDecimal s = Some z /\ 0 <= z.

Lemma ParsePositiveDecimal_Ok f s z : ParsePositiveDecimal f s = Ok z <-> parseDecimal s = Some z /\ 0 < z.
Proof. unfold ParsePositiveDecimal. destruct (parseDecimal s); [case_decide|]; naive_solver. Qed.
Lemma ParseNonNegativeDecimal_Ok f s z :
  ParseNonNegativeDecimal f s = Ok z <-> parseDecimal s = Some z /\ 0 <= z.
Proof. unfold ParseNonNegativeDecimal. destruct (parseDecimal s); [case_decide|]; naive_solver. Qed.

Lemma positive_decimal_nonempty s : positive_decimal s -> s <> ""%string.
Proof. by intros (z & E & _) ->. Qed.
Lemma nonnegative_decimal_nonempty s : nonnegative_decimal s -> s <> ""%string.
Proof. by intros (z & E & _) ->. Qed.

Lemma parse_positive_unit f s : (_ ← ParsePositiveDecimal f s; Ok tt) = (Ok tt : result string unit) <-> positive_decimal s.
Proof. rewrite fmap_unit_Ok. by setoid_rewrite ParsePositiveDecimal_Ok. Qed.

Lemma validateDurationSeconds_Ok f s : validateDurationSeconds f s = Ok tt <-> s <= maxDurationSeconds.
Proof. unfold validateDurationSeconds. rewrite check_Ok. naive_solver. Qed.

(** ** Transaction policies *)

Definition fee_policy_ok (maxFee maxPriorityFee : string) : Prop :=
  exists m, parseDecimal maxFee = Some m /\ 0 < m /\
    (maxPriorityFee = ""%string \/ exists p, parseDecimal maxPriorityFee = Some p /\ 0 < p <= m).
Definition submission_ok (maxFee maxPriorityFee minBalance : string) : Prop :=
  fee_policy_ok maxFee maxPriorityFee /\ positive_decimal minBalance.
Definition role_ok (role : TxRoleConfig) : Prop :=
  submission_ok (rcf_MaxFeePerGasWei role) (rcf_MaxPriorityFeePerGasWei role) (rcf_MinNativeBalanceWei role).

Lemma validateTxFeePolicy_Ok prefix m p : validateTxFeePolicy prefix m p = Ok tt <-> fee_policy_ok m p.
Proof.
  unfold validateTxFeePolicy, fee_policy_ok. rewrite check_Ok, bind_Ok. setoid_rewrite ParsePositiveDecimal_Ok.
  split.
  - intros (_ & z & (Hz & Hp) & E). exists z. split_and!; [done..|]. case_decide as Hd; [by left|right].
    apply bind_Ok in E as (q & [Hq Hq0]%ParsePositiveDecimal_Ok & [Hle _]%check_Ok). eauto.
  - intros (z & Hz & Hp & Hpr). split; [by intros ->|]. exists z. split; [done|].
    case_decide as Hd; [done|]. destruct Hpr as [?|(q & Hq & Hr)]; [done|].
    apply bind_Ok. exists q. split; [apply ParsePositiveDecimal_Ok; split; [done|lia]|].
    rewrite check_Ok. split; [lia|done].
Qed.

Lemma validateTxSubmissionPolicy_Ok prefix m p b :
  validateTxSubmissionPolicy prefix m p b = Ok tt <-> submission_ok m p b.
Proof.
  unfold validateTxSubmissionPolicy, submission_ok.
  rewrite bind_unit_Ok, validateTxFeePolicy_Ok, check_Ok, parse_positive_unit.
  split; [tauto|]. intros (Hf & Hb). split_and!; [done|by apply positive_decimal_nonempty|done].
Qed.

(** ** Signers, chains and required DVNs *)

Section validated.
Context `{AddressText, ConfigRuntime}.

(** What validateSigner checks of one entry. *)
Definition signer_ok (signer : SignerConfig) : Prop :=
  sg_ID signer <> 0 /\
  (sg_Type signer = "keystore"%string /\ ks_Path (sg_Keystore signer) <> ""%string /\
     (ks_PasswordEnv (sg_Keystore signer) = ""%string <-> ks_PasswordFile (sg_Keystore signer) <> ""%string) \/
   sg_Type signer = "kms"%string /\ kms_Address (sg_KMS signer) <> 0 /\
     AddressHex (kms_Address (sg_KMS signer)) = AddressHex (sg_ID signer) /\
     kms_KeyID (sg_KMS signer) <> ""%string /\ kms_Region (sg_KMS signer) <> ""%string).

Lemma one_source a b :
  length (filter (fun value : string => value <> ""%string) [a; b]) = 1%nat <-> (a = ""%string <-> b <> ""%string).
Proof. rewrite !filter_cons, filter_nil. repeat case_decide; cbn; naive_solver. Qed.

Lemma validateSigner_Ok seen signer seen' :
  validateSigner seen signer = Ok seen' <->
  signer_ok signer /\ AddressHex (sg_ID signer) ∉ seen /\ seen' = {[AddressHex (sg_ID signer)]} ∪ seen.
Proof.
  unfold validateSigner, signer_ok, IsZero. rewrite !check_Ok, bind_unit_Ok.
  assert (forall A (a b : A), (Ok a : result string A) = Ok b <-> b = a) as Ha by naive_solver. rewrite Ha.
  case_decide as Hk; [|case_decide as Hm].
  - rewrite !check_Ok, one_source, Hk. naive_solver.
  - rewrite !check_Ok, Hm. naive_solver.
  - naive_solver.
Qed.

Definition signer_ids (c : Config) : gset string := list_to_set ((fun s => AddressHex (sg_ID s)) <$> cf_Signers c).

Lemma fold_left_union {A K} `{Countable K} (key : A -> K) l (s : gset K) :
  fold_left (fun s x => {[key x]} ∪ s) l s = list_to_set (key <$> l) ∪ s.
Proof. revert s. induction l as [|x l IH]; intros s; cbn; [set_solver|rewrite IH; set_solver]. Qed.

Lemma validateSigners_Ok c s :
  validateSigners c = Ok s <->
  Forall signer_ok (cf_Signers c) /\ NoDup ((fun s => AddressHex (sg_ID s)) <$> cf_Signers c) /\ s = signer_ids c.
Proof.
  unfold validateSigners.
  rewrite (eachM_keyed validateSigner signer_ok (fun s => AddressHex (sg_ID s)) (fun s k => k ∈ s)
             (fun s x => {[AddressHex (sg_ID x)]} ∪ s)).
  - rewrite fold_left_union, union_empty_r_L. split; [naive_solver|]. intros (H1 & H2 & H3).
    split_and!; try done. apply Forall_true. set_solver.
  - apply validateSigner_Ok.
  - set_solver.
Qed.

Lemma validateRequiredDVNSet_Ok label dvns openDVN :
  validateRequiredDVNSet label dvns openDVN = Ok tt <->
  (2 <= length dvns)%nat /\ NoDup dvns /\ 0 ∉ dvns /\ openDVN ∈ dvns.
Proof.
  unfold validateRequiredDVNSet. rewrite check_Ok, bind_Ok.
  set (add := fun (s : gset Address * bool * nat) dvn =>
    ({[dvn]} ∪ s.1.1, (if decide (dvn = openDVN) then true else s.1.2), S s.2)).
  setoid_rewrite (eachM_keyed _ (fun dvn => dvn <> 0) (fun dvn => dvn) (fun s k => k ∈ s.1.1) add).
  2:{ intros [[seen b] i] x s'. rewrite !check_Ok. unfold IsZero, add. cbn. naive_solver. }
  2:{ intros [[seen b] i] x k. cbn. set_solver. }
  assert (forall s, (fold_left add dvns s).1.2 = true <-> s.1.2 = true \/ openDVN ∈ dvns) as Ho.
  { induction dvns as [|d l IH]; intros s; cbn [fold_left].
    - rewrite elem_of_nil. tauto.
    - rewrite IH, elem_of_cons. unfold add at 1. cbn. case_decide; naive_solver. }
  rewrite list_fmap_id. setoid_rewrite check_Ok. split.
  - intros (Hlen & r & (Hz & Hnd & _ & ->) & Ht & _). apply Ho in Ht as [?|Ht]; [done|].
    split_and!; [lia|done| |done]. intros Hin. rewrite list.Forall_forall in Hz. by apply (Hz 0).
  - intros (Hlen & Hnd & Hz & Hin). split; [lia|]. eexists. split_and!; [|done|by apply Forall_true; set_solver|done| |done].
    + apply list.Forall_forall. intros x Hx ->. done.
    + apply Ho. by right.
Qed.

Definition signer_known (c : Config) (a : Address) : Prop := a <> 0 /\ AddressHex a ∈ signer_ids c.
Definition optional_role_ok (role : TxRoleConfig) : Prop :=
  ((rcf_MaxFeePerGasWei role = ""%string /\ rcf_MaxPriorityFeePerGasWei role = ""%string) \/
   fee_policy_ok (rcf_MaxFeePerGasWei role) (rcf_MaxPriorityFeePerGasWei role)) /\
  (rcf_MinNativeBalanceWei role = ""%string \/ positive_decimal (rcf_MinNativeBalanceWei role)).

Lemma validateExecutorTxRole_Ok c name role :
  validateExecutorTxRole name role (signer_ids c) = Ok tt <-> signer_known c (rcf_Signer role) /\ role_ok role.
Proof.
  unfold validateExecutorTxRole, signer_known, role_ok, IsZero.
  rewrite !check_Ok, validateTxSubmissionPolicy_Ok. tauto.
Qed.

Lemma validateRequiredDVNTxRole_Ok c name role :
  validateRequiredDVNTxRole name role (signer_ids c) = Ok tt <-> signer_known c (rcf_Signer role) /\ role_ok role.
Proof.
  unfold validateRequiredDVNTxRole, signer_known, role_ok, IsZero.
  rewrite !check_Ok, validateTxSubmissionPolicy_Ok. tauto.
Qed.

Lemma validateOptionalDVNTxRole_Ok name role : validateOptionalDVNTxRole name role = Ok tt <-> optional_role_ok role.
Proof.
  unfold validateOptionalDVNTxRole, validateOptionalTxSubmissionPolicy, optional_role_ok.
  case_decide as H1; [tauto|]. rewrite bind_unit_Ok. unfold validateOptionalTxFeePolicy.
  case_decide as H2; case_decide as H3; rewrite ?parse_positive_unit, ?validateTxFeePolicy_Ok; naive_solver.
Qed.

Record chain_ok (c : Config) (chain : ChainConfig) : Prop := {
  ck_eid : ccf_EID chain <> 0;
  ck_name : ccf_Name chain <> ""%string;
  ck_family : ccf_Family chain = ChainFamilyEVM;
  ck_chain_id : 0 < ccf_ChainID chain;
  ck_endpoint : ccf_EndpointAddress chain <> 0;
  ck_executor : ExecutorEnabled c = true -> signer_known c (rcf_Signer (ccf_Executor chain)) /\ role_ok (ccf_Executor chain);
  ck_dvn : DVNEnabled c = true -> optional_role_ok (ccf_DVN chain);
  ck_confirmations : ccf_Confirmations chain <> 0;
  ck_range : ccf_IndexerQueryBlockRange chain <> 0;
  ck_poll : ccf_IndexerPollIntervalSeconds chain <> 0 /\ ccf_IndexerPollIntervalSeconds chain <= maxDurationSeconds;
  ck_urls : ccf_RPCURLs chain <> [] /\ Forall (fun url => validateRPCURL url = Ok tt) (ccf_RPCURLs chain) }.

Lemma validateChain_Ok c chains chain chains' :
  validateChain c (signer_ids c) chains chain = Ok chains' <->
  chain_ok c chain /\ ~ is_Some (chains !! ccf_EID chain) /\ chains' = <[ccf_EID chain := chain]> chains.
Proof.
  unfold validateChain. rewrite !check_Ok, bind_unit_Ok, if_Ok, validateExecutorTxRole_Ok.
  rewrite bind_unit_Ok, if_Ok, validateOptionalDVNTxRole_Ok, !check_Ok, bind_unit_Ok, validateDurationSeconds_Ok.
  rewrite check_Ok, bind_unit_Ok, (checkEach_Ok _ (fun url => validateRPCURL url = Ok tt)).
  2:{ intros i x. destruct (validateRPCURL x) as [[]|]; naive_solver. }
  rewrite check_Ok, <- eq_None_not_Some. unfold IsZero. split.
  - intros H'. destruct_and! H'. split; [by constructor|]. split; [done|congruence].
  - intros (Hok & HN & ->). assert (ccf_Family chain <> ""%string) by (by rewrite (ck_family _ _ Hok)).
    destruct Hok. tauto.
Qed.

Lemma validateChains_Ok c chains :
  eachM (validateChain c (signer_ids c)) ∅ (cf_Chains c) = Ok chains <->
  Forall (chain_ok c) (cf_Chains c) /\ NoDup (ccf_EID <$> cf_Chains c) /\
  chains = fold_left (fun m x => <[ccf_EID x := x]> m) (cf_Chains c) ∅.
Proof.
  rewrite (eachM_keyed _ (chain_ok c) ccf_EID (fun m k => is_Some (m !! k)) (fun m x => <[ccf_EID x := x]> m)).
  - split; [naive_solver|]. intros (H1 & H2 & H3). split_and!; [done..| |done].
    apply Forall_true. intros x. rewrite lookup_empty. apply is_Some_None.
  - apply validateChain_Ok.
  - intros m x k. destruct (decide (k = ccf_EID x)) as [->|].
    + rewrite lookup_insert_eq. naive_solver.
    + rewrite lookup_insert_ne by done. naive_solver.
Qed.

(** ** Price sources *)

Definition duration_ok (seconds : Z) : Prop := seconds <> 0 /\ seconds <= maxDurationSeconds.

Definition chainlink_ok (s : ChainlinkPricingConfig) : Prop :=
  clc_FeedAddress s <> 0 /\ clc_ExpectedDescription s <> ""%string /\
  TrimSpace (clc_ExpectedDescription s) = clc_ExpectedDescription s /\ duration_ok (clc_MaxAgeSeconds s).
Definition uniswap_ok (s : UniswapPricingConfig) : Prop :=
  uc_PoolAddress s <> 0 /\ uc_TokenIn s <> 0 /\ uc_TokenOut s <> 0 /\ uc_TokenIn s <> uc_TokenOut s /\
  MinUniswapTWAPWindowSeconds <= uc_TWAPWindowSeconds s < 2 ^ 32 /\ duration_ok (uc_MaxBlockAgeSeconds s) /\
  positive_decimal (uc_MinHarmonicMeanLiquidity s).

(** The section of a source that is referenced is filled in. *)
Definition source_ok (chain : PricingChainConfig) (coinMarketCapAPIKeyEnv source : string) : Prop :=
  (source = "coinmarketcap"%string -> coinMarketCapAPIKeyEnv <> ""%string /\ cmc_ID (pc_CoinMarketCap chain) <> 0 /\
     duration_ok (cmc_MaxAgeSeconds (pc_CoinMarketCap chain))) /\
  (source = "coingecko"%string -> cg_ID (pc_CoinGecko chain) <> ""%string /\
     duration_ok (cg_MaxAgeSeconds (pc_CoinGecko chain))) /\
  (source = "chainlink"%string -> chainlink_ok (pc_Chainlink chain)) /\
  (source = "uniswap"%string -> uniswap_ok (pc_Uniswap chain)).

Lemma validateChainlinkPricingSource_Ok chain :
  validateChainlinkPricingSource chain = Ok tt <-> chainlink_ok (pc_Chainlink chain).
Proof.
  unfold validateChainlinkPricingSource, chainlink_ok, duration_ok, IsZero.
  rewrite !check_Ok, validateDurationSeconds_Ok. split.
  - intros (? & Hd & E & ?). rewrite E in Hd. tauto.
  - intros (? & ? & E & ?). rewrite E. tauto.
Qed.

Lemma validateUniswapPricingSource_Ok chain :
  validateUniswapPricingSource chain = Ok tt <-> uniswap_ok (pc_Uniswap chain).
Proof.
  unfold validateUniswapPricingSource, uniswap_ok, duration_ok.
  rewrite bind_unit_Ok, (checkEach_range_Ok _ (fun x : string * Address => x.2 <> 0)).
  2:{ intros i [label value]. rewrite check_Ok. unfold IsZero. naive_solver. }
  rewrite !check_Ok, bind_unit_Ok, validateDurationSeconds_Ok, check_Ok, parse_positive_unit.
  rewrite !Forall_cons, Forall_nil. cbn [snd]. unfold MinUniswapTWAPWindowSeconds. split.
  - intros H'. destruct_and! H'. split_and!; try done; lia.
  - intros H'. destruct_and! H'. split_and!; try done; try lia. by apply positive_decimal_nonempty.
Qed.

Lemma validateConfiguredPricingSource_Ok chain source env :
  validateConfiguredPricingSource chain source env = Ok tt <-> source_ok chain env source.
Proof.
  unfold validateConfiguredPricingSource, source_ok, duration_ok.
  repeat case_decide; subst; rewrite ?check_Ok, ?validateDurationSeconds_Ok, ?validateChainlinkPricingSource_Ok,
    ?validateUniswapPricingSource_Ok; naive_solver.
Qed.

Definition sources_of (chain : PricingChainConfig) : list string := pc_PrimarySource chain :: pc_SanitySources chain.

(** A section with a value in it belongs to a referenced source. *)
Definition no_stray_source (chain : PricingChainConfig) : Prop :=
  (coinMarketCapPricingConfigured (pc_CoinMarketCap chain) -> "coinmarketcap"%string ∈ sources_of chain) /\
  (coinGeckoPricingConfigured (pc_CoinGecko chain) -> "coingecko"%string ∈ sources_of chain) /\
  (chainlinkPricingConfigured (pc_Chainlink chain) -> "chainlink"%string ∈ sources_of chain) /\
  (uniswapPricingConfigured (pc_Uniswap chain) -> "uniswap"%string ∈ sources_of chain).

Record chain_sources_ok (env : string) (chain : PricingChainConfig) : Prop := {
  cso_primary : pc_PrimarySource chain ∈ ["coinmarketcap"; "coingecko"; "chainlink"]%string;
  cso_sanity : Forall (fun s => s ∈ ["coinmarketcap"; "coingecko"; "chainlink"; "uniswap"]%string) (pc_SanitySources chain);
  cso_distinct : NoDup (sources_of chain);
  cso_filled : Forall (source_ok chain env) (sources_of chain);
  cso_stray : no_stray_source chain }.

Lemma validatePrimaryPricingSourceName_Ok eid s :
  validatePrimaryPricingSourceName eid s = Ok tt <-> s ∈ ["coinmarketcap"; "coingecko"; "chainlink"]%string.
Proof. unfold validatePrimaryPricingSourceName. repeat case_decide; naive_solver. Qed.
Lemma validateSanityPricingSourceName_Ok eid f s :
  validateSanityPricingSourceName eid f s = Ok tt <-> s ∈ ["coinmarketcap"; "coingecko"; "chainlink"; "uniswap"]%string.
Proof. unfold validateSanityPricingSourceName. repeat case_decide; naive_solver. Qed.

Lemma validatePricingChainSources_Ok chain env :
  validatePricingChainSources chain env = Ok tt <-> chain_sources_ok env chain.
Proof.
  unfold validatePricingChainSources. rewrite bind_unit_Ok, bind_Ok, validatePrimaryPricingSourceName_Ok.
  set (known := fun s => s ∈ ["coinmarketcap"; "coingecko"; "chainlink"; "uniswap"]%string).
  set (add := fun (s : gset string * nat) source => ({[source]} ∪ s.1, S s.2)).
  setoid_rewrite (eachM_keyed _ known (fun s => s) (fun s k => k ∈ s.1) add).
  2:{ intros [seen i] x s'. rewrite bind_unit_Ok, check_Ok, validateSanityPricingSourceName_Ok. cbn. naive_solver. }
  2:{ intros [seen i] x k. cbn. set_solver. }
  assert (forall l s, (fold_left add l s).1 = list_to_set l ∪ s.1) as Hadd.
  { induction l as [|x l IH]; intros s; cbn; [set_solver|rewrite IH; cbn; set_solver]. }
  rewrite list_fmap_id. setoid_rewrite bind_unit_Ok.
  setoid_rewrite (checkEach_range_Ok _ (source_ok chain env)); [|intros _ x; apply validateConfiguredPricingSource_Ok].
  set (seen := list_to_set (sources_of chain) : gset string).
  assert ((fold_left add (pc_SanitySources chain) ({[pc_PrimarySource chain]}, 0%nat)).1 = seen) as Hseen.
  { rewrite Hadd. unfold seen, sources_of. cbn. set_solver. }
  assert (Forall (source_ok chain env) (elements seen) <-> Forall (source_ok chain env) (sources_of chain)) as Hfill.
  { rewrite !list.Forall_forall. unfold seen. setoid_rewrite elem_of_elements. by setoid_rewrite elem_of_list_to_set. }
  assert (forall source b e, (check ~ (b = true /\ source ∉ seen) or e ;; Ok tt) = (Ok tt : result string unit) <->
            (b = true -> source ∈ sources_of chain)) as Hone.
  { intros source b e. rewrite check_Ok. unfold seen. rewrite elem_of_list_to_set.
    destruct b, (decide (source ∈ sources_of chain)); naive_solver. }
  split.
  - intros (Hp & s & (Hk & Hnd & Hno & ->) & Hf & Hst). rewrite Hseen in Hf, Hst. apply Hfill in Hf. constructor; try done.
    + unfold sources_of. constructor; [|done]. intros Hin. rewrite list.Forall_forall in Hno.
      apply (Hno _ Hin). cbn. set_solver.
    + rewrite (checkEach_range_Ok _ (fun x : string * bool => x.2 = true -> x.1 ∈ sources_of chain)) in Hst.
      2:{ intros i [source b]. apply Hone. }
      rewrite !Forall_cons in Hst. cbn [fst snd] in Hst. rewrite !bool_decide_eq_true in Hst. unfold no_stray_source. tauto.
  - intros [Hp Hk Hnd Hf Hst]. split; [done|]. eexists. split_and!; [done| | |done| |].
    + by apply NoDup_cons in Hnd as [_ ?].
    + apply NoDup_cons in Hnd as [Hni _]. apply list.Forall_forall. cbn. intros x Hx ->%elem_of_singleton. done.
    + rewrite Hseen. by apply Hfill.
    + rewrite Hseen, (checkEach_range_Ok _ (fun x : string * bool => x.2 = true -> x.1 ∈ sources_of chain)).
      2:{ intros i [source b]. apply Hone. }
      rewrite !Forall_cons, Forall_nil. cbn [fst snd]. rewrite !bool_decide_eq_true. unfold no_stray_source in Hst. tauto.
Qed.

(** ** Pricing *)

Record pricing_chain_ok (chain : PricingChainConfig) : Prop := {
  pco_data_fee : nonnegative_decimal (pc_DataFeePerByteWei chain);
  pco_asset : pc_NativeAssetID chain <> ""%string /\ TrimSpace (pc_NativeAssetID chain) = pc_NativeAssetID chain /\
    pc_NativeAssetID chain = ToLower (pc_NativeAssetID chain);
  pco_policy : submission_ok (tp_MaxFeePerGasWei (pc_TxPolicy chain)) (tp_MaxPriorityFeePerGasWei (pc_TxPolicy chain))
    (tp_MinNativeBalanceWei (pc_TxPolicy chain)) }.

Lemma validatePricingChain_Ok chains m chain m' :
  validatePricingChain chains m chain = Ok m' <->
  (pc_EID chain ∈ chains /\ pricing_chain_ok chain) /\ ~ is_Some (m !! pc_EID chain) /\
  m' = <[pc_EID chain := chain]> m.
Proof.
  unfold validatePricingChain, validatePricingChainBase. rewrite !check_Ok, bind_unit_Ok, check_Ok, bind_Ok.
  setoid_rewrite check_Ok. rewrite bind_unit_Ok, validateTxSubmissionPolicy_Ok, <- eq_None_not_Some.
  setoid_rewrite ParseNonNegativeDecimal_Ok. repeat setoid_rewrite check_Ok. split.
  - intros (? & ? & (? & z & ? & ?) & ? & [= <-]). split_and!; try done. constructor; [by exists z|tauto|done].
  - intros ((Hin & [Hf Ha Hp]) & HN & ->). split_and!; try done; [by apply nonnegative_decimal_nonempty|].
    destruct Hf as (z & ?). exists z. tauto.
Qed.

(** A pathway between chains of different native assets needs the market prices of both. *)
Definition crosses_assets (c : Config) (p : PathwayConfig) : Prop :=
  exists s d, s ∈ pr_Chains (cf_Pricing c) /\ d ∈ pr_Chains (cf_Pricing c) /\ pc_EID s = pw_SrcEID p /\
    pc_EID d = pw_DstEID p /\ pc_NativeAssetID s <> pc_NativeAssetID d.
Definition market_required (c : Config) (eid : Z) : Prop :=
  exists p, p ∈ cf_Pathways c /\ crosses_assets c p /\ (eid = pw_SrcEID p \/ eid = pw_DstEID p).

Lemma pricingMarketSourceRequirements_spec c eid : NoDup (pc_EID <$> pr_Chains (cf_Pricing c)) ->
  eid ∈ pricingMarketSourceRequirements (cf_Pathways c)
          (fold_left (fun m x => <[pc_EID x := x]> m) (pr_Chains (cf_Pricing c)) ∅) <-> market_required c eid.
Proof.
  intros Hnd. unfold pricingMarketSourceRequirements, market_required. set (m := fold_left _ (pr_Chains _) ∅).
  assert (forall eid x, m !! eid = Some x <-> x ∈ pr_Chains (cf_Pricing c) /\ pc_EID x = eid) as Hm
    by (intros; by apply keyed_map_lookup).
  induction (cf_Pathways c) as [|p l IH] using rev_ind; [set_solver|].
  rewrite fold_left_app. cbn [fold_left]. setoid_rewrite elem_of_app. setoid_rewrite list_elem_of_singleton.
  assert (forall Q : PathwayConfig -> Prop, (exists p0, (p0 ∈ l \/ p0 = p) /\ Q p0) <-> (exists p0, p0 ∈ l /\ Q p0) \/ Q p) as Hsp by naive_solver.
  rewrite Hsp, <- IH. unfold crosses_assets.
  destruct (m !! pw_SrcEID p) as [s|] eqn:Es; [destruct (m !! pw_DstEID p) as [d|] eqn:Ed|].
  - apply Hm in Es as [Hs Es], Ed as [Hd Ed]. case_decide as Ha.
    + split; [by left|]. intros [?|((s' & d' & Hs' & Hd' & Es' & Ed' & Hne) & _)]; [done|]. destruct Hne.
      rewrite <- Es in Es'. rewrite <- Ed in Ed'.
      rewrite (proj1 (keyed_unique _ _ Hnd s' s Hs' Hs) Es'), (proj1 (keyed_unique _ _ Hnd d' d Hd' Hd) Ed'). done.
    + rewrite elem_of_union, elem_of_union, !elem_of_singleton. split; [|naive_solver].
      intros [?|?]; [right|by left]. split; [exists s, d; tauto|tauto].
  - split; [by left|]. intros [?|((s' & d' & Hs' & Hd' & Es' & Ed' & Hne) & _)]; [done|].
    assert (m !! pw_DstEID p = Some d') by (by apply Hm). congruence.
  - split; [by left|]. intros [?|((s' & d' & Hs' & Hd' & Es' & Ed' & Hne) & _)]; [done|].
    assert (m !! pw_SrcEID p = Some s') by (by apply Hm). congruence.
Qed.

Record pricing_ok (c : Config) : Prop := {
  po_settings : validatePricingSettings (cf_Pricing c) (signer_ids c) = Ok tt;
  po_chains : Forall pricing_chain_ok (pr_Chains (cf_Pricing c));
  po_distinct : NoDup (pc_EID <$> pr_Chains (cf_Pricing c));
  po_every : forall eid, eid ∈ pc_EID <$> pr_Chains (cf_Pricing c) <-> eid ∈ ccf_EID <$> cf_Chains c;
  po_sources : forall chain, chain ∈ pr_Chains (cf_Pricing c) -> market_required c (pc_EID chain) ->
    chain_sources_ok (pr_CoinMarketCapAPIKeyEnv (cf_Pricing c)) chain;
  po_no_sources : forall chain, chain ∈ pr_Chains (cf_Pricing c) -> ~ market_required c (pc_EID chain) ->
    pricingChainHasMarketSources chain = false }.

Lemma same_keys {A B} (ka : A -> Z) (kb : B -> Z) (la : list A) (lb : list B) :
  NoDup (ka <$> la) -> NoDup (kb <$> lb) -> Forall (fun x => ka x ∈ kb <$> lb) la ->
  length la = length lb <-> (forall k, k ∈ ka <$> la <-> k ∈ kb <$> lb).
Proof.
  intros Ha Hb Hin. rewrite list.Forall_forall in Hin. split.
  - intros Hlen. assert (ka <$> la ≡ₚ kb <$> lb) as Hp; [|intros k; by rewrite Hp].
    apply submseteq_length_Permutation; [|rewrite !length_fmap; lia].
    apply NoDup_submseteq; [done|]. intros k (x & -> & Hx)%list_elem_of_fmap. auto.
  - intros E. assert (ka <$> la ≡ₚ kb <$> lb) as Hp by (by apply NoDup_Permutation).
    apply Permutation_length in Hp. by rewrite !length_fmap in Hp.
Qed.

Lemma validatePricing_Ok c (chains : gset Z) :
  NoDup (ccf_EID <$> cf_Chains c) -> chains = list_to_set (ccf_EID <$> cf_Chains c) ->
  validatePricing c chains (signer_ids c) = Ok tt <-> (pr_Enabled (cf_Pricing c) = true -> pricing_ok c).
Proof.
  intros Hnd ->. unfold validatePricing. destruct (pr_Enabled (cf_Pricing c)); [cbn [negb]|naive_solver].
  rewrite bind_unit_Ok, bind_Ok.
  setoid_rewrite (eachM_keyed _ (fun x => pc_EID x ∈ (list_to_set (ccf_EID <$> cf_Chains c) : gset Z) /\ pricing_chain_ok x)
    pc_EID (fun m k => is_Some (m !! k)) (fun m x => <[pc_EID x := x]> m)).
  2:{ intros. apply validatePricingChain_Ok. }
  2:{ intros m x k. destruct (decide (k = pc_EID x)) as [->|].
      - rewrite lookup_insert_eq. naive_solver.
      - rewrite lookup_insert_ne by done. naive_solver. }
  set (l := pr_Chains (cf_Pricing c)).
  assert (forall required : gset Z, (forall e, e ∈ required <-> market_required c e) ->
    checkEach (fun _ chain => if decide (pc_EID chain ∉ required) then
      check pricingChainHasMarketSources chain = false or pricing_chain (pc_EID chain)
             " market sources must be omitted when no cross-asset pathway uses the chain" ;; Ok tt
      else validatePricingChainSources chain (pr_CoinMarketCapAPIKeyEnv (cf_Pricing c))) 0%nat l = Ok tt <->
    Forall (fun chain => (market_required c (pc_EID chain) -> chain_sources_ok (pr_CoinMarketCapAPIKeyEnv (cf_Pricing c)) chain) /\
      (~ market_required c (pc_EID chain) -> pricingChainHasMarketSources chain = false)) l) as Hsrc.
  { intros required Hr. apply checkEach_Ok. intros i x. case_decide as Hd.
    - rewrite Hr in Hd. rewrite check_Ok. naive_solver.
    - rewrite validatePricingChainSources_Ok.
      apply Hr in Hd. tauto. }
  split.
  - intros (Hs & m & (Hall & Hd & _ & ->) & [Hsize Hck]%check_Ok) _. fold l in Hd.
    apply (Hsrc _ (fun e => pricingMarketSourceRequirements_spec c e Hd)) in Hck.
    rewrite list.Forall_forall in Hck.
    apply Forall_and in Hall as [Hin Hok]. rewrite keyed_map_size, size_list_to_set, length_fmap in Hsize by done.
    constructor; [done..| |naive_solver|naive_solver].
    apply (same_keys pc_EID ccf_EID l (cf_Chains c)); [done..| |done].
    eapply list.Forall_impl; [apply Hin|]. intros x. by rewrite elem_of_list_to_set.
  - intros Hok. destruct (Hok eq_refl) as [Hs Hch Hd Hev Hsr Hns]. split; [done|]. eexists. rewrite check_Ok. split_and!; [|done| |done| |].
    + apply Forall_and. split; [|done]. apply list.Forall_forall. intros x Hx. rewrite elem_of_list_to_set, <- Hev.
      by apply list_elem_of_fmap_2.
    + apply Forall_true. intros x. rewrite lookup_empty. apply is_Some_None.
    + rewrite keyed_map_size, size_list_to_set, length_fmap by done.
      apply (same_keys pc_EID ccf_EID l (cf_Chains c)); try done.
      apply list.Forall_forall. intros x Hx. rewrite <- Hev. by apply list_elem_of_fmap_2.
    + apply (Hsrc _ (fun e => pricingMarketSourceRequirements_spec c e Hd)), list.Forall_forall. naive_solver.
Qed.

(** ** Pathways *)

Definition dvn_set_ok (dvns : list Address) (openDVN : Address) : Prop :=
  (2 <= length dvns)%nat /\ NoDup dvns /\ 0 ∉ dvns /\ openDVN ∈ dvns.

Definition fee_model_ok (m : WorkerFeeModelConfig) : Prop :=
  nonnegative_decimal (FixedFeeWei m) /\ DataSizeOverheadBytes m <> None /\ MarginBps m <= 10000.

Lemma validateWorkerFeeModel_Ok prefix m : validateWorkerFeeModel prefix m = Ok tt <-> fee_model_ok m.
Proof.
  unfold validateWorkerFeeModel, fee_model_ok. rewrite check_Ok, bind_Ok. repeat setoid_rewrite check_Ok.
  setoid_rewrite ParseNonNegativeDecimal_Ok. split.
  - intros (_ & z & Hz & ? & ? & _). split_and!; [by exists z|done..].
  - intros (Hz & ? & ?). split; [by apply nonnegative_decimal_nonempty|]. destruct Hz as (z & ?). eauto 10.
Qed.

(** Every address a pathway names is set. *)
Definition pathway_addresses (p : PathwayConfig) : list Address :=
  [pw_SrcOApp p; pw_DstOApp p; pw_SendLib p; pw_ReceiveLib p; OpenExecutor (pw_SourceWorkers p);
   OpenDVN (pw_SourceWorkers p); PriceFeed (pw_SourceWorkers p); pw_DestinationOpenDVN p].

Record pathway_ok (c : Config) (p : PathwayConfig) : Prop := {
  pk_chains : exists s d, s ∈ cf_Chains c /\ d ∈ cf_Chains c /\ ccf_EID s = pw_SrcEID p /\ ccf_EID d = pw_DstEID p /\
    ccf_Confirmations d <= ccf_Confirmations s;
  pk_cross : pw_SrcEID p <> pw_DstEID p;
  pk_addresses : Forall (fun a => a <> 0) (pathway_addresses p);
  pk_send_dvns : dvn_set_ok (pw_SendRequiredDVNs p) (OpenDVN (pw_SourceWorkers p));
  pk_receive_dvns : dvn_set_ok (pw_ReceiveRequiredDVNs p) (pw_DestinationOpenDVN p);
  pk_mode : pw_DVNMode p = DVNModeShadow \/ pw_DVNMode p = DVNModeActive;
  pk_size : pw_MaxMessageSize p <> 0 /\ pw_MaxMessageSize p <= 2 ^ 31 - 1;
  pk_gas : pw_MaxLzReceiveGas p <> 0 /\ pw_MinLzReceiveGas p <= pw_MaxLzReceiveGas p;
  pk_pricing : pr_Enabled (cf_Pricing c) = true ->
    fee_model_ok (ExecutorFee (pw_Pricing p)) /\ fee_model_ok (DVNFee (pw_Pricing p)) }.

Lemma pathway_chains_Ok c (chains : gmap Z ChainConfig) p :
  (forall k x, chains !! k = Some x <-> x ∈ cf_Chains c /\ ccf_EID x = k) ->
  (exists s d, s ∈ cf_Chains c /\ d ∈ cf_Chains c /\ ccf_EID s = pw_SrcEID p /\ ccf_EID d = pw_DstEID p /\
    ccf_Confirmations d <= ccf_Confirmations s) <->
  chains !! pw_SrcEID p <> None /\ chains !! pw_DstEID p <> None /\
  ~ (from_option ccf_Confirmations 0 (chains !! pw_SrcEID p) < from_option ccf_Confirmations 0 (chains !! pw_DstEID p)).
Proof.
  intros Hm. split.
  - intros (s & d & Hs & Hd & Es & Ed & Hc). rewrite (proj2 (Hm _ _) (conj Hs Es)), (proj2 (Hm _ _) (conj Hd Ed)).
    cbn. split_and!; [done..|lia].
  - destruct (chains !! pw_SrcEID p) as [s|] eqn:Es; [|by intros [? _]].
    destruct (chains !! pw_DstEID p) as [d|] eqn:Ed; [|by intros (_ & ? & _)].
    cbn. intros (_ & _ & Hc). apply Hm in Es as [? ?], Ed as [? ?]. exists s, d. split_and!; try done. lia.
Qed.

Definition add_pathway (s : gset string * gset Z) (p : PathwayConfig) : gset string * gset Z :=
  ({[pathway_key p]} ∪ s.1, if decide (pw_DVNMode p = DVNModeActive) then {[pw_DstEID p]} ∪ s.2 else s.2).

Lemma validatePathway_Ok c chains s p s' :
  (forall k x, chains !! k = Some x <-> x ∈ cf_Chains c /\ ccf_EID x = k) ->
  validatePathway c chains s p = Ok s' <-> pathway_ok c p /\ pathway_key p ∉ s.1 /\ s' = add_pathway s p.
Proof.
  intros Hm. destruct s as [keys active]. unfold validatePathway. cbn beta iota zeta. rewrite !check_Ok, bind_unit_Ok.
  rewrite (checkEach_range_Ok _ (fun x : string * Address => x.2 <> 0)).
  2:{ intros i [field value]. rewrite check_Ok. unfold IsZero. naive_solver. }
  rewrite bind_unit_Ok, validateRequiredDVNSet_Ok, bind_unit_Ok, validateRequiredDVNSet_Ok, bind_Ok.
  rewrite !Forall_cons, Forall_nil. cbn [fst snd].
  assert (forall a, (check pw_MaxMessageSize p <> 0 or pathwayLabel p "max_message_size is required" ;;
    check pw_MaxMessageSize p <= 2 ^ 31 - 1 or pathwayLabel p "max_message_size exceeds database integer limit" ;;
    check pw_MaxLzReceiveGas p <> 0 or pathwayLabel p "max_lz_receive_gas is required" ;;
    check pw_MinLzReceiveGas p <= pw_MaxLzReceiveGas p or pathwayLabel p "min_lz_receive_gas exceeds max_lz_receive_gas" ;;
    _ ← (if pr_Enabled (cf_Pricing c) then validatePathwayPricing p else Ok tt);
    let key := pathwayKey (pw_SrcEID p) (pw_DstEID p) (pw_SrcOApp p) (pw_DstOApp p) in
    check key ∉ keys or ("duplicate pathway " +:+ key)%string ;; Ok ({[key]} ∪ keys, a)) = Ok s' <->
    (pw_MaxMessageSize p <> 0 /\ pw_MaxMessageSize p <= 2 ^ 31 - 1) /\
    (pw_MaxLzReceiveGas p <> 0 /\ pw_MinLzReceiveGas p <= pw_MaxLzReceiveGas p) /\
    (pr_Enabled (cf_Pricing c) = true -> fee_model_ok (ExecutorFee (pw_Pricing p)) /\ fee_model_ok (DVNFee (pw_Pricing p))) /\
    pathway_key p ∉ keys /\ s' = ({[pathway_key p]} ∪ keys, a)) as Hrest.
  { intros a. rewrite !check_Ok, bind_unit_Ok, if_Ok. unfold validatePathwayPricing.
    rewrite bind_unit_Ok, !validateWorkerFeeModel_Ok, check_Ok. unfold pathway_key.
    assert (forall A (a b : A), (Ok a : result string A) = Ok b <-> b = a) as Ha by naive_solver. rewrite Ha. tauto. }
  setoid_rewrite Hrest. unfold add_pathway. cbn [fst snd].
  assert (forall a, (if decide (pw_DVNMode p = DVNModeShadow) then Ok active
    else if decide (pw_DVNMode p = DVNModeActive) then Ok ({[pw_DstEID p]} ∪ active)
    else Err (pathwayLabel p ("unsupported dvn mode " +:+ quoted (pw_DVNMode p)))) = Ok a <->
    (pw_DVNMode p = DVNModeShadow \/ pw_DVNMode p = DVNModeActive) /\
    a = if decide (pw_DVNMode p = DVNModeActive) then {[pw_DstEID p]} ∪ active else active) as Hmode.
  { intros a. destruct (decide (pw_DVNMode p = DVNModeShadow)) as [Es|Hs].
    - rewrite Es, decide_False by done. split; [intros [= <-]; auto|by intros [_ ->]].
    - destruct (decide (pw_DVNMode p = DVNModeActive)); [split; [intros [= <-]; auto|by intros [_ ->]]|]. split; [done|by intros [[?|?] _]]. }
  setoid_rewrite Hmode. split.
  - intros (H1 & H2 & H3 & H4 & H5 & H6 & H7 & a & (H8 & ->) & H9 & H10 & H11 & H12 & ->).
    split; [|done]. constructor; try done; [by apply (pathway_chains_Ok c chains)|].
    unfold pathway_addresses. rewrite !Forall_cons, Forall_nil. done.
  - intros ([H1 H2 H3 H4 H5 H6 H7 H8 H9] & Hk & ->). apply (pathway_chains_Ok c chains) in H1 as (? & ? & ?); [|done].
    unfold pathway_addresses in H3. rewrite !Forall_cons, Forall_nil in H3.
    split_and!; try done; try apply H3; [apply H4|apply H4|apply H4|apply H4|apply H5|apply H5|apply H5|apply H5|]. eauto 10.
Qed.

Lemma validatePathways_Ok c chains s :
  (forall k x, chains !! k = Some x <-> x ∈ cf_Chains c /\ ccf_EID x = k) ->
  eachM (validatePathway c chains) (∅, ∅) (cf_Pathways c) = Ok s <->
  Forall (pathway_ok c) (cf_Pathways c) /\ NoDup (pathway_key <$> cf_Pathways c) /\
  s = fold_left add_pathway (cf_Pathways c) (∅, ∅).
Proof.
  intros Hm. rewrite (eachM_keyed _ (pathway_ok c) pathway_key (fun s k => k ∈ s.1) add_pathway).
  - split; [naive_solver|]. intros (? & ? & ?). split_and!; try done. apply Forall_true. cbn. set_solver.
  - intros. by apply validatePathway_Ok.
  - intros s0 x k. unfold add_pathway. cbn. set_solver.
Qed.

Lemma active_destinations l s eid :
  eid ∈ (fold_left add_pathway l s).2 <-> eid ∈ s.2 \/ exists p, p ∈ l /\ pw_DVNMode p = DVNModeActive /\ pw_DstEID p = eid.
Proof.
  revert s. induction l as [|p l IH]; intros s; cbn [fold_left]; [set_solver|].
  rewrite IH. setoid_rewrite elem_of_cons. unfold add_pathway. cbn. case_decide; set_solver.
Qed.

(** ** The whole configuration *)

Record valid_config (c : Config) : Prop := {
  vc_secrets : validateSecretReferences c = Ok tt;
  vc_market_urls : validateMarketDataBaseURL "pricing coinmarketcap_base_url" (pr_CoinMarketCapBaseURL (cf_Pricing c)) = Ok tt /\
    validateMarketDataBaseURL "pricing coingecko_base_url" (pr_CoinGeckoBaseURL (cf_Pricing c)) = Ok tt;
  vc_database : cf_DatabaseURL c <> ""%string;
  vc_replacement : duration_ok (cf_StaleBroadcastReplacementAfterSeconds c);
  vc_some_chain : cf_Chains c <> [];
  vc_signers : Forall signer_ok (cf_Signers c) /\ NoDup ((fun s => AddressHex (sg_ID s)) <$> cf_Signers c);
  vc_chains : Forall (chain_ok c) (cf_Chains c);
  vc_eids : NoDup (ccf_EID <$> cf_Chains c);
  vc_pricing : pr_Enabled (cf_Pricing c) = true -> pricing_ok c;
  vc_pathways : Forall (pathway_ok c) (cf_Pathways c);
  vc_routes : NoDup (pathway_key <$> cf_Pathways c);
  vc_dvn : DVNEnabled c = true -> forall p chain, p ∈ cf_Pathways c -> pw_DVNMode p = DVNModeActive ->
    chain ∈ cf_Chains c -> ccf_EID chain = pw_DstEID p -> signer_known c (rcf_Signer (ccf_DVN chain)) /\ role_ok (ccf_DVN chain) }.

Lemma dom_keyed_map {A} (key : A -> Z) (l : list A) : NoDup (key <$> l) ->
  dom (fold_left (fun m x => <[key x := x]> m) l ∅ : gmap Z A) = list_to_set (key <$> l).
Proof.
  intros Hnd. apply set_eq. intros k. rewrite elem_of_dom, elem_of_list_to_set, list_elem_of_fmap. split.
  - intros [x [Hx E]%keyed_map_lookup]; [eauto|done].
  - intros (x & -> & Hx). exists x. by apply keyed_map_lookup.
Qed.

(** The loop over the destinations of active DVN pathways. *)
Lemma active_roles_Ok c :
  NoDup (ccf_EID <$> cf_Chains c) -> Forall (pathway_ok c) (cf_Pathways c) ->
    (if DVNEnabled c then checkEach (fun _ eid =>
      match fold_left (fun m x => <[ccf_EID x := x]> m) (cf_Chains c) (∅ : gmap Z ChainConfig) !! eid with
      | Some chain => validateRequiredDVNTxRole (ccf_Name chain) (ccf_DVN chain) (signer_ids c)
      | None => validateRequiredDVNTxRole "" (mkTxRoleConfig 0 "" "" "") (signer_ids c)
      end) 0%nat (range (elements (fold_left add_pathway (cf_Pathways c) (∅, ∅)).2)) else Ok tt) = Ok tt <->
    (DVNEnabled c = true -> forall p chain, p ∈ cf_Pathways c -> pw_DVNMode p = DVNModeActive ->
    chain ∈ cf_Chains c -> ccf_EID chain = pw_DstEID p -> signer_known c (rcf_Signer (ccf_DVN chain)) /\ role_ok (ccf_DVN chain)).
Proof.
  intros Hnd Hpw. rewrite if_Ok. apply forall_proper. intros _. set (m := fold_left _ (cf_Chains c) ∅).
  assert (forall k x, m !! k = Some x <-> x ∈ cf_Chains c /\ ccf_EID x = k) as Hm by (intros; by apply keyed_map_lookup).
  rewrite (checkEach_range_Ok _ (fun eid => match m !! eid with
    | Some chain => signer_known c (rcf_Signer (ccf_DVN chain)) /\ role_ok (ccf_DVN chain) | None => False end)).
  2:{ intros _ eid. destruct (m !! eid); rewrite validateRequiredDVNTxRole_Ok; [done|]. unfold signer_known. cbn. tauto. }
  rewrite list.Forall_forall. setoid_rewrite elem_of_elements. setoid_rewrite active_destinations. split.
  - intros Hall p chain Hp Ha Hc Ec. specialize (Hall (pw_DstEID p)). rewrite (proj2 (Hm _ _) (conj Hc Ec)) in Hall.
    apply Hall. right. eauto.
  - intros Hall eid [?|(p & Hp & Ha & <-)]; [set_solver|]. rewrite list.Forall_forall in Hpw.
    destruct (pk_chains _ _ (Hpw p Hp)) as (s & d & _ & Hd & _ & Ed & _).
    rewrite (proj2 (Hm _ _) (conj Hd Ed)). by eapply Hall.
Qed.

(** ValidateConfig accepts exactly the configurations with these properties. *)
Lemma Validate_iff c : ValidateConfig c = Ok tt <-> valid_config c.
Proof.
  unfold ValidateConfig. rewrite bind_unit_Ok, bind_unit_Ok, bind_unit_Ok, !check_Ok, bind_unit_Ok, validateDurationSeconds_Ok.
  rewrite check_Ok, bind_Ok.
  split.
  - intros (H1 & H2 & H3 & H4 & H5 & H6 & H7 & sg & (Hs1 & Hs2 & ->)%validateSigners_Ok & Hrest).
    apply bind_Ok in Hrest as (m & (Hc1 & Hc2 & ->)%validateChains_Ok & Hrest).
    apply bind_unit_Ok in Hrest as [Hp Hrest]. rewrite validatePricing_Ok in Hp by (done || by apply dom_keyed_map).
    apply bind_Ok in Hrest as (r & Hr & Hd). rewrite validatePathways_Ok in Hr by (intros; by apply keyed_map_lookup).
    destruct Hr as (Hp1 & Hp2 & ->).
    constructor; try done. by apply active_roles_Ok.
  - intros [H1 [H2 H3] H4 [H5 H6] H7 [Hs1 Hs2] Hc1 Hc2 Hp Hp1 Hp2 Hd]. split_and!; try done.
    exists (signer_ids c). split; [by apply validateSigners_Ok|]. apply bind_Ok. eexists. split; [by apply validateChains_Ok|].
    apply bind_unit_Ok. split; [apply validatePricing_Ok; [done|by apply dom_keyed_map|done]|].
    apply bind_Ok. eexists. split; [apply validatePathways_Ok; [intros; by apply keyed_map_lookup|done]|]. by apply active_roles_Ok.
Qed.
End validated.
