(* ===== verification/App.v ===== *)
(** * Assembling the worker from its configuration (go/internal/app/app.go)

    The price sources and the bot's settings, the DVN worker's signers, the transaction
    manager's targets with their fee policies, and the loop supervision. What the process
    reads while it starts (keystores, KMS keys, latest headers, pending pricing rows, API
    key variables) are arguments. *)

From S2P Require Import Prelude GoErr BigUtil Schema Outbox Jobs StateReads Quorum Proc TxMgr Worker Executor Dvn PriceMath PriceSelect PriceSources Pricing Registry FeeAccounting Config.
From stdpp Require Import base gmap list strings numbers pretty.
From Stdlib Require Import ZArith Lia.
#[local] Open Scope Z_scope.

(** An error of the process itself, or of the store. *)
Inductive apperr := AppText (msg : string) | AppStore (e : dberr).

Definition appText {A} (r : result string A) : result apperr A :=
  match r with Ok a => Ok a | Err e => Err (AppText e) end.
Definition appWrap {A} (prefix : string) (r : result string A) : result apperr A :=
  match r with Ok a => Ok a | Err e => Err (AppText (prefix +:+ e)) end.
Definition appStore {A} (r : result dberr A) : result apperr A :=
  match r with Ok a => Ok a | Err e => Err (AppStore e) end.

(** [for _, x := range l { s, err = f(s, x); if err != nil { return err } }] *)
Fixpoint eachE {E S A : Type} (f : S -> A -> result E S) (s : S) (l : list A) : result E S :=
  match l with
  | [] => Ok s
  | x :: l => s ← f s x; eachE f s l
  end.

(** ** Price sources *)

Definition pricingChainUsesSource (chain : PricingChainConfig) (source : string) : bool :=
  bool_decide (pc_PrimarySource chain = source) || bool_decide (source ∈ pc_SanitySources chain).
Definition pricingUsesSource (chains : list PricingChainConfig) (source : string) : bool :=
  existsb (fun chain => pricingChainUsesSource chain source) chains.

Definition NewCoinMarketCapPriceReader (id : Z) : result string unit :=
  check id <> 0 or "coinmarketcap id is required"%string ;; Ok tt.
Definition NewCoinGeckoPriceReader (coinID : string) : result string unit :=
  check coinID <> ""%string or "coingecko coin id is required"%string ;; Ok tt.

Definition uint32 (z : Z) : Z := z mod 2 ^ 32.

(** The zero value of a reader the map does not have. *)
Definition noReader : ConfiguredPriceReader := mkReader "" false 0.

(** What a chain and signer need of the transaction manager. *)
Record targetRequirement := mkRequirement {
  rq_policies : gmap string FeePolicy; rq_minNativeBalanceWei : option Z }.
Abbreviation requirements := (gmap (Z * string) targetRequirement).

Section app.
Context `{AddressText}.
#[local] Open Scope string_scope.
#[local] Open Scope Z_scope.

(** One reader, when the chain uses its source. *)
Definition addReader {A} (uses : bool) (name : string) (made : result string A) (maxAgeSeconds : Z)
    (readers : gmap string ConfiguredPriceReader) : result string (gmap string ConfiguredPriceReader) :=
  if uses then _ ← made; Ok (<[name := mkReader name true (secondsDuration maxAgeSeconds)]> readers)
  else Ok readers.

Definition uniswapReader (cfg : PricingChainConfig) : result string UniswapV3Client :=
  minimumLiquidity ← ParsePositiveDecimal "uniswap min_harmonic_mean_liquidity"
                       (uc_MinHarmonicMeanLiquidity (pc_Uniswap cfg));
  NewUniswapV3Client (uc_PoolAddress (pc_Uniswap cfg)) (uc_TokenIn (pc_Uniswap cfg)) (uc_TokenOut (pc_Uniswap cfg))
    (uint32 (uc_TWAPWindowSeconds (pc_Uniswap cfg))) (Some minimumLiquidity).

Definition chainReaders (cfg : PricingChainConfig) : result string (gmap string ConfiguredPriceReader) :=
  let uses := pricingChainUsesSource cfg in
  readers ← addReader (uses "coinmarketcap") "coinmarketcap" (NewCoinMarketCapPriceReader (cmc_ID (pc_CoinMarketCap cfg)))
              (cmc_MaxAgeSeconds (pc_CoinMarketCap cfg)) ∅;
  readers ← addReader (uses "coingecko") "coingecko" (NewCoinGeckoPriceReader (cg_ID (pc_CoinGecko cfg)))
              (cg_MaxAgeSeconds (pc_CoinGecko cfg)) readers;
  readers ← addReader (uses "chainlink") "chainlink"
              (NewChainlinkClient (clc_FeedAddress (pc_Chainlink cfg)) (clc_ExpectedDescription (pc_Chainlink cfg)))
              (clc_MaxAgeSeconds (pc_Chainlink cfg)) readers;
  addReader (uses "uniswap") "uniswap" (uniswapReader cfg) (uc_MaxBlockAgeSeconds (pc_Uniswap cfg)) readers.

(** The configured sources of a chain, by role. *)
Definition selectReaders (cfg : PricingChainConfig) (readers : gmap string ConfiguredPriceReader)
    : result string (ConfiguredPriceReader * list ConfiguredPriceReader) :=
  let get name := default noReader (readers !! name) in
  if decide (pc_PrimarySource cfg = ""%string /\ pc_SanitySources cfg = []) then Ok (noReader, []) else
  let primary := get (pc_PrimarySource cfg) in
  check cr_Reader primary = true
    or pricing_chain (pc_EID cfg) (" primary source " +:+ pc_PrimarySource cfg +:+ " is not configured") ;;
  sanity ← eachE (fun acc source =>
             check cr_Reader (get source) = true
               or pricing_chain (pc_EID cfg) (" sanity source " +:+ source +:+ " is not configured") ;;
             Ok (acc ++ [get source])%list) [] (pc_SanitySources cfg);
  Ok (primary, sanity).

Definition chainSources (registry : Registry) (sources : gmap Z ChainSources) (cfg : PricingChainConfig)
    : result string (gmap Z ChainSources) :=
  configuredChain ← Get registry (pc_EID cfg);
  readers ← chainReaders cfg;
  r ← selectReaders cfg readers;
  match ParseNonNegativeDecimal "data_fee_per_byte_wei" (pc_DataFeePerByteWei cfg) with
  | Err e => Err (pricing_chain (pc_EID cfg) (" data fee per byte: " +:+ e))
  | Ok dataFeePerByte =>
    Ok (<[pc_EID cfg := mkChainSources r.1 r.2 (bool_decide (is_Some (ch_RPC configuredChain)))
            (Some dataFeePerByte) (pc_NativeAssetID cfg)]> sources)
  end.

(** [cmcClient] and [cgClient] are what NewCoinMarketCapClient and NewCoinGeckoClient return:
    they normalise a base URL and read an API key from the environment. *)
Definition pricingSources (c : Config) (registry : Registry) (cmcClient cgClient : result string unit)
    : result string (gmap Z ChainSources) :=
  let chains := pr_Chains (cf_Pricing c) in
  _ ← (if pricingUsesSource chains "coinmarketcap" then cmcClient else Ok tt);
  _ ← (if pricingUsesSource chains "coingecko" then cgClient else Ok tt);
  eachE (chainSources registry) ∅ chains.

(** The settings priceBotWithSources builds. *)
Definition botSettings (p : PricingConfig) : Settings :=
  mkSettings true (AddressHex (pr_Signer p)) (secondsDuration (pr_IntervalSeconds p))
    (secondsDuration (pr_StaleAfterSeconds p)) (pr_MaxDeviationBps p) (pr_MinUpdateDeviationBps p)
    (secondsDuration (pr_HeartbeatSeconds p)) (secondsDuration (pr_SourceRequestTimeoutSeconds p)) (pr_GasSpikeBps p).

Definition disabledSettings : Settings := mkSettings false "" 0 0 0 0 0 0 0.

Definition priceBotWithSources (c : Config) (registry : Registry) (sources : gmap Z ChainSources)
    : result string (option BotConfig * BotState) :=
  NewWithDependencies registry
    (if pr_Enabled (cf_Pricing c) then botSettings (cf_Pricing c) else disabledSettings) sources.

(** ** The DVN worker's signers *)

Definition dvnSettings (registry : Registry) : result string (gmap Z string) :=
  eachE (fun settings pathway =>
    if decide (pw_DVNMode pathway <> DVNModeActive) then Ok settings else
    if decide (is_Some (settings !! pw_DstEID pathway)) then Ok settings else
    dstChain ← Get registry (pw_DstEID pathway);
    Ok (<[pw_DstEID pathway := tr_SignerID (ch_DVN dstChain)]> settings)) ∅ (Pathways registry).

Definition dvnWorker (registry : Registry) : result string DVNWorker :=
  settings ← dvnSettings registry; Ok (NewDVNWorker registry settings).

(** ** Signers *)

Definition signerConfigured (c : Config) (signerID : string) : bool :=
  existsb (fun cfg => EqualFold (AddressHex (sg_ID cfg)) signerID) (cf_Signers c).

(** [loadKeystore] decrypts a keystore to the address of its key; [validateKMS] asks the
    service whether the configured address is the key's. *)
Definition loadSigners (loadKeystore : KeystoreSignerConfig -> result string Address)
    (validateKMS : KMSSignerConfig -> result string unit) (c : Config) : result string (gmap string Address) :=
  eachE (fun signers cfg =>
    let id := AddressHex (sg_ID cfg) in
    if decide (sg_Type cfg = "keystore"%string) then
      loaded ← loadKeystore (sg_Keystore cfg);
      check AddressHex loaded = id or "keystore signer address does not match configured signer id"%string ;;
      Ok (<[id := loaded]> signers)
    else if decide (sg_Type cfg = "kms"%string) then
      _ ← validateKMS (sg_KMS cfg);
      Ok (<[id := kms_Address (sg_KMS cfg)]> signers)
    else Err "unsupported signer type"%string) ∅ (cf_Signers c).

(** ** Transaction targets *)

Definition feePolicy (maxFeePerGasWei maxPriorityFeePerGasWei : string) (legacyTransactions : bool)
    : result string FeePolicy :=
  maxFeePerGas ← ParseDecimal "max_fee_per_gas_wei" maxFeePerGasWei;
  maxPriorityFeePerGas ← (if decide (maxPriorityFeePerGasWei = ""%string) then Ok None
                          else Some <$> ParseDecimal "max_priority_fee_per_gas_wei" maxPriorityFeePerGasWei);
  Ok (mkFeePolicy (Some maxFeePerGas) maxPriorityFeePerGas legacyTransactions).

Definition addPolicy (required : requirements) (chainEID : Z) (signerID purpose : string) (policy : FeePolicy)
    (minNativeBalanceWei : option Z) : requirements :=
  let requirement := default (mkRequirement ∅ None) (required !! (chainEID, signerID)) in
  <[(chainEID, signerID) := mkRequirement (<[purpose := policy]> (rq_policies requirement))
      (Max (rq_minNativeBalanceWei requirement) minNativeBalanceWei)]> required.

(** The policy and the minimum balance of one role on a chain. *)
Definition rolePolicy (chainName role maxFee maxPriorityFee minBalance : string) (legacy : bool)
    : result apperr (FeePolicy * Z) :=
  policy ← appWrap ("chain " +:+ chainName +:+ " " +:+ role +:+ " fee policy: ") (feePolicy maxFee maxPriorityFee legacy);
  minBalance ← appWrap ("chain " +:+ chainName +:+ " " +:+ role +:+ " min native balance: ")
                 (ParsePositiveDecimal "min_native_balance_wei" minBalance);
  Ok (policy, minBalance).

Definition executorRequirements (c : Config) (required : requirements) (chain : Chain) : result apperr requirements :=
  if ExecutorEnabled c then
    let role := ch_Executor chain in
    r ← rolePolicy (ch_Name chain) "executor" (tr_MaxFeePerGasWei role) (tr_MaxPriorityFeePerGasWei role)
          (tr_MinNativeBalanceWei role) (ch_LegacyTransactions chain);
    let required := addPolicy required (ch_EID chain) (tr_SignerID role) TxPurposeCommitVerification r.1 (Some r.2) in
    Ok (addPolicy required (ch_EID chain) (tr_SignerID role) TxPurposeLzReceive r.1 (Some r.2))
  else Ok required.

(** [pending] is what ListPendingPricingSigners answers, in order; there is none without a
    store. *)
Definition pricingRequirements (c : Config) (registry : Registry) (pending : option (Z -> result dberr (list string)))
    (required : requirements) (pricingChain : PricingChainConfig) : result apperr requirements :=
  let hex := AddressHex (pr_Signer (cf_Pricing c)) in
  let policy := pc_TxPolicy pricingChain in
  chain ← appText (Get registry (pc_EID pricingChain));
  r ← rolePolicy (ch_Name chain) "pricing" (tp_MaxFeePerGasWei policy) (tp_MaxPriorityFeePerGasWei policy)
        (tp_MinNativeBalanceWei policy) (ch_LegacyTransactions chain);
  let required := addPolicy required (ch_EID chain) hex TxPurposePricingSetPriceSnapshot r.1 (Some r.2) in
  match pending with
  | None => Ok required
  | Some pending =>
    legacySigners ← appStore (pending (ch_EID chain));
    eachE (fun required legacy =>
      if EqualFold legacy hex then Ok required else
      check signerConfigured c legacy = true
        or AppText ("chain " +:+ ch_Name chain +:+ " has pending pricing txs from previous signer " +:+ legacy +:+
                    "; keep that signer configured until they drain or resolve the rows manually") ;;
      Ok (addPolicy required (ch_EID chain) legacy TxPurposePricingSetPriceSnapshot r.1 (Some r.2)))
      required legacySigners
  end.

Definition dvnRequirements (registry : Registry) (required : requirements) (pathway : Pathway)
    : result apperr requirements :=
  if decide (pw_DVNMode pathway <> DVNModeActive) then Ok required else
  dstChain ← appText (Get registry (pw_DstEID pathway));
  let role := ch_DVN dstChain in
  r ← rolePolicy (ch_Name dstChain) "dvn" (tr_MaxFeePerGasWei role) (tr_MaxPriorityFeePerGasWei role)
        (tr_MinNativeBalanceWei role) (ch_LegacyTransactions dstChain);
  Ok (addPolicy required (ch_EID dstChain) (tr_SignerID role) TxPurposeVerify r.1 (Some r.2)).

Definition txRequirements (c : Config) (registry : Registry) (pending : option (Z -> result dberr (list string)))
    : result apperr requirements :=
  required ← eachE (executorRequirements c) ∅ (All registry);
  required ← (if pr_Enabled (cf_Pricing c)
              then eachE (pricingRequirements c registry pending) required (pr_Chains (cf_Pricing c)) else Ok required);
  if DVNEnabled c then eachE (dvnRequirements registry) required (Pathways registry) else Ok required.

(** [header]: the latest header ([None]: nil) and its base fee. *)
Definition validateRuntimeFeePolicies (header : result string (option (option Z))) (chain : Chain)
    (policies : gmap string FeePolicy) : result string unit :=
  match header with
  | Err e => Err ("read latest header for chain " +:+ ch_Name chain +:+ ": " +:+ e)
  | Ok h =>
    if decide (mjoin h = None \/ ch_LegacyTransactions chain = true) then Ok tt else
    eachE (fun _ x =>
      check ~ notPositive (ConfiguredMaxPriorityFeePerGas x.2)
        or ("chain " +:+ ch_Name chain +:+ " purpose " +:+ x.1 +:+
            " max_priority_fee_per_gas_wei is required because latest header has base fee") ;; Ok tt)
      tt (map_to_list policies)
  end.

(** A target and the balance its signer should keep. *)
Definition buildTarget (registry : Registry) (signers : gmap string Address)
    (header : Z * string -> result string (option (option Z))) (targets : list (Target * option Z))
    (x : (Z * string) * targetRequirement) : result apperr (list (Target * option Z)) :=
  let '(key, requirement) := x in
  chain ← appText (Get registry key.1);
  _ ← appText (validateRuntimeFeePolicies (header key) chain (rq_policies requirement));
  match signers !! key.2 with
  | None => Err (AppText "configured signer was not loaded")
  | Some signer =>
    Ok (targets ++ [(mkTarget (ch_EID chain) (Some (ch_ChainID chain)) (Some signer)
                       (bool_decide (is_Some (ch_RPC chain))) (ch_Confirmations chain) (rq_policies requirement),
                     Clone (rq_minNativeBalanceWei requirement))])%list
  end.

Definition txTargets (c : Config) (registry : Registry) (pending : option (Z -> result dberr (list string)))
    (load : Config -> result string (gmap string Address))
    (header : Z * string -> result string (option (option Z))) : result apperr (list (Target * option Z)) :=
  required ← txRequirements c registry pending;
  if decide (required = ∅) then Ok [] else
  signers ← appText (load c);
  eachE (buildTarget registry signers header) [] (map_to_list required).

Definition priceSelectionPolicy (c : Config) : PriceSelectionPolicy :=
  mkSelection (pr_MaxDeviationBps (cf_Pricing c)) (secondsDuration (pr_SourceRequestTimeoutSeconds (cf_Pricing c))).

(** The fee reconciler of a process with pricing. *)
Definition feeReconciler (c : Config) (sources : gmap Z ChainSources) : option Reconciler :=
  if pr_Enabled (cf_Pricing c) then Some (newReconciler sources (mkFeeSettings 0 0 (priceSelectionPolicy c))) else None.

Definition txManagerOptions (c : Config) : TxMgr.Options :=
  mkOptions (secondsDuration (cf_StaleBroadcastReplacementAfterSeconds c)) 0 0 0 0 0 0.
End app.

(** ** Options and supervision *)

Record AppOptions := mkAppOptions {
  ao_IndexerProgressLogInterval : Z; ao_IndexerProgressLogIntervalSet : bool; ao_SkipOnchainCheck : bool }.

(** indexer.DefaultProgressLogInterval *)
Definition DefaultIndexerProgressLogInterval : Z := 60 * 1000000000.

Definition normalizeAppOptions (options : AppOptions) : result string AppOptions :=
  let options := if ao_IndexerProgressLogIntervalSet options then options
                 else mkAppOptions DefaultIndexerProgressLogInterval true (ao_SkipOnchainCheck options) in
  check ~ (ao_IndexerProgressLogInterval options < 0) or "indexer progress log interval must be non-negative"%string ;;
  Ok options.

(** One turn of a supervised loop: the error the loop ended with, whether it is a cancellation,
    whether the context was done then, and whether it was still live after the restart delay. *)
Record turn := mkTurn { tn_err : option werr; tn_canceled : bool; tn_ctxDone : bool; tn_waitLoopRestart : bool }.

(** What superviseLoop returns after these turns and how many retries it recorded; no result
    while it would restart. *)
Fixpoint superviseLoop (turns : list turn) (retries : Z) : option (option werr) * Z :=
  match turns with
  | [] => (None, retries)
  | t :: rest =>
    if tn_ctxDone t || tn_canceled t then (Some None, retries) else
    if from_option IsFatal false (tn_err t) then (Some (tn_err t), retries) else
    let retries := match tn_err t with Some _ => retries + 1 | None => retries end in
    if tn_waitLoopRestart t then superviseLoop rest retries else (Some None, retries)
  end.

(** A turn after which the loop is started again. *)
Definition restarts (t : turn) : Prop :=
  tn_ctxDone t = false /\ tn_canceled t = false /\ from_option IsFatal false (tn_err t) = false /\ tn_waitLoopRestart t = true.

(** A loop is given up with an error only when it failed fatally while the context was live;
    until then every ordinary failure restarted it. *)
Lemma superviseLoop_fatal turns n e m : superviseLoop turns n = (Some (Some e), m) ->
  exists before t after, turns = before ++ t :: after /\ Forall restarts before /\
    tn_err t = Some e /\ IsFatal e = true /\ tn_ctxDone t = false /\
    m = n + Z.of_nat (length (filter (fun t => tn_err t <> None) before)).
Proof.
  revert n. induction turns as [|t turns IH]; intros n; cbn [superviseLoop]; [done|].
  destruct (tn_ctxDone t) eqn:Ec; [done|]. destruct (tn_canceled t) eqn:Ea; [done|]. cbn [orb].
  destruct (from_option IsFatal false (tn_err t)) eqn:Ef.
  - intros [= Ee <-]. exists [], t, turns. rewrite Ee in Ef. cbn in *. split_and!; try done. lia.
  - destruct (tn_waitLoopRestart t) eqn:Ew; [|done]. intros (before & t' & after & -> & Hb & H)%IH.
    exists (t :: before), t', after. split_and!; try done; [by constructor|apply H..|].
    destruct H as (_ & _ & _ & ->). rewrite filter_cons. destruct (tn_err t); [rewrite decide_True by done|rewrite decide_False by naive_solver]; cbn [length]; lia.
Qed.
