(* ===== verification/AppProofs.v ===== *)
(** * A validated configuration assembles into a working process

    Everything ValidateConfig accepts can be started: the registry answers for every configured
    chain and route, the price bot has the sources its pathways need, and the transaction
    manager has a target with a usable fee policy for every transaction the workers enqueue. *)

From S2P Require Import Prelude GoErr BigUtil Schema Outbox Jobs StateReads Quorum Proc TxMgr Worker Executor Dvn PriceMath PriceSelect PriceSources Pricing Registry Config ConfigProofs App.
From stdpp Require Import base gmap list strings numbers pretty.
From Stdlib Require Import ZArith Lia.
#[local] Open Scope Z_scope.

(** ** Loops *)

Lemma eachE_inv {E S A} (f : S -> A -> result E S) (R : S -> S -> Prop) (Q : A -> S -> Prop) `{!PreOrder R} l :
  (forall s x s', x ∈ l -> f s x = Ok s' -> R s s' /\ Q x s') ->
  (forall x s s', Q x s -> R s s' -> Q x s') ->
  forall s s', eachE f s l = Ok s' -> R s s' /\ Forall (fun x => Q x s') l.
Proof.
  intros Hf HQ. induction l as [|x l IH]; intros s s'; cbn [eachE]; [intros [= <-]; split; [done|constructor]|].
  intros (s1 & E1 & E2)%bind_Ok. destruct (Hf s x s1) as [HR Hx]; [by constructor|done|].
  destruct (IH ltac:(intros; eapply Hf; [by right|done]) s1 s' E2) as [HR' Hl].
  split; [by etrans|]. constructor; [by eapply HQ|done].
Qed.

Lemma eachE_total {E S A} (f : S -> A -> result E S) l :
  (forall s x, x ∈ l -> exists s', f s x = Ok s') -> forall s, exists s', eachE f s l = Ok s'.
Proof.
  intros Hf. induction l as [|x l IH]; intros s; cbn [eachE]; [eauto|].
  destruct (Hf s x ltac:(by left)) as [s1 ->]. apply IH. intros; apply Hf. by right.
Qed.

(** A loop that adds one entry per element. *)
Lemma eachE_insert {E A B} (f : gmap Z B -> A -> result E (gmap Z B)) (key : A -> Z) (P : A -> B -> Prop) l :
  NoDup (key <$> l) -> (forall s x, x ∈ l -> exists v, f s x = Ok (<[key x := v]> s) /\ P x v) ->
  forall s, exists s', eachE f s l = Ok s' /\ (forall x, x ∈ l -> exists v, s' !! key x = Some v /\ P x v) /\
    (forall k, k ∉ key <$> l -> s' !! k = s !! k).
Proof.
  intros Hnd Hf. induction l as [|x l IH]; intros s; cbn [eachE]; [exists s; set_solver|].
  apply NoDup_cons in Hnd as [Hx Hnd]. destruct (Hf s x ltac:(by left)) as (v & -> & HP). cbn [mbind result_bind].
  destruct (IH Hnd ltac:(intros; apply Hf; by right) (<[key x := v]> s)) as (s' & HE & Hl & Ho).
  exists s'. split; [done|]. split.
  - intros y [->|Hy]%elem_of_cons; [|auto]. exists v. split; [|done]. rewrite Ho by done. by rewrite lookup_insert_eq.
  - intros k [Hk Hkl]%not_elem_of_cons. rewrite Ho by done. by rewrite lookup_insert_ne.
Qed.

Section assembled.
Context `{AddressText, ConfigRuntime}.
Context (c : Config).
#[local] Abbreviation registry := (NewRegistry (cf_Chains c) (cf_Pathways c)).

(** ** The registry *)

Lemma valid_Get cfg : valid_config c -> cfg ∈ cf_Chains c -> Get registry (ccf_EID cfg) = Ok (chain_of cfg).
Proof.
  intros Hv Hc. unfold Get. cbn [rg_byEID NewRegistry].
  rewrite (proj2 (keyed_fold_lookup ccf_EID chain_of (cf_Chains c) (ccf_EID cfg) (chain_of cfg) (vc_eids c Hv))); [done|].
  eauto.
Qed.

Lemma valid_All chain : valid_config c -> chain ∈ All registry <-> exists cfg, cfg ∈ cf_Chains c /\ chain = chain_of cfg.
Proof.
  intros Hv. unfold All. cbn [rg_byEID NewRegistry]. rewrite list_elem_of_fmap. split.
  - intros ([k x] & -> & (cfg & Hc & _ & E)%elem_of_map_to_list%keyed_fold_lookup); [eauto|apply Hv].
  - intros (cfg & Hc & ->). exists (ccf_EID cfg, chain_of cfg). split; [done|].
    apply elem_of_map_to_list, keyed_fold_lookup; [apply Hv|eauto].
Qed.

Lemma valid_Pathways p : valid_config c -> p ∈ Pathways registry <-> p ∈ cf_Pathways c.
Proof.
  intros Hv. unfold Pathways. cbn [rg_pathways NewRegistry]. rewrite list_elem_of_fmap. split.
  - intros ([k x] & -> & (q & Hq & _ & E)%elem_of_map_to_list%(keyed_fold_lookup pathway_key (fun x => x))); [|apply Hv].
    cbn. by rewrite E.
  - intros Hp. exists (pathway_key p, p). split; [done|].
    apply elem_of_map_to_list, (keyed_fold_lookup pathway_key (fun x => x)); [apply Hv|eauto].
Qed.

Lemma valid_PathwayOf p : valid_config c -> p ∈ cf_Pathways c ->
  PathwayOf registry (pw_SrcEID p) (pw_DstEID p) (pw_SrcOApp p) (pw_DstOApp p) = Ok p.
Proof.
  intros Hv Hp. unfold PathwayOf. cbn [rg_pathways NewRegistry].
  change (pathwayKey _ _ _ _) with (pathway_key p).
  rewrite (proj2 (keyed_fold_lookup pathway_key (fun x => x) (cf_Pathways c) (pathway_key p) p (vc_routes c Hv))); [done|].
  eauto.
Qed.

Lemma valid_pathway p : valid_config c -> p ∈ cf_Pathways c -> pathway_ok c p.
Proof. intros Hv Hp. pose proof (vc_pathways c Hv) as Hall. rewrite list.Forall_forall in Hall. auto. Qed.

(** Once ValidateConfig accepts a configuration, the registry built from it returns every
    configured pathway under its own coordinates and the chains at its two ends; the ends
    differ, the source waits for at least as many confirmations as the destination asks for,
    and each end's required DVNs are at least two distinct nonzero addresses that include the
    pathway's own OpenDVN. *)
Theorem validated_routes p :
  ValidateConfig c = Ok tt -> p ∈ cf_Pathways c ->
  PathwayOf registry (pw_SrcEID p) (pw_DstEID p) (pw_SrcOApp p) (pw_DstOApp p) = Ok p /\
  pw_SrcEID p <> pw_DstEID p /\
  (exists s d, Get registry (pw_SrcEID p) = Ok s /\ Get registry (pw_DstEID p) = Ok d /\
    ch_EID s = pw_SrcEID p /\ ch_EID d = pw_DstEID p /\ ch_Confirmations d <= ch_Confirmations s) /\
  dvn_set_ok (pw_SendRequiredDVNs p) (OpenDVN (pw_SourceWorkers p)) /\
  dvn_set_ok (pw_ReceiveRequiredDVNs p) (pw_DestinationOpenDVN p).
Proof.
  intros Hv%Validate_iff Hp. pose proof (valid_pathway p Hv Hp) as Hok.
  split_and!; [by apply valid_PathwayOf|apply Hok| |apply Hok|apply Hok].
  destruct (pk_chains _ _ Hok) as (s & d & Hs & Hd & Es & Ed & Hc). exists (chain_of s), (chain_of d).
  rewrite <- Es, <- Ed, !valid_Get by done. done.
Qed.

(** ** The price bot *)

(** The numbers are unsigned. *)
Record wf_source_ages (x : PricingChainConfig) : Prop := {
  wa_cmc : 0 <= cmc_MaxAgeSeconds (pc_CoinMarketCap x);
  wa_cg : 0 <= cg_MaxAgeSeconds (pc_CoinGecko x);
  wa_cl : 0 <= clc_MaxAgeSeconds (pc_Chainlink x);
  wa_uni : 0 <= uc_MaxBlockAgeSeconds (pc_Uniswap x) }.
Record wf_pricing (p : PricingConfig) : Prop := {
  wp_interval : 0 <= pr_IntervalSeconds p;
  wp_stale : 0 <= pr_StaleAfterSeconds p < 2 ^ 64;
  wp_heartbeat : 0 <= pr_HeartbeatSeconds p;
  wp_min_update : 0 <= pr_MinUpdateDeviationBps p;
  wp_timeout : 0 <= pr_SourceRequestTimeoutSeconds p;
  wp_ages : Forall wf_source_ages (pr_Chains p) }.

Lemma int64_small z : - 2 ^ 63 <= z < 2 ^ 63 -> int64_wrap z = z.
Proof. unfold int64_wrap. intros Hz. rewrite Z.mod_small; lia. Qed.

Lemma secondsDuration_small s : 0 <= s <= maxDurationSeconds -> secondsDuration s = s * 1000000000.
Proof.
  unfold secondsDuration, maxDurationSeconds. intros Hs. change ((2 ^ 63 - 1) / 1000000000) with 9223372036 in Hs.
  rewrite (int64_small s), int64_small; lia.
Qed.

Lemma duration_positive s : 0 <= s -> duration_ok s -> 0 < secondsDuration s.
Proof. intros H0' [Hn Hm]. rewrite secondsDuration_small; lia. Qed.

(** Validated settings are the ones the bot accepts, with the margin the checks are for. *)
Lemma validated_settings p signers : wf_pricing p -> AddressHex (pr_Signer p) <> ""%string ->
  validatePricingSettings p signers = Ok tt ->
  validateSettings (botSettings p) = Ok tt /\
  pr_HeartbeatSeconds p + pr_IntervalSeconds p + MinPricingFreshnessMarginSeconds <= pr_StaleAfterSeconds p <=
    MaxPriceSnapshotStaleAfterSeconds.
Proof.
  intros [Hi Hs Hh Hmu Ht _] Hx. unfold validatePricingSettings, sub64. rewrite !check_Ok, bind_unit_Ok.
  rewrite validateDurationSeconds_Ok, check_Ok, bind_unit_Ok, validateDurationSeconds_Ok, !check_Ok, bind_unit_Ok.
  rewrite validateDurationSeconds_Ok, !check_Ok, bind_unit_Ok, validateDurationSeconds_Ok, check_Ok.
  intros H'. destruct_and! H'. unfold MaxPriceSnapshotStaleAfterSeconds, MinPricingFreshnessMarginSeconds in *.
  rewrite (Z.mod_small (pr_StaleAfterSeconds p - pr_HeartbeatSeconds p)) in * by lia.
  rewrite (Z.mod_small (_ - pr_IntervalSeconds p)) in * by lia. split; [|lia].
  unfold validateSettings, botSettings. cbn [st_Enabled st_SignerID st_Interval st_StaleAfter st_MaxDeviation
    st_MinUpdateDeviation st_Heartbeat st_SourceRequestTimeout st_GasSpikeBps negb].
  unfold maxStaleAfter, minFreshnessMargin, MaxPriceSnapshotStaleAfterSeconds, MinPricingFreshnessMarginSeconds.
  assert (forall s, 0 <= s <= maxDurationSeconds -> secondsDuration s = s * 1000000000) as Hd by exact secondsDuration_small.
  assert (maxDurationSeconds = 9223372036) by reflexivity. rewrite !Hd by lia.
  rewrite (int64_small (_ - _ * 1000000000)) by lia. rewrite int64_small by lia.
  repeat (rewrite check_Ok; split; [first [done|lia]|]). done.
Qed.

Definition usable (r : ConfiguredPriceReader) : Prop := cr_Name r <> ""%string /\ cr_Reader r = true /\ 0 < cr_MaxAge r.

Lemma uses_spec cfg name : pricingChainUsesSource cfg name = true <-> name ∈ sources_of cfg.
Proof.
  unfold pricingChainUsesSource, sources_of. rewrite orb_true_iff, !bool_decide_eq_true, elem_of_cons. naive_solver.
Qed.

Lemma addReader_ok {A} uses name (made : result string A) age readers : (uses = true -> exists a, made = Ok a) ->
  addReader uses name made age readers =
  Ok (if uses then <[name := mkReader name true (secondsDuration age)]> readers else readers).
Proof. unfold addReader. destruct uses; [|done]. intros Hm. by destruct (Hm eq_refl) as [a ->]. Qed.

Lemma uniswapReader_ok cfg : uniswap_ok (pc_Uniswap cfg) -> exists a, uniswapReader cfg = Ok a.
Proof.
  intros (H1 & H2 & H3 & H4 & H5 & _ & z & Hz & Hpos). unfold uniswapReader, uint32.
  rewrite (proj2 (ParsePositiveDecimal_Ok _ _ z) (conj Hz Hpos)). unfold MinUniswapTWAPWindowSeconds in H5.
  cbn. unfold NewUniswapV3Client, MinUniswapTWAPWindowSeconds. rewrite (Z.mod_small _ (2 ^ 32)) by lia.
  eexists. repeat (rewrite check_Ok; split; [first [done|cbn; lia|naive_solver]|]). done.
Qed.

Lemma chainlinkReader_ok s : chainlink_ok s -> exists a, NewChainlinkClient (clc_FeedAddress s) (clc_ExpectedDescription s) = Ok a.
Proof.
  intros (H1 & H2 & _). unfold NewChainlinkClient. eexists. repeat (rewrite check_Ok; split; [done|]). done.
Qed.

(** Every referenced source has a reader that accepts observations of a positive age. *)
Lemma chainReaders_ok env cfg : wf_source_ages cfg -> chain_sources_ok env cfg ->
  exists readers, chainReaders cfg = Ok readers /\
    forall name, name ∈ sources_of cfg -> exists age, readers !! name = Some (mkReader name true age) /\ usable (mkReader name true age).
Proof.
  intros Hwf [Hp Hs _ Hf _]. rewrite list.Forall_forall in Hf, Hs.
  assert (forall name, name ∈ sources_of cfg -> name ∈ ["coinmarketcap"; "coingecko"; "chainlink"; "uniswap"]%string) as Hk.
  { intros name [->|Hn]%elem_of_cons; [|auto]. set_solver. }
  unfold chainReaders. rewrite addReader_ok.
  2:{ intros Hu%uses_spec. destruct (Hf _ Hu) as ((_ & Hid & _) & _); [done|]. exists tt. unfold NewCoinMarketCapPriceReader.
      by rewrite check_Ok. }
  cbn [mbind result_bind]. rewrite addReader_ok.
  2:{ intros Hu%uses_spec. destruct (Hf _ Hu) as (_ & (Hid & _) & _); [done|]. exists tt. unfold NewCoinGeckoPriceReader.
      by rewrite check_Ok. }
  cbn [mbind result_bind]. rewrite addReader_ok.
  2:{ intros Hu%uses_spec. destruct (Hf _ Hu) as (_ & _ & Hc & _). by apply chainlinkReader_ok, Hc. }
  cbn [mbind result_bind]. rewrite addReader_ok.
  2:{ intros Hu%uses_spec. destruct (Hf _ Hu) as (_ & _ & _ & Hc). by apply uniswapReader_ok, Hc. }
  eexists. split; [done|]. intros name Hn. pose proof (Hf _ Hn) as (S1 & S2 & S3 & S4).
  pose proof (proj2 (uses_spec cfg name) Hn) as Hu. specialize (Hk _ Hn).
  destruct Hwf as [W1 W2 W3 W4].
  repeat (apply elem_of_cons in Hk as [->|Hk]); [..|by apply elem_of_nil in Hk]; rewrite Hu;
    eexists; (split; [repeat case_match; simplify_map_eq; reflexivity|]).
  all: split_and!; [done|done|cbn; apply duration_positive]; first [done|apply S1|apply S2|apply S3|apply S4]; done.
Qed.

Lemma selectReaders_ok cfg readers : pc_PrimarySource cfg <> ""%string ->
  (forall name, name ∈ sources_of cfg -> exists age, readers !! name = Some (mkReader name true age) /\ usable (mkReader name true age)) ->
  exists primary sanity, selectReaders cfg readers = Ok (primary, sanity) /\
    cr_Name <$> primary :: sanity = sources_of cfg /\ Forall usable (primary :: sanity).
Proof.
  intros Hp Hr. unfold selectReaders. rewrite decide_False by naive_solver.
  set (get name := default noReader (readers !! name)).
  assert (forall name, name ∈ sources_of cfg -> cr_Name (get name) = name /\ usable (get name)) as Hget.
  { intros name Hn. unfold get. destruct (Hr name Hn) as (age & -> & Hu). done. }
  destruct (Hget (pc_PrimarySource cfg)) as [Hpn Hpu]; [by left|].
  rewrite decide_True by apply Hpu. exists (get (pc_PrimarySource cfg)), (get <$> pc_SanitySources cfg).
  assert (forall l acc, (forall x, x ∈ l -> usable (get x)) ->
    eachE (fun acc source => check cr_Reader (get source) = true
      or pricing_chain (pc_EID cfg) (" sanity source " +:+ source +:+ " is not configured") ;;
      Ok (acc ++ [get source])) acc l = Ok (acc ++ (get <$> l))) as Hloop.
  { induction l as [|x l IH]; intros acc Hl; cbn [eachE]; [by rewrite app_nil_r|].
    rewrite decide_True by (apply Hl; by left). cbn [mbind result_bind].
    rewrite IH by (intros; apply Hl; by right). by rewrite <- app_assoc. }
  rewrite Hloop by (intros; apply Hget; by right). split; [done|]. split.
  - unfold sources_of. cbn. f_equal; [done|]. rewrite <- list_fmap_compose. rewrite <- (list_fmap_id (pc_SanitySources cfg)) at 2.
    apply list_fmap_ext. intros i x Hx%list_elem_of_lookup_2. apply Hget. by right.
  - constructor; [done|]. apply Forall_fmap, list.Forall_forall. intros x Hx. apply Hget. by right.
Qed.

Lemma market_required_dec eid : NoDup (pc_EID <$> pr_Chains (cf_Pricing c)) ->
  market_required c eid \/ ~ market_required c eid.
Proof.
  intros Hnd. rewrite <- (pricingMarketSourceRequirements_spec c eid Hnd).
  match goal with |- ?x ∈ ?s \/ _ => destruct (decide (x ∈ s)); auto end.
Qed.

(** What the bot reads of a chain. *)
Record source_ready (cfg : PricingChainConfig) (s : ChainSources) : Prop := {
  sr_gas : cs_Gas s = true;
  sr_asset : cs_NativeAssetID s = pc_NativeAssetID cfg;
  sr_fee : exists fee, cs_DataFeePerByteWei s = Some fee /\ 0 <= fee;
  sr_market : market_required c (pc_EID cfg) ->
    cr_Name <$> cs_Primary s :: cs_Sanity s = sources_of cfg /\ NoDup (sources_of cfg) /\
    Forall usable (cs_Primary s :: cs_Sanity s) }.

Lemma chainReaders_none cfg : pricingChainHasMarketSources cfg = false ->
  chainReaders cfg = Ok ∅ /\ selectReaders cfg ∅ = Ok (noReader, []).
Proof.
  unfold pricingChainHasMarketSources. rewrite bool_decide_eq_false. intros Hn.
  assert (pc_PrimarySource cfg = ""%string /\ pc_SanitySources cfg = []) as [Hp Hs].
  { split; apply dec_stable; naive_solver. }
  split; [|unfold selectReaders; by rewrite decide_True].
  assert (forall name, name <> ""%string -> pricingChainUsesSource cfg name = false) as Hu.
  { intros name Hne. apply not_true_iff_false. rewrite uses_spec. unfold sources_of. rewrite Hp, Hs. set_solver. }
  unfold chainReaders, addReader. by rewrite !Hu.
Qed.

Lemma chainSources_ok sources cfg : valid_config c -> wf_pricing (cf_Pricing c) -> pr_Enabled (cf_Pricing c) = true ->
  cfg ∈ pr_Chains (cf_Pricing c) ->
  exists s, chainSources registry sources cfg = Ok (<[pc_EID cfg := s]> sources) /\ source_ready cfg s.
Proof.
  intros Hv Hwf Hen Hc. destruct (vc_pricing c Hv Hen) as [_ Hch Hd Hev Hsrc Hno]. rewrite list.Forall_forall in Hch.
  destruct (Hch _ Hc) as [(fee & Hfee & Hf0) _ _]. pose proof (wp_ages _ Hwf) as Hages. rewrite list.Forall_forall in Hages.
  assert (pc_EID cfg ∈ ccf_EID <$> cf_Chains c) as (chain & Ec & Hin)%list_elem_of_fmap
    by (apply Hev; by apply list_elem_of_fmap_2).
  unfold chainSources. rewrite Ec, valid_Get by done. cbn [mbind result_bind].
  rewrite (proj2 (ParseNonNegativeDecimal_Ok "data_fee_per_byte_wei" _ fee) (conj Hfee Hf0)).
  destruct (decide (pricingChainHasMarketSources cfg = false)) as [Hnm|Hm].
  - destruct (chainReaders_none cfg Hnm) as [-> Hsel]. cbn [mbind result_bind]. rewrite Hsel. eexists. split; [done|].
    constructor; [done|done|by exists fee|]. intros Hreq. destruct (Hsrc _ Hc Hreq) as [Hp _ _ _ _].
    exfalso. unfold pricingChainHasMarketSources in Hnm. rewrite bool_decide_eq_false in Hnm. apply Hnm. left.
    intros E. rewrite E in Hp. set_solver.
  - assert (market_required c (pc_EID cfg)) as Hreq.
    { destruct (market_required_dec (pc_EID cfg) Hd) as [?|Hreq]; [done|]. by destruct Hm; apply Hno. }
    destruct (chainReaders_ok _ cfg (Hages _ Hc) (Hsrc _ Hc Hreq)) as (readers & -> & Hr). cbn [mbind result_bind].
    destruct (selectReaders_ok cfg readers) as (primary & sanity & -> & Hn & Hu); [|done|].
    { destruct (Hsrc _ Hc Hreq) as [Hp _ _ _ _]. intros E. rewrite E in Hp. set_solver. }
    eexists. split; [done|]. constructor; [done|done|by exists fee|]. intros _. split_and!; [done|apply (Hsrc _ Hc Hreq)|done].
Qed.

Lemma feeModel_ok m : fee_model_ok m -> exists model, feeModelFromConfig m = Ok model.
Proof.
  intros (Hz & Ho & Hm). pose proof (nonnegative_decimal_nonempty _ Hz) as Hne. destruct Hz as (z & Hz & Hz0).
  unfold feeModelFromConfig. rewrite decide_True by done.
  rewrite (proj2 (ParseNonNegativeDecimal_Ok _ _ z) (conj Hz Hz0)). destruct (DataSizeOverheadBytes m) as [o|]; [|done].
  unfold validateFeeModel. cbn. rewrite !decide_True by (cbn; lia). eauto.
Qed.

(** A chain whose market price can be selected: distinct sources, each with a reader and an
    age limit. *)
Definition market_ready (s : ChainSources) : Prop :=
  NoDup (cr_Name <$> cs_Primary s :: cs_Sanity s) /\ Forall usable (cs_Primary s :: cs_Sanity s).

Lemma pathway_sources (sources : gmap Z ChainSources) p : valid_config c -> pr_Enabled (cf_Pricing c) = true -> p ∈ cf_Pathways c ->
  (forall cfg, cfg ∈ pr_Chains (cf_Pricing c) -> exists s, sources !! pc_EID cfg = Some s /\ source_ready cfg s) ->
  exists s d, sources !! pw_SrcEID p = Some s /\ sources !! pw_DstEID p = Some d /\ cs_Gas d = true /\
    (exists fee, cs_DataFeePerByteWei d = Some fee /\ 0 <= fee) /\
    (cs_NativeAssetID s <> cs_NativeAssetID d -> market_ready s /\ market_ready d).
Proof.
  intros Hv Hen Hp Hall. destruct (vc_pricing c Hv Hen) as [_ _ Hd Hev Hsrc _].
  destruct (pk_chains _ _ (valid_pathway p Hv Hp)) as (sc & dc & Hs & Hdc & Es & Ed & _).
  assert (forall x, x ∈ cf_Chains c -> exists cfg, cfg ∈ pr_Chains (cf_Pricing c) /\ pc_EID cfg = ccf_EID x) as Hcfg.
  { intros x Hx. assert (ccf_EID x ∈ pc_EID <$> pr_Chains (cf_Pricing c)) as (cfg & ? & ?)%list_elem_of_fmap
      by (apply Hev; by apply list_elem_of_fmap_2). eauto. }
  destruct (Hcfg sc Hs) as (scfg & Hsc & Esc), (Hcfg dc Hdc) as (dcfg & Hdcf & Edc).
  destruct (Hall scfg Hsc) as (s & Els & Rs), (Hall dcfg Hdcf) as (d & Eld & Rd).
  exists s, d. rewrite <- Es, <- Ed, <- Esc, <- Edc. split_and!; [done|done|apply Rd|apply Rd|].
  rewrite (sr_asset _ _ Rs), (sr_asset _ _ Rd). intros Hne.
  assert (crosses_assets c p) as Hx by (exists scfg, dcfg; split_and!; [done..|congruence|congruence|done]).
  split; [destruct (sr_market _ _ Rs) as (E & Hnd & Hu)|destruct (sr_market _ _ Rd) as (E & Hnd & Hu)];
    try (exists p; split_and!; [done|done|naive_solver congruence]).
  all: unfold market_ready; rewrite E; done.
Qed.

(** Some chain of the pricing section reads this source. *)
Definition names_source (name : string) : Prop :=
  exists cfg, cfg ∈ pr_Chains (cf_Pricing c) /\ (pc_PrimarySource cfg = name \/ name ∈ pc_SanitySources cfg).

Lemma client_ok name (client : result string unit) : (names_source name -> client = Ok tt) ->
  (if pricingUsesSource (pr_Chains (cf_Pricing c)) name then client else Ok tt) = Ok tt.
Proof.
  intros Hc. destruct (pricingUsesSource _ name) eqn:E; [|done]. apply Hc.
  apply existsb_exists in E as (cfg & Hin%list_elem_of_In & Hu). exists cfg. split; [done|].
  unfold pricingChainUsesSource in Hu. by rewrite orb_true_iff, !bool_decide_eq_true in Hu.
Qed.

(** C37: a validated configuration with pricing enabled yields a price bot, provided the
    CoinMarketCap client can be built if some chain names that source, and the CoinGecko client
    likewise (they need an API key). The sources are then built with a gas reader and a data fee
    for every configured chain, the bot's settings are accepted, a snapshot stays fresh for ten
    minutes beyond a heartbeat and an interval, and for every configured pathway both ends have
    distinct usable market sources when their native assets differ, and both fee models parse. *)
Theorem validated_price_bot cmcClient cgClient :
  (forall a, AddressHex a <> ""%string) -> ValidateConfig c = Ok tt -> wf_pricing (cf_Pricing c) ->
  pr_Enabled (cf_Pricing c) = true ->
  (names_source "coinmarketcap" -> cmcClient = Ok tt) -> (names_source "coingecko" -> cgClient = Ok tt) ->
  exists sources state, pricingSources c registry cmcClient cgClient = Ok sources /\
    priceBotWithSources c registry sources = Ok (Some (mkBotConfig registry (botSettings (cf_Pricing c)) sources), state) /\
    st_Heartbeat (botSettings (cf_Pricing c)) + st_Interval (botSettings (cf_Pricing c)) + minFreshnessMargin <=
      st_StaleAfter (botSettings (cf_Pricing c)) <= maxStaleAfter /\
    (forall chain, chain ∈ cf_Chains c -> exists s, sources !! ccf_EID chain = Some s /\ cs_Gas s = true /\
       exists fee, cs_DataFeePerByteWei s = Some fee /\ 0 <= fee) /\
    forall p, p ∈ cf_Pathways c ->
      (exists s d, sources !! pw_SrcEID p = Some s /\ sources !! pw_DstEID p = Some d /\
        (cs_NativeAssetID s <> cs_NativeAssetID d -> market_ready s /\ market_ready d)) /\
      is_ok (feeModelFromConfig (ExecutorFee (pw_Pricing p))) = true /\
      is_ok (feeModelFromConfig (DVNFee (pw_Pricing p))) = true.
Proof.
  intros Hhex Hv%Validate_iff Hwf Hen Hcmc Hcg. pose proof (vc_pricing c Hv Hen) as Hpr.
  destruct (eachE_insert (chainSources registry) pc_EID source_ready _ (po_distinct c Hpr)
    (fun s x Hx => chainSources_ok s x Hv Hwf Hen Hx) ∅) as (sources & Esrc & Hall & _).
  destruct (validated_settings _ _ Hwf (Hhex _) (po_settings c Hpr)) as [Hset Hmargin].
  exists sources. eexists. split.
  { unfold pricingSources. by rewrite (client_ok _ _ Hcmc), (client_ok _ _ Hcg). }
  split.
  { unfold priceBotWithSources, NewWithDependencies. rewrite Hen. cbn [st_Enabled botSettings negb]. by rewrite Hset. }
  split.
  { destruct Hwf as [Hi Hs Hh _ _ _]. cbn [botSettings st_Heartbeat st_Interval st_StaleAfter].
    unfold minFreshnessMargin, maxStaleAfter, MinPricingFreshnessMarginSeconds, MaxPriceSnapshotStaleAfterSeconds in *.
    assert (maxDurationSeconds = 9223372036) by reflexivity. rewrite !secondsDuration_small by lia. lia. }
  split.
  { intros chain Hc. assert (ccf_EID chain ∈ pc_EID <$> pr_Chains (cf_Pricing c)) as (cfg & E & Hcfg)%list_elem_of_fmap
      by (apply (po_every c Hpr); by apply list_elem_of_fmap_2).
    destruct (Hall cfg Hcfg) as (s & Hs & Rs). exists s. rewrite E. split_and!; [done|apply Rs..]. }
  intros p Hp. split; [destruct (pathway_sources _ p Hv Hen Hp Hall) as (s & d & ? & ? & _ & _ & ?); by exists s, d|].
  destruct (pk_pricing _ _ (valid_pathway p Hv Hp) Hen) as [[? ->]%feeModel_ok [? ->]%feeModel_ok]. done.
Qed.

(** ** Transaction targets *)

Definition good_policy (p : FeePolicy) : Prop :=
  exists m, ConfiguredMaxFeePerGas p = Some m /\ 0 < m /\
    forall q, ConfiguredMaxPriorityFeePerGas p = Some q -> 0 < q <= m.

Definition covers (required : requirements) (eid : Z) (signerID purpose : string) : Prop :=
  exists rq p, required !! (eid, signerID) = Some rq /\ rq_policies rq !! purpose = Some p.

(** Every requirement is of a configured chain and has only usable policies. *)
Definition well_required (required : requirements) : Prop :=
  forall eid sid rq, required !! (eid, sid) = Some rq ->
    (exists cfg, cfg ∈ cf_Chains c /\ ccf_EID cfg = eid) /\ map_Forall (fun _ => good_policy) (rq_policies rq).

Definition extends (r r' : requirements) : Prop :=
  (forall eid sid purpose, covers r eid sid purpose -> covers r' eid sid purpose) /\ (well_required r -> well_required r').
#[local] Instance extends_preorder : PreOrder extends.
Proof. split; [by split|]. intros r1 r2 r3 [H1 H2] [H3 H4]. split; auto. Qed.

Lemma feePolicy_good maxFee prio legacy : fee_policy_ok maxFee prio ->
  exists p, feePolicy maxFee prio legacy = Ok p /\ good_policy p.
Proof.
  intros (m & Hm & Hpos & Hp). unfold feePolicy, ParseDecimal. rewrite Hm. cbn [mbind result_bind].
  case_decide as Hd; [eexists; split; [done|exists m; naive_solver]|].
  destruct Hp as [?|(q & -> & Hq)]; [done|]. eexists. split; [done|]. exists m. cbn. naive_solver.
Qed.

Lemma rolePolicy_good name role maxFee prio bal legacy : submission_ok maxFee prio bal ->
  exists p b, rolePolicy name role maxFee prio bal legacy = Ok (p, b) /\ good_policy p.
Proof.
  intros [Hf (b & Hb & Hb0)]. destruct (feePolicy_good _ _ legacy Hf) as (p & Ep & Hg). unfold rolePolicy.
  rewrite Ep, (proj2 (ParsePositiveDecimal_Ok "min_native_balance_wei" _ b) (conj Hb Hb0)). eauto.
Qed.

Lemma addPolicy_covers r eid sid purpose p b : covers (addPolicy r eid sid purpose p b) eid sid purpose.
Proof. unfold covers, addPolicy. eexists _, p. rewrite lookup_insert_eq. split; [done|]. cbn. by rewrite lookup_insert_eq. Qed.

Lemma addPolicy_extends r eid sid purpose p b : (exists cfg, cfg ∈ cf_Chains c /\ ccf_EID cfg = eid) -> good_policy p ->
  extends r (addPolicy r eid sid purpose p b).
Proof.
  intros Hc Hg. unfold addPolicy. split.
  - intros e s q (rq & pol & Er & Ep). destruct (decide ((eid, sid) = (e, s))) as [[= -> ->]|Hne].
    + destruct (decide (purpose = q)) as [->|]; [apply addPolicy_covers|].
      exists (mkRequirement (<[purpose:=p]> (rq_policies rq)) (Max (rq_minNativeBalanceWei rq) b)), pol.
      rewrite lookup_insert_eq, Er. split; [done|]. cbn. by rewrite lookup_insert_ne.
    + exists rq, pol. by rewrite lookup_insert_ne.
  - intros Hw e s rq. destruct (decide ((eid, sid) = (e, s))) as [[= -> ->]|Hne].
    + rewrite lookup_insert_eq. intros [= <-]. split; [done|]. cbn. apply map_Forall_insert_2; [done|].
      destruct (r !! (e, s)) as [rq|] eqn:Er; [apply (Hw _ _ _ Er)|apply map_Forall_empty].
    + rewrite lookup_insert_ne by done. apply Hw.
Qed.

(** The configured pricing signer of a chain, and every signer the store says still owns
    pricing rows there. *)
Definition pricing_covered (pending : Z -> result dberr (list string)) (r : requirements) (x : PricingChainConfig) : Prop :=
  covers r (pc_EID x) (AddressHex (pr_Signer (cf_Pricing c))) TxPurposePricingSetPriceSnapshot /\
  exists legacy, pending (pc_EID x) = Ok legacy /\ forall sid, sid ∈ legacy ->
    EqualFold sid (AddressHex (pr_Signer (cf_Pricing c))) = true \/ covers r (pc_EID x) sid TxPurposePricingSetPriceSnapshot.
Definition executor_covered (r : requirements) (cfg : ChainConfig) : Prop :=
  forall purpose, purpose ∈ [TxPurposeCommitVerification; TxPurposeLzReceive] ->
    covers r (ccf_EID cfg) (AddressHex (rcf_Signer (ccf_Executor cfg))) purpose.
Definition dvn_covered (r : requirements) (p : Pathway) : Prop :=
  pw_DVNMode p = DVNModeActive -> forall cfg, cfg ∈ cf_Chains c -> ccf_EID cfg = pw_DstEID p ->
    covers r (pw_DstEID p) (AddressHex (rcf_Signer (ccf_DVN cfg))) TxPurposeVerify.

Lemma chain_known cfg : cfg ∈ cf_Chains c -> exists cfg', cfg' ∈ cf_Chains c /\ ccf_EID cfg' = ccf_EID cfg.
Proof. eauto. Qed.

Lemma executor_step r cfg : valid_config c -> cfg ∈ cf_Chains c ->
  exists r', executorRequirements c r (chain_of cfg) = Ok r' /\ extends r r' /\
    (ExecutorEnabled c = true -> executor_covered r' cfg).
Proof.
  intros Hv Hc. pose proof (vc_chains c Hv) as Hall. rewrite list.Forall_forall in Hall. specialize (Hall _ Hc).
  unfold executorRequirements. destruct (ExecutorEnabled c) eqn:He; [|exists r; by split_and!].
  destruct (ck_executor _ _ Hall He) as [_ Hrole]. destruct (rolePolicy_good (ccf_Name cfg) "executor" _ _ _
    (ccf_LegacyTransactions cfg) Hrole) as (p & b & E & Hg). cbn. rewrite E. cbn.
  pose proof (chain_known cfg Hc) as Hk. eexists. split; [done|]. split.
  - etrans; by apply addPolicy_extends.
  - intros _ purpose Hp. apply elem_of_cons in Hp as [->|[->|[]%elem_of_nil]%elem_of_cons]; [|apply addPolicy_covers].
    apply addPolicy_extends; [done..|]. apply addPolicy_covers.
Qed.

Lemma dvn_step r p : valid_config c -> DVNEnabled c = true -> p ∈ cf_Pathways c ->
  exists r', dvnRequirements registry r p = Ok r' /\ extends r r' /\ dvn_covered r' p.
Proof.
  intros Hv He Hp. unfold dvnRequirements. case_decide as Hm; [exists r; split_and!; [done|done|by intros ?]|].
  destruct (pk_chains _ _ (valid_pathway p Hv Hp)) as (_ & d & _ & Hd & _ & Ed & _).
  destruct (vc_dvn c Hv He p d Hp Hm Hd Ed) as [[Hnz _] Hrole]. rewrite <- Ed, valid_Get by done.
  destruct (rolePolicy_good (ccf_Name d) "dvn" _ _ _ (ccf_LegacyTransactions d) Hrole) as (pol & b & E & Hg).
  cbn. rewrite E. cbn. pose proof (chain_known d Hd) as Hk. eexists. split; [done|]. split; [by apply addPolicy_extends|].
  intros _ cfg Hc Ec. rewrite <- Ed in Ec |- *. rewrite (proj1 (keyed_unique _ _ (vc_eids c Hv) cfg d Hc Hd) Ec).
  unfold optionalSignerID. rewrite decide_False by done. apply addPolicy_covers.
Qed.

Lemma pricing_step pending r x : valid_config c -> pr_Enabled (cf_Pricing c) = true -> x ∈ pr_Chains (cf_Pricing c) ->
  (forall r', pricingRequirements c registry (Some pending) r x = Ok r' ->
    extends r r' /\ pricing_covered pending r' x) /\
  (forall legacy, pending (pc_EID x) = Ok legacy -> (forall sid, sid ∈ legacy -> signerConfigured c sid = true) ->
    exists r', pricingRequirements c registry (Some pending) r x = Ok r').
Proof.
  intros Hv Hen Hx. destruct (vc_pricing c Hv Hen) as [_ Hch _ Hev _ _]. rewrite list.Forall_forall in Hch.
  assert (pc_EID x ∈ ccf_EID <$> cf_Chains c) as (cfg & Ec & Hc)%list_elem_of_fmap
    by (apply Hev; by apply list_elem_of_fmap_2).
  destruct (rolePolicy_good (ccf_Name cfg) "pricing" _ _ _ (ccf_LegacyTransactions cfg) (pco_policy _ (Hch _ Hx)))
    as (pol & b & E & Hg). pose proof (chain_known cfg Hc) as Hk.
  unfold pricingRequirements, pricing_covered. rewrite Ec, valid_Get by done. cbn. rewrite E. cbn.
  set (r1 := addPolicy r (ccf_EID cfg) _ _ pol (Some b)).
  assert (extends r r1) as Hr1 by (by apply addPolicy_extends).
  split.
  - intros r' Hrun. destruct (pending (ccf_EID cfg)) as [legacy|]; [cbn in Hrun|done].
    eapply (eachE_inv _ extends (fun sid r => EqualFold sid (AddressHex (pr_Signer (cf_Pricing c))) = true \/
      covers r (ccf_EID cfg) sid TxPurposePricingSetPriceSnapshot)) in Hrun as [Hext Hall].
    + split_and!; [by etrans|apply Hext, addPolicy_covers|]. exists legacy. split; [done|]. by apply list.Forall_forall.
    + intros s sid s' _ Hs. destruct (EqualFold sid _); [simplify_eq; split; [done|by left]|].
      apply check_Ok in Hs as [_ [= <-]]. split; [by apply addPolicy_extends|right; apply addPolicy_covers].
    + intros sid s s' [?|?] [Hs _]; [by left|right; auto].
  - intros legacy -> Hsig. cbn. apply eachE_total. intros s sid Hs. destruct (EqualFold sid _); [eauto|].
    rewrite decide_True by auto. eauto.
Qed.

(** What the requirements cover when the store answers [pending]. *)
Record requirements_cover (pending : Z -> result dberr (list string)) (r : requirements) : Prop := {
  rc_executor : ExecutorEnabled c = true -> forall cfg, cfg ∈ cf_Chains c -> executor_covered r cfg;
  rc_pricing : pr_Enabled (cf_Pricing c) = true -> forall x, x ∈ pr_Chains (cf_Pricing c) ->
    pricing_covered pending r x;
  rc_dvn : DVNEnabled c = true -> forall p, p ∈ cf_Pathways c -> dvn_covered r p }.

Lemma executor_loop r r' : valid_config c -> eachE (executorRequirements c) r (All registry) = Ok r' ->
  extends r r' /\ (ExecutorEnabled c = true -> forall cfg, cfg ∈ cf_Chains c -> executor_covered r' cfg).
Proof.
  intros Hv Hrun. eapply (eachE_inv _ extends (fun ch r => ExecutorEnabled c = true -> forall cfg, cfg ∈ cf_Chains c -> ch = chain_of cfg -> executor_covered r cfg)) in Hrun as [Hext Hall].
  - split; [done|]. intros He cfg Hc. rewrite list.Forall_forall in Hall.
    apply (Hall (chain_of cfg)); [apply valid_All; eauto|done..].
  - intros s ch s' (cfg & Hc & ->)%valid_All Hs; [|done].
    destruct (executor_step s cfg Hv Hc) as (s1 & E & Hext & _). rewrite E in Hs. injection Hs as <-. split; [done|].
    intros He cfg' Hc' Ech. destruct (executor_step s cfg' Hv Hc') as (s2 & E2 & _ & Hcov).
    rewrite Ech, E2 in E. injection E as <-. auto.
  - intros ch s s' HQ [Hs _] He cfg Hc Ech purpose Hp. apply Hs. by apply HQ.
Qed.

Lemma pricing_loop pending r r' : valid_config c -> pr_Enabled (cf_Pricing c) = true ->
  eachE (pricingRequirements c registry (Some pending)) r (pr_Chains (cf_Pricing c)) = Ok r' ->
  extends r r' /\ forall x, x ∈ pr_Chains (cf_Pricing c) ->
    pricing_covered pending r' x.
Proof.
  intros Hv Hen Hrun. eapply (eachE_inv _ extends (fun x r => pricing_covered pending r x))
    in Hrun as [Hext Hall].
  - split; [done|]. by apply list.Forall_forall.
  - intros s x s' Hx Hs. by apply (proj1 (pricing_step pending s x Hv Hen Hx)).
  - intros x s s' (Hc & legacy & E & Hl) [Hs _]. split; [auto|]. exists legacy. split; [done|]. naive_solver.
Qed.

Lemma dvn_loop r r' : valid_config c -> DVNEnabled c = true ->
  eachE (dvnRequirements registry) r (Pathways registry) = Ok r' ->
  extends r r' /\ forall p, p ∈ cf_Pathways c -> dvn_covered r' p.
Proof.
  intros Hv He Hrun. eapply (eachE_inv _ extends (fun p r => dvn_covered r p)) in Hrun as [Hext Hall].
  - split; [done|]. intros p Hp. rewrite list.Forall_forall in Hall. apply Hall. by apply valid_Pathways.
  - intros s p s' Hp%valid_Pathways Hs; [|done]. destruct (dvn_step s p Hv He Hp) as (s1 & E & ? & ?).
    rewrite E in Hs. by injection Hs as <-.
  - intros p s s' HQ [Hs _] Ha cfg Hc Ec. eauto.
Qed.

Lemma txRequirements_spec pending r : valid_config c -> txRequirements c registry (Some pending) = Ok r ->
  well_required r /\ requirements_cover pending r.
Proof.
  intros Hv (r1 & [X1 C1]%executor_loop & Hrest)%bind_Ok; [|done].
  apply bind_Ok in Hrest as (r2 & Hp & Hd).
  assert (extends r1 r2 /\ (pr_Enabled (cf_Pricing c) = true -> forall x, x ∈ pr_Chains (cf_Pricing c) ->
    pricing_covered pending r2 x))
    as [X2 C2].
  { destruct (pr_Enabled (cf_Pricing c)) eqn:Hen; [|injection Hp as <-; done].
    destruct (pricing_loop pending r1 r2 Hv Hen Hp) as [? ?]. done. }
  assert (extends r2 r /\ (DVNEnabled c = true -> forall p, p ∈ cf_Pathways c -> dvn_covered r p)) as [X3 C3].
  { destruct (DVNEnabled c) eqn:Hdv; [|injection Hd as <-; done]. destruct (dvn_loop r2 r Hv Hdv Hd) as [? ?]. done. }
  split; [apply X3, X2, X1; by intros ???|]. constructor; [|intros Hen x Hx|done].
  - intros He cfg Hc purpose Hp'. apply X3, X2. by apply C1.
  - destruct (C2 Hen x Hx) as (Hc & legacy & E & Hl). split; [by apply X3|]. exists legacy. split; [done|].
    intros sid Hs. destruct (Hl sid Hs); [by left|right; by apply X3].
Qed.

(** Nothing in a validated configuration makes the requirements fail: only a store that does
    not answer or a pending row whose signer is gone. *)
Lemma txRequirements_total pending : valid_config c ->
  (forall x, x ∈ pr_Chains (cf_Pricing c) -> exists legacy, pending (pc_EID x) = Ok legacy /\
     forall sid, sid ∈ legacy -> signerConfigured c sid = true) ->
  exists r, txRequirements c registry (Some pending) = Ok r.
Proof.
  intros Hv Hpend. unfold txRequirements.
  destruct (eachE_total (executorRequirements c) (All registry)) with (s := ∅ : requirements) as [r1 ->].
  { intros s ch (cfg & Hc & ->)%valid_All; [|done]. destruct (executor_step s cfg Hv Hc) as (s' & E & _). eauto. }
  cbn [mbind result_bind].
  assert (exists r2, (if pr_Enabled (cf_Pricing c) then eachE (pricingRequirements c registry (Some pending)) r1 (pr_Chains (cf_Pricing c))
    else Ok r1) = Ok r2) as [r2 ->].
  { destruct (pr_Enabled (cf_Pricing c)) eqn:Hen; [|eauto]. apply eachE_total. intros s x Hx.
    destruct (Hpend x Hx) as (legacy & E & Hl). by apply (proj2 (pricing_step pending s x Hv Hen Hx) legacy). }
  cbn [mbind result_bind]. destruct (DVNEnabled c) eqn:Hd; [|eauto]. apply eachE_total.
  intros s p Hp%valid_Pathways; [|done]. destruct (dvn_step s p Hv Hd Hp) as (s' & E & _). eauto.
Qed.

(** ** Signers and targets *)

Definition ids_match (s : gmap string Address) : Prop := forall id a, s !! id = Some a -> AddressHex a = id.
Definition keep_match (s s' : gmap string Address) : Prop := ids_match s -> ids_match s'.
#[local] Instance keep_match_preorder : PreOrder keep_match.
Proof. split; unfold keep_match; [intros s; auto|intros s1 s2 s3; auto]. Qed.

Lemma loadSigners_ids loadKeystore validateKMS signers : valid_config c ->
  loadSigners loadKeystore validateKMS c = Ok signers -> ids_match signers.
Proof.
  intros Hv Hrun. pose proof (proj1 (vc_signers c Hv)) as Hok. rewrite list.Forall_forall in Hok. unfold loadSigners in Hrun.
  eapply (eachE_inv _ keep_match (fun _ _ => True)) in Hrun as [Hr _]; [by apply Hr|..|done].
  intros s cfg s' Hin Hs. split; [|done]. intros Hpre id a. destruct (Hok _ Hin) as [_ [(Ht & _)|(Ht & _ & Hhex & _)]]; rewrite Ht in Hs.
  - rewrite decide_True in Hs by done. apply bind_Ok in Hs as (loaded & _ & [Heq [= <-]]%check_Ok).
    intros [[<- <-]|[_ ?]]%lookup_insert_Some; auto.
  - rewrite decide_False, decide_True in Hs by done. apply bind_unit_Ok in Hs as [_ [= <-]].
    intros [[<- <-]|[_ ?]]%lookup_insert_Some; auto.
Qed.

(** A row of this chain, signer and purpose is claimed by some target, with a fee policy. *)
Definition served (targets : list (Target * option Z)) (eid : Z) (signerID purpose : string) : Prop :=
  exists t b a p, (t, b) ∈ targets /\ tg_ChainEID t = eid /\ tg_Signer t = Some a /\ AddressHex a = signerID /\
    tg_Client t = true /\ tg_FeePolicies t !! purpose = Some p /\ good_policy p.

Lemma buildTargets_served required signers header targets : valid_config c -> well_required required ->
  ids_match signers ->
  eachE (buildTarget registry signers header) [] (map_to_list required) = Ok targets ->
  forall eid sid purpose, covers required eid sid purpose -> served targets eid sid purpose.
Proof.
  intros Hv Hw Hid Hrun eid sid purpose (rq & p & Er & Ep). destruct (Hw _ _ _ Er) as [(cfg & Hc & Ec) Hg].
  eapply (eachE_inv _ (fun l l' : list (Target * option Z) => l ⊆ l')
    (fun x l => x = ((eid, sid), rq) -> served l eid sid purpose)) in Hrun as [_ Hall].
  - rewrite list.Forall_forall in Hall. eapply Hall; [by apply elem_of_map_to_list|done].
  - intros l [[e sg] rq'] l' _ Hs. unfold buildTarget in Hs. apply bind_Ok in Hs as (chain & Hget & Hs).
    apply bind_unit_Ok in Hs as [_ Hs]. cbn [fst snd] in *. destruct (signers !! sg) as [a|] eqn:Ea; [|done].
    injection Hs as <-. split; [set_solver|]. intros [= -> -> ->]. rewrite <- Ec, valid_Get in Hget by done.
    injection Hget as <-. eexists _, _, a, p. split; [by apply elem_of_app; right; apply list_elem_of_singleton|].
    cbn. split_and!; try done. + by apply Hid. + by apply (Hg purpose).
  - intros x l l' HQ Hl E. destruct (HQ E) as (t & b & a & q & Hin & Hrest). exists t, b, a, q. split; [by apply Hl|done].
Qed.

Lemma covered_served pending load header targets : valid_config c ->
  (forall signers, load c = Ok signers -> ids_match signers) ->
  txTargets c registry (Some pending) load header = Ok targets ->
  exists r, requirements_cover pending r /\
    forall eid sid purpose, covers r eid sid purpose -> served targets eid sid purpose.
Proof.
  intros Hv Hload (r & Hr & Ht)%bind_Ok. destruct (txRequirements_spec pending r Hv Hr) as [Hw Hcov]. exists r. split; [done|].
  case_decide as Hemp; [intros eid sid purpose (rq & p & E & _); by rewrite Hemp in E|].
  apply bind_Ok in Ht as (signers & Hsig & Ht). destruct (load c) as [signers'|] eqn:El; [injection Hsig as ->|done].
  by eapply buildTargets_served; [..|exact Ht]; [| |apply Hload].
Qed.

(** C11: when the transaction manager's targets are built from a validated configuration,
    every transaction its workers enqueue has one, with a positive fee cap and a priority cap
    below it: the executor's two purposes on every chain, verification at the destination of
    every active DVN pathway, price snapshots of every priced chain, and every price snapshot
    still pending in the store whoever signed it (up to the case of the current signer). *)
Theorem validated_targets loadKeystore validateKMS header db targets :
  ValidateConfig c = Ok tt ->
  txTargets c registry (Some (fun eid => elements <$> ListPendingPricingSigners eid db))
    (loadSigners loadKeystore validateKMS) header = Ok targets ->
  (ExecutorEnabled c = true -> forall cfg, cfg ∈ cf_Chains c ->
     served targets (ccf_EID cfg) (AddressHex (rcf_Signer (ccf_Executor cfg))) TxPurposeCommitVerification /\
     served targets (ccf_EID cfg) (AddressHex (rcf_Signer (ccf_Executor cfg))) TxPurposeLzReceive) /\
  (DVNEnabled c = true -> forall p cfg, p ∈ cf_Pathways c -> pw_DVNMode p = DVNModeActive ->
     cfg ∈ cf_Chains c -> ccf_EID cfg = pw_DstEID p ->
     served targets (pw_DstEID p) (AddressHex (rcf_Signer (ccf_DVN cfg))) TxPurposeVerify) /\
  (pr_Enabled (cf_Pricing c) = true -> forall x, x ∈ pr_Chains (cf_Pricing c) ->
     served targets (pc_EID x) (AddressHex (pr_Signer (cf_Pricing c))) TxPurposePricingSetPriceSnapshot /\
     forall id o, tx_outbox db !! id = Some o -> pricing_pending (pc_EID x) o ->
       EqualFold (o_signer_id o) (AddressHex (pr_Signer (cf_Pricing c))) = true \/
       served targets (pc_EID x) (o_signer_id o) TxPurposePricingSetPriceSnapshot).
Proof.
  intros Hv%Validate_iff Hrun. eapply covered_served in Hrun as (r & [Hex Hpr Hdvn] & Hserved);
    [|done|intros signers Hl; by eapply loadSigners_ids].
  split_and!.
  - intros He cfg Hc. split; apply Hserved, (Hex He cfg Hc); [by left|by right; left].
  - intros He p cfg Hp Ha Hc Ec. apply Hserved. by apply (Hdvn He p Hp Ha cfg).
  - intros Hen x Hx. destruct (Hpr Hen x Hx) as (Hcov & legacy & E & Hl). split; [by apply Hserved|].
    intros id o Ho Hpend. destruct (Hl (o_signer_id o)) as [?|?]; [|by left|right; by apply Hserved].
    unfold ListPendingPricingSigners in E. case_decide; [|done]. injection E as <-.
    apply elem_of_elements, elem_of_list_to_set, list_elem_of_fmap. exists (id, o). split; [done|].
    by apply elem_of_select_outbox.
Qed.
End assembled.

(** ** Map order *)

Lemma valid_config_order `{AddressText} (rt1 rt2 : ConfigRuntime) c :
  (forall s, @url_Parse rt1 s = @url_Parse rt2 s) ->
  valid_config (H0 := rt1) c -> valid_config (H0 := rt2) c.
Proof.
  intros Hu [V1 [V2a V2b] V3 V4 V5 V6 V7 V8 V9 V10 V11 V12].
  assert (forall f s, @validateMarketDataBaseURL rt1 f s = @validateMarketDataBaseURL rt2 f s) as Hm
    by (intros; unfold validateMarketDataBaseURL; by rewrite Hu).
  assert (forall s, @validateRPCURL rt1 s = @validateRPCURL rt2 s) as Hr by (intros; unfold validateRPCURL; by rewrite Hu).
  constructor; try done; [by rewrite <- !Hm|]. eapply list.Forall_impl; [exact V7|]. intros x [].
  constructor; try done. destruct ck_urls as [? Hall]. split; [done|]. eapply list.Forall_impl; [exact Hall|].
  intros s Hs. cbn beta in *. by rewrite <- Hr.
Qed.

(** Which configurations start does not depend on the order in which Go ranges over the
    maps of addresses, sources and active destinations the checks build. *)
Theorem Validate_order `{AddressText} (rt1 rt2 : ConfigRuntime) c :
  (forall s, @url_Parse rt1 s = @url_Parse rt2 s) -> is_ok (@ValidateConfig _ rt1 c) = is_ok (@ValidateConfig _ rt2 c).
Proof.
  intros Hu. assert (forall rt, is_ok (@ValidateConfig _ rt c) = true <-> valid_config (H0 := rt) c) as Hok.
  { intros rt. rewrite <- Validate_iff. destruct (ValidateConfig c) as [[]|]; naive_solver. }
  apply eq_true_iff_eq. rewrite !Hok. split; by apply valid_config_order.
Qed.
