(* ===== verification/AppSample.v ===== *)
(** * A sample configuration

    Two chains, one pathway with an active DVN, pricing between two native assets, two
    keystore signers (the second still owns a pending price transaction). *)

From S2P Require Import Prelude GoErr BigUtil Schema Outbox Jobs StateReads Quorum QuorumLogs Proc TxMgr Worker Executor Dvn PriceMath PriceSelect PriceSources Pricing Registry Config ConfigProofs App AppProofs.
From stdpp Require Import base gmap list strings numbers pretty.
From Stdlib Require Import ZArith Lia Ascii.
#[local] Open Scope Z_scope.

#[local] Instance config_address_text : AddressText := sample_hex.

(** Scheme, then [//host/...]: enough for the sample's URLs. *)
Fixpoint cut_at (sep : ascii) (s : string) : string * string :=
  match s with
  | EmptyString => (EmptyString, EmptyString)
  | String ch s => if decide (ch = sep) then (EmptyString, s) else let r := cut_at sep s in (String ch r.1, r.2)
  end.
Definition sample_parse (raw : string) : option URL :=
  if HasPrefix raw "/" then Some (mkURL "" "" "" "" "" "" false) else
  let '(scheme, rest) := cut_at ":"%char raw in
  if HasPrefix rest "//" then
    let host := (cut_at "/"%char (String.substring 2 (String.length rest) rest)).1 in
    Some (mkURL scheme "" host host "" "" false)
  else None.

#[local] Program Instance sample_runtime : ConfigRuntime := {| url_Parse := sample_parse; range := fun _ l => l |}.
Next Obligation. done. Qed.
#[local] Program Instance reversed_runtime : ConfigRuntime | 100 := {| url_Parse := sample_parse; range := fun _ l => reverse l |}.
Next Obligation. intros. apply reverse_Permutation. Qed.

Definition role (signer : Address) : TxRoleConfig := mkTxRoleConfig signer "5000000000" "1000000000" "1".
Definition config_chain (eid : Z) (confirmations : Z) : ChainConfig :=
  mkChainConfig eid "chain" "evm" (eid * 10) (eid * 1000) confirmations 1 500 5 false
    ["https://a"; "wss://b/ws"; "/var/run/geth.ipc"] (role 61) (role 62).
Definition config_fee : WorkerFeeModelConfig := mkFeeModel "1000" 50000 (Some 100) 500.
Definition config_pathway : Pathway :=
  Registry.mkPathway 101 102 11 22 31 32 (mkWorkerContracts 41 42 43) 52 [42; 71] [72; 52] DVNModeActive
    (mkPathwayPricing config_fee config_fee) true 10000 1 1000000.
Definition keystore_signer (a : Address) : SignerConfig :=
  mkSignerConfig a "keystore" (mkKeystore (sample_hex a) "KEY_PASSWORD" "") (mkKMS "" "" 0 "").
Definition config_pricing_chain (eid : Z) (asset : string) : PricingChainConfig :=
  mkPricingChain eid (mkTxPolicy "5000000000" "" "7") asset "12" "chainlink" ["uniswap"%string]
    (mkCMC 0 0) (mkCG "" 0) (mkCL 81 "ETH / USD" 3600) (mkUni 82 83 84 1800 120 "1000").
Definition config_pricing : PricingConfig :=
  mkPricing true 62 0 0 0 0 0 0 0 "" "" "" "" [config_pricing_chain 101 "eth"; config_pricing_chain 102 "btc"].
(** The file leaves the periods and thresholds to their defaults. *)
Definition decoded_config : Config :=
  mkConfig "" "" (mkServices None (Some true)) 0 config_pricing [keystore_signer 61; keystore_signer 62; keystore_signer 63]
    [config_chain 101 12; config_chain 102 10] [config_pathway].
Definition sample_config : Config := applyDefaults true "postgres://db" decoded_config.

Lemma sample_config_valid : ValidateConfig sample_config = Ok tt.
Proof. vm_compute. reflexivity. Qed.

(** Without the environment's database URL the same file is refused. *)
Example decoded_config_refused : (loadDecoded false "postgres://db" decoded_config).2 = Err "database_url is required"%string.
Proof. vm_compute. reflexivity. Qed.

Definition sample_config_registry : Registry := NewRegistry (cf_Chains sample_config) (cf_Pathways sample_config).

Lemma validated_routes_witness :
  ValidateConfig sample_config = Ok tt /\ config_pathway ∈ cf_Pathways sample_config /\
  PathwayOf sample_config_registry 101 102 11 22 = Ok config_pathway.
Proof.
  assert (config_pathway ∈ cf_Pathways sample_config) as Hp by (by left).
  split; [exact sample_config_valid|]. split; [exact Hp|].
  exact (proj1 (validated_routes sample_config config_pathway sample_config_valid Hp)).
Defined.

Lemma sample_hex_nonempty a : AddressHex a <> ""%string.
Proof. done. Qed.

Lemma sample_pricing_wf : wf_pricing (cf_Pricing sample_config).
Proof. constructor; try (vm_compute; done). repeat constructor; vm_compute; done. Qed.

(** The bot quotes chain 101 from the Chainlink feed, with the Uniswap pool as its check. *)
Lemma validated_price_bot_witness :
  exists sources s, pricingSources sample_config sample_config_registry (Ok tt) (Ok tt) = Ok sources /\
    sources !! 101 = Some s /\ market_ready s.
Proof.
  destruct (validated_price_bot sample_config (Ok tt) (Ok tt) sample_hex_nonempty sample_config_valid sample_pricing_wf
    eq_refl (fun _ => eq_refl) (fun _ => eq_refl)) as (sources & state & Hs & _ & _ & _ & Hp).
  destruct (Hp config_pathway ltac:(by left)) as ((s & d & E1 & E2 & Hm) & _).
  exists sources, s. split; [exact Hs|]. split; [exact E1|]. apply Hm.
  assert (cs_NativeAssetID <$> sources !! 101 = Some "eth"%string /\ cs_NativeAssetID <$> sources !! 102 = Some "btc"%string) as [F1 F2].
  { revert Hs. vm_compute. intros [= <-]. done. }
  change (pw_SrcEID config_pathway) with 101 in E1. change (pw_DstEID config_pathway) with 102 in E2.
  rewrite E1 in F1. rewrite E2 in F2. injection F1 as ->. injection F2 as ->. done.
Defined.

(** ** Targets at startup *)

Definition pending_row : OutboxRow :=
  new_outbox_row 101 TxPurposePricingSetPriceSnapshot None (AddressBytes 43) [] 0 (sample_hex 63) 0 None 7.
Definition startup_db : DB := mkDB ∅ ∅ ∅ ∅ ∅ ∅ {[ 1 := pending_row ]} ∅ ∅ ∅ ∅ 2 1.
Definition sample_keystore (k : KeystoreSignerConfig) : result string Address :=
  match filter (fun a => sample_hex a = ks_Path k) [61; 62; 63] with
  | a :: _ => Ok a
  | [] => Err "no such file"%string
  end.
Definition startup_targets : result apperr (list (Target * option Z)) :=
  txTargets sample_config sample_config_registry (Some (fun eid => elements <$> ListPendingPricingSigners eid startup_db))
    (loadSigners sample_keystore (fun _ => Ok tt)) (fun _ => Ok (Some None)).
Definition sample_targets : list (Target * option Z) :=
  match startup_targets with Ok targets => targets | Err _ => [] end.

Lemma startup_targets_run : startup_targets = Ok sample_targets.
Proof. unfold sample_targets. assert (is_ok startup_targets = true) as Hok by (vm_compute; reflexivity). by destruct startup_targets. Qed.

(** The executor's and the pricing signers of chain 101, the previous pricing signer, and
    the DVN's signer at the destination all have a target. *)
Lemma validated_targets_witness :
  length sample_targets = 5%nat /\
  served sample_targets 101 (sample_hex 61) TxPurposeLzReceive /\
  served sample_targets 102 (sample_hex 62) TxPurposeVerify /\
  served sample_targets 101 (sample_hex 63) TxPurposePricingSetPriceSnapshot.
Proof.
  destruct (validated_targets sample_config sample_keystore (fun _ => Ok tt) (fun _ => Ok (Some None)) startup_db
    sample_targets sample_config_valid startup_targets_run) as (He & Hd & Hp).
  split; [vm_compute; reflexivity|]. split; [|split].
  - apply (He eq_refl (chainDefaults (config_chain 101 12))). by left.
  - apply (Hd eq_refl (pathwayDefaults config_pathway) (chainDefaults (config_chain 102 10))); [by left|reflexivity|by right; left|reflexivity].
  - destruct (Hp eq_refl (config_pricing_chain 101 "eth") ltac:(by left)) as [_ Hrow].
    destruct (Hrow 1 pending_row eq_refl) as [Hf|Hs]; [refine (bool_decide_unpack (pricing_pending 101 pending_row) _); vm_compute; exact I| |exact Hs].
    by vm_compute in Hf.
Defined.

Lemma Validate_order_witness :
  is_ok (@ValidateConfig _ reversed_runtime sample_config) = true.
Proof.
  rewrite (Validate_order reversed_runtime sample_runtime sample_config (fun _ => eq_refl)).
  by rewrite sample_config_valid.
Defined.
