(* ===== verification/ConfigCheck.v ===== *)
(** * Checking the configuration against the chains (go/internal/configcheck/check.go)

    The start-up check reads what the contracts of every configured chain and pathway say and
    lists each mismatch. A chain is identified once and its head is checked once; every later
    read of it is pinned to that head, so what the chains answer is a function of the question:
    a parameter, like the ABI encoding. *)

From S2P Require Import Prelude GoErr BigUtil Schema SendScope Outbox Attempts Jobs StateReads Quorum Registry Worker Dvn PriceSelect.
From stdpp Require Import base gmap list strings numbers pretty sorting.
From Stdlib Require Import ZArith Lia.
#[local] Open Scope Z_scope.

Definition configTypeExecutor : Z := 1.
Definition configTypeULN : Z := 2.

(** ** Values and reads *)

Record executorConfig := mkExecutorConfig { xc_MaxMessageSize : Z; xc_Executor : Address }.
Record pathwayConfig := mkPathwayConfig {
  wc_Enabled : bool; wc_MaxMessageSize : option Z; wc_MinLzReceiveGas : option Z; wc_MaxLzReceiveGas : option Z }.
Record feeModel := mkFeeModelOnChain {
  fm_FixedFee : option Z; fm_DstGasOverhead : Z; fm_DataSizeOverheadBytes : Z; fm_MarginBps : Z }.

(** The dynamic type and value of an ABI argument or result; a tuple with the fields the code
    looks up in it. *)
Inductive abivalue :=
| VUint16 (z : Z) | VUint32 (z : Z) | VUint64 (z : Z) | VBig (z : option Z)
| VAddress (a : Address) | VBytes32 (h : Hash) | VBool (b : bool) | VBytes (b : bytes)
| VExecutorTuple (c : executorConfig) | VUlnTuple (c : ulnConfig).

Inductive contractABI := endpointABI | oappABI | workerABI | configDecoderABI.

(** The state a read is answered from. *)
Inductive read_at := AtLatest | AtBlock (number : Z) | AtHash (hash : Hash).

(** A ChainClient: the optional methods it has, and the anchor of an anchoredChainClient. *)
Record ChainClient := mkClient {
  cl_EID : Z; cl_ValidatesChainID : bool; cl_ChecksHead : bool; cl_HashAddressed : bool;
  cl_anchor : option (Z * Hash) }.

(** The block a nil block number stands for. *)
Definition anchorOf (client : ChainClient) : read_at :=
  match cl_anchor client with
  | None => AtLatest
  | Some (block, hash) => if cl_HashAddressed client && bool_decide (hash <> 0) then AtHash hash else AtBlock block
  end.

(** ABI encoding, texts of addresses and hashes, and the answers of the chains. An error of
    ValidateChainID says whether it is a mismatch. *)
Class CheckWorld := {
  cw_text :: AddressText;
  AddressOfHex : string -> Address;
  HashText : Hash -> string;
  abi_Pack : contractABI -> string -> list abivalue -> result string bytes;
  abi_Unpack : contractABI -> string -> bytes -> result string (list abivalue);
  rpc_ValidateChainID : Z -> Z -> option (bool * string);
  rpc_CheckHead : Z -> result string (option Z * Hash);
  rpc_ChainID : Z -> result string (option Z);
  rpc_CodeAt : Z -> read_at -> Address -> result string bytes;
  rpc_CallContract : Z -> read_at -> Address -> bytes -> result string bytes }.

Record CheckIssue := mkCheckIssue { ci_Path : string; ci_Message : string }.
Record CheckReport := mkCheckReport { cr_OK : bool; cr_Issues : list CheckIssue }.

Definition issueLabel (r : CheckReport) : string :=
  if decide (length (cr_Issues r) = 1%nat) then "issue" else "issues".

Definition lineFeed : string := String (Ascii.ascii_of_N 10) EmptyString.
Fixpoint renderIssues (i : nat) (issues : list CheckIssue) : string :=
  match issues with
  | [] => ""
  | issue :: rest => "[" +:+ pretty (S i) +:+ "] " +:+ ci_Path issue +:+ lineFeed +:+ "    " +:+ ci_Message issue +:+ lineFeed +:+
                     renderIssues (S i) rest
  end.
Definition RenderText (report : CheckReport) : string :=
  if cr_OK report then "on-chain config check passed" +:+ lineFeed else
  "on-chain config check failed (" +:+ pretty (length (cr_Issues report)) +:+ " " +:+ issueLabel report +:+ ")" +:+ lineFeed +:+
  renderIssues 0 (cr_Issues report).

(** ** The checker *)

Record checker := mkChecker {
  ck_clients : gmap Z ChainClient; ck_invalidChains : gset Z; ck_issues : list CheckIssue }.

(** An error ends the check without a report. *)
Definition checkM (A : Type) : Type := checker -> result string (checker * A).
#[export] Instance checkM_ret : MRet checkM := fun _ a s => Ok (s, a).
#[export] Instance checkM_bind : MBind checkM := fun _ _ k m s =>
  match m s with Ok (s', a) => k a s' | Err e => Err e end.

Definition liftC {A} (r : result string A) : checkM A := fun s => match r with Ok a => Ok (s, a) | Err e => Err e end.
Definition prefixErr {A} (msg : string) (r : result string A) : result string A :=
  match r with Ok a => Ok a | Err e => Err (msg +:+ ": " +:+ e)%string end.
(** fmt.Errorf("...: %w", err) *)
Definition readC {A} (msg : string) (r : result string A) : checkM A := liftC (prefixErr msg r).

Definition add (path message : string) : checkM unit :=
  fun s => Ok (mkChecker (ck_clients s) (ck_invalidChains s) (ck_issues s ++ [mkCheckIssue path message]), tt).
Definition addWhen (P : Prop) `{Decision P} (path message : string) : checkM unit :=
  if decide P then add path message else mret tt.
Definition markChainInvalid (eid : Z) : checkM unit :=
  fun s => Ok (mkChecker (ck_clients s) ({[eid]} ∪ ck_invalidChains s) (ck_issues s), tt).
Definition setClient (eid : Z) (client : ChainClient) : checkM unit :=
  fun s => Ok (mkChecker (<[eid := client]> (ck_clients s)) (ck_invalidChains s) (ck_issues s), tt).
Definition chainInvalid (s : checker) (eid : Z) : Prop := eid ∈ ck_invalidChains s.
#[export] Instance chainInvalid_dec s eid : Decision (chainInvalid s eid).
Proof. unfold chainInvalid. apply _. Defined.

Definition clientOf (eid : Z) : checkM ChainClient :=
  fun s => match ck_clients s !! eid with
           | Some client => Ok (s, client)
           | None => Err ("chain " +:+ pretty eid +:+ " client is required")%string
           end.

Definition bigString (value : option Z) : string :=
  match value with Some z => pretty z | None => "<nil>" end.

Definition boolText (b : bool) : string := if b then "true" else "false".

(** strings.Join *)
Fixpoint join (sep : string) (l : list string) : string :=
  match l with
  | [] => ""
  | [s] => s
  | s :: l => s +:+ sep +:+ join sep l
  end.
Definition sortedAddressHex (addresses : list Address) : list string :=
  merge_sort String.le ((fun a => EncodeToString (addressBytes a)) <$> addresses).
Definition addressesString (addresses : list Address) : string :=
  "[" +:+ join "," (sortedAddressHex addresses) +:+ "]".

Section configcheck.
Context `{CheckWorld}.
#[local] Open Scope string_scope.
#[local] Open Scope Z_scope.

Definition codeAt (client : ChainClient) (address : Address) : result string bytes :=
  rpc_CodeAt (cl_EID client) (anchorOf client) address.
Definition callContract (client : ChainClient) (to : Address) (data : bytes) : result string bytes :=
  rpc_CallContract (cl_EID client) (anchorOf client) to data.

(** ** Calls *)

Definition callValues (client : ChainClient) (abi : contractABI) (to : Address) (method : string) (args : list abivalue)
    : result string (list abivalue) :=
  data ← abi_Pack abi method args;
  result ← callContract client to data;
  values ← abi_Unpack abi method result;
  check values <> [] or (method +:+ " returned no values")%string ;;
  Ok values.

(** [values[0].(T)] *)
Definition firstValue {A} (as_ : abivalue -> option A) (method want : string) (values : list abivalue) : result string A :=
  match head values ≫= as_ with
  | Some a => Ok a
  | None => Err (method +:+ " returned another type, want " +:+ want)
  end.

Definition callUint32 client abi to method args : result string Z :=
  callValues client abi to method args ≫= firstValue (fun v => match v with VUint32 z => Some z | _ => None end) method "uint32".
Definition callAddress client abi to method args : result string Address :=
  callValues client abi to method args ≫= firstValue (fun v => match v with VAddress a => Some a | _ => None end) method "address".
Definition callHash client abi to method args : result string Hash :=
  callValues client abi to method args ≫= firstValue (fun v => match v with VBytes32 h => Some h | _ => None end) method "bytes32".
Definition callBool client abi to method args : result string bool :=
  callValues client abi to method args ≫= firstValue (fun v => match v with VBool b => Some b | _ => None end) method "bool".
Definition callBytes client abi to method args : result string bytes :=
  callValues client abi to method args ≫= firstValue (fun v => match v with VBytes b => Some b | _ => None end) method "bytes".

(** big.Int.IsUint64 *)
Definition isUint64 (z : Z) : Prop := 0 <= z < 2 ^ 64.
Definition uint64Value (value : abivalue) : option Z :=
  match value with
  | VUint64 z => Some z
  | VBig (Some z) => if decide (isUint64 z) then Some z else None
  | _ => None
  end.
Definition uint16Value (value : abivalue) : option Z :=
  match value with
  | VUint16 z => Some z
  | VUint64 z => if decide (2 ^ 16 - 1 < z) then None else Some z
  | VBig (Some z) => if decide (isUint64 z /\ z <= 2 ^ 16 - 1) then Some z else None
  | _ => None
  end.
Definition bigValue (value : abivalue) : option (option Z) := match value with VBig z => Some z | _ => None end.

Definition typed {A} (method field want : string) (v : option A) : result string A :=
  match v with Some a => Ok a | None => Err (method +:+ " " +:+ field +:+ " returned another type, want " +:+ want) end.

Definition callPathwayConfig (client : ChainClient) (to : Address) (dstEID : Z) (sender : Address) : result string pathwayConfig :=
  values ← callValues client workerABI to "pathwayConfig" [VUint32 dstEID; VAddress sender];
  match values with
  | [v0; v1; v2; v3] =>
    enabled ← typed "pathwayConfig" "enabled" "bool" (match v0 with VBool b => Some b | _ => None end);
    maxMessageSize ← typed "pathwayConfig" "maxMessageSize" "*big.Int" (bigValue v1);
    minGas ← typed "pathwayConfig" "minLzReceiveGas" "*big.Int" (bigValue v2);
    maxGas ← typed "pathwayConfig" "maxLzReceiveGas" "*big.Int" (bigValue v3);
    Ok (mkPathwayConfig enabled maxMessageSize minGas maxGas)
  | _ => Err ("pathwayConfig returned " +:+ pretty (length values) +:+ " values, want 4")
  end.

Definition callFeeModel (client : ChainClient) (to : Address) (dstEID : Z) : result string feeModel :=
  values ← callValues client workerABI to "feeModel" [VUint32 dstEID];
  match values with
  | [v0; v1; v2; v3] =>
    abiBaseFee ← typed "feeModel" "baseFee" "*big.Int" (bigValue v0);
    overhead ← typed "feeModel" "dstGasOverhead" "uint64" (uint64Value v1);
    dataOverhead ← typed "feeModel" "dataSizeOverheadBytes" "uint64" (uint64Value v2);
    margin ← typed "feeModel" "marginBps" "uint16" (uint16Value v3);
    Ok (mkFeeModelOnChain abiBaseFee overhead dataOverhead margin)
  | _ => Err ("feeModel returned " +:+ pretty (length values) +:+ " values, want 4")
  end.

Definition decodeExecutorConfig (data : bytes) : result string executorConfig :=
  values ← abi_Unpack configDecoderABI "executorConfig" data;
  match values with
  | [VExecutorTuple c] => Ok (mkExecutorConfig (xc_MaxMessageSize c mod 2 ^ 32) (xc_Executor c))
  | [_] => Err "executor config returned another type, want tuple struct"
  | _ => Err ("executor config returned " +:+ pretty (length values) +:+ " values, want 1")
  end.

Definition decodeULNConfig (data : bytes) : result string ulnConfig :=
  values ← abi_Unpack configDecoderABI "ulnConfig" data;
  match values with
  | [VUlnTuple c] => Ok (mkUln (uc_Confirmations c) (u8 (uc_RequiredDVNCount c)) (u8 (uc_OptionalDVNCount c))
                           (u8 (uc_OptionalDVNThreshold c)) (uc_RequiredDVNs c) (uc_OptionalDVNs c))
  | [_] => Err "uln config returned another type, want tuple struct"
  | _ => Err ("uln config returned " +:+ pretty (length values) +:+ " values, want 1")
  end.

(** ** Comparisons *)

Definition requireCode (client : ChainClient) (path : string) (eid : Z) (address : Address) : checkM unit :=
  code ← readC ("read chain " +:+ pretty eid +:+ " code at " +:+ AddressHex address) (codeAt client address);
  addWhen (code = []) path ("no contract code at " +:+ AddressHex address).

Definition compareULNConfig (path : string) (config : ulnConfig) (confirmations : Z) (requiredDVNs : list Address) : checkM unit :=
  _ ← addWhen (uc_Confirmations config <> confirmations) (path +:+ ".confirmations")
        ("confirmations " +:+ pretty (uc_Confirmations config) +:+ " does not match configured " +:+ pretty confirmations);
  _ ← addWhen (uc_RequiredDVNCount config <> u8 (Z.of_nat (length (uc_RequiredDVNs config)))) (path +:+ ".required_dvn_count")
        ("requiredDVNCount " +:+ pretty (uc_RequiredDVNCount config) +:+ " does not match requiredDVNs length " +:+
         pretty (length (uc_RequiredDVNs config)));
  _ ← addWhen (uc_OptionalDVNCount config <> 0 /\ uc_OptionalDVNCount config <> nilDVNCount) (path +:+ ".optional_dvn_count")
        ("optionalDVNCount " +:+ pretty (uc_OptionalDVNCount config) +:+ " is not disabled");
  _ ← addWhen (uc_OptionalDVNThreshold config <> 0) (path +:+ ".optional_dvn_threshold")
        ("optionalDVNThreshold " +:+ pretty (uc_OptionalDVNThreshold config) +:+ " is not zero");
  _ ← addWhen (uc_OptionalDVNs config <> []) (path +:+ ".optional_dvns")
        ("optional DVNs are configured: " +:+ addressesString (uc_OptionalDVNs config));
  addWhen (equalAddressSets (uc_RequiredDVNs config) requiredDVNs = false) (path +:+ ".required_dvns")
    ("required DVNs " +:+ addressesString (uc_RequiredDVNs config) +:+ " do not match the configured required set " +:+
     addressesString requiredDVNs).

Definition compareFeeModel (path : string) (actual : feeModel) (expected : WorkerFeeModelConfig) : checkM unit :=
  match ParseDecimal "configured fixed_fee_wei" (FixedFeeWei expected) with
  | Err _ => add (path +:+ ".fixed_fee_wei") ("configured fixed_fee_wei " +:+ quoted (FixedFeeWei expected) +:+ " is not a decimal integer")
  | Ok expectedFixedFee =>
    _ ← addWhen (fm_FixedFee actual <> Some expectedFixedFee) (path +:+ ".fixed_fee_wei")
          ("worker ABI baseFee " +:+ bigString (fm_FixedFee actual) +:+ " does not match configured fixed_fee_wei " +:+
           pretty expectedFixedFee);
    _ ← addWhen (fm_DstGasOverhead actual <> DstGasOverhead expected) (path +:+ ".dst_gas_overhead")
          ("worker destination gas overhead " +:+ pretty (fm_DstGasOverhead actual) +:+ " does not match configured " +:+
           pretty (DstGasOverhead expected));
    _ ← match DataSizeOverheadBytes expected with
        | None => add (path +:+ ".data_size_overhead_bytes") "configured data_size_overhead_bytes is required"
        | Some bytes => addWhen (fm_DataSizeOverheadBytes actual <> bytes) (path +:+ ".data_size_overhead_bytes")
                          ("worker data size overhead " +:+ pretty (fm_DataSizeOverheadBytes actual) +:+
                           " does not match configured " +:+ pretty bytes)
        end;
    addWhen (fm_MarginBps actual <> MarginBps expected) (path +:+ ".margin_bps")
      ("worker margin bps " +:+ pretty (fm_MarginBps actual) +:+ " does not match configured " +:+ pretty (MarginBps expected))
  end.

Definition readULNConfig (client : ChainClient) (endpoint oapp library : Address) (remoteEID : Z) (path : string)
    : result string ulnConfig :=
  configBytes ← prefixErr ("read " +:+ path)
    (callBytes client endpointABI endpoint "getConfig" [VAddress oapp; VAddress library; VUint32 remoteEID; VUint32 configTypeULN]);
  prefixErr ("decode " +:+ path) (decodeULNConfig configBytes).

(** ** One chain *)

Definition anchored (client : ChainClient) (number : Z) (hash : Hash) : ChainClient :=
  mkClient (cl_EID client) (cl_ValidatesChainID client) (cl_ChecksHead client) (cl_HashAddressed client) (Some (number, hash)).

(** The head checked once, and the client every later read of the chain goes through. *)
Definition anchorChain (client : ChainClient) (eid : Z) : checkM ChainClient :=
  if cl_ChecksHead client then
    head ← readC ("check chain " +:+ pretty eid +:+ " rpc head quorum") (rpc_CheckHead (cl_EID client));
    match head with
    | (Some number, hash) => _ ← setClient eid (anchored client number hash); mret (anchored client number hash)
    | (None, _) => mret client
    end
  else mret client.

Definition chainPath (eid : Z) (field : string) : string := "chains[" +:+ pretty eid +:+ "]." +:+ field.

Definition checkChainID (client : ChainClient) (configured : Chain) : checkM bool :=
  actualChainID ← readC ("read chain " +:+ pretty (ch_EID configured) +:+ " chain_id") (rpc_ChainID (cl_EID client));
  if decide (actualChainID <> Some (ch_ChainID configured)) then
    _ ← add (chainPath (ch_EID configured) "chain_id")
          ("on-chain chain_id " +:+ bigString actualChainID +:+ " does not match configured " +:+ pretty (ch_ChainID configured));
    _ ← markChainInvalid (ch_EID configured);
    mret false
  else mret true.

Definition checkEndpoint (client : ChainClient) (configured : Chain) : checkM unit :=
  actualEID ← readC ("read chain " +:+ pretty (ch_EID configured) +:+ " endpoint eid")
                (callUint32 client endpointABI (ch_EndpointAddress configured) "eid" []);
  _ ← addWhen (actualEID <> ch_EID configured) (chainPath (ch_EID configured) "eid")
        ("endpoint eid " +:+ pretty actualEID +:+ " does not match configured " +:+ pretty (ch_EID configured));
  requireCode client (chainPath (ch_EID configured) "endpoint_address") (ch_EID configured) (ch_EndpointAddress configured).

Definition checkChain (client : ChainClient) (configured : Chain) : checkM unit :=
  let eid := ch_EID configured in
  let rest :=
    client ← anchorChain client eid;
    same ← checkChainID client configured;
    if same : bool then checkEndpoint client configured else mret tt in
  match (if cl_ValidatesChainID client then rpc_ValidateChainID (cl_EID client) (ch_ChainID configured) else None) with
  | Some (true, msg) => _ ← add (chainPath eid "rpc_urls") msg; markChainInvalid eid
  | Some (false, msg) => liftC (Err ("validate chain " +:+ pretty eid +:+ " rpc chain_id: " +:+ msg))
  | None => rest
  end.

(** ** One pathway *)

(** common.BytesToHash(address.Bytes()) *)
Definition addressHash (a : Address) : Hash := BytesToHash (addressBytes a).

Definition checkOApp (client : ChainClient) (path : string) (oapp endpoint : Address) (remoteEID : Z) (remoteOApp : Address)
    : checkM unit :=
  code ← readC ("read code at OApp " +:+ AddressHex oapp) (codeAt client oapp);
  _ ← addWhen (code = []) path ("no contract code at " +:+ AddressHex oapp);
  actualEndpoint ← readC ("read " +:+ AddressHex oapp +:+ " endpoint") (callAddress client oappABI oapp "endpoint" []);
  _ ← addWhen (actualEndpoint <> endpoint) (path +:+ ".endpoint")
        ("oapp endpoint " +:+ AddressHex actualEndpoint +:+ " does not match configured endpoint " +:+ AddressHex endpoint);
  peer ← readC ("read " +:+ AddressHex oapp +:+ " peer " +:+ pretty remoteEID)
           (callHash client oappABI oapp "peers" [VUint32 remoteEID]);
  addWhen (peer <> addressHash remoteOApp) (path +:+ ".peers")
    ("peer for eid " +:+ pretty remoteEID +:+ " is " +:+ HashText peer +:+ ", want " +:+ HashText (addressHash remoteOApp)).

Definition checkLibraries (srcClient dstClient : ChainClient) (base : string) (srcChain dstChain : Chain) (pathway : Pathway)
    : checkM unit :=
  let src := pw_SrcEID pathway in let dst := pw_DstEID pathway in
  _ ← requireCode srcClient (base +:+ ".send_lib") src (pw_SendLib pathway);
  _ ← requireCode dstClient (base +:+ ".receive_lib") dst (pw_ReceiveLib pathway);
  sendLib ← readC ("read send library for " +:+ base)
    (callAddress srcClient endpointABI (ch_EndpointAddress srcChain) "getSendLibrary" [VAddress (pw_SrcOApp pathway); VUint32 dst]);
  _ ← addWhen (sendLib <> pw_SendLib pathway) (base +:+ ".send_lib")
        ("endpoint send library " +:+ AddressHex sendLib +:+ " does not match configured " +:+ AddressHex (pw_SendLib pathway));
  receiveLib ← readC ("read receive library for " +:+ base)
    (callAddress dstClient endpointABI (ch_EndpointAddress dstChain) "getReceiveLibrary" [VAddress (pw_DstOApp pathway); VUint32 src]);
  _ ← addWhen (receiveLib <> pw_ReceiveLib pathway) (base +:+ ".receive_lib")
        ("endpoint receive library " +:+ AddressHex receiveLib +:+ " does not match configured " +:+ AddressHex (pw_ReceiveLib pathway));
  executorConfigBytes ← readC ("read executor config for " +:+ base)
    (callBytes srcClient endpointABI (ch_EndpointAddress srcChain) "getConfig"
       [VAddress (pw_SrcOApp pathway); VAddress (pw_SendLib pathway); VUint32 dst; VUint32 configTypeExecutor]);
  config ← readC ("decode executor config for " +:+ base) (decodeExecutorConfig executorConfigBytes);
  _ ← addWhen (xc_Executor config <> OpenExecutor (pw_SourceWorkers pathway)) (base +:+ ".executor_config.executor")
        ("executor config points to " +:+ AddressHex (xc_Executor config) +:+ ", want " +:+
         AddressHex (OpenExecutor (pw_SourceWorkers pathway)));
  _ ← addWhen (xc_MaxMessageSize config <> pw_MaxMessageSize pathway) (base +:+ ".executor_config.max_message_size")
        ("executor max message size " +:+ pretty (xc_MaxMessageSize config) +:+ " does not match configured " +:+
         pretty (pw_MaxMessageSize pathway));
  sendULN ← liftC (readULNConfig srcClient (ch_EndpointAddress srcChain) (pw_SrcOApp pathway) (pw_SendLib pathway) dst
                     (base +:+ ".send_uln_config"));
  _ ← compareULNConfig (base +:+ ".send_uln_config") sendULN (ch_Confirmations srcChain) (pw_SendRequiredDVNs pathway);
  receiveULN ← liftC (readULNConfig dstClient (ch_EndpointAddress dstChain) (pw_DstOApp pathway) (pw_ReceiveLib pathway) src
                        (base +:+ ".receive_uln_config"));
  _ ← compareULNConfig (base +:+ ".receive_uln_config") receiveULN (ch_Confirmations dstChain) (pw_ReceiveRequiredDVNs pathway);
  addWhen (uc_Confirmations sendULN < uc_Confirmations receiveULN) (base +:+ ".uln_confirmations")
    ("send uln confirmations " +:+ pretty (uc_Confirmations sendULN) +:+ " are below receive uln confirmations " +:+
     pretty (uc_Confirmations receiveULN) +:+ "; every DVN verification for this pathway would be rejected").

(** big.Int.Uint64: the low 64 bits of the absolute value *)
Definition Uint64 (z : Z) : Z := Z.abs z mod 2 ^ 64.
Definition limitMatches (actual : option Z) (configured : Z) : Prop :=
  match actual with Some z => Uint64 z = configured | None => False end.
#[export] Instance limitMatches_dec actual configured : Decision (limitMatches actual configured).
Proof. unfold limitMatches. destruct actual; apply _. Defined.

(** One source worker: OpenExecutor or OpenDVN, with the fee model configured for it. *)
Definition checkWorker (srcClient : ChainClient) (base : string) (srcChain : Chain) (pathway : Pathway)
    (label : string) (worker : Address) (fee : WorkerFeeModelConfig) : checkM unit :=
  let path := base +:+ ".source_workers." +:+ label in
  _ ← requireCode srcClient path (ch_EID srcChain) worker;
  priceFeed ← readC ("read " +:+ label +:+ " priceFeed for " +:+ base) (callAddress srcClient workerABI worker "priceFeed" []);
  _ ← addWhen (priceFeed <> PriceFeed (pw_SourceWorkers pathway)) (path +:+ ".price_feed")
        (label +:+ " priceFeed " +:+ AddressHex priceFeed +:+ " does not match configured " +:+
         AddressHex (PriceFeed (pw_SourceWorkers pathway)));
  allowed ← readC ("read " +:+ label +:+ " allowedSendLib for " +:+ base)
              (callBool srcClient workerABI worker "allowedSendLib" [VAddress (pw_SendLib pathway)]);
  _ ← addWhen (allowed = false) (path +:+ ".allowed_send_lib")
        (label +:+ " does not allow send lib " +:+ AddressHex (pw_SendLib pathway));
  config ← readC ("read " +:+ label +:+ " pathwayConfig for " +:+ base)
             (callPathwayConfig srcClient worker (pw_DstEID pathway) (pw_SrcOApp pathway));
  _ ← addWhen (wc_Enabled config <> pw_Enabled pathway) (path +:+ ".enabled")
        ("worker enabled " +:+ boolText (wc_Enabled config) +:+ " does not match configured " +:+ boolText (pw_Enabled pathway));
  _ ← addWhen (~ limitMatches (wc_MaxMessageSize config) (pw_MaxMessageSize pathway)) (path +:+ ".max_message_size")
        ("worker max message size " +:+ bigString (wc_MaxMessageSize config) +:+ " does not match configured " +:+
         pretty (pw_MaxMessageSize pathway));
  _ ← addWhen (~ limitMatches (wc_MinLzReceiveGas config) (pw_MinLzReceiveGas pathway)) (path +:+ ".min_lz_receive_gas")
        ("worker min lz receive gas " +:+ bigString (wc_MinLzReceiveGas config) +:+ " does not match configured " +:+
         pretty (pw_MinLzReceiveGas pathway));
  _ ← addWhen (~ limitMatches (wc_MaxLzReceiveGas config) (pw_MaxLzReceiveGas pathway)) (path +:+ ".max_lz_receive_gas")
        ("worker max lz receive gas " +:+ bigString (wc_MaxLzReceiveGas config) +:+ " does not match configured " +:+
         pretty (pw_MaxLzReceiveGas pathway));
  if decide (FixedFeeWei fee <> "") then
    actualFee ← readC ("read " +:+ label +:+ " feeModel for " +:+ base) (callFeeModel srcClient worker (pw_DstEID pathway));
    compareFeeModel (path +:+ ".fee_model") actualFee fee
  else mret tt.

Definition checkSubmitter (srcClient : ChainClient) (base : string) (pricingSigner : Address) (pathway : Pathway) : checkM unit :=
  if decide (pricingSigner <> 0) then
    allowed ← readC ("read price feed submitter for " +:+ base)
                (callBool srcClient workerABI (PriceFeed (pw_SourceWorkers pathway)) "submitters" [VAddress pricingSigner]);
    addWhen (allowed = false) (base +:+ ".source_workers.price_feed.submitter")
      ("price feed does not authorize pricing signer " +:+ AddressHex pricingSigner)
  else mret tt.

Definition checkVerifier (dstClient : ChainClient) (base : string) (dstChain : Chain) (pathway : Pathway) : checkM unit :=
  let path := base +:+ ".destination_workers.open_dvn.verifiers" in
  if decide (pw_DVNMode pathway = DVNModeActive) then
    if decide (tr_SignerID (ch_DVN dstChain) = "") then
      add path "destination chain dvn signer is required for active dvn pathways"
    else
      let verifier := AddressOfHex (tr_SignerID (ch_DVN dstChain)) in
      allowed ← readC ("read destination open_dvn verifier authorization for " +:+ base)
                  (callBool dstClient workerABI (pw_DestinationOpenDVN pathway) "verifiers" [VAddress verifier]);
      addWhen (allowed = false) path
        ("dvn signer " +:+ AddressHex verifier +:+ " is not authorized on destination OpenDVN " +:+
         AddressHex (pw_DestinationOpenDVN pathway))
  else mret tt.

Definition checkWorkers (pricingSigner : Address) (srcClient dstClient : ChainClient) (base : string)
    (srcChain dstChain : Chain) (pathway : Pathway) : checkM unit :=
  _ ← requireCode srcClient (base +:+ ".source_workers.price_feed") (ch_EID srcChain) (PriceFeed (pw_SourceWorkers pathway));
  _ ← checkSubmitter srcClient base pricingSigner pathway;
  _ ← checkWorker srcClient base srcChain pathway "open_executor" (OpenExecutor (pw_SourceWorkers pathway)) (ExecutorFee (pw_Pricing pathway));
  _ ← checkWorker srcClient base srcChain pathway "open_dvn" (OpenDVN (pw_SourceWorkers pathway)) (DVNFee (pw_Pricing pathway));
  _ ← requireCode dstClient (base +:+ ".destination_workers.open_dvn") (ch_EID dstChain) (pw_DestinationOpenDVN pathway);
  checkVerifier dstClient base dstChain pathway.

Definition checkPathway (registry : Registry) (pricingSigner : Address) (pathway : Pathway) : checkM unit :=
  srcChain ← liftC (Get registry (pw_SrcEID pathway));
  dstChain ← liftC (Get registry (pw_DstEID pathway));
  srcClient ← clientOf (pw_SrcEID pathway);
  dstClient ← clientOf (pw_DstEID pathway);
  let base := "pathways[" +:+ pretty (pw_SrcEID pathway) +:+ ":" +:+ pretty (pw_DstEID pathway) +:+ ":" +:+
              AddressHex (pw_SrcOApp pathway) +:+ ":" +:+ AddressHex (pw_DstOApp pathway) +:+ "]" in
  _ ← checkOApp srcClient (base +:+ ".src_oapp") (pw_SrcOApp pathway) (ch_EndpointAddress srcChain) (pw_DstEID pathway) (pw_DstOApp pathway);
  _ ← checkOApp dstClient (base +:+ ".dst_oapp") (pw_DstOApp pathway) (ch_EndpointAddress dstChain) (pw_SrcEID pathway) (pw_SrcOApp pathway);
  _ ← checkLibraries srcClient dstClient base srcChain dstChain pathway;
  checkWorkers pricingSigner srcClient dstClient base srcChain dstChain pathway.

(** ** The whole check *)

Fixpoint forEach {A} (f : A -> checkM unit) (l : list A) : checkM unit :=
  match l with
  | [] => mret tt
  | x :: l => _ ← f x; forEach f l
  end.

Definition checkConfigured (configured : Chain) : checkM unit :=
  client ← clientOf (ch_EID configured); checkChain client configured.

Definition checkUnlessInvalid (registry : Registry) (pricingSigner : Address) (pathway : Pathway) : checkM unit :=
  fun s => if decide (chainInvalid s (pw_SrcEID pathway) \/ chainInvalid s (pw_DstEID pathway)) then Ok (s, tt)
           else checkPathway registry pricingSigner pathway s.

Definition runCheck (registry : Registry) (pricingSigner : Address) : checkM unit :=
  _ ← forEach checkConfigured (All registry);
  forEach (checkUnlessInvalid registry pricingSigner) (Pathways registry).

(** [pricingSigner] is the zero address without WithPricingSigner. *)
Definition CheckWithClients (registry : Registry) (clients : gmap Z ChainClient) (pricingSigner : Address)
    : result string CheckReport :=
  match runCheck registry pricingSigner (mkChecker clients ∅ []) with
  | Ok (s, _) => Ok (mkCheckReport (bool_decide (ck_issues s = [])) (ck_issues s))
  | Err e => Err e
  end.

(** The quorum client of a chain has every optional method. *)
Definition quorumClient (configured : Chain) : ChainClient := mkClient (ch_EID configured) true true true None.
Definition Check (registry : Registry) (pricingSigner : Address) : result string CheckReport :=
  CheckWithClients registry (list_to_map ((fun c => (ch_EID c, quorumClient c)) <$> All registry)) pricingSigner.
End configcheck.
