(* ===== verification/ConfigCheckProofs.v ===== *)
(** * What a passing configuration check says of the chains

    [reports] is the logic of the checker: a check adds no issue exactly when what it reads
    matches the configuration. *)

From S2P Require Import Prelude GoErr BigUtil Schema SendScope Outbox Attempts Jobs StateReads Quorum QuorumLogs Registry Worker Dvn DvnProofs PriceSelect Pricing PricingProofs ConfigCheck.
From stdpp Require Import base gmap list strings numbers pretty sorting.
From Stdlib Require Import ZArith Lia.
#[local] Open Scope Z_scope.

(** ** The logic *)

(** The check leaves clients and invalid chains alone and adds no issue exactly when [P]. *)
Definition reports {A} (m : checkM A) (P : A -> Prop) : Prop :=
  forall s s' a, m s = Ok (s', a) -> ck_clients s' = ck_clients s /\ ck_invalidChains s' = ck_invalidChains s /\
  exists l, ck_issues s' = ck_issues s ++ l /\ (l = [] <-> P a).

Lemma reports_skip (Q : Prop) : Q -> reports (mret tt) (fun _ => Q).
Proof. intros HQ s s' x [= <- <-]. split_and!; try done. exists []. by rewrite app_nil_r. Qed.

Lemma reports_fail path msg (Q : Prop) : ~ Q -> reports (add path msg) (fun _ => Q).
Proof. intros HQ s s' a [= <- <-]. split_and!; try done. by eexists. Qed.

Lemma reports_when P `{Decision P} path msg (Q : Prop) : (Q <-> ~ P) -> reports (addWhen P path msg) (fun _ => Q).
Proof. intros E. unfold addWhen. case_decide; [apply reports_fail|apply reports_skip]; tauto. Qed.

Lemma reports_seq {A} (m : checkM unit) (k : unit -> checkM A) (P : Prop) Q :
  reports m (fun _ => P) -> reports (k tt) Q -> reports (m ≫= k) (fun a => P /\ Q a).
Proof.
  intros Hm Hk s s' a. unfold mbind, checkM_bind. destruct (m s) as [[s1 []]|] eqn:E1; [|done]. intros E2.
  destruct (Hm _ _ _ E1) as (C1 & I1 & l1 & L1 & H1). destruct (Hk _ _ _ E2) as (C2 & I2 & l2 & L2 & H2).
  split_and!; [congruence..|]. exists (l1 ++ l2). split; [by rewrite L2, L1, app_assoc|]. by rewrite app_nil, H1, H2.
Qed.

Lemma reports_lift {A B} (r : result string A) (k : A -> checkM B) Q :
  (forall a, r = Ok a -> reports (k a) Q) -> reports (liftC r ≫= k) Q.
Proof.
  intros Hk s s' b. unfold mbind, checkM_bind, liftC. destruct r as [a|]; [|done]. intros E. by eapply Hk.
Qed.

Lemma reports_read {A B} msg (r : result string A) (k : A -> checkM B) Q :
  (forall a, r = Ok a -> reports (k a) Q) -> reports (readC msg r ≫= k) Q.
Proof. intros Hk. apply reports_lift. intros a E. apply Hk. by destruct r; [injection E as ->|]. Qed.

Lemma reports_iff {A} (m : checkM A) (P Q : A -> Prop) : (forall a, P a <-> Q a) -> reports m P -> reports m Q.
Proof.
  intros HPQ Hm s s' a E. destruct (Hm s s' a E) as (? & ? & l & ? & Hl). split_and!; try done. exists l. split; [done|].
  by rewrite Hl.
Qed.

(** [read x E] takes an answered read, [seq] the next comparison. *)
Tactic Notation "read" ident(x) ident(E) := first [apply reports_read|apply reports_lift]; intros x E.
Ltac seq := apply reports_seq; [apply reports_when|].

Section matches.
Context `{CheckWorld}.
#[local] Open Scope string_scope.
#[local] Open Scope Z_scope.

(** ** What must match *)

Definition has_code (client : ChainClient) (address : Address) : Prop :=
  exists code, codeAt client address = Ok code /\ code <> [].

Definition oapp_matches (client : ChainClient) (oapp endpoint : Address) (remoteEID : Z) (remoteOApp : Address) : Prop :=
  has_code client oapp /\ callAddress client oappABI oapp "endpoint" [] = Ok endpoint /\
  callHash client oappABI oapp "peers" [VUint32 remoteEID] = Ok (addressHash remoteOApp).

(** The same required DVNs in any order and no optional ones. *)
Definition uln_matches (config : ulnConfig) (confirmations : Z) (requiredDVNs : list Address) : Prop :=
  uc_Confirmations config = confirmations /\
  uc_RequiredDVNCount config = Z.of_nat (length (uc_RequiredDVNs config)) mod 256 /\
  (uc_OptionalDVNCount config = 0 \/ uc_OptionalDVNCount config = 255) /\
  uc_OptionalDVNThreshold config = 0 /\ uc_OptionalDVNs config = [] /\ uc_RequiredDVNs config ≡ₚ requiredDVNs.

Definition uln_read (client : ChainClient) (endpoint oapp library : Address) (remoteEID : Z) (config : ulnConfig) : Prop :=
  exists data, callBytes client endpointABI endpoint "getConfig"
    [VAddress oapp; VAddress library; VUint32 remoteEID; VUint32 configTypeULN] = Ok data /\ decodeULNConfig data = Ok config.

Definition libraries_match (src dst : ChainClient) (srcChain dstChain : Chain) (p : Pathway) : Prop :=
  has_code src (pw_SendLib p) /\ has_code dst (pw_ReceiveLib p) /\
  callAddress src endpointABI (ch_EndpointAddress srcChain) "getSendLibrary" [VAddress (pw_SrcOApp p); VUint32 (pw_DstEID p)] = Ok (pw_SendLib p) /\
  callAddress dst endpointABI (ch_EndpointAddress dstChain) "getReceiveLibrary" [VAddress (pw_DstOApp p); VUint32 (pw_SrcEID p)] = Ok (pw_ReceiveLib p) /\
  (exists data, callBytes src endpointABI (ch_EndpointAddress srcChain) "getConfig"
     [VAddress (pw_SrcOApp p); VAddress (pw_SendLib p); VUint32 (pw_DstEID p); VUint32 configTypeExecutor] = Ok data /\
     decodeExecutorConfig data = Ok (mkExecutorConfig (pw_MaxMessageSize p) (OpenExecutor (pw_SourceWorkers p)))) /\
  exists send receive,
    uln_read src (ch_EndpointAddress srcChain) (pw_SrcOApp p) (pw_SendLib p) (pw_DstEID p) send /\
    uln_read dst (ch_EndpointAddress dstChain) (pw_DstOApp p) (pw_ReceiveLib p) (pw_SrcEID p) receive /\
    uln_matches send (ch_Confirmations srcChain) (pw_SendRequiredDVNs p) /\
    uln_matches receive (ch_Confirmations dstChain) (pw_ReceiveRequiredDVNs p) /\
    uc_Confirmations receive <= uc_Confirmations send.

Definition fee_matches (actual : feeModel) (expected : WorkerFeeModelConfig) : Prop :=
  exists fixedFee, ParseDecimal "configured fixed_fee_wei" (FixedFeeWei expected) = Ok fixedFee /\
  fm_FixedFee actual = Some fixedFee /\ fm_DstGasOverhead actual = DstGasOverhead expected /\
  DataSizeOverheadBytes expected = Some (fm_DataSizeOverheadBytes actual) /\ fm_MarginBps actual = MarginBps expected.

(** An on-chain limit that is the configured one in its low 64 bits: the check does not tell a limit
    from one that is a multiple of 2^64 above it. *)
Definition low64_matches (limit : option Z) (configured : Z) : Prop :=
  exists v, limit = Some v /\ Z.abs v mod 2 ^ 64 = configured.
Lemma limitMatches_low64 limit configured : limitMatches limit configured <-> low64_matches limit configured.
Proof. unfold low64_matches. destruct limit as [v|]; cbn; naive_solver. Qed.

Definition worker_matches (src : ChainClient) (p : Pathway) (worker : Address) (fee : WorkerFeeModelConfig) : Prop :=
  has_code src worker /\ callAddress src workerABI worker "priceFeed" [] = Ok (PriceFeed (pw_SourceWorkers p)) /\
  callBool src workerABI worker "allowedSendLib" [VAddress (pw_SendLib p)] = Ok true /\
  (exists config, callPathwayConfig src worker (pw_DstEID p) (pw_SrcOApp p) = Ok config /\ wc_Enabled config = pw_Enabled p /\
     low64_matches (wc_MaxMessageSize config) (pw_MaxMessageSize p) /\
     low64_matches (wc_MinLzReceiveGas config) (pw_MinLzReceiveGas p) /\
     low64_matches (wc_MaxLzReceiveGas config) (pw_MaxLzReceiveGas p)) /\
  (FixedFeeWei fee <> "" -> exists actual, callFeeModel src worker (pw_DstEID p) = Ok actual /\ fee_matches actual fee).

Definition workers_match (pricingSigner : Address) (src dst : ChainClient) (dstChain : Chain) (p : Pathway) : Prop :=
  has_code src (PriceFeed (pw_SourceWorkers p)) /\
  (pricingSigner <> 0 -> callBool src workerABI (PriceFeed (pw_SourceWorkers p)) "submitters" [VAddress pricingSigner] = Ok true) /\
  worker_matches src p (OpenExecutor (pw_SourceWorkers p)) (ExecutorFee (pw_Pricing p)) /\
  worker_matches src p (OpenDVN (pw_SourceWorkers p)) (DVNFee (pw_Pricing p)) /\
  has_code dst (pw_DestinationOpenDVN p) /\
  (pw_DVNMode p = DVNModeActive -> tr_SignerID (ch_DVN dstChain) <> "" /\
     callBool dst workerABI (pw_DestinationOpenDVN p) "verifiers" [VAddress (AddressOfHex (tr_SignerID (ch_DVN dstChain)))] = Ok true).

Definition pathway_agrees (pricingSigner : Address) (src dst : ChainClient) (srcChain dstChain : Chain) (p : Pathway) : Prop :=
  oapp_matches src (pw_SrcOApp p) (ch_EndpointAddress srcChain) (pw_DstEID p) (pw_DstOApp p) /\
  oapp_matches dst (pw_DstOApp p) (ch_EndpointAddress dstChain) (pw_SrcEID p) (pw_SrcOApp p) /\
  libraries_match src dst srcChain dstChain p /\ workers_match pricingSigner src dst dstChain p.

(** The client a chain is read through after its head was checked. *)
Definition head_pinned (client : ChainClient) : ChainClient :=
  if cl_ChecksHead client then
    match rpc_CheckHead (cl_EID client) with Ok (Some number, hash) => anchored client number hash | _ => client end
  else client.

Definition chain_matches (client : ChainClient) (c : Chain) : Prop :=
  (cl_ValidatesChainID client = true -> rpc_ValidateChainID (cl_EID client) (ch_ChainID c) = None) /\
  rpc_ChainID (cl_EID client) = Ok (Some (ch_ChainID c)) /\
  callUint32 (head_pinned client) endpointABI (ch_EndpointAddress c) "eid" [] = Ok (ch_EID c) /\
  has_code (head_pinned client) (ch_EndpointAddress c).

(** ** The comparisons *)

Lemma code_read client address code : codeAt client address = Ok code -> has_code client address <-> ~ code = [].
Proof.
  intros E. unfold has_code. rewrite E. split; [intros (c & Ec & Hc); by injection Ec as <-|intros Hc; by exists code].
Qed.


(** An answered read is the configured value when it is not reported as different. *)
Lemma read_is {A} `{EqDecision A} (r : result string A) a b : r = Ok a -> r = Ok b <-> ~ a <> b.
Proof. intros ->. split; [by intros [= ->] ?|]. intros Hn. f_equal. by apply dec_stable. Qed.

Lemma read_true (r : result string bool) a : r = Ok a -> r = Ok true <-> ~ a = false.
Proof. intros ->. destruct a; split; congruence. Qed.

Lemma requireCode_reports client path eid address : reports (requireCode client path eid address) (fun _ => has_code client address).
Proof. unfold requireCode. read code E. apply reports_when. by apply code_read. Qed.

Lemma checkOApp_reports client path oapp endpoint remoteEID remoteOApp :
  reports (checkOApp client path oapp endpoint remoteEID remoteOApp) (fun _ => oapp_matches client oapp endpoint remoteEID remoteOApp).
Proof.
  unfold checkOApp, oapp_matches. read code Ec. seq; [by apply code_read|]. read actual Ea. seq; [by apply read_is|].
  read peer Ep. apply reports_when. by apply read_is.
Qed.

Lemma compareULNConfig_reports path config confirmations dvns :
  reports (compareULNConfig path config confirmations dvns) (fun _ => uln_matches config confirmations dvns).
Proof.
  unfold compareULNConfig, uln_matches, u8, nilDVNCount. do 5 (seq; [lia || (destruct (uc_OptionalDVNs config); naive_solver)|]).
  apply reports_when. rewrite <- equalAddressSets_spec. by destruct (equalAddressSets _ _).
Qed.

Lemma compareFeeModel_reports path actual expected :
  reports (compareFeeModel path actual expected) (fun _ => fee_matches actual expected).
Proof.
  unfold compareFeeModel, fee_matches. destruct (ParseDecimal _ _) as [fixedFee|] eqn:E.
  - apply (reports_iff _ (fun _ => fm_FixedFee actual = Some fixedFee /\ fm_DstGasOverhead actual = DstGasOverhead expected /\
      DataSizeOverheadBytes expected = Some (fm_DataSizeOverheadBytes actual) /\ fm_MarginBps actual = MarginBps expected)).
    { intros _. split; [intros Hm; by exists fixedFee|]. intros (f & [= <-] & Hm). done. }
    seq; [destruct (decide (fm_FixedFee actual = Some fixedFee)); tauto|]. seq; [lia|].
    apply reports_seq; [|apply reports_when; lia]. destruct (DataSizeOverheadBytes expected) as [n|].
    + apply reports_when. split; [intros Hn; injection Hn; lia|]. intros Hn. f_equal. lia.
    + by apply reports_fail.
  - apply reports_fail. by intros (? & ? & _).
Qed.

Lemma readULNConfig_read client endpoint oapp library remoteEID path config :
  readULNConfig client endpoint oapp library remoteEID path = Ok config -> uln_read client endpoint oapp library remoteEID config.
Proof.
  unfold readULNConfig, uln_read. destruct (callBytes _ _ _ _ _) as [data|]; [|done]. cbn. intros E. exists data. split; [done|].
  by destruct (decodeULNConfig data); [injection E as ->|].
Qed.

Lemma uln_read_fun client endpoint oapp library remoteEID c c' :
  uln_read client endpoint oapp library remoteEID c -> uln_read client endpoint oapp library remoteEID c' -> c = c'.
Proof. intros (d & E1 & E2) (d' & E1' & E2'). congruence. Qed.

Lemma checkLibraries_reports src dst base srcChain dstChain p :
  reports (checkLibraries src dst base srcChain dstChain p) (fun _ => libraries_match src dst srcChain dstChain p).
Proof.
  unfold checkLibraries, libraries_match.
  apply reports_seq; [apply requireCode_reports|]. apply reports_seq; [apply requireCode_reports|].
  read sendLib Es. seq; [by apply read_is|]. read receiveLib Er. seq; [by apply read_is|].
  read data Ed. read config Ec. set (ulns := exists send receive, _).
  apply (reports_iff _ (fun _ => xc_Executor config = OpenExecutor (pw_SourceWorkers p) /\ xc_MaxMessageSize config = pw_MaxMessageSize p /\ ulns)).
  { intros _. split.
    - intros (Hx & Hm & Hu). split; [|done]. exists data. split; [done|]. rewrite Ec. destruct config. cbn in *. congruence.
    - intros [(d & Ed' & Ec') Hu]. rewrite Ed in Ed'. injection Ed' as <-. rewrite Ec in Ec'. by injection Ec' as ->. }
  seq; [lia|]. seq; [lia|]. read send Hs. apply readULNConfig_read in Hs.
  set (received := exists receive, uln_read dst (ch_EndpointAddress dstChain) (pw_DstOApp p) (pw_ReceiveLib p) (pw_SrcEID p) receive /\
    uln_matches receive (ch_Confirmations dstChain) (pw_ReceiveRequiredDVNs p) /\ uc_Confirmations receive <= uc_Confirmations send).
  apply (reports_iff _ (fun _ => uln_matches send (ch_Confirmations srcChain) (pw_SendRequiredDVNs p) /\ received)).
  { intros _. split; [intros (Hm & r & Hr & Hrm & Hle); exists send, r; done|].
    intros (send' & r & Hs' & Hr & Hm & Hrm & Hle). rewrite <- (uln_read_fun _ _ _ _ _ _ _ Hs Hs') in Hm, Hle. split; [done|]. by exists r. }
  apply reports_seq; [apply compareULNConfig_reports|]. read receive Hr. apply readULNConfig_read in Hr.
  apply (reports_iff _ (fun _ => uln_matches receive (ch_Confirmations dstChain) (pw_ReceiveRequiredDVNs p) /\
    uc_Confirmations receive <= uc_Confirmations send)).
  { intros _. split; [intros Hm; by exists receive|]. intros (r & Hr' & Hm). by rewrite <- (uln_read_fun _ _ _ _ _ _ _ Hr Hr') in Hm. }
  apply reports_seq; [apply compareULNConfig_reports|]. apply reports_when. lia.
Qed.

Lemma checkWorker_reports src base srcChain p label worker fee :
  reports (checkWorker src base srcChain p label worker fee) (fun _ => worker_matches src p worker fee).
Proof.
  unfold checkWorker, worker_matches. apply reports_seq; [apply requireCode_reports|]. read feed Ef. seq; [by apply read_is|].
  read allowed Ea. seq; [by apply read_true|]. read config Ec. set (fees := FixedFeeWei fee <> "" -> _).
  apply (reports_iff _ (fun _ => wc_Enabled config = pw_Enabled p /\ limitMatches (wc_MaxMessageSize config) (pw_MaxMessageSize p) /\
    limitMatches (wc_MinLzReceiveGas config) (pw_MinLzReceiveGas p) /\ limitMatches (wc_MaxLzReceiveGas config) (pw_MaxLzReceiveGas p) /\ fees)).
  { intros _. rewrite Ec, !limitMatches_low64. split; [intros (H1 & H2 & H3 & H4 & H5); split; [by exists config|done]|].
    intros [(c & [= <-] & H1 & H2 & H3 & H4) H5]. done. }
  do 4 (seq; [split; [tauto|apply dec_stable]|]). case_decide as Hf.
  - read actual Em. apply (reports_iff _ (fun _ => fee_matches actual fee)); [|apply compareFeeModel_reports].
    intros _. unfold fees. rewrite Em. split; [intros Hm _; by exists actual|]. intros Hx. by destruct (Hx Hf) as (a & [= <-] & Hm).
  - apply reports_skip. unfold fees. tauto.
Qed.

Lemma checkWorkers_reports pricingSigner src dst base srcChain dstChain p :
  reports (checkWorkers pricingSigner src dst base srcChain dstChain p) (fun _ => workers_match pricingSigner src dst dstChain p).
Proof.
  unfold checkWorkers, workers_match. apply reports_seq; [apply requireCode_reports|]. apply reports_seq.
  { unfold checkSubmitter. case_decide as Hz.
    - read allowed Ea. apply reports_when. rewrite <- (read_true _ _ Ea). tauto.
    - apply reports_skip. tauto. }
  do 2 (apply reports_seq; [apply checkWorker_reports|]). apply reports_seq; [apply requireCode_reports|].
  unfold checkVerifier. case_decide as Hm; [|apply reports_skip; tauto]. case_decide as Hs.
  - apply reports_fail. tauto.
  - read allowed Ea. apply reports_when. rewrite <- (read_true _ _ Ea). tauto.
Qed.

(** ** The loops *)

Lemma pathway_reports pricingSigner src dst srcChain dstChain p base :
  reports (_ ← checkOApp src (base +:+ ".src_oapp") (pw_SrcOApp p) (ch_EndpointAddress srcChain) (pw_DstEID p) (pw_DstOApp p);
           _ ← checkOApp dst (base +:+ ".dst_oapp") (pw_DstOApp p) (ch_EndpointAddress dstChain) (pw_SrcEID p) (pw_SrcOApp p);
           _ ← checkLibraries src dst base srcChain dstChain p;
           checkWorkers pricingSigner src dst base srcChain dstChain p)
    (fun _ => pathway_agrees pricingSigner src dst srcChain dstChain p).
Proof.
  unfold pathway_agrees. do 2 (apply reports_seq; [apply checkOApp_reports|]).
  apply reports_seq; [apply checkLibraries_reports|apply checkWorkers_reports].
Qed.

(** A pathway between chains of the registry, read through the clients of the state. *)
Lemma checkPathway_spec registry pricingSigner p s s' :
  checkPathway registry pricingSigner p s = Ok (s', tt) ->
  exists srcChain dstChain src dst, Get registry (pw_SrcEID p) = Ok srcChain /\ Get registry (pw_DstEID p) = Ok dstChain /\
  ck_clients s !! pw_SrcEID p = Some src /\ ck_clients s !! pw_DstEID p = Some dst /\
  ck_clients s' = ck_clients s /\ ck_invalidChains s' = ck_invalidChains s /\
  exists l, ck_issues s' = (ck_issues s ++ l)%list /\ (l = [] <-> pathway_agrees pricingSigner src dst srcChain dstChain p).
Proof.
  unfold checkPathway, mbind, checkM_bind, liftC, clientOf. intros E.
  destruct (Get registry (pw_SrcEID p)) as [srcChain|]; [|done]. destruct (Get registry (pw_DstEID p)) as [dstChain|]; [|done].
  destruct (ck_clients s !! pw_SrcEID p) as [src|] eqn:Es; [|done]. rewrite ?Es in E.
  destruct (ck_clients s !! pw_DstEID p) as [dst|] eqn:Ed; [|done].
  destruct (pathway_reports _ _ _ _ _ _ _ _ _ _ E) as (Hc & Hi & Hl). eauto 20.
Qed.

(** A check only adds issues. *)
Definition grows (m : checkM unit) : Prop := forall s s', m s = Ok (s', tt) -> exists l, ck_issues s' = (ck_issues s ++ l)%list.

Lemma forEach_grows {A} (f : A -> checkM unit) l : (forall x, grows (f x)) -> grows (forEach f l).
Proof.
  intros Hf. induction l as [|x l IH]; intros s s' E; cbn in E.
  - injection E as <-. exists []. by rewrite app_nil_r.
  - unfold mbind, checkM_bind in E. destruct (f x s) as [[s1 []]|] eqn:E1; [|done].
    destruct (Hf x _ _ E1) as [l1 L1]. destruct (IH _ _ E) as [l2 L2]. exists (l1 ++ l2)%list. by rewrite L2, L1, app_assoc.
Qed.

Lemma checkUnlessInvalid_grows registry pricingSigner p : grows (checkUnlessInvalid registry pricingSigner p).
Proof.
  intros s s'. unfold checkUnlessInvalid. case_decide; [intros [= <-]; exists []; by rewrite app_nil_r|].
  intros (? & ? & ? & ? & _ & _ & _ & _ & _ & _ & l & Hl & _)%checkPathway_spec. by exists l.
Qed.

(** The pathways, when no chain is invalid. *)
Definition pathway_passes registry pricingSigner (clients : gmap Z ChainClient) (p : Pathway) : Prop :=
  exists srcChain dstChain src dst, Get registry (pw_SrcEID p) = Ok srcChain /\ Get registry (pw_DstEID p) = Ok dstChain /\
  clients !! pw_SrcEID p = Some src /\ clients !! pw_DstEID p = Some dst /\
  pathway_agrees pricingSigner src dst srcChain dstChain p.

Lemma pathways_spec registry pricingSigner l s s' :
  forEach (checkUnlessInvalid registry pricingSigner) l s = Ok (s', tt) -> ck_invalidChains s = ∅ ->
  exists issues, ck_issues s' = (ck_issues s ++ issues)%list /\
    (issues = [] <-> Forall (pathway_passes registry pricingSigner (ck_clients s)) l).
Proof.
  revert s. induction l as [|p l IH]; intros s E Hi; cbn in E.
  - injection E as <-. exists []. by rewrite app_nil_r.
  - unfold mbind, checkM_bind in E. destruct (checkUnlessInvalid _ _ _ s) as [[s1 []]|] eqn:E1; [|done].
    unfold checkUnlessInvalid in E1. rewrite decide_False in E1 by (unfold chainInvalid; rewrite Hi; set_solver).
    destruct (checkPathway_spec _ _ _ _ _ E1) as (sc & dc & src & dst & Hsc & Hdc & Hs & Hd & Hc1 & Hi1 & l1 & L1 & H1).
    destruct (IH s1 E) as (l2 & L2 & H2); [congruence|]. exists (l1 ++ l2)%list. split; [by rewrite L2, L1, app_assoc|].
    rewrite app_nil, H1, H2, list.Forall_cons, Hc1. f_equiv. unfold pathway_passes. split.
    + intros Hm. by exists sc, dc, src, dst.
    + intros (sc' & dc' & src' & dst' & Hsc' & Hdc' & Hs' & Hd' & Hm). congruence.
Qed.

Lemma checkEndpoint_reports client c : reports (checkEndpoint client c) (fun _ =>
  callUint32 client endpointABI (ch_EndpointAddress c) "eid" [] = Ok (ch_EID c) /\ has_code client (ch_EndpointAddress c)).
Proof. unfold checkEndpoint. read eid E. seq; [by apply read_is|]. apply requireCode_reports. Qed.

(** The head is checked and the chain's client replaced by the pinned one. *)
Lemma anchorChain_spec client eid s s' client' : anchorChain client eid s = Ok (s', client') -> ck_clients s !! eid = Some client ->
  client' = head_pinned client /\ ck_clients s' = <[eid := head_pinned client]> (ck_clients s) /\
  ck_invalidChains s' = ck_invalidChains s /\ ck_issues s' = ck_issues s.
Proof.
  unfold anchorChain, head_pinned, readC, liftC, mbind, checkM_bind, mret, checkM_ret. intros E Hc.
  destruct (cl_ChecksHead client); [|injection E as <- <-; by rewrite insert_id].
  destruct (rpc_CheckHead _) as [[[n|] h]|]; cbn in E; [|injection E as <- <-; by rewrite insert_id|done]. by injection E as <- <-.
Qed.

Lemma checkConfigured_spec c s s' : checkConfigured c s = Ok (s', tt) ->
  exists client l, ck_clients s !! ch_EID c = Some client /\ ck_issues s' = (ck_issues s ++ l)%list /\ (l = [] <-> chain_matches client c) /\
  (l = [] -> ck_clients s' = <[ch_EID c := head_pinned client]> (ck_clients s) /\ ck_invalidChains s' = ck_invalidChains s) /\
  forall eid, eid <> ch_EID c -> ck_clients s' !! eid = ck_clients s !! eid.
Proof.
  unfold checkConfigured, clientOf, mbind at 1, checkM_bind at 1. destruct (ck_clients s !! ch_EID c) as [client|] eqn:Hc; [|done].
  intros E. exists client. unfold checkChain in E.
  destruct (if cl_ValidatesChainID client then _ else _) as [[[] msg]|] eqn:Ev.
  - cbn in E. injection E as <-. exists [mkCheckIssue (chainPath (ch_EID c) "rpc_urls") msg]. cbn. split_and!; try done.
    split; [done|]. intros (Hv & _). destruct (cl_ValidatesChainID client); [|done]. by rewrite Hv in Ev.
  - done.
  - assert (cl_ValidatesChainID client = true -> rpc_ValidateChainID (cl_EID client) (ch_ChainID c) = None) as Hv.
    { intros Hb. by rewrite Hb in Ev. }
    unfold mbind at 1, checkM_bind at 1 in E. destruct (anchorChain _ _ s) as [[s1 client1]|] eqn:E1; [|done].
    destruct (anchorChain_spec _ _ _ _ _ E1 Hc) as (-> & C1 & I1 & L1).
    assert (forall eid, eid <> ch_EID c -> ck_clients s1 !! eid = ck_clients s !! eid) as Hother
      by (intros eid Hne; by rewrite C1, lookup_insert_ne).
    assert (cl_EID (head_pinned client) = cl_EID client) as Hid.
    { unfold head_pinned. destruct (cl_ChecksHead client); [|done]. by destruct (rpc_CheckHead _) as [[[] ?]|]. }
    unfold checkChainID, readC, liftC, mbind, checkM_bind in E. rewrite Hid in E.
    destruct (rpc_ChainID (cl_EID client)) as [id|] eqn:Ei; cbn in E; [|done]. case_decide as Hd; cbn in E.
    + injection E as <-. eexists [_]. cbn. rewrite L1. split_and!; try done. split; [done|]. intros (_ & Hi & _).
      rewrite Ei in Hi. by injection Hi as ->.
    + subst id. destruct (checkEndpoint_reports _ _ _ _ _ E) as (C2 & I2 & l & L2 & Hl).
      exists l. split_and!; try done; [by rewrite L2, L1| |intros _; split; congruence|intros eid Hne; rewrite C2; by apply Hother].
      rewrite Hl. unfold chain_matches. tauto.
Qed.

Lemma impl_iff (P Q R : Prop) : (P -> (Q <-> R)) -> ((P -> Q) <-> (P -> R)).
Proof. tauto. Qed.

(** The chains, one by one: each is read through the client it had, and replaced by the pinned
    one. *)
Lemma chains_spec l s s' : forEach checkConfigured l s = Ok (s', tt) -> NoDup (ch_EID <$> l) ->
  exists issues, ck_issues s' = (ck_issues s ++ issues)%list /\
  (issues = [] <-> Forall (fun c => exists client, ck_clients s !! ch_EID c = Some client /\ chain_matches client c) l) /\
  (issues = [] -> ck_invalidChains s' = ck_invalidChains s /\
     forall eid, ck_clients s' !! eid = if decide (eid ∈ (ch_EID <$> l)) then head_pinned <$> ck_clients s !! eid else ck_clients s !! eid).
Proof.
  revert s. induction l as [|c l IH]; intros s E Hnd; cbn in E.
  - injection E as <-. exists []. rewrite app_nil_r. done.
  - cbn in Hnd. apply NoDup_cons in Hnd as [Hnew Hnd].
    unfold mbind, checkM_bind in E. destruct (checkConfigured c s) as [[s1 []]|] eqn:E1; [|done].
    destruct (checkConfigured_spec _ _ _ E1) as (client & l1 & Hc & L1 & H1 & Hpin & Hother).
    destruct (IH s1 E Hnd) as (l2 & L2 & H2 & Hrest). exists (l1 ++ l2)%list. split_and!.
    + by rewrite L2, L1, app_assoc.
    + rewrite app_nil, H1, H2, list.Forall_cons. f_equiv.
      * split; [intros Hm; by exists client|]. intros (client' & Hc' & Hm). congruence.
      * rewrite !list.Forall_forall. apply forall_proper. intros x. apply impl_iff. intros Hx. rewrite Hother; [done|].
        intros E'. apply Hnew. rewrite <- E'. by apply list_elem_of_fmap_2.
    + intros [-> ->]%app_nil. destruct (Hpin eq_refl) as [C1 I1]. destruct (Hrest eq_refl) as [I2 C2]. split; [congruence|].
      intros eid. rewrite C2, fmap_cons. destruct (decide (eid = ch_EID c)) as [->|Hne].
      * rewrite decide_False by done. rewrite decide_True by (by left). by rewrite C1, lookup_insert_eq, Hc.
      * rewrite Hother by done. destruct (decide (eid ∈ (ch_EID <$> l))) as [Hin|Hin];
          [rewrite decide_True by (by right)|rewrite decide_False by set_solver]; done.
Qed.

Lemma All_spec registry : registry_keyed registry -> NoDup (ch_EID <$> All registry) /\
  forall eid, (list_to_map ((fun c => (ch_EID c, quorumClient c)) <$> All registry) : gmap Z ChainClient) !! eid =
              quorumClient <$> rg_byEID registry !! eid.
Proof.
  intros Hk. assert (forall eid c, rg_byEID registry !! eid = Some c -> ch_EID c = eid) as Hkey.
  { intros eid c E. apply Hk. unfold Get. by rewrite E. }
  assert ((fun c => (ch_EID c, quorumClient c)) <$> All registry = map_to_list (quorumClient <$> rg_byEID registry)) as E.
  { unfold All. rewrite map_to_list_fmap, <- list_fmap_compose. apply list_fmap_ext. intros i [eid c] Hi.
    apply list_elem_of_lookup_2, elem_of_map_to_list in Hi. cbn. by rewrite (Hkey _ _ Hi). }
  split.
  - assert (ch_EID <$> All registry = ((fun c => (ch_EID c, quorumClient c)) <$> All registry).*1) as ->
      by (by rewrite <- list_fmap_compose).
    rewrite E. apply NoDup_fst_map_to_list.
  - intros eid. by rewrite E, list_to_map_to_list, lookup_fmap.
Qed.

(** The pinned client of a chain of the registry. *)
Definition reader_of (c : Chain) : ChainClient := head_pinned (quorumClient c).

(** Everything read of a chain and of a pathway matches the configuration. *)
Definition registry_matches (registry : Registry) (pricingSigner : Address) : Prop :=
  (forall c, c ∈ All registry -> chain_matches (quorumClient c) c) /\
  (forall p, p ∈ Pathways registry -> exists srcChain dstChain,
     Get registry (pw_SrcEID p) = Ok srcChain /\ Get registry (pw_DstEID p) = Ok dstChain /\
     pathway_agrees pricingSigner (reader_of srcChain) (reader_of dstChain) srcChain dstChain p).

(** C9: a completed start-up check passes exactly when the chains agree with the configuration: every chain has the configured
    chain id, endpoint id and endpoint code, and on every pathway the OApps, peers, libraries, executor and ULN settings
    (required DVNs as a set, no optional ones, send confirmations not below receive confirmations), worker contracts, fee
    models, price submitter and verifier authorisations are the configured ones, all read at the chain's one checked head.
    The workers' message size and gas limits are compared in their low 64 bits only: a limit a multiple of 2^64 above the
    configured one passes. *)
Theorem Check_ok_iff registry pricingSigner report : registry_keyed registry -> Check registry pricingSigner = Ok report ->
  cr_OK report = true <-> registry_matches registry pricingSigner.
Proof.
  intros Hk. destruct (All_spec registry Hk) as [Hnd Hcl]. unfold Check, CheckWithClients, runCheck.
  unfold mbind, checkM_bind. set (s0 := mkChecker _ _ _).
  destruct (forEach checkConfigured _ s0) as [[s1 []]|] eqn:E1; [|done].
  destruct (forEach _ (Pathways registry) s1) as [[s2 []]|] eqn:E2; [|done]. intros [= <-]. cbn [cr_OK].
  rewrite bool_decide_eq_true. destruct (chains_spec _ _ _ E1 Hnd) as (l1 & L1 & H1 & Hpin). cbn [ck_issues s0 app] in L1.
  assert (Forall (fun c => exists client, ck_clients s0 !! ch_EID c = Some client /\ chain_matches client c) (All registry) <->
    forall c, c ∈ All registry -> chain_matches (quorumClient c) c) as Hch.
  { rewrite list.Forall_forall. apply forall_proper. intros c. apply impl_iff. intros Hc. cbn [ck_clients s0]. rewrite Hcl.
    unfold All in Hc. apply list_elem_of_fmap in Hc as ([eid c'] & -> & Hc%elem_of_map_to_list). cbn.
    assert (ch_EID c' = eid) as -> by (apply Hk; unfold Get; by rewrite Hc). rewrite Hc. cbn. naive_solver. }
  unfold registry_matches. rewrite <- Hch, <- H1. destruct (decide (l1 = [])) as [->|Hne].
  - destruct (Hpin eq_refl) as [I1 C1]. destruct (pathways_spec _ _ _ _ _ E2 I1) as (l2 & L2 & H2).
    rewrite L2, L1. cbn [app]. rewrite H2, list.Forall_forall. unfold pathway_passes.
    assert (forall eid c, Get registry eid = Ok c -> ck_clients s1 !! eid = Some (reader_of c)) as Hreader.
    { intros eid c Hg. pose proof (Hk _ _ Hg) as He. rewrite C1. cbn [ck_clients s0]. rewrite Hcl. unfold Get in Hg.
      destruct (rg_byEID registry !! eid) as [c'|] eqn:Ec; [|done]. injection Hg as ->. rewrite decide_True; [done|].
      unfold All. rewrite <- list_fmap_compose. apply list_elem_of_fmap. exists (eid, c). split; [by cbn|]. by apply elem_of_map_to_list. }
    split.
    + intros Hp. split; [done|]. intros p Hin. destruct (Hp p Hin) as (sc & dc & src & dst & Hs & Hd & Cs & Cd & Hm).
      exists sc, dc. rewrite (Hreader _ _ Hs) in Cs. rewrite (Hreader _ _ Hd) in Cd. by simplify_eq.
    + intros [_ Hp] p Hin. destruct (Hp p Hin) as (sc & dc & Hs & Hd & Hm).
      exists sc, dc, (reader_of sc), (reader_of dc). by rewrite (Hreader _ _ Hs), (Hreader _ _ Hd).
  - destruct (forEach_grows _ _ (checkUnlessInvalid_grows registry pricingSigner) _ _ E2) as [l2 L2]. rewrite L2, L1.
    split; [intros [-> _]%app_nil; done|]. by intros [-> _].
Qed.
End matches.

(** ** A concrete check

    Two chains whose contracts answer what [sample_registry] configures. *)

Definition sample_answers (eid : Z) (method : string) : list abivalue :=
  let source := bool_decide (eid = 101) in
  if decide (method = "eid") then [VUint32 eid] else
  if decide (method = "endpoint") then [VAddress (eid * 1000)] else
  if decide (method = "peers") then [VBytes32 (addressHash (if source then 22 else 11))] else
  if decide (method = "getSendLibrary") then [VAddress 31] else
  if decide (method = "getReceiveLibrary") then [VAddress 32; VBool false] else
  if decide (method = "getConfig") then [VBytes (be_split 4 eid)] else
  if decide (method = "executorConfig") then [VExecutorTuple (mkExecutorConfig 10000 41)] else
  if decide (method = "ulnConfig") then [VUlnTuple (mkUln 5 1 255 0 [if source then 42 else 52] [])] else
  if decide (method = "priceFeed") then [VAddress 43] else
  if decide (method = "pathwayConfig") then [VBool true; VBig (Some 10000); VBig (Some 1); VBig (Some 1000000)] else
  if decide (method = "feeModel") then
    [VBig (Some 1000); VUint64 (DstGasOverhead sample_fee_model); VUint64 (default 0 (DataSizeOverheadBytes sample_fee_model));
     VUint16 (MarginBps sample_fee_model)] else
  [VBool true].

#[local] Instance sample_check_world : CheckWorld := {|
  cw_text := sample_hex;
  AddressOfHex := fun _ => 62;
  HashText := fun _ => "";
  abi_Pack := fun _ _ _ => Ok [];
  abi_Unpack := fun _ method data => Ok (sample_answers (be_combine data) method);
  rpc_ValidateChainID := fun _ _ => None;
  rpc_CheckHead := fun _ => Ok (Some 100, 7);
  rpc_ChainID := fun eid => Ok (Some (eid * 10));
  rpc_CodeAt := fun _ _ _ => Ok [Byte.x60];
  rpc_CallContract := fun eid _ _ _ => Ok (be_split 4 eid) |}.

Lemma Check_ok_iff_witness : exists report, Check sample_registry 61 = Ok report /\ cr_OK report = true /\
  registry_matches sample_registry 61.
Proof.
  destruct (Check sample_registry 61) as [report|] eqn:E; [|vm_compute in E; discriminate E]. exists report.
  assert (cr_OK report = true) as Hok.
  { assert ((cr_OK <$> Check sample_registry 61) = Ok true) as Hv by (vm_compute; reflexivity). rewrite E in Hv. by injection Hv. }
  split_and!; [reflexivity|exact Hok|]. apply (Check_ok_iff sample_registry 61 report (NewRegistry_keyed _ _) E). exact Hok.
Defined.
