(* ===== verification/Der.v ===== *)
(** * DER elements (encoding/asn1, as the KMS signer uses it)

    The part of Go's encoding/asn1 behind [asn1.Unmarshal] and [asn1.Marshal] of an ECDSA
    signature and of a SubjectPublicKeyInfo: tags and lengths in their minimal form, INTEGER,
    BIT STRING and raw elements. The parser works on what is left of the input where Go keeps
    an offset. As in Go, a SEQUENCE may have elements after the ones that were asked for. *)

From S2P Require Import Prelude.
From stdpp Require Import base list strings numbers.
From Stdlib Require Import ZArith Lia Strings.Byte.
#[local] Open Scope Z_scope.

(** ** Big integers as bytes (math/big) *)

(** Bytes of a big.Int: the absolute value, big-endian, without leading zeros. *)
Definition big_Bytes (z : Z) : bytes :=
  if decide (z = 0) then [] else be_split (Z.to_nat (Z.log2 (Z.abs z) / 8 + 1)) (Z.abs z).

(** ** Tags and lengths *)

Record tagAndLength := mkTag { tl_class : Z; tl_tag : Z; tl_length : Z; tl_isCompound : bool }.

Definition syntaxError {A} (msg : string) : result string A := Err ("asn1: syntax error: " +:+ msg).
Definition structuralError {A} (msg : string) : result string A := Err ("asn1: structure error: " +:+ msg).

Fixpoint parseBase128Int (shifted : nat) (ret : Z) (b : bytes) : result string (Z * bytes) :=
  match b with
  | [] => syntaxError "truncated base 128 integer"
  | x :: rest =>
    if decide (shifted = 5%nat) then structuralError "base 128 integer too large" else
    if decide (shifted = 0%nat /\ byte_val x = 128) then syntaxError "integer is not minimally encoded" else
    let ret := ret * 128 + byte_val x mod 128 in
    if decide (byte_val x < 128)
    then if decide (ret > 2 ^ 31 - 1) then structuralError "base 128 integer too large" else Ok (ret, rest)
    else parseBase128Int (S shifted) ret rest
  end.

Fixpoint parseLengthBytes (n : nat) (len : Z) (b : bytes) : result string (Z * bytes) :=
  match n with
  | O => Ok (len, b)
  | S n =>
    match b with
    | [] => syntaxError "truncated tag or length"
    | x :: rest =>
      if decide (2 ^ 23 <= len) then structuralError "length too large" else
      let len := len * 256 + byte_val x in
      if decide (len = 0) then structuralError "superfluous leading zeros in length" else
      parseLengthBytes n len rest
    end
  end.

Definition parseLength (b : bytes) : result string (Z * bytes) :=
  match b with
  | [] => syntaxError "truncated tag or length"
  | x :: rest =>
    if decide (byte_val x < 128) then Ok (byte_val x, rest) else
    if decide (byte_val x = 128) then syntaxError "indefinite length found (not DER)" else
    '(len, rest) ← parseLengthBytes (Z.to_nat (byte_val x - 128)) 0 rest;
    check 128 <= len or "asn1: structure error: non-minimal length"%string ;;
    Ok (len, rest)
  end.

Definition parseTagAndLength (b : bytes) : result string (tagAndLength * bytes) :=
  match b with
  | [] => Err "asn1: internal error in parseTagAndLength"%string
  | x :: rest =>
    let class := byte_val x / 64 in
    let compound := bool_decide ((byte_val x / 32) mod 2 = 1) in
    let tag := byte_val x mod 32 in
    '(tag, rest) ← (if decide (tag = 31) then
                      '(tag, rest) ← parseBase128Int 0 0 rest;
                      check 31 <= tag or "asn1: syntax error: non-minimal tag"%string ;;
                      Ok (tag, rest)
                    else Ok (tag, rest));
    '(len, rest) ← parseLength rest;
    Ok (mkTag class tag len compound, rest)
  end.

(** ** Elements *)

(** The universal tag and form a field asks for; [None] is a RawValue, which takes any. *)
Definition TagInteger : Z := 2.
Definition TagBitString : Z := 3.
Definition TagSequence : Z := 16.

Definition tag_matches (expected : option (Z * bool)) (t : tagAndLength) : bool :=
  match expected with
  | Some (tag, compound) => bool_decide (tl_class t = 0 /\ tl_tag t = tag /\ tl_isCompound t = compound)
  | None => true
  end.

(** The contents of the next element and what follows it. *)
Definition parseElement (expected : option (Z * bool)) (b : bytes) : result string (bytes * bytes) :=
  check b <> [] or "asn1: syntax error: sequence truncated"%string ;;
  '(t, rest) ← parseTagAndLength b;
  check tag_matches expected t or "asn1: structure error: tags don't match"%string ;;
  check tl_length t <= Z.of_nat (length rest) or "asn1: syntax error: data truncated"%string ;;
  Ok (take (Z.to_nat (tl_length t)) rest, drop (Z.to_nat (tl_length t)) rest).

Definition checkInteger (b : bytes) : result string unit :=
  match b with
  | [] => structuralError "empty integer"
  | [_] => Ok tt
  | x :: y :: _ =>
    check ~ ((byte_val x = 0 /\ byte_val y < 128) \/ (byte_val x = 255 /\ 128 <= byte_val y))
      or "asn1: structure error: integer not minimally-encoded"%string ;;
    Ok tt
  end.

(** Two's complement: a set high bit is a negative number. *)
Definition parseBigInt (b : bytes) : result string Z :=
  _ ← checkInteger b;
  Ok (match b with
      | x :: _ =>
        if decide (128 <= byte_val x)
        then - ((256 ^ Z.of_nat (length b) - 1 - be_combine b) + 1)
        else be_combine b
      | [] => 0
      end).

(** The bytes of a BIT STRING after its count of padding bits. *)
Definition parseBitString (b : bytes) : result string bytes :=
  match b with
  | [] => syntaxError "zero length BIT STRING"
  | x :: bits =>
    check ~ (7 < byte_val x \/ (bits = [] /\ 0 < byte_val x) \/
             byte_val (List.last b x00) mod 2 ^ byte_val x <> 0)
      or "asn1: syntax error: invalid padding bits in BIT STRING"%string ;;
    Ok bits
  end.

(** ** Writing *)

(** One INTEGER's contents: a zero or ff byte is prepended when the high bit says otherwise. *)
Definition makeBigInt (z : Z) : bytes :=
  if decide (z < 0) then
    let inverted := (fun x => byte_of_Z (255 - byte_val x)) <$> big_Bytes (- z - 1) in
    match inverted with
    | x :: _ => if decide (byte_val x < 128) then xff :: inverted else inverted
    | [] => [xff]
    end
  else if decide (z = 0) then [x00]
  else match big_Bytes z with
       | x :: _ => if decide (128 <= byte_val x) then x00 :: big_Bytes z else big_Bytes z
       | [] => []
       end.

Definition appendLength (n : Z) : bytes :=
  if decide (128 <= n)
  then byte_of_Z (128 + Z.of_nat (length (big_Bytes n))) :: big_Bytes n
  else [byte_of_Z n].

Definition marshalElement (tag : Z) (compound : bool) (body : bytes) : bytes :=
  byte_of_Z (tag + if compound then 32 else 0) :: appendLength (Z.of_nat (length body)) ++ body.

(** ** Lemmas *)

Lemma be_split_cons n z : be_split (S n) z = byte_of_Z (z / 256 ^ Z.of_nat n) :: be_split n z.
Proof.
  revert z. induction n as [|n IH]; intros z; [by cbn; rewrite Z.div_1_r|].
  change (be_split (S (S n)) z) with (be_split (S n) (z / 256) ++ [byte_of_Z z]).
  rewrite IH, Z.div_div by lia. cbn [app be_split]. do 2 f_equal.
  rewrite Nat2Z.inj_succ, Z.pow_succ_r by lia. done.
Qed.

(** The bytes of a positive number: a first byte that is not zero, at the magnitude of [z]. *)
Lemma big_Bytes_pos z : 0 < z ->
  exists k, 256 ^ Z.of_nat k <= z < 256 ^ Z.of_nat (S k) /\ big_Bytes z = be_split (S k) z.
Proof.
  intros Hz. exists (Z.to_nat (Z.log2 z / 8)). unfold big_Bytes.
  rewrite decide_False, Z.abs_eq by lia.
  pose proof (Z.log2_nonneg z). pose proof (Z.div_pos (Z.log2 z) 8 ltac:(done) ltac:(lia)).
  rewrite Z.add_1_r, Z2Nat.inj_succ by done. split; [|done].
  rewrite Nat2Z.inj_succ, Z2Nat.id by done. change 256 with (2 ^ 8). rewrite <- !Z.pow_mul_r by lia.
  pose proof (Z.log2_spec z Hz) as [Hl Hu]. pose proof (Z.div_mod (Z.log2 z) 8 ltac:(lia)) as Hd.
  pose proof (Z.mod_pos_bound (Z.log2 z) 8 ltac:(lia)).
  split.
  - etrans; [|exact Hl]. apply Z.pow_le_mono_r; lia.
  - eapply Z.lt_le_trans; [exact Hu|]. apply Z.pow_le_mono_r; lia.
Qed.

Lemma length_big_Bytes z n : 0 < z < 256 ^ Z.of_nat n -> (0 < length (big_Bytes z) <= n)%nat.
Proof.
  intros [Hz Hn]. destruct (big_Bytes_pos z Hz) as (k & [Hk _] & ->). rewrite length_be_split.
  assert (Z.of_nat k < Z.of_nat n); [|lia].
  apply (Z.pow_lt_mono_r_iff 256); lia.
Qed.

Lemma be_combine_cons_zero l : be_combine (x00 :: l) = be_combine l.
Proof. done. Qed.

(** What [makeBigInt] writes for a positive number reads back. *)
Lemma parseBigInt_makeBigInt z : 0 < z -> parseBigInt (makeBigInt z) = Ok z.
Proof.
  intros Hz. unfold makeBigInt. rewrite !decide_False by lia.
  destruct (big_Bytes_pos z Hz) as (k & Hk & ->). pose proof (be_combine_split_small (S k) z (conj (Z.lt_le_incl _ _ Hz) (proj2 Hk))) as Hc.
  rewrite be_split_cons in *. set (x := byte_of_Z _) in *.
  assert (0 < byte_val x) as Hx.
  { unfold x. rewrite byte_val_of_Z, Z.mod_small; [apply Z.div_str_pos; lia|].
    split; [apply Z.div_pos; lia|]. apply Z.div_lt_upper_bound; [lia|].
    rewrite Nat2Z.inj_succ, Z.pow_succ_r in Hk by lia. lia. }
  destruct (decide (128 <= byte_val x)) as [Hh|Hh]; unfold parseBigInt.
  - assert (checkInteger (x00 :: x :: be_split k z) = Ok tt) as ->.
    { unfold checkInteger. change (byte_val x00) with 0. rewrite decide_True; [done|lia]. }
    cbn [mbind result_bind]. by rewrite decide_False, be_combine_cons_zero, Hc by (change (byte_val x00) with 0; lia).
  - assert (checkInteger (x :: be_split k z) = Ok tt) as ->.
    { unfold checkInteger. destruct (be_split k z); [done|]. rewrite decide_True; [done|lia]. }
    cbn [mbind result_bind]. rewrite decide_False by done. by rewrite Hc.
Qed.

Lemma length_makeBigInt z n : 0 < z < 256 ^ Z.of_nat n -> (0 < length (makeBigInt z) <= S n)%nat.
Proof.
  intros Hz. pose proof (length_big_Bytes z n Hz). unfold makeBigInt. rewrite !decide_False by lia.
  destruct (big_Bytes z) as [|x l]; [simpl in *; lia|]. case_decide; simpl in *; lia.
Qed.

(** A short element reads back, whatever follows it. *)
Lemma parseElement_marshal tag compound body rest :
  0 <= tag < 31 -> (length body < 128)%nat ->
  parseElement (Some (tag, compound)) (marshalElement tag compound body ++ rest) = Ok (body, rest).
Proof.
  intros Ht Hl. unfold marshalElement, appendLength. rewrite decide_False by lia.
  unfold parseElement. cbn [app]. rewrite decide_True by done.
  assert (byte_val (byte_of_Z (tag + (if compound then 32 else 0))) = tag + (if compound then 32 else 0)) as Hv.
  { rewrite byte_val_of_Z, Z.mod_small; [done|destruct compound; lia]. }
  unfold parseTagAndLength. rewrite Hv.
  assert ((tag + (if compound then 32 else 0)) mod 32 = tag) as ->.
  { destruct compound; Z.to_euclidean_division_equations; lia. }
  rewrite decide_False by lia. cbn [mbind result_bind parseLength].
  rewrite (byte_val_of_Z (Z.of_nat _)), (Z.mod_small (Z.of_nat _)) by lia.
  rewrite decide_True by lia.
  cbn [mbind result_bind tl_class tl_tag tl_isCompound tl_length].
  rewrite decide_True; last first.
  { apply bool_decide_pack. split_and!; [apply Z.div_small; destruct compound; lia|done|].
    destruct compound; [apply bool_decide_eq_true|apply bool_decide_eq_false].
    all: Z.to_euclidean_division_equations; lia. }
  rewrite decide_True by (rewrite length_app; lia).
  by rewrite Nat2Z.id, take_app_length, drop_app_length.
Qed.
