(* ===== verification/Signers.v ===== *)
(** * Signer backends (go/internal/signer)

    [Kms]: the AWS KMS signer (signer/kms/kms.go). KMS answers with a DER signature of any
    parity; [recoverEthereumSignature] brings s into the lower half of the group order and
    looks for the recovery id that gives the configured address.
    [Keystore]: the encrypted key file (signer/keystore/keystore.go).

    go-ethereum's curve operations, the transaction signer, the key file's decryption and the
    KMS service are parameters. *)

From S2P Require Import Prelude Registry Der.
From stdpp Require Import base list strings numbers.
From Stdlib Require Import ZArith Lia Ascii Strings.Byte.
#[local] Open Scope Z_scope.

(** go-ethereum's crypto package on public keys. *)
Class EthCrypto := {
  PublicKey : Type;
  UnmarshalPubkey : bytes -> result string PublicKey;
  SigToPub : bytes -> bytes -> result string PublicKey;
  PubkeyToAddress : PublicKey -> Address }.

(** go-ethereum's transactions: LatestSignerForChainID(chainID).Hash(tx) and
    tx.WithSignature(signer, signature). *)
Class EthTransactions := {
  Transaction : Type;
  signingHash : option Z -> Transaction -> Hash;
  withSignature : option Z -> Transaction -> bytes -> result string Transaction }.

Module Kms.

Definition ethereumSignatureLength : nat := 65.
(** The order of secp256k1 and its half. *)
Definition secp256k1N : Z :=
  115792089237316195423570985008687907852837564279074904382605163141518161494337.
Definition secp256k1HalfN : Z := Z.shiftr secp256k1N 1.
Definition KeySpecEccSecgP256k1 : string := "ECC_SECG_P256K1".

(** The KMS API boundary, by what it answers: the DER public key with its key spec, and the DER
    signature of a digest. *)
Record KmsClient := mkClient {
  GetPublicKey : string -> result string (bytes * string);
  SignDigest : string -> Hash -> result string bytes }.

(** [sg_client] is [None] for a nil client. *)
Record KmsSigner := mkSigner { sg_client : option KmsClient; sg_keyID : string; sg_address : Address }.
Definition NewKms (client : option KmsClient) (keyID : string) (address : Address) : KmsSigner :=
  mkSigner client keyID address.
Definition KmsAddress (s : KmsSigner) : Address := sg_address s.
Definition KmsType (s : KmsSigner) : string := "kms".

Definition parseDERSignature (der : bytes) : result string (Z * Z) :=
  '(body, rest) ← parseElement (Some (TagSequence, true)) der;
  '(rBytes, afterR) ← parseElement (Some (TagInteger, false)) body;
  r ← parseBigInt rBytes;
  '(sBytes, _) ← parseElement (Some (TagInteger, false)) afterR;
  s ← parseBigInt sBytes;
  check rest = [] or "kms signature has trailing DER bytes"%string ;;
  check 0 < r /\ 0 < s or "kms signature contains invalid r or s"%string ;;
  check ~ (secp256k1N <= r \/ secp256k1N <= s) or "kms signature r or s exceeds secp256k1 order"%string ;;
  Ok (r, s).

(** asn1.Marshal of an ecdsaSignature *)
Definition marshalSignature (r s : Z) : bytes :=
  marshalElement TagSequence true
    (marshalElement TagInteger false (makeBigInt r) ++ marshalElement TagInteger false (makeBigInt s)).

Definition derFromSignature (r sigS : option Z) : result string bytes :=
  match r, sigS with
  | Some r, Some s => Ok (marshalSignature r s)
  | _, _ => Err "r and s are required"%string
  end.

(** [copy(signature[until-len(b):until], b)]: [None] when the slice bound is negative. *)
Definition copyBefore (signature : bytes) (until : nat) (b : bytes) : option bytes :=
  if decide (length b <= until)%nat
  then Some (take (until - length b) signature ++ b ++ drop until signature)
  else None.

Definition ethereumSignature (r s recoveryID : Z) : option bytes :=
  let signature := replicate ethereumSignatureLength x00 in
  signature ← copyBefore signature 32 (big_Bytes r);
  signature ← copyBefore signature 64 (big_Bytes s);
  Some (<[64%nat := byte_of_Z recoveryID]> signature).

Section signer.
Context `{EthCrypto, EthTransactions, AddressText}.

Definition parseKMSPublicKey (der : bytes) : result string PublicKey :=
  '(body, rest) ← parseElement (Some (TagSequence, true)) der;
  '(_, afterAlgorithm) ← parseElement None body;
  '(bitString, _) ← parseElement (Some (TagBitString, false)) afterAlgorithm;
  key ← parseBitString bitString;
  check rest = [] or "public key has trailing DER bytes"%string ;;
  check key <> [] or "public key is empty"%string ;;
  UnmarshalPubkey key.

Definition ValidateKey (s : KmsSigner) : result string unit :=
  match sg_client s with
  | None => Err "kms client is required"%string
  | Some client =>
    '(der, spec) ← GetPublicKey client (sg_keyID s);
    check spec = KeySpecEccSecgP256k1
      or ("kms key " +:+ sg_keyID s +:+ " has key spec " +:+ spec +:+ ", want " +:+ KeySpecEccSecgP256k1)%string ;;
    match parseKMSPublicKey der with
    | Err e => Err ("kms key " +:+ sg_keyID s +:+ " has an invalid public key: " +:+ e)%string
    | Ok publicKey =>
      let derived := PubkeyToAddress publicKey in
      check derived = sg_address s
        or ("kms key " +:+ sg_keyID s +:+ " resolves to address " +:+ AddressHex derived +:+
            ", want " +:+ AddressHex (sg_address s))%string ;;
      Ok tt
    end
  end.

(** The body of the loop over the recovery ids. *)
Fixpoint tryRecover (digest : Hash) (r s : Z) (expected : Address) (recoveryIDs : list Z) : result string bytes :=
  match recoveryIDs with
  | [] => Err ("kms signature did not recover expected address " +:+ AddressHex expected)%string
  | recoveryID :: recoveryIDs =>
    match ethereumSignature r s recoveryID with
    | None => Err "runtime error: slice bounds out of range"%string
    | Some signature =>
      match SigToPub (HashBytes digest) signature with
      | Err _ => tryRecover digest r s expected recoveryIDs
      | Ok pub => if decide (PubkeyToAddress pub = expected) then Ok signature
                  else tryRecover digest r s expected recoveryIDs
      end
    end
  end.

Definition recoverEthereumSignature (digest : Hash) (r sigS : Z) (expected : Address) : result string bytes :=
  let normalizedS := if decide (secp256k1HalfN < sigS) then secp256k1N - sigS else sigS in
  tryRecover digest r normalizedS expected [0; 1].

Definition KmsSignHash (s : KmsSigner) (digest : Hash) : result string bytes :=
  match sg_client s with
  | None => Err "kms client is required"%string
  | Some client =>
    derSignature ← SignDigest client (sg_keyID s) digest;
    '(r, sigS) ← parseDERSignature derSignature;
    recoverEthereumSignature digest r sigS (sg_address s)
  end.

Definition KmsSignTx (s : KmsSigner) (tx : Transaction) (chainID : option Z) : result string Transaction :=
  signature ← KmsSignHash s (signingHash chainID tx);
  withSignature chainID tx signature.

(** ** The signature that is returned *)

(** r and s as 32-byte words, then the recovery id. *)
Definition signature_bytes (r s recoveryID : Z) : bytes :=
  be_split 32 r ++ be_split 32 s ++ [byte_of_Z recoveryID].

(** The representative of s and -s in the lower half. *)
Definition low_s (s : Z) : Z := s `min` (secp256k1N - s).

Definition recovers (digest : Hash) (signature : bytes) (a : Address) : Prop :=
  exists pub, SigToPub (HashBytes digest) signature = Ok pub /\ PubkeyToAddress pub = a.

Lemma be_combine_zeros k l : be_combine (replicate k x00 ++ l) = be_combine l.
Proof. induction k as [|k IH]; [done|]. exact IH. Qed.

(** A padded number is its fixed-width word. *)
Lemma padded_word z n : 0 < z < 256 ^ Z.of_nat n ->
  replicate (n - length (big_Bytes z)) x00 ++ big_Bytes z = be_split n z.
Proof.
  intros Hz. pose proof (length_big_Bytes z n Hz) as Hl.
  set (l := _ ++ _). assert (length l = n) as Hn.
  { unfold l. rewrite length_app, length_replicate. lia. }
  rewrite <- (be_split_combine l), Hn. f_equal. unfold l. rewrite be_combine_zeros.
  destruct (big_Bytes_pos z (proj1 Hz)) as (k & Hk & ->). apply be_combine_split_small. split; [lia|apply Hk].
Qed.

Lemma ethereumSignature_exact r s v :
  0 < r < 2 ^ 256 -> 0 < s < 2 ^ 256 -> ethereumSignature r s v = Some (signature_bytes r s v).
Proof.
  intros Hr Hs. unfold ethereumSignature, copyBefore.
  pose proof (length_big_Bytes r 32 Hr). pose proof (length_big_Bytes s 32 Hs).
  rewrite decide_True by lia. cbn [mbind option_bind]. rewrite decide_True by lia. cbn [mbind option_bind].
  rewrite take_replicate, drop_replicate, Nat.min_l by (unfold ethereumSignatureLength; lia).
  rewrite (app_assoc (replicate _ _) (big_Bytes r)), (padded_word r 32 Hr).
  assert (length (be_split 32 r) = 32%nat) as Hlr by apply length_be_split.
  rewrite take_app_ge, drop_app_ge by lia. rewrite Hlr, take_replicate, drop_replicate.
  replace ((64 - length (big_Bytes s) - 32) `min` (ethereumSignatureLength - 32))%nat
    with (32 - length (big_Bytes s))%nat by (unfold ethereumSignatureLength; lia).
  replace (ethereumSignatureLength - 32 - (64 - 32))%nat with 1%nat by done.
  rewrite <- (app_assoc (be_split 32 r)), (app_assoc (replicate _ _) (big_Bytes s)), (padded_word s 32 Hs).
  done.
Qed.

Lemma parseDERSignature_range der r s :
  parseDERSignature der = Ok (r, s) -> 0 < r < secp256k1N /\ 0 < s < secp256k1N.
Proof.
  unfold parseDERSignature, mbind, result_bind. intros Hp. branches. lia.
Qed.

Lemma normalized_low_s s :
  (if decide (secp256k1HalfN < s) then secp256k1N - s else s) = low_s s.
Proof.
  unfold low_s. assert (2 * secp256k1HalfN + 1 = secp256k1N) by done. case_decide; lia.
Qed.

Lemma low_s_range s : 0 < s < secp256k1N -> 0 < low_s s <= secp256k1HalfN.
Proof. unfold low_s. assert (2 * secp256k1HalfN + 1 = secp256k1N) by done. lia. Qed.

Lemma tryRecover_spec digest r s a sig :
  0 < r < 2 ^ 256 -> 0 < s < 2 ^ 256 ->
  tryRecover digest r s a [0; 1] = Ok sig <->
    (sig = signature_bytes r s 0 /\ recovers digest sig a) \/
    (sig = signature_bytes r s 1 /\ recovers digest sig a /\ ~ recovers digest (signature_bytes r s 0) a).
Proof.
  intros Hr Hs. cbn [tryRecover]. rewrite !ethereumSignature_exact by done. unfold recovers.
  destruct (SigToPub _ (signature_bytes r s 0)) as [p0|e0] eqn:E0;
    destruct (SigToPub _ (signature_bytes r s 1)) as [p1|e1] eqn:E1; repeat case_decide;
    split; intros Hx; simplify_eq; naive_solver congruence.
Qed.

(** The signature KMS's answer stands for: the words of r and of the low s, and the first
    recovery id that gives the configured address. *)
Definition kms_signature (s : KmsSigner) (digest : Hash) (sig : bytes) : Prop :=
  exists client der r sigS v,
    sg_client s = Some client /\ SignDigest client (sg_keyID s) digest = Ok der /\
    parseDERSignature der = Ok (r, sigS) /\ 0 < r < secp256k1N /\ 0 < low_s sigS <= secp256k1HalfN /\
    sig = signature_bytes r (low_s sigS) v /\ (v = 0 \/ v = 1) /\ recovers digest sig (sg_address s) /\
    (v = 1 -> ~ recovers digest (signature_bytes r (low_s sigS) 0) (sg_address s)).

(** C13: [KmsSignHash] returns a signature exactly when KMS's DER answer is a canonical signature of
    the digest by the configured address: it is then the 65 bytes r, s, v with r in the group,
    s in its lower half (so it is never malleable) and v the first recovery id under which
    go-ethereum recovers the signer's address; in every other case it returns an error. *)
Theorem KmsSignHash_iff s digest sig : KmsSignHash s digest = Ok sig <-> kms_signature s digest sig.
Proof.
  unfold KmsSignHash, kms_signature, mbind, result_bind.
  destruct (sg_client s) as [client|]; [|split; [done|by intros (? & ? & ? & ? & ? & ? & ?)]].
  destruct (SignDigest client _ _) as [der|e] eqn:Ed; [|split; [done|intros (? & ? & ? & ? & ? & ? & ? & _)]; congruence].
  destruct (parseDERSignature der) as [[r sigS]|e] eqn:Ep;
    [|split; [done|intros (? & ? & ? & ? & ? & ? & ? & ? & _)]; congruence].
  destruct (parseDERSignature_range _ _ _ Ep) as [Hr Hs]. pose proof (low_s_range sigS Hs) as Hl.
  unfold recoverEthereumSignature. rewrite normalized_low_s.
  assert (secp256k1N < 2 ^ 256) by done. assert (secp256k1HalfN < 2 ^ 256) by done.
  rewrite tryRecover_spec by lia. split.
  - intros [[-> Hrec]|(-> & Hrec & Hn)]; do 5 eexists; (split_and!; try done); auto; naive_solver lia.
  - intros (? & der0 & r0 & sigS0 & v & [= <-] & Hd & Hp & _ & _ & -> & Hv & Hrec & Hn).
    assert ((r, sigS) = (r0, sigS0)) as [= -> ->] by congruence. destruct Hv as [-> | ->]; [left|right]; auto.
Qed.

(** A signature that is written as DER reads back. *)
Lemma parse_derFromSignature r s der :
  0 < r < secp256k1N -> 0 < s < secp256k1N ->
  derFromSignature (Some r) (Some s) = Ok der -> parseDERSignature der = Ok (r, s).
Proof.
  intros Hr Hs Hd. assert (der = marshalSignature r s) as -> by (unfold derFromSignature in Hd; congruence).
  assert (secp256k1N < 256 ^ Z.of_nat 32) by done.
  pose proof (length_makeBigInt r 32 ltac:(lia)) as Hlr. pose proof (length_makeBigInt s 32 ltac:(lia)) as Hls.
  assert (forall z, 0 < z < secp256k1N -> (length (makeBigInt z) < 128)%nat ->
    length (marshalElement TagInteger false (makeBigInt z)) = (2 + length (makeBigInt z))%nat) as Hlen.
  { intros z Hz Hl. unfold marshalElement, appendLength. rewrite decide_False by lia. done. }
  unfold parseDERSignature.
  set (body := marshalElement TagInteger false (makeBigInt r) ++ marshalElement TagInteger false (makeBigInt s)).
  unfold marshalSignature. fold body. rewrite <- (app_nil_r (marshalElement TagSequence true body)).
  rewrite parseElement_marshal by (unfold body, TagSequence; rewrite ?length_app, ?Hlen by lia; lia).
  cbn [mbind result_bind]. unfold body.
  rewrite parseElement_marshal by (unfold TagInteger; lia). cbn [mbind result_bind].
  rewrite parseBigInt_makeBigInt by lia. cbn [mbind result_bind].
  rewrite <- (app_nil_r (marshalElement TagInteger false (makeBigInt s))).
  rewrite parseElement_marshal by (unfold TagInteger; lia). cbn [mbind result_bind].
  rewrite parseBigInt_makeBigInt by lia. cbn [mbind result_bind].
  rewrite !decide_True by (done || lia). done.
Qed.

(** [ValidateKey] accepts exactly a secp256k1 key whose public key is the configured address. *)
Lemma ValidateKey_iff s : ValidateKey s = Ok tt <->
  exists client der pub, sg_client s = Some client /\
    GetPublicKey client (sg_keyID s) = Ok (der, KeySpecEccSecgP256k1) /\
    parseKMSPublicKey der = Ok pub /\ PubkeyToAddress pub = sg_address s.
Proof.
  unfold ValidateKey, mbind, result_bind. split.
  - intros Hv. destruct (sg_client s) as [client|]; [|done].
    destruct (GetPublicKey _ _) as [[der spec]|] eqn:E; [|done]. case_decide as Hs; [|done]. subst spec.
    destruct (parseKMSPublicKey der) as [pub|] eqn:Ek; [|done]. case_decide; [|done]. by exists client, der, pub.
  - intros (client & der & pub & -> & -> & -> & Ha). by rewrite !decide_True.
Qed.
End signer.

(** A high s is replaced and the second recovery id is found. The stand-in curve reads the
    public key off the signature's last three bytes. *)
Section example.
#[local] Instance sample_crypto : EthCrypto := {|
  PublicKey := Z; UnmarshalPubkey b := Ok (be_combine b);
  SigToPub _ sig := Ok (be_combine (drop 62 sig)); PubkeyToAddress k := k |}.
#[local] Instance sample_text : AddressText := fun _ => "address"%string.

Definition sample_kms : KmsSigner :=
  mkSigner (Some (mkClient (fun _ => Err ""%string) (fun _ _ => derFromSignature (Some 5) (Some (secp256k1N - 3)))))
    "key" (3 * 256 + 1).

Lemma KmsSignHash_iff_witness :
  KmsSignHash sample_kms 7 = Ok (signature_bytes 5 3 1) /\ kms_signature sample_kms 7 (signature_bytes 5 3 1).
Proof. split; [|apply KmsSignHash_iff]; vm_compute; reflexivity. Defined.
End example.
End Kms.

Module Keystore.

Record PasswordSource := mkSource { ps_Value : string; ps_Env : string; ps_File : string }.

(** strings.TrimRight(s, carriage return and line feed) *)
Definition is_newline (c : ascii) : bool := bool_decide (N_of_ascii c = 13 \/ N_of_ascii c = 10)%N.
Fixpoint trimNewlines (s : string) : string :=
  match s with
  | EmptyString => EmptyString
  | String c s' =>
    match trimNewlines s' with
    | EmptyString => if is_newline c then EmptyString else String c EmptyString
    | t => String c t
    end
  end.

Section keystore.
(** The process environment ("" when unset), the file system, and go-ethereum's key files. *)
Context (Getenv : string -> string) (ReadFile : string -> result string string)
  (Key : Type) (DecryptKey : string -> string -> result string Key) (KeyAddress : Key -> Address)
  (cryptoSign : Hash -> Key -> result string bytes).
Context {Transaction : Type} (typesSignTx : Transaction -> option Z -> Key -> result string Transaction).

Record KeystoreSigner := mkSigner { sg_key : Key; sg_address : Address }.

Definition ResolvePassword (source : PasswordSource) : result string string :=
  if decide (ps_Value source <> ""%string) then Ok (ps_Value source) else
  if decide (ps_Env source <> ""%string) then
    let password := Getenv (ps_Env source) in
    check password <> ""%string or "keystore password environment variable is empty"%string ;;
    Ok password
  else if decide (ps_File source <> ""%string) then
    match ReadFile (ps_File source) with
    | Err _ => Err "read keystore password file failed"%string
    | Ok raw =>
      let password := trimNewlines raw in
      check password <> ""%string or "keystore password file is empty"%string ;;
      Ok password
    end
  else Err "keystore password source is required"%string.

Definition Load (path password : string) : result string KeystoreSigner :=
  raw ← ReadFile path;
  key ← DecryptKey raw password;
  Ok (mkSigner key (KeyAddress key)).

Definition LoadWithPasswordSource (path : string) (source : PasswordSource) : result string KeystoreSigner :=
  password ← ResolvePassword source;
  Load path password.

Definition KeystoreSignHash (s : KeystoreSigner) (digest : Hash) : result string bytes := cryptoSign digest (sg_key s).
Definition KeystoreSignTx (s : KeystoreSigner) (tx : Transaction) (chainID : option Z) : result string Transaction :=
  typesSignTx tx chainID (sg_key s).
Definition KeystoreAddress (s : KeystoreSigner) : Address := sg_address s.
Definition KeystoreType (s : KeystoreSigner) : string := "keystore".

Lemma ResolvePassword_nonempty source p : ResolvePassword source = Ok p -> p <> ""%string.
Proof. unfold ResolvePassword. intros Hp. by branches. Qed.

(** A loaded signer answers for the address of the key it signs with, and its key was opened
    with a password that is not empty. *)
Lemma LoadWithPasswordSource_spec path source s : LoadWithPasswordSource path source = Ok s ->
  exists raw p, ReadFile path = Ok raw /\ ResolvePassword source = Ok p /\ p <> ""%string /\
    DecryptKey raw p = Ok (sg_key s) /\ KeystoreAddress s = KeyAddress (sg_key s).
Proof.
  unfold LoadWithPasswordSource, Load, mbind, result_bind. intros Hl. branches.
  eauto 10 using ResolvePassword_nonempty.
Qed.
End keystore.
End Keystore.
