(* ===== verification/Balance.v ===== *)
(** * Signer balance monitor (go/internal/txmgr/balance.go)

    One poll goes over the transaction-signing targets: it probes the head of a quorum client so
    that the exported provider statuses are live, then reads the signer's balance and records
    it, low or not, failed or not. A poll is its actions in order and its result. *)

From S2P Require Import Prelude Registry.
From stdpp Require Import base list strings numbers.
From Stdlib Require Import ZArith Lia.
#[local] Open Scope Z_scope.

Definition defaultBalancePollInterval : Z := 60 * 1000000000.
Definition balanceReadTimeout : Z := 15 * 1000000000.

Section monitor.
Context `{AddressText}.
(** A provider's cached classification, passed on as it is. *)
Context {Provider : Type}.

(** A client: whether it has the quorum client's Providers and CheckHead methods. *)
Record BalanceClient := mkBalanceClient { bc_Providers : bool; bc_CheckHead : bool }.

(** The fields of a Target the monitor uses; [None] is nil. *)
Record BalanceTarget := mkBalanceTarget {
  bt_ChainEID : Z; bt_ChainName : string; bt_Signer : option Address;
  bt_Client : option BalanceClient; bt_MinNativeBalanceWei : option Z }.

(** The recorder of the process, and whether it has RecordRPCProviders; [None] is nil. *)
Record BalanceMonitor := mkMonitor {
  bm_targets : list BalanceTarget; bm_recorder : option bool; bm_pollInterval : Z }.

Definition NewBalanceMonitor (targets : list BalanceTarget) (recorder : option bool) : BalanceMonitor :=
  mkMonitor targets recorder defaultBalancePollInterval.

(** What the calls for one target answer: the head probe's error, the cached providers, the
    balance (nil with no error is possible) and the time the read took. *)
Record balance_answers := mkAnswers {
  an_head : option string; an_providers : list Provider; an_balance : result string (option Z); an_duration : Z }.

Inductive balance_action :=
| CheckHead (eid : Z)
| WarnHeadProbe (eid : Z) (err : string)
| RecordRPCProviders (eid : Z) (name : string) (providers : list Provider)
| BalanceAt (eid : Z) (signer : Address) (timeout : Z)
| RecordSignerBalance (eid : Z) (signerID : string) (balance min : option Z) (duration : Z) (err : option string)
| WarnBalance (eid : Z) (signerID : string) (err : string)
| WarnLowBalance (eid : Z) (signerID : string) (balance min : Z).

(** The provider statuses, for a quorum client and a recorder that takes them. *)
Definition reportProviders (m : BalanceMonitor) (t : BalanceTarget) (client : BalanceClient) (a : balance_answers)
    : list balance_action :=
  match bm_recorder m with
  | Some true =>
    if bc_Providers client then
      (if bc_CheckHead client then
         CheckHead (bt_ChainEID t) ::
         match an_head a with Some e => [WarnHeadProbe (bt_ChainEID t) e] | None => [] end
       else []) ++
      [RecordRPCProviders (bt_ChainEID t) (bt_ChainName t) (an_providers a)]
    else []
  | _ => []
  end.

(** The balance and the error of the read: an absent balance is an error. *)
Definition readBalance (a : balance_answers) : option Z * option string :=
  match an_balance a with
  | Err e => (None, Some e)
  | Ok None => (None, Some "signer balance is required"%string)
  | Ok (Some balance) => (Some balance, None)
  end.

Definition pollTarget (m : BalanceMonitor) (t : BalanceTarget) (signer : Address) (client : BalanceClient)
    (a : balance_answers) : list balance_action :=
  let signerID := AddressHex signer in
  let '(balance, err) := readBalance a in
  reportProviders m t client a ++
  [BalanceAt (bt_ChainEID t) signer balanceReadTimeout] ++
  (if bm_recorder m is Some _
   then [RecordSignerBalance (bt_ChainEID t) signerID balance (bt_MinNativeBalanceWei t) (an_duration a) err] else []) ++
  match err, balance, bt_MinNativeBalanceWei t with
  | Some e, _, _ => [WarnBalance (bt_ChainEID t) signerID e]
  | None, Some balance, Some min =>
    if decide (balance < min) then [WarnLowBalance (bt_ChainEID t) signerID balance min] else []
  | None, _, _ => []
  end.

(** [i] is the position of the target; [world] answers the calls made for it. *)
Fixpoint pollTargets (m : BalanceMonitor) (world : nat -> balance_answers) (i : nat) (targets : list BalanceTarget)
    : list balance_action * option string :=
  match targets with
  | [] => ([], None)
  | t :: targets =>
    match bt_Signer t, bt_Client t with
    | None, _ => ([], Some "balance monitor target signer is required"%string)
    | Some _, None => ([], Some "balance monitor target client is required"%string)
    | Some signer, Some client =>
      let '(rest, err) := pollTargets m world (S i) targets in
      (pollTarget m t signer client (world i) ++ rest, err)
    end
  end.

Definition pollBalancesOnce (m : BalanceMonitor) (world : nat -> balance_answers) : list balance_action * option string :=
  pollTargets m world 0 (bm_targets m).

(** How each wait ended: the timer fired, with the answers of the next poll, or the context was
    canceled. [Run]'s result is [None] while it goes on. *)
Inductive wait := TimerFired (world : nat -> balance_answers) | ContextDone (err : string).

Fixpoint runWaits (m : BalanceMonitor) (waits : list wait) : list balance_action * option string :=
  match waits with
  | [] => ([], None)
  | ContextDone err :: _ => ([], Some err)
  | TimerFired world :: waits =>
    match pollBalancesOnce m world with
    | (acts, Some err) => (acts, Some err)
    | (acts, None) => let '(rest, err) := runWaits m waits in (acts ++ rest, err)
    end
  end.

Definition BalanceRun (m : BalanceMonitor) (first : nat -> balance_answers) (waits : list wait)
    : list balance_action * option string :=
  runWaits m (TimerFired first :: waits).

(** ** What a poll records *)

Definition complete (t : BalanceTarget) : Prop := is_Some (bt_Signer t) /\ is_Some (bt_Client t).

Definition balance_record (x : balance_action) : option (Z * string * option Z * option string) :=
  match x with
  | RecordSignerBalance eid signer balance _ _ err => Some (eid, signer, balance, err)
  | _ => None
  end.

Definition low_warning (x : balance_action) : option (Z * string) :=
  match x with WarnLowBalance eid signer _ _ => Some (eid, signer) | _ => None end.

Definition signer_text (t : BalanceTarget) : string := from_option AddressHex ""%string (bt_Signer t).

(** What is recorded of a target, and whether its balance is low. *)
Definition record_of (t : BalanceTarget) (a : balance_answers) : Z * string * option Z * option string :=
  (bt_ChainEID t, signer_text t, (readBalance a).1, (readBalance a).2).
Definition is_low (t : BalanceTarget) (a : balance_answers) : option (Z * string) :=
  match an_balance a, bt_MinNativeBalanceWei t with
  | Ok (Some balance), Some min => if decide (balance < min) then Some (bt_ChainEID t, signer_text t) else None
  | _, _ => None
  end.

Lemma pollTarget_observed m t signer client a :
  bt_Signer t = Some signer -> is_Some (bm_recorder m) ->
  omap balance_record (pollTarget m t signer client a) = [record_of t a] /\
  omap low_warning (pollTarget m t signer client a) = option_list (is_low t a).
Proof.
  intros Hs [r Hr]. unfold pollTarget, record_of, is_low, readBalance, signer_text, reportProviders.
  rewrite Hs, Hr. destruct (an_balance a) as [[b|]|e], (bt_MinNativeBalanceWei t), r, (bc_Providers client),
    (bc_CheckHead client), (an_head a); repeat case_decide; done.
Qed.

(** A poll over complete targets ends without an error and records every target's balance
    exactly once and in order, whatever the reads answer; it warns of exactly the low ones. *)
Lemma pollBalancesOnce_complete m world : is_Some (bm_recorder m) -> Forall complete (bm_targets m) ->
  (pollBalancesOnce m world).2 = None /\
  omap balance_record (pollBalancesOnce m world).1 = imap (fun i t => record_of t (world i)) (bm_targets m) /\
  omap low_warning (pollBalancesOnce m world).1 = concat (imap (fun i t => option_list (is_low t (world i))) (bm_targets m)).
Proof.
  intros Hr. unfold pollBalancesOnce. generalize (bm_targets m). intros l Hl.
  enough (forall i, (pollTargets m world i l).2 = None /\
    omap balance_record (pollTargets m world i l).1 = imap (fun j t => record_of t (world (i + j)%nat)) l /\
    omap low_warning (pollTargets m world i l).1 = concat (imap (fun j t => option_list (is_low t (world (i + j)%nat))) l))
    as Hi by apply (Hi 0%nat).
  induction Hl as [|t l [[signer Hs] [client Hc]] Hl IH]; intros i; [done|].
  cbn [pollTargets]. rewrite Hs, Hc. specialize (IH (S i)).
  destruct (pollTargets m world (S i) l) as [rest err]. cbn [fst snd] in *. destruct IH as (-> & H1 & H2).
  destruct (pollTarget_observed m t signer client (world i) Hs Hr) as [E1 E2].
  rewrite !omap_app, E1, E2, H1, H2. cbn [imap concat app]. rewrite Nat.add_0_r. split_and!; [done| |].
  - f_equal. apply imap_ext. intros j x _. cbn. by rewrite Nat.add_succ_r.
  - do 2 f_equal. apply imap_ext. intros j x _. cbn. by rewrite Nat.add_succ_r.
Qed.

(** The monitor gives up only when its context ends or a target is incomplete. *)
Lemma BalanceRun_ends m first waits acts err :
  is_Some (bm_recorder m) -> Forall complete (bm_targets m) ->
  BalanceRun m first waits = (acts, Some err) -> ContextDone err ∈ waits.
Proof.
  intros Hr Hc. unfold BalanceRun. cbn [runWaits].
  destruct (pollBalancesOnce m first) as [acts0 e0] eqn:E0.
  destruct (pollBalancesOnce_complete m first Hr Hc) as [He _]. rewrite E0 in He. cbn in He. subst e0.
  destruct (runWaits m waits) as [rest e] eqn:Ew. intros [= _ ->]. revert rest Ew.
  induction waits as [|w waits IH]; intros rest; cbn [runWaits]; [done|].
  destruct w as [world|e]; [|intros [= _ ->]; left].
  destruct (pollBalancesOnce m world) as [a1 e1] eqn:E1.
  destruct (pollBalancesOnce_complete m world Hr Hc) as [He _]. rewrite E1 in He. cbn in He. subst e1.
  destruct (runWaits m waits) as [rest1 e2] eqn:E2. intros [= _ ->]. right. by eapply IH.
Qed.
End monitor.
