(* ===== verification/MarketData.v ===== *)
(** * Market-data clients (go/internal/pricing/marketdata.go)

    The CoinMarketCap and CoinGecko clients: which base URLs are accepted, to which origins a
    request with the API key may be redirected, how a response becomes a price, and which
    errors mean that the configuration is wrong. The standard library's URL, HTTP, JSON,
    rational and time parsers are the interface [MarketRuntime]. *)

From S2P Require Import Prelude GoErr Config PriceMath PriceSelect PriceSources.
From stdpp Require Import base gmap list strings numbers pretty.
From Stdlib Require Import ZArith QArith Lia Ascii.
#[local] Open Scope Z_scope.

Definition defaultCoinMarketCapBaseURL : string := "https://pro-api.coinmarketcap.com".
Definition defaultCoinGeckoBaseURL : string := "https://api.coingecko.com".
Definition defaultCoinGeckoProBaseURL : string := "https://pro-api.coingecko.com".
Definition maxMarketDataResponseBodyBytes : Z := Z.shiftl 1 20.
Definition maxMarketDataRedirects : Z := 10.

(** A parsed URL: [mu_Hostname] and [mu_Port] are its methods' answers. *)
Record MarketURL := mkMarketURL {
  mu_Scheme : string; mu_Opaque : string; mu_Hostname : string; mu_Port : string;
  mu_Path : string; mu_RawQuery : string; mu_Fragment : string; mu_ForceQuery : bool }.
#[export] Instance eta_MarketURL : Eta MarketURL := fun u =>
  mkMarketURL (mu_Scheme u) (mu_Opaque u) (mu_Hostname u) (mu_Port u) (mu_Path u) (mu_RawQuery u) (mu_Fragment u) (mu_ForceQuery u).

(** A GET request and the response to it; the body ends with a read error or with EOF. *)
Record Request := mkRequest { rq_URL : string; rq_Headers : list (string * string) }.
Record Body := mkBody { bd_data : bytes; bd_err : option goerr }.
Record Response := mkResponse { rs_StatusCode : Z; rs_Body : Body }.

(** The payloads. *)
Record cmcQuote := mkCmcQuote { cq_Symbol : string; cq_Price : string; cq_LastUpdated : string }.
Record cmcDatum := mkCmcDatum { cd_ID : Z; cd_Quote : list cmcQuote }.
Record cgEntry := mkCgEntry { ge_USD : string; ge_LastUpdatedAt : Z }.

Class MarketRuntime := {
  market_Parse : string -> result goerr MarketURL;
  market_String : MarketURL -> string;
  (** url.Values.Encode *)
  encodeQuery : list (string * string) -> string;
  (** NewRequestWithContext: the error of a request that cannot be built *)
  requestError : string -> option goerr;
  (** How many bytes the JSON decoder took of its input, and the payload or its error. *)
  decodeCmc : bytes -> option goerr -> Z * result goerr (list cmcDatum);
  decodeCg : bytes -> option goerr -> Z * result goerr (gmap string cgEntry);
  (** (big.Rat).SetString and time.Parse(RFC3339Nano) *)
  ratSetString : string -> option Q;
  parseRFC3339Nano : string -> option Z }.

(** ** Errors *)

Inductive mderr :=
| MDStatus (source : string) (statusCode : Z)
| MDSource (e : srcerr)
| MDConfiguration (cause : mderr).

Definition MDText (msg : string) : mderr := MDSource (SText msg).
Definition MDRequest (source operation : string) (cause : goerr) : mderr := MDSource (SRequest source operation cause).

Definition marketDataErrorText (source : string) (statusCode : Z) : string :=
  source +:+ " price request returned HTTP " +:+ pretty statusCode.

Definition isConfigurationError (e : mderr) : bool :=
  match e with
  | MDStatus _ _ => false
  | MDSource e => isPriceSourceConfigurationError e
  | MDConfiguration _ => true
  end.

(** errors.As to a status error *)
Fixpoint asStatus (e : mderr) : option Z :=
  match e with
  | MDStatus _ code => Some code
  | MDSource _ => None
  | MDConfiguration cause => asStatus cause
  end.

Fixpoint asInconclusiveError (e : mderr) : bool :=
  match e with
  | MDStatus _ _ => false
  | MDSource e => bool_decide (is_Some (asInconclusive e))
  | MDConfiguration cause => asInconclusiveError cause
  end.

(** Bad Request, Unauthorized, Payment Required, Method Not Allowed, Gone, Unprocessable Entity *)
Definition deterministicStatus : list Z := [400; 401; 402; 405; 410; 422].

Definition isDeterministicMarketDataError (err : option mderr) : bool :=
  match err with
  | None => false
  | Some e =>
    isConfigurationError e ||
    match asStatus e with
    | Some code => bool_decide (code ∈ deterministicStatus)
    | None => false
    end
  end.

Definition configurationErrorOf (e : mderr) : mderr := if isConfigurationError e then e else MDConfiguration e.

(** validateSourceConfiguration of both readers, on the error of the price read. *)
Definition validateMarketSource (err : option mderr) : option mderr :=
  match err with
  | None => None
  | Some e => if asInconclusiveError e then Some e
              else if isDeterministicMarketDataError err then Some (configurationErrorOf e) else Some e
  end.

(** ** Origins *)

Definition marketDataOriginPort (u : MarketURL) : string :=
  if decide (mu_Port u <> ""%string) then mu_Port u else
  if decide (ToLower (mu_Scheme u) = "http"%string) then "80"%string else
  if decide (ToLower (mu_Scheme u) = "https"%string) then "443"%string else ""%string.

(** [None] is a nil URL. *)
Definition sameMarketDataOrigin (left right : option MarketURL) : bool :=
  match left, right with
  | Some l, Some r =>
    EqualFold (mu_Scheme l) (mu_Scheme r) && EqualFold (mu_Hostname l) (mu_Hostname r) &&
    bool_decide (marketDataOriginPort l = marketDataOriginPort r)
  | _, _ => false
  end.

(** What a CheckRedirect decides. *)
Inductive redirect := Follow | UseLastResponse | Stop (e : string).

(** The CheckRedirect of marketDataHTTPClient; [original] is the given client's, if any, and
    [via] counts the requests made already. *)
Definition checkRedirect (base : option MarketURL) (original : option (MarketURL -> Z -> redirect))
    (target : MarketURL) (via : Z) : redirect :=
  if negb (sameMarketDataOrigin base (Some target)) then UseLastResponse else
  match original with
  | Some policy => policy target via
  | None => if decide (maxMarketDataRedirects <= via) then Stop "stopped after 10 redirects" else Follow
  end.

Section clients.
Context `{MarketRuntime}.
Context (Getenv : string -> string).
#[local] Open Scope string_scope.
#[local] Open Scope Z_scope.

Definition baseURLError (source : string) : string :=
  source +:+ " base URL must be an absolute HTTPS URL without query or fragment".

Definition normalizeMarketDataBaseURL (source baseURL : string) : result string string :=
  let normalized := TrimRightChar "/"%char baseURL in
  match market_Parse normalized with
  | Err _ => Err (baseURLError source)
  | Ok parsed =>
    check ~ (TrimSpace baseURL <> baseURL \/ mu_Opaque parsed <> "" \/ mu_Hostname parsed = "" \/
             mu_RawQuery parsed <> "" \/ mu_Fragment parsed <> "" \/ mu_ForceQuery parsed = true)
      or baseURLError source ;;
    check ToLower (mu_Scheme parsed) = "https" or baseURLError source ;;
    Ok (market_String (parsed <| mu_Scheme := ToLower (mu_Scheme parsed) |>))
  end.

(** A client; its redirect policy is [checkRedirect] for its base URL. *)
Record MarketClient := mkMarketClient { mc_baseURL : string; mc_apiKey : string }.

Definition marketDataBase (c : MarketClient) : option MarketURL :=
  match market_Parse (mc_baseURL c) with Ok u => Some u | Err _ => None end.

Definition readAPIKey (source apiKeyEnv : string) : result string string :=
  if decide (apiKeyEnv = "") then Ok "" else
  check Getenv apiKeyEnv <> "" or (source +:+ " api key environment variable is empty") ;;
  Ok (Getenv apiKeyEnv).

Definition NewCoinMarketCapClient (baseURL apiKeyEnv : string) : result string MarketClient :=
  let baseURL := if decide (baseURL = "") then defaultCoinMarketCapBaseURL else baseURL in
  normalizedBaseURL ← normalizeMarketDataBaseURL "coinmarketcap" baseURL;
  apiKey ← readAPIKey "coinmarketcap" apiKeyEnv;
  Ok (mkMarketClient normalizedBaseURL apiKey).

Definition NewCoinGeckoClient (baseURL apiKeyEnv : string) : result string MarketClient :=
  let baseURL := if decide (baseURL = "")
                 then if decide (apiKeyEnv = "") then defaultCoinGeckoBaseURL else defaultCoinGeckoProBaseURL
                 else baseURL in
  normalizedBaseURL ← normalizeMarketDataBaseURL "coingecko" baseURL;
  apiKey ← readAPIKey "coingecko" apiKeyEnv;
  Ok (mkMarketClient normalizedBaseURL apiKey).

(** A nil client is refused, then a zero id. *)
Definition coinMarketCapReaderFor (client : option MarketClient) (id : Z) : result string (MarketClient * Z) :=
  match client with
  | None => Err "coinmarketcap client is required"
  | Some client => check id <> 0 or "coinmarketcap id is required" ;; Ok (client, id)
  end.

Definition coinGeckoReaderFor (client : option MarketClient) (coinID : string)
    : result string (MarketClient * string) :=
  match client with
  | None => Err "coingecko client is required"
  | Some client => check coinID <> "" or "coingecko coin id is required" ;; Ok (client, coinID)
  end.

(** ** Requests and bodies *)

Definition buildRequest (c : MarketClient) (source path keyHeader : string) (query : list (string * string))
    : result mderr Request :=
  match market_Parse (mc_baseURL c +:+ path) with
  | Err e => Err (MDRequest source "build" e)
  | Ok endpoint =>
    let url := market_String (endpoint <| mu_RawQuery := encodeQuery query |>) in
    match requestError url with
    | Some e => Err (MDRequest source "build" e)
    | None => Ok (mkRequest url (if decide (mc_apiKey c <> "") then [(keyHeader, mc_apiKey c)] else []))
    end
  end.

(** The LimitedReader of limit + 1 bytes: what the decoder can see. *)
Definition limited_data (body : Body) : bytes :=
  if decide (Z.of_nat (length (bd_data body)) <= maxMarketDataResponseBodyBytes + 1) then bd_data body
  else take (Z.to_nat (maxMarketDataResponseBodyBytes + 1)) (bd_data body).
(** A read error is met only before the limit. *)
Definition limited_err (body : Body) : option goerr :=
  if decide (Z.of_nat (length (bd_data body)) <= maxMarketDataResponseBodyBytes) then bd_err body else None.

Definition exceedsBody (source : string) : mderr :=
  MDText (source +:+ " price response body exceeds " +:+ pretty maxMarketDataResponseBodyBytes +:+ " bytes").

Definition decodeMarketDataJSON {P} (decode : bytes -> option goerr -> Z * result goerr P) (source : string) (body : Body)
    : result mderr P :=
  let '(consumed, decoded) := decode (limited_data body) (limited_err body) in
  match decoded with
  | Err e => if decide (consumed = maxMarketDataResponseBodyBytes + 1) then Err (exceedsBody source)
             else Err (MDSource (SGo e))
  | Ok payload =>
    match limited_err body with
    | Some e => Err (MDSource (SWrap (source +:+ " price response body read failed") (SGo e)))
    | None => check Z.of_nat (length (bd_data body)) <= maxMarketDataResponseBodyBytes or exceedsBody source ;;
              Ok payload
    end
  end.

(** ** Prices *)

Definition positivePrice (source priceText : string) : result mderr Q :=
  match ratSetString priceText with
  | Some price => check 0 < Qnum price or MDText (source +:+ " returned invalid price " +:+ quoted priceText) ;; Ok price
  | None => Err (MDText (source +:+ " returned invalid price " +:+ quoted priceText))
  end.

(** The first quote in USD. *)
Definition usdQuote (quotes : list cmcQuote) : string * string :=
  match filter (fun q => cq_Symbol q = "USD") quotes with
  | q :: _ => (cq_Price q, cq_LastUpdated q)
  | [] => ("", "")
  end.

Definition cmcPrice (id : Z) (data : list cmcDatum) : result mderr SourcePrice :=
  match data with
  | [datum] =>
    check cd_ID datum = id
      or MDSource (SInconclusive (SText ("coinmarketcap returned no unique price for id " +:+ pretty id))) ;;
    let '(priceText, observedText) := usdQuote (cd_Quote datum) in
    price ← positivePrice "coinmarketcap" priceText;
    match parseRFC3339Nano observedText with
    | None => Err (MDText "coinmarketcap returned invalid last_updated")
    | Some observedAt => Ok (mkSourcePrice "coinmarketcap" (Some price) observedAt)
    end
  | _ => Err (MDSource (SInconclusive (SText ("coinmarketcap returned no unique price for id " +:+ pretty id))))
  end.

Definition cgPrice (coinID : string) (payload : gmap string cgEntry) : result mderr SourcePrice :=
  match payload !! coinID with
  | None => Err (MDSource (SInconclusive (SText ("coingecko returned no price for " +:+ coinID))))
  | Some entry =>
    price ← positivePrice "coingecko" (ge_USD entry);
    check 0 < ge_LastUpdatedAt entry or MDText "coingecko returned invalid last_updated_at" ;;
    Ok (mkSourcePrice "coingecko" (Some price) (unixTime (ge_LastUpdatedAt entry)))
  end.

(** [Do] is the HTTP client's answer to the request. *)
Definition fetch {P} (Do : Request -> result goerr Response) (decode : bytes -> option goerr -> Z * result goerr P)
    (source : string) (request : Request) : result mderr P :=
  match Do request with
  | Err e => Err (MDRequest source "execute" e)
  | Ok response =>
    check rs_StatusCode response = 200 or MDStatus source (rs_StatusCode response) ;;
    decodeMarketDataJSON decode source (rs_Body response)
  end.

Definition cmcPriceUSD (Do : Request -> result goerr Response) (c : MarketClient) (id : Z) : result mderr SourcePrice :=
  check id <> 0 or MDText "coinmarketcap id is required" ;;
  request ← buildRequest c "coinmarketcap" "/v3/cryptocurrency/quotes/latest" "X-CMC_PRO_API_KEY"
              [("id", pretty id); ("convert", "USD")];
  data ← fetch Do decodeCmc "coinmarketcap" request;
  cmcPrice id data.

Definition cgPriceUSD (Do : Request -> result goerr Response) (c : MarketClient) (coinID : string)
    : result mderr SourcePrice :=
  check coinID <> "" or MDText "coingecko coin id is required" ;;
  request ← buildRequest c "coingecko" "/api/v3/simple/price" "x-cg-pro-api-key"
              [("ids", coinID); ("vs_currencies", "usd"); ("include_last_updated_at", "true")];
  payload ← fetch Do decodeCg "coingecko" request;
  cgPrice coinID payload.

(** ** What a price stands for *)

(** The payload of a successful answer: status 200 and a body within the limit, read to its
    end and decoded. *)
Definition market_answered {P} (Do : Request -> result goerr Response) (decode : bytes -> option goerr -> Z * result goerr P)
    (request : Request) (payload : P) : Prop :=
  exists body, Do request = Ok (mkResponse 200 body) /\ bd_err body = None /\
    Z.of_nat (length (bd_data body)) <= maxMarketDataResponseBodyBytes /\
    (decode (bd_data body) None).2 = Ok payload.

Lemma fetch_sound {P} Do (decode : bytes -> option goerr -> Z * result goerr P) source request payload :
  fetch Do decode source request = Ok payload -> market_answered Do decode request payload.
Proof.
  unfold fetch, decodeMarketDataJSON, limited_err, limited_data. intros Hf.
  destruct (Do request) as [[status body]|] eqn:Ed; [|done]. cbn [rs_StatusCode rs_Body] in Hf.
  case_decide; [|done]. subst status. exists body.
  destruct (decide (Z.of_nat (length (bd_data body)) <= maxMarketDataResponseBodyBytes)) as [Hl|Hl].
  - rewrite decide_True in Hf by lia. destruct (decode _ _) as [n d] eqn:Ec in Hf. destruct d as [payload'|e]; [|by case_decide].
    destruct (bd_err body) eqn:Eb; [done|]. injection Hf as ->. by rewrite Ec.
  - destruct (decode _ _) as [n d]. destruct d; [done|by case_decide].
Qed.

(** The request of a client goes to its base URL, and carries the key of its environment
    variable in one header or no header. *)
Lemma buildRequest_key c source path keyHeader query request :
  buildRequest c source path keyHeader query = Ok request ->
  (exists endpoint, market_Parse (mc_baseURL c +:+ path) = Ok endpoint /\
     rq_URL request = market_String (endpoint <| mu_RawQuery := encodeQuery query |>)) /\
  rq_Headers request = if decide (mc_apiKey c = "") then [] else [(keyHeader, mc_apiKey c)].
Proof.
  unfold buildRequest. intros Hb. destruct (market_Parse _) as [endpoint|]; [|done].
  destruct (requestError _); [done|]. injection Hb as <-. cbn [rq_URL rq_Headers]. split; [by eauto|].
  repeat case_decide; by try contradiction.
Qed.

Lemma positivePrice_sound source t q : positivePrice source t = Ok q -> ratSetString t = Some q /\ 0 < Qnum q.
Proof. unfold positivePrice. intros Hp. by branches. Qed.

Lemma usdQuote_first quotes q rest : filter (fun q => cq_Symbol q = "USD") quotes = q :: rest ->
  usdQuote quotes = (cq_Price q, cq_LastUpdated q).
Proof. unfold usdQuote. by intros ->. Qed.

(** A CoinMarketCap price is the positive USD quote of the one datum the API returned for the
    configured id, with the time of that quote. *)
Lemma cmcPriceUSD_sound Do c id price : cmcPriceUSD Do c id = Ok price -> ratSetString "" = None ->
  id <> 0 /\ exists request datum quote rest usd,
    market_answered Do decodeCmc request [datum] /\ cd_ID datum = id /\
    filter (fun q => cq_Symbol q = "USD") (cd_Quote datum) = quote :: rest /\
    ratSetString (cq_Price quote) = Some usd /\ 0 < Qnum usd /\ sp_USD price = Some usd /\
    parseRFC3339Nano (cq_LastUpdated quote) = Some (sp_ObservedAt price).
Proof.
  unfold cmcPriceUSD, mbind, result_bind. intros Hp Hempty. case_decide as Hid; [|done]. split; [done|].
  destruct (buildRequest _ _ _ _ _) as [request|]; [|done].
  destruct (fetch _ _ _ _) as [data|] eqn:Ef; [|done]. apply fetch_sound in Ef.
  unfold cmcPrice, mbind, result_bind in Hp. destruct data as [|datum [|]]; [done| |done].
  case_decide as Hd; [|done].
  destruct (filter (fun q => cq_Symbol q = "USD") (cd_Quote datum)) as [|quote rest] eqn:Eq.
  { unfold usdQuote, positivePrice in Hp. by rewrite Eq, Hempty in Hp. }
  rewrite (usdQuote_first _ _ _ Eq) in Hp.
  destruct (positivePrice _ _) as [usd|] eqn:Eu; [|done]. apply positivePrice_sound in Eu as [Hu Hpos].
  destruct (parseRFC3339Nano _) as [at_|] eqn:Et; [|done]. injection Hp as <-.
  exists request, datum, quote, rest, usd. by split_and!.
Qed.

(** A CoinGecko price is the positive USD entry of the configured coin, at its update time. *)
Lemma cgPriceUSD_sound Do c coinID price : cgPriceUSD Do c coinID = Ok price ->
  coinID <> "" /\ exists request payload entry usd,
    market_answered Do decodeCg request payload /\ payload !! coinID = Some entry /\
    ratSetString (ge_USD entry) = Some usd /\ 0 < Qnum usd /\ sp_USD price = Some usd /\
    0 < ge_LastUpdatedAt entry /\ sp_ObservedAt price = unixTime (ge_LastUpdatedAt entry).
Proof.
  unfold cgPriceUSD, mbind, result_bind. intros Hp. case_decide as Hid; [|done]. split; [done|].
  destruct (buildRequest _ _ _ _ _) as [request|]; [|done].
  destruct (fetch _ _ _ _) as [payload|] eqn:Ef; [|done]. apply fetch_sound in Ef.
  unfold cgPrice, mbind, result_bind in Hp. destruct (payload !! coinID) as [entry|] eqn:Ee; [|done].
  destruct (positivePrice _ _) as [usd|] eqn:Eu; [|done]. apply positivePrice_sound in Eu as [Hu Hpos].
  case_decide; [|done]. injection Hp as <-. exists request, payload, entry, usd. by split_and!.
Qed.
End clients.

(** ** The API key stays with its origin *)

(** A redirect is followed only to the scheme, host and port of the base URL, whatever policy
    the given HTTP client has; without one, at most ten times. *)
Lemma checkRedirect_same_origin base original target via :
  checkRedirect (Some base) original target via = Follow ->
  ToLower (mu_Scheme target) = ToLower (mu_Scheme base) /\
  ToLower (mu_Hostname target) = ToLower (mu_Hostname base) /\
  marketDataOriginPort target = marketDataOriginPort base /\
  (original = None -> via < maxMarketDataRedirects).
Proof.
  unfold checkRedirect, sameMarketDataOrigin, EqualFold. intros Hc.
  destruct (decide (ToLower (mu_Scheme base) = ToLower (mu_Scheme target))) as [E1|E1];
    [rewrite bool_decide_eq_true_2 in Hc by done|by rewrite bool_decide_eq_false_2 in Hc by done].
  destruct (decide (ToLower (mu_Hostname base) = ToLower (mu_Hostname target))) as [E2|E2];
    [rewrite bool_decide_eq_true_2 in Hc by done|by rewrite bool_decide_eq_false_2 in Hc by done].
  case_bool_decide as E3; [|done]. cbn [andb negb] in Hc. split_and!; [done..|].
  intros ->. case_decide; [done|lia].
Qed.

(** A failed read is a wrong configuration exactly when it settled that: a configuration error
    or one of the statuses that repeat, and not an inconclusive payload. *)
Lemma validateMarketSource_configuration e :
  from_option isConfigurationError false (validateMarketSource (Some e)) = true <->
  isConfigurationError e = true \/
  (asInconclusiveError e = false /\ exists code, asStatus e = Some code /\ code ∈ deterministicStatus).
Proof.
  unfold validateMarketSource, isDeterministicMarketDataError, configurationErrorOf.
  destruct (asInconclusiveError e) eqn:Ei; cbn [from_option]; [naive_solver|].
  destruct (isConfigurationError e) eqn:Ec; cbn [orb from_option]; [rewrite Ec; naive_solver|].
  destruct (asStatus e) as [code|]; [|cbn [from_option]; rewrite Ec; naive_solver].
  case_bool_decide; cbn [from_option isConfigurationError]; [naive_solver|rewrite Ec; naive_solver].
Qed.
