(* ===== verification/StrictYaml.v ===== *)
(** * Strict integers of the configuration file (go/internal/config/strict_yaml.go)

    yaml.v3 truncates a fractional scalar for an unsigned field; the check walks the document
    along the types of Config first and refuses anything but a non-negative integer scalar at an
    unsigned position. A Go type is what package reflect shows of it; a document is the node
    tree of yaml.v3, whose aliases point at earlier nodes. *)

From S2P Require Import Prelude GoErr.
From stdpp Require Import base gmap list strings numbers pretty.
From Stdlib Require Import ZArith Lia Ascii.
#[local] Open Scope Z_scope.

(** ** Documents and types *)

(** Kind, tag and contents of a yaml.Node; a mapping lists keys and values in turn. *)
Inductive Node :=
| ScalarNode (tag val : string)
| SequenceNode (tag : string) (content : list Node)
| MappingNode (tag : string) (content : list Node)
| AliasNode (target : Node).

Fixpoint resolveAlias (n : Node) : Node :=
  match n with AliasNode target => resolveAlias target | _ => n end.
Definition nodeTag (n : Node) : string :=
  match n with ScalarNode tag _ | SequenceNode tag _ | MappingNode tag _ => tag | AliasNode _ => "" end.
Definition nodeValue (n : Node) : string := match n with ScalarNode _ v => v | _ => "" end.

(** A field: exported, its name, its yaml tag, its type. [GoOther] is any other kind. *)
Inductive GoType :=
| GoUint
| GoPointer (elem : GoType)
| GoStruct (fields : list (bool * string * string * GoType))
| GoSlice (elem : GoType)
| GoMap (elem : GoType)
| GoOther.

(** strings.Split(s, comma): never empty *)
Fixpoint splitComma (s : string) : list string :=
  match s with
  | EmptyString => [EmptyString]
  | String c s =>
    if decide (c = ","%char) then EmptyString :: splitComma s
    else match splitComma s with
         | p :: ps => String c p :: ps
         | [] => [String c EmptyString]
         end
  end.

(** The name of a field in the file, whether it is inlined; [None] when it is skipped. *)
Definition yamlField (name tag : string) : option (string * bool) :=
  match splitComma tag with
  | [] => None
  | first :: options =>
    if decide (first = "-"%string) then None else
    Some (if decide (first = ""%string) then ToLower name else first, bool_decide ("inline"%string ∈ options))
  end.

Definition joinYAMLPath (parent child : string) : string :=
  if decide (parent = ""%string) then child else parent +:+ "." +:+ child.

(** The keys and values of a mapping in pairs; a last key without a value is dropped. *)
Fixpoint pairs (content : list Node) : list (Node * Node) :=
  match content with
  | key :: val :: content => (key, val) :: pairs content
  | _ => []
  end.

(** The map of a struct's values: a later entry with the same key replaces an earlier one. *)
Definition structValues (content : list Node) : gmap string Node :=
  foldl (fun m kv => match kv.1 with ScalarNode _ key => <[key := kv.2]> m | _ => m end) ∅ (pairs content).

Definition indexed (path : string) (i : nat) : string := path +:+ "[" +:+ pretty (Z.of_nat i) +:+ "]".

(** ** The check *)

Fixpoint eachItem {A} (f : nat -> A -> result string unit) (i : nat) (l : list A) : result string unit :=
  match l with
  | [] => Ok tt
  | x :: l => _ ← f i x; eachItem f (S i) l
  end.

Definition checkUint (n : Node) (path : string) : result string unit :=
  match n with
  | ScalarNode tag val =>
    check tag = "!!int"%string or (path +:+ " must be an integer")%string ;;
    check HasPrefix val "-" = false or (path +:+ " must be a non-negative integer")%string ;;
    Ok tt
  | _ => Err (path +:+ " must be an integer")%string
  end.

(** By recursion on the type; [validateUnsignedIntegerStruct] is the case of a struct. *)
Fixpoint validateUnsignedIntegerNode (target : GoType) (node : Node) (path : string) {struct target} : result string unit :=
  let node := resolveAlias node in
  match target with
  | GoPointer elem => if decide (nodeTag node = "!!null"%string) then Ok tt else validateUnsignedIntegerNode elem node path
  | GoUint => checkUint node path
  | GoStruct fields =>
    match node with
    | MappingNode _ content =>
      let values := structValues content in
      (fix validateFields (fields : list (bool * string * string * GoType)) : result string unit :=
         match fields with
         | [] => Ok tt
         | (exported, name, tag, type) :: fields =>
           _ ← (if negb exported then Ok tt else
                match yamlField name tag with
                | None => Ok tt
                | Some (_, true) => validateUnsignedIntegerNode type node path
                | Some (name, false) =>
                  match values !! name with
                  | None => Ok tt
                  | Some val => validateUnsignedIntegerNode type val (joinYAMLPath path name)
                  end
                end);
           validateFields fields
         end) fields
    | _ => Ok tt
    end
  | GoSlice elem =>
    match node with
    | SequenceNode _ content => eachItem (fun i item => validateUnsignedIntegerNode elem item (indexed path i)) 0 content
    | _ => Ok tt
    end
  | GoMap elem =>
    match node with
    | MappingNode _ content =>
      eachItem (fun _ kv => validateUnsignedIntegerNode elem kv.2 (joinYAMLPath path (nodeValue kv.1))) 0 (pairs content)
    | _ => Ok tt
    end
  | GoOther => Ok tt
  end.

(** The document's first node, if it has one. *)
Definition validateUnsignedIntegerYAML (config : GoType) (document : list Node) : result string unit :=
  match document with
  | [] => Ok tt
  | root :: _ => validateUnsignedIntegerNode config root ""
  end.

(** ** The positions of unsigned integers *)

(** [uint_at target node n]: read as a [target], the document [node] has [n] where an unsigned
    integer is expected. *)
Inductive uint_at : GoType -> Node -> Node -> Prop :=
| uint_here node : uint_at GoUint node (resolveAlias node)
| uint_pointer elem node n : nodeTag (resolveAlias node) <> "!!null"%string -> uint_at elem (resolveAlias node) n ->
    uint_at (GoPointer elem) node n
| uint_inline fields name tag type node t content key n : (true, name, tag, type) ∈ fields ->
    resolveAlias node = MappingNode t content -> yamlField name tag = Some (key, true) ->
    uint_at type (resolveAlias node) n -> uint_at (GoStruct fields) node n
| uint_field fields name tag type node t content key val n : (true, name, tag, type) ∈ fields ->
    resolveAlias node = MappingNode t content -> yamlField name tag = Some (key, false) ->
    structValues content !! key = Some val -> uint_at type val n -> uint_at (GoStruct fields) node n
| uint_item elem node t content item n : resolveAlias node = SequenceNode t content -> item ∈ content ->
    uint_at elem item n -> uint_at (GoSlice elem) node n
| uint_entry elem node t content kv n : resolveAlias node = MappingNode t content -> kv ∈ pairs content ->
    uint_at elem kv.2 n -> uint_at (GoMap elem) node n.

(** A scalar of tag !!int without a sign. *)
Definition unsigned_scalar (n : Node) : Prop :=
  exists val, n = ScalarNode "!!int" val /\ HasPrefix val "-" = false.

Lemma resolveAlias_idem n : resolveAlias (resolveAlias n) = resolveAlias n.
Proof. induction n; done. Qed.

Lemma checkUint_Ok n path : checkUint n path = Ok tt <-> unsigned_scalar n.
Proof.
  unfold checkUint, unsigned_scalar. destruct n; try by split; [done|intros (? & ? & ?)].
  repeat case_decide; naive_solver.
Qed.

Lemma eachItem_Ok {A} (f : nat -> A -> result string unit) l (P : A -> Prop) :
  (forall i x, x ∈ l -> f i x = Ok tt <-> P x) -> forall i, eachItem f i l = Ok tt <-> forall x, x ∈ l -> P x.
Proof.
  induction l as [|x l IH]; intros Hf i; cbn [eachItem]; [set_solver|].
  unfold mbind, result_bind. specialize (IH ltac:(intros; apply Hf; by right) (S i)).
  pose proof (Hf i x ltac:(by left)) as Hx. destruct (f i x) as [[]|e].
  - rewrite IH. set_solver.
  - split; [done|]. intros Hall. apply Hx. set_solver.
Qed.

(** Every type of the fields of a struct is smaller than the struct. *)
Fixpoint type_size (t : GoType) : nat :=
  match t with
  | GoUint | GoOther => 1
  | GoPointer e | GoSlice e | GoMap e => S (type_size e)
  | GoStruct fields => S ((fix sum (l : list (bool * string * string * GoType)) : nat :=
      match l with [] => O | f :: l => (type_size f.2 + sum l)%nat end) fields)
  end.

Lemma field_size fields f : f ∈ fields -> (type_size f.2 < type_size (GoStruct fields))%nat.
Proof. induction 1 as [|??? _ IH]; cbn [type_size] in *; lia. Qed.

(** The check of one field. *)
Definition validateField (node : Node) (values : gmap string Node) (path : string) (f : bool * string * string * GoType)
    : result string unit :=
  let '(exported, name, tag, type) := f in
  if negb exported then Ok tt else
  match yamlField name tag with
  | None => Ok tt
  | Some (_, true) => validateUnsignedIntegerNode type node path
  | Some (name, false) =>
    match values !! name with
    | None => Ok tt
    | Some val => validateUnsignedIntegerNode type val (joinYAMLPath path name)
    end
  end.

Lemma validateStruct_Ok fields node t content path : resolveAlias node = MappingNode t content ->
  validateUnsignedIntegerNode (GoStruct fields) node path = Ok tt <->
  forall f, f ∈ fields -> validateField (MappingNode t content) (structValues content) path f = Ok tt.
Proof.
  intros Hn. cbn [validateUnsignedIntegerNode]. rewrite Hn.
  induction fields as [|[[[exported name] tag] type] fields IH]; [set_solver|].
  change (((_ ← validateField (MappingNode t content) (structValues content) path (exported, name, tag, type);
    validateUnsignedIntegerNode (GoStruct fields) (MappingNode t content) path) = Ok tt) <->
    forall f, f ∈ (exported, name, tag, type) :: fields ->
      validateField (MappingNode t content) (structValues content) path f = Ok tt).
  unfold mbind, result_bind. destruct (validateField _ _ _ (exported, name, tag, type)) as [[]|e] eqn:E.
  - cbn [validateUnsignedIntegerNode resolveAlias]. rewrite IH. split.
    + intros Hall f [->|Hf]%elem_of_cons; [done|by apply Hall].
    + intros Hall f Hf. apply Hall. by right.
  - split; [done|]. intros Hall. rewrite <- E. apply Hall. by left.
Qed.

Lemma validateField_Ok node t content path f :
  resolveAlias node = MappingNode t content ->
  (forall n p, validateUnsignedIntegerNode f.2 n p = Ok tt <-> forall m, uint_at f.2 n m -> unsigned_scalar m) ->
  validateField (MappingNode t content) (structValues content) path f = Ok tt <->
  (forall key n, f.1.1.1 = true -> yamlField f.1.1.2 f.1.2 = Some (key, true) ->
     uint_at f.2 (MappingNode t content) n -> unsigned_scalar n) /\
  (forall key val n, f.1.1.1 = true -> yamlField f.1.1.2 f.1.2 = Some (key, false) ->
     structValues content !! key = Some val -> uint_at f.2 val n -> unsigned_scalar n).
Proof.
  destruct f as [[[exported name] tag] type]. cbn [fst snd]. intros Hn IH. unfold validateField.
  destruct exported; cbn [negb]; [|naive_solver].
  destruct (yamlField name tag) as [[key [|]]|]; [| |naive_solver].
  - rewrite IH. naive_solver.
  - destruct (structValues content !! key) as [val|] eqn:Ev; [rewrite IH|]; naive_solver.
Qed.

(** What the check decides for the documents of a type. *)
Definition exact_for (target : GoType) : Prop := forall node path,
  validateUnsignedIntegerNode target node path = Ok tt <-> forall n, uint_at target node n -> unsigned_scalar n.

(** No unsigned position: the check passes. *)
Ltac no_position := split; [|done]; intros _ m Hm; inversion Hm; congruence.

Lemma exact_uint : exact_for GoUint.
Proof.
  intros node path. cbn [validateUnsignedIntegerNode]. rewrite checkUint_Ok.
  split; [by intros ? n Hn; inversion Hn; subst|]. intros Hall. apply Hall. constructor.
Qed.

Lemma exact_pointer elem : exact_for elem -> exact_for (GoPointer elem).
Proof.
  unfold exact_for. intros IH node path. cbn [validateUnsignedIntegerNode]. case_decide as Ht; [no_position|].
  rewrite IH. split; [intros Hall n Hn; inversion Hn; subst; auto|]. intros Hall n Hn. apply Hall. by constructor.
Qed.

Lemma exact_struct fields : (forall f, f ∈ fields -> exact_for f.2) -> exact_for (GoStruct fields).
Proof.
  unfold exact_for. intros IH node path. destruct (resolveAlias node) as [?|?|t content|] eqn:Er.
  1,2,4: cbn [validateUnsignedIntegerNode]; rewrite Er; no_position.
  rewrite (validateStruct_Ok fields node t content path Er). split.
  - intros Hall n Hn. inversion Hn as [| |? name tag type ? t' c' key ? Hf Hc Hy Hu|? name tag type ? t' c' key val ? Hf Hc Hy Hv Hu| |];
      subst; rewrite Er in Hc; injection Hc as <- <-;
      pose proof (Hall _ Hf) as Hok; apply (validateField_Ok node) in Hok as [Hi Hk]; [|done|apply (IH _ Hf)|..| |done|apply (IH _ Hf)].
    + eapply Hi; eauto. by rewrite <- Er.
    + eapply Hk; eauto.
  - intros Hall f Hf. apply (validateField_Ok node); [done|apply (IH _ Hf)|].
    destruct f as [[[exported name] tag] type]. cbn [fst snd].
    split; [intros key n -> Hy Hu|intros key val n -> Hy Hv Hu]; apply Hall.
    + eapply uint_inline; eauto. by rewrite Er.
    + by eapply uint_field.
Qed.

Lemma exact_slice elem : exact_for elem -> exact_for (GoSlice elem).
Proof.
  unfold exact_for. intros IH node path. cbn [validateUnsignedIntegerNode]. destruct (resolveAlias node) as [?|t content|?|] eqn:Er; [no_position| |no_position..].
  rewrite (eachItem_Ok _ content (fun item => forall n, uint_at elem item n -> unsigned_scalar n)) by (intros; apply IH). split.
  - intros Hall n Hn. inversion Hn as [| | | |? ? t' c' item ? Hc Hi Hu|]; subst. rewrite Er in Hc. injection Hc as <- <-. eauto.
  - intros Hall item Hi n Hn. apply Hall. by eapply uint_item.
Qed.

Lemma exact_map elem : exact_for elem -> exact_for (GoMap elem).
Proof.
  unfold exact_for. intros IH node path. cbn [validateUnsignedIntegerNode]. destruct (resolveAlias node) as [?|?|t content|] eqn:Er; [no_position..| |no_position].
  rewrite (eachItem_Ok _ (pairs content) (fun kv => forall n, uint_at elem kv.2 n -> unsigned_scalar n)) by (intros; apply IH). split.
  - intros Hall n Hn. inversion Hn as [| | | | |? ? t' c' kv ? Hc Hi Hu]; subst. rewrite Er in Hc. injection Hc as <- <-. eauto.
  - intros Hall kv Hi n Hn. apply Hall. by eapply uint_entry.
Qed.

(** The check accepts a document exactly when every unsigned position holds a non-negative
    integer scalar: no fraction and no sign reaches the decoder. *)
Lemma validateUnsignedIntegerNode_iff target : exact_for target.
Proof.
  induction (Nat.lt_wf_0_projected type_size target) as [target _ IH]. destruct target as [|elem|fields|elem|elem|].
  - apply exact_uint.
  - apply exact_pointer, IH. cbn. lia.
  - apply exact_struct. intros f Hf. by apply IH, field_size.
  - apply exact_slice, IH. cbn. lia.
  - apply exact_map, IH. cbn. lia.
  - intros node path. no_position.
Qed.
