(* ===== verification/ConfigDiff.v ===== *)
(** * Configuration diff (go/internal/configdiff/diff.go)

    The semantic diff of two configurations that an operator reviews before a rollout: scalar
    sections compared whole, signers, chains, pathways and pricing chains compared by key in
    sorted order, and secrets redacted in what is printed but not in what is compared.

    reflect.DeepEqual is equality of the records; an absent and an empty list are one value
    here. The text of a URL and the JSON encoding of a value are the standard library's. *)

From S2P Require Import Prelude StringOrder GoErr Registry Config.
From stdpp Require Import base gmap list strings numbers sorting pretty.
From Stdlib Require Import ZArith Lia Ascii.
#[local] Open Scope Z_scope.

(** ** Decidable equality of the configuration's records (reflect.DeepEqual) *)

#[export] Instance TxRoleConfig_eq_dec : EqDecision TxRoleConfig. Proof. solve_decision. Defined.
#[export] Instance ChainConfig_eq_dec : EqDecision ChainConfig. Proof. solve_decision. Defined.
#[export] Instance WorkerFeeModelConfig_eq_dec : EqDecision WorkerFeeModelConfig. Proof. solve_decision. Defined.
#[export] Instance PathwayPricingConfig_eq_dec : EqDecision PathwayPricingConfig. Proof. solve_decision. Defined.
#[export] Instance WorkerContracts_eq_dec : EqDecision WorkerContracts. Proof. solve_decision. Defined.
#[export] Instance Pathway_eq_dec : EqDecision Pathway. Proof. solve_decision. Defined.
#[export] Instance PricingTxPolicyConfig_eq_dec : EqDecision PricingTxPolicyConfig. Proof. solve_decision. Defined.
#[export] Instance CoinMarketCapPricingConfig_eq_dec : EqDecision CoinMarketCapPricingConfig. Proof. solve_decision. Defined.
#[export] Instance CoinGeckoPricingConfig_eq_dec : EqDecision CoinGeckoPricingConfig. Proof. solve_decision. Defined.
#[export] Instance ChainlinkPricingConfig_eq_dec : EqDecision ChainlinkPricingConfig. Proof. solve_decision. Defined.
#[export] Instance UniswapPricingConfig_eq_dec : EqDecision UniswapPricingConfig. Proof. solve_decision. Defined.
#[export] Instance PricingChainConfig_eq_dec : EqDecision PricingChainConfig. Proof. solve_decision. Defined.
#[export] Instance KeystoreSignerConfig_eq_dec : EqDecision KeystoreSignerConfig. Proof. solve_decision. Defined.
#[export] Instance KMSSignerConfig_eq_dec : EqDecision KMSSignerConfig. Proof. solve_decision. Defined.
#[export] Instance SignerConfig_eq_dec : EqDecision SignerConfig. Proof. solve_decision. Defined.

(** ** The reported values *)

Record servicesConfig := mkServicesConfig { ExecutorOn : bool; DVNOn : bool }.
#[export] Instance servicesConfig_eq_dec : EqDecision servicesConfig. Proof. solve_decision. Defined.

Record pricingConfigGlobal := mkPricingGlobal {
  pg_Enabled : bool; pg_Signer : string; pg_IntervalSeconds : Z; pg_StaleAfterSeconds : Z;
  pg_MaxDeviationBps : Z; pg_MinUpdateDeviationBps : Z; pg_HeartbeatSeconds : Z;
  pg_SourceRequestTimeoutSeconds : Z; pg_GasSpikeBps : Z; pg_CoinMarketCapBaseURL : string;
  pg_CoinMarketCapAPIKeyEnv : string; pg_CoinGeckoBaseURL : string; pg_CoinGeckoAPIKeyEnv : string }.
#[export] Instance pricingConfigGlobal_eq_dec : EqDecision pricingConfigGlobal. Proof. solve_decision. Defined.

(** The dynamic type of a Before or After. *)
Inductive value :=
| VText (s : string) | VMetrics (listen : string) | VServices (s : servicesConfig) | VTxManager (stale : Z)
| VPricing (p : pricingConfigGlobal) | VPricingChain (c : PricingChainConfig) | VSigner (s : SignerConfig)
| VChain (c : ChainConfig) | VPathway (p : PathwayConfig).

(** [None] is an omitted side. *)
Record Change := mkChange { ch_Path : string; ch_Before : option value; ch_After : option value }.

(** ** Comparisons *)

Section compare.
Context {T : Type} `{EqDecision T} (inject : T -> value).

Definition compareProjected (path : string) (before after : T) (project : T -> T) : list Change :=
  if decide (before = after) then []
  else [mkChange path (Some (inject (project before))) (Some (inject (project after)))].

Definition compareValues (path : string) (before after : T) : list Change :=
  if decide (before = after) then []
  else [mkChange path (Some (inject before)) (Some (inject after))].
End compare.

Definition compareRedactedURL (path before after : string) (redact : string -> string) : list Change :=
  if decide (before = after) then []
  else [mkChange path (Some (VText (redact before))) (Some (VText (redact after)))].

Section maps.
Context `{ConfigRuntime}.
Context {T : Type} `{EqDecision T} (inject : T -> value).

(** The keys of both maps, each once: [range] is the order the maps are ranged over. *)
Definition unionKeys (before after : gmap string T) : list string :=
  range (elements (dom before)) ++
  filter (fun key => before !! key = None) (range (elements (dom after))).

Definition diffKey (prefix : string) (before after : gmap string T) (project : T -> T) (key : string)
    : list Change :=
  let path := prefix +:+ "[" +:+ key +:+ "]" in
  match before !! key, after !! key with
  | None, None => []
  | None, Some a => [mkChange path None (Some (inject (project a)))]
  | Some b, None => [mkChange path (Some (inject (project b))) None]
  | Some b, Some a => compareProjected inject path b a project
  end.

Definition diffMapsProjected (prefix : string) (before after : gmap string T) (project : T -> T) : list Change :=
  concat (diffKey prefix before after project <$> sortStrings (unionKeys before after)).

Definition diffMaps (prefix : string) (before after : gmap string T) : list Change :=
  diffMapsProjected prefix before after id.
End maps.

(** ** Projections of a configuration *)

(** A map built by assigning [key item] for each item: the last one stays. *)
Definition keyed {T} (key : T -> string) (items : list T) : gmap string T :=
  foldl (fun m item => <[key item := item]> m) ∅ items.

Section project.
Context `{AddressText}.

Definition chainMap (items : list ChainConfig) : gmap string ChainConfig := keyed (fun c => pretty (ccf_EID c)) items.
Definition signerMap (items : list SignerConfig) : gmap string SignerConfig := keyed (fun s => AddressHex (sg_ID s)) items.
Definition pathwayMap (items : list PathwayConfig) : gmap string PathwayConfig :=
  keyed (fun p => pathwayKey (pw_SrcEID p) (pw_DstEID p) (pw_SrcOApp p) (pw_DstOApp p)) items.
Definition pricingChainMap (items : list PricingChainConfig) : gmap string PricingChainConfig :=
  keyed (fun c => pretty (pc_EID c)) items.

Definition services (c : Config) : servicesConfig := mkServicesConfig (ExecutorEnabled c) (DVNEnabled c).

Definition pricingGlobal (p : PricingConfig) : pricingConfigGlobal :=
  mkPricingGlobal (pr_Enabled p) (AddressHex (pr_Signer p)) (pr_IntervalSeconds p) (pr_StaleAfterSeconds p)
    (pr_MaxDeviationBps p) (pr_MinUpdateDeviationBps p) (pr_HeartbeatSeconds p)
    (pr_SourceRequestTimeoutSeconds p) (pr_GasSpikeBps p) (pr_CoinMarketCapBaseURL p)
    (pr_CoinMarketCapAPIKeyEnv p) (pr_CoinGeckoBaseURL p) (pr_CoinGeckoAPIKeyEnv p).
End project.

(** ** Redaction *)

Definition REDACTED : string := "[REDACTED]".

(** A *url.URL as the database URL's redaction takes it apart. *)
Record FullURL := mkFullURL {
  fu_Scheme : string; fu_Opaque : string; fu_User : option string; fu_Host : string; fu_Path : string;
  fu_RawPath : string; fu_OmitHost : bool; fu_ForceQuery : bool; fu_RawQuery : string; fu_Fragment : string;
  fu_RawFragment : string }.
#[export] Instance eta_FullURL : Eta FullURL := fun u =>
  mkFullURL (fu_Scheme u) (fu_Opaque u) (fu_User u) (fu_Host u) (fu_Path u) (fu_RawPath u) (fu_OmitHost u)
    (fu_ForceQuery u) (fu_RawQuery u) (fu_Fragment u) (fu_RawFragment u).

(** net/url: parsing ([None]: an error), the values of one key of a query, and URL.String, which
    prints a fragment, raw or not, only when Fragment is not empty. *)
Class URLText := {
  full_Parse : string -> option FullURL;
  query_values : string -> string -> list string;
  full_String : FullURL -> string;
  full_String_fragment : forall u f, fu_Fragment u = ""%string -> full_String (u <| fu_RawFragment := f |>) = full_String u }.

Definition safePostgresSSLMode (mode : string) : bool :=
  bool_decide (mode ∈ ["disable"; "allow"; "prefer"; "require"; "verify-ca"; "verify-full"]%string).

Definition redactSecretEnvironmentReference (v : string) : string :=
  if decide (v = ""%string \/ IsValidEnvironmentVariableName v = true) then v else REDACTED.

Definition redactSecretFileReference (v : string) : string :=
  if decide (v = ""%string) then ""%string else REDACTED.

Section redact.
Context `{ConfigRuntime, URLText}.

(** The encoded query keeps a single known sslmode and nothing else. *)
Definition redactedQuery (rawQuery : string) : string :=
  match query_values rawQuery "sslmode" with
  | [mode] => if safePostgresSSLMode mode then "sslmode=" +:+ mode else ""
  | _ => ""
  end.

Definition redactDatabaseURL (raw : string) : string :=
  match full_Parse raw with
  | None => REDACTED
  | Some parsed =>
    if decide (fu_Scheme parsed = ""%string \/ fu_Opaque parsed <> ""%string) then REDACTED else
    full_String (parsed <| fu_User := None |> <| fu_RawQuery := redactedQuery (fu_RawQuery parsed) |>
                        <| fu_ForceQuery := false |> <| fu_Fragment := ""%string |>)
  end.

Definition redactEndpointURL (raw : string) (allowedSchemes : list string) : string :=
  if decide (raw = ""%string) then ""%string else
  match url_Parse raw with
  | None => REDACTED
  | Some parsed =>
    if decide (u_Scheme parsed = ""%string \/ u_Host parsed = ""%string \/ u_Opaque parsed <> ""%string)
    then REDACTED
    else let scheme := ToLower (u_Scheme parsed) in
         if decide (scheme ∈ allowedSchemes) then scheme +:+ "://" +:+ REDACTED else REDACTED
  end.

Definition redactRPCURL (raw : string) : string := redactEndpointURL raw ["http"; "https"; "ws"; "wss"]%string.
Definition redactHTTPURL (raw : string) : string := redactEndpointURL raw ["http"; "https"]%string.

Definition redactSigner (s : SignerConfig) : SignerConfig :=
  mkSignerConfig (sg_ID s) (sg_Type s)
    (mkKeystore (ks_Path (sg_Keystore s)) (redactSecretEnvironmentReference (ks_PasswordEnv (sg_Keystore s)))
       (redactSecretFileReference (ks_PasswordFile (sg_Keystore s))))
    (mkKMS (kms_KeyID (sg_KMS s)) (kms_Region (sg_KMS s)) (kms_Address (sg_KMS s))
       (redactHTTPURL (kms_Endpoint (sg_KMS s)))).

Definition redactChain (c : ChainConfig) : ChainConfig := c <| ccf_RPCURLs := redactRPCURL <$> ccf_RPCURLs c |>.

Definition redactPricingGlobal (p : pricingConfigGlobal) : pricingConfigGlobal :=
  mkPricingGlobal (pg_Enabled p) (pg_Signer p) (pg_IntervalSeconds p) (pg_StaleAfterSeconds p)
    (pg_MaxDeviationBps p) (pg_MinUpdateDeviationBps p) (pg_HeartbeatSeconds p)
    (pg_SourceRequestTimeoutSeconds p) (pg_GasSpikeBps p) (redactHTTPURL (pg_CoinMarketCapBaseURL p))
    (redactSecretEnvironmentReference (pg_CoinMarketCapAPIKeyEnv p)) (redactHTTPURL (pg_CoinGeckoBaseURL p))
    (redactSecretEnvironmentReference (pg_CoinGeckoAPIKeyEnv p)).

(** ** The diff *)

Context `{AddressText}.

Definition Diff (before after : Config) : list Change :=
  compareRedactedURL "database_url" (cf_DatabaseURL before) (cf_DatabaseURL after) redactDatabaseURL ++
  compareValues VMetrics "metrics" (cf_ListenAddress before) (cf_ListenAddress after) ++
  compareValues VServices "services" (services before) (services after) ++
  compareValues VTxManager "tx_manager" (cf_StaleBroadcastReplacementAfterSeconds before)
    (cf_StaleBroadcastReplacementAfterSeconds after) ++
  compareProjected VPricing "pricing" (pricingGlobal (cf_Pricing before)) (pricingGlobal (cf_Pricing after))
    redactPricingGlobal ++
  diffMaps VPricingChain "pricing.chains" (pricingChainMap (pr_Chains (cf_Pricing before)))
    (pricingChainMap (pr_Chains (cf_Pricing after))) ++
  diffMapsProjected VSigner "signers" (signerMap (cf_Signers before)) (signerMap (cf_Signers after)) redactSigner ++
  diffMapsProjected VChain "chains" (chainMap (cf_Chains before)) (chainMap (cf_Chains after)) redactChain ++
  diffMaps VPathway "pathways" (pathwayMap (cf_Pathways before)) (pathwayMap (cf_Pathways after)).
End redact.

Section render.
(** json.Marshal of a value *)
Context (encode : value -> string).
#[local] Open Scope string_scope.

Definition line_feed : string := String (ascii_of_N 10) EmptyString.
Definition jsonValue (v : option value) : string :=
  match v with None => "null" | Some v => encode v end.

Definition RenderDiffText (changes : list Change) : string :=
  match changes with
  | [] => "no config changes" +:+ line_feed
  | _ => StringsJoin ((fun c => ch_Path c +:+ line_feed +:+ "  before: " +:+ jsonValue (ch_Before c) +:+ line_feed +:+
                         "  after:  " +:+ jsonValue (ch_After c) +:+ line_feed) <$> changes) ""
  end.
End render.
