(* ===== verification/ConfigDiffProofs.v ===== *)
(** * What a configuration diff shows

    The diff is empty exactly when the configurations mean the same, a keyed section reports
    exactly the keys whose entries differ, the order in which maps are ranged over does not
    show, and no printed value carries a secret. *)

From S2P Require Import Prelude StringOrder GoErr QuorumLogs Registry Config AppSample ConfigDiff.
From stdpp Require Import base gmap list strings numbers sorting pretty.
From Stdlib Require Import ZArith Lia Ascii.
#[local] Open Scope Z_scope.

(** ** Keyed sections *)

Section maps.
Context `{ConfigRuntime}.
Context {T : Type} `{EqDecision T} (inject : T -> value).

Lemma elem_of_range {A} (x : A) l : x ∈ range l <-> x ∈ l.
Proof. by rewrite range_perm. Qed.

Lemma elem_of_unionKeys (before after : gmap string T) k :
  k ∈ unionKeys before after <-> is_Some (before !! k) \/ is_Some (after !! k).
Proof.
  unfold unionKeys. rewrite elem_of_app, list_elem_of_filter, !elem_of_range, !elem_of_elements, !elem_of_dom.
  destruct (before !! k); naive_solver.
Qed.

(** A keyed section reports exactly the keys whose entries differ, with both entries. *)
Lemma elem_of_diffMapsProjected prefix before after project c :
  c ∈ diffMapsProjected inject prefix before after project <->
  exists k, before !! k <> after !! k /\
    c = mkChange (prefix +:+ "[" +:+ k +:+ "]") (inject ∘ project <$> before !! k) (inject ∘ project <$> after !! k).
Proof.
  unfold diffMapsProjected. rewrite list_elem_of_In, in_concat. setoid_rewrite <- list_elem_of_In.
  setoid_rewrite list_elem_of_fmap. setoid_rewrite elem_of_sortStrings. setoid_rewrite elem_of_unionKeys.
  unfold diffKey, compareProjected. split.
  - intros (l & (k & -> & Hk) & Hc). exists k. destruct (before !! k), (after !! k); simpl in *; try case_decide;
      set_solver.
  - intros (k & Hn & ->). exists (diffKey inject prefix before after project k). unfold diffKey, compareProjected. split.
    + exists k. split; [done|]. destruct (before !! k), (after !! k); naive_solver.
    + destruct (before !! k), (after !! k); simpl; try case_decide; set_solver.
Qed.

Lemma diffMapsProjected_nil prefix before after project :
  diffMapsProjected inject prefix before after project = [] <-> before = after.
Proof.
  split.
  - intros Hd. apply map_eq. intros k. destruct (decide (before !! k = after !! k)) as [|Hn]; [done|exfalso].
    eapply not_elem_of_nil. rewrite <- Hd. apply elem_of_diffMapsProjected. eauto.
  - intros ->. apply elem_of_nil_inv. intros c (k & Hn & _)%elem_of_diffMapsProjected. done.
Qed.

Lemma diffMaps_nil prefix (before after : gmap string T) : diffMaps inject prefix before after = [] <-> before = after.
Proof. apply diffMapsProjected_nil. Qed.

Lemma compare_nil path before after : compareValues inject path before after = [] <-> before = after.
Proof. unfold compareValues. by case_decide. Qed.

Lemma compareProjected_nil path before after project :
  compareProjected inject path before after project = [] <-> before = after.
Proof. unfold compareProjected. by case_decide. Qed.
End maps.

Lemma compareRedactedURL_nil path before after redact :
  compareRedactedURL path before after redact = [] <-> before = after.
Proof. unfold compareRedactedURL. by case_decide. Qed.

(** The keys are visited in one order whatever the maps' range order is. *)
Lemma diffMapsProjected_range (R1 R2 : ConfigRuntime) {T} `{EqDecision T} (inject : T -> value) prefix before after project :
  @diffMapsProjected R1 _ _ inject prefix before after project =
  @diffMapsProjected R2 _ _ inject prefix before after project.
Proof.
  unfold diffMapsProjected. f_equal. f_equal. apply sortStrings_perm. unfold unionKeys.
  by rewrite !range_perm.
Qed.

(** ** What is printed *)

Definition public_endpoints : list string :=
  [""; REDACTED; "http://[REDACTED]"; "https://[REDACTED]"]%string.
Definition public_rpc : list string := (public_endpoints ++ ["ws://[REDACTED]"; "wss://[REDACTED]"]%string).

Definition public_env (s : string) : Prop :=
  s = ""%string \/ IsValidEnvironmentVariableName s = true \/ s = REDACTED.

Section redacted.
Context `{ConfigRuntime, URLText, AddressText}.

(** A database URL without its user, its fragment and any part of its query other than a known
    sslmode. *)
Definition public_database (s : string) : Prop :=
  s = REDACTED \/ exists scheme host path rawPath omitHost query,
    s = full_String (mkFullURL scheme "" None host path rawPath omitHost false query "" "") /\
    (query = ""%string \/ exists mode, safePostgresSSLMode mode = true /\ query = ("sslmode=" +:+ mode)%string).

Definition public_value (v : value) : Prop :=
  match v with
  | VText s => public_database s
  | VPricing p => pg_CoinMarketCapBaseURL p ∈ public_endpoints /\ pg_CoinGeckoBaseURL p ∈ public_endpoints /\
                  public_env (pg_CoinMarketCapAPIKeyEnv p) /\ public_env (pg_CoinGeckoAPIKeyEnv p)
  | VSigner s => public_env (ks_PasswordEnv (sg_Keystore s)) /\
                 ks_PasswordFile (sg_Keystore s) ∈ [""%string; REDACTED] /\ kms_Endpoint (sg_KMS s) ∈ public_endpoints
  | VChain c => Forall (fun u => u ∈ public_rpc) (ccf_RPCURLs c)
  | _ => True
  end.

Definition public_change (c : Change) : Prop :=
  from_option public_value True (ch_Before c) /\ from_option public_value True (ch_After c).

Lemma redactEndpointURL_public raw schemes :
  redactEndpointURL raw schemes ∈ ""%string :: REDACTED :: ((fun s => s +:+ "://" +:+ REDACTED) <$> schemes).
Proof.
  unfold redactEndpointURL. repeat case_decide; [set_solver|]. destruct (url_Parse raw); [|set_solver].
  repeat case_decide; [set_solver| |set_solver].
  do 2 right. apply list_elem_of_fmap. eauto.
Qed.

Lemma redactHTTPURL_public raw : redactHTTPURL raw ∈ public_endpoints.
Proof. apply redactEndpointURL_public. Qed.
Lemma redactRPCURL_public raw : redactRPCURL raw ∈ public_rpc.
Proof. apply redactEndpointURL_public. Qed.

Lemma redactEnv_public s : public_env (redactSecretEnvironmentReference s).
Proof. unfold redactSecretEnvironmentReference, public_env. case_decide; naive_solver. Qed.

Lemma redactFile_public s : redactSecretFileReference s ∈ [""%string; REDACTED].
Proof. unfold redactSecretFileReference. case_decide; set_solver. Qed.

Lemma redactDatabaseURL_public raw : public_database (redactDatabaseURL raw).
Proof.
  unfold redactDatabaseURL, public_database. destruct (full_Parse raw) as [u|]; [|by left].
  case_decide as Hu; [by left|]. right. rewrite <- (full_String_fragment _ "") by done. unfold update. cbn.
  assert (fu_Opaque u = ""%string) as -> by (apply dec_stable; tauto).
  do 6 eexists. split; [done|]. unfold redactedQuery.
  destruct (query_values _ _) as [|mode [|]]; [by left| |by left].
  destruct (safePostgresSSLMode mode) eqn:E; [right; eauto|by left].
Qed.

#[local] Hint Resolve redactHTTPURL_public redactEnv_public redactFile_public : core.

Lemma redactPricing_public p : public_value (VPricing (redactPricingGlobal p)).
Proof. simpl. auto. Qed.
Lemma redactSigner_public s : public_value (VSigner (redactSigner s)).
Proof. simpl. auto. Qed.
Lemma redactChain_public c : public_value (VChain (redactChain c)).
Proof. simpl. apply Forall_fmap, Forall_true. intros u. apply redactRPCURL_public. Qed.

Lemma diffMapsProjected_public {T} `{EqDecision T} (inject : T -> value) prefix before after project :
  (forall x, public_value (inject (project x))) ->
  Forall public_change (diffMapsProjected inject prefix before after project).
Proof.
  intros Hp. apply Forall_forall. intros c (k & _ & ->)%elem_of_diffMapsProjected.
  split; simpl; by destruct (_ !! k); simpl.
Qed.

(** ** What is compared *)

(** Two lists with the same entries by key; of several entries with a key the last one counts. *)
Definition same_entries {T K} `{EqDecision K} (key : T -> K) (a b : list T) : Prop :=
  forall k, last (filter (fun x => key x = k) a) = last (filter (fun x => key x = k) b).

Definition route (p : PathwayConfig) : Z * Z * Address * Address := (pw_SrcEID p, pw_DstEID p, pw_SrcOApp p, pw_DstOApp p).
(** A service runs unless it is turned off. *)
Definition runs (setting : option bool) : Prop := setting <> Some false.

(** Two configurations that mean the same: the same services, the same settings field by field, and
    the same chains by endpoint id, signers by address and pathways by route. *)
Record same_config (a b : Config) : Prop := {
  sm_database : cf_DatabaseURL a = cf_DatabaseURL b;
  sm_metrics : cf_ListenAddress a = cf_ListenAddress b;
  sm_executor : runs (sv_Executor (cf_Services a)) <-> runs (sv_Executor (cf_Services b));
  sm_dvn : runs (sv_DVN (cf_Services a)) <-> runs (sv_DVN (cf_Services b));
  sm_stale : cf_StaleBroadcastReplacementAfterSeconds a = cf_StaleBroadcastReplacementAfterSeconds b;
  sm_enabled : pr_Enabled (cf_Pricing a) = pr_Enabled (cf_Pricing b);
  sm_signer : pr_Signer (cf_Pricing a) = pr_Signer (cf_Pricing b);
  sm_interval : pr_IntervalSeconds (cf_Pricing a) = pr_IntervalSeconds (cf_Pricing b);
  sm_staleAfter : pr_StaleAfterSeconds (cf_Pricing a) = pr_StaleAfterSeconds (cf_Pricing b);
  sm_maxDeviation : pr_MaxDeviationBps (cf_Pricing a) = pr_MaxDeviationBps (cf_Pricing b);
  sm_minUpdate : pr_MinUpdateDeviationBps (cf_Pricing a) = pr_MinUpdateDeviationBps (cf_Pricing b);
  sm_heartbeat : pr_HeartbeatSeconds (cf_Pricing a) = pr_HeartbeatSeconds (cf_Pricing b);
  sm_timeout : pr_SourceRequestTimeoutSeconds (cf_Pricing a) = pr_SourceRequestTimeoutSeconds (cf_Pricing b);
  sm_gasSpike : pr_GasSpikeBps (cf_Pricing a) = pr_GasSpikeBps (cf_Pricing b);
  sm_cmcURL : pr_CoinMarketCapBaseURL (cf_Pricing a) = pr_CoinMarketCapBaseURL (cf_Pricing b);
  sm_cmcKey : pr_CoinMarketCapAPIKeyEnv (cf_Pricing a) = pr_CoinMarketCapAPIKeyEnv (cf_Pricing b);
  sm_geckoURL : pr_CoinGeckoBaseURL (cf_Pricing a) = pr_CoinGeckoBaseURL (cf_Pricing b);
  sm_geckoKey : pr_CoinGeckoAPIKeyEnv (cf_Pricing a) = pr_CoinGeckoAPIKeyEnv (cf_Pricing b);
  sm_pricingChains : same_entries pc_EID (pr_Chains (cf_Pricing a)) (pr_Chains (cf_Pricing b));
  sm_signers : same_entries sg_ID (cf_Signers a) (cf_Signers b);
  sm_chains : same_entries ccf_EID (cf_Chains a) (cf_Chains b);
  sm_pathways : same_entries route (cf_Pathways a) (cf_Pathways b) }.

(** What is compared in the key of a section: an address is one of 20 bytes. *)
Record wf_config (c : Config) : Prop := {
  wc_signer : wf_address (pr_Signer (cf_Pricing c));
  wc_signers : Forall (fun s => wf_address (sg_ID s)) (cf_Signers c);
  wc_pathways : Forall wf_pathway (cf_Pathways c) }.

Lemma keyed_lookup {T} (key : T -> string) items k : keyed key items !! k = last (filter (fun x => key x = k) items).
Proof.
  unfold keyed. induction items as [|x items IH] using rev_ind; [done|].
  rewrite foldl_app, filter_app, filter_cons, filter_nil. cbn [foldl]. case_decide as Hk.
  - by rewrite <- Hk, lookup_insert_eq, last_snoc.
  - by rewrite lookup_insert_ne, app_nil_r.
Qed.

(** A section keyed by a text that tells the keys of its entries apart. *)
Lemma keyed_same {T K} `{EqDecision K} (key : T -> K) (text : T -> string) a b :
  (forall x y, x ∈ a ++ b -> y ∈ a ++ b -> text x = text y <-> key x = key y) ->
  keyed text a = keyed text b <-> same_entries key a b.
Proof.
  intros Hinj. assert (forall l x, l ⊆ a ++ b -> x ∈ a ++ b ->
    filter (fun y => text y = text x) l = filter (fun y => key y = key x) l) as Hf.
  { intros l x Hl Hx. induction l as [|y l IH]; [done|]. rewrite !filter_cons, IH by set_solver.
    assert (text y = text x <-> key y = key x) as E by (apply Hinj; set_solver). by do 2 case_decide; tauto. }
  assert (forall (P : T -> Prop) `{forall x, Decision (P x)}, (forall x, x ∈ a ++ b -> ~ P x) ->
    last (filter P a) = last (filter P b)) as Hnone.
  { intros P HP Hno. assert (forall l, l ⊆ a ++ b -> filter P l = []) as Hl; [|by rewrite !Hl by set_solver].
    intros l Hl. apply elem_of_nil_inv. intros x [Hx Hin]%list_elem_of_filter. by apply (Hno x), Hx; apply Hl. }
  split.
  - intros E k. destruct (decide (Exists (fun x => key x = k) (a ++ b))) as [(x & Hx & <-)%list.Exists_exists|Hno].
    + rewrite <- !Hf, <- !keyed_lookup, E by set_solver. done.
    + apply Hnone. intros x Hx Hk. apply Hno, list.Exists_exists. eauto.
  - intros Hs. apply map_eq. intros k. rewrite !keyed_lookup.
    destruct (decide (Exists (fun x => text x = k) (a ++ b))) as [(x & Hx & <-)%list.Exists_exists|Hno].
    + rewrite !Hf by set_solver. apply Hs.
    + apply Hnone. intros x Hx Hk. apply Hno, list.Exists_exists. eauto.
Qed.

(** What the keys rely on of the address text: distinct addresses differ, and it has no colon. *)
Context (hex_inj : forall a b, wf_address a -> wf_address b -> AddressHex a = AddressHex b -> a = b)
  (hex_colon : forall a, wf_address a -> no_char colon (AddressHex a)).

Lemma same_pricing a b : wf_address (pr_Signer a) -> wf_address (pr_Signer b) ->
  pricingGlobal a = pricingGlobal b <->
  pr_Enabled a = pr_Enabled b /\ pr_Signer a = pr_Signer b /\ pr_IntervalSeconds a = pr_IntervalSeconds b /\
  pr_StaleAfterSeconds a = pr_StaleAfterSeconds b /\ pr_MaxDeviationBps a = pr_MaxDeviationBps b /\
  pr_MinUpdateDeviationBps a = pr_MinUpdateDeviationBps b /\ pr_HeartbeatSeconds a = pr_HeartbeatSeconds b /\
  pr_SourceRequestTimeoutSeconds a = pr_SourceRequestTimeoutSeconds b /\ pr_GasSpikeBps a = pr_GasSpikeBps b /\
  pr_CoinMarketCapBaseURL a = pr_CoinMarketCapBaseURL b /\ pr_CoinMarketCapAPIKeyEnv a = pr_CoinMarketCapAPIKeyEnv b /\
  pr_CoinGeckoBaseURL a = pr_CoinGeckoBaseURL b /\ pr_CoinGeckoAPIKeyEnv a = pr_CoinGeckoAPIKeyEnv b.
Proof.
  intros Ha Hb. unfold pricingGlobal. split.
  - intros [= ? Hs%hex_inj ???????????]; done.
  - intros (-> & -> & -> & -> & -> & -> & -> & -> & -> & -> & -> & -> & ->). done.
Qed.

Lemma same_services a b : services a = services b <->
  (runs (sv_Executor (cf_Services a)) <-> runs (sv_Executor (cf_Services b))) /\
  (runs (sv_DVN (cf_Services a)) <-> runs (sv_DVN (cf_Services b))).
Proof.
  unfold services, ExecutorEnabled, DVNEnabled, EnabledOrDefault, runs.
  destruct (sv_Executor (cf_Services a)) as [[]|], (sv_Executor (cf_Services b)) as [[]|],
    (sv_DVN (cf_Services a)) as [[]|], (sv_DVN (cf_Services b)) as [[]|]; cbn; (split; [intros [=]|intros [? ?]]); naive_solver.
Qed.

Lemma same_maps a b : wf_config a -> wf_config b ->
  (pricingChainMap (pr_Chains (cf_Pricing a)) = pricingChainMap (pr_Chains (cf_Pricing b)) <->
     same_entries pc_EID (pr_Chains (cf_Pricing a)) (pr_Chains (cf_Pricing b))) /\
  (signerMap (cf_Signers a) = signerMap (cf_Signers b) <-> same_entries sg_ID (cf_Signers a) (cf_Signers b)) /\
  (chainMap (cf_Chains a) = chainMap (cf_Chains b) <-> same_entries ccf_EID (cf_Chains a) (cf_Chains b)) /\
  (pathwayMap (cf_Pathways a) = pathwayMap (cf_Pathways b) <-> same_entries route (cf_Pathways a) (cf_Pathways b)).
Proof.
  intros [_ Sa Pa] [_ Sb Pb]. pose proof (Forall_app_2 _ _ _ Sa Sb) as Hs. pose proof (Forall_app_2 _ _ _ Pa Pb) as Hp.
  rewrite list.Forall_forall in Hs. rewrite list.Forall_forall in Hp. split_and!; apply keyed_same; intros x y Hx Hy.
  - split; [apply (inj pretty)|congruence].
  - split; [apply hex_inj; auto|congruence].
  - split; [apply (inj pretty)|congruence].
  - unfold route. split; [|by intros [= -> -> -> ->]].
    destruct (Hp x Hx), (Hp y Hy). intros (-> & -> & -> & ->)%(pathwayKey_inj hex_inj hex_colon); done.
Qed.

(** C14: The diff of two configurations with 20-byte addresses is empty exactly when they mean the
    same: every setting, service, chain, signer and pathway (redaction never hides a change:
    secrets are compared before they are redacted). And no change it prints
    carries a secret: database URLs lose their user, fragment and query but for a known
    sslmode, endpoint URLs are reduced to their scheme, password files are redacted, and an
    environment reference is printed only when it is a variable's name. *)
Theorem Diff_spec before after :
  wf_config before -> wf_config after ->
  (Diff before after = [] <-> same_config before after) /\ Forall public_change (Diff before after).
Proof.
  intros Hb Ha. split.
  - unfold Diff. rewrite !app_nil, compareRedactedURL_nil, !compare_nil, compareProjected_nil, !diffMaps_nil,
      !diffMapsProjected_nil, same_services, (same_pricing _ _ (wc_signer _ Hb) (wc_signer _ Ha)).
    destruct (same_maps _ _ Hb Ha) as (-> & -> & -> & ->). split; [intros H'; constructor; apply H'|intros []; tauto].
  - unfold Diff, compareRedactedURL, compareValues, compareProjected.
    rewrite !Forall_app. split_and!;
      try (by apply diffMapsProjected_public; auto using redactSigner_public, redactChain_public);
      case_decide; try done; (apply Forall_singleton; split); cbn [ch_Before ch_After from_option];
      first [apply redactDatabaseURL_public | apply redactPricing_public | done].
Qed.

End redacted.

(** The same diff for every range order of the maps. *)
Lemma Diff_deterministic (R1 R2 : ConfigRuntime) `{URLText, AddressText} before after :
  (forall raw, @url_Parse R1 raw = @url_Parse R2 raw) ->
  @Diff R1 _ _ before after = @Diff R2 _ _ before after.
Proof.
  intros Hu. assert (forall raw schemes, @redactEndpointURL R1 raw schemes = @redactEndpointURL R2 raw schemes) as He.
  { intros. unfold redactEndpointURL. by rewrite Hu. }
  unfold Diff, diffMaps. do 4 f_equal. f_equal; [|f_equal; [|f_equal; [|f_equal]]].
  all: try apply diffMapsProjected_range.
  - unfold compareProjected, redactPricingGlobal, redactHTTPURL. by rewrite !He.
  - rewrite (diffMapsProjected_range R1 R2). unfold diffMapsProjected. f_equal. apply list_fmap_ext. intros _ k _.
    unfold diffKey, compareProjected, redactSigner, redactHTTPURL. by repeat (case_match || case_decide); rewrite ?He.
  - rewrite (diffMapsProjected_range R1 R2). unfold diffMapsProjected. f_equal. apply list_fmap_ext. intros _ k _.
    assert (forall c, @redactChain R1 c = @redactChain R2 c) as Hc.
    { intros c. assert (@redactRPCURL R1 <$> ccf_RPCURLs c = @redactRPCURL R2 <$> ccf_RPCURLs c) as E
        by (apply list_fmap_ext; intros; apply He).
      unfold redactChain. by rewrite E. }
    unfold diffKey, compareProjected. by repeat (case_match || case_decide); rewrite ?Hc.
Qed.

(** ** A changed database password *)

Section sample.
#[local] Existing Instance sample_runtime.
#[local] Instance sample_diff_text : AddressText := config_address_text.
Definition sample_URL_String (u : FullURL) : string :=
  fu_Scheme u +:+ "://" +:+ from_option (fun user => user +:+ "@") "" (fu_User u) +:+ fu_Host u +:+ fu_Path u +:+ "?" +:+
  fu_RawQuery u +:+ (if decide (fu_Fragment u = ""%string) then "" else "#" +:+ fu_RawFragment u).
Lemma sample_URL_fragment u f : fu_Fragment u = ""%string -> sample_URL_String (u <| fu_RawFragment := f |>) = sample_URL_String u.
Proof. unfold sample_URL_String, update. cbn. by intros ->. Qed.
#[local] Instance sample_url_text : URLText := {|
  full_Parse raw := Some (mkFullURL "postgres" "" (Some raw) "db" "/worker" "" false false "sslmode=require&password=p" "f" "f");
  query_values _ _ := ["require"%string];
  full_String := sample_URL_String;
  full_String_fragment := sample_URL_fragment |}.

Lemma sample_diff_colon a : wf_address a -> no_char colon (sample_hex a).
Proof. intros _. apply no_char_app. split; [by repeat split|apply hex_colon]. Qed.
Lemma wf_config_database c url : wf_config c -> wf_config (c <| cf_DatabaseURL := url |>).
Proof. intros [H1 H2 H3]. destruct c. by split. Qed.
Lemma sample_config_wf : wf_config sample_config.
Proof. split; unfold wf_pathway, wf_address; match goal with |- ?P => refine (bool_decide_eq_true_1 P _) end; vm_compute; reflexivity. Qed.

Lemma Diff_spec_witness :
  let other := sample_config <| cf_DatabaseURL := "postgres://user:secret@db/worker"%string |> in
  let shown := Some (VText "postgres://db/worker?sslmode=require"%string) in
  Diff sample_config other = [mkChange "database_url" shown shown] /\ Diff sample_config sample_config = [] /\
  Forall public_change (Diff sample_config other).
Proof.
  split; [vm_compute; reflexivity|]. split.
  - apply (Diff_spec sample_hex_inj sample_diff_colon sample_config sample_config sample_config_wf sample_config_wf). by split.
  - apply (proj2 (Diff_spec sample_hex_inj sample_diff_colon sample_config _ sample_config_wf
      (wf_config_database sample_config _ sample_config_wf))).
Defined.
End sample.
