(* ===== verification/DbSetup.v ===== *)
(** * Preparing the database at startup (go/internal/db/db.go)

    [Migrate] applies the embedded migrations once, in order, and refuses a changed one;
    [SyncConfig] brings the chains and pathways tables in line with the configuration: what it
    declares is enabled, everything else is disabled and an operator's pause stays. Both run in
    transactions: an error leaves the tables as they were. *)

From S2P Require Import Prelude Schema SendScope Store GoErr Sha256 StateReads Quorum QuorumLogs Registry StringOrder.
From stdpp Require Import base gmap list strings numbers fin_maps sorting.
From Stdlib Require Import ZArith Lia.
#[local] Open Scope Z_scope.

(** ** Migrations *)

Section migrate.
(** The schema the migrations change, and what executing one does to it. *)
Context {Schema : Type} (Exec : string -> Schema -> result string Schema).

Record migrated := mkMigrated { sm_applied : gmap string string; sm_schema : Schema }.

Definition migrationChecksum (body : bytes) : string := EncodeToString (Sum256 body).

(** A file of the embedded directory: its name, its bytes and the text they are. *)
Record MigrationFile := mkFile { mf_name : string; mf_body : bytes; mf_sql : string }.

Definition applyMigration (version checksum sql : string) (s : migrated) : result string migrated :=
  match sm_applied s !! version with
  | Some appliedChecksum =>
    check appliedChecksum = checksum or ("migration " +:+ version +:+ " checksum mismatch")%string ;;
    Ok s
  | None =>
    schema ← Exec sql (sm_schema s);
    Ok (mkMigrated (<[version := checksum]> (sm_applied s)) schema)
  end.

(** One transaction per file: what was committed before an error stays. *)
Fixpoint applyMigrations (files : list MigrationFile) (s : migrated) : migrated * result string unit :=
  match files with
  | [] => (s, Ok tt)
  | f :: files =>
    match applyMigration (mf_name f) (migrationChecksum (mf_body f)) (mf_sql f) s with
    | Err e => (s, Err e)
    | Ok s => applyMigrations files s
    end
  end.

(** [Glob] lists the embedded files in some order; they are applied by name. *)
Definition file_le (a b : MigrationFile) : Prop := str_le (mf_name a) (mf_name b).
#[local] Instance file_le_dec a b : Decision (file_le a b) := str_le_dec _ _.
Definition Migrate (files : list MigrationFile) (s : migrated) : migrated * result string unit :=
  applyMigrations (merge_sort file_le files) s.

Definition applied_files (files : list MigrationFile) (s : migrated) : Prop :=
  Forall (fun f => sm_applied s !! mf_name f = Some (migrationChecksum (mf_body f))) files.

Lemma applyMigration_keeps v c sql s s' : applyMigration v c sql s = Ok s' ->
  sm_applied s' !! v = Some c /\ sm_applied s ⊆ sm_applied s'.
Proof.
  unfold applyMigration, mbind, result_bind. intros Ha. destruct (sm_applied s !! v) eqn:E.
  - case_decide; [|done]. by simplify_eq.
  - destruct (Exec _ _); [|done]. injection Ha as <-. cbn [sm_applied]. split; [by rewrite lookup_insert_eq|].
    by apply insert_subseteq.
Qed.

Lemma applyMigrations_applied files s s' : applyMigrations files s = (s', Ok tt) ->
  applied_files files s' /\ sm_applied s ⊆ sm_applied s'.
Proof.
  revert s. induction files as [|f files IH]; intros s; cbn [applyMigrations].
  - intros [= <-]. split; [constructor|done].
  - destruct (applyMigration _ _ _ s) as [s1|] eqn:E; [|done]. intros [Hf Hs]%IH.
    apply applyMigration_keeps in E as [Hv Hsub]. split; [|by etrans]. constructor; [|done].
    by eapply lookup_weaken.
Qed.

Lemma applyMigrations_idle files s : applied_files files s -> applyMigrations files s = (s, Ok tt).
Proof.
  induction 1 as [|f files Hf _ IH]; [done|]. cbn [applyMigrations]. unfold applyMigration.
  by rewrite Hf, decide_True by done.
Qed.

(** A migration that has succeeded changes nothing when it runs again. *)
Lemma Migrate_idempotent files s s' : Migrate files s = (s', Ok tt) -> Migrate files s' = (s', Ok tt).
Proof. unfold Migrate. intros [Hf _]%applyMigrations_applied. by apply applyMigrations_idle. Qed.

(** A file whose recorded checksum differs stops the migration. *)
Lemma Migrate_mismatch files s f c :
  f ∈ files -> sm_applied s !! mf_name f = Some c -> c <> migrationChecksum (mf_body f) ->
  exists s' e, Migrate files s = (s', Err e).
Proof.
  intros Hf Hc Hn. destruct (Migrate files s) as [s' [[]|e]] eqn:E; [|eauto]. exfalso.
  unfold Migrate in E. apply applyMigrations_applied in E as [Ha Hs].
  eapply lookup_weaken in Hc; [|exact Hs]. unfold applied_files in Ha. rewrite Forall_forall in Ha.
  specialize (Ha f). rewrite merge_sort_Permutation in Ha. specialize (Ha Hf). congruence.
Qed.
End migrate.

(** ** The configuration tables *)

(** The largest INTEGER of Postgres. *)
Definition maxInt4 : Z := 2 ^ 31 - 1.
Definition outOfRange : dberr := Errorf "integer out of range".

(** INSERT .. ON CONFLICT (eid) DO UPDATE: a new row is not paused, an old one keeps its pause. *)
Definition upsertChain (m : gmap Z ChainRow) (eid : Z) : result dberr (gmap Z ChainRow) :=
  check eid <= maxInt4 or outOfRange ;;
  Ok (<[eid := Schema.mkChain true (from_option c_paused false (m !! eid))]> m).

Definition route : Type := Z * Z * bytes * bytes.
Definition row_route (r : PathwayRow) : route := (pw_src_eid r, pw_dst_eid r, pw_src_oapp r, pw_dst_oapp r).
Definition route_of (p : Pathway) : route :=
  (pw_SrcEID p, pw_DstEID p, AddressBytes (pw_SrcOApp p), AddressBytes (pw_DstOApp p)).

(** The row with a route: UNIQUE(src_eid, dst_eid, src_oapp, dst_oapp). *)
Definition conflictRow (m : gmap Z PathwayRow) (rt : route) : option (Z * PathwayRow) :=
  head (map_to_list (filter (fun kv => row_route kv.2 = rt) m)).

(** A new row takes some unused id (BIGSERIAL). *)
Definition upsertPathway (cs : gmap Z ChainRow) (m : gmap Z PathwayRow) (p : Pathway)
    : result dberr (gmap Z PathwayRow) :=
  check pw_MaxMessageSize p <= maxInt4 /\ pw_SrcEID p <= maxInt4 /\ pw_DstEID p <= maxInt4 or outOfRange ;;
  match conflictRow m (route_of p) with
  | Some (id, row) => Ok (<[id := row <| Schema.pw_enabled := pw_Enabled p |>]> m)
  | None =>
    check is_Some (cs !! pw_SrcEID p) /\ is_Some (cs !! pw_DstEID p) or Errorf "violates foreign key constraint" ;;
    Ok (<[fresh (dom m) := Schema.mkPathway (pw_SrcEID p) (pw_DstEID p) (AddressBytes (pw_SrcOApp p))
                             (AddressBytes (pw_DstOApp p)) (pw_Enabled p) false]> m)
  end.

Fixpoint upsertAll {M X} (f : M -> X -> result dberr M) (m : M) (l : list X) : result dberr M :=
  match l with
  | [] => Ok m
  | x :: l => m ← f m x; upsertAll f m l
  end.

Definition SyncConfig (r : Registry) (db : DB) : DB * result dberr unit :=
  let disabledChains := (fun c : ChainRow => c <| c_enabled := false |>) <$> chains db in
  let disabledPathways := (fun p : PathwayRow => p <| Schema.pw_enabled := false |>) <$> pathways db in
  match upsertAll upsertChain disabledChains (ch_EID <$> All r) with
  | Err e => (db, Err e)
  | Ok cs =>
    match upsertAll (upsertPathway cs) disabledPathways (Pathways r) with
    | Err e => (db, Err e)
    | Ok pws => (db <| chains := cs |> <| pathways := pws |>, Ok tt)
    end
  end.

(** ** What a sync leaves *)

Lemma upsertAll_app {M X} (f : M -> X -> result dberr M) m l1 l2 :
  upsertAll f m (l1 ++ l2) = (m' ← upsertAll f m l1; upsertAll f m' l2).
Proof.
  revert m. induction l1 as [|x l1 IH]; intros m; [done|]. cbn [app upsertAll]. unfold mbind, result_bind.
  destruct (f m x); [apply IH|done].
Qed.

Lemma upsertChains_lookup m l : Forall (fun eid => eid <= maxInt4) l ->
  exists m', upsertAll upsertChain m l = Ok m' /\
  forall k, m' !! k = if decide (k ∈ l) then Some (Schema.mkChain true (from_option c_paused false (m !! k))) else m !! k.
Proof.
  intros Hl. induction l as [|e l IH] using rev_ind; [by exists m|].
  apply Forall_app in Hl as [Hl [He _]%Forall_cons]. destruct (IH Hl) as (m1 & E & Hk).
  exists (<[e := Schema.mkChain true (from_option c_paused false (m1 !! e))]> m1). split.
  { rewrite upsertAll_app, E. cbn [mbind result_bind upsertAll]. unfold upsertChain. by rewrite decide_True. }
  intros k. destruct (decide (k = e)) as [->|Hne].
  - rewrite lookup_insert_eq, (decide_True (P := e ∈ l ++ [e])) by set_solver. rewrite Hk. by case_decide.
  - rewrite lookup_insert_ne, Hk by done. repeat case_decide; set_solver.
Qed.

(** A row of the table: its route, and whether it is enabled and paused. *)
Definition at_route (m : gmap Z PathwayRow) (rt : route) (enabled paused : bool) : Prop :=
  exists id row, m !! id = Some row /\ row_route row = rt /\ Schema.pw_enabled row = enabled /\ pw_paused row = paused.
Definition unique_routes (m : gmap Z PathwayRow) : Prop := forall i j ri rj,
  m !! i = Some ri -> m !! j = Some rj -> row_route ri = row_route rj -> i = j.
(** The pause a route had: that of its row, or none. *)
Definition paused_before (m : gmap Z PathwayRow) (rt : route) (paused : bool) : Prop :=
  (exists e, at_route m rt e paused) \/ ((forall e b, ~ at_route m rt e b) /\ paused = false).

Lemma conflictRow_Some m rt id row : conflictRow m rt = Some (id, row) -> m !! id = Some row /\ row_route row = rt.
Proof.
  unfold conflictRow. intros Hh. apply head_Some_elem_of in Hh. by apply elem_of_map_to_list, map_lookup_filter_Some in Hh.
Qed.

Lemma conflictRow_None m rt e b : conflictRow m rt = None -> ~ at_route m rt e b.
Proof.
  unfold conflictRow. rewrite head_None. intros Hn (id & row & Hm & Hr & _).
  assert ((id, row) ∈ map_to_list (filter (fun kv : Z * PathwayRow => row_route kv.2 = rt) m)) as Hin.
  { by apply elem_of_map_to_list, map_lookup_filter_Some. }
  rewrite Hn in Hin. set_solver.
Qed.

Definition fits (cs : gmap Z ChainRow) (p : Pathway) : Prop :=
  pw_MaxMessageSize p <= maxInt4 /\ pw_SrcEID p <= maxInt4 /\ pw_DstEID p <= maxInt4 /\
  is_Some (cs !! pw_SrcEID p) /\ is_Some (cs !! pw_DstEID p).

(** Writing the only row of a route sets that route and no other. *)
Lemma set_row m id row : unique_routes m ->
  (forall i r, m !! i = Some r -> row_route r = row_route row -> i = id) ->
  (forall r, m !! id = Some r -> row_route r = row_route row) ->
  unique_routes (<[id := row]> m) /\
  forall rt e b, at_route (<[id := row]> m) rt e b <->
    if decide (rt = row_route row) then e = Schema.pw_enabled row /\ b = pw_paused row else at_route m rt e b.
Proof.
  intros Hu Honly Hid. split.
  - intros i j ri rj Hi Hj Hij.
    apply lookup_insert_Some in Hi as [[<- <-]|[Hni Hi]], Hj as [[<- <-]|[Hnj Hj]]; [done| | |by eapply Hu].
    + symmetry. eapply Honly; [exact Hj|congruence].
    + eapply Honly; [exact Hi|congruence].
  - intros rt e b. case_decide as Hrt.
    + subst rt. split.
      * intros (i & r & Hi & Hri & <- & <-). apply lookup_insert_Some in Hi as [[_ <-]|[Hni Hi]]; [done|].
        destruct Hni. symmetry. by eapply Honly.
      * intros [-> ->]. exists id, row. by rewrite lookup_insert_eq.
    + split; intros (i & r & Hi & Hri & He & Hb); exists i, r.
      * apply lookup_insert_Some in Hi as [[<- <-]|[Hni Hi]]; [congruence|]. by split_and!.
      * rewrite lookup_insert_ne; [by split_and!|]. intros <-. apply Hid in Hi. congruence.
Qed.

(** One upsert sets its pathway's row and keeps the row's pause. *)
Lemma upsertPathway_at cs m p : unique_routes m -> fits cs p ->
  exists m', upsertPathway cs m p = Ok m' /\ unique_routes m' /\
  forall rt e b, at_route m' rt e b <->
    if decide (rt = route_of p) then e = pw_Enabled p /\ paused_before m rt b else at_route m rt e b.
Proof.
  intros Hu (H1 & H2 & H3 & H4 & H5). unfold upsertPathway. rewrite decide_True by done.
  destruct (conflictRow m (route_of p)) as [[id row]|] eqn:E.
  - apply conflictRow_Some in E as [Hm Hr]. set (row' := row <| Schema.pw_enabled := pw_Enabled p |>).
    assert (row_route row' = route_of p) as Er by exact Hr.
    destruct (set_row m id row' Hu) as [Hu' Hat]; [intros i r Hi Hri; eapply Hu; [exact Hi|exact Hm|congruence]|intros; congruence|].
    eexists. split_and!; [done|done|]. intros rt e b. rewrite Hat, Er. case_decide as Hrt; [|done]. subst rt.
    split; [intros [-> ->]; split; [done|]; left; exists (Schema.pw_enabled row), id, row; by split_and!|].
    intros [-> [(e0 & i & r & Hi & Hri & _ & <-)|[Hno _]]]; [|destruct (Hno (Schema.pw_enabled row) (pw_paused row)); exists id, row; by split_and!].
    assert (i = id) as -> by (eapply Hu; [exact Hi|exact Hm|congruence]). by simplify_eq.
  - pose proof (fun e b => conflictRow_None m (route_of p) e b E) as Hno. rewrite decide_True by done.
    set (new := Schema.mkPathway _ _ _ _ _ _). assert (row_route new = route_of p) as Er by done.
    assert (m !! fresh (dom m) = None) as Hk by (apply not_elem_of_dom, is_fresh).
    destruct (set_row m (fresh (dom m)) new Hu) as [Hu' Hat]; [|congruence|].
    { intros i r Hi Hri. destruct (Hno (Schema.pw_enabled r) (pw_paused r)). exists i, r. by rewrite <- Er. }
    eexists. split_and!; [done|done|]. intros rt e b. rewrite Hat, Er. case_decide as Hrt; [|done]. subst rt.
    split; [intros [-> ->]; split; [done|by right]|]. intros [-> [[e0 Ha]|[_ ->]]]; [by destruct (Hno e0 b)|done].
Qed.

Lemma upsertPathways_at cs m l : unique_routes m -> Forall (fits cs) l -> NoDup (route_of <$> l) ->
  exists m', upsertAll (upsertPathway cs) m l = Ok m' /\ unique_routes m' /\
  forall rt e b, at_route m' rt e b <->
    (exists p, p ∈ l /\ route_of p = rt /\ e = pw_Enabled p /\ paused_before m rt b) \/
    (rt ∉ route_of <$> l /\ at_route m rt e b).
Proof.
  intros Hu Hf Hn. induction l as [|p l IH] using rev_ind.
  { exists m. split_and!; [done|done|]. intros. set_solver. }
  apply Forall_app in Hf as [Hl [Hp _]%Forall_cons]. rewrite fmap_app, NoDup_app in Hn.
  destruct Hn as (Hn & Hnew & _). assert (route_of p ∉ route_of <$> l) as Hpl by (intros H; by eapply Hnew, list_elem_of_here).
  destruct (IH Hl Hn) as (m1 & E & Hu1 & Hat1). destruct (upsertPathway_at cs m1 p Hu1 Hp) as (m2 & E2 & Hu2 & Hat2).
  exists m2. split_and!; [by rewrite upsertAll_app, E; cbn [mbind result_bind upsertAll]; rewrite E2|done|].
  intros rt e b. rewrite Hat2. setoid_rewrite elem_of_app. setoid_rewrite list_elem_of_singleton.
  rewrite fmap_app, elem_of_app. cbn [fmap list_fmap]. rewrite list_elem_of_singleton.
  assert (forall e b, at_route m1 (route_of p) e b <-> at_route m (route_of p) e b) as Hsame.
  { intros e' b'. rewrite Hat1. split; [|by right]. intros [(p' & Hin & Hr & _)|[_ ?]]; [|done].
    destruct Hpl. rewrite <- Hr. by apply list_elem_of_fmap_2. }
  case_decide as Hrt.
  - subst rt. unfold paused_before. setoid_rewrite Hsame. split.
    + intros [-> Hb]. left. exists p. by split_and!; [right| | |].
    + intros [(p' & [Hin| ->] & Hr & -> & Hb)|[Hno _]]; [|done|by destruct Hno; right].
      destruct Hpl. rewrite <- Hr. by apply list_elem_of_fmap_2.
  - rewrite Hat1. split.
    + intros [(p' & Hin & Hr & He & Hb)|[Hno Ha]]; [left; exists p'; auto|right; tauto].
    + intros [(p' & [Hin| ->] & Hr & He & Hb)|[Hno Ha]]; [left; exists p'; auto|by destruct Hrt|right; tauto].
Qed.

Lemma at_route_disabled m rt e b :
  at_route ((fun p : PathwayRow => p <| Schema.pw_enabled := false |>) <$> m) rt e b <->
  e = false /\ exists e0, at_route m rt e0 b.
Proof.
  split.
  - intros (id & row & Hm & <- & <- & <-). apply lookup_fmap_Some in Hm as (row0 & <- & Hm). split; [done|].
    exists (Schema.pw_enabled row0), id, row0. by split_and!.
  - intros [-> (e0 & id & row & Hm & <- & <- & <-)]. exists id, (row <| Schema.pw_enabled := false |>).
    rewrite lookup_fmap, Hm. by split_and!.
Qed.

Lemma paused_before_disabled m rt b :
  paused_before ((fun p : PathwayRow => p <| Schema.pw_enabled := false |>) <$> m) rt b <-> paused_before m rt b.
Proof. unfold paused_before. setoid_rewrite at_route_disabled. naive_solver. Qed.

Lemma unique_routes_disabled m : unique_routes m ->
  unique_routes ((fun p : PathwayRow => p <| Schema.pw_enabled := false |>) <$> m).
Proof.
  intros Hu i j ri rj (ri0 & <- & Hi)%lookup_fmap_Some (rj0 & <- & Hj)%lookup_fmap_Some Hij. by eapply Hu.
Qed.

(** The rows a packet matches are the rows of its route. *)
Lemma unique_routes_iff db : unique_routes (pathways db) <-> (forall p i j pi pj,
  pathways db !! i = Some pi -> pathways db !! j = Some pj ->
  pathway_matches p pi -> pathway_matches p pj -> i = j).
Proof.
  split.
  - intros Hu p i j pi pj Hi Hj (A1 & A2 & A3 & A4) (B1 & B2 & B3 & B4). eapply Hu; [done..|].
    unfold row_route. congruence.
  - intros Hm i j ri rj Hi Hj Hr.
    apply (Hm (mkPacketRow (pw_src_eid ri) (pw_dst_eid ri) 0 (pw_src_oapp ri) (pw_dst_oapp ri) [] [] 0 0 [] [] [] [] [] "" 0)
             i j ri rj Hi Hj); [done|]. unfold row_route in Hr. injection Hr as ????. by repeat split.
Qed.

Section sync.
Context `{AddressText}.

(** A registry of a validated configuration: identifiers and sizes fit their columns, pathways
    connect configured chains and are stored under their key, addresses have 20 bytes. *)
Record registry_ready (r : Registry) : Prop := {
  rr_eids : Forall (fun c => ch_EID c <= maxInt4) (All r);
  rr_sizes : Forall (fun p => pw_MaxMessageSize p <= maxInt4) (Pathways r);
  rr_ends : Forall (fun p => pw_SrcEID p ∈ ch_EID <$> All r /\ pw_DstEID p ∈ ch_EID <$> All r) (Pathways r);
  rr_keys : map_Forall (fun k p => k = pathway_key p /\ wf_address (pw_SrcOApp p) /\ wf_address (pw_DstOApp p)) (rg_pathways r) }.

Lemma registry_routes r : registry_ready r -> NoDup (route_of <$> Pathways r).
Proof.
  intros Hr. unfold Pathways. rewrite <- list_fmap_compose. apply NoDup_fmap_2_strong; [|apply NoDup_map_to_list].
  intros [k p] [k' p'] Hk%elem_of_map_to_list Hk'%elem_of_map_to_list Hrt.
  destruct (rr_keys r Hr k p Hk) as (-> & Hs & Hd), (rr_keys r Hr k' p' Hk') as (-> & Hs' & Hd').
  change (route_of p = route_of p') in Hrt. pose proof (f_equal (fun rt => rt.2) Hrt) as E4.
  pose proof (f_equal (fun rt => rt.1.2) Hrt) as E3. pose proof (f_equal (fun rt => rt.1.1.2) Hrt) as E2.
  pose proof (f_equal (fun rt => rt.1.1.1) Hrt) as E1. cbn [route_of fst snd] in E1, E2, E3, E4. clear Hrt.
  apply be_split_inj in E3; [|exact Hs|exact Hs']. apply be_split_inj in E4; [|exact Hd|exact Hd'].
  assert (pathway_key p = pathway_key p') as E by (unfold pathway_key; congruence).
  rewrite E in Hk |- *. congruence.
Qed.

(** The tables after a sync. *)
Record synced (r : Registry) (db db' : DB) : Prop := {
  sy_chains : forall eid c, chains db' !! eid = Some c <->
    (eid ∈ ch_EID <$> All r /\ c = Schema.mkChain true (from_option c_paused false (chains db !! eid))) \/
    (eid ∉ ch_EID <$> All r /\ exists c0, chains db !! eid = Some c0 /\ c = Schema.mkChain false (c_paused c0));
  sy_pathways : forall rt enabled paused, at_route (pathways db') rt enabled paused <->
    (exists p, p ∈ Pathways r /\ route_of p = rt /\ enabled = pw_Enabled p /\ paused_before (pathways db) rt paused) \/
    (rt ∉ route_of <$> Pathways r /\ enabled = false /\ exists e, at_route (pathways db) rt e paused);
  sy_wf : scope_wf db';
  sy_step : forall now, db' = exec (OpConfig (chains db') (pathways db')) now db }.

(** The sync of such a registry succeeds and leaves the tables [synced]. *)
Lemma SyncConfig_synced r db : registry_ready r -> scope_wf db ->
  exists db', SyncConfig r db = (db', Ok tt) /\ synced r db db'.
Proof.
  intros Hr Hwf. unfold SyncConfig. set (cs0 := _ <$> chains db). set (pws0 := _ <$> pathways db).
  destruct (upsertChains_lookup cs0 (ch_EID <$> All r)) as (cs & -> & Hcs); [by apply Forall_fmap, (rr_eids r Hr)|].
  assert (forall e, e ∈ ch_EID <$> All r -> e <= maxInt4 /\ is_Some (cs !! e)) as Hend.
  { intros e He. split; [|rewrite Hcs, decide_True by done; eauto]. apply list_elem_of_fmap in He as (c & -> & Hc).
    by apply (proj1 (Forall_forall _ _) (rr_eids r Hr)). }
  assert (Forall (fits cs) (Pathways r)) as Hfit.
  { apply Forall_forall. intros p Hp. pose proof (proj1 (Forall_forall _ _) (rr_sizes r Hr) p Hp).
    destruct (proj1 (Forall_forall _ _) (rr_ends r Hr) p Hp) as [Hs%Hend Hd%Hend]. unfold fits. tauto. }
  pose proof (proj2 (unique_routes_iff db) (wf_pathway_unique db Hwf)) as Hu.
  destruct (upsertPathways_at cs pws0 (Pathways r)) as (pws & -> & Hu' & Hpws);
    [by apply unique_routes_disabled|done|by apply registry_routes|].
  eexists. split; [done|]. set (db' := update pathways _ _).
  assert (chains db' = cs /\ pathways db' = pws) as [Ec Ep] by done. split.
  - intros eid c. rewrite Ec, Hcs. unfold cs0. rewrite lookup_fmap.
    destruct (chains db !! eid) as [c0|]; case_decide; cbn; naive_solver.
  - intros rt e b. rewrite Ep, Hpws. unfold pws0.
    setoid_rewrite paused_before_disabled. by rewrite at_route_disabled.
  - split.
    + intros g p Hp. rewrite Ec.
      destruct (wf_packet_chains db Hwf g p Hp) as [[c1 H1] [c2 H2]]. rewrite !Hcs. unfold cs0. rewrite !lookup_fmap, H1, H2.
      split; case_decide; cbn; eauto.
    + apply (wf_packet_guid db Hwf).
    + apply unique_routes_iff. exact Hu'.
  - done.
Qed.
End sync.
