(* ===== verification/DbSetupProofs.v ===== *)
(** * The database of a validated configuration

    The composition of [ValidateConfig], [NewRegistry] and [SyncConfig]: the startup of the
    worker up to the point where its loops read the tables. *)

From S2P Require Import Prelude Schema SendScope Store GoErr QuorumLogs Registry Config ConfigProofs App AppProofs AppSample DbSetup.
From stdpp Require Import base gmap list strings numbers fin_maps.
From Stdlib Require Import ZArith Lia.
#[local] Open Scope Z_scope.

Section validated.
Context `{AddressText, ConfigRuntime}.
Context (c : Config).
#[local] Abbreviation registry := (NewRegistry (cf_Chains c) (cf_Pathways c)).

(** What the decoder guarantees of addresses, and what the INTEGER column asks of the eids. *)
Record storable : Prop := {
  st_eids : Forall (fun chain => ccf_EID chain <= maxInt4) (cf_Chains c);
  st_oapps : Forall (fun p => wf_address (pw_SrcOApp p) /\ wf_address (pw_DstOApp p)) (cf_Pathways c) }.

Lemma configured_eids eid : valid_config c -> eid ∈ ch_EID <$> All registry <-> eid ∈ ccf_EID <$> cf_Chains c.
Proof.
  intros Hv. rewrite !list_elem_of_fmap. split.
  - intros (chain & -> & (cfg & Hc & ->)%valid_All); [|done]. by exists cfg.
  - intros (cfg & -> & Hc). exists (chain_of cfg). split; [done|]. apply valid_All; eauto.
Qed.

Lemma valid_registry_ready : valid_config c -> storable -> registry_ready registry.
Proof.
  intros Hv Hs. split; [apply list.Forall_forall..|].
  - intros chain (cfg & Hc & ->)%valid_All; [|done]. by apply (proj1 (list.Forall_forall _ _) (st_eids Hs)).
  - intros p Hp%valid_Pathways; [|done]. apply (pk_size c p). by apply valid_pathway.
  - intros p Hp%valid_Pathways; [|done]. rewrite !configured_eids by done.
    destruct (pk_chains c p (valid_pathway c p Hv Hp)) as (s & d & Hs' & Hd & <- & <- & _).
    split; by apply list_elem_of_fmap_2.
  - intros k p Hk. cbn [rg_pathways NewRegistry] in Hk.
    apply (keyed_fold_lookup pathway_key (fun x => x)) in Hk as (q & Hq & <- & ->); [|apply Hv].
    split; [done|]. by apply (proj1 (list.Forall_forall _ _) (st_oapps Hs)).
Qed.

(** C12: when ValidateConfig accepts a configuration whose eids fit the database's INTEGER
    columns, syncing its registry succeeds. Afterwards exactly the configured chains are
    enabled, a pathway is enabled exactly when the configuration has it enabled, everything the
    configuration dropped is disabled but kept, every pause set by an operator or a worker
    survives, no other table is written, and the tables still satisfy the constraints the
    send-scope gates rely on. *)
Theorem validated_sync db : ValidateConfig c = Ok tt -> storable -> scope_wf db ->
  exists db', SyncConfig registry db = (db', Ok tt) /\ synced registry db db' /\
    (forall eid row, chains db' !! eid = Some row -> c_enabled row = true <-> eid ∈ ccf_EID <$> cf_Chains c).
Proof.
  intros Hv%Validate_iff Hs Hwf.
  destruct (SyncConfig_synced registry db (valid_registry_ready Hv Hs) Hwf) as (db' & E & Hy).
  exists db'. split_and!; [done|done|]. intros eid row Hrow. rewrite <- configured_eids by done.
  apply (sy_chains _ _ _ Hy) in Hrow as [[He ->]|(He & c0 & _ & ->)]; done.
Qed.
End validated.

(** ** The sample configuration over old tables *)

#[local] Existing Instance config_address_text.
#[local] Existing Instance sample_runtime.

Lemma validated_sync_witness : exists db',
  SyncConfig (NewRegistry (cf_Chains sample_config) (cf_Pathways sample_config)) scope_sample = (db', Ok tt) /\
  chains db' !! 7 = Some (Schema.mkChain false false) /\ chains db' !! 101 = Some (Schema.mkChain true false).
Proof.
  destruct (validated_sync sample_config scope_sample) as (db' & E & Hs & _).
  - vm_compute. reflexivity.
  - split; apply (bool_decide_unpack _); by vm_compute.
  - apply scope_sample_wf.
  - exists db'. split; [exact E|]. split.
    + apply (sy_chains _ _ _ Hs). right. split; [apply (bool_decide_unpack _); by vm_compute|].
      exists (Schema.mkChain true false). split; vm_compute; reflexivity.
    + apply (sy_chains _ _ _ Hs). left. split; [apply (bool_decide_unpack _); by vm_compute|vm_compute; reflexivity].
Defined.
